(* ===== verification/_CoqProject ===== *)
-Q . S2P
Prelude.v
Text.v
Monad.v
Protocol.v
Queue.v
BrokerTypes.v
BrokerState.v
Broker.v
BrokerOps.v
BrokerSpec.v
BrokerFencing.v
BrokerSim.v
BrokerRefine.v
BrokerClients.v
BrokerRuns.v
BrokerTheorems.v
BrokerAnswers.v
BrokerGrants.v
Wire.v
Server.v
ServerFacts.v
Client.v
Http.v
BrokerSnapshot.v
BrokerRestore.v
BrokerValidate.v
BrokerSnapshotTheorems.v
RaftQuorum.v
RaftQuorumFacts.v
RaftGrant.v
RaftCache.v
RaftCacheFacts.v
RaftValidate.v
RaftFiles.v
RaftFilesFacts.v
RaftLog.v
RaftHardState.v
RaftLogFacts.v
RaftLogInv.v
RaftLogAppend.v
RaftLogSnapshot.v
RaftExamples.v
RaftLogRuns.v
RaftNode.v
RaftApply.v
RaftApplyFacts.v
RaftNodeOps.v
RaftFollower.v
RaftLeader.v
RaftFrames.v
RaftVotes.v
RaftElection.v
RaftRestart.v
RaftFlaws.v
RaftElectionSafety.v
RaftLeaderFacts.v
RaftWitnesses.v
RaftConfig.v
RaftTransfer.v
RaftTransferFacts.v
RaftStaging.v
RaftStream.v
RaftStreamLive.v
RaftStreamRun.v
RaftProtocol.v
RaftRpc.v
RaftConnection.v
RaftPipeline.v
RaftProxy.v
RaftEphemeral.v
RaftDispatch.v
Config.v
ConfigFacts.v
WireWitnesses.v
ConfigWitnesses.v
RaftRpcWitnesses.v
