(* ===== verification/Prelude.v ===== *)
(** * A verification development for live-mutex-rs

    live-mutex-rs is a network lock broker: clients take and release exclusive
    locks (with up to [max] holders), locks on several keys at once, and
    reader-writer locks; every grant carries a fencing token.  The broker can
    run alone or replicated by Raft.  This library models the broker, the parts
    of the Raft layer that decide what it does, the listeners and the client
    around it and the loading of the configuration, as executable definitions
    translated from the Rust sources under [src/src/], and proves what makes
    them correct.

    ** The program's parts and the files that model them

    - What the sources use of Rust's strings, numbers and socket addresses:
      [Text.v], [Text.v].
    - [protocol.rs]: requests and responses.  [Protocol.v].
    - [queue.rs]: the per-key FIFO queue, an adapter over the crate
      linked-queue.  [Queue.v]; the crate is the class [LinkedQueueCrate] with
      its documented laws, [list_queue] an instance.
    - [broker.rs], one state behind one mutex, so every public operation is one
      step.  [BrokerTypes.v] has its records with the source's fields;
      [World] is the broker with a trace of what it sent and granted and a
      counter of its reads of the outside.  Clocks, UUIDs and the iteration
      order of hash maps are the class [Env].  [BrokerState.v] has the methods
      of [LockState] and [BrokerState]; [Broker.v] the request handlers and
      the grant engine ([try_grant_next], [try_grant_once],
      [try_grant_composite]); [BrokerOps.v] registration, [drop_client],
      detaching, [tick_ttl], metrics.  Handlers are written in the state
      monad of [Monad.v], whose results are a value and a new state, a panic,
      or the exhaustion of fuel.
    - The snapshot part of [broker.rs]: writing, validating and installing.
      [BrokerSnapshot.v]; serde_json is the class [SnapshotCodec].
    - [broker_raft.rs], in parts: memberships, quorums and the choice of
      replication targets ([RaftQuorum.v]); commands, deterministic grants,
      admission and client ids ([RaftGrant.v]); the checks on ids, addresses,
      memberships and commands ([RaftValidate.v]); the response cache that
      makes retries idempotent ([RaftCache.v]); the application of the
      committed log ([RaftApply.v]); the files, on a [Disk] on which any call
      can fail, write short or stop the machine ([RaftFiles.v]); the log store
      [RaftLogStore] with its caches ([RaftLog.v]); the node's runtime state,
      membership changes and maintenance ([RaftNode.v]); elections
      ([RaftNodeOps.v]); the follower's side of AppendEntries and
      InstallSnapshot ([RaftFollower.v]); recovery at start-up ([RaftRestart.v]);
      the leader's progress, commit rule and appends ([RaftLeader.v]).  A node
      is the record [RaftNode]; the code between taking and releasing its
      locks is one definition, and the asynchronous code around them is any
      sequence of these sections.  JSON, checksums and the operating system
      are the class [RaftCodec], the clocks are arguments.
    - [server.rs] and [client.rs]: both read newline-terminated frames with a
      limit ([Wire.v]; serde_json is the class [WireCodec]).  [Server.v] is the
      stream listener: connections with their slots, handshake and dispatch,
      interleaved as a sequence of [ServerEvent]s.  [Client.v] is the client:
      its reader task, the calls in flight, and what each call sends and makes
      of a response; the fenced facade [fenced_client.rs] is its last part.
      [Http.v] has the lock endpoints of the HTTP listener, with what other
      tasks do meanwhile as arguments.
    - [config.rs] and the configuration of [broker_raft.rs]: [Config.v] and
      [RaftConfig.v]; [ConfigFacts.v] has how the opening of a node prepares
      it.  The environment is a function, the file system and the TOML parser
      are parameters, the lengths of messages the class [RaftFrameSizes].

    ** What the theorems show

    - [BrokerSpec.v] is an abstract specification of the lock table: a step
      relation with guarded grants, releases, queueing and pruning, and the
      invariant its steps keep.  [BrokerSim.v], [BrokerRefine.v] and
      [BrokerRuns.v] prove, handler by handler, that the code refines it;
      [BrokerRuns.v] lifts this to every sequence of operations.
      [BrokerTheorems.v] states the consequences: every run terminates without
      panic and refines the specification; fencing tokens of a key increase
      ([BrokerFencing.v] has the invariant); writers, readers and exclusive
      holders exclude each other; holders stay within the limit; composite
      requests cannot deadlock.
    - [BrokerClients.v] has the frames every handler respects, as a class;
      [BrokerAnswers.v] uses them: every request is answered, requests that do
      not wait are not queued, client ids are fresh.  It also has three runs
      in which the broker does less than it should.  [BrokerGrants.v]: a
      client that is told it has a lock has it, whatever the operation, and a
      composite that is told so after one of its keys was taken from it.
    - [BrokerRestore.v], [BrokerValidate.v] and [BrokerSnapshotTheorems.v]:
      validation characterised as a predicate, installation equivalent to
      validation, the round trip through a snapshot, tokens after a restore,
      independence of hash order, and a snapshot that fails its own check.
    - [RaftQuorumFacts.v]: quorums of adjacent configurations intersect, the
      quorum arithmetic is exact, and target selection reaches a quorum.
    - [RaftValidate.v]: the validation of memberships, exactly.
    - [RaftGrant.v]: token reservations, lock uuids and client ids of
      different indexes and nodes do not collide.
    - [RaftCacheFacts.v]: the cache's invariant, what trimming evicts, at most
      one application of a request, the snapshot round trip.
    - [RaftApplyFacts.v]: chunked application equals application in order, a
      repeated entry changes nothing, a replica refines the lock-table
      specification.
    - [RaftFilesFacts.v] and [RaftHardState.v]: what a crash leaves on disk.
      An append that is interrupted anywhere leaves a file that opens with the
      old entries and a prefix of the new ones; terms, votes and commit
      indexes are never taken back.
    - [RaftLogFacts.v], [RaftLogInv.v], [RaftLogAppend.v],
      [RaftLogSnapshot.v], [RaftLogRuns.v]: the invariant of the log store and
      that every operation keeps it, what an append from a leader changes, the
      round trip through the files, the incremental age scan.
    - [RaftNode.v] and [RaftFrames.v]: what each section of a node leaves
      alone.  [RaftVotes.v], [RaftElection.v] and [RaftRestart.v] use them for
      votes, candidacies and restarts, and [RaftElectionSafety.v] for any run
      of a cluster with crashes: a term has at most one leader.
    - [RaftLeaderFacts.v]: the commit rule picks the greatest index of the
      term a quorum holds, match indexes are acknowledged, repair ends.
    - [RaftFlaws.v] and [RaftFlaws.v]: closed runs in which tokens go
      backwards on a key, replicas that apply the same log part, a restart
      loses a vote, a late request erases acknowledged entries.
    - [Wire.v]: framing agrees with splitting the whole input at
      newlines, however it is cut into packets.  [ServerFacts.v]: the listener
      runs the broker and nothing else, keeps to its cap, and lets nobody
      through without the token.  [Client.v]: a call completes over any
      network with exactly its own responses; a fenced guard carries complete
      authority.  [Http.v]: every HTTP call answers and is a run of the
      broker, and a lock it grants outlives the request.
    - [ConfigFacts.v]: a configuration that loads fits its types and is sound,
      validation accepts exactly the sound ones, numbers that do not parse are
      refused; [ConfigFacts.v]: a cluster of such nodes is safe.
    - [RaftExamples.v] has instances of the parameters; [RaftWitnesses.v],
      [WireWitnesses.v] and [ConfigWitnesses.v] apply the theorems to them.

    ** Bounds and fuel

    Machine integers are [Z] with the wrap-around or saturation of the Rust
    operation; [usize] is taken to be 64 bits wide.  [try_grant_next] runs on
    fuel equal to the work left in all queues plus one ([grant_work]), and
    [BrokerRefine.v] proves it is never exhausted: every grant removes one unit
    of work.  The search for a free client id runs on the number of clients
    plus one, enough by the pigeonhole principle ([BrokerClients.v]);
    [trim_loop] on the length of the order, [apply_committed_loop] on the
    number of entries left, both proved sufficient; [read_log_loop] on the
    length of the file, [read_frame_loop] on the packets still to come, the
    context loops on the number of entries.  Theorems
    that claim a result prove that the computation returns it.

    A [Policy] bounds what requests may ask for and which seeds may be forced:
    [unforced] is the stand-alone broker, [any_seed] the replicated one.

    ** What is not modelled

    JSON encodings; of [server.rs] the accept loops, TLS, the admin, health and
    metrics routes and the HTTP handlers of a replicated node; connecting in
    [client.rs]; flags ([cli_flags.rs], [main.rs]), rendering ([status.rs],
    [metrics.rs]), the simulation harness ([sim.rs]), and of [broker_raft.rs]
    the connections, the proxying and batching of client requests, the
    transfer of snapshot chunks, status reports and telemetry: asynchronous
    input and output whose effect on the replicated state goes through the
    operations modelled.  Waits end at any point instead of at their
    deadlines.  Each handler's log
    lines and the tracing macro [routine_id!] are left out.  Election safety is
    proved for a fixed membership; [RaftFlaws.v] shows that it does not hold
    across a membership change and a restart. *)

From stdpp Require Export sorting pretty option strings gmap fin_maps list base.
From stdpp Require Export list_relations list_basics list_misc.
From stdpp Require Import options.

Declare Scope mutex_scope.
Delimit Scope mutex_scope with mutex.
Open Scope Z_scope.

(** ** Machine integers

    [u32], [u64] and [usize] values are kept as [Z]; every operation that can
    leave the range is written with the wrap-around, saturation or truncation
    the Rust operation has.  [usize] is taken to be 64 bits wide. *)

Definition u32_max : Z := 2 ^ 32 - 1.
Definition u64_max : Z := 2 ^ 64 - 1.

Definition u32_range (z : Z) : Prop := 0 <= z <= u32_max.
Definition u64_range (z : Z) : Prop := 0 <= z <= u64_max.

(** [u64::wrapping_add]. *)
Definition wrapping_add64 (a b : Z) : Z := (a + b) mod 2 ^ 64.

(** [u64::saturating_add] and [u64::saturating_mul]. *)
Definition saturating_add64 (a b : Z) : Z := Z.min (a + b) u64_max.
Definition saturating_mul64 (a b : Z) : Z := Z.min (a * b) u64_max.

(** [x as u64] and [x as u32] for a wider unsigned [x]. *)
Definition as_u64 (z : Z) : Z := z mod 2 ^ 64.
Definition as_u32 (z : Z) : Z := z mod 2 ^ 32.

(** [len() as u32], [len() as u64]. *)
Definition len_u32 (n : nat) : Z := as_u32 (Z.of_nat n).
Definition len_u64 (n : nat) : Z := as_u64 (Z.of_nat n).

Lemma u64_max_eq : u64_max = 18446744073709551615.
Proof. reflexivity. Qed.

Lemma wrapping_add64_small a b :
  0 <= a + b <= u64_max -> wrapping_add64 a b = a + b.
Proof. rewrite u64_max_eq. unfold wrapping_add64. intros. apply Z.mod_small. lia. Qed.

Lemma wrapping_add64_range a b : u64_range (wrapping_add64 a b).
Proof.
  unfold u64_range, wrapping_add64. rewrite u64_max_eq.
  pose proof (Z.mod_pos_bound (a + b) (2 ^ 64)). lia.
Qed.

Lemma saturating_add64_small a b :
  a + b <= u64_max -> saturating_add64 a b = a + b.
Proof. unfold saturating_add64. lia. Qed.

Lemma len_u32_small n : Z.of_nat n <= u32_max -> len_u32 n = Z.of_nat n.
Proof. unfold u32_max, len_u32, as_u32. intros. apply Z.mod_small. lia. Qed.

(** ** Durations and instants

    A [std::time::Duration] is a number of nanoseconds, a
    [std::time::Instant] a number of nanoseconds on the monotonic clock. *)

Definition ns_per_ms : Z := 1000000.

(** [Duration::from_millis] and [Duration::is_zero]. *)
Definition duration_from_millis (ms : Z) : Z := ms * ns_per_ms.
Definition duration_is_zero (d : Z) : bool := bool_decide (d = 0).

(** [Duration::as_millis]. *)
Definition duration_as_millis (d : Z) : Z := d / ns_per_ms.

(** ** Ordering of strings

    [String]'s [Ord] is the bytewise lexicographic order. *)

Definition string_le (a b : string) : Prop := String.leb a b = true.
Definition string_lt (a b : string) : Prop := string_le a b /\ a <> b.

#[global] Instance string_le_dec : RelDecision string_le.
Proof. unfold RelDecision, string_le. intros. apply _. Defined.

#[global] Instance string_lt_dec : RelDecision string_lt.
Proof. unfold RelDecision, string_lt. intros. apply _. Defined.

#[global] Instance string_le_total : Total string_le.
Proof. intros a b. apply String.leb_total. Qed.

#[global] Instance string_le_antisym : AntiSymm eq string_le.
Proof. intros a b. apply String.leb_antisym. Qed.

Lemma ascii_compare_N a b : Ascii.compare a b = N.compare (Ascii.N_of_ascii a) (Ascii.N_of_ascii b).
Proof. reflexivity. Qed.

Lemma string_le_cons a s b t :
  string_le (String a s) (String b t) <->
  (Ascii.N_of_ascii a < Ascii.N_of_ascii b)%N \/ (a = b /\ string_le s t).
Proof.
  unfold string_le, String.leb. simpl. rewrite ascii_compare_N.
  destruct (N.compare_spec (Ascii.N_of_ascii a) (Ascii.N_of_ascii b)) as [E|L|G].
  - assert (a = b) as ->.
    { rewrite <-(Ascii.ascii_N_embedding a), <-(Ascii.ascii_N_embedding b). by rewrite E. }
    split; [intros H; right; done|]. intros [H|[_ H]]; [lia|done].
  - split; [intros _; by left|done].
  - split; [done|]. intros [H|[-> _]]; lia.
Qed.

#[global] Instance string_le_trans : Transitive string_le.
Proof.
  intros x. induction x as [|a x IH]; intros [|b y] [|c z] H1 H2; try done.
  rewrite string_le_cons in H1, H2 |- *.
  destruct H1 as [H1|[-> H1]], H2 as [H2|[-> H2]]; eauto with lia.
Qed.

#[global] Instance string_lt_trans : Transitive string_lt.
Proof.
  intros x y z [H1 N1] [H2 N2]. split; [by etrans|].
  intros ->. apply N1. by apply (anti_symm string_le).
Qed.

#[global] Instance string_lt_irrefl : Irreflexive string_lt.
Proof. intros x [_ H]. done. Qed.

Lemma string_lt_of_le a b : string_le a b -> a <> b -> string_lt a b.
Proof. by split. Qed.

(** ** Sorting and de-duplication of key lists: [keys.sort(); keys.dedup()] *)

(** [<[String]>::sort]: the sorted permutation, which the total order on
    strings makes unique. *)
Definition sort_keys (ks : list string) : list string := merge_sort string_le ks.

(** [Vec::dedup]: keep the first of every run of equal elements. *)
Fixpoint dedup_keys (ks : list string) : list string :=
  match ks with
  | [] => []
  | k :: rest =>
      match rest with
      | [] => [k]
      | k' :: _ => if decide (k = k') then dedup_keys rest else k :: dedup_keys rest
      end
  end.

Lemma sort_keys_perm ks : sort_keys ks ≡ₚ ks.
Proof. apply merge_sort_Permutation. Qed.

Lemma sort_keys_sorted ks : StronglySorted string_le (sort_keys ks).
Proof. apply StronglySorted_merge_sort; apply _. Qed.

Lemma dedup_keys_elem ks k : k ∈ dedup_keys ks <-> k ∈ ks.
Proof.
  induction ks as [|a [|b ks] IH]; [done|done|].
  change (dedup_keys (a :: b :: ks)) with
    (if decide (a = b) then dedup_keys (b :: ks) else a :: dedup_keys (b :: ks)).
  case_decide as E; [subst; rewrite IH, !elem_of_cons|rewrite !elem_of_cons, IH, elem_of_cons]; tauto.
Qed.

Lemma dedup_keys_length ks : (length (dedup_keys ks) <= length ks)%nat.
Proof.
  induction ks as [|a [|b ks] IH]; [done|done|].
  change (dedup_keys (a :: b :: ks)) with
    (if decide (a = b) then dedup_keys (b :: ks) else a :: dedup_keys (b :: ks)).
  case_decide; cbn [length] in *; lia.
Qed.

Lemma dedup_keys_sorted ks :
  StronglySorted string_le ks -> StronglySorted string_lt (dedup_keys ks).
Proof.
  induction ks as [|a [|b ks] IH]; intros H; [constructor|repeat constructor|].
  change (dedup_keys (a :: b :: ks)) with
    (if decide (a = b) then dedup_keys (b :: ks) else a :: dedup_keys (b :: ks)).
  inversion H as [|? ? Hs Hall]; subst. specialize (IH Hs).
  case_decide as E; [done|]. constructor; [done|].
  apply Forall_forall. intros x Hx. apply (proj1 (dedup_keys_elem _ _)) in Hx.
  rewrite Forall_forall in Hall. split; [by apply Hall|]. intros <-.
  inversion Hs as [|? ? _ Hb]; subst. rewrite Forall_forall in Hb.
  apply E. apply (anti_symm string_le); [apply Hall; left|].
  apply elem_of_cons in Hx as [->|Hx]; [done|by apply Hb].
Qed.

Lemma strictly_sorted_NoDup ks : StronglySorted string_lt ks -> NoDup ks.
Proof.
  induction 1 as [|a ks _ IH Hall]; constructor; [|done].
  intros Hin. rewrite Forall_forall in Hall. by apply (irreflexivity string_lt a), Hall.
Qed.

(** [keys.sort(); keys.dedup()]: the distinct keys, strictly ascending. *)
Lemma sort_dedup_sorted ks : StronglySorted string_lt (dedup_keys (sort_keys ks)).
Proof. apply dedup_keys_sorted, sort_keys_sorted. Qed.

Lemma sort_dedup_elem ks k : k ∈ dedup_keys (sort_keys ks) <-> k ∈ ks.
Proof. rewrite dedup_keys_elem. by rewrite sort_keys_perm. Qed.

Lemma sort_dedup_nil ks : dedup_keys (sort_keys ks) = [] -> ks = [].
Proof.
  intros H. destruct ks as [|k ks]; [done|].
  assert (k ∈ dedup_keys (sort_keys (k :: ks))) as Hk by (apply sort_dedup_elem; left).
  rewrite H in Hk. by apply elem_of_nil in Hk.
Qed.

Lemma filter_all {A} (P : A -> Prop) `{!forall x, Decision (P x)} (l : list A) :
  (forall x, x ∈ l -> P x) -> filter P l = l.
Proof.
  induction l as [|x l IH]; intros Hl; [done|].
  rewrite filter_cons_True by (apply Hl; left). f_equal. apply IH. intros y Hy. apply Hl. by right.
Qed.

Lemma filter_none {A} (P : A -> Prop) `{!forall x, Decision (P x)} (l : list A) :
  (forall x, x ∈ l -> ~ P x) -> filter P l = [].
Proof.
  induction l as [|x l IH]; intros Hl; [done|].
  rewrite filter_cons_False by (apply Hl; left). apply IH. intros y Hy. apply Hl. by right.
Qed.

Lemma imap_pair_snd {A} (ks : list A) : (imap (fun i k => (i, k)) ks).*2 = ks.
Proof.
  rewrite fmap_imap. transitivity (imap (fun _ k => id k) ks); [done|].
  rewrite (imap_const id). apply list_fmap_id.
Qed.
