(* ===== verification/Text.v ===== *)
(** * Text and numbers

    What the sources use of Rust's strings, bytes and number parsing: [trim],
    the splits, [char] predicates, [FromStr] of the unsigned integers.  Strings
    are their UTF-8 bytes; the [char] predicates and [trim] work on the decoded
    characters. *)

From S2P Require Import Prelude.
From stdpp Require Import options.

Abbreviation bytes := (list Z).

(** ** Bytes *)

(** The bytes of a string. *)
Fixpoint bytes_of (s : string) : list Z :=
  match s with
  | EmptyString => []
  | String c s => Z.of_N (Ascii.N_of_ascii c) :: bytes_of s
  end.

Lemma bytes_of_inj a b : bytes_of a = bytes_of b -> a = b.
Proof.
  revert b. induction a as [|x a IH]; intros [|y b] H; simplify_eq/=; [done|].
  f_equal; [|by apply IH].
  by rewrite <-(Ascii.ascii_N_embedding x), H, Ascii.ascii_N_embedding.
Qed.

(** The string of the bytes. *)
Fixpoint string_of_bytes (b : list Z) : string :=
  match b with
  | [] => EmptyString
  | x :: b => String (Ascii.ascii_of_N (Z.to_N x)) (string_of_bytes b)
  end.

Lemma bytes_of_string_of_bytes b : Forall (fun x => 0 <= x < 256) b -> bytes_of (string_of_bytes b) = b.
Proof.
  induction 1 as [|x b Hx _ IH]; simpl; [done|]. rewrite IH, Ascii.N_ascii_embedding by lia.
  f_equal. lia.
Qed.

Definition in_range (low high b : Z) : bool := bool_decide (low <= b <= high).

(** [str::from_utf8]: the well-formed sequences of the Unicode standard. *)
Fixpoint utf8_valid (s : list Z) : bool :=
  match s with
  | [] => true
  | b1 :: s1 =>
      if in_range 0 127 b1 then utf8_valid s1
      else
        match s1 with
        | [] => false
        | b2 :: s2 =>
            if in_range 194 223 b1 then in_range 128 191 b2 && utf8_valid s2
            else
              match s2 with
              | [] => false
              | b3 :: s3 =>
                  let tail3 := in_range 128 191 b3 && utf8_valid s3 in
                  if bool_decide (b1 = 224) then in_range 160 191 b2 && tail3
                  else if bool_decide (b1 = 237) then in_range 128 159 b2 && tail3
                  else if in_range 225 239 b1 then in_range 128 191 b2 && tail3
                  else
                    match s3 with
                    | [] => false
                    | b4 :: s4 =>
                        let tail4 := in_range 128 191 b3 && in_range 128 191 b4 && utf8_valid s4 in
                        if bool_decide (b1 = 240) then in_range 144 191 b2 && tail4
                        else if bool_decide (b1 = 244) then in_range 128 143 b2 && tail4
                        else in_range 241 243 b1 && in_range 128 191 b2 && tail4
                    end
              end
        end
  end.

Definition NEWLINE : Z := 10.

(** [u8::is_ascii_whitespace]: space, tab, line feed, form feed, carriage
    return. *)
Definition is_ascii_whitespace (b : Z) : bool :=
  bool_decide (b = 32) || bool_decide (b = 9) || bool_decide (b = 10) || bool_decide (b = 12)
  || bool_decide (b = 13).

(** [str::eq_ignore_ascii_case] *)
Definition ascii_lower (b : Z) : Z := if bool_decide (65 <= b <= 90) then b + 32 else b.

Definition eq_ignore_ascii_case (a b : string) : bool :=
  bool_decide (ascii_lower <$> bytes_of a = ascii_lower <$> bytes_of b).

(** [str::to_ascii_lowercase] *)
Fixpoint to_ascii_lowercase (s : string) : string :=
  match s with
  | EmptyString => EmptyString
  | String c s =>
      String (Ascii.ascii_of_N (Z.to_N (ascii_lower (Z.of_N (Ascii.N_of_ascii c)))))
        (to_ascii_lowercase s)
  end.

(** ** Characters *)

Definition byte_of (c : Ascii.ascii) : Z := Z.of_N (Ascii.N_of_ascii c).

(** The characters of a UTF-8 string, each as its bytes: a continuation byte
    (0x80-0xBF) belongs to the lead byte before it. *)
Fixpoint split_chars (s : string) : string * list string :=
  match s with
  | EmptyString => (EmptyString, [])
  | String c s =>
      let '(continuation, rest) := split_chars s in
      if bool_decide (128 <= byte_of c < 192) then (String c continuation, rest)
      else (EmptyString, String c continuation :: rest)
  end.

Definition chars (s : string) : list string := (split_chars s).2.

(** The scalar value of a character. *)
Definition code_point (c : string) : Z :=
  match bytes_of c with
  | [] => 0
  | b :: continuation =>
      let lead := if bool_decide (b < 128) then b
                  else if bool_decide (b < 224) then b - 192
                  else if bool_decide (b < 240) then b - 224 else b - 240 in
      foldl (fun acc b => acc * 64 + (b - 128)) lead continuation
  end.

(** [char::is_whitespace]: the characters with the property White_Space. *)
Definition is_whitespace (c : string) : bool :=
  let p := code_point c in
  bool_decide (9 <= p <= 13) || bool_decide (p = 32) || bool_decide (p = 133)
  || bool_decide (p = 160) || bool_decide (p = 5760) || bool_decide (8192 <= p <= 8202)
  || bool_decide (p = 8232) || bool_decide (p = 8233) || bool_decide (p = 8239)
  || bool_decide (p = 8287) || bool_decide (p = 12288).

(** [char::is_control] *)
Definition is_control (c : string) : bool :=
  let p := code_point c in bool_decide (0 <= p <= 31) || bool_decide (127 <= p <= 159).

Fixpoint drop_while {A} (p : A -> bool) (l : list A) : list A :=
  match l with
  | [] => []
  | x :: l' => if p x then drop_while p l' else l
  end.

Definition concat_chars (cs : list string) : string := foldr String.append EmptyString cs.

(** [str::trim] *)
Definition trim (s : string) : string :=
  concat_chars (reverse (drop_while is_whitespace (reverse (drop_while is_whitespace (chars s))))).

(** A character: a lead byte and its continuation bytes. *)
Definition is_continuation (c : Ascii.ascii) : Prop := 128 <= byte_of c < 192.

Fixpoint continuation (s : string) : Prop :=
  match s with EmptyString => True | String c s => is_continuation c /\ continuation s end.

Definition is_char (c : string) : Prop :=
  match c with EmptyString => False | String a t => ~ is_continuation a /\ continuation t end.

Lemma split_chars_ok s : continuation (split_chars s).1 /\ Forall is_char (split_chars s).2.
Proof.
  induction s as [|c s [H1 H2]]; simpl; [done|]. destruct (split_chars s) as [cont rest]. simpl in *.
  case_bool_decide; simpl; split; try done. by constructor.
Qed.

Lemma split_chars_app t s cs :
  continuation t -> split_chars s = (EmptyString, cs) -> split_chars (t +:+ s) = (t, cs).
Proof.
  intros Ht Hs. induction t as [|c t IH]; [done|]. destruct Ht as [H1 H2].
  change (split_chars (String c (t +:+ s)) = (String c t, cs)). simpl. rewrite (IH H2).
  by rewrite bool_decide_eq_true_2.
Qed.

Lemma chars_concat cs : Forall is_char cs -> chars (concat_chars cs) = cs.
Proof.
  intros H. unfold chars. enough (split_chars (concat_chars cs) = (EmptyString, cs)) as -> by done.
  induction H as [|[|a t] cs Hc _ IH]; [done|done|]. destruct Hc as [H1 H2].
  change (split_chars (String a (t +:+ concat_chars cs)) = (EmptyString, String a t :: cs)).
  simpl. rewrite (split_chars_app t _ cs H2 IH). by rewrite bool_decide_eq_false_2.
Qed.

Lemma drop_while_idemp {A} (p : A -> bool) l : drop_while p (drop_while p l) = drop_while p l.
Proof. induction l as [|x l IH]; simpl; [done|]. destruct (p x) eqn:Hx; [done|]. simpl. by rewrite Hx. Qed.

Lemma drop_while_last {A} (p : A -> bool) l x :
  p x = false -> exists k, drop_while p (l ++ [x]) = k ++ [x].
Proof.
  intros Hx. induction l as [|y l IH]; simpl; [exists []; by rewrite Hx|].
  destruct (p y); [done|]. by exists (y :: l).
Qed.

Lemma drop_while_suffix {A} (p : A -> bool) l : exists k, l = k ++ drop_while p l.
Proof.
  induction l as [|x l [k Hk]]; simpl; [by exists []|].
  destruct (p x); [exists (x :: k); simpl; by f_equal|by exists []].
Qed.

Lemma trim_list_idemp {A} (p : A -> bool) l :
  let trim l := reverse (drop_while p (reverse (drop_while p l))) in trim (trim l) = trim l.
Proof.
  cbv zeta. destruct (drop_while p l) as [|x l'] eqn:Hl; rewrite ?Hl; [done|].
  assert (p x = false) as Hx.
  { pose proof (drop_while_idemp p l) as H. rewrite Hl in H. simpl in H. destruct (p x) eqn:Hx; [|done].
    destruct (drop_while_suffix p l') as [k Hk]. rewrite H in Hk.
    apply (f_equal length) in Hk. rewrite length_app in Hk. simpl in Hk. lia. }
  rewrite reverse_cons. destruct (drop_while_last p (reverse l') x Hx) as [k Hk]. rewrite Hk.
  rewrite reverse_app, reverse_singleton. simpl. rewrite Hx, reverse_cons, reverse_involutive, <-Hk.
  by rewrite drop_while_idemp, Hk, reverse_app, reverse_singleton.
Qed.

Lemma trim_trim s : trim (trim s) = trim s.
Proof.
  unfold trim at 1. unfold trim at 1. rewrite chars_concat; [by rewrite (trim_list_idemp is_whitespace (chars s))|].
  destruct (split_chars_ok s) as [_ H]. fold (chars s) in H. rewrite Forall_forall in *.
  intros c. rewrite elem_of_reverse. intros Hc. apply H.
  destruct (drop_while_suffix is_whitespace (chars s)) as [k ->]. apply elem_of_app. right.
  destruct (drop_while_suffix is_whitespace (reverse (drop_while is_whitespace (chars s)))) as [k' Hk'].
  apply elem_of_reverse. rewrite Hk'. apply elem_of_app. by right.
Qed.

(** [str::contains] of an ASCII character, given by its code. *)
Definition contains_byte (b : Z) (s : string) : bool :=
  existsb (fun c => bool_decide (c = b)) (bytes_of s).

Definition SLASH : Z := 47.
Definition BACKSLASH : Z := 92.
Definition COLON : Z := 58.
Definition OPEN_BRACKET : Z := 91.
Definition CLOSE_BRACKET : Z := 93.

(** [str::strip_prefix] *)
Fixpoint strip_prefix (p s : string) : option string :=
  match p, s with
  | EmptyString, _ => Some s
  | String a p, String b s => if bool_decide (a = b) then strip_prefix p s else None
  | String _ _, EmptyString => None
  end.

(** [str::contains] of a string. *)
Fixpoint contains_str (needle s : string) : bool :=
  match strip_prefix needle s with
  | Some _ => true
  | None => match s with EmptyString => false | String _ s => contains_str needle s end
  end.

(** [str::split_once] of an ASCII character: around its first occurrence. *)
Fixpoint split_once (b : Z) (s : string) : option (string * string) :=
  match s with
  | EmptyString => None
  | String c s =>
      if bool_decide (byte_of c = b) then Some (EmptyString, s)
      else match split_once b s with
           | Some (before, after) => Some (String c before, after)
           | None => None
           end
  end.

(** [str::rsplit_once] of an ASCII character: around its last occurrence. *)
Fixpoint rsplit_once (b : Z) (s : string) : option (string * string) :=
  match s with
  | EmptyString => None
  | String c s =>
      match rsplit_once b s with
      | Some (before, after) => Some (String c before, after)
      | None => if bool_decide (byte_of c = b) then Some (EmptyString, s) else None
      end
  end.

(** ** Numbers *)

Definition u16_max : Z := 65535.

(** The loop of [FromStr] for the unsigned type of greatest value [max_value]. *)
Fixpoint parse_digits (max_value acc : Z) (b : bytes) : option Z :=
  match b with
  | [] => Some acc
  | d :: b =>
      if bool_decide (48 <= d <= 57) then
        let acc := acc * 10 + (d - 48) in
        if bool_decide (acc <= max_value) then parse_digits max_value acc b else None
      else None
  end.

(** [str::parse] for an unsigned type: decimal digits after an optional plus
    sign. *)
Definition parse_unsigned (max_value : Z) (s : string) : option Z :=
  match bytes_of s with
  | [] => None
  | [b] => if bool_decide (b = 43) || bool_decide (b = 45) then None
           else parse_digits max_value 0 [b]
  | b :: rest => if bool_decide (b = 43) then parse_digits max_value 0 rest
                 else parse_digits max_value 0 (b :: rest)
  end.

Definition parse_u16 (s : string) : option Z := parse_unsigned u16_max s.

Lemma parse_digits_range max_value b acc n :
  0 <= acc <= max_value -> parse_digits max_value acc b = Some n -> 0 <= n <= max_value.
Proof.
  revert acc. induction b as [|d b IH]; intros acc Hacc H; simplify_eq/=; [done|].
  repeat case_bool_decide; simplify_eq. eapply (IH (acc * 10 + (d - 48))); [lia|done].
Qed.

(** What parses fits the type. *)
Lemma parse_unsigned_range max_value s n :
  0 <= max_value -> parse_unsigned max_value s = Some n -> 0 <= n <= max_value.
Proof.
  intros Hm. unfold parse_unsigned. repeat case_match; try done;
    intros H'; (eapply parse_digits_range; [|done]); lia.
Qed.

(** ** The [Debug] form *)

Definition quote_char : Ascii.ascii := Ascii.ascii_of_nat 34.

(** The [Debug] form of a string: quotes, backslashes and the control
    characters with a short escape are escaped. *)
Fixpoint escape_debug (s : string) : string :=
  match s with
  | EmptyString => EmptyString
  | String c s =>
      let b := byte_of c in
      let backslash c' := String (Ascii.ascii_of_nat 92) (String c' (escape_debug s)) in
      if bool_decide (b = 34) || bool_decide (b = 92) then backslash c
      else if bool_decide (b = 10) then backslash (Ascii.ascii_of_nat 110)
      else if bool_decide (b = 13) then backslash (Ascii.ascii_of_nat 114)
      else if bool_decide (b = 9) then backslash (Ascii.ascii_of_nat 116)
      else String c (escape_debug s)
  end.

Definition debug_option (o : option string) : string :=
  match o with
  | None => "None"
  | Some s => ("Some(" +:+ String quote_char (escape_debug s +:+ String quote_char ")"))%string
  end.

(** * Socket addresses

    What the configuration uses of [core::net]: [SocketAddr], its [FromStr] and
    its [Display].  A parser takes the bytes that are left and returns what it
    read with the rest, or nothing. *)

Inductive SocketAddr : Type :=
| SocketV4 (octets : list Z) (port : Z)
| SocketV6 (segments : list Z) (port scope_id : Z).

#[global] Instance SocketAddr_eq_dec : EqDecision SocketAddr.
Proof. solve_decision. Defined.

(** ** Parsing *)

Abbreviation Parser A := (bytes -> option (A * bytes)).

Definition PERCENT : Z := 37.
Definition DOT : Z := 46.

(** [char::to_digit] *)
Definition to_digit (radix b : Z) : option Z :=
  let d := if bool_decide (48 <= b <= 57) then b - 48
           else if bool_decide (97 <= b <= 102) then b - 87
           else if bool_decide (65 <= b <= 70) then b - 55 else radix in
  if bool_decide (d < radix) then Some d else None.

(** The digits at the front. *)
Fixpoint read_digits (radix : Z) (s : bytes) : list Z * bytes :=
  match s with
  | [] => ([], [])
  | b :: rest =>
      match to_digit radix b with
      | Some d => let '(ds, rest) := read_digits radix rest in (d :: ds, rest)
      | None => ([], s)
      end
  end.

Definition digits_value (radix : Z) (ds : list Z) : Z := foldl (fun acc d => acc * radix + d) 0 ds.

(** [Parser::read_number] for the type of greatest value [max_value] *)
Definition read_number (radix : Z) (max_digits : option nat) (allow_zero_prefix : bool)
    (max_value : Z) : Parser Z := fun s =>
  let '(ds, rest) := read_digits radix s in
  if bool_decide (ds = [])
     || match max_digits with Some n => bool_decide (n < length ds)%nat | None => false end
     || negb allow_zero_prefix && bool_decide (head ds = Some 0) && bool_decide (1 < length ds)%nat
     || bool_decide (max_value < digits_value radix ds)
  then None else Some (digits_value radix ds, rest).

(** [Parser::read_given_char] *)
Definition read_given_char (c : Z) : Parser unit := fun s =>
  match s with
  | b :: rest => if bool_decide (b = c) then Some (tt, rest) else None
  | [] => None
  end.

(** [Parser::read_separator] *)
Definition read_separator {A} (sep : Z) (index : nat) (inner : Parser A) : Parser A := fun s =>
  if bool_decide (index = 0%nat) then inner s
  else '(_, s) ← read_given_char sep s; inner s.

Fixpoint read_octets (todo index : nat) : Parser (list Z) := fun s =>
  match todo with
  | O => Some ([], s)
  | S todo =>
      '(octet, s) ← read_separator DOT index (read_number 10 (Some 3%nat) false 255) s;
      '(octets, s) ← read_octets todo (S index) s;
      Some (octet :: octets, s)
  end.

(** [Parser::read_ipv4_addr] *)
Definition read_ipv4_addr : Parser (list Z) := read_octets 4 0.

(** [read_groups]: the groups read, and whether the last two are an embedded
    IPv4 address. *)
Fixpoint read_groups (todo index : nat) (s : bytes) : list Z * bool * bytes :=
  match todo with
  | O => ([], false, s)
  | S todo =>
      match (if bool_decide (todo = 0%nat) then None
             else read_separator COLON index read_ipv4_addr s) with
      | Some ([one; two; three; four], s) => ([one * 256 + two; three * 256 + four], true, s)
      | _ =>
          match read_separator COLON index (read_number 16 (Some 4%nat) true u16_max) s with
          | Some (group, s) =>
              let '(groups, ipv4, s) := read_groups todo (S index) s in (group :: groups, ipv4, s)
          | None => ([], false, s)
          end
      end
  end.

(** [Parser::read_ipv6_addr] *)
Definition read_ipv6_addr : Parser (list Z) := fun s =>
  let '(head, head_ipv4, s) := read_groups 8 0 s in
  if bool_decide (length head = 8%nat) then Some (head, s)
  else if head_ipv4 then None
  else
    '(_, s) ← read_given_char COLON s;
    '(_, s) ← read_given_char COLON s;
    let '(tail, _, s) := read_groups (8 - (length head + 1)) 0 s in
    Some (head ++ replicate (8 - length head - length tail) 0 ++ tail, s).

(** [Parser::read_port] *)
Definition read_port : Parser Z := fun s =>
  '(_, s) ← read_given_char COLON s; read_number 10 None true u16_max s.

(** [Parser::read_scope_id] *)
Definition read_scope_id : Parser Z := fun s =>
  '(_, s) ← read_given_char PERCENT s; read_number 10 None true u32_max s.

Definition read_socket_addr_v4 : Parser SocketAddr := fun s =>
  '(ip, s) ← read_ipv4_addr s;
  '(port, s) ← read_port s;
  Some (SocketV4 ip port, s).

Definition read_socket_addr_v6 : Parser SocketAddr := fun s =>
  '(_, s) ← read_given_char OPEN_BRACKET s;
  '(ip, s) ← read_ipv6_addr s;
  let '(scope_id, s) := default (0, s) (read_scope_id s) in
  '(_, s) ← read_given_char CLOSE_BRACKET s;
  '(port, s) ← read_port s;
  Some (SocketV6 ip port scope_id, s).

(** [impl FromStr for SocketAddr]: everything must be read. *)
Definition parse_socket_addr (s : string) : option SocketAddr :=
  let b := bytes_of s in
  match match read_socket_addr_v4 b with Some r => Some r | None => read_socket_addr_v6 b end with
  | Some (addr, []) => Some addr
  | _ => None
  end.

(** ** Printing *)

Definition hex_digit (d : Z) : Ascii.ascii :=
  Ascii.ascii_of_N (Z.to_N (if bool_decide (d < 10) then 48 + d else 87 + d)).

(** [{:x}] of a [u16] *)
Definition hex16 (n : Z) : string :=
  let digits := [n / 4096; n / 256 mod 16; n / 16 mod 16; n mod 16] in
  let significant := drop_while (fun d => bool_decide (d = 0)) (take 3 digits) ++ drop 3 digits in
  foldr (fun d s => String (hex_digit d) s) EmptyString significant.

Definition join (sep : string) (parts : list string) : string := String.concat sep parts.

(** [impl Display for Ipv4Addr] *)
Definition ipv4_display (octets : list Z) : string := join "." (pretty <$> octets).

(** The first longest run of zeros: where it starts and how long it is.  The
    loop from the position [i], the longest and the current run. *)
Fixpoint zero_span (i : nat) (longest current : nat * nat) (segments : list Z) : nat * nat :=
  match segments with
  | [] => longest
  | segment :: segments =>
      if bool_decide (segment = 0) then
        let current := (if bool_decide (current.2 = 0%nat) then i else current.1, S current.2) in
        zero_span (S i) (if bool_decide (longest.2 < current.2)%nat then current else longest)
          current segments
      else zero_span (S i) longest (0, 0)%nat segments
  end.

(** [impl Display for Ipv6Addr] *)
Definition ipv6_display (segments : list Z) : string :=
  match segments with
  | [0; 0; 0; 0; 0; 65535; ab; cd] =>
      ("::ffff:" +:+ ipv4_display [ab / 256; ab mod 256; cd / 256; cd mod 256])%string
  | _ =>
      let subslice (chunk : list Z) := join ":" (hex16 <$> chunk) in
      let '(start, len) := zero_span 0 (0, 0)%nat (0, 0)%nat segments in
      if bool_decide (1 < len)%nat
      then (subslice (take start segments) +:+ "::" +:+ subslice (drop (start + len) segments))%string
      else subslice segments
  end.

(** [impl Display for SocketAddr] *)
Definition socket_addr_display (addr : SocketAddr) : string :=
  match addr with
  | SocketV4 octets port => ipv4_display octets +:+ ":" +:+ pretty port
  | SocketV6 segments port scope_id =>
      if bool_decide (scope_id = 0) then "[" +:+ ipv6_display segments +:+ "]:" +:+ pretty port
      else "[" +:+ ipv6_display segments +:+ "%" +:+ pretty scope_id +:+ "]:" +:+ pretty port
  end%string.

(** ** Addresses of their type *)

Definition addr_typed (addr : SocketAddr) : Prop :=
  match addr with
  | SocketV4 octets port =>
      length octets = 4%nat /\ Forall (fun o => 0 <= o <= 255) octets /\ 0 <= port <= u16_max
  | SocketV6 segments port scope_id =>
      length segments = 8%nat /\ Forall (fun s => 0 <= s <= u16_max) segments /\
      0 <= port <= u16_max /\ u32_range scope_id
  end.

Example parse_v4 : parse_socket_addr "127.0.0.1:7980" = Some (SocketV4 [127; 0; 0; 1] 7980).
Proof. reflexivity. Qed.
Example parse_v6 : parse_socket_addr "[fe80::1%3]:80" = Some (SocketV6 [65152; 0; 0; 0; 0; 0; 0; 1] 80 3).
Proof. reflexivity. Qed.
Example parse_v6_mapped :
  parse_socket_addr "[::ffff:10.0.0.1]:65535" = Some (SocketV6 [0; 0; 0; 0; 0; 65535; 2560; 1] 65535 0).
Proof. reflexivity. Qed.
Example parse_no_octal : parse_socket_addr "127.0.0.01:80" = None.
Proof. reflexivity. Qed.
Example display_v6 :
  socket_addr_display (SocketV6 [8193; 3512; 0; 0; 1; 0; 0; 1] 80 0) = "[2001:db8::1:0:0:1]:80"%string.
Proof. reflexivity. Qed.
