(* ===== verification/Monad.v ===== *)
(** * The state-and-outcome monad the stateful components are written in

    A computation over a state [S] either finishes with a value and a new
    state, panics (an [expect] or an out-of-range index), or runs out of the
    fuel given to a loop.  The weakest-precondition predicate [wp] is *total*:
    [wp m Q s] holds only when [m] finishes from [s], so every theorem stated
    with it also shows that the code returns and does not panic. *)

From S2P Require Import Prelude.
From stdpp Require Import options.

Inductive Res (S A : Type) : Type :=
| Done (a : A) (s : S)
| Panicked (msg : string)
| OutOfFuel.
Arguments Done {S A}.
Arguments Panicked {S A}.
Arguments OutOfFuel {S A}.

Definition M (S A : Type) : Type := S -> Res S A.

#[global] Instance M_ret {S} : MRet (M S) := fun A a s => Done a s.

#[global] Instance M_bind {S} : MBind (M S) := fun A B f m s =>
  match m s with
  | Done a s' => f a s'
  | Panicked e => Panicked e
  | OutOfFuel => OutOfFuel
  end.

Section primitives.
Context {S : Type}.

Definition get : M S S := fun s => Done s s.
Definition gets {A} (f : S -> A) : M S A := fun s => Done (f s) s.
Definition modify (f : S -> S) : M S unit := fun s => Done tt (f s).
Definition panic {A} (msg : string) : M S A := fun _ => Panicked msg.
Definition out_of_fuel {A} : M S A := fun _ => OutOfFuel.

(** [for x in xs { body(x) }] *)
Fixpoint for_each {A} (xs : list A) (body : A -> M S unit) : M S unit :=
  match xs with
  | [] => mret tt
  | x :: xs' => body x ;; for_each xs' body
  end.

(** [for x in xs { acc = body(acc, x) }] *)
Fixpoint for_fold {A B} (xs : list A) (acc : B) (body : B -> A -> M S B) : M S B :=
  match xs with
  | [] => mret acc
  | x :: xs' => acc' ← body acc x; for_fold xs' acc' body
  end.

End primitives.

(** The result state of a finished computation, for evaluating examples. *)
Definition run_state {S A} (m : M S A) (s : S) : option S :=
  match m s with Done _ s' => Some s' | _ => None end.

Definition wp {S A} (m : M S A) (Q : A -> S -> Prop) (s : S) : Prop :=
  match m s with
  | Done a s' => Q a s'
  | _ => False
  end.

Section wp_rules.
Context {S : Type}.
Implicit Types s : S.

Lemma bind_done {A B} (m : M S A) (f : A -> M S B) s a s' :
  m s = Done a s' -> (m ≫= f) s = f a s'.
Proof. unfold mbind, M_bind. by intros ->. Qed.

Lemma bind_done_inv {A B} (m : M S A) (f : A -> M S B) s b s' :
  (m ≫= f) s = Done b s' -> exists a s1, m s = Done a s1 /\ f a s1 = Done b s'.
Proof. unfold mbind, M_bind. destruct (m s) as [a s1| |]; [|done..]. eauto. Qed.

Lemma wp_ret {A} (a : A) Q s : Q a s -> wp (mret a) Q s.
Proof. done. Qed.

Lemma wp_bind {A B} (m : M S A) (f : A -> M S B) Q s :
  wp m (fun a s' => wp (f a) Q s') s -> wp (m ≫= f) Q s.
Proof. unfold wp, mbind, M_bind. by destruct (m s). Qed.

Lemma wp_bind_inv {A B} (m : M S A) (f : A -> M S B) Q s :
  wp (m ≫= f) Q s -> wp m (fun a s' => wp (f a) Q s') s.
Proof. unfold wp, mbind, M_bind. by destruct (m s). Qed.

Lemma wp_mono {A} (m : M S A) (Q Q' : A -> S -> Prop) s :
  wp m Q s -> (forall a s', Q a s' -> Q' a s') -> wp m Q' s.
Proof. unfold wp. destruct (m s); eauto. Qed.

Lemma wp_conj {A} (m : M S A) (Q Q' : A -> S -> Prop) s :
  wp m Q s -> wp m Q' s -> wp m (fun a s' => Q a s' /\ Q' a s') s.
Proof. unfold wp. by destruct (m s). Qed.

Lemma wp_done {A} (m : M S A) Q s :
  wp m Q s <-> exists a s', m s = Done a s' /\ Q a s'.
Proof.
  unfold wp. destruct (m s); naive_solver.
Qed.

Lemma wp_get Q s : Q s s -> wp get Q s.
Proof. done. Qed.

Lemma wp_gets {A} (f : S -> A) Q s : Q (f s) s -> wp (gets f) Q s.
Proof. done. Qed.

Lemma wp_modify (f : S -> S) Q s : Q tt (f s) -> wp (modify f) Q s.
Proof. done. Qed.

Lemma wp_for_each {A} (I : list A -> S -> Prop) (xs : list A) body Q s :
  I [] s ->
  (forall pre x post s', xs = pre ++ x :: post -> I pre s' ->
     wp (body x) (fun _ s'' => I (pre ++ [x]) s'') s') ->
  (forall s', I xs s' -> Q tt s') ->
  wp (for_each xs body) Q s.
Proof.
  intros H0 Hstep HQ.
  cut (forall post pre s', xs = pre ++ post -> I pre s' ->
         wp (for_each post body) (fun _ s'' => I xs s'') s').
  { intros Hc. eapply wp_mono; [by apply (Hc xs [])|]. intros []. apply HQ. }
  intros post. induction post as [|x post IH]; intros pre s' Hxs HI; simpl.
  - rewrite app_nil_r in Hxs. by subst.
  - apply wp_bind. eapply wp_mono; [by apply (Hstep pre x post)|].
    intros [] s'' HI'. apply (IH (pre ++ [x])); [|done]. by rewrite <-app_assoc.
Qed.

(** The common case: an invariant that does not mention the position. *)
Lemma wp_for_each_inv {A} (I : S -> Prop) (xs : list A) body s :
  I s -> (forall x s', x ∈ xs -> I s' -> wp (body x) (fun _ => I) s') ->
  wp (for_each xs body) (fun _ => I) s.
Proof.
  intros H0 Hstep. apply (wp_for_each (fun _ => I)); [done| |done].
  intros pre x post s' -> HI. apply Hstep; [set_solver|done].
Qed.

Lemma wp_for_fold_inv {A B} (I : B -> S -> Prop) (xs : list A) acc body s :
  I acc s -> (forall x acc' s', x ∈ xs -> I acc' s' -> wp (body acc' x) I s') ->
  wp (for_fold xs acc body) I s.
Proof.
  revert acc s. induction xs as [|x xs IH]; intros acc s H0 Hstep; simpl; [done|].
  apply wp_bind. eapply wp_mono; [apply Hstep; [left|done]|].
  intros acc' s' HI. apply IH; [done|]. intros y acc'' s'' Hy. apply Hstep. by right.
Qed.

End wp_rules.

Global Opaque wp.

(** Reduce a [wp] goal over straight-line code: binds, returns, reads and
    state updates. *)
Ltac wp_simpl :=
  repeat first
    [ apply wp_bind
    | apply wp_ret
    | apply wp_get
    | apply wp_gets
    | apply wp_modify ].

(** ** Partial correctness: what holds if a computation returns *)

Definition wlp {S A} (m : M S A) (Q : A -> S -> Prop) (s : S) : Prop :=
  forall a s', m s = Done a s' -> Q a s'.

Section wlp_rules.
Context {S : Type}.

Lemma wlp_ret {A} (a : A) Q (s : S) : Q a s -> wlp (mret a) Q s.
Proof. by intros HQ ? ? [= <- <-]. Qed.

Lemma wlp_get Q (s : S) : Q s s -> wlp get Q s.
Proof. by intros HQ ? ? [= <- <-]. Qed.

Lemma wlp_modify (f : S -> S) Q (s : S) : Q tt (f s) -> wlp (modify f) Q s.
Proof. by intros HQ ? ? [= <- <-]. Qed.

Lemma wlp_bind {A B} (m : M S A) (f : A -> M S B) Q s :
  wlp m (fun a s' => wlp (f a) Q s') s -> wlp (m ≫= f) Q s.
Proof.
  intros Hm b s'. unfold mbind, M_bind. destruct (m s) as [a s1| |] eqn:Heq; [|done..].
  by apply Hm.
Qed.

Lemma wlp_mono {A} (m : M S A) (Q Q' : A -> S -> Prop) s :
  wlp m Q s -> (forall a s', Q a s' -> Q' a s') -> wlp m Q' s.
Proof. intros Hm HQ a s' Heq. by apply HQ, Hm. Qed.

Lemma wlp_conj {A} (m : M S A) (Q Q' : A -> S -> Prop) s :
  wlp m Q s -> wlp m Q' s -> wlp m (fun a s' => Q a s' /\ Q' a s') s.
Proof. intros H1 H2 a s' Heq. split; [by apply H1|by apply H2]. Qed.

End wlp_rules.

(** ** Frames: what a computation keeps of the state it starts from *)

Definition keeps {S A} (R : S -> S -> Prop) (m : M S A) : Prop :=
  forall s a s', m s = Done a s' -> R s s'.

Lemma keeps_mono {S A} (R R' : S -> S -> Prop) (m : M S A) :
  (forall s s', R s s' -> R' s s') -> keeps R m -> keeps R' m.
Proof. intros HR Hm s a s' H. by eapply HR, Hm. Qed.

Section keeps.
Context {S : Type} (R : S -> S -> Prop) `{!PreOrder R}.

Lemma keeps_ret {A} (a : A) : keeps R (mret a).
Proof using All. by intros s b s' [= -> ->]. Qed.

Lemma keeps_gets {A} (f : S -> A) : keeps R (gets f).
Proof using All. intros s b s' H. by injection H as _ <-. Qed.

Lemma keeps_get : keeps R get.
Proof using All. intros s b s' H. by injection H as _ <-. Qed.

Lemma keeps_modify (f : S -> S) : (forall s, R s (f s)) -> keeps R (modify f).
Proof using All. intros Hf s b s' H. injection H as _ <-. apply Hf. Qed.

Lemma keeps_panic {A} msg : keeps R (@panic S A msg).
Proof using All. done. Qed.

Lemma keeps_out_of_fuel {A} : keeps R (@out_of_fuel S A).
Proof using All. done. Qed.

Lemma keeps_bind {A B} (m : M S A) (f : A -> M S B) :
  keeps R m -> (forall a, keeps R (f a)) -> keeps R (m ≫= f).
Proof using All.
  intros Hm Hf s b s'. unfold mbind, M_bind. destruct (m s) as [a s1| |] eqn:E; [|done..].
  intros H. etrans; [by eapply Hm|by eapply Hf].
Qed.

Lemma keeps_for_each {A} (xs : list A) body :
  (forall x, keeps R (body x)) -> keeps R (for_each xs body).
Proof using All. intros Hb. induction xs; simpl; auto using keeps_ret, keeps_bind. Qed.

Lemma keeps_for_fold {A B} (xs : list A) (acc : B) body :
  (forall b x, keeps R (body b x)) -> keeps R (for_fold xs acc body).
Proof using All.
  intros Hb. revert acc. induction xs; intros; simpl; auto using keeps_ret, keeps_bind.
Qed.

End keeps.

Create HintDb keeps.
#[export] Hint Resolve keeps_ret keeps_get keeps_gets keeps_panic keeps_out_of_fuel keeps_bind
  keeps_for_each keeps_for_fold : keeps.

(** Split a [keeps] goal along the structure of the code. *)
Ltac keeps_split :=
  repeat first
    [ progress intros
    | solve [eauto 2 with keeps]
    | apply keeps_bind; [apply _| |]
    | apply keeps_ret; apply _
    | apply keeps_gets; apply _
    | apply keeps_panic; apply _
    | apply keeps_out_of_fuel; apply _
    | apply keeps_for_each; [apply _|]
    | apply keeps_for_fold; [apply _|]
    | progress eauto with keeps
    | progress cbv zeta
    | case_match ].

(** ** Computations that return from every state *)

Definition returns {S A} (m : M S A) : Prop := forall s, exists a s', m s = Done a s'.

Section returns.
Context {S : Type}.

Lemma returns_ret {A} (a : A) : returns (S := S) (mret a).
Proof. intros s. by eexists _, _. Qed.

Lemma returns_get : returns (S := S) get.
Proof. intros s. by eexists _, _. Qed.

Lemma returns_modify (f : S -> S) : returns (modify f).
Proof. intros s. by eexists _, _. Qed.

Lemma returns_bind {A B} (m : M S A) (f : A -> M S B) :
  returns m -> (forall a, returns (f a)) -> returns (m ≫= f).
Proof.
  intros Hm Hf s. destruct (Hm s) as (a & s1 & H). unfold mbind, M_bind. rewrite H. apply Hf.
Qed.

End returns.

Create HintDb returns.
#[export] Hint Resolve returns_ret returns_get returns_modify returns_bind : returns.

(** ** Finite sequences of steps *)

Section star.
Context {S : Type} (step : S -> S -> Prop).

Inductive star : S -> S -> Prop :=
| star_refl s : star s s
| star_cons s1 s2 s3 : step s1 s2 -> star s2 s3 -> star s1 s3.

Lemma star_one s1 s2 : step s1 s2 -> star s1 s2.
Proof. intros. eapply star_cons; [done|constructor]. Qed.

Lemma star_app s1 s2 s3 : star s1 s2 -> star s2 s3 -> star s1 s3.
Proof. induction 1; [done|]. intros. econstructor; eauto. Qed.

Lemma star_snoc s1 s2 s3 : star s1 s2 -> step s2 s3 -> star s1 s3.
Proof. intros. eapply star_app; [done|by apply star_one]. Qed.

Lemma star_inv (I : S -> Prop) :
  (forall s s', I s -> step s s' -> I s') ->
  forall s s', star s s' -> I s -> I s'.
Proof. intros Hstep s s'. induction 1; eauto. Qed.

End star.

#[global] Instance star_preorder {S} (step : S -> S -> Prop) : PreOrder (star step).
Proof. split; [intros ?; apply star_refl | intros ???; apply star_app]. Qed.
