(* ===== verification/Protocol.v ===== *)
(** * The wire protocol: [src/src/protocol.rs]

    The [Request] and [Response] enums, with the source's constructors and
    fields in the source's order, and the protocol constants. *)

From S2P Require Import Prelude.
From stdpp Require Import options.

Definition PROTOCOL_VERSION : string := "0.1.0".
Definition MAX_COMPOSITE_KEYS : nat := 5.
Definition DEFAULT_MAX_CONCURRENCY_CAP : Z := 1000.

Module Request.

Inductive t : Type :=
| Version (uuid value : string)
| Auth (uuid token : string)
| Lock (uuid : string) (key : option string) (keys : option (list string))
    (pid : option Z) (ttl : option Z) (max : option Z) (force : bool)
    (retry_count : Z) (keep_locks_after_death : bool) (wait : option bool)
| Unlock (uuid : string) (key : option string) (keys : option (list string))
    (lock_uuid : option string) (force : bool)
| RegisterRead (uuid key : string)
| RegisterWrite (uuid key : string)
| EndRead (uuid key : string)
| EndWrite (uuid key : string)
| LockInfo (uuid key : string)
| Ls (uuid : string)
| Heartbeat (uuid : string).

(** The correlation identifier every request carries as its first field. *)
Definition uuid (r : t) : string :=
  match r with
  | Version u _ | Auth u _ | Lock u _ _ _ _ _ _ _ _ _ | Unlock u _ _ _ _
  | RegisterRead u _ | RegisterWrite u _ | EndRead u _ | EndWrite u _
  | LockInfo u _ | Ls u | Heartbeat u => u
  end.

End Request.

Module Response.

Inductive t : Type :=
| Version (uuid broker_version : string) (ok : bool) (error : option string)
| Auth (uuid : string) (ok : bool) (error : option string)
| Lock (uuid key : string) (acquired : bool) (lock_request_count : nat)
    (lock_uuid : option string) (fencing_token : option Z)
    (readers_count : option Z) (error : option string)
| CompositeLock (uuid : string) (keys : list string) (acquired : bool)
    (lock_uuid : option string) (fencing_tokens : option (gmap string Z))
    (error : option string)
| Unlock (uuid : string) (keys : list string) (unlocked : bool)
    (lock_request_count : nat) (error : option string)
| RegisterReadResult (uuid key : string) (readers_count : Z)
    (writer_flag granted : bool) (lock_uuid : option string)
    (fencing_token : option Z)
| RegisterWriteResult (uuid key : string) (readers_count : Z)
    (writer_flag granted : bool) (lock_uuid : option string)
    (fencing_token : option Z)
| EndReadResult (uuid key : string) (readers_count : Z)
| EndWriteResult (uuid key : string) (readers_count : Z) (writer_flag : bool)
| LockInfo (uuid key : string) (is_locked : bool)
    (lockholder_uuids : list string) (lock_request_count : nat)
    (readers_count : Z) (writer_flag : bool)
| LsResult (uuid : string) (keys : list string)
| Reelection (uuid key : string)
| Error (uuid error : string)
| Ok (uuid : string).

(** [Response::correlation_uuid] *)
Definition correlation_uuid (r : t) : string :=
  match r with
  | Version uuid _ _ _
  | Auth uuid _ _
  | Lock uuid _ _ _ _ _ _ _
  | CompositeLock uuid _ _ _ _ _
  | Unlock uuid _ _ _ _
  | RegisterReadResult uuid _ _ _ _ _ _
  | RegisterWriteResult uuid _ _ _ _ _ _
  | EndReadResult uuid _ _
  | EndWriteResult uuid _ _ _
  | LockInfo uuid _ _ _ _ _ _
  | LsResult uuid _
  | Reelection uuid _
  | Error uuid _
  | Ok uuid => uuid
  end.

End Response.
