(* ===== verification/Queue.v ===== *)
(** * The per-key FIFO queue: [src/src/queue.rs]

    [queue.rs] is an adapter over the [linked_queue] crate, whose code is not
    part of the repository.  The crate is therefore a parameter: the class
    [LinkedQueueCrate] has its operations and, as laws over the head-to-tail
    iteration [inner_iter], the behaviour [queue.rs] documents (FIFO order,
    unique keys, duplicate pushes rejected without a mutation, removal by
    key).  [Module LinkedQueue] is the adapter; its theorems are proved from
    the laws.  [list_queue] shows that the laws can be met. *)

From S2P Require Import Prelude.
From stdpp Require Import options.

(** The first pair of an association list with the given key. *)
Fixpoint assoc {K V} `{EqDecision K} (k : K) (l : list (K * V)) : option V :=
  match l with
  | [] => None
  | (k', v) :: l' => if decide (k = k') then Some v else assoc k l'
  end.

Definition assoc_remove {K V} `{EqDecision K} (k : K) (l : list (K * V)) : list (K * V) :=
  filter (fun kv => kv.1 <> k) l.

(** The interface of [linked_queue::LinkedQueue]. *)
Class LinkedQueueCrate : Type := {
  Inner : forall (K V : Type), Type;
  inner_new {K V} : Inner K V;
  inner_len {K V} : Inner K V -> nat;
  inner_is_empty {K V} : Inner K V -> bool;
  inner_contains {K V} `{EqDecision K} : Inner K V -> K -> bool;
  inner_get {K V} `{EqDecision K} : Inner K V -> K -> option V;
  (** [Ok] is [true]; the queue after the call is the second component. *)
  inner_try_push_back {K V} `{EqDecision K} : Inner K V -> K -> V -> bool * Inner K V;
  inner_try_push_front {K V} `{EqDecision K} : Inner K V -> K -> V -> bool * Inner K V;
  inner_pop_front {K V} : Inner K V -> option (K * V) * Inner K V;
  inner_front {K V} : Inner K V -> option (K * V);
  inner_remove {K V} `{EqDecision K} : Inner K V -> K -> option V * Inner K V;
  inner_iter {K V} : Inner K V -> list (K * V);

  inner_iter_new {K V} : inner_iter (@inner_new K V) = [];
  inner_iter_NoDup {K V} (q : Inner K V) : NoDup (inner_iter q).*1;
  inner_len_spec {K V} (q : Inner K V) : inner_len q = length (inner_iter q);
  inner_is_empty_spec {K V} (q : Inner K V) :
    inner_is_empty q = bool_decide (inner_iter q = []);
  inner_contains_spec {K V} `{EqDecision K} (q : Inner K V) k :
    inner_contains q k = bool_decide (k ∈ (inner_iter q).*1);
  inner_get_spec {K V} `{EqDecision K} (q : Inner K V) k :
    inner_get q k = assoc k (inner_iter q);
  inner_push_back_new {K V} `{EqDecision K} (q : Inner K V) k v :
    k ∉ (inner_iter q).*1 ->
    (inner_try_push_back q k v).1 = true /\
    inner_iter (inner_try_push_back q k v).2 = inner_iter q ++ [(k, v)];
  inner_push_back_dup {K V} `{EqDecision K} (q : Inner K V) k v :
    k ∈ (inner_iter q).*1 -> inner_try_push_back q k v = (false, q);
  inner_push_front_new {K V} `{EqDecision K} (q : Inner K V) k v :
    k ∉ (inner_iter q).*1 ->
    (inner_try_push_front q k v).1 = true /\
    inner_iter (inner_try_push_front q k v).2 = (k, v) :: inner_iter q;
  inner_push_front_dup {K V} `{EqDecision K} (q : Inner K V) k v :
    k ∈ (inner_iter q).*1 -> inner_try_push_front q k v = (false, q);
  inner_pop_front_spec {K V} (q : Inner K V) :
    (inner_pop_front q).1 = head (inner_iter q) /\
    inner_iter (inner_pop_front q).2 = tail (inner_iter q);
  inner_front_spec {K V} (q : Inner K V) : inner_front q = head (inner_iter q);
  inner_remove_spec {K V} `{EqDecision K} (q : Inner K V) k :
    (inner_remove q k).1 = assoc k (inner_iter q) /\
    inner_iter (inner_remove q k).2 = assoc_remove k (inner_iter q);
}.

(** The adapter [queue::LinkedQueue]. *)
Module LinkedQueue.
Section adapter.
Context `{LQ : LinkedQueueCrate} {K V : Type} `{EqDecision K}.

Record t : Type := mk { inner : Inner K V }.

Definition new : t := mk inner_new.

Definition default_queue : t := new.

Definition len (q : t) : nat := inner_len (inner q).

Definition is_empty (q : t) : bool := inner_is_empty (inner q).

Definition contains (q : t) (key : K) : bool := inner_contains (inner q) key.

Definition get (q : t) (key : K) : option V := inner_get (inner q) key.

Definition push_back (q : t) (key : K) (value : V) : bool * t :=
  let '(ok, inner') := inner_try_push_back (inner q) key value in (ok, mk inner').

Definition push_front (q : t) (key : K) (value : V) : bool * t :=
  let '(ok, inner') := inner_try_push_front (inner q) key value in (ok, mk inner').

Definition pop_front (q : t) : option (K * V) * t :=
  let '(x, inner') := inner_pop_front (inner q) in (x, mk inner').

Definition front (q : t) : option (K * V) := inner_front (inner q).

Definition remove (q : t) (key : K) : option V * t :=
  let '(x, inner') := inner_remove (inner q) key in (x, mk inner').

Definition iter (q : t) : list (K * V) := inner_iter (inner q).

End adapter.
Arguments t {_} K V.
End LinkedQueue.

(** ** Association-list facts *)

Section assoc_facts.
Context {K V : Type} `{EqDecision K}.
Implicit Types l : list (K * V).

Lemma assoc_None k l : assoc k l = None <-> k ∉ l.*1.
Proof.
  induction l as [|[k' v] l IH]; csimpl; [set_solver|].
  case_decide as E; [subst; set_solver|]. rewrite IH. set_solver.
Qed.

Lemma assoc_elem k v l : assoc k l = Some v -> (k, v) ∈ l.
Proof.
  induction l as [|[k' v'] l IH]; csimpl; [done|].
  case_decide as E; [intros [= ->]; subst; left|]. intros. right. auto.
Qed.

Lemma assoc_remove_elem k l kv : kv ∈ assoc_remove k l <-> kv ∈ l /\ kv.1 <> k.
Proof. unfold assoc_remove. rewrite list_elem_of_filter. tauto. Qed.

Lemma assoc_remove_notin k l : k ∉ l.*1 -> assoc_remove k l = l.
Proof.
  intros Hk. unfold assoc_remove. induction l as [|[k' v] l IH]; [done|].
  rewrite filter_cons_True; [|intros <-; apply Hk; left].
  f_equal. apply IH. intros ?. apply Hk. by right.
Qed.

Lemma assoc_remove_sublist k l : assoc_remove k l `sublist_of` l.
Proof. apply sublist_filter. Qed.

End assoc_facts.

(** ** The adapter's behaviour, from the crate's laws *)

Module LinkedQueueFacts.
Import LinkedQueue.
Section facts.
Context `{LQ : LinkedQueueCrate} {K V : Type} `{EqDecision K}.
Implicit Types q : LinkedQueue.t K V.

Lemma iter_new : iter (new : LinkedQueue.t K V) = [].
Proof. apply inner_iter_new. Qed.

Lemma iter_NoDup q : NoDup (iter q).*1.
Proof. apply inner_iter_NoDup. Qed.

Lemma len_iter q : len q = length (iter q).
Proof. apply inner_len_spec. Qed.

Lemma is_empty_iter q : is_empty q = bool_decide (iter q = []).
Proof. apply inner_is_empty_spec. Qed.

Lemma front_iter q : front q = head (iter q).
Proof. apply inner_front_spec. Qed.

Lemma push_back_iter q k v :
  iter (push_back q k v).2 =
  if decide (k ∈ (iter q).*1) then iter q else iter q ++ [(k, v)].
Proof.
  unfold push_back, iter in *. case_decide as E.
  - by rewrite inner_push_back_dup.
  - destruct (inner_push_back_new (inner q) k v E) as [_ H2].
    by destruct (inner_try_push_back (inner q) k v).
Qed.

Lemma push_front_iter q k v :
  iter (push_front q k v).2 =
  if decide (k ∈ (iter q).*1) then iter q else (k, v) :: iter q.
Proof.
  unfold push_front, iter in *. case_decide as E.
  - by rewrite inner_push_front_dup.
  - destruct (inner_push_front_new (inner q) k v E) as [_ H2].
    by destruct (inner_try_push_front (inner q) k v).
Qed.

Lemma pop_front_iter q :
  (pop_front q).1 = head (iter q) /\ iter (pop_front q).2 = tail (iter q).
Proof.
  unfold pop_front, iter. destruct (inner_pop_front_spec (inner q)) as [H1 H2].
  by destruct (inner_pop_front (inner q)).
Qed.

Lemma remove_iter q k :
  (remove q k).1 = assoc k (iter q) /\ iter (remove q k).2 = assoc_remove k (iter q).
Proof.
  unfold remove, iter. destruct (inner_remove_spec (inner q) k) as [H1 H2].
  by destruct (inner_remove (inner q) k).
Qed.

Lemma pop_front_cons q x l :
  iter q = x :: l -> exists q', pop_front q = (Some x, q') /\ iter q' = l.
Proof.
  intros E. destruct (pop_front_iter q) as [H1 H2]. rewrite E in H1, H2.
  destruct (pop_front q) as [o q']. simpl in *. subst. eauto.
Qed.

End facts.
End LinkedQueueFacts.

(** ** A queue that meets the laws *)

Section list_queue.
Context {K V : Type} `{EqDecision K}.

Definition uniq_list : Type := { l : list (K * V) | NoDup l.*1 }.

Lemma NoDup_snoc (l : list (K * V)) k v :
  NoDup l.*1 -> k ∉ l.*1 -> NoDup (l ++ [(k, v)]).*1.
Proof.
  intros. rewrite fmap_app. apply NoDup_app. split; [done|]. split; [set_solver|].
  apply NoDup_singleton.
Qed.

Lemma NoDup_filter_fst (P : K * V -> Prop) `{forall x, Decision (P x)} (l : list (K * V)) :
  NoDup l.*1 -> NoDup (filter P l).*1.
Proof.
  intros Hn. eapply sublist_NoDup; [done|]. apply fmap_sublist, sublist_filter.
Qed.

Lemma NoDup_tail_fst (l : list (K * V)) : NoDup l.*1 -> NoDup (tail l).*1.
Proof. destruct l; [done|]. inversion 1; done. Qed.

End list_queue.
Arguments uniq_list : clear implicits.

Definition uq_push_back {K V} `{EqDecision K} (q : uniq_list K V) (k : K) (v : V)
    : bool * uniq_list K V :=
  match decide (k ∈ (`q).*1) with
  | left _ => (false, q)
  | right H => (true, exist _ (`q ++ [(k, v)]) (NoDup_snoc (`q) k v (proj2_sig q) H))
  end.

Definition uq_push_front {K V} `{EqDecision K} (q : uniq_list K V) (k : K) (v : V)
    : bool * uniq_list K V :=
  match decide (k ∈ (`q).*1) with
  | left _ => (false, q)
  | right H => (true, exist _ ((k, v) :: `q) (NoDup_cons_2 k (`q).*1 H (proj2_sig q)))
  end.

#[local] Obligation Tactic := idtac.

Program Definition list_queue : LinkedQueueCrate := {|
  Inner K V := uniq_list K V;
  inner_new K V := exist _ [] (NoDup_nil_2);
  inner_len K V q := length (`q);
  inner_is_empty K V q := match `q with [] => true | _ => false end;
  inner_contains K V _ q k := bool_decide (k ∈ (`q).*1);
  inner_get K V _ q k := assoc k (`q);
  inner_try_push_back K V _ q k v := uq_push_back q k v;
  inner_try_push_front K V _ q k v := uq_push_front q k v;
  inner_pop_front K V q := (head (`q), exist _ (tail (`q)) (NoDup_tail_fst _ (proj2_sig q)));
  inner_front K V q := head (`q);
  inner_remove K V _ q k :=
    (assoc k (`q), exist _ (assoc_remove k (`q)) (NoDup_filter_fst _ _ (proj2_sig q)));
  inner_iter K V q := `q;
|}.
Next Obligation. done. Qed.
Next Obligation. done. Qed.
Next Obligation. intros K V [l Hl]. done. Qed.
Next Obligation. done. Qed.
Next Obligation. intros K V [[|x l] Hl]; done. Qed.
Next Obligation. done. Qed.
Next Obligation. done. Qed.
Next Obligation.
  intros K V ? [l Hl] k v Hk. unfold uq_push_back. simpl in *.
  by destruct (decide _).
Qed.
Next Obligation.
  intros K V ? [l Hl] k v Hk. unfold uq_push_back. simpl in *.
  by destruct (decide _).
Qed.
Next Obligation.
  intros K V ? [l Hl] k v Hk. unfold uq_push_front. simpl in *.
  by destruct (decide _).
Qed.
Next Obligation.
  intros K V ? [l Hl] k v Hk. unfold uq_push_front. simpl in *.
  by destruct (decide _).
Qed.
Next Obligation. done. Qed.
Next Obligation. done. Qed.
Next Obligation. done. Qed.
