(* ===== verification/BrokerTypes.v ===== *)
(** * The broker's data model: [src/src/broker.rs], lines 37-353

    The structs of the broker with their fields (prefixed, since Rocq's
    projections share one name space), the outside world the broker reads
    (clocks, UUIDs, hash iteration order) and the world the handlers run in. *)

From S2P Require Import Prelude Monad Protocol Queue.
From stdpp Require Import options.

(** ** What the broker reads from outside

    [Uuid::new_v4], [Instant::now], [SystemTime::now] and the iteration order
    of [HashMap] / [HashSet] are inputs of the program.  [Env] answers the
    [n]-th such read of a run.  The class's law is the contract of hash
    iteration: every element is visited exactly once, in some order. *)
Class Env : Type := {
  env_uuid : nat -> string;
  env_instant : nat -> Z;
  (** [SystemTime::now().duration_since(UNIX_EPOCH)] in milliseconds; [None]
      when the clock is before the epoch. *)
  env_unix_ms : nat -> option Z;
  env_hash_order : forall {A : Type}, nat -> list A -> list A;
  (** The smallest and the largest instant the platform represents. *)
  env_instant_min : Z;
  env_instant_max : Z;
  env_hash_order_perm : forall {A : Type} n (l : list A), env_hash_order n l ≡ₚ l;
}.

Abbreviation ClientId := Z (only parsing).
Definition SNAPSHOT_DETACHED_CLIENT : ClientId := 0.

(** [mpsc::UnboundedSender<Response>]: a send succeeds exactly while the
    receiving half is alive. *)
Inductive Sender : Type := SenderOpen | SenderClosed.

Record BrokerConfig : Type := mkBrokerConfig {
  cfg_default_ttl : Z;
  cfg_max_lock_holders : Z;
  cfg_ttl_sweep_interval : Z;
  cfg_max_concurrency_cap : Z;
  cfg_idle_key_grace : Z;
}.

(** [impl Default for BrokerConfig] *)
Definition BrokerConfig_default : BrokerConfig := {|
  cfg_default_ttl := duration_from_millis 4000;
  cfg_max_lock_holders := 1;
  cfg_ttl_sweep_interval := duration_from_millis 10;
  cfg_max_concurrency_cap := DEFAULT_MAX_CONCURRENCY_CAP;
  cfg_idle_key_grace := duration_from_millis 60000;
|}.

Inductive RwHoldKind : Type := HoldExclusive | HoldRead | HoldWrite.

#[global] Instance RwHoldKind_eq_dec : EqDecision RwHoldKind.
Proof. solve_decision. Defined.

Record KeysOfLock : Type := mkKeysOfLock {
  kol_keys : list string;
  kol_rw_kind : RwHoldKind;
}.

Record ClientHandle : Type := mkClientHandle {
  ch_sender : Sender;
  ch_held_lock_uuids : gmap string KeysOfLock;
  ch_pending_request_uuids : list (string * string);
}.

Record ExclusiveHolder : Type := mkExclusiveHolder {
  eh_client : ClientId;
  eh_pid : option Z;
  eh_fencing_token : Z;
  eh_keep_locks_after_death : bool;
  eh_composite_member : bool;
}.

Record RwHolder : Type := mkRwHolder {
  rh_client : ClientId;
  rh_fencing_token : Z;
  rh_lock_uuid : string;
}.

Inductive PendingKind : Type :=
| PendingExclusive
| PendingReader
| PendingWriter
| PendingComposite (all_keys remaining_keys granted_keys : list string)
    (granted_tokens : gmap string Z) (composite_lock_uuid : string).

Record PendingRequest : Type := mkPendingRequest {
  pr_request_uuid : string;
  pr_client : ClientId;
  pr_pid : option Z;
  pr_ttl : option Z;
  pr_grant_lock_uuid : option string;
  pr_grant_fencing_seed : option Z;
  pr_keep_locks_after_death : bool;
  pr_kind : PendingKind;
}.

Record GrantOverrides : Type := mkGrantOverrides {
  go_lock_uuid : option string;
  go_fencing_seed : option Z;
}.

Definition no_overrides : GrantOverrides := mkGrantOverrides None None.

(** [GrantOverrides::token] *)
Definition grant_overrides_token (o : GrantOverrides) (offset : Z) : option Z :=
  (fun seed => saturating_add64 seed offset) <$> go_fencing_seed o.

Record DeadlineEntry : Type := mkDeadlineEntry {
  de_lock_uuid : string;
  de_keys : list string;
  de_kind : RwHoldKind;
  de_client : ClientId;
}.

Section types.
Context `{LQ : LinkedQueueCrate}.

Record LockState : Type := mkLockState {
  exclusive_holders : gmap string ExclusiveHolder;
  max : Z;
  readers : gmap string RwHolder;
  writer : option RwHolder;
  queue : LinkedQueue.t string PendingRequest;
  fencing_counter : Z;
  timestamp_emptied : option Z;
}.

Record BrokerState : Type := mkBrokerState {
  locks : gmap string LockState;
  clients : gmap Z ClientHandle;
  next_client_id : ClientId;
  config : BrokerConfig;
  deadlines : gmap (Z * Z) DeadlineEntry;
  deadline_seq : Z;
  ttl_evictions_total : Z;
  started_at : Z;
  concurrency_cap_clamps_total : Z;
  fencing_watermark : Z;
  idle_keys_pruned_total : Z;
}.

(** What happens on the broker's boundary, in order: a response shown to the
    response observer, a response put on a client's channel, and a fencing
    token issued for a key (recorded where the code mints it). *)
Inductive Event : Type :=
| Observed (r : Response.t)
| Delivered (c : ClientId) (r : Response.t)
| Issued (key : string) (token : Z).

(** [Broker]: the mutex-protected state and the optional response observer,
    with the index of the next environment read and the trace so far. *)
Record World : Type := mkWorld {
  state : BrokerState;
  response_observer : bool;
  tick : nat;
  trace : list Event;
}.

(** ** Field updates *)

Definition set_exclusive_holders (x : gmap string ExclusiveHolder) (l : LockState) : LockState :=
  mkLockState x (max l) (readers l) (writer l) (queue l) (fencing_counter l) (timestamp_emptied l).
Definition set_max (x : Z) (l : LockState) : LockState :=
  mkLockState (exclusive_holders l) x (readers l) (writer l) (queue l) (fencing_counter l) (timestamp_emptied l).
Definition set_readers (x : gmap string RwHolder) (l : LockState) : LockState :=
  mkLockState (exclusive_holders l) (max l) x (writer l) (queue l) (fencing_counter l) (timestamp_emptied l).
Definition set_writer (x : option RwHolder) (l : LockState) : LockState :=
  mkLockState (exclusive_holders l) (max l) (readers l) x (queue l) (fencing_counter l) (timestamp_emptied l).
Definition set_queue (x : LinkedQueue.t string PendingRequest) (l : LockState) : LockState :=
  mkLockState (exclusive_holders l) (max l) (readers l) (writer l) x (fencing_counter l) (timestamp_emptied l).
Definition set_fencing_counter (x : Z) (l : LockState) : LockState :=
  mkLockState (exclusive_holders l) (max l) (readers l) (writer l) (queue l) x (timestamp_emptied l).
Definition set_timestamp_emptied (x : option Z) (l : LockState) : LockState :=
  mkLockState (exclusive_holders l) (max l) (readers l) (writer l) (queue l) (fencing_counter l) x.

Definition set_locks (x : gmap string LockState) (s : BrokerState) : BrokerState :=
  mkBrokerState x (clients s) (next_client_id s) (config s) (deadlines s) (deadline_seq s)
    (ttl_evictions_total s) (started_at s) (concurrency_cap_clamps_total s)
    (fencing_watermark s) (idle_keys_pruned_total s).
Definition set_clients (x : gmap Z ClientHandle) (s : BrokerState) : BrokerState :=
  mkBrokerState (locks s) x (next_client_id s) (config s) (deadlines s) (deadline_seq s)
    (ttl_evictions_total s) (started_at s) (concurrency_cap_clamps_total s)
    (fencing_watermark s) (idle_keys_pruned_total s).
Definition set_next_client_id (x : ClientId) (s : BrokerState) : BrokerState :=
  mkBrokerState (locks s) (clients s) x (config s) (deadlines s) (deadline_seq s)
    (ttl_evictions_total s) (started_at s) (concurrency_cap_clamps_total s)
    (fencing_watermark s) (idle_keys_pruned_total s).
Definition set_deadlines (x : gmap (Z * Z) DeadlineEntry) (s : BrokerState) : BrokerState :=
  mkBrokerState (locks s) (clients s) (next_client_id s) (config s) x (deadline_seq s)
    (ttl_evictions_total s) (started_at s) (concurrency_cap_clamps_total s)
    (fencing_watermark s) (idle_keys_pruned_total s).
Definition set_deadline_seq (x : Z) (s : BrokerState) : BrokerState :=
  mkBrokerState (locks s) (clients s) (next_client_id s) (config s) (deadlines s) x
    (ttl_evictions_total s) (started_at s) (concurrency_cap_clamps_total s)
    (fencing_watermark s) (idle_keys_pruned_total s).
Definition set_ttl_evictions_total (x : Z) (s : BrokerState) : BrokerState :=
  mkBrokerState (locks s) (clients s) (next_client_id s) (config s) (deadlines s) (deadline_seq s)
    x (started_at s) (concurrency_cap_clamps_total s)
    (fencing_watermark s) (idle_keys_pruned_total s).
Definition set_concurrency_cap_clamps_total (x : Z) (s : BrokerState) : BrokerState :=
  mkBrokerState (locks s) (clients s) (next_client_id s) (config s) (deadlines s) (deadline_seq s)
    (ttl_evictions_total s) (started_at s) x
    (fencing_watermark s) (idle_keys_pruned_total s).
Definition set_fencing_watermark (x : Z) (s : BrokerState) : BrokerState :=
  mkBrokerState (locks s) (clients s) (next_client_id s) (config s) (deadlines s) (deadline_seq s)
    (ttl_evictions_total s) (started_at s) (concurrency_cap_clamps_total s)
    x (idle_keys_pruned_total s).
Definition set_idle_keys_pruned_total (x : Z) (s : BrokerState) : BrokerState :=
  mkBrokerState (locks s) (clients s) (next_client_id s) (config s) (deadlines s) (deadline_seq s)
    (ttl_evictions_total s) (started_at s) (concurrency_cap_clamps_total s)
    (fencing_watermark s) x.

Definition set_state (x : BrokerState) (w : World) : World :=
  mkWorld x (response_observer w) (tick w) (trace w).
Definition next_tick (w : World) : World :=
  mkWorld (state w) (response_observer w) (S (tick w)) (trace w).
Definition log (e : Event) (w : World) : World :=
  mkWorld (state w) (response_observer w) (tick w) (trace w ++ [e]).

End types.
