(* ===== verification/BrokerState.v ===== *)
(** * Methods of [LockState] and [BrokerState], and the broker's bookkeeping

    [src/src/broker.rs]: [impl LockState], [impl BrokerState], the
    [track_*] / [untrack_*] helpers and [send]. *)

From S2P Require Import Prelude Monad Protocol Queue BrokerTypes.
From stdpp Require Import options.

Section broker_state.
Context `{LQ : LinkedQueueCrate} `{E : Env}.

(** ** Reads of the outside world *)

Definition instant_now : M World Z := fun w => Done (env_instant (tick w)) (next_tick w).

Definition uuid_new_v4 : M World string := fun w => Done (env_uuid (tick w)) (next_tick w).

Definition unix_time_ms : M World (option Z) :=
  fun w => Done (env_unix_ms (tick w)) (next_tick w).

(** The elements of a [HashMap] or [HashSet], in its iteration order. *)
Definition hash_order {A} (l : list A) : M World (list A) :=
  fun w => Done (env_hash_order (tick w) l) (next_tick w).

(** [Instant::checked_add] *)
Definition instant_checked_add (i d : Z) : option Z :=
  if bool_decide (i + d <= env_instant_max) then Some (i + d) else None.

(** [Instant::checked_sub] *)
Definition instant_checked_sub (i d : Z) : option Z :=
  if bool_decide (env_instant_min <= i - d) then Some (i - d) else None.

(** Reading and writing the state behind the mutex. *)
Definition get_state : M World BrokerState := gets state.
Definition upd_state (f : BrokerState -> BrokerState) : M World unit :=
  modify (fun w => set_state (f (state w)) w).

Definition get_lock (key : string) : M World (option LockState) :=
  gets (fun w => locks (state w) !! key).

(** A write through the [&mut LockState] a handler holds for [key]. *)
Definition put_lock (key : string) (l : LockState) : M World unit :=
  upd_state (fun s => set_locks (<[key := l]> (locks s)) s).

(** A grant: write the lock back and record the token minted for it. *)
Definition put_granted_lock (key : string) (token : Z) (l : LockState) : M World unit :=
  modify (fun w => log (Issued key token)
                     (set_state (set_locks (<[key := l]> (locks (state w))) (state w)) w)).

(** ** [impl LockState] *)

(** [LockState::new] *)
Definition LockState_new (max_ : Z) : M World LockState :=
  now ← unix_time_ms;
  mret (mkLockState ∅ (Z.max max_ 1) ∅ None LinkedQueue.new
          (default 0 (as_u64 <$> now)) None).

(** [LockState::is_idle] *)
Definition is_idle (l : LockState) : bool :=
  bool_decide (exclusive_holders l = ∅) && bool_decide (readers l = ∅)
    && bool_decide (writer l = None) && LinkedQueue.is_empty (queue l).

(** [LockState::next_fencing_token] *)
Definition next_fencing_token (l : LockState) : Z * LockState :=
  let l := set_fencing_counter (Z.max (wrapping_add64 (fencing_counter l) 1) 1) l in
  (fencing_counter l, l).

(** [LockState::next_or_forced_fencing_token] *)
Definition next_or_forced_fencing_token (forced : option Z) (l : LockState) : Z * LockState :=
  match forced with
  | Some token => (token, set_fencing_counter (Z.max (fencing_counter l) token) l)
  | None => next_fencing_token l
  end.

(** ** [impl BrokerState] *)

(** [BrokerState::new]; [now] is its [Instant::now()]. *)
Definition BrokerState_new (cfg : BrokerConfig) (now : Z) : BrokerState := {|
  locks := ∅;
  clients := ∅;
  next_client_id := 1;
  config := cfg;
  deadlines := ∅;
  deadline_seq := 0;
  ttl_evictions_total := 0;
  started_at := now;
  concurrency_cap_clamps_total := 0;
  fencing_watermark := 0;
  idle_keys_pruned_total := 0;
|}.

(** [Broker::new] and [Broker::with_response_observer]: the world a broker
    starts in, its clock read being the first. *)
Definition Broker_new (cfg : BrokerConfig) (observer : bool) : World :=
  mkWorld (BrokerState_new cfg (env_instant 0)) observer 1 [].

(** [BrokerState::observe_fencing_token] *)
Definition observe_fencing_token (token : Z) : M World unit :=
  upd_state (fun s => if bool_decide (fencing_watermark s < token)
                      then set_fencing_watermark token s else s).

(** [BrokerState::maybe_mark_idle] *)
Definition maybe_mark_idle (key : string) : M World unit :=
  lock ← get_lock key;
  match lock with
  | Some lock =>
      if is_idle lock then
        if bool_decide (timestamp_emptied lock = None) then
          now ← instant_now;
          put_lock key (set_timestamp_emptied (Some now) lock)
        else mret tt
      else if bool_decide (timestamp_emptied lock <> None) then
        put_lock key (set_timestamp_emptied None lock)
      else mret tt
  | None => mret tt
  end.

(** [BrokerState::resolve_max] *)
Definition resolve_max (current_lock_max : Z) (requested : option Z) : M World Z :=
  s ← get_state;
  let cap := Z.max (cfg_max_concurrency_cap (config s)) 1 in
  match requested with
  | None => mret (Z.max (Z.min current_lock_max cap) 1)
  | Some m =>
      if bool_decide (m = 0) then mret (Z.max (Z.min current_lock_max cap) 1)
      else if bool_decide (cap < m) then
        upd_state (fun s => set_concurrency_cap_clamps_total
                              (wrapping_add64 (concurrency_cap_clamps_total s) 1) s) ;;
        mret cap
      else mret m
  end.

(** [BrokerState::schedule_deadline] *)
Definition schedule_deadline (ttl : option Z) (lock_uuid : string) (keys : list string)
    (kind : RwHoldKind) (client : ClientId) : M World unit :=
  match ttl with
  | None => mret tt
  | Some ttl =>
      if duration_is_zero ttl then mret tt
      else
        now ← instant_now;
        match instant_checked_add now ttl with
        | None => mret tt
        | Some deadline =>
            upd_state (fun s =>
              let s := set_deadline_seq (wrapping_add64 (deadline_seq s) 1) s in
              set_deadlines
                (<[(deadline, deadline_seq s) :=
                     mkDeadlineEntry lock_uuid keys kind client]> (deadlines s)) s)
        end
  end.

(** [BrokerState::lock_or_default] *)
Definition lock_or_default (key : string) : M World LockState :=
  s ← get_state;
  let cap := Z.max (cfg_max_concurrency_cap (config s)) 1 in
  let max_ := Z.max (Z.min (cfg_max_lock_holders (config s)) cap) 1 in
  let seed_floor := fencing_watermark s in
  match locks s !! key with
  | Some l => mret l
  | None =>
      l ← LockState_new max_;
      let l := if bool_decide (fencing_counter l < seed_floor)
               then set_fencing_counter seed_floor l else l in
      put_lock key l ;;
      mret l
  end.

(** [BrokerState::maybe_gc]: reads the lock and keeps everything. *)
Definition maybe_gc (key : string) : M World unit :=
  lock ← get_lock key;
  match lock with
  | Some l => if is_idle l && bool_decide (0 < fencing_counter l) then mret tt else mret tt
  | None => mret tt
  end.

(** ** Client bookkeeping *)

Definition upd_client (client : ClientId) (f : ClientHandle -> ClientHandle) : M World unit :=
  upd_state (fun s => set_clients (alter f client (clients s)) s).

(** [handle.held_lock_uuids.remove(lock_uuid)] *)
Definition unhold (lock_uuid : string) (h : ClientHandle) : ClientHandle :=
  mkClientHandle (ch_sender h) (delete lock_uuid (ch_held_lock_uuids h))
    (ch_pending_request_uuids h).

(** [Broker::track_holder] *)
Definition track_holder (client : ClientId) (lock_uuid : string) (keys : list string)
    (kind : RwHoldKind) : M World unit :=
  upd_client client (fun h =>
    mkClientHandle (ch_sender h) (<[lock_uuid := mkKeysOfLock keys kind]> (ch_held_lock_uuids h))
      (ch_pending_request_uuids h)).

(** [Broker::track_pending] *)
Definition track_pending (client : ClientId) (key request_uuid : string) : M World unit :=
  upd_client client (fun h =>
    mkClientHandle (ch_sender h) (ch_held_lock_uuids h)
      (ch_pending_request_uuids h ++ [(key, request_uuid)])).

(** [Broker::untrack_pending] *)
Definition untrack_pending (client : ClientId) (key request_uuid : string) : M World unit :=
  upd_client client (fun h =>
    mkClientHandle (ch_sender h) (ch_held_lock_uuids h)
      (filter (fun ku => ku <> (key, request_uuid)) (ch_pending_request_uuids h))).

(** Put a response on a client's channel; the channel's answer is dropped. *)
Definition deliver (client : ClientId) (response : Response.t) (w : World) : World :=
  match clients (state w) !! client with
  | Some h => match ch_sender h with
              | SenderOpen => log (Delivered client response) w
              | SenderClosed => w
              end
  | None => w
  end.

Definition observe_response (response : Response.t) (w : World) : World :=
  if response_observer w then log (Observed response) w else w.

(** [Broker::send] *)
Definition send (client : ClientId) (response : Response.t) : M World unit :=
  modify (fun w => deliver client response (observe_response response w)).

(** [Broker::try_send] *)
Definition try_send (client : ClientId) (response : Response.t) : M World bool :=
  s ← get_state;
  match clients s !! client with
  | Some h =>
      modify (deliver client response) ;;
      mret (match ch_sender h with SenderOpen => true | SenderClosed => false end)
  | None => mret false
  end.

End broker_state.
