(* ===== verification/Broker.v ===== *)
(** * The broker's scheduler and request handlers: [src/src/broker.rs]

    [try_grant_next] / [try_grant_once] / [try_grant_composite] (lines
    1891-2190), the request handlers (lines 1113-1888) and the dispatcher
    [handle_request_with_grant_overrides] (lines 867-1105).

    The scheduler's loop and its recursion through [try_grant_composite] are
    one structural recursion on fuel.  [grant_work] counts the steps the
    queues can still make; [try_grant_next] runs with one more than that,
    which [BrokerTotal.v] shows is always enough. *)

From S2P Require Import Prelude Monad Protocol Queue BrokerTypes BrokerState.
From stdpp Require Import options.

Section broker.
Context `{LQ : LinkedQueueCrate} `{E : Env}.

(** ** Queue scheduling *)

(** [uuid.unwrap_or_else(|| Uuid::new_v4().to_string())] *)
Definition uuid_or_new (u : option string) : M World string :=
  match u with
  | Some u => mret u
  | None => uuid_new_v4
  end.

(** [all_keys.iter().position(|candidate| candidate == key)] *)
Fixpoint key_position (key : string) (ks : list string) : option nat :=
  match ks with
  | [] => None
  | k :: ks' => if decide (k = key) then Some 0%nat else S <$> key_position key ks'
  end.

(** [Broker::try_grant_composite]; [try_grant_next] is the recursive call on
    the next member key. *)
Definition try_grant_composite (try_grant_next : string -> M World unit) (key : string)
    : M World bool :=
  lock ← get_lock key;
  match lock with
  | None => mret false
  | Some lock =>
      match LinkedQueue.front (queue lock) with
      | None => mret false
      | Some (_, head) =>
          match pr_kind head with
          | PendingComposite _ remaining_keys _ _ _ =>
              match remaining_keys with
              | [] => mret false
              | target :: _ =>
                  if negb (bool_decide (target = key)) then mret false
                  else if negb (bool_decide (writer lock = None)
                                && bool_decide (readers lock = ∅)
                                && bool_decide (exclusive_holders lock = ∅))
                  then mret false
                  else
                    let '(popped, queue') := LinkedQueue.pop_front (queue lock) in
                    let lock := set_queue queue' lock in
                    match popped with
                    | None => panic "just peeked"
                    | Some (_, pop) =>
                        match pr_kind pop with
                        | PendingComposite all_keys remaining_keys granted_keys granted_tokens
                            composite_lock_uuid =>
                            let token_offset := Z.of_nat (default 0%nat (key_position key all_keys)) in
                            let '(token, lock) :=
                              next_or_forced_fencing_token
                                ((fun seed => saturating_add64 seed token_offset)
                                   <$> pr_grant_fencing_seed pop) lock in
                            put_granted_lock key token
                              (set_exclusive_holders
                                 (<[composite_lock_uuid :=
                                      mkExclusiveHolder (pr_client pop) (pr_pid pop) token false true]>
                                    (exclusive_holders lock)) lock) ;;
                            let granted_tokens := <[key := token]> granted_tokens in
                            let granted_keys := granted_keys ++ [key] in
                            let remaining_keys := tail remaining_keys in
                            observe_fencing_token token ;;
                            untrack_pending (pr_client pop) key (pr_request_uuid pop) ;;
                            track_holder (pr_client pop) composite_lock_uuid all_keys HoldExclusive ;;
                            match remaining_keys with
                            | [] =>
                                schedule_deadline (pr_ttl pop) composite_lock_uuid all_keys
                                  HoldExclusive (pr_client pop) ;;
                                send (pr_client pop)
                                  (Response.CompositeLock (pr_request_uuid pop) all_keys true
                                     (Some composite_lock_uuid) (Some granted_tokens) None) ;;
                                mret true
                            | next_key :: _ =>
                                next_lock ← lock_or_default next_key;
                                put_lock next_key
                                  (set_queue
                                     (LinkedQueue.push_back (queue next_lock) (pr_request_uuid pop)
                                        (mkPendingRequest (pr_request_uuid pop) (pr_client pop)
                                           (pr_pid pop) (pr_ttl pop) None
                                           (pr_grant_fencing_seed pop)
                                           (pr_keep_locks_after_death pop)
                                           (PendingComposite all_keys remaining_keys granted_keys
                                              granted_tokens composite_lock_uuid))).2
                                     next_lock) ;;
                                track_pending (pr_client pop) next_key (pr_request_uuid pop) ;;
                                try_grant_next next_key ;;
                                mret true
                            end
                        | _ => put_lock key lock ;; mret false
                        end
                    end
              end
          | _ => mret false
          end
      end
  end.

(** The guards of [try_grant_once], one per kind of waiter. *)
Definition exclusive_grantable (lock : LockState) : bool :=
  bool_decide (writer lock = None) && bool_decide (readers lock = ∅)
    && bool_decide (len_u32 (size (exclusive_holders lock)) < max lock).

Definition reader_blocked (lock : LockState) : bool :=
  bool_decide (writer lock <> None) || negb (bool_decide (exclusive_holders lock = ∅)).

Definition writer_blocked (lock : LockState) : bool :=
  bool_decide (writer lock <> None) || negb (bool_decide (readers lock = ∅))
    || negb (bool_decide (exclusive_holders lock = ∅)).

(** The [PendingKind::Exclusive] arm of [Broker::try_grant_once], after its
    guard. *)
Definition grant_queued_exclusive (key : string) (lock : LockState) : M World bool :=
  let '(popped, queue') := LinkedQueue.pop_front (queue lock) in
  let lock := set_queue queue' lock in
  match popped with
  | None => panic "just peeked"
  | Some (_, head) =>
      let '(token, lock) := next_or_forced_fencing_token (pr_grant_fencing_seed head) lock in
      lock_uuid ← uuid_or_new (pr_grant_lock_uuid head);
      put_granted_lock key token
        (set_exclusive_holders
           (<[lock_uuid := mkExclusiveHolder (pr_client head) (pr_pid head) token
                             (pr_keep_locks_after_death head) false]>
              (exclusive_holders lock)) lock) ;;
      let depth := LinkedQueue.len (queue lock) in
      observe_fencing_token token ;;
      untrack_pending (pr_client head) key (pr_request_uuid head) ;;
      track_holder (pr_client head) lock_uuid [key] HoldExclusive ;;
      schedule_deadline (pr_ttl head) lock_uuid [key] HoldExclusive (pr_client head) ;;
      send (pr_client head)
        (Response.Lock (pr_request_uuid head) key true depth (Some lock_uuid) (Some token)
           (Some 0) None) ;;
      mret true
  end.

(** The [PendingKind::Reader] arm. *)
Definition grant_queued_reader (key : string) (lock : LockState) : M World bool :=
  let '(popped, queue') := LinkedQueue.pop_front (queue lock) in
  let lock := set_queue queue' lock in
  match popped with
  | None => panic "just peeked"
  | Some (_, head) =>
      let '(token, lock) := next_or_forced_fencing_token (pr_grant_fencing_seed head) lock in
      lock_uuid ← uuid_or_new (pr_grant_lock_uuid head);
      let lock := set_readers
                    (<[lock_uuid := mkRwHolder (pr_client head) token lock_uuid]> (readers lock))
                    lock in
      put_granted_lock key token lock ;;
      let readers_ := len_u32 (size (readers lock)) in
      observe_fencing_token token ;;
      untrack_pending (pr_client head) key (pr_request_uuid head) ;;
      track_holder (pr_client head) lock_uuid [key] HoldRead ;;
      send (pr_client head)
        (Response.RegisterReadResult (pr_request_uuid head) key readers_ false true
           (Some lock_uuid) (Some token)) ;;
      mret true
  end.

(** The [PendingKind::Writer] arm. *)
Definition grant_queued_writer (key : string) (lock : LockState) : M World bool :=
  let '(popped, queue') := LinkedQueue.pop_front (queue lock) in
  let lock := set_queue queue' lock in
  match popped with
  | None => panic "just peeked"
  | Some (_, head) =>
      let '(token, lock) := next_or_forced_fencing_token (pr_grant_fencing_seed head) lock in
      lock_uuid ← uuid_or_new (pr_grant_lock_uuid head);
      put_granted_lock key token
        (set_writer (Some (mkRwHolder (pr_client head) token lock_uuid)) lock) ;;
      observe_fencing_token token ;;
      untrack_pending (pr_client head) key (pr_request_uuid head) ;;
      track_holder (pr_client head) lock_uuid [key] HoldWrite ;;
      send (pr_client head)
        (Response.RegisterWriteResult (pr_request_uuid head) key 0 true true
           (Some lock_uuid) (Some token)) ;;
      mret true
  end.

(** [Broker::try_grant_once] *)
Definition try_grant_once (try_grant_next : string -> M World unit) (key : string)
    : M World bool :=
  lock ← get_lock key;
  match lock with
  | None => mret false
  | Some lock =>
      match LinkedQueue.front (queue lock) with
      | None => mret false
      | Some (_, head) =>
          match pr_kind head with
          | PendingExclusive =>
              if negb (exclusive_grantable lock) then mret false
              else grant_queued_exclusive key lock
          | PendingReader =>
              if reader_blocked lock then mret false else grant_queued_reader key lock
          | PendingWriter =>
              if writer_blocked lock then mret false else grant_queued_writer key lock
          | PendingComposite _ _ _ _ _ => try_grant_composite try_grant_next key
          end
      end
  end.

(** [Broker::try_grant_next]: the loop, then [maybe_mark_idle]. *)
Fixpoint try_grant_next_fuel (fuel : nat) (key : string) : M World unit :=
  match fuel with
  | O => out_of_fuel
  | S fuel =>
      made_progress ← try_grant_once (try_grant_next_fuel fuel) key;
      if made_progress : bool then try_grant_next_fuel fuel key
      else maybe_mark_idle key
  end.

(** How many grants the queued requests can still lead to: one for a
    single-key waiter, one per remaining key for a composite waiter. *)
Definition request_work (p : PendingRequest) : nat :=
  match pr_kind p with
  | PendingComposite _ remaining_keys _ _ _ => length remaining_keys
  | _ => 1
  end.

Definition queue_work (q : list (string * PendingRequest)) : nat :=
  sum_list_with (fun up => request_work up.2) q.

Definition lock_work (l : LockState) : nat := queue_work (LinkedQueue.iter (queue l)).

Definition grant_work (ls : gmap string LockState) : nat :=
  map_fold (fun _ l n => (lock_work l + n)%nat) 0%nat ls.

Definition try_grant_next (key : string) : M World unit :=
  fun w => try_grant_next_fuel (S (grant_work (locks (state w)))) key w.

(** ** Exclusive locks *)

(** [Broker::handle_exclusive_lock] *)
Definition handle_exclusive_lock (client : ClientId) (uuid key : string) (pid : option Z)
    (ttl : option Z) (max_ : option Z) (keep_locks_after_death force wait : bool)
    (grant_overrides : GrantOverrides) : M World unit :=
  s ← get_state;
  let current_max :=
    match locks s !! key with
    | Some l => max l
    | None => cfg_max_lock_holders (config s)
    end in
  effective_max ← resolve_max current_max max_;
  lock ← lock_or_default key;
  let lock := set_max effective_max lock in
  put_lock key lock ;;
  let cap := max lock in
  if bool_decide (writer lock = None) && bool_decide (readers lock = ∅)
       && bool_decide (Z.of_nat (size (exclusive_holders lock)) < cap)
  then
    let '(token, lock) :=
      next_or_forced_fencing_token (grant_overrides_token grant_overrides 0) lock in
    lock_uuid ← uuid_or_new (go_lock_uuid grant_overrides);
    put_granted_lock key token
      (set_exclusive_holders
         (<[lock_uuid := mkExclusiveHolder client pid token keep_locks_after_death false]>
            (exclusive_holders lock)) lock) ;;
    let queue_depth := LinkedQueue.len (queue lock) in
    observe_fencing_token token ;;
    maybe_mark_idle key ;;
    track_holder client lock_uuid [key] HoldExclusive ;;
    schedule_deadline ttl lock_uuid [key] HoldExclusive client ;;
    send client
      (Response.Lock uuid key true queue_depth (Some lock_uuid) (Some token) (Some 0) None)
  else if negb wait then
    l ← get_lock key;
    let depth := match l with Some l => LinkedQueue.len (queue l) | None => 0%nat end in
    send client (Response.Lock uuid key false depth None None (Some 0) None)
  else
    let pending :=
      mkPendingRequest uuid client pid ttl (go_lock_uuid grant_overrides)
        (go_fencing_seed grant_overrides) keep_locks_after_death PendingExclusive in
    let lock :=
      set_queue
        (if force then (LinkedQueue.push_front (queue lock) uuid pending).2
         else (LinkedQueue.push_back (queue lock) uuid pending).2) lock in
    put_lock key lock ;;
    let depth := LinkedQueue.len (queue lock) in
    maybe_mark_idle key ;;
    track_pending client key uuid ;;
    send client (Response.Lock uuid key false depth None None (Some 0) None).

(** ** Composite locks *)

(** [CompositeLockRequest] *)
Record CompositeLockRequest : Type := mkCompositeLockRequest {
  cl_client : ClientId;
  cl_uuid : string;
  cl_keys : list string;
  cl_pid : option Z;
  cl_ttl : option Z;
  cl_wait : bool;
  cl_grant_overrides : GrantOverrides;
}.

(** No writer, no readers, no exclusive holders; a key never seen is free. *)
Definition key_is_free (s : BrokerState) (k : string) : bool :=
  match locks s !! k with
  | Some l => bool_decide (writer l = None) && bool_decide (readers l = ∅)
                && bool_decide (exclusive_holders l = ∅)
  | None => true
  end.

(** The body of the grant loop of [handle_composite_lock]. *)
Definition grant_composite_member (client : ClientId) (pid : option Z)
    (composite_lock_uuid : string) (grant_overrides : GrantOverrides)
    (acc : gmap string Z * Z) (idx_k : nat * string) : M World (gmap string Z * Z) :=
  let '(tokens, max_token) := acc in
  let '(idx, k) := idx_k in
  lock ← lock_or_default k;
  let '(token, lock) :=
    next_or_forced_fencing_token (grant_overrides_token grant_overrides (Z.of_nat idx)) lock in
  put_granted_lock k token
    (set_exclusive_holders
       (<[composite_lock_uuid := mkExclusiveHolder client pid token false true]>
          (exclusive_holders lock)) lock) ;;
  mret (<[k := token]> tokens, if bool_decide (max_token < token) then token else max_token).

(** [Broker::handle_composite_lock] *)
Definition handle_composite_lock (request : CompositeLockRequest) : M World unit :=
  let '(mkCompositeLockRequest client uuid keys pid ttl wait grant_overrides) := request in
  if bool_decide (keys = []) || bool_decide (MAX_COMPOSITE_KEYS < length keys)%nat then
    send client
      (Response.CompositeLock uuid keys false None None
         (Some ("composite lock requires 1..=" +:+ pretty MAX_COMPOSITE_KEYS +:+ " keys")))
  else
    let keys := dedup_keys (sort_keys keys) in
    s ← get_state;
    let all_free := forallb (key_is_free s) keys in
    composite_lock_uuid ← uuid_or_new (go_lock_uuid grant_overrides);
    if all_free then
      '(tokens, max_token) ←
        for_fold (imap (fun idx k => (idx, k)) keys) (∅, 0)
          (grant_composite_member client pid composite_lock_uuid grant_overrides);
      observe_fencing_token max_token ;;
      for_each keys maybe_mark_idle ;;
      track_holder client composite_lock_uuid keys HoldExclusive ;;
      schedule_deadline ttl composite_lock_uuid keys HoldExclusive client ;;
      send client
        (Response.CompositeLock uuid keys true (Some composite_lock_uuid) (Some tokens) None)
    else if negb wait then
      send client (Response.CompositeLock uuid keys false None None None)
    else
      match keys with
      | [] => panic "index out of bounds"
      | head :: _ =>
          let pending :=
            mkPendingRequest uuid client pid ttl None (go_fencing_seed grant_overrides) false
              (PendingComposite keys keys [] ∅ composite_lock_uuid) in
          lock ← lock_or_default head;
          put_lock head (set_queue (LinkedQueue.push_back (queue lock) uuid pending).2 lock) ;;
          maybe_mark_idle head ;;
          track_pending client head uuid ;;
          send client
            (Response.CompositeLock uuid keys false (Some composite_lock_uuid) None None) ;;
          try_grant_next head
      end.

(** ** Unlock *)

(** The locals the loop of [handle_unlock] updates. *)
Record UnlockAcc : Type := mkUnlockAcc {
  ua_total_unlocked : bool;
  ua_last_depth : nat;
  ua_wiped : list (ClientId * string);
  ua_removed : list (ClientId * string);
  ua_denied : bool;
}.

(** The closure [can_unlock_target]. *)
Definition can_unlock_target (force : bool) (client : ClientId) (live_clients : gset Z)
    (owner : ClientId) : bool :=
  force || bool_decide (owner = client) || negb (bool_decide (owner ∈ live_clients)).

(** One [match owner { Some(owner) if can_unlock_target(owner) => .., Some(_) => .., None => .. }]:
    whether the holder is removed, and the two lists it updates. *)
Definition unlock_decision (can : ClientId -> bool) (target : string) (owner : option ClientId)
    (removed : list (ClientId * string)) (denied : bool)
    : bool * list (ClientId * string) * bool :=
  match owner with
  | Some owner => if can owner then (true, removed ++ [(owner, target)], denied)
                  else (false, removed, true)
  | None => (false, removed, denied)
  end.

(** The [Some(target)] arm of the loop. *)
Definition unlock_target (can : ClientId -> bool) (target : string) (acc : UnlockAcc)
    (lock : LockState) : UnlockAcc * LockState :=
  let exclusive_owner := eh_client <$> exclusive_holders lock !! target in
  let '(removed_exclusive, removed, denied) :=
    unlock_decision can target exclusive_owner (ua_removed acc) (ua_denied acc) in
  let lock := if removed_exclusive
              then set_exclusive_holders (delete target (exclusive_holders lock)) lock else lock in
  let reader_owner := rh_client <$> readers lock !! target in
  let '(removed_reader, removed, denied) :=
    unlock_decision can target reader_owner removed denied in
  let lock := if removed_reader
              then set_readers (delete target (readers lock)) lock else lock in
  let writer_owner :=
    match writer lock with
    | Some w => if bool_decide (rh_lock_uuid w = target) then Some (rh_client w) else None
    | None => None
    end in
  let '(removed_writer, removed, denied) :=
    unlock_decision can target writer_owner removed denied in
  let lock := if removed_writer then set_writer None lock else lock in
  (mkUnlockAcc (ua_total_unlocked acc || removed_exclusive || removed_reader || removed_writer)
     (ua_last_depth acc) (ua_wiped acc) removed denied, lock).

(** The [None] (wipe-all) arm of the loop. *)
Definition unlock_wipe (acc : UnlockAcc) (lock : LockState) : M World (UnlockAcc * LockState) :=
  excl ← hash_order (map_to_list (exclusive_holders lock));
  rds ← hash_order (map_to_list (readers lock));
  let wiped :=
    ua_wiped acc
      ++ ((fun lh => (eh_client lh.2, lh.1)) <$> excl)
      ++ ((fun lh => (rh_client lh.2, lh.1)) <$> rds)
      ++ match writer lock with Some w => [(rh_client w, rh_lock_uuid w)] | None => [] end in
  let any_existed :=
    negb (bool_decide (exclusive_holders lock = ∅)) || negb (bool_decide (readers lock = ∅))
      || bool_decide (writer lock <> None) in
  mret (mkUnlockAcc (ua_total_unlocked acc || any_existed) (ua_last_depth acc) wiped
          (ua_removed acc) (ua_denied acc),
        set_writer None (set_readers ∅ (set_exclusive_holders ∅ lock))).

Definition unlock_key (target : option string) (can : ClientId -> bool) (acc : UnlockAcc)
    (key : string) : M World UnlockAcc :=
  lock ← get_lock key;
  match lock with
  | None => mret acc
  | Some lock =>
      '(acc, lock) ←
        match target with
        | Some target => mret (unlock_target can target acc lock)
        | None => unlock_wipe acc lock
        end;
      put_lock key lock ;;
      mret (mkUnlockAcc (ua_total_unlocked acc) (LinkedQueue.len (queue lock)) (ua_wiped acc)
              (ua_removed acc) (ua_denied acc))
  end.

(** [Broker::handle_unlock] *)
Definition handle_unlock (client : ClientId) (uuid : string) (keys : list string)
    (lock_uuid : option string) (force : bool) : M World unit :=
  if bool_decide (keys = []) then
    send client (Response.Error uuid "unlock request requires at least one key")
  else
    s ← get_state;
    let live_clients := dom (clients s) in
    match lock_uuid, force with
    | None, false =>
        send client
          (Response.Unlock uuid keys false 0
             (Some "unlock requires `_uuid` or `force=true`"))
    | _, _ =>
        let target_lock_uuid := lock_uuid in
        acc ← for_fold keys (mkUnlockAcc false 0 [] [] false)
                (unlock_key target_lock_uuid (can_unlock_target force client live_clients));
        match target_lock_uuid with
        | Some _ =>
            if ua_total_unlocked acc
            then for_each (ua_removed acc) (fun ol => upd_client ol.1 (unhold ol.2))
            else mret tt
        | None => for_each (ua_wiped acc) (fun ol => upd_client ol.1 (unhold ol.2))
        end ;;
        for_each keys try_grant_next ;;
        let error :=
          if negb (ua_total_unlocked acc) && ua_denied acc then
            (fun t => "unlock lock_uuid `" +:+ t +:+
               "` is owned by another live client; use force=true to override")
              <$> target_lock_uuid
          else if negb (ua_total_unlocked acc) && force then
            (fun t => "unlock(force=true) lock_uuid `" +:+ t +:+
               "` did not match any current holder for the requested keys")
              <$> target_lock_uuid
          else None in
        send client
          (Response.Unlock uuid keys (ua_total_unlocked acc) (ua_last_depth acc) error)
    end.

(** ** Reader-writer locks *)

(** [Broker::handle_register_read] *)
Definition handle_register_read (client : ClientId) (uuid key : string)
    (grant_overrides : GrantOverrides) : M World unit :=
  lock ← lock_or_default key;
  if bool_decide (writer lock = None) && bool_decide (exclusive_holders lock = ∅)
       && LinkedQueue.is_empty (queue lock)
  then
    let '(token, lock) :=
      next_or_forced_fencing_token (grant_overrides_token grant_overrides 0) lock in
    lock_uuid ← uuid_or_new (go_lock_uuid grant_overrides);
    let lock := set_readers (<[lock_uuid := mkRwHolder client token lock_uuid]> (readers lock)) lock in
    put_granted_lock key token lock ;;
    let readers_ := len_u32 (size (readers lock)) in
    observe_fencing_token token ;;
    maybe_mark_idle key ;;
    track_holder client lock_uuid [key] HoldRead ;;
    send client
      (Response.RegisterReadResult uuid key readers_ false true (Some lock_uuid) (Some token))
  else
    let lock :=
      set_queue
        (LinkedQueue.push_back (queue lock) uuid
           (mkPendingRequest uuid client None None (go_lock_uuid grant_overrides)
              (go_fencing_seed grant_overrides) false PendingReader)).2 lock in
    put_lock key lock ;;
    let writer_flag := bool_decide (writer lock <> None) in
    let readers_ := len_u32 (size (readers lock)) in
    maybe_mark_idle key ;;
    track_pending client key uuid ;;
    send client (Response.RegisterReadResult uuid key readers_ writer_flag false None None).

(** [Broker::handle_register_write] *)
Definition handle_register_write (client : ClientId) (uuid key : string)
    (grant_overrides : GrantOverrides) : M World unit :=
  lock ← lock_or_default key;
  if bool_decide (writer lock = None) && bool_decide (readers lock = ∅)
       && bool_decide (exclusive_holders lock = ∅)
  then
    let '(token, lock) :=
      next_or_forced_fencing_token (grant_overrides_token grant_overrides 0) lock in
    lock_uuid ← uuid_or_new (go_lock_uuid grant_overrides);
    put_granted_lock key token (set_writer (Some (mkRwHolder client token lock_uuid)) lock) ;;
    observe_fencing_token token ;;
    maybe_mark_idle key ;;
    track_holder client lock_uuid [key] HoldWrite ;;
    send client
      (Response.RegisterWriteResult uuid key 0 true true (Some lock_uuid) (Some token))
  else
    let lock :=
      set_queue
        (LinkedQueue.push_back (queue lock) uuid
           (mkPendingRequest uuid client None None (go_lock_uuid grant_overrides)
              (go_fencing_seed grant_overrides) false PendingWriter)).2 lock in
    put_lock key lock ;;
    let writer_flag := bool_decide (writer lock <> None) in
    let readers_ := len_u32 (size (readers lock)) in
    maybe_mark_idle key ;;
    track_pending client key uuid ;;
    send client (Response.RegisterWriteResult uuid key readers_ writer_flag false None None).

(** [Broker::handle_end_read] *)
Definition handle_end_read (client : ClientId) (uuid key : string) : M World unit :=
  lock ← get_lock key;
  match lock with
  | Some lock =>
      to_remove ← hash_order
        (fst <$> filter (fun kh => rh_client kh.2 = client) (map_to_list (readers lock)));
      for_each to_remove (fun k =>
        l ← get_lock key;
        match l with
        | Some l => put_lock key (set_readers (delete k (readers l)) l)
        | None => mret tt
        end ;;
        upd_client client (unhold k)) ;;
      l ← get_lock key;
      let readers_ := match l with Some l => len_u32 (size (readers l)) | None => 0 end in
      send client (Response.EndReadResult uuid key readers_) ;;
      try_grant_next key
  | None => send client (Response.EndReadResult uuid key 0)
  end.

(** [Broker::handle_end_write] *)
Definition handle_end_write (client : ClientId) (uuid key : string) : M World unit :=
  lock ← get_lock key;
  match lock with
  | Some lock =>
      lock ← match writer lock with
             | Some w =>
                 if bool_decide (rh_client w = client) then
                   let lock := set_writer None lock in
                   put_lock key lock ;;
                   upd_client client (unhold (rh_lock_uuid w)) ;;
                   mret lock
                 else mret lock
             | None => mret lock
             end;
      let writer_flag := bool_decide (writer lock <> None) in
      let readers_ := len_u32 (size (readers lock)) in
      send client (Response.EndWriteResult uuid key readers_ writer_flag)
  | None => mret tt
  end ;;
  try_grant_next key.

(** ** Dispatch *)

(** The [Request::LockInfo] arm. *)
Definition handle_lock_info (client : ClientId) (uuid key : string) : M World unit :=
  lock ← get_lock key;
  match lock with
  | Some l =>
      excl ← hash_order ((map_to_list (exclusive_holders l)).*1);
      rds ← hash_order ((map_to_list (readers l)).*1);
      let holders :=
        excl ++ rds ++ match writer l with Some w => [rh_lock_uuid w] | None => [] end in
      send client
        (Response.LockInfo uuid key (negb (bool_decide (holders = []))) holders
           (LinkedQueue.len (queue l)) (len_u32 (size (readers l)))
           (bool_decide (writer l <> None)))
  | None => send client (Response.LockInfo uuid key false [] 0 0 false)
  end.

Definition max_zero_error : string :=
  "`max` must be >= 1; omit the field to keep the existing concurrency level".

(** [Broker::handle_request_with_grant_overrides] *)
Definition handle_request_with_grant_overrides (client : ClientId) (request : Request.t)
    (grant_overrides : GrantOverrides) : M World unit :=
  match request with
  | Request.Version uuid _ =>
      send client (Response.Version uuid PROTOCOL_VERSION true None)
  | Request.Auth uuid _ => send client (Response.Auth uuid true None)
  | Request.Lock uuid key keys pid ttl max_ force _ keep_locks_after_death wait =>
      let wait := default true wait in
      let ttl := duration_from_millis <$> ttl in
      if bool_decide (max_ = Some 0) then
        match keys with
        | Some ks =>
            send client
              (Response.CompositeLock uuid ks false None None (Some max_zero_error))
        | None =>
            send client
              (Response.Lock uuid (default "" key) false 0 None None None (Some max_zero_error))
        end
      else
        match key, keys with
        | Some k, None =>
            handle_exclusive_lock client uuid k pid ttl max_ keep_locks_after_death force wait
              grant_overrides
        | None, Some ks =>
            handle_composite_lock
              (mkCompositeLockRequest client uuid ks pid ttl wait grant_overrides)
        | Some _, Some _ =>
            send client
              (Response.Error uuid "lock request must set either `key` or `keys`, not both")
        | None, None =>
            send client (Response.Error uuid "lock request requires `key` or `keys`")
        end
  | Request.Unlock uuid key keys lock_uuid force =>
      match key, keys with
      | Some k, None => handle_unlock client uuid [k] lock_uuid force
      | None, Some ks => handle_unlock client uuid ks lock_uuid force
      | Some _, Some _ =>
          send client
            (Response.Error uuid "unlock request must set either `key` or `keys`, not both")
      | None, None =>
          send client (Response.Error uuid "unlock request requires `key` or `keys`")
      end
  | Request.RegisterRead uuid key => handle_register_read client uuid key grant_overrides
  | Request.RegisterWrite uuid key => handle_register_write client uuid key grant_overrides
  | Request.EndRead uuid key => handle_end_read client uuid key
  | Request.EndWrite uuid key => handle_end_write client uuid key
  | Request.LockInfo uuid key => handle_lock_info client uuid key
  | Request.Ls uuid =>
      s ← get_state;
      keys ← hash_order ((map_to_list (locks s)).*1);
      send client (Response.LsResult uuid keys)
  | Request.Heartbeat uuid => send client (Response.Ok uuid)
  end.

(** [Broker::handle_request_with_grant_uuid] *)
Definition handle_request_with_grant_uuid (client : ClientId) (request : Request.t)
    (grant_lock_uuid : option string) : M World unit :=
  handle_request_with_grant_overrides client request (mkGrantOverrides grant_lock_uuid None).

(** [Broker::handle_request] *)
Definition handle_request (client : ClientId) (request : Request.t) : M World unit :=
  handle_request_with_grant_uuid client request None.

End broker.
