(* ===== verification/BrokerOps.v ===== *)
(** * Connections, detachment, the TTL sweep and the read-only views

    [src/src/broker.rs]: [register_client] .. [drop_client] (lines 664-839),
    [detach_lock_*] (2271-2322), [metrics], [top_keys] and [tick_ttl]
    (2325-2329, 2612-2770). *)

From S2P Require Import Prelude Monad Protocol Queue BrokerTypes BrokerState Broker.
From stdpp Require Import options.

Section broker_ops.
Context `{LQ : LinkedQueueCrate} `{E : Env}.

(** ** Registering clients *)

(** The [while] loop of [Broker::next_available_client_id]. *)
Fixpoint next_available_client_id_loop (fuel : nat) (s : BrokerState) (id : ClientId)
    : option ClientId :=
  match fuel with
  | O => None
  | S fuel =>
      if bool_decide (id = SNAPSHOT_DETACHED_CLIENT) || bool_decide (is_Some (clients s !! id))
      then next_available_client_id_loop fuel s (Z.max (wrapping_add64 id 1) 1)
      else Some id
  end.

(** [Broker::next_available_client_id]; every iteration but the last skips a
    registered client, so [S (size clients)] iterations are enough. *)
Definition next_available_client_id (s : BrokerState) (preferred_id : ClientId)
    : M World ClientId :=
  match next_available_client_id_loop (S (size (clients s))) s (Z.max preferred_id 1) with
  | Some id => mret id
  | None => out_of_fuel
  end.

(** [Broker::insert_client_handle] *)
Definition insert_client_handle (id : ClientId) (sender : Sender) : M World unit :=
  upd_state (fun s =>
    let s := set_next_client_id (Z.max (wrapping_add64 id 1) 1) s in
    set_clients (<[id := mkClientHandle sender ∅ []]> (clients s)) s).

(** [Broker::register_client] *)
Definition register_client : M World ClientId :=
  s ← get_state;
  id ← next_available_client_id s (next_client_id s);
  insert_client_handle id SenderOpen ;;
  mret id.

(** [Broker::register_client_with_id] *)
Definition register_client_with_id (preferred_id : ClientId) : M World ClientId :=
  s ← get_state;
  id ← next_available_client_id s preferred_id;
  insert_client_handle id SenderOpen ;;
  mret id.

(** ** Dropping clients *)

(** What the handle-less branch collects in its scan of the lock table. *)
Record DropScan : Type := mkDropScan {
  ds_queued : list (string * string);
  ds_exclusive : list (string * string);
  ds_readers : list (string * string);
  ds_writers : list string;
}.

(** One iteration of the scan. *)
Definition drop_scan_lock (client : ClientId) (acc : DropScan) (kl : string * LockState)
    : M World DropScan :=
  let '(key, lock) := kl in
  let queued := (fun up => (key, up.1))
    <$> filter (fun up => pr_client up.2 = client) (LinkedQueue.iter (queue lock)) in
  excl ← hash_order (map_to_list (exclusive_holders lock));
  let exclusive := (fun lh => (key, lh.1)) <$> filter (fun lh => eh_client lh.2 = client) excl in
  rds ← hash_order (map_to_list (readers lock));
  let readers_ := (fun lh => (key, lh.1)) <$> filter (fun lh => rh_client lh.2 = client) rds in
  let writers := match writer lock with
                 | Some w => if bool_decide (rh_client w = client) then [key] else []
                 | None => []
                 end in
  mret (mkDropScan (ds_queued acc ++ queued) (ds_exclusive acc ++ exclusive)
          (ds_readers acc ++ readers_) (ds_writers acc ++ writers)).

(** [if let Some(lock) = state.locks.get_mut(&key) { f(lock) }] *)
Definition alter_lock (key : string) (f : LockState -> LockState) : M World unit :=
  lock ← get_lock key;
  match lock with
  | Some l => put_lock key (f l)
  | None => mret tt
  end.

Definition remove_queued (request_uuid : string) (l : LockState) : LockState :=
  set_queue (LinkedQueue.remove (queue l) request_uuid).2 l.
Definition remove_exclusive (lock_uuid : string) (l : LockState) : LockState :=
  set_exclusive_holders (delete lock_uuid (exclusive_holders l)) l.
Definition remove_reader (lock_uuid : string) (l : LockState) : LockState :=
  set_readers (delete lock_uuid (readers l)) l.
Definition clear_writer (l : LockState) : LockState := set_writer None l.
Definition remove_writer (lock_uuid : string) (l : LockState) : LockState :=
  match writer l with
  | Some w => if bool_decide (rh_lock_uuid w = lock_uuid) then set_writer None l else l
  | None => l
  end.

(** The branch of [Broker::drop_client] for a client without a handle. *)
Definition drop_unregistered_client (client : ClientId) : M World unit :=
  s ← get_state;
  all_locks ← hash_order (map_to_list (locks s));
  scan ← for_fold all_locks (mkDropScan [] [] [] []) (drop_scan_lock client);
  for_each (ds_queued scan) (fun ku => alter_lock ku.1 (remove_queued ku.2)) ;;
  for_each (ds_exclusive scan) (fun ku => alter_lock ku.1 (remove_exclusive ku.2)) ;;
  for_each (ds_readers scan) (fun ku => alter_lock ku.1 (remove_reader ku.2)) ;;
  for_each (ds_writers scan) (fun k => alter_lock k clear_writer) ;;
  let touched_keys : gset string :=
    list_to_set ((ds_queued scan).*1 ++ (ds_exclusive scan).*1 ++ (ds_readers scan).*1
                   ++ ds_writers scan) in
  touched ← hash_order (elements touched_keys);
  for_each touched (fun key => maybe_mark_idle key ;; try_grant_next key).

(** Releasing one key of one held lock; the answer is whether the key was
    touched. *)
Definition drop_held_key (lock_uuid : string) (rw_kind : RwHoldKind) (touched : gset string)
    (key : string) : M World (gset string) :=
  lock ← get_lock key;
  match lock with
  | None => mret touched
  | Some lock =>
      match rw_kind with
      | HoldExclusive =>
          match exclusive_holders lock !! lock_uuid with
          | Some holder =>
              if eh_keep_locks_after_death holder && negb (eh_composite_member holder)
              then mret touched
              else put_lock key (remove_exclusive lock_uuid lock) ;; mret ({[key]} ∪ touched)
          | None => put_lock key (remove_exclusive lock_uuid lock) ;; mret ({[key]} ∪ touched)
          end
      | HoldRead => put_lock key (remove_reader lock_uuid lock) ;; mret ({[key]} ∪ touched)
      | HoldWrite => put_lock key (remove_writer lock_uuid lock) ;; mret ({[key]} ∪ touched)
      end
  end.

Definition drop_held_lock (touched : gset string) (held : string * KeysOfLock)
    : M World (gset string) :=
  for_fold (kol_keys held.2) touched (drop_held_key held.1 (kol_rw_kind held.2)).

(** [Broker::drop_client] *)
Definition drop_client (client : ClientId) : M World unit :=
  s ← get_state;
  match clients s !! client with
  | None => drop_unregistered_client client
  | Some handle =>
      upd_state (fun s => set_clients (delete client (clients s)) s) ;;
      for_each (ch_pending_request_uuids handle)
        (fun ku => alter_lock ku.1 (remove_queued ku.2)) ;;
      let touched : gset string := list_to_set (ch_pending_request_uuids handle).*1 in
      held ← hash_order (map_to_list (ch_held_lock_uuids handle));
      touched ← for_fold held touched drop_held_lock;
      touched ← hash_order (elements touched);
      for_each touched try_grant_next
  end.

(** ** Detaching holders from their client *)

(** [Broker::detach_lock_from_client] *)
Definition detach_lock_from_client (client : ClientId) (lock_uuid : string) : M World unit :=
  upd_client client (unhold lock_uuid).

(** The owners of [lock_uuid] on one lock, and the lock with them detached. *)
Definition detach_owners (lock_uuid : string) (l : LockState) : list ClientId :=
  match exclusive_holders l !! lock_uuid with Some h => [eh_client h] | None => [] end
  ++ match readers l !! lock_uuid with Some h => [rh_client h] | None => [] end
  ++ match writer l with
     | Some w => if bool_decide (rh_lock_uuid w = lock_uuid) then [rh_client w] else []
     | None => []
     end.

Definition detach_exclusive (h : ExclusiveHolder) : ExclusiveHolder :=
  mkExclusiveHolder SNAPSHOT_DETACHED_CLIENT (eh_pid h) (eh_fencing_token h)
    (eh_keep_locks_after_death h) (eh_composite_member h).
Definition detach_rw (h : RwHolder) : RwHolder :=
  mkRwHolder SNAPSHOT_DETACHED_CLIENT (rh_fencing_token h) (rh_lock_uuid h).

Definition detach_lock (lock_uuid : string) (l : LockState) : LockState :=
  let l := set_exclusive_holders (alter detach_exclusive lock_uuid (exclusive_holders l)) l in
  let l := set_readers (alter detach_rw lock_uuid (readers l)) l in
  match writer l with
  | Some w => if bool_decide (rh_lock_uuid w = lock_uuid)
              then set_writer (Some (detach_rw w)) l else l
  | None => l
  end.

(** [Broker::detach_lock_owner] *)
Definition detach_lock_owner (lock_uuid : string) : M World unit :=
  s ← get_state;
  let touched_clients : gset Z :=
    list_to_set (map_to_list (locks s) ≫= fun kl => detach_owners lock_uuid kl.2) in
  upd_state (fun s => set_locks (detach_lock lock_uuid <$> locks s) s) ;;
  touched ← hash_order (elements touched_clients);
  for_each touched (fun client =>
    if bool_decide (client = SNAPSHOT_DETACHED_CLIENT) then mret tt
    else
      upd_client client (unhold lock_uuid) ;;
      s ← get_state;
      match clients s !! client with
      | Some handle =>
          if bool_decide (ch_held_lock_uuids handle = ∅)
               && bool_decide (ch_pending_request_uuids handle = [])
          then upd_state (fun s => set_clients (delete client (clients s)) s)
          else mret tt
      | None => mret tt
      end).

(** ** The TTL sweep *)

(** [lock_contains_uuid_for_kind] *)
Definition lock_contains_uuid_for_kind (lock : LockState) (lock_uuid : string)
    (kind : RwHoldKind) : bool :=
  match kind with
  | HoldExclusive => bool_decide (is_Some (exclusive_holders lock !! lock_uuid))
  | HoldRead => bool_decide (is_Some (readers lock !! lock_uuid))
  | HoldWrite => match writer lock with
                 | Some w => bool_decide (rh_lock_uuid w = lock_uuid)
                 | None => false
                 end
  end.

(** [deadline_entry_is_still_held]; [tick_ttl] has the same test inline. *)
Definition deadline_entry_is_still_held (s : BrokerState) (entry : DeadlineEntry) : bool :=
  existsb (fun key =>
    match locks s !! key with
    | Some lock => lock_contains_uuid_for_kind lock (de_lock_uuid entry) (de_kind entry)
    | None => false
    end) (de_keys entry).

(** The order of the deadline index: by instant, then by sequence number. *)
Definition deadline_le (a b : Z * Z) : Prop := a.1 < b.1 \/ (a.1 = b.1 /\ a.2 <= b.2).

#[global] Instance deadline_le_dec : RelDecision deadline_le.
Proof. unfold RelDecision, deadline_le. intros. apply _. Defined.

(** [state.deadlines.range(..=cutoff)], in ascending order. *)
Definition expired_keys (cutoff : Z * Z) (ds : gmap (Z * Z) DeadlineEntry) : list (Z * Z) :=
  merge_sort deadline_le (filter (fun k => deadline_le k cutoff) (map_to_list ds).*1).

(** Removing [lock_uuid] from one of the entry's keys. *)
Definition release_for_kind (kind : RwHoldKind) (lock_uuid : string) (l : LockState) : LockState :=
  match kind with
  | HoldExclusive => remove_exclusive lock_uuid l
  | HoldRead => remove_reader lock_uuid l
  | HoldWrite => remove_writer lock_uuid l
  end.

(** One iteration of the sweep: [acc] is [evicted_keys] and [evicted_count]. *)
Definition expire_deadline (acc : gset string * nat) (k : Z * Z) : M World (gset string * nat) :=
  s ← get_state;
  match deadlines s !! k with
  | None => mret acc
  | Some entry =>
      upd_state (fun s => set_deadlines (delete k (deadlines s)) s) ;;
      s ← get_state;
      if negb (deadline_entry_is_still_held s entry) then mret acc
      else
        for_each (de_keys entry)
          (fun key => alter_lock key (release_for_kind (de_kind entry) (de_lock_uuid entry))) ;;
        upd_client (de_client entry) (unhold (de_lock_uuid entry)) ;;
        upd_state (fun s => set_ttl_evictions_total
                              (wrapping_add64 (ttl_evictions_total s) 1) s) ;;
        mret (list_to_set (de_keys entry) ∪ acc.1, S acc.2)
  end.

(** The keys the empty-key prune removes. *)
Definition prunable (cutoff : Z) (l : LockState) : bool :=
  match timestamp_emptied l with
  | Some t => bool_decide (t <= cutoff) && is_idle l
  | None => false
  end.

Definition prune_idle_keys (now : Z) : M World unit :=
  s ← get_state;
  let grace := cfg_idle_key_grace (config s) in
  if duration_is_zero grace then mret tt
  else
    match instant_checked_sub now grace with
    | None => mret tt
    | Some cutoff =>
        all_locks ← hash_order (map_to_list (locks s));
        let prune_keys := fst <$> filter (fun kl => prunable cutoff kl.2 = true) all_locks in
        for_each prune_keys (fun k => upd_state (fun s => set_locks (delete k (locks s)) s)) ;;
        upd_state (fun s => set_idle_keys_pruned_total
                              (wrapping_add64 (idle_keys_pruned_total s)
                                 (len_u64 (length prune_keys))) s)
    end.

(** [Broker::tick_ttl] *)
Definition tick_ttl (now : Z) : M World nat :=
  s ← get_state;
  let cutoff := (now, u64_max) in
  '(evicted_keys, evicted_count) ←
    for_fold (expired_keys cutoff (deadlines s)) (∅, 0%nat) expire_deadline;
  evicted ← hash_order (elements evicted_keys);
  for_each evicted try_grant_next ;;
  prune_idle_keys now ;;
  mret evicted_count.

(** ** Read-only views *)

Record BrokerMetrics : Type := mkBrokerMetrics {
  bm_keys : Z;
  bm_holders : Z;
  bm_waiters : Z;
  bm_clients : Z;
  bm_pending_deadlines : Z;
  bm_ttl_evictions_total : Z;
  bm_max_concurrency_cap : Z;
  bm_concurrency_cap_clamps_total : Z;
  bm_fencing_watermark : Z;
  bm_idle_keys_pruned_total : Z;
}.

Definition writer_count (l : LockState) : nat :=
  match writer l with Some _ => 1 | None => 0 end.

Definition holder_count (l : LockState) : nat :=
  size (exclusive_holders l) + size (readers l) + writer_count l.

(** [broker_metrics_from_state] *)
Definition broker_metrics_from_state (s : BrokerState) : BrokerMetrics := {|
  bm_keys := len_u64 (size (locks s));
  bm_holders := map_fold (fun _ l n => n + len_u64 (holder_count l)) 0 (locks s);
  bm_waiters := map_fold (fun _ l n => n + len_u64 (LinkedQueue.len (queue l))) 0 (locks s);
  bm_clients := len_u64 (size (clients s));
  bm_pending_deadlines := len_u64 (size (deadlines s));
  bm_ttl_evictions_total := ttl_evictions_total s;
  bm_max_concurrency_cap := cfg_max_concurrency_cap (config s);
  bm_concurrency_cap_clamps_total := concurrency_cap_clamps_total s;
  bm_fencing_watermark := fencing_watermark s;
  bm_idle_keys_pruned_total := idle_keys_pruned_total s;
|}.

(** [Broker::metrics] *)
Definition metrics : M World BrokerMetrics := gets (fun w => broker_metrics_from_state (state w)).

Record KeyContentionSnapshot : Type := mkKeyContentionSnapshot {
  kc_key : string;
  kc_exclusive_holders : Z;
  kc_readers : Z;
  kc_writers : Z;
  kc_waiters : Z;
  kc_fencing_counter : Z;
  kc_max : Z;
}.

Definition contention_snapshot (key : string) (lock : LockState) : KeyContentionSnapshot := {|
  kc_key := key;
  kc_exclusive_holders := len_u64 (size (exclusive_holders lock));
  kc_readers := len_u64 (size (readers lock));
  kc_writers := len_u64 (writer_count lock);
  kc_waiters := len_u64 (LinkedQueue.len (queue lock));
  kc_fencing_counter := fencing_counter lock;
  kc_max := max lock;
|}.

Definition contention_score (s : KeyContentionSnapshot) : Z :=
  kc_exclusive_holders s + kc_readers s + kc_writers s + kc_waiters s.

(** The comparison of [top_keys]: higher score first, then by key. *)
Definition contention_le (a b : KeyContentionSnapshot) : Prop :=
  contention_score b < contention_score a \/
  (contention_score a = contention_score b /\ string_le (kc_key a) (kc_key b)).

#[global] Instance contention_le_dec : RelDecision contention_le.
Proof. unfold RelDecision, contention_le. intros. apply _. Defined.

(** [Broker::top_keys] *)
Definition top_keys (n : nat) : M World (list KeyContentionSnapshot) :=
  if bool_decide (n = 0%nat) then mret []
  else
    s ← get_state;
    all_locks ← hash_order (map_to_list (locks s));
    let snapshots :=
      filter (fun c => 0 < contention_score c)
        ((fun kl => contention_snapshot kl.1 kl.2) <$> all_locks) in
    mret (take n (merge_sort contention_le snapshots)).

End broker_ops.

(** * Concrete environments the examples and witnesses run in *)

(** A broker process in which the [n]-th read sees the UUID ["u<n>"], the
    instant [n] seconds and a wall clock standing at 1000 ms; hash iteration
    follows the canonical order. *)
Definition demo_env : Env := {|
  env_uuid n := "u" +:+ pretty n;
  env_instant n := Z.of_nat n * 1000000000;
  env_unix_ms _ := Some 1000;
  env_hash_order A _ l := l;
  env_instant_min := 0;
  env_instant_max := 2 ^ 63;
  env_hash_order_perm A _ l := reflexivity l;
|}.
