(* ===== verification/BrokerSpec.v ===== *)
(** * What the broker promises: an abstract specification

    The broker's effect on its lock table is specified as a transition system
    with a handful of elementary steps -- create a key, change its limit,
    enqueue, dequeue, grant (one step per kind, with its admission guard),
    release, bump the watermark, prune -- and everything else (client
    bookkeeping, deadlines, counters, responses) as administrative steps that
    leave the lock table alone.  [BrokerRefine.v] shows that every handler is a
    finite sequence of these steps; this file proves what every sequence of
    them preserves.

    An abstract state is a world with the largest token granted but not yet
    folded into the watermark ([0] between requests). *)

From S2P Require Import Prelude Monad Protocol Queue BrokerTypes BrokerState Broker BrokerOps.
From stdpp Require Import options.

(** The fencing tokens issued for [key] so far, oldest first. *)
Fixpoint issued (key : string) (tr : list Event) : list Z :=
  match tr with
  | [] => []
  | Issued k t :: tr => if decide (k = key) then t :: issued key tr else issued key tr
  | _ :: tr => issued key tr
  end.

(** A composite waiter on [key]: its keys are strictly sorted and split into
    the granted ones and the remaining ones, [key] being the first of those;
    it has a token for exactly the granted keys. *)
Record composite_ok (key : string) (all_keys remaining_keys granted_keys : list string)
    (granted_tokens : gmap string Z) : Prop := {
  co_split : all_keys = granted_keys ++ remaining_keys;
  co_sorted : StronglySorted string_lt all_keys;
  co_head : head remaining_keys = Some key;
  co_tokens : dom granted_tokens = list_to_set granted_keys;
}.

(** A composite waiter that was granted [key] waits on its next key. *)
Lemma composite_advance key all_keys rest granted tokens token next rest' :
  composite_ok key all_keys (key :: rest) granted tokens -> rest = next :: rest' ->
  composite_ok next all_keys rest (granted ++ [key]) (<[key := token]> tokens).
Proof.
  intros [H1 H2 _ H4] ->. split; [|done|done|].
  - by rewrite H1, <-app_assoc.
  - rewrite dom_insert_L, H4, list_to_set_app_L. set_solver.
Qed.

Definition kind_ok (key : string) (k : PendingKind) : Prop :=
  match k with
  | PendingComposite all_keys remaining_keys granted_keys granted_tokens _ =>
      composite_ok key all_keys remaining_keys granted_keys granted_tokens
  | _ => True
  end.

(** What the requests of a run may ask for: the seeds they force on their
    grants ([eq None] for a broker outside Raft), and the largest number of
    concurrent holders. *)
Record Policy : Type := mkPolicy {
  seed_ok : option Z -> Prop;
  limit : Z;
}.

Section spec.
Context `{LQ : LinkedQueueCrate} `{E : Env}.

Context (pol : Policy).

Definition waiter_ok (key : string) (up : string * PendingRequest) : Prop :=
  up.1 = pr_request_uuid up.2 /\ seed_ok pol (pr_grant_fencing_seed up.2) /\
  kind_ok key (pr_kind up.2).

(** The invariant of one lock: its waiters are well formed, its limit is
    between one and [cap], the exclusive holders never exceed
    it, and the three kinds of hold exclude each other. *)
Record lock_wf (cap : Z) (key : string) (l : LockState) : Prop := {
  wf_waiters : Forall (waiter_ok key) (LinkedQueue.iter (queue l));
  wf_max : 1 <= max l <= cap;
  wf_size : Z.of_nat (size (exclusive_holders l)) <= cap;
  wf_writer : writer l <> None -> readers l = ∅ /\ exclusive_holders l = ∅;
  wf_readers : readers l <> ∅ -> exclusive_holders l = ∅;
  wf_reader_uuid : map_Forall (fun u h => rh_lock_uuid h = u) (readers l);
}.

(** The most holders a key can have: the smaller of the policy's limit and
    the broker-wide cap. *)
Definition state_cap (s : BrokerState) : Z :=
  Z.max (Z.min (limit pol) (cfg_max_concurrency_cap (config s))) 1.

Definition locks_wf (s : BrokerState) : Prop := map_Forall (lock_wf (state_cap s)) (locks s).

(** Steps of one lock that issue no token. *)
Inductive lock_step (cap : Z) (key : string) : LockState -> LockState -> Prop :=
| ls_set_max l m : 1 <= m <= cap -> lock_step cap key l (set_max m l)
| ls_timestamp l t : lock_step cap key l (set_timestamp_emptied t l)
| ls_push_back l p :
    waiter_ok key (pr_request_uuid p, p) ->
    lock_step cap key l (set_queue (LinkedQueue.push_back (queue l) (pr_request_uuid p) p).2 l)
| ls_push_front l p :
    waiter_ok key (pr_request_uuid p, p) ->
    lock_step cap key l (set_queue (LinkedQueue.push_front (queue l) (pr_request_uuid p) p).2 l)
| ls_pop_front l :
    lock_step cap key l (set_queue (LinkedQueue.pop_front (queue l)).2 l)
| ls_remove_queued l u : lock_step cap key l (remove_queued u l)
| ls_remove_exclusive l u : lock_step cap key l (remove_exclusive u l)
| ls_remove_reader l u : lock_step cap key l (remove_reader u l)
| ls_clear_writer l : lock_step cap key l (clear_writer l)
| ls_wipe l : lock_step cap key l (set_writer None (set_readers ∅ (set_exclusive_holders ∅ l))).

(** A grant: the guard of its kind, the token it mints, the new holder. *)
Inductive grant_step : LockState -> option Z -> LockState -> Prop :=
| gs_exclusive l forced lu h :
    writer l = None -> readers l = ∅ -> Z.of_nat (size (exclusive_holders l)) < max l ->
    eh_fencing_token h = (next_or_forced_fencing_token forced l).1 ->
    grant_step l forced
      (let l' := (next_or_forced_fencing_token forced l).2 in
       set_exclusive_holders (<[lu := h]> (exclusive_holders l')) l')
| gs_composite l forced lu h :
    writer l = None -> readers l = ∅ -> exclusive_holders l = ∅ ->
    eh_fencing_token h = (next_or_forced_fencing_token forced l).1 ->
    grant_step l forced
      (let l' := (next_or_forced_fencing_token forced l).2 in
       set_exclusive_holders (<[lu := h]> (exclusive_holders l')) l')
| gs_read l forced lu h :
    writer l = None -> exclusive_holders l = ∅ -> rh_lock_uuid h = lu ->
    rh_fencing_token h = (next_or_forced_fencing_token forced l).1 ->
    grant_step l forced
      (let l' := (next_or_forced_fencing_token forced l).2 in
       set_readers (<[lu := h]> (readers l')) l')
| gs_write l forced h :
    writer l = None -> readers l = ∅ -> exclusive_holders l = ∅ ->
    rh_fencing_token h = (next_or_forced_fencing_token forced l).1 ->
    grant_step l forced
      (let l' := (next_or_forced_fencing_token forced l).2 in set_writer (Some h) l').

(** A lock [lock_or_default] may create. *)
Record fresh_lock (cap watermark : Z) (l : LockState) : Prop := {
  fl_exclusive : exclusive_holders l = ∅;
  fl_readers : readers l = ∅;
  fl_writer : writer l = None;
  fl_queue : LinkedQueue.iter (queue l) = [];
  fl_max : 1 <= max l <= cap;
  fl_counter : watermark <= fencing_counter l;
  (** The counter is the watermark or a reading of the wall clock. *)
  fl_clock : fencing_counter l = watermark \/
             exists n, fencing_counter l = default 0 (as_u64 <$> env_unix_ms n);
}.

Definition AState : Type := World * Z.

Definition upd_locks (f : gmap string LockState -> gmap string LockState) (w : World) : World :=
  set_state (set_locks (f (locks (state w))) (state w)) w.

Inductive astep : AState -> AState -> Prop :=
| as_lock w owed key l l' :
    locks (state w) !! key = Some l ->
    lock_step (state_cap (state w)) key l l' ->
    astep (w, owed) (upd_locks (<[key := l']>) w, owed)
| as_create w owed key l :
    locks (state w) !! key = None ->
    fresh_lock (state_cap (state w)) (fencing_watermark (state w)) l ->
    astep (w, owed) (upd_locks (<[key := l]>) w, owed)
| as_grant w owed key l forced l' :
    locks (state w) !! key = Some l ->
    seed_ok pol forced ->
    grant_step l forced l' ->
    let token := (next_or_forced_fencing_token forced l).1 in
    astep (w, owed) (log (Issued key token) (upd_locks (<[key := l']>) w), Z.max owed token)
| as_observe w owed token :
    owed <= token ->
    astep (w, owed)
      (set_state (if bool_decide (fencing_watermark (state w) < token)
                  then set_fencing_watermark token (state w) else state w) w, 0)
| as_detach w owed u :
    astep (w, owed) (upd_locks (fmap (detach_lock u)) w, owed)
| as_prune w key l :
    locks (state w) !! key = Some l -> is_idle l = true ->
    astep (w, 0) (upd_locks (delete key) w, 0)
| as_admin w w' owed :
    locks (state w') = locks (state w) ->
    fencing_watermark (state w') = fencing_watermark (state w) ->
    config (state w') = config (state w) ->
    (forall key, issued key (trace w') = issued key (trace w)) ->
    astep (w, owed) (w', owed).

Abbreviation asteps := (star astep).

(** ** Shared facts *)

Lemma issued_app key tr1 tr2 : issued key (tr1 ++ tr2) = issued key tr1 ++ issued key tr2.
Proof.
  induction tr1 as [|[r|c r|k t] tr1 IH]; simpl; try done.
  case_decide; simpl; by rewrite IH.
Qed.

Lemma issued_snoc_other key tr e :
  (forall t, e <> Issued key t) -> issued key (tr ++ [e]) = issued key tr.
Proof.
  intros He. rewrite issued_app. destruct e; simpl; rewrite ?app_nil_r; try done.
  case_decide; subst; [by destruct (He token)|by rewrite app_nil_r].
Qed.

Lemma state_upd_locks f w : locks (state (upd_locks f w)) = f (locks (state w)).
Proof. done. Qed.

Lemma push_back_Forall (P : string * PendingRequest -> Prop) q u p :
  Forall P (LinkedQueue.iter q) -> P (u, p) ->
  Forall P (LinkedQueue.iter (LinkedQueue.push_back q u p).2).
Proof.
  intros. rewrite LinkedQueueFacts.push_back_iter. case_decide; [done|].
  apply Forall_app. auto.
Qed.

Lemma push_front_Forall (P : string * PendingRequest -> Prop) q u p :
  Forall P (LinkedQueue.iter q) -> P (u, p) ->
  Forall P (LinkedQueue.iter (LinkedQueue.push_front q u p).2).
Proof.
  intros. rewrite LinkedQueueFacts.push_front_iter. case_decide; [done|]. by constructor.
Qed.

Lemma pop_front_Forall (P : string * PendingRequest -> Prop) q :
  Forall P (LinkedQueue.iter q) -> Forall P (LinkedQueue.iter (LinkedQueue.pop_front q).2).
Proof.
  intros HF. rewrite (proj2 (LinkedQueueFacts.pop_front_iter q)).
  destruct HF; [constructor|done].
Qed.

Lemma remove_Forall (P : string * PendingRequest -> Prop) q u :
  Forall P (LinkedQueue.iter q) -> Forall P (LinkedQueue.iter (LinkedQueue.remove q u).2).
Proof.
  intros HF. rewrite (proj2 (LinkedQueueFacts.remove_iter q u)).
  rewrite Forall_forall in HF |- *. intros x Hx. apply HF.
  by apply assoc_remove_elem in Hx as [? _].
Qed.

Lemma queue_detach_lock u l : queue (detach_lock u l) = queue l.
Proof. unfold detach_lock. simpl. repeat case_match; done. Qed.

Lemma max_detach_lock u l : max (detach_lock u l) = max l.
Proof. unfold detach_lock. simpl. repeat case_match; done. Qed.

Lemma exclusive_detach_lock u l :
  exclusive_holders (detach_lock u l) = alter detach_exclusive u (exclusive_holders l).
Proof. unfold detach_lock. simpl. repeat case_match; done. Qed.

Lemma readers_detach_lock u l :
  readers (detach_lock u l) = alter detach_rw u (readers l).
Proof. unfold detach_lock. simpl. repeat case_match; done. Qed.

Lemma writer_detach_lock u l : writer (detach_lock u l) = None <-> writer l = None.
Proof. unfold detach_lock. simpl. repeat case_match; simpl; naive_solver. Qed.

Lemma alter_empty_iff {A} (f : A -> A) (u : string) (m : gmap string A) :
  alter f u m = ∅ <-> m = ∅.
Proof.
  split; [|intros ->; apply map_eq; intros i; rewrite lookup_alter, !lookup_empty; by case_decide].
  intros H. apply map_eq. intros i. pose proof (f_equal (lookup i) H) as Hi.
  rewrite lookup_alter in Hi. rewrite lookup_empty in *.
  case_decide; subst; [by apply fmap_None in Hi|done].
Qed.

Lemma size_alter {A} (f : A -> A) (u : string) (m : gmap string A) : size (alter f u m) = size m.
Proof. rewrite <-!size_dom. by rewrite dom_alter_L. Qed.

Lemma size_insert_le {A} (u : string) (x : A) (m : gmap string A) :
  (size (<[u := x]> m) <= S (size m))%nat.
Proof.
  destruct (m !! u) eqn:Hu.
  - rewrite map_size_insert_Some by eauto. lia.
  - rewrite map_size_insert_None by done. lia.
Qed.

Lemma size_delete_le {A} (u : string) (m : gmap string A) : (size (delete u m) <= size m)%nat.
Proof.
  destruct (m !! u) eqn:Hu.
  - rewrite map_size_delete_Some by eauto. lia.
  - by rewrite delete_id.
Qed.

Lemma delete_nonempty {A} (u : string) (m : gmap string A) : delete u m <> ∅ -> m <> ∅.
Proof. intros H ->. apply H. apply delete_empty. Qed.

Lemma detach_lock_wf cap key u l : lock_wf cap key l -> lock_wf cap key (detach_lock u l).
Proof.
  intros []. split.
  - by rewrite queue_detach_lock.
  - by rewrite max_detach_lock.
  - by rewrite exclusive_detach_lock, size_alter.
  - rewrite writer_detach_lock, readers_detach_lock, exclusive_detach_lock.
    by rewrite !alter_empty_iff.
  - rewrite readers_detach_lock, exclusive_detach_lock. by rewrite !alter_empty_iff.
  - rewrite readers_detach_lock. intros i h. rewrite lookup_alter_Some.
    intros [(<- & h' & Hh & ->)|[_ Hh]]; [by apply (wf_reader_uuid0 u h')|by apply wf_reader_uuid0].
Qed.

Lemma lock_step_wf cap key l l' :
  lock_step cap key l l' -> lock_wf cap key l -> lock_wf cap key l'.
Proof.
  intros Hs Hwf. destruct Hs; destruct Hwf; split; simpl;
    auto using push_back_Forall, push_front_Forall, pop_front_Forall, remove_Forall.
  - pose proof (size_delete_le u (exclusive_holders l)). lia.
  - intros H. destruct (wf_writer0 H) as [-> ->]. by rewrite delete_empty.
  - intros H. rewrite wf_readers0 by done. apply delete_empty.
  - intros H. destruct (wf_writer0 H) as [-> ->]. by rewrite delete_empty.
  - intros H. by apply wf_readers0, delete_nonempty with u.
  - by apply map_Forall_delete.
  - rewrite map_size_empty. lia.
  - apply map_Forall_empty.
Qed.

(** Minting a token changes the counter and nothing else. *)
Definition same_but_counter (l l' : LockState) : Prop :=
  exclusive_holders l' = exclusive_holders l /\ max l' = max l /\ readers l' = readers l /\
  writer l' = writer l /\ queue l' = queue l /\ timestamp_emptied l' = timestamp_emptied l.

Lemma next_token_same forced l : same_but_counter l (next_or_forced_fencing_token forced l).2.
Proof. by destruct forced. Qed.

Lemma grant_step_queue l forced l' : grant_step l forced l' -> queue l' = queue l.
Proof. destruct 1; simpl; apply next_token_same. Qed.

Lemma grant_step_wf cap key l forced l' :
  grant_step l forced l' -> lock_wf cap key l -> lock_wf cap key l'.
Proof.
  intros Hg [Hq Hm Hs Hw Hr Hu].
  destruct Hg as [l forced lu h Hw' Hr' Hlt _|l forced lu h Hw' Hr' He' _
                 |l forced lu h Hw' He' Hlu _|l forced h Hw' Hr' He' _];
    destruct (next_token_same forced l) as (E1 & E2 & E3 & E4 & E5 & E6);
    set (l' := (next_or_forced_fencing_token forced l).2) in *; split; simpl;
    rewrite ?E1, ?E2, ?E3, ?E4, ?E5; try done.
  - pose proof (size_insert_le lu h (exclusive_holders l)). lia.
  - rewrite He', insert_empty, map_size_singleton. lia.
  - by apply map_Forall_insert_2.
Qed.

Lemma fresh_lock_wf cap wm key l : fresh_lock cap wm l -> lock_wf cap key l.
Proof.
  intros [H1 H2 H3 H4 H5 _ _]. split; rewrite ?H1, ?H2, ?H3, ?H4; try done.
  rewrite map_size_empty. lia.
Qed.

Lemma astep_config a a' : astep a a' -> config (state a'.1) = config (state a.1).
Proof. destruct 1; simpl; try done. by case_bool_decide. Qed.

(** Every step preserves the lock invariant. *)
Lemma astep_locks_wf a a' : astep a a' -> locks_wf (state a.1) -> locks_wf (state a'.1).
Proof.
  intros Hs Hwf. pose proof (astep_config _ _ Hs) as Hcfg.
  unfold locks_wf, state_cap in *. rewrite Hcfg. clear Hcfg.
  destruct Hs; simpl in *.
  - apply map_Forall_insert_2; [|done]. eapply lock_step_wf; [done|by eapply Hwf].
  - apply map_Forall_insert_2; [|done]. by eapply fresh_lock_wf.
  - apply map_Forall_insert_2; [|done]. eapply grant_step_wf; [done|by eapply Hwf].
  - by case_bool_decide.
  - apply map_Forall_fmap. eapply map_Forall_impl; [done|]. intros ? ?. apply detach_lock_wf.
  - by apply map_Forall_delete.
  - by match goal with Hl : locks _ = locks _ |- _ => rewrite Hl end.
Qed.

Lemma asteps_locks_wf a a' : asteps a a' -> locks_wf (state a.1) -> locks_wf (state a'.1).
Proof. apply (star_inv astep (fun a => locks_wf (state a.1))). eauto using astep_locks_wf. Qed.

Lemma asteps_config a a' : asteps a a' -> config (state a'.1) = config (state a.1).
Proof. induction 1 as [|a1 a2 a3 H1 _ IH]; [done|]. rewrite IH. by apply astep_config. Qed.

End spec.
