(* ===== verification/BrokerFencing.v ===== *)
(** * Fencing tokens

    Every sequence of abstract steps without forced seeds issues strictly
    increasing tokens per key, also across the pruning and re-creation of a
    key, as long as the broker-wide watermark stays below [u64::MAX]. *)

From S2P Require Import Prelude Monad Protocol Queue BrokerTypes BrokerState Broker BrokerOps.
From S2P Require Import BrokerSpec.
From stdpp Require Import options.

Section fencing.
Context `{LQ : LinkedQueueCrate} `{E : Env}.

(** A holder of the lock, of any kind, with its token. *)
Inductive holds_token (l : LockState) (t : Z) : Prop :=
| ht_exclusive u h : exclusive_holders l !! u = Some h -> eh_fencing_token h = t -> holds_token l t
| ht_reader u h : readers l !! u = Some h -> rh_fencing_token h = t -> holds_token l t
| ht_writer h : writer l = Some h -> rh_fencing_token h = t -> holds_token l t.

Definition unforced (limit : Z) : Policy := mkPolicy (eq None) limit.

(** The larger of the watermark and the token still to be observed. *)
Definition high (a : AState) : Z := Z.max (fencing_watermark (state a.1)) a.2.

Record fence_inv (clock : Z) (a : AState) : Prop := {
  fi_watermark : 0 <= fencing_watermark (state a.1) /\ 0 <= a.2;
  fi_sorted key : StronglySorted Z.lt (issued key (trace a.1));
  fi_issued key t : t ∈ issued key (trace a.1) -> 1 <= t <= high a;
  fi_counter key l : locks (state a.1) !! key = Some l ->
    0 <= fencing_counter l <= Z.max (high a) clock;
  fi_present key l t : locks (state a.1) !! key = Some l ->
    t ∈ issued key (trace a.1) -> t <= fencing_counter l;
  fi_absent key t : locks (state a.1) !! key = None ->
    t ∈ issued key (trace a.1) -> t <= fencing_watermark (state a.1);
  fi_holders key l t : locks (state a.1) !! key = Some l -> holds_token l t ->
    t ∈ issued key (trace a.1);
}.

(** No reading of the wall clock exceeds [clock]. *)
Definition clock_bound (clock : Z) : Prop :=
  forall n, default 0 (as_u64 <$> env_unix_ms n) <= clock.

Lemma clock_nonneg n : 0 <= default 0 (as_u64 <$> env_unix_ms n).
Proof.
  destruct (env_unix_ms n) as [z|]; simpl; [|done]. unfold as_u64.
  apply Z.mod_pos_bound. lia.
Qed.

Lemma high_mono pol a a' : astep pol a a' -> high a <= high a'.
Proof.
  destruct 1; unfold high; simpl; try lia.
  case_bool_decide; simpl; lia.
Qed.

Lemma high_mono_star pol a a' : star (astep pol) a a' -> high a <= high a'.
Proof. induction 1 as [|a1 a2 a3 H _ IH]; [lia|]. pose proof (high_mono _ _ _ H). lia. Qed.

Lemma next_token_value l :
  0 <= fencing_counter l < u64_max ->
  (next_or_forced_fencing_token None l).1 = fencing_counter l + 1 /\
  fencing_counter (next_or_forced_fencing_token None l).2 = fencing_counter l + 1.
Proof.
  intros H. unfold next_or_forced_fencing_token, next_fencing_token. simpl.
  rewrite wrapping_add64_small by lia. split; lia.
Qed.

Lemma sorted_snoc (l : list Z) x :
  StronglySorted Z.lt l -> (forall y, y ∈ l -> y < x) -> StronglySorted Z.lt (l ++ [x]).
Proof.
  induction 1 as [|a l _ IH Hall]; intros Hx; simpl; [repeat constructor|].
  constructor; [apply IH; intros y Hy; apply Hx; by right|].
  apply Forall_app. split; [done|]. constructor; [apply Hx; left|constructor].
Qed.

Lemma lock_step_counter pol cap key l l' :
  lock_step pol cap key l l' -> fencing_counter l' = fencing_counter l.
Proof. by destruct 1. Qed.

Lemma lock_step_holds pol cap key l l' t :
  lock_step pol cap key l l' -> holds_token l' t -> holds_token l t.
Proof.
  assert (Hdel : forall (A : Type) (u i : string) (m : gmap string A) (x : A),
             delete u m !! i = Some x -> m !! i = Some x).
  { intros A u i m x. rewrite lookup_delete_Some. naive_solver. }
  destruct 1; intros Ht; destruct Ht; simpl in *; simplify_map_eq; eauto using holds_token.
Qed.

Lemma detach_lock_counter u l : fencing_counter (detach_lock u l) = fencing_counter l.
Proof. unfold detach_lock. simpl. by repeat case_match. Qed.

Lemma detach_lock_holds u l t : holds_token (detach_lock u l) t -> holds_token l t.
Proof.
  intros [i h H <-|i h H <-|h H <-].
  - rewrite exclusive_detach_lock, lookup_alter_Some in H.
    destruct H as [(-> & h' & Hh & ->)|[_ Hh]]; by eapply ht_exclusive.
  - rewrite readers_detach_lock, lookup_alter_Some in H.
    destruct H as [(-> & h' & Hh & ->)|[_ Hh]]; by eapply ht_reader.
  - unfold detach_lock in H. simpl in H.
    destruct (writer l) as [w|] eqn:Hw; simpl in H; [|congruence].
    case_bool_decide; simpl in H; [|by eapply ht_writer; [|reflexivity]; congruence].
    injection H as <-. by eapply ht_writer.
Qed.

Lemma grant_step_holds l forced l' t :
  grant_step l forced l' -> holds_token l' t ->
  t = (next_or_forced_fencing_token forced l).1 \/ holds_token l t.
Proof.
  assert (Hins : forall (A : Type) (u i : string) (y x : A) (m : gmap string A),
             <[u := y]> m !! i = Some x -> x = y \/ m !! i = Some x).
  { intros A u i y x m. rewrite lookup_insert_Some. naive_solver. }
  destruct 1 as [l forced lu h _ _ _ Htok|l forced lu h _ _ _ Htok|l forced lu h _ _ _ Htok
                |l forced h _ _ _ Htok];
    destruct (next_token_same forced l) as (E1 & E2 & E3 & E4 & E5 & E6);
    intros [i h' Hi <-|i h' Hi <-|h' Hi <-]; simpl in Hi;
    rewrite ?E1, ?E3, ?E4 in Hi;
    first [ apply Hins in Hi as [->|Hi]; [by left|]
          | injection Hi as <-; by left
          | idtac ];
    right; eauto using holds_token.
Qed.

(** ** Preservation, one lemma per kind of step *)

Section preservation.
Context (clock : Z) (Hclock : clock_bound clock) (Hmax : clock < u64_max).

Lemma fence_lock_step w owed key l l' pol cap :
  locks (state w) !! key = Some l -> lock_step pol cap key l l' ->
  fence_inv clock (w, owed) -> fence_inv clock (upd_locks (<[key := l']>) w, owed).
Proof.
  intros Hl Hs [H1 H2 H3 H4 H5 H6 H7]. simpl in *.
  pose proof (lock_step_counter _ _ _ _ _ Hs) as Hc.
  split; simpl; try done.
  - intros k l0 Hk. rewrite lookup_insert_Some in Hk.
    destruct Hk as [[<- <-]|[_ Hk]]; [rewrite Hc|]; eauto.
  - intros k l0 t Hk. rewrite lookup_insert_Some in Hk.
    destruct Hk as [[<- <-]|[_ Hk]]; [rewrite Hc|]; eauto.
  - intros k t Hk. rewrite lookup_insert_None in Hk. apply H6. naive_solver.
  - intros k l0 t Hk Ht. rewrite lookup_insert_Some in Hk.
    destruct Hk as [[<- <-]|[_ Hk]]; eauto using lock_step_holds.
Qed.

Lemma fence_create_step w owed key l cap :
  locks (state w) !! key = None -> fresh_lock cap (fencing_watermark (state w)) l ->
  fence_inv clock (w, owed) -> fence_inv clock (upd_locks (<[key := l]>) w, owed).
Proof using Hclock.
  intros Hl [F1 F2 F3 _ _ F5 F6] [H1 H2 H3 H4 H5 H6 H7]. simpl in *.
  split; simpl; try done.
  - intros k l0 Hk. rewrite lookup_insert_Some in Hk.
    destruct Hk as [[<- <-]|[_ Hk]]; [|eauto]. unfold high; simpl.
    destruct F6 as [->|[n Hn]]; [lia|]. pose proof (Hclock n). pose proof (clock_nonneg n). lia.
  - intros k l0 t Hk Ht. rewrite lookup_insert_Some in Hk.
    destruct Hk as [[<- <-]|[_ Hk]]; [|eauto]. specialize (H6 _ _ Hl Ht). lia.
  - intros k t Hk. rewrite lookup_insert_None in Hk. apply H6. naive_solver.
  - intros k l0 t Hk Ht. rewrite lookup_insert_Some in Hk.
    destruct Hk as [[<- <-]|[_ Hk]]; [|eauto].
    destruct Ht as [u h Hu|u h Hu|h Hu]; exfalso.
    + rewrite F1 in Hu. by rewrite lookup_empty in Hu.
    + rewrite F2 in Hu. by rewrite lookup_empty in Hu.
    + congruence.
Qed.

Lemma grant_step_counter l forced l' :
  grant_step l forced l' ->
  fencing_counter l' = fencing_counter (next_or_forced_fencing_token forced l).2.
Proof. by destruct 1. Qed.

Lemma issued_granted key w k t :
  issued k (trace (log (Issued key t) w)) =
  issued k (trace w) ++ (if decide (key = k) then [t] else []).
Proof. simpl. rewrite issued_app. simpl. by case_decide. Qed.

Lemma fence_grant_step w owed key l l' token :
  locks (state w) !! key = Some l -> grant_step l None l' ->
  token = (next_or_forced_fencing_token None l).1 ->
  high (w, owed) < u64_max -> fence_inv clock (w, owed) ->
  fence_inv clock
    (log (Issued key token) (upd_locks (<[key := l']>) w), Z.max owed token).
Proof using Hmax Hclock.
  intros Hl Hg Htk Hhigh [H1 H2 H3 H4 H5 H6 H7].
  pose proof (H4 _ _ Hl) as Hctr.
  destruct (next_token_value l ltac:(lia)) as [Htok Hcnt].
  rewrite <-Htk in Htok. rewrite <-(grant_step_counter _ _ _ Hg) in Hcnt.
  assert (Hold : forall t, t ∈ issued key (trace w) -> t < token).
  { intros t Ht. specialize (H5 _ _ _ Hl Ht). lia. }
  split; unfold high in *; cbn [fst snd] in *.
  - simpl. lia.
  - intros k. rewrite issued_granted. case_decide; [subst|by rewrite app_nil_r].
    by apply sorted_snoc.
  - intros k t. rewrite issued_granted, elem_of_app. simpl. intros [Ht|Ht].
    + specialize (H3 _ _ Ht). lia.
    + case_decide; [|set_solver]. apply list_elem_of_singleton in Ht. lia.
  - intros k l0 Hk. simpl in Hk. rewrite lookup_insert_Some in Hk. simpl.
    destruct Hk as [[<- <-]|[_ Hk]]; [lia|]. specialize (H4 _ _ Hk). lia.
  - intros k l0 t Hk. simpl in Hk. rewrite lookup_insert_Some in Hk.
    rewrite issued_granted, elem_of_app.
    destruct Hk as [[<- <-]|[Hne Hk]].
    + intros [Ht|Ht]; [specialize (Hold _ Ht); lia|].
      rewrite decide_True in Ht by done. apply list_elem_of_singleton in Ht. lia.
    + rewrite decide_False by done. intros [Ht|Ht]; [eauto|set_solver].
  - intros k t Hk. simpl in Hk. rewrite lookup_insert_None in Hk. destruct Hk as [Hk Hne].
    rewrite issued_granted, decide_False by done. rewrite app_nil_r. by apply H6.
  - intros k l0 t Hk Ht. simpl in Hk. rewrite lookup_insert_Some in Hk.
    rewrite issued_granted, elem_of_app.
    destruct Hk as [[<- <-]|[Hne Hk]]; [|eauto].
    destruct (grant_step_holds _ _ _ _ Hg Ht) as [->|Ht']; [right|left; eauto].
    rewrite decide_True by done. by apply list_elem_of_singleton.
Qed.

Lemma fence_observe_step w owed token :
  owed <= token -> fence_inv clock (w, owed) ->
  fence_inv clock
    (set_state (if bool_decide (fencing_watermark (state w) < token)
                then set_fencing_watermark token (state w) else state w) w, 0).
Proof.
  intros Hle [H1 H2 H3 H4 H5 H6 H7]. unfold high in *.
  case_bool_decide; split; unfold high in *; simpl in *; try done; try lia.
  - intros k t Ht. specialize (H3 _ _ Ht). lia.
  - intros k l Hk. specialize (H4 _ _ Hk). lia.
  - intros k t Hk Ht. specialize (H6 _ _ Hk Ht). lia.
  - intros k t Ht. specialize (H3 _ _ Ht). lia.
  - intros k l Hk. specialize (H4 _ _ Hk). lia.
Qed.

Lemma fence_detach_step w owed u :
  fence_inv clock (w, owed) -> fence_inv clock (upd_locks (fmap (detach_lock u)) w, owed).
Proof.
  intros [H1 H2 H3 H4 H5 H6 H7]. split; simpl in *; try done.
  - intros k l Hk. apply lookup_fmap_Some in Hk as (l0 & <- & Hk).
    rewrite detach_lock_counter. by apply (H4 k).
  - intros k l t Hk. apply lookup_fmap_Some in Hk as (l0 & <- & Hk).
    rewrite detach_lock_counter. by apply (H5 k).
  - intros k t Hk. rewrite lookup_fmap, fmap_None in Hk. by apply H6.
  - intros k l t Hk Ht. apply lookup_fmap_Some in Hk as (l0 & <- & Hk).
    apply (H7 k l0); [done|]. by eapply detach_lock_holds.
Qed.

Lemma fence_prune_step w key :
  fence_inv clock (w, 0) -> fence_inv clock (upd_locks (delete key) w, 0).
Proof.
  intros [H1 H2 H3 H4 H5 H6 H7]. split; simpl in *; try done.
  - intros k l Hk. apply lookup_delete_Some in Hk as [_ Hk]. by apply (H4 k).
  - intros k l t Hk. apply lookup_delete_Some in Hk as [_ Hk]. by apply (H5 k).
  - intros k t _ Ht. specialize (H3 _ _ Ht). unfold high in H3; simpl in H3. lia.
  - intros k l t Hk. apply lookup_delete_Some in Hk as [_ Hk]. by apply (H7 k).
Qed.

Lemma fence_astep limit a a' :
  astep (unforced limit) a a' -> high a' < u64_max -> fence_inv clock a -> fence_inv clock a'.
Proof using Hclock Hmax.
  intros Hs Hhigh Hinv. pose proof (high_mono _ _ _ Hs) as Hmono.
  destruct Hs as [w owed key l l' Hl Hs|w owed key l Hl Hf|w owed key l forced l' Hl Hsd Hg token
                 |w owed token Hle|w owed u|w key l Hl Hi|w w' owed E1 E2 E3 E4].
  - by eapply fence_lock_step.
  - by eapply fence_create_step.
  - simpl in Hsd. subst forced. eapply fence_grant_step; [done..| |done]. lia.
  - by eapply fence_observe_step.
  - by apply fence_detach_step.
  - by apply fence_prune_step.
  - destruct Hinv as [H1 H2 H3 H4 H5 H6 H7]. unfold high in *.
    split; unfold high in *; simpl in *; intros *; rewrite ?E1, ?E2, ?E4; eauto.
Qed.

Lemma fence_asteps limit a a' :
  star (astep (unforced limit)) a a' -> high a' < u64_max -> fence_inv clock a -> fence_inv clock a'.
Proof using Hclock Hmax.
  induction 1 as [|a1 a2 a3 H1 H2 IH]; [done|]. intros Hhigh Hinv. apply IH; [done|].
  pose proof (high_mono_star _ _ _ H2). eapply fence_astep; [done|lia|done].
Qed.

End preservation.

Lemma fence_init clock cfg obs : fence_inv clock (Broker_new cfg obs, 0).
Proof.
  split; simpl; try done; try constructor.
  all: intros; by match goal with H : _ ∈ [] |- _ => apply elem_of_nil in H end.
Qed.

(** ** No two holders of a key carry the same token *)

Definition tokens_distinct (l : LockState) : Prop :=
  (forall u1 u2 h1 h2, exclusive_holders l !! u1 = Some h1 -> exclusive_holders l !! u2 = Some h2 ->
     eh_fencing_token h1 = eh_fencing_token h2 -> u1 = u2) /\
  (forall u1 u2 h1 h2, readers l !! u1 = Some h1 -> readers l !! u2 = Some h2 ->
     rh_fencing_token h1 = rh_fencing_token h2 -> u1 = u2).

Definition distinct_inv (a : AState) : Prop :=
  forall key l, locks (state a.1) !! key = Some l -> tokens_distinct l.

Lemma inj_token_insert {A} (tok : A -> Z) (m : gmap string A) u x :
  (forall i y, m !! i = Some y -> tok y <> tok x) ->
  (forall u1 u2 h1 h2, m !! u1 = Some h1 -> m !! u2 = Some h2 -> tok h1 = tok h2 -> u1 = u2) ->
  forall u1 u2 h1 h2, <[u := x]> m !! u1 = Some h1 -> <[u := x]> m !! u2 = Some h2 ->
    tok h1 = tok h2 -> u1 = u2.
Proof.
  intros Hnew Hinj u1 u2 h1 h2. rewrite !lookup_insert_Some.
  intros [[<- <-]|[_ H1]] [[<- <-]|[_ H2]] He; eauto; exfalso; by eapply Hnew.
Qed.

Lemma inj_token_delete {A} (tok : A -> Z) (m : gmap string A) u :
  (forall u1 u2 h1 h2, m !! u1 = Some h1 -> m !! u2 = Some h2 -> tok h1 = tok h2 -> u1 = u2) ->
  forall u1 u2 h1 h2, delete u m !! u1 = Some h1 -> delete u m !! u2 = Some h2 ->
    tok h1 = tok h2 -> u1 = u2.
Proof. intros Hinj u1 u2 h1 h2. rewrite !lookup_delete_Some. naive_solver. Qed.

Lemma inj_token_alter {A} (tok : A -> Z) (f : A -> A) (m : gmap string A) u :
  (forall x, tok (f x) = tok x) ->
  (forall u1 u2 h1 h2, m !! u1 = Some h1 -> m !! u2 = Some h2 -> tok h1 = tok h2 -> u1 = u2) ->
  forall u1 u2 h1 h2, alter f u m !! u1 = Some h1 -> alter f u m !! u2 = Some h2 ->
    tok h1 = tok h2 -> u1 = u2.
Proof.
  intros Hf Hinj u1 u2 h1 h2. rewrite !lookup_alter_Some.
  intros [(-> & x & Hx & ->)|[_ H1]] [(<- & y & Hy & ->)|[_ H2]]; rewrite ?Hf; eauto.
Qed.

Lemma lock_step_distinct pol cap key l l' :
  lock_step pol cap key l l' -> tokens_distinct l -> tokens_distinct l'.
Proof.
  destruct 1; intros [H1 H2]; split; simpl; try done; by apply inj_token_delete.
Qed.

Lemma grant_step_distinct l forced l' :
  grant_step l forced l' ->
  (forall t, holds_token l t -> t < (next_or_forced_fencing_token forced l).1) ->
  tokens_distinct l -> tokens_distinct l'.
Proof.
  intros Hg Hlt [H1 H2].
  destruct Hg as [l forced lu h _ _ _ Htok|l forced lu h _ _ _ Htok|l forced lu h _ _ _ Htok
                 |l forced h _ _ _ Htok];
    destruct (next_token_same forced l) as (E1 & E2 & E3 & E4 & E5 & E6);
    split; simpl; rewrite ?E1, ?E3; try done; apply inj_token_insert; try done; intros i y Hi;
    [assert (holds_token l (eh_fencing_token y)) as Hh by (by eapply ht_exclusive)..
    |assert (holds_token l (rh_fencing_token y)) as Hh by (by eapply ht_reader)];
    specialize (Hlt _ Hh); lia.
Qed.

Lemma detach_lock_distinct u l : tokens_distinct l -> tokens_distinct (detach_lock u l).
Proof.
  intros [H1 H2]. split; rewrite ?exclusive_detach_lock, ?readers_detach_lock;
    by apply inj_token_alter.
Qed.

Lemma distinct_astep clock limit a a' :
  clock < u64_max -> high a' < u64_max -> fence_inv clock a ->
  astep (unforced limit) a a' -> distinct_inv a -> distinct_inv a'.
Proof.
  intros Hclk Hhigh [H1 H2 H3 H4 H5 H6 H7] Hs. pose proof (high_mono _ _ _ Hs) as Hmono.
  destruct Hs as [w owed key l l' Hl Hs|w owed key l Hl Hf|w owed key l forced l' Hl Hsd Hg token
                 |w owed token Hle|w owed u|w key l Hl Hi|w w' owed E1 E2 E3 E4];
    intros Hd k l0; simpl in *.
  - rewrite lookup_insert_Some. intros [[<- <-]|[_ Hk]]; [|eauto].
    eapply lock_step_distinct; [done|by eapply Hd].
  - rewrite lookup_insert_Some. intros [[<- <-]|[_ Hk]]; [|eauto].
    destruct Hf as [F1 F2 _ _ _ _ _]. split; rewrite ?F1, ?F2; intros ????; by rewrite lookup_empty.
  - rewrite lookup_insert_Some. intros [[<- <-]|[_ Hk]]; [|eauto].
    eapply grant_step_distinct; [done| |by eapply Hd].
    intros t Ht. subst forced. pose proof (H4 _ _ Hl) as Hc.
    destruct (next_token_value l) as [-> _]; [lia|].
    specialize (H5 _ _ t Hl (H7 _ _ _ Hl Ht)). lia.
  - case_bool_decide; apply Hd.
  - rewrite lookup_fmap_Some. intros (l1 & <- & Hl1). eapply detach_lock_distinct, Hd, Hl1.
  - rewrite lookup_delete_Some. intros [_ Hk]. by eapply Hd.
  - rewrite E1. apply Hd.
Qed.

Lemma distinct_asteps clock limit a a' :
  clock_bound clock -> clock < u64_max -> high a' < u64_max ->
  star (astep (unforced limit)) a a' -> fence_inv clock a -> distinct_inv a -> distinct_inv a'.
Proof.
  intros Hb Hclk Hhigh Hs. induction Hs as [|a1 a2 a3 Hs1 Hs2 IH]; [done|].
  intros Hf Hd. pose proof (high_mono_star _ _ _ Hs2).
  apply IH; [done|eapply fence_astep|eapply (distinct_astep clock limit a1)]; try done; lia.
Qed.

End fencing.
