(* ===== verification/BrokerSim.v ===== *)
(** * The refinement calculus between the broker's code and its specification

    [sim m w owed Q]: from a world with well-formed locks, [m] returns (it
    neither panics nor runs out of fuel), its effect is a sequence of abstract
    steps, and [Q] holds of the result.  One rule per primitive of
    [BrokerState.v]; the handlers are then executed symbolically. *)

From S2P Require Import Prelude Monad Protocol Queue BrokerTypes BrokerState Broker BrokerOps.
From S2P Require Import BrokerSpec.
From stdpp Require Import options.

Section sim.
Context `{LQ : LinkedQueueCrate} `{E : Env}.
Context (pol : Policy).

Abbreviation asteps := (star (astep pol)).
Abbreviation lsteps w key := (star (lock_step pol (state_cap pol (state w)) key)).

Definition good (w : World) : Prop :=
  locks_wf pol (state w) /\ state_cap pol (state w) <= u32_max /\
  cfg_max_lock_holders (config (state w)) <= limit pol.

Definition sim {A} (m : M World A) (w : World) (owed : Z) (Q : A -> World -> Z -> Prop) : Prop :=
  good w ->
  wp m (fun a w' => exists owed', good w' /\ asteps (w, owed) (w', owed') /\ Q a w' owed') w.

(** The locks of a world. *)
Definition wlocks (w : World) : gmap string LockState := locks (state w).

Lemma asteps_good a a' : asteps a a' -> good a.1 -> good a'.1.
Proof.
  intros Hs [H1 H2]. split; [by eapply asteps_locks_wf|].
  unfold state_cap in *. by rewrite (asteps_config _ _ _ Hs).
Qed.

Lemma sim_ret {A} (a : A) w owed (Q : A -> World -> Z -> Prop) : Q a w owed -> sim (mret a) w owed Q.
Proof. intros HQ Hg. apply wp_ret. exists owed. split_and!; [done|constructor|done]. Qed.

Lemma sim_bind {A B} (m : M World A) (f : A -> M World B) w owed Q :
  sim m w owed (fun a w' owed' => sim (f a) w' owed' Q) -> sim (m ≫= f) w owed Q.
Proof.
  intros Hm Hg. apply wp_bind. eapply wp_mono; [by apply Hm|].
  intros a w' (owed' & Hg' & Hs & Hf). eapply wp_mono; [by apply Hf|].
  intros b w'' (owed'' & Hg'' & Hs' & HQ). exists owed''. split_and!; [done| |done].
  by eapply star_app.
Qed.

Lemma sim_mono {A} (m : M World A) w owed (Q Q' : A -> World -> Z -> Prop) :
  sim m w owed Q -> (forall a w' owed', Q a w' owed' -> Q' a w' owed') -> sim m w owed Q'.
Proof. intros Hm HQ Hg. eapply wp_mono; [by apply Hm|]. naive_solver. Qed.

(** The well-formedness of the world at hand may be used at any point. *)
Lemma sim_use_good {A} (m : M World A) w owed Q : (good w -> sim m w owed Q) -> sim m w owed Q.
Proof. intros H Hg. by apply H. Qed.

(** A finished computation whose effect is a sequence of steps. *)
Lemma sim_of_steps {A} (m : M World A) w owed (Q : A -> World -> Z -> Prop) a w' owed' :
  m w = Done a w' -> (good w -> asteps (w, owed) (w', owed')) -> Q a w' owed' ->
  sim m w owed Q.
Proof.
  intros Hm Hs HQ Hg. apply wp_done. exists a, w'. split; [done|]. exists owed'.
  specialize (Hs Hg). split_and!; [|done..]. by apply (asteps_good _ _ Hs).
Qed.

(** ** Administrative primitives *)

Definition admin (w w' : World) : Prop :=
  locks (state w') = locks (state w) /\
  fencing_watermark (state w') = fencing_watermark (state w) /\
  config (state w') = config (state w) /\
  (forall key, issued key (trace w') = issued key (trace w)).

Lemma sim_admin {A} (m : M World A) w owed (Q : A -> World -> Z -> Prop) a w' :
  m w = Done a w' -> admin w w' -> Q a w' owed -> sim m w owed Q.
Proof.
  intros Hm (H1 & H2 & H3 & H4) HQ. eapply sim_of_steps; [done| |done].
  intros _. apply star_one. by constructor.
Qed.

Lemma sim_get_state w owed Q : Q (state w) w owed -> sim get_state w owed Q.
Proof. intros. by eapply sim_admin. Qed.

Lemma sim_get_lock key w owed Q : Q (wlocks w !! key) w owed -> sim (get_lock key) w owed Q.
Proof. intros. by eapply sim_admin. Qed.

(** A read of the outside world: any answer it may give. *)
Lemma sim_hash_order {A} (l : list A) w owed Q :
  (forall l' w', l' ≡ₚ l -> admin w w' -> Q l' w' owed) -> sim (hash_order l) w owed Q.
Proof. intros HQ. eapply sim_admin; [done|done|]. apply HQ; [apply env_hash_order_perm|done]. Qed.

Lemma sim_instant_now w owed Q :
  (forall i w', admin w w' -> Q i w' owed) -> sim instant_now w owed Q.
Proof. intros HQ. eapply sim_admin; [done|done|]. by apply HQ. Qed.

Lemma sim_uuid_or_new u w owed Q :
  (forall v w', admin w w' -> Q v w' owed) -> sim (uuid_or_new u) w owed Q.
Proof. intros HQ. destruct u; eapply sim_admin; (done || by apply HQ). Qed.

Lemma sim_upd_state f w owed Q :
  (forall s, locks (f s) = locks s) ->
  (forall s, fencing_watermark (f s) = fencing_watermark s) ->
  (forall s, config (f s) = config s) ->
  (forall w', admin w w' -> Q tt w' owed) -> sim (upd_state f) w owed Q.
Proof.
  intros H1 H2 H3 HQ. assert (admin w (set_state (f (state w)) w)).
  { split_and!; simpl; auto. }
  eapply sim_admin; [done..|]. by apply HQ.
Qed.

Lemma sim_upd_client c f w owed Q :
  (forall w', admin w w' -> Q tt w' owed) -> sim (upd_client c f) w owed Q.
Proof. intros. by apply sim_upd_state. Qed.

Lemma issued_deliver key c r w : issued key (trace (deliver c r w)) = issued key (trace w).
Proof.
  unfold deliver. repeat case_match; try done. simpl. by rewrite issued_snoc_other.
Qed.

Lemma issued_observe_response key r w :
  issued key (trace (observe_response r w)) = issued key (trace w).
Proof. unfold observe_response. case_match; [|done]. simpl. by rewrite issued_snoc_other. Qed.

Lemma state_deliver c r w : state (deliver c r w) = state w.
Proof. unfold deliver. by repeat case_match. Qed.

Lemma state_observe_response r w : state (observe_response r w) = state w.
Proof. unfold observe_response. by case_match. Qed.

Lemma admin_deliver c r w : admin w (deliver c r w).
Proof. split_and!; rewrite ?state_deliver; try done. intros. by rewrite issued_deliver. Qed.

Lemma sim_send c r w owed Q :
  (forall w', admin w w' -> Q tt w' owed) -> sim (send c r) w owed Q.
Proof.
  intros HQ. assert (admin w (deliver c r (observe_response r w))) as Ha.
  { split_and!; rewrite ?state_deliver, ?state_observe_response; try done.
    intros. by rewrite issued_deliver, issued_observe_response. }
  eapply sim_admin; [done|done|]. by apply HQ.
Qed.

Lemma sim_schedule_deadline ttl u ks k c w owed Q :
  (forall w', admin w w' -> Q tt w' owed) -> sim (schedule_deadline ttl u ks k c) w owed Q.
Proof.
  intros HQ. unfold schedule_deadline. destruct ttl as [ttl|]; [|by apply sim_ret, HQ].
  destruct (duration_is_zero ttl); [by apply sim_ret, HQ|].
  apply sim_bind, sim_instant_now. intros i w1 Ha1.
  destruct (instant_checked_add i ttl); [|by apply sim_ret, HQ].
  apply sim_upd_state; [done..|]. intros w2 Ha2. apply HQ.
  destruct Ha1 as (?&?&?&H4), Ha2 as (?&?&?&H5). split_and!; [congruence..|].
  intros. by rewrite H5, H4.
Qed.

(** ** Primitives that change the lock table *)

Lemma asteps_lock w owed key l l' :
  wlocks w !! key = Some l -> lsteps w key l l' ->
  asteps (w, owed) (upd_locks (<[key := l']>) w, owed).
Proof.
  intros Hl Hs. revert w Hl Hs.
  cut (forall cap, star (lock_step pol cap key) l l' ->
        forall w, wlocks w !! key = Some l -> cap = state_cap pol (state w) ->
        asteps (w, owed) (upd_locks (<[key := l']>) w, owed)); [naive_solver|].
  intros cap. induction 1 as [l|l1 l2 l3 H1 _ IH]; intros w Hl ->.
  - apply star_one, as_admin; try done. simpl. by rewrite insert_id.
  - eapply star_cons; [by eapply as_lock|].
    replace (upd_locks <[key:=l3]> w)
      with (upd_locks <[key:=l3]> (upd_locks <[key:=l2]> w)).
    + apply IH; [|done]. unfold wlocks. simpl. apply lookup_insert_eq.
    + unfold upd_locks. simpl. by rewrite insert_insert_eq.
Qed.

Lemma sim_put_lock key l l' w owed Q :
  wlocks w !! key = Some l -> (good w -> lsteps w key l l') ->
  (forall w', wlocks w' = <[key := l']> (wlocks w) -> state_cap pol (state w') = state_cap pol (state w) ->
     Q tt w' owed) ->
  sim (put_lock key l') w owed Q.
Proof.
  intros Hl Hs HQ. eapply sim_of_steps; [done| |by apply HQ].
  intros Hg. by eapply asteps_lock, Hs.
Qed.

Lemma sim_put_granted_lock key token l0 l forced l' w owed Q :
  wlocks w !! key = Some l0 -> (good w -> lsteps w key l0 l) ->
  (good w -> seed_ok pol forced) -> (good w -> grant_step l forced l') ->
  token = (next_or_forced_fencing_token forced l).1 ->
  (forall w', wlocks w' = <[key := l']> (wlocks w) -> state_cap pol (state w') = state_cap pol (state w) ->
     Q tt w' (Z.max owed token)) ->
  sim (put_granted_lock key token l') w owed Q.
Proof.
  intros Hl Hs Hf Hgr -> HQ. eapply sim_of_steps; [done| |by apply HQ]. intros Hg.
  eapply star_app; [by eapply asteps_lock, Hs|]. apply star_one.
  assert (upd_locks <[key:=l']> w = upd_locks <[key:=l']> (upd_locks <[key:=l]> w)) as Heq.
  { unfold upd_locks. simpl. by rewrite insert_insert_eq. }
  change (set_state _ w) with (upd_locks <[key:=l']> w). rewrite Heq.
  eapply (as_grant _ _ owed key l forced l'); [|by apply Hf|by apply Hgr].
  simpl. apply lookup_insert_eq.
Qed.

Lemma sim_observe token w owed Q :
  owed <= token ->
  (forall w', wlocks w' = wlocks w -> state_cap pol (state w') = state_cap pol (state w) -> Q tt w' 0) ->
  sim (observe_fencing_token token) w owed Q.
Proof.
  intros Hle HQ. eapply sim_of_steps; [done| |].
  - intros _. apply star_one. by apply (as_observe _ w owed token).
  - apply HQ; unfold wlocks, state_cap; simpl; by case_bool_decide.
Qed.

Lemma LockState_new_fresh m w :
  exists l, LockState_new m w = Done l (next_tick w) /\
    exclusive_holders l = ∅ /\ readers l = ∅ /\ writer l = None /\
    LinkedQueue.iter (queue l) = [] /\ max l = Z.max m 1 /\ timestamp_emptied l = None /\
    fencing_counter l = default 0 (as_u64 <$> env_unix_ms (tick w)).
Proof. eexists. split; [done|]. simpl. by rewrite LinkedQueueFacts.iter_new. Qed.

(** [lock_or_default] leaves the key in the table, either as it was or as a
    fresh lock. *)
Lemma sim_lock_or_default key w owed Q :
  (forall l w', wlocks w' = <[key := l]> (wlocks w) ->
     state_cap pol (state w') = state_cap pol (state w) ->
     wlocks w !! key = Some l \/
     (wlocks w !! key = None /\
      fresh_lock (state_cap pol (state w)) (fencing_watermark (state w)) l) ->
     Q l w' owed) ->
  sim (lock_or_default key) w owed Q.
Proof.
  intros HQ. apply sim_use_good. intros (_ & _ & Hlimit).
  unfold lock_or_default. apply sim_bind, sim_get_state. cbv zeta.
  destruct (locks (state w) !! key) as [l|] eqn:Hl.
  { apply sim_ret, HQ; [|done|by left]. unfold wlocks. by rewrite insert_id. }
  set (cap := Z.max (cfg_max_concurrency_cap (config (state w))) 1).
  set (mx := Z.max (Z.min (cfg_max_lock_holders (config (state w))) cap) 1).
  destruct (LockState_new_fresh mx w) as (l & Hnew & H1 & H2 & H3 & H4 & H5 & _ & H6).
  set (l' := if bool_decide (fencing_counter l < fencing_watermark (state w))
             then set_fencing_counter (fencing_watermark (state w)) l else l).
  assert (fresh_lock (state_cap pol (state w)) (fencing_watermark (state w)) l') as Hf.
  { unfold l'. case_bool_decide; split; simpl; rewrite ?H1, ?H2, ?H3, ?H4, ?H5; try done.
    all: try (unfold state_cap, mx, cap; lia); eauto. }
  eapply sim_of_steps with (w' := upd_locks <[key := l']> (next_tick w)).
  - unfold mbind, M_bind. rewrite Hnew. done.
  - intros _. eapply star_cons; [by apply (as_admin _ w (next_tick w) owed)|].
    apply star_one. by apply as_create.
  - apply HQ; [done|done|by right].
Qed.

(** [maybe_mark_idle] only touches the time stamp. *)
Lemma sim_maybe_mark_idle key w owed Q :
  (forall w', state_cap pol (state w') = state_cap pol (state w) ->
     (wlocks w' = wlocks w \/
      exists l t, wlocks w !! key = Some l /\
        wlocks w' = <[key := set_timestamp_emptied t l]> (wlocks w)) -> Q tt w' owed) ->
  sim (maybe_mark_idle key) w owed Q.
Proof.
  intros HQ. unfold maybe_mark_idle. apply sim_bind, sim_get_lock.
  destruct (wlocks w !! key) as [l|] eqn:Hl; [|apply sim_ret, HQ; auto].
  destruct (is_idle l); case_bool_decide; try (apply sim_ret, HQ; by auto).
  - apply sim_bind, sim_instant_now. intros i w1 (E1 & _ & E3 & _).
    assert (wlocks w1 = wlocks w) as Ew by done.
    assert (state_cap pol (state w1) = state_cap pol (state w)) as Ec by (unfold state_cap; by rewrite E3).
    eapply sim_put_lock; [by rewrite Ew| |].
    + intros _. apply star_one. constructor.
    + intros w2 H2 H3. apply HQ; [congruence|]. right. eexists _, _. split; [done|]. by rewrite H2, Ew.
  - eapply sim_put_lock; [done| |].
    + intros _. apply star_one. constructor.
    + intros w2 H2 H3. apply HQ; [congruence|]. right. eexists _, _. eauto.
Qed.

(** ** Loops *)

Lemma sim_for_each {A} (I : World -> Z -> Prop) (xs : list A) body w owed :
  I w owed ->
  (forall x w' owed', x ∈ xs -> I w' owed' -> sim (body x) w' owed' (fun _ => I)) ->
  sim (for_each xs body) w owed (fun _ => I).
Proof.
  revert w owed. induction xs as [|x xs IH]; intros w owed HI Hb; simpl; [by apply sim_ret|].
  apply sim_bind. eapply sim_mono; [apply Hb; [left|done]|].
  intros [] w' owed' HI'. apply IH; [done|]. intros y w'' owed'' Hy. apply Hb. by right.
Qed.

Lemma sim_for_fold {A B} (I : B -> World -> Z -> Prop) (xs : list A) acc body w owed :
  I acc w owed ->
  (forall x acc' w' owed', x ∈ xs -> I acc' w' owed' -> sim (body acc' x) w' owed' I) ->
  sim (for_fold xs acc body) w owed I.
Proof.
  revert acc w owed. induction xs as [|x xs IH]; intros acc w owed HI Hb; simpl; [by apply sim_ret|].
  apply sim_bind. eapply sim_mono; [apply Hb; [left|done]|].
  intros acc' w' owed' HI'. apply IH; [done|]. intros y acc'' w'' owed'' Hy. apply Hb. by right.
Qed.

End sim.

Arguments good {_} pol w.

(** The two facts later steps need of an administrative step. *)
Lemma admin_facts `{LQ : LinkedQueueCrate} {pol} w w' :
  admin w w' -> wlocks w' = wlocks w /\ state_cap pol (state w') = state_cap pol (state w).
Proof. intros (H1 & _ & H3 & _). split; [done|]. unfold state_cap. by rewrite H3. Qed.

Ltac sim_intro_admin :=
  let w := fresh "w" in let H := fresh "Hadm" in let C := fresh "Hcap" in
  intros w H;
  lazymatch goal with p : Policy |- _ => apply (admin_facts (pol := p)) in H as [H C] end.

(** Execute the administrative primitives at the head of a [sim] goal. *)
Ltac sim_admin_step :=
  lazymatch goal with
  | |- sim _ (mbind _ _) _ _ _ => apply sim_bind
  | |- sim _ (mret _) _ _ _ => apply sim_ret
  | |- sim _ get_state _ _ _ => apply sim_get_state
  | |- sim _ (get_lock _) _ _ _ => apply sim_get_lock
  | |- sim _ (send _ _) _ _ _ => apply sim_send; sim_intro_admin
  | |- sim _ (schedule_deadline _ _ _ _ _) _ _ _ => apply sim_schedule_deadline; sim_intro_admin
  | |- sim _ (upd_client _ _) _ _ _ => apply sim_upd_client; sim_intro_admin
  | |- sim _ (track_holder _ _ _ _) _ _ _ => unfold track_holder
  | |- sim _ (track_pending _ _ _) _ _ _ => unfold track_pending
  | |- sim _ (untrack_pending _ _ _) _ _ _ => unfold untrack_pending
  | |- sim _ (uuid_or_new _) _ _ _ =>
      apply sim_uuid_or_new; let v := fresh "lock_uuid" in intros v; sim_intro_admin
  end.
Ltac sim_steps := repeat sim_admin_step; cbv zeta.

(** Express the lock table of every later world by that of the first. *)
Ltac sim_locks :=
  repeat match goal with
         | H : wlocks ?w = _ |- context [wlocks ?w] => rewrite H
         | H : state_cap ?p (state ?w) = _ |- context [state_cap ?p (state ?w)] => rewrite H
         end.
