(* ===== verification/BrokerRefine.v ===== *)
(** * Every handler implements the specification

    For each operation of the broker: it returns from every well-formed world
    without panicking, its scheduler loops terminate within their fuel, and
    its effect on the lock table is a sequence of the abstract steps of
    [BrokerSpec.v]. *)

From S2P Require Import Prelude Monad Protocol Queue BrokerTypes BrokerState Broker BrokerOps.
From S2P Require Import BrokerSpec BrokerSim.
From stdpp Require Import options.

(** ** The scheduler's termination measure *)

Section work.
Context `{LQ : LinkedQueueCrate}.

Lemma grant_work_empty : grant_work ∅ = 0%nat.
Proof. unfold grant_work. by rewrite map_fold_empty. Qed.

Lemma grant_work_insert_None k l m :
  m !! k = None -> grant_work (<[k := l]> m) = (lock_work l + grant_work m)%nat.
Proof. intros. unfold grant_work. rewrite map_fold_insert_L; [done| |done]. intros. lia. Qed.

Lemma grant_work_insert k l l' m :
  m !! k = Some l ->
  (grant_work (<[k := l']> m) + lock_work l)%nat = (grant_work m + lock_work l')%nat.
Proof.
  intros Hk. rewrite <-(insert_delete_id m k l Hk) at 2.
  rewrite <-insert_delete_eq.
  rewrite !grant_work_insert_None by apply lookup_delete_eq. lia.
Qed.

Lemma queue_work_app q1 q2 : queue_work (q1 ++ q2) = (queue_work q1 + queue_work q2)%nat.
Proof. apply sum_list_with_app. Qed.

Lemma lock_work_push_back q u p :
  (queue_work (LinkedQueue.iter (LinkedQueue.push_back q u p).2)
     <= queue_work (LinkedQueue.iter q) + request_work p)%nat.
Proof.
  rewrite LinkedQueueFacts.push_back_iter. case_decide; [lia|].
  rewrite queue_work_app. unfold queue_work at 2. simpl. lia.
Qed.

End work.

Section refine.
Context `{LQ : LinkedQueueCrate} `{E : Env}.
Context (pol : Policy).
Context (seed_none : seed_ok pol None).
Context (seed_nonneg : forall s, seed_ok pol (Some s) -> 0 <= s).
Context (seed_add : forall s o,
  0 <= o -> seed_ok pol (Some s) -> seed_ok pol (Some (saturating_add64 s o))).

Implicit Types w : World.

Lemma seed_offset seed o :
  0 <= o -> seed_ok pol seed -> seed_ok pol ((fun s => saturating_add64 s o) <$> seed).
Proof using seed_none seed_add. destruct seed; simpl; auto. Qed.

Lemma front_pop (q : LinkedQueue.t string PendingRequest) x :
  LinkedQueue.front q = Some x ->
  exists q', LinkedQueue.pop_front q = (Some x, q') /\ LinkedQueue.iter q = x :: LinkedQueue.iter q'.
Proof.
  rewrite LinkedQueueFacts.front_iter. intros Hh.
  destruct (LinkedQueue.iter q) as [|y t] eqn:Hi; [done|]. simpl in Hh. injection Hh as ->.
  destruct (LinkedQueueFacts.pop_front_cons q x t Hi) as (q' & -> & <-). eauto.
Qed.

Lemma good_head w key l u p :
  good pol w -> wlocks w !! key = Some l -> LinkedQueue.front (queue l) = Some (u, p) ->
  waiter_ok pol key (u, p).
Proof.
  intros [Hwf _] Hl Hf. specialize (Hwf key l Hl). destruct Hwf as [Hq _ _ _ _ _].
  rewrite LinkedQueueFacts.front_iter in Hf.
  destruct (LinkedQueue.iter (queue l)); [done|]. simpl in Hf. injection Hf as ->.
  by inversion Hq.
Qed.

Lemma good_len_u32 w key l :
  good pol w -> wlocks w !! key = Some l ->
  len_u32 (size (exclusive_holders l)) = Z.of_nat (size (exclusive_holders l)).
Proof.
  intros [Hwf Hcap] Hl. specialize (Hwf key l Hl). destruct Hwf as [_ _ Hs _ _ _].
  apply len_u32_small. lia.
Qed.

(** A grant of the head of a queue takes its work off the measure. *)
Lemma grant_work_granted (m : gmap string LockState) key l l' u p q' :
  m !! key = Some l -> LinkedQueue.iter (queue l) = (u, p) :: LinkedQueue.iter q' ->
  queue l' = q' ->
  (grant_work (<[key := l']> m) + request_work p)%nat = grant_work m.
Proof.
  intros Hm Hq Hq'. pose proof (grant_work_insert key l l' m Hm).
  unfold lock_work in *. rewrite Hq, Hq' in *. unfold queue_work in *. simpl in *. lia.
Qed.

(** What one successful grant from a queue amounts to. *)
Definition granted_post w : bool -> World -> Z -> Prop :=
  fun made w' owed' => made = true /\ owed' = 0 /\
    (grant_work (wlocks w') < grant_work (wlocks w))%nat.

Lemma queue_after_pop forced l q' :
  queue (next_or_forced_fencing_token forced (set_queue q' l)).2 = q'.
Proof. apply next_token_same. Qed.

Lemma pop_step cap key l x q' :
  LinkedQueue.pop_front (queue l) = (x, q') ->
  lock_step pol cap key l (set_queue q' l).
Proof. intros Hp. replace q' with (LinkedQueue.pop_front (queue l)).2 by (by rewrite Hp). constructor. Qed.

Lemma next_token_nonneg forced l :
  seed_ok pol forced -> 0 <= (next_or_forced_fencing_token forced l).1.
Proof using seed_nonneg. destruct forced; simpl; [auto|lia]. Qed.

(** A grant followed by its [observe_fencing_token]. *)
Lemma sim_grant {A} (k : unit -> M World A) key token l0 l forced l' w Q :
  wlocks w !! key = Some l0 ->
  star (lock_step pol (state_cap pol (state w)) key) l0 l ->
  seed_ok pol forced -> grant_step l forced l' ->
  token = (next_or_forced_fencing_token forced l).1 ->
  (forall w', wlocks w' = <[key := l']> (wlocks w) ->
     state_cap pol (state w') = state_cap pol (state w) -> sim pol (k tt) w' 0 Q) ->
  sim pol (put_granted_lock key token l') w 0
    (fun _ w1 owed1 => sim pol (observe_fencing_token token ≫= k) w1 owed1 Q).
Proof using seed_nonneg.
  intros Hl Hs Hf Hg Htok HQ.
  eapply (sim_put_granted_lock _ _ _ l0 l forced); [done..|].
  intros w1 H1 C1. apply sim_bind, sim_observe.
  { pose proof (next_token_nonneg forced l Hf). lia. }
  intros w2 H2 C2. apply HQ; congruence.
Qed.

Lemma granted_post_intro w w' key l l' u p q' :
  wlocks w !! key = Some l -> LinkedQueue.iter (queue l) = (u, p) :: LinkedQueue.iter q' ->
  wlocks w' = <[key := l']> (wlocks w) -> queue l' = q' -> (1 <= request_work p)%nat ->
  granted_post w true w' 0.
Proof.
  intros Hl Hq Hw Hq' Hp. split_and!; [done|done|]. rewrite Hw.
  pose proof (grant_work_granted _ _ _ _ _ _ _ Hl Hq Hq'). lia.
Qed.

(** Popping the head of a queue and granting to it, in one write. *)
Lemma sim_grant_head {A} (k : unit -> M World A) w w0 key l u p q' token l' Q forced :
  good pol w -> wlocks w0 = wlocks w -> state_cap pol (state w0) = state_cap pol (state w) ->
  wlocks w !! key = Some l -> LinkedQueue.pop_front (queue l) = (Some (u, p), q') ->
  seed_ok pol forced ->
  token = (next_or_forced_fencing_token forced (set_queue q' l)).1 ->
  grant_step (set_queue q' l) forced l' ->
  (forall w', wlocks w' = <[key := l']> (wlocks w) ->
     state_cap pol (state w') = state_cap pol (state w) -> sim pol (k tt) w' 0 Q) ->
  sim pol (put_granted_lock key token l') w0 0
    (fun _ w1 owed1 => sim pol (observe_fencing_token token ≫= k) w1 owed1 Q).
Proof using seed_nonneg.
  intros Hg E0 C0 Hl Hp Hseed Htok Hgr HQ.
  eapply (sim_grant _ _ _ l (set_queue q' l) forced); try done.
  - by sim_locks.
  - sim_locks. eapply star_one, pop_step, Hp.
  - intros w1 H1 C1. apply HQ; by sim_locks.
Qed.

(** The token a waiter is granted with and the lock it is written into. *)
Lemma next_token_split forced l token l2 :
  next_or_forced_fencing_token forced l = (token, l2) ->
  token = (next_or_forced_fencing_token forced l).1 /\
  l2 = (next_or_forced_fencing_token forced l).2 /\ same_but_counter l l2.
Proof. intros H. pose proof (next_token_same forced l). by rewrite H in *. Qed.

Lemma grant_queued_exclusive_sim w key l u p :
  wlocks w !! key = Some l -> LinkedQueue.front (queue l) = Some (u, p) ->
  pr_kind p = PendingExclusive -> exclusive_grantable l = true ->
  sim pol (grant_queued_exclusive key l) w 0 (granted_post w).
Proof using seed_nonneg.
  intros Hl Hf Hk Hgr. apply sim_use_good. intros Hgood.
  pose proof (good_head _ _ _ _ _ Hgood Hl Hf) as (_ & Hseed & _).
  destruct (front_pop _ _ Hf) as (q' & Hp & Hq).
  unfold grant_queued_exclusive. rewrite Hp.
  destruct (next_or_forced_fencing_token _ _) as [token l2] eqn:Htok.
  destruct (next_token_split _ _ _ _ Htok) as (Ht & Hl2 & _ & _ & _ & _ & Hq2 & _).
  unfold exclusive_grantable in Hgr. rewrite (good_len_u32 _ _ _ Hgood Hl) in Hgr.
  rewrite !andb_true_iff, !bool_decide_eq_true in Hgr. destruct Hgr as [[Hw Hr] Hsz].
  sim_steps. eapply (sim_grant_head _ w) with (forced := pr_grant_fencing_seed p); [done..| |].
  - rewrite Hl2. by apply gs_exclusive.
  - intros w1 H1 C1. sim_steps.
    eapply granted_post_intro; [done|done|by sim_locks|done|].
    unfold request_work. by rewrite Hk.
Qed.

Lemma grant_queued_reader_sim w key l u p :
  wlocks w !! key = Some l -> LinkedQueue.front (queue l) = Some (u, p) ->
  pr_kind p = PendingReader -> reader_blocked l = false ->
  sim pol (grant_queued_reader key l) w 0 (granted_post w).
Proof using seed_nonneg.
  intros Hl Hf Hk Hgr. apply sim_use_good. intros Hgood.
  pose proof (good_head _ _ _ _ _ Hgood Hl Hf) as (_ & Hseed & _).
  destruct (front_pop _ _ Hf) as (q' & Hp & Hq).
  unfold grant_queued_reader. rewrite Hp.
  destruct (next_or_forced_fencing_token _ _) as [token l2] eqn:Htok.
  destruct (next_token_split _ _ _ _ Htok) as (Ht & Hl2 & _ & _ & _ & _ & Hq2 & _).
  unfold reader_blocked in Hgr.
  rewrite orb_false_iff, negb_false_iff, bool_decide_eq_false, bool_decide_eq_true in Hgr.
  destruct Hgr as [Hw He]. apply dec_stable in Hw.
  sim_steps. eapply (sim_grant_head _ w) with (forced := pr_grant_fencing_seed p); [done..| |].
  - rewrite Hl2. by apply gs_read.
  - intros w1 H1 C1. sim_steps.
    eapply granted_post_intro; [done|done|by sim_locks|done|].
    unfold request_work. by rewrite Hk.
Qed.

Lemma grant_queued_writer_sim w key l u p :
  wlocks w !! key = Some l -> LinkedQueue.front (queue l) = Some (u, p) ->
  pr_kind p = PendingWriter -> writer_blocked l = false ->
  sim pol (grant_queued_writer key l) w 0 (granted_post w).
Proof using seed_nonneg.
  intros Hl Hf Hk Hgr. apply sim_use_good. intros Hgood.
  pose proof (good_head _ _ _ _ _ Hgood Hl Hf) as (_ & Hseed & _).
  destruct (front_pop _ _ Hf) as (q' & Hp & Hq).
  unfold grant_queued_writer. rewrite Hp.
  destruct (next_or_forced_fencing_token _ _) as [token l2] eqn:Htok.
  destruct (next_token_split _ _ _ _ Htok) as (Ht & Hl2 & _ & _ & _ & _ & Hq2 & _).
  unfold writer_blocked in Hgr.
  rewrite !orb_false_iff, !negb_false_iff, bool_decide_eq_false, !bool_decide_eq_true in Hgr.
  destruct Hgr as [[Hw Hr] He]. apply dec_stable in Hw.
  sim_steps. eapply (sim_grant_head _ w) with (forced := pr_grant_fencing_seed p); [done..| |].
  - rewrite Hl2. by apply gs_write.
  - intros w1 H1 C1. sim_steps.
    eapply granted_post_intro; [done|done|by sim_locks|done|].
    unfold request_work. by rewrite Hk.
Qed.

(** One call of [try_grant_once]: a grant, or nothing at all. *)
Definition once_post w : bool -> World -> Z -> Prop :=
  fun made w' owed' => granted_post w made w' owed' \/ (made = false /\ w' = w /\ owed' = 0).

(** What the recursive call on the next member key guarantees. *)
Definition sched_post w : unit -> World -> Z -> Prop :=
  fun _ w' owed' => owed' = 0 /\ (grant_work (wlocks w') <= grant_work (wlocks w))%nat.

(** Enqueueing on a lock [lock_or_default] returned. *)
Lemma sim_enqueue_back w w1 key l u p Q :
  wlocks w1 = <[key := l]> (wlocks w) ->
  u = pr_request_uuid p -> waiter_ok pol key (u, p) ->
  (forall w2, wlocks w2 = <[key := set_queue (LinkedQueue.push_back (queue l) u p).2 l]> (wlocks w) ->
     state_cap pol (state w2) = state_cap pol (state w1) -> Q tt w2 0) ->
  sim pol (put_lock key (set_queue (LinkedQueue.push_back (queue l) u p).2 l)) w1 0 Q.
Proof.
  intros E1 -> Hp HQ. eapply sim_put_lock.
  - rewrite E1. apply lookup_insert_eq.
  - intros _. apply star_one. by constructor.
  - intros w2 H2 C2. apply HQ; [|done]. by rewrite H2, E1, insert_insert_eq.
Qed.

(** The measure after a composite waiter has moved on to its next key. *)
Lemma grant_work_enqueued (m : gmap string LockState) key l u p :
  m !! key = Some l \/ (m !! key = None /\ LinkedQueue.iter (queue l) = []) ->
  (grant_work (<[key := set_queue (LinkedQueue.push_back (queue l) u p).2 l]> m)
     <= grant_work m + request_work p)%nat.
Proof.
  pose proof (lock_work_push_back (queue l) u p) as Hw.
  intros [Hm|[Hm Hq]].
  - pose proof (grant_work_insert key l
      (set_queue (LinkedQueue.push_back (queue l) u p).2 l) m Hm) as Hi.
    unfold lock_work in Hi. simpl in Hi. lia.
  - rewrite grant_work_insert_None by done. unfold lock_work. simpl. rewrite Hq in Hw.
    unfold queue_work in *. simpl in *. lia.
Qed.

Lemma try_grant_composite_sim (rec : string -> M World unit) w key l u p :
  (forall key' w', (grant_work (wlocks w') < grant_work (wlocks w))%nat ->
     sim pol (rec key') w' 0 (sched_post w')) ->
  wlocks w !! key = Some l -> LinkedQueue.front (queue l) = Some (u, p) ->
  sim pol (try_grant_composite rec key) w 0 (once_post w).
Proof using seed_nonneg seed_none seed_add.
  intros Hrec Hl Hf. apply sim_use_good. intros Hgood.
  pose proof (good_head _ _ _ _ _ Hgood Hl Hf) as (_ & Hseed & Hkind).
  unfold try_grant_composite. sim_steps. rewrite Hl, Hf. simpl in Hseed, Hkind.
  destruct (pr_kind p) as [| | |all_keys remaining granted tokens cu] eqn:Hk;
    [sim_steps; by right..|].
  destruct remaining as [|target rest]; [sim_steps; by right|].
  case_bool_decide as Htgt; simpl; [|sim_steps; by right]. subst target.
  destruct (bool_decide (writer l = None) && _ && _) eqn:Hgr; simpl; [|sim_steps; by right].
  rewrite !andb_true_iff, !bool_decide_eq_true in Hgr. destruct Hgr as [[Hw Hr] He].
  destruct (front_pop _ _ Hf) as (q' & Hp & Hq). simpl. rewrite Hp, Hk.
  destruct (next_or_forced_fencing_token _ _) as [token l2] eqn:Htok.
  destruct (next_token_split _ _ _ _ Htok) as (Ht & Hl2 & _ & _ & _ & _ & Hq2 & _).
  apply seed_offset with (o := Z.of_nat (default 0%nat (key_position key all_keys))) in Hseed; [|lia].
  sim_steps. eapply (sim_grant_head _ w); [done|done|done|done|exact Hp|exact Hseed|done| |].
  { rewrite Hl2. by apply gs_composite. }
  intros w1 H1 C1.
  assert (grant_work (wlocks w1) + request_work p = grant_work (wlocks w))%nat as Hwork.
  { rewrite H1. by eapply grant_work_granted. }
  clear H1. unfold request_work in Hwork. rewrite Hk in Hwork.
  sim_steps. simpl.
  destruct rest as [|next rest'] eqn:Hrest; simpl in Hwork.
  - sim_steps. left. split_and!; [done|done|]. sim_locks. lia.
  - sim_steps. apply sim_lock_or_default. intros nl w4 H4 C4 Hnl.
    sim_steps. eapply (sim_enqueue_back w2 w4); [done|done| |].
    { split_and!; [done| |simpl; by eapply composite_advance].
      by pose proof (good_head _ _ _ _ _ Hgood Hl Hf) as (_ & ? & _). }
    intros w5 H5 C5. sim_steps.
    assert (grant_work (wlocks w5) < grant_work (wlocks w))%nat as Hlt.
    { rewrite H5. eapply Nat.le_lt_trans.
      - apply grant_work_enqueued. destruct Hnl as [Hnl|[Hnl []]]; [left|right]; eauto.
      - sim_locks. unfold request_work. simpl. lia. }
    eapply sim_mono; [apply Hrec; revert Hlt; by sim_locks|].
    intros [] w7 owed7 [-> Hle]. sim_steps. left. split_and!; [done|done|].
    revert Hle Hlt. sim_locks. lia.
Qed.

Lemma try_grant_once_sim (rec : string -> M World unit) w key :
  (forall key' w', (grant_work (wlocks w') < grant_work (wlocks w))%nat ->
     sim pol (rec key') w' 0 (sched_post w')) ->
  sim pol (try_grant_once rec key) w 0 (once_post w).
Proof using seed_nonneg seed_none seed_add.
  intros Hrec. unfold try_grant_once. sim_steps.
  destruct (wlocks w !! key) as [l|] eqn:Hl; [|sim_steps; by right].
  destruct (LinkedQueue.front (queue l)) as [[u p]|] eqn:Hf; [|sim_steps; by right].
  destruct (pr_kind p) eqn:Hk.
  - destruct (exclusive_grantable l) eqn:Hg; simpl; [|sim_steps; by right].
    eapply sim_mono; [by eapply grant_queued_exclusive_sim|]. by left.
  - destruct (reader_blocked l) eqn:Hg; [sim_steps; by right|].
    eapply sim_mono; [by eapply grant_queued_reader_sim|]. by left.
  - destruct (writer_blocked l) eqn:Hg; [sim_steps; by right|].
    eapply sim_mono; [by eapply grant_queued_writer_sim|]. by left.
  - by eapply try_grant_composite_sim.
Qed.

Lemma grant_work_timestamp (m : gmap string LockState) key l t :
  m !! key = Some l -> grant_work (<[key := set_timestamp_emptied t l]> m) = grant_work m.
Proof.
  intros Hm. pose proof (grant_work_insert key l (set_timestamp_emptied t l) m Hm).
  unfold lock_work in *. simpl in *. lia.
Qed.

Lemma maybe_mark_idle_sim key w owed :
  sim pol (maybe_mark_idle key) w owed
    (fun _ w' owed' => owed' = owed /\ grant_work (wlocks w') = grant_work (wlocks w)).
Proof.
  apply sim_maybe_mark_idle. intros w' _ [->|(l & t & Hl & ->)]; [done|].
  split; [done|]. by apply grant_work_timestamp.
Qed.

Lemma try_grant_next_fuel_sim fuel w key :
  (grant_work (wlocks w) < fuel)%nat ->
  sim pol (try_grant_next_fuel fuel key) w 0 (sched_post w).
Proof using seed_nonneg seed_none seed_add.
  revert key w. induction fuel as [|fuel IH]; intros key w Hfuel; [lia|]. simpl.
  apply sim_bind. eapply sim_mono.
  { apply try_grant_once_sim. intros key' w' Hlt. apply IH. lia. }
  intros made w' owed' [(-> & -> & Hlt)|(-> & -> & ->)].
  - eapply sim_mono; [apply IH; lia|]. intros [] w'' owed'' [-> Hle]. split; [done|lia].
  - eapply sim_mono; [apply maybe_mark_idle_sim|]. intros [] w'' owed'' [-> Hw].
    split; [done|]. by rewrite Hw.
Qed.

(** The scheduler terminates within its fuel. *)
Lemma try_grant_next_sim w key : sim pol (try_grant_next key) w 0 (sched_post w).
Proof using seed_nonneg seed_none seed_add.
  intros Hg. apply wp_done.
  pose proof (try_grant_next_fuel_sim (S (grant_work (wlocks w))) w key ltac:(lia) Hg) as H.
  by apply wp_done in H.
Qed.

(** ** The request handlers *)

(** Between requests no token is left to be observed. *)
Definition settled {A} : A -> World -> Z -> Prop := fun _ _ owed' => owed' = 0.

Lemma sim_resolve_max cur requested w Q :
  cur <= Z.max (limit pol) 1 ->
  (forall m, requested = Some m -> 0 <= m <= Z.max (limit pol) 1) ->
  (forall m w', 1 <= m <= state_cap pol (state w) -> wlocks w' = wlocks w ->
     state_cap pol (state w') = state_cap pol (state w) -> Q m w' 0) ->
  sim pol (resolve_max cur requested) w 0 Q.
Proof.
  intros Hle Hreq HQ. unfold resolve_max. sim_steps.
  assert (1 <= Z.max (Z.min cur (Z.max (cfg_max_concurrency_cap (config (state w))) 1)) 1
            <= state_cap pol (state w)) as Hcur by (unfold state_cap in *; lia).
  destruct requested as [m|]; [|sim_steps; by apply HQ].
  specialize (Hreq m eq_refl). case_bool_decide as H0; [sim_steps; by apply HQ|].
  case_bool_decide as H1.
  - sim_steps. apply sim_upd_state; [done..|]. sim_intro_admin. sim_steps.
    apply HQ; [unfold state_cap; lia|by sim_locks..].
  - sim_steps. apply HQ; [unfold state_cap; lia|done..].
Qed.

Lemma seed_override go o :
  0 <= o -> seed_ok pol (go_fencing_seed go) -> seed_ok pol (grant_overrides_token go o).
Proof using seed_none seed_add. apply seed_offset. Qed.

Lemma handle_exclusive_lock_sim c u key pid ttl max_ keep force wait go w :
  seed_ok pol (go_fencing_seed go) -> (forall m, max_ = Some m -> 0 <= m <= Z.max (limit pol) 1) ->
  sim pol (handle_exclusive_lock c u key pid ttl max_ keep force wait go) w 0 settled.
Proof using seed_nonneg seed_none seed_add.
  intros Hseed Hmax. unfold handle_exclusive_lock. sim_steps.
  apply sim_use_good. intros (Hwf & _ & Hlim).
  apply sim_resolve_max; [|done|].
  { destruct (locks (state w) !! key) as [l|] eqn:Hl; simpl; [|lia].
    destruct (Hwf key l Hl) as [_ Hm _ _ _ _]. unfold state_cap in Hm. lia. }
  intros m w1 Hm E1 C1.
  sim_steps. apply sim_lock_or_default. intros l w2 E2 C2 _.
  sim_steps. eapply (sim_put_lock _ _ l).
  { rewrite E2. apply lookup_insert_eq. }
  { intros _. apply star_one. constructor. by sim_locks. }
  intros w3 E3 C3.
  assert (wlocks w3 !! key = Some (set_max m l)) as Hk by (rewrite E3; apply lookup_insert_eq).
  destruct (bool_decide (writer _ = None) && _ && _) eqn:Hg.
  - rewrite !andb_true_iff, !bool_decide_eq_true in Hg. destruct Hg as [[Hw Hr] Hsz].
    destruct (next_or_forced_fencing_token _ _) as [token l2] eqn:Htok.
    destruct (next_token_split _ _ _ _ Htok) as (Ht & Hl2 & _).
    sim_steps. eapply (sim_grant _ _ _ (set_max m l) (set_max m l)
                        (grant_overrides_token go 0)); [by rewrite Hadm|constructor| | |done|].
    + by apply seed_override.
    + rewrite Hl2. by apply gs_exclusive.
    + intros w5 E5 C5. sim_steps. eapply sim_mono; [apply maybe_mark_idle_sim|].
      intros [] w6 owed6 [-> _]. by sim_steps.
  - destruct wait; simpl; [|by sim_steps].
    sim_steps. eapply (sim_put_lock _ _ (set_max m l)); [done| |].
    { intros _. apply star_one. destruct force.
      - by apply (ls_push_front _ _ _ (set_max m l) (mkPendingRequest u c pid ttl _ _ keep PendingExclusive)).
      - by apply (ls_push_back _ _ _ (set_max m l) (mkPendingRequest u c pid ttl _ _ keep PendingExclusive)). }
    intros w4 E4 C4. sim_steps. eapply sim_mono; [apply maybe_mark_idle_sim|].
    intros [] w6 owed6 [-> _]. by sim_steps.
Qed.

(** *** Composite locks *)

Definition lock_free (l : LockState) : Prop :=
  writer l = None /\ readers l = ∅ /\ exclusive_holders l = ∅.

Lemma key_is_free_lookup s k l : key_is_free s k = true -> locks s !! k = Some l -> lock_free l.
Proof.
  unfold key_is_free. intros Hf Hl. rewrite Hl in Hf.
  rewrite !andb_true_iff, !bool_decide_eq_true in Hf. unfold lock_free. tauto.
Qed.

Lemma key_is_free_other s s' k k' l :
  locks s' = <[k := l]> (locks s) -> k <> k' -> key_is_free s' k' = key_is_free s k'.
Proof. intros Hs Hne. unfold key_is_free. by rewrite Hs, lookup_insert_ne. Qed.

Lemma grant_composite_member_sim c pid cu go acc idx k w owed :
  seed_ok pol (go_fencing_seed go) -> key_is_free (state w) k = true -> owed <= acc.2 -> 0 <= acc.2 ->
  sim pol (grant_composite_member c pid cu go acc (idx, k)) w owed
    (fun acc' w' owed' => owed' <= acc'.2 /\ 0 <= acc'.2 /\
       exists l, wlocks w' = <[k := l]> (wlocks w)).
Proof using seed_nonneg seed_none seed_add.
  intros Hseed Hfree Hle Hnn. destruct acc as [tokens max_token]. simpl in *.
  sim_steps. apply sim_lock_or_default. intros l w1 E1 C1 Hl.
  assert (lock_free l) as (Hw & Hr & He).
  { destruct Hl as [Hl|[_ []]]; [by eapply key_is_free_lookup|done]. }
  destruct (next_or_forced_fencing_token _ _) as [token l2] eqn:Htok.
  destruct (next_token_split _ _ _ _ Htok) as (Ht & Hl2 & _).
  apply (seed_override _ (Z.of_nat idx)) in Hseed; [|lia]. sim_steps.
  eapply (sim_put_granted_lock _ _ _ l l (grant_overrides_token go (Z.of_nat idx))).
  - rewrite E1. apply lookup_insert_eq.
  - constructor.
  - done.
  - intros _. rewrite Hl2. by apply gs_composite.
  - done.
  - intros w2 E2 C2. sim_steps. simpl.
    pose proof (next_token_nonneg _ l Hseed). rewrite <-Ht in *.
    split_and!; [case_bool_decide; lia..|]. eexists. by rewrite E2, E1, insert_insert_eq.
Qed.

Lemma grant_composite_members_sim c pid cu go xs acc w owed :
  seed_ok pol (go_fencing_seed go) -> NoDup xs.*2 ->
  (forall k, k ∈ xs.*2 -> key_is_free (state w) k = true) -> owed <= acc.2 -> 0 <= acc.2 ->
  sim pol (for_fold xs acc (grant_composite_member c pid cu go)) w owed
    (fun acc' _ owed' => owed' <= acc'.2).
Proof using seed_nonneg seed_none seed_add.
  intros Hseed. revert acc w owed. induction xs as [|[idx k] xs IH]; intros acc w owed Hnd Hfree Hle Hnn.
  - by apply sim_ret.
  - cbn [for_fold]. apply NoDup_cons in Hnd as [Hk Hnd]. sim_steps. eapply sim_mono.
    { apply grant_composite_member_sim; try done. apply Hfree. left. }
    intros acc' w' owed' (H1 & H2 & l & Hl). apply IH; try done.
    intros k' Hk'. erewrite key_is_free_other; [apply Hfree; by right|done|].
    intros ->. by apply Hk.
Qed.

Lemma handle_composite_lock_sim rq w :
  seed_ok pol (go_fencing_seed (cl_grant_overrides rq)) ->
  sim pol (handle_composite_lock rq) w 0 settled.
Proof using seed_nonneg seed_none seed_add.
  destruct rq as [c u keys pid ttl wait go]. simpl. intros Hseed.
  destruct (bool_decide (keys = []) || _) eqn:Hkeys; [by sim_steps|].
  rewrite orb_false_iff, !bool_decide_eq_false in Hkeys. destruct Hkeys as [Hne _].
  pose proof (sort_dedup_sorted keys) as Hsorted.
  assert (dedup_keys (sort_keys keys) <> []) as Hne' by eauto using sort_dedup_nil.
  set (ks := dedup_keys (sort_keys keys)) in *. sim_steps.
  destruct (forallb (key_is_free (state w)) ks) eqn:Hfree.
  - sim_steps. eapply sim_mono.
    { apply grant_composite_members_sim; simpl; [done| | |lia|lia].
      - rewrite imap_pair_snd. by apply strictly_sorted_NoDup.
      - intros k Hk. rewrite imap_pair_snd in Hk. unfold key_is_free. fold (wlocks w0).
        rewrite Hadm. rewrite forallb_forall in Hfree. apply Hfree. by apply list_elem_of_In. }
    intros [tokens max_token] w1 owed1 Hle. simpl in Hle. sim_steps.
    apply sim_observe; [done|]. intros w2 E2 C2. sim_steps. eapply sim_mono.
    { apply (sim_for_each _ (fun _ owed => owed = 0)); [done|]. intros k w3 ? _ ->.
      eapply sim_mono; [apply maybe_mark_idle_sim|]. naive_solver. }
    intros [] w3 ? ->. by sim_steps.
  - destruct wait; simpl; [|by sim_steps]. destruct ks as [|hd rest] eqn:Hks; [done|].
    sim_steps. apply sim_lock_or_default. intros l w1 E1 C1 _.
    sim_steps. eapply (sim_enqueue_back w0 w1); [done|done| |].
    { split_and!; [done|done|]. by split. }
    intros w2 E2 C2. sim_steps. eapply sim_mono; [apply maybe_mark_idle_sim|].
    intros [] w3 ? [-> _]. sim_steps.
    eapply sim_mono; [apply try_grant_next_sim|]. by intros [] w6 ? [-> _].
Qed.

(** *** Unlock *)

Lemma unlock_target_steps can target acc l cap key :
  star (lock_step pol cap key) l (unlock_target can target acc l).2.
Proof.
  unfold unlock_target.
  destruct (unlock_decision _ _ _ (ua_removed acc) _) as [[re rem1] den1].
  set (l1 := if re then set_exclusive_holders _ l else l).
  destruct (unlock_decision _ _ _ rem1 _) as [[rr rem2] den2].
  set (l2 := if rr then set_readers _ l1 else l1).
  destruct (unlock_decision _ _ _ rem2 _) as [[rw rem3] den3]. simpl.
  apply star_app with l1; [|apply star_app with l2].
  - unfold l1. destruct re; [apply star_one, ls_remove_exclusive|constructor].
  - unfold l2. destruct rr; [apply star_one, ls_remove_reader|constructor].
  - destruct rw; [apply star_one, ls_clear_writer|constructor].
Qed.

Lemma unlock_key_sim target can acc key w :
  sim pol (unlock_key target can acc key) w 0 settled.
Proof.
  unfold unlock_key. sim_steps. destruct (wlocks w !! key) as [l|] eqn:Hl; [|by sim_steps].
  sim_steps. destruct target as [target|].
  - sim_steps. pose proof (unlock_target_steps can target acc l (state_cap pol (state w)) key) as Hs.
    destruct (unlock_target can target acc l) as [acc' l']. sim_steps.
    eapply sim_put_lock; [done|done|]. intros w1 E1 C1. by sim_steps.
  - unfold unlock_wipe. sim_steps.
    apply sim_hash_order. intros excl w1 _ [E1 C1]%(admin_facts (pol := pol)).
    sim_steps. apply sim_hash_order. intros rds w2 _ [E2 C2]%(admin_facts (pol := pol)).
    sim_steps. eapply (sim_put_lock _ _ l); [by rewrite E2, E1| |].
    + intros _. apply star_one, ls_wipe.
    + intros w3 E3 C3. by sim_steps.
Qed.

Lemma for_each_try_grant_sim keys w :
  sim pol (for_each keys try_grant_next) w 0 settled.
Proof using seed_nonneg seed_none seed_add.
  apply (sim_for_each _ (fun _ owed => owed = 0)); [done|]. intros k w' ? _ ->.
  eapply sim_mono; [apply try_grant_next_sim|]. by intros [] ? ? [-> _].
Qed.

Lemma for_each_unhold_sim (ol : list (ClientId * string)) w :
  sim pol (for_each ol (fun ol => upd_client ol.1 (unhold ol.2))) w 0 settled.
Proof.
  apply (sim_for_each _ (fun _ owed => owed = 0)); [done|]. intros k w' ? _ ->. by sim_steps.
Qed.

Lemma handle_unlock_sim c u keys lock_uuid force w :
  sim pol (handle_unlock c u keys lock_uuid force) w 0 settled.
Proof using seed_nonneg seed_none seed_add.
  unfold handle_unlock. case_bool_decide; [by sim_steps|]. sim_steps.
  assert (forall target,
    sim pol
      (acc ← for_fold keys (mkUnlockAcc false 0 [] [] false)
               (unlock_key target (can_unlock_target force c (dom (clients (state w)))));
       match target with
       | Some _ => if ua_total_unlocked acc
                   then for_each (ua_removed acc) (fun ol => upd_client ol.1 (unhold ol.2))
                   else mret tt
       | None => for_each (ua_wiped acc) (fun ol => upd_client ol.1 (unhold ol.2))
       end ;;
       for_each keys try_grant_next ;;
       send c (Response.Unlock u keys (ua_total_unlocked acc) (ua_last_depth acc)
         (if negb (ua_total_unlocked acc) && ua_denied acc then
            (fun t => "unlock lock_uuid `" +:+ t +:+
               "` is owned by another live client; use force=true to override") <$> target
          else if negb (ua_total_unlocked acc) && force then
            (fun t => "unlock(force=true) lock_uuid `" +:+ t +:+
               "` did not match any current holder for the requested keys") <$> target
          else None))) w 0 settled) as Hmain.
  { intros target. sim_steps. eapply sim_mono.
    { apply (sim_for_fold _ (fun _ _ owed => owed = 0)); [done|]. intros k acc w' ? _ ->.
      apply unlock_key_sim. }
    intros acc w1 ? ->. sim_steps. apply (sim_mono _ _ _ _ settled).
    { destruct target; [destruct (ua_total_unlocked acc)|];
        [apply for_each_unhold_sim|by sim_steps|apply for_each_unhold_sim]. }
    intros [] w2 ? ->. sim_steps. eapply sim_mono; [apply for_each_try_grant_sim|].
    intros [] w3 ? ->. by sim_steps. }
  destruct lock_uuid as [t|]; [apply Hmain|]. destruct force; [apply Hmain|by sim_steps].
Qed.

(** *** Reader-writer locks *)

Lemma handle_register_read_sim c u key go w :
  seed_ok pol (go_fencing_seed go) -> sim pol (handle_register_read c u key go) w 0 settled.
Proof using seed_nonneg seed_none seed_add.
  intros Hseed. unfold handle_register_read. sim_steps.
  apply sim_lock_or_default. intros l w1 E1 C1 _.
  assert (wlocks w1 !! key = Some l) as Hk by (rewrite E1; apply lookup_insert_eq).
  destruct (bool_decide (writer l = None) && _ && _) eqn:Hg.
  - rewrite !andb_true_iff, !bool_decide_eq_true in Hg. destruct Hg as [[Hw He] _].
    destruct (next_or_forced_fencing_token _ _) as [token l2] eqn:Htok.
    destruct (next_token_split _ _ _ _ Htok) as (Ht & Hl2 & _).
    sim_steps. eapply (sim_grant _ _ _ l l (grant_overrides_token go 0));
      [by rewrite Hadm|constructor|by apply seed_override| |done|].
    + rewrite Hl2. by apply gs_read.
    + intros w5 E5 C5. sim_steps. eapply sim_mono; [apply maybe_mark_idle_sim|].
      intros [] w6 owed6 [-> _]. by sim_steps.
  - sim_steps. eapply (sim_enqueue_back w w1); [done|done|done|].
    intros w4 E4 C4. sim_steps. eapply sim_mono; [apply maybe_mark_idle_sim|].
    intros [] w6 owed6 [-> _]. by sim_steps.
Qed.

Lemma handle_register_write_sim c u key go w :
  seed_ok pol (go_fencing_seed go) -> sim pol (handle_register_write c u key go) w 0 settled.
Proof using seed_nonneg seed_none seed_add.
  intros Hseed. unfold handle_register_write. sim_steps.
  apply sim_lock_or_default. intros l w1 E1 C1 _.
  assert (wlocks w1 !! key = Some l) as Hk by (rewrite E1; apply lookup_insert_eq).
  destruct (bool_decide (writer l = None) && _ && _) eqn:Hg.
  - rewrite !andb_true_iff, !bool_decide_eq_true in Hg. destruct Hg as [[Hw Hr] He].
    destruct (next_or_forced_fencing_token _ _) as [token l2] eqn:Htok.
    destruct (next_token_split _ _ _ _ Htok) as (Ht & Hl2 & _).
    sim_steps. eapply (sim_grant _ _ _ l l (grant_overrides_token go 0));
      [by rewrite Hadm|constructor|by apply seed_override| |done|].
    + rewrite Hl2. by apply gs_write.
    + intros w5 E5 C5. sim_steps. eapply sim_mono; [apply maybe_mark_idle_sim|].
      intros [] w6 owed6 [-> _]. by sim_steps.
  - sim_steps. eapply (sim_enqueue_back w w1); [done|done|done|].
    intros w4 E4 C4. sim_steps. eapply sim_mono; [apply maybe_mark_idle_sim|].
    intros [] w6 owed6 [-> _]. by sim_steps.
Qed.

(** A write of one elementary step through [if let Some(lock) = ..]. *)
Lemma alter_lock_sim key f w :
  (forall l cap, star (lock_step pol cap key) l (f l)) ->
  sim pol (alter_lock key f) w 0 settled.
Proof.
  intros Hf. unfold alter_lock. sim_steps.
  destruct (wlocks w !! key) as [l|] eqn:Hl; [|by sim_steps].
  eapply sim_put_lock; [done|done|]. by intros.
Qed.

Lemma handle_end_read_sim c u key w : sim pol (handle_end_read c u key) w 0 settled.
Proof using seed_nonneg seed_none seed_add.
  unfold handle_end_read. sim_steps. destruct (wlocks w !! key) as [l|] eqn:Hl; [|by sim_steps].
  sim_steps. apply sim_hash_order. intros rm w1 _ [E1 C1]%(admin_facts (pol := pol)). sim_steps.
  eapply sim_mono.
  { apply (sim_for_each _ (fun _ owed => owed = 0)); [done|]. intros k w2 ? _ ->. sim_steps.
    destruct (wlocks w2 !! key) as [l2|] eqn:Hl2; [|by sim_steps].
    eapply (sim_put_lock _ _ l2); [done|intros _; apply star_one, ls_remove_reader|].
    intros w3 E3 C3. by sim_steps. }
  intros [] w2 ? ->. sim_steps. eapply sim_mono; [apply try_grant_next_sim|].
  by intros [] ? ? [-> _].
Qed.

Lemma handle_end_write_sim c u key w : sim pol (handle_end_write c u key) w 0 settled.
Proof using seed_nonneg seed_none seed_add.
  unfold handle_end_write. sim_steps.
  apply (sim_mono _ _ _ _ settled).
  2: { intros [] w2 ? ->. eapply sim_mono; [apply try_grant_next_sim|]. by intros [] ? ? [-> _]. }
  destruct (wlocks w !! key) as [l|] eqn:Hl; [|by sim_steps]. sim_steps.
  apply (sim_mono _ _ _ _ settled); [|intros l' w2 ? ->; by sim_steps].
  destruct (writer l) as [wr|]; [|by sim_steps].
  case_bool_decide; [|by sim_steps].
  sim_steps. eapply (sim_put_lock _ _ l); [done|intros _; apply star_one, ls_clear_writer|].
  intros w3 E3 C3. by sim_steps.
Qed.

End refine.
