(* ===== verification/BrokerClients.v ===== *)
(** * Client identifiers and the set of registered clients

    The search for a free client id terminates and finds one; no handler but
    registration adds a client. *)

From S2P Require Import Prelude Monad Protocol Queue BrokerTypes BrokerState Broker BrokerOps.
From stdpp Require Import options.

(** ** The ids [next_available_client_id] tries *)

Definition nth_client_id (id : Z) (i : nat) : Z := (id - 1 + Z.of_nat i) mod u64_max + 1.

Lemma next_id_nth id :
  1 <= id <= u64_max -> Z.max (wrapping_add64 id 1) 1 = nth_client_id id 1.
Proof.
  intros H. unfold nth_client_id. rewrite u64_max_eq in *. unfold wrapping_add64.
  destruct (decide (id = 18446744073709551615)) as [->|Hne]; [done|].
  rewrite !Z.mod_small by lia. lia.
Qed.

Lemma nth_client_id_range id i : 1 <= nth_client_id id i <= u64_max.
Proof.
  unfold nth_client_id. pose proof (Z.mod_pos_bound (id - 1 + Z.of_nat i) u64_max).
  rewrite u64_max_eq in *. lia.
Qed.

Lemma nth_client_id_0 id : 1 <= id <= u64_max -> nth_client_id id 0 = id.
Proof. intros H. unfold nth_client_id. rewrite Z.mod_small by lia. lia. Qed.

Lemma nth_client_id_S id i : nth_client_id (nth_client_id id 1) i = nth_client_id id (S i).
Proof.
  unfold nth_client_id. f_equal.
  replace ((id - 1 + Z.of_nat 1) mod u64_max + 1 - 1 + Z.of_nat i)
    with ((id - 1 + Z.of_nat 1) mod u64_max + Z.of_nat i) by lia.
  rewrite Zplus_mod_idemp_l. f_equal. lia.
Qed.

Lemma nth_client_id_inj id i j :
  Z.of_nat i < u64_max -> Z.of_nat j < u64_max ->
  nth_client_id id i = nth_client_id id j -> i = j.
Proof.
  intros Hi Hj H. unfold nth_client_id in H. rewrite u64_max_eq in *.
  assert ((id - 1 + Z.of_nat i) mod 18446744073709551615 =
          (id - 1 + Z.of_nat j) mod 18446744073709551615) as H' by lia. clear H.
  pose proof (Z.div_mod (id - 1 + Z.of_nat i) 18446744073709551615 ltac:(lia)).
  pose proof (Z.div_mod (id - 1 + Z.of_nat j) 18446744073709551615 ltac:(lia)).
  lia.
Qed.

Section clients.
Context `{LQ : LinkedQueueCrate} `{E : Env}.

Lemma id_loop_some fuel s id r :
  1 <= id <= u64_max -> next_available_client_id_loop fuel s id = Some r ->
  1 <= r <= u64_max /\ clients s !! r = None.
Proof.
  revert id. induction fuel as [|fuel IH]; intros id Hid; simpl; [done|].
  destruct (bool_decide _ || bool_decide _) eqn:Hb.
  - rewrite next_id_nth by done. apply IH. apply nth_client_id_range.
  - intros [= <-]. rewrite orb_false_iff, !bool_decide_eq_false in Hb.
    destruct Hb as [_ Hb]. split; [done|]. by apply eq_None_not_Some.
Qed.

Lemma id_loop_none fuel s id :
  1 <= id <= u64_max -> next_available_client_id_loop fuel s id = None ->
  forall i, (i < fuel)%nat -> is_Some (clients s !! nth_client_id id i).
Proof.
  revert id. induction fuel as [|fuel IH]; intros id Hid Hl i Hi; [lia|]. simpl in Hl.
  destruct (bool_decide _ || bool_decide _) eqn:Hb; [|done].
  rewrite next_id_nth in Hl by done.
  destruct i as [|i].
  - rewrite nth_client_id_0 by done. rewrite orb_true_iff, !bool_decide_eq_true in Hb.
    destruct Hb as [Hb|Hb]; [unfold SNAPSHOT_DETACHED_CLIENT in Hb; lia|done].
  - rewrite <-nth_client_id_S. apply IH; [apply nth_client_id_range|done|lia].
Qed.

(** With fewer than [u64::MAX] clients the search succeeds within its fuel. *)
Lemma id_loop_total s id :
  1 <= id <= u64_max -> Z.of_nat (size (clients s)) < u64_max ->
  exists r, next_available_client_id_loop (S (size (clients s))) s id = Some r.
Proof.
  intros Hid Hsz.
  destruct (next_available_client_id_loop _ s id) as [r|] eqn:Hl; [by eauto|exfalso].
  pose proof (id_loop_none _ _ _ Hid Hl) as Hall.
  set (ids := nth_client_id id <$> seq 0 (S (size (clients s)))).
  assert (NoDup ids) as Hnd.
  { apply NoDup_fmap_2_strong; [|apply NoDup_seq]. intros i j Hi Hj.
    apply elem_of_seq in Hi, Hj. apply nth_client_id_inj; lia. }
  assert (size (list_to_set ids : gset Z) <= size (dom (clients s)))%nat as Hle.
  { apply subseteq_size. intros x Hx. apply elem_of_list_to_set in Hx.
    apply list_elem_of_fmap in Hx as (i & -> & Hi). apply elem_of_seq in Hi.
    apply elem_of_dom, Hall. lia. }
  rewrite size_list_to_set in Hle by done. rewrite size_dom in Hle.
  unfold ids in Hle. rewrite length_fmap, length_seq in Hle. lia.
Qed.

Lemma next_available_client_id_spec s id w :
  id <= u64_max -> Z.of_nat (size (clients s)) < u64_max ->
  exists r, next_available_client_id s id w = Done r w /\
    1 <= r <= u64_max /\ clients s !! r = None.
Proof.
  intros Hid Hsz. unfold next_available_client_id.
  assert (1 <= Z.max id 1 <= u64_max) as Hm by (unfold u64_max in *; lia).
  destruct (id_loop_total s (Z.max id 1) Hm Hsz) as [r Hr]. rewrite Hr.
  exists r. split; [done|]. by eapply id_loop_some.
Qed.

(** ** Frames

    A preorder on worlds that the primitive effects respect is respected by
    every handler.  [frame_state] covers the changes that leave the clients
    alone, [frame_client] the bookkeeping on a client's handle, [frame_log]
    the events; only the operations that end a client need [frame_delete]. *)

Class Frame (R : World -> World -> Prop) : Prop := {
  frame_preorder :: PreOrder R;
  frame_tick w : R w (next_tick w);
  frame_log w e : R w (log e w);
  frame_state w s : clients s = clients (state w) ->
    next_client_id s = next_client_id (state w) -> R w (set_state s w);
  frame_client w c f : (forall h, ch_sender (f h) = ch_sender h) ->
    R w (set_state (set_clients (alter f c (clients (state w))) (state w)) w);
}.

Class ForgetFrame (R : World -> World -> Prop) : Prop := {
  forget_frame :: Frame R;
  frame_delete w c : R w (set_state (set_clients (delete c (clients (state w))) (state w)) w);
}.

#[local] Hint Extern 0 (Frame _) => apply _ : keeps.

Section frames.
Context (R : World -> World -> Prop) `{!Frame R}.

Lemma frame_upd_state f :
  (forall s, clients (f s) = clients s) -> (forall s, next_client_id (f s) = next_client_id s) ->
  keeps R (upd_state f).
Proof using Type*. intros. apply keeps_modify; [apply _|]. intros w. by apply frame_state. Qed.

Lemma frame_read {A} (f : nat -> A) : keeps R (fun w => Done (f (tick w)) (next_tick w)).
Proof using Type*. intros w a w' H. injection H as _ <-. apply frame_tick. Qed.

Lemma frame_upd_client c f :
  (forall h, ch_sender (f h) = ch_sender h) -> keeps R (upd_client c f).
Proof using Type*. intros. apply keeps_modify; [apply _|]. intros w. by apply frame_client. Qed.

Lemma frame_unhold c u : keeps R (upd_client c (unhold u)).
Proof using Type*. by apply frame_upd_client. Qed.
Lemma frame_track_holder c u ks k : keeps R (track_holder c u ks k).
Proof using Type*. by apply frame_upd_client. Qed.
Lemma frame_track_pending c k u : keeps R (track_pending c k u).
Proof using Type*. by apply frame_upd_client. Qed.
Lemma frame_untrack_pending c k u : keeps R (untrack_pending c k u).
Proof using Type*. by apply frame_upd_client. Qed.

Lemma frame_put_lock k l : keeps R (put_lock k l).
Proof using Type*. by apply frame_upd_state. Qed.

Lemma frame_put_granted_lock k t l : keeps R (put_granted_lock k t l).
Proof using Type*.
  apply keeps_modify; [apply _|]. intros w. etrans; [|apply frame_log]. by apply frame_state.
Qed.

Lemma frame_send c r : keeps R (send c r).
Proof using Type*.
  apply keeps_modify; [apply _|]. intros w. unfold deliver, observe_response.
  assert (forall w', R w w' -> R w (match clients (state w') !! c with
    | Some h => match ch_sender h with SenderOpen => log (Delivered c r) w' | SenderClosed => w' end
    | None => w' end)) as Hd.
  { intros w' Hw. repeat case_match; [|done..]. etrans; [done|apply frame_log]. }
  apply Hd. case_match; [apply frame_log|done].
Qed.

Lemma frame_observe t : keeps R (observe_fencing_token t).
Proof using Type*. apply frame_upd_state; intros s; by case_bool_decide. Qed.

Lemma frame_hash_order {A} (l : list A) : keeps R (hash_order l).
Proof using Type*. apply (frame_read (fun n => env_hash_order n l)). Qed.
Lemma frame_instant_now : keeps R instant_now.
Proof using Type*. apply (frame_read env_instant). Qed.
Lemma frame_uuid_new_v4 : keeps R uuid_new_v4.
Proof using Type*. apply (frame_read env_uuid). Qed.
Lemma frame_unix_time_ms : keeps R unix_time_ms.
Proof using Type*. apply (frame_read env_unix_ms). Qed.
Lemma frame_get_state : keeps R get_state.
Proof using Type*. apply keeps_gets. apply _. Qed.
Lemma frame_get_lock k : keeps R (get_lock k).
Proof using Type*. apply keeps_gets. apply _. Qed.

#[local] Hint Resolve frame_unhold frame_track_holder frame_track_pending frame_untrack_pending
  frame_put_lock frame_put_granted_lock frame_send frame_observe frame_hash_order
  frame_instant_now frame_uuid_new_v4 frame_unix_time_ms frame_get_state frame_get_lock : keeps.

Lemma frame_uuid_or_new u : keeps R (uuid_or_new u).
Proof using Type*. destruct u; simpl; keeps_split. Qed.

Lemma frame_maybe_mark_idle k : keeps R (maybe_mark_idle k).
Proof using Type*. unfold maybe_mark_idle. keeps_split. Qed.

Lemma frame_schedule_deadline t u ks k c : keeps R (schedule_deadline t u ks k c).
Proof using Type*. unfold schedule_deadline. keeps_split. by apply frame_upd_state. Qed.

Lemma frame_resolve_max c r : keeps R (resolve_max c r).
Proof using Type*. unfold resolve_max. keeps_split. by apply frame_upd_state. Qed.

Lemma frame_lock_or_default k : keeps R (lock_or_default k).
Proof using Type*. unfold lock_or_default, LockState_new. keeps_split. Qed.

#[local] Hint Resolve frame_uuid_or_new frame_maybe_mark_idle frame_schedule_deadline
  frame_resolve_max frame_lock_or_default : keeps.

Lemma frame_try_grant_composite rec k :
  (forall k, keeps R (rec k)) -> keeps R (try_grant_composite rec k).
Proof using Type*. intros Hr. unfold try_grant_composite. keeps_split. Qed.

Lemma frame_try_grant_once rec k :
  (forall k, keeps R (rec k)) -> keeps R (try_grant_once rec k).
Proof using Type*.
  intros Hr. unfold try_grant_once, grant_queued_exclusive, grant_queued_reader,
    grant_queued_writer, try_grant_composite. keeps_split.
Qed.

Lemma frame_try_grant_next_fuel fuel k : keeps R (try_grant_next_fuel fuel k).
Proof using Type*.
  revert k. induction fuel as [|fuel IH]; intros k; simpl; [apply keeps_out_of_fuel; apply _|].
  apply keeps_bind; [apply _|by apply frame_try_grant_once|]. keeps_split.
Qed.

Lemma frame_try_grant_next k : keeps R (try_grant_next k).
Proof using Type*. intros w a w'. apply frame_try_grant_next_fuel. Qed.
#[local] Hint Resolve frame_try_grant_next : keeps.

Lemma frame_grant_composite_member c pid u go acc ik :
  keeps R (grant_composite_member c pid u go acc ik).
Proof using Type*. unfold grant_composite_member. keeps_split. Qed.

Lemma frame_unlock_key target can acc key : keeps R (unlock_key target can acc key).
Proof using Type*. unfold unlock_key, unlock_wipe. keeps_split. Qed.
#[local] Hint Resolve frame_grant_composite_member frame_unlock_key : keeps.

Lemma frame_handle_request c r go : keeps R (handle_request_with_grant_overrides c r go).
Proof using Type*.
  unfold handle_request_with_grant_overrides, handle_exclusive_lock, handle_composite_lock,
    handle_unlock, handle_register_read, handle_register_write, handle_end_read, handle_end_write,
    handle_lock_info.
  keeps_split.
Qed.

Lemma frame_tick_ttl now : keeps R (tick_ttl now).
Proof using Type*.
  unfold tick_ttl, expire_deadline, alter_lock, prune_idle_keys. keeps_split; by apply frame_upd_state.
Qed.

End frames.

#[local] Hint Resolve frame_unhold frame_track_holder frame_track_pending frame_untrack_pending
  frame_put_lock frame_put_granted_lock frame_send frame_observe frame_hash_order
  frame_instant_now frame_uuid_new_v4 frame_unix_time_ms frame_get_state frame_get_lock
  frame_uuid_or_new frame_maybe_mark_idle frame_schedule_deadline frame_resolve_max
  frame_lock_or_default frame_try_grant_next : keeps.

Section forget.
Context (R : World -> World -> Prop) `{!ForgetFrame R}.

Lemma frame_forget c : keeps R (upd_state (fun s => set_clients (delete c (clients s)) s)).
Proof using Type*. apply keeps_modify; [apply _|]. intros w. apply frame_delete. Qed.
#[local] Hint Resolve frame_forget : keeps.

Lemma frame_drop_client c : keeps R (drop_client c).
Proof using Type*.
  unfold drop_client, drop_unregistered_client, drop_scan_lock, alter_lock, drop_held_lock,
    drop_held_key. keeps_split.
Qed.

Lemma frame_detach_lock_owner u : keeps R (detach_lock_owner u).
Proof using Type*. unfold detach_lock_owner. keeps_split. apply frame_upd_state; [apply _|done..]. Qed.
End forget.

(** ** Which operations change the set of clients *)

Definition clients_shrink (w w' : World) : Prop :=
  dom (clients (state w')) ⊆ dom (clients (state w)) /\
  next_client_id (state w') = next_client_id (state w).

#[global] Instance clients_shrink_forget : ForgetFrame clients_shrink.
Proof.
  split; [split|]; unfold clients_shrink; try done.
  - split; [done|]. intros ??? [H1 H2] [H3 H4]. split; [by etrans|congruence].
  - intros w s' H1 H2. simpl. by rewrite H1.
  - intros w c f _. simpl. by rewrite dom_alter_L.
  - intros w c. simpl. split; [|done]. rewrite dom_delete_L. set_solver.
Qed.

Lemma keeps_upd_client c f : keeps clients_shrink (upd_client c f).
Proof.
  apply keeps_modify; [apply _|]. intros w. unfold clients_shrink. simpl. by rewrite dom_alter_L.
Qed.

End clients.

#[export] Hint Resolve frame_unhold frame_track_holder frame_track_pending frame_untrack_pending
  frame_put_lock frame_put_granted_lock frame_send frame_observe frame_hash_order
  frame_instant_now frame_uuid_new_v4 frame_unix_time_ms frame_get_state frame_get_lock
  frame_uuid_or_new frame_maybe_mark_idle frame_schedule_deadline frame_resolve_max
  frame_lock_or_default frame_try_grant_next frame_grant_composite_member frame_unlock_key : keeps.
#[export] Hint Extern 0 (Frame _) => apply _ : keeps.
