(* ===== verification/BrokerRuns.v ===== *)
(** * The remaining operations implement the specification

    The dispatcher, client registration and removal, detachment and the TTL
    sweep: each returns and is a sequence of abstract steps. *)

From S2P Require Import Prelude Monad Protocol Queue BrokerTypes BrokerState Broker BrokerOps.
From S2P Require Import BrokerSpec BrokerFencing BrokerSim BrokerRefine BrokerClients.
From stdpp Require Import options.

(** The limit a request asks for is an unsigned number within the policy's. *)
Definition request_ok (pol : Policy) (r : Request.t) : Prop :=
  match r with
  | Request.Lock _ _ _ _ _ max_ _ _ _ _ =>
      forall m, max_ = Some m -> 0 <= m <= Z.max (limit pol) 1
  | _ => True
  end.

Section refine_ops.
Context `{LQ : LinkedQueueCrate} `{E : Env}.
Context (pol : Policy).
Context (seed_none : seed_ok pol None).
Context (seed_nonneg : forall s, seed_ok pol (Some s) -> 0 <= s).
Context (seed_add : forall s o,
  0 <= o -> seed_ok pol (Some s) -> seed_ok pol (Some (saturating_add64 s o))).

Implicit Types w : World.

#[local] Hint Resolve handle_exclusive_lock_sim handle_composite_lock_sim handle_unlock_sim
  handle_register_read_sim handle_register_write_sim handle_end_read_sim handle_end_write_sim
  : core.

Lemma handle_request_sim c r go w :
  request_ok pol r -> seed_ok pol (go_fencing_seed go) ->
  sim pol (handle_request_with_grant_overrides c r go) w 0 settled.
Proof using seed_nonneg seed_none seed_add.
  intros Hr Hseed.
  destruct r as [| |u key keys pid ttl max_ force rc keep wait|u key keys lu force| | | | |u key|u|u];
    cbn [handle_request_with_grant_overrides] in *; try (by sim_steps); auto.
  - cbv zeta. case_bool_decide; [destruct keys; by sim_steps|].
    destruct key, keys; try (by sim_steps).
    + apply handle_exclusive_lock_sim; try done.
    + by apply handle_composite_lock_sim.
  - destruct key, keys; try (by sim_steps); auto.
  - unfold handle_lock_info. sim_steps. destruct (wlocks w !! key) as [l|]; [|by sim_steps].
    sim_steps. apply sim_hash_order. intros excl w1 _ [E1 C1]%(admin_facts (pol := pol)).
    sim_steps. apply sim_hash_order. intros rds w2 _ [E2 C2]%(admin_facts (pol := pol)). by sim_steps.
  - sim_steps. apply sim_hash_order. intros ks w1 _ [E1 C1]%(admin_facts (pol := pol)). by sim_steps.
Qed.

(** ** Clients *)

Lemma insert_client_handle_sim id s w :
  sim pol (insert_client_handle id s) w 0 settled.
Proof. unfold insert_client_handle. apply sim_upd_state; done. Qed.

Lemma sim_for_each_settled {A} (xs : list A) body w :
  (forall x w', x ∈ xs -> sim pol (body x) w' 0 settled) ->
  sim pol (for_each xs body) w 0 settled.
Proof.
  intros Hb. apply (sim_for_each _ (fun _ owed => owed = 0)); [done|]. intros x w' ? Hx ->. by apply Hb.
Qed.

Lemma sim_for_fold_settled {A B} (xs : list A) (acc : B) body w :
  (forall acc x w', sim pol (body acc x) w' 0 settled) ->
  sim pol (for_fold xs acc body) w 0 settled.
Proof.
  intros Hb. apply (sim_for_fold _ (fun _ _ owed => owed = 0)); [done|]. intros x acc' w' ? Hx ->. by apply Hb.
Qed.

Lemma sim_hash_order_settled {A} (l : list A) w : sim pol (hash_order l) w 0 settled.
Proof. by apply sim_hash_order. Qed.

(** Two settled computations in sequence. *)
Lemma sim_seq {A B} (m : M World A) (f : A -> M World B) w :
  sim pol m w 0 settled -> (forall a w', sim pol (f a) w' 0 settled) ->
  sim pol (m ≫= f) w 0 settled.
Proof. intros Hm Hf. apply sim_bind. eapply sim_mono; [done|]. by intros a w' ? ->. Qed.

Lemma remove_writer_steps cap key u l : star (lock_step pol cap key) l (remove_writer u l).
Proof.
  unfold remove_writer. destruct (writer l); [case_bool_decide|]; try constructor.
  apply star_one, ls_clear_writer.
Qed.

Lemma release_for_kind_steps cap key k u l :
  star (lock_step pol cap key) l (release_for_kind k u l).
Proof.
  destruct k; [apply star_one, ls_remove_exclusive|apply star_one, ls_remove_reader|].
  apply remove_writer_steps.
Qed.

Lemma drop_held_key_sim u k touched key w :
  sim pol (drop_held_key u k touched key) w 0 settled.
Proof.
  unfold drop_held_key. sim_steps. destruct (wlocks w !! key) as [l|] eqn:Hl; [|by sim_steps].
  assert (forall k', sim pol (put_lock key (release_for_kind k' u l) ;; mret ({[key]} ∪ touched))
            w 0 settled) as Hput.
  { intros k'. sim_steps. eapply sim_put_lock; [done|intros _; apply release_for_kind_steps|].
    intros. by sim_steps. }
  destruct k; [|apply (Hput HoldRead)|apply (Hput HoldWrite)].
  destruct (exclusive_holders l !! u); [case_match; [by sim_steps|]|]; apply (Hput HoldExclusive).
Qed.

Lemma drop_unregistered_client_sim c w : sim pol (drop_unregistered_client c) w 0 settled.
Proof using seed_nonneg seed_none seed_add.
  unfold drop_unregistered_client.
  apply sim_seq; [by sim_steps|]. intros s w1.
  apply sim_seq; [apply sim_hash_order_settled|]. intros all_locks w2.
  apply sim_seq.
  { apply sim_for_fold_settled. intros acc [k l] w'. unfold drop_scan_lock.
    apply sim_seq; [apply sim_hash_order_settled|]. intros excl w3.
    apply sim_seq; [apply sim_hash_order_settled|]. intros rds w4. by sim_steps. }
  intros scan w3.
  do 4 (apply sim_seq;
    [apply sim_for_each_settled; intros; apply alter_lock_sim; intros; apply star_one; constructor|];
    intros ? ?).
  apply sim_seq; [apply sim_hash_order_settled|]. intros touched w8.
  apply sim_for_each_settled. intros k w9 _. sim_steps.
  eapply sim_mono; [apply maybe_mark_idle_sim|]. intros [] w10 ? [-> _].
  eapply sim_mono; [by apply try_grant_next_sim|]. by intros [] ? ? [-> _].
Qed.

Lemma drop_client_sim c w : sim pol (drop_client c) w 0 settled.
Proof using seed_nonneg seed_none seed_add.
  unfold drop_client. apply sim_seq; [by sim_steps|]. intros s w1.
  destruct (clients s !! c) as [h|]; [|apply drop_unregistered_client_sim].
  apply sim_seq; [by apply sim_upd_state|]. intros [] w2.
  apply sim_seq.
  { apply sim_for_each_settled. intros. apply alter_lock_sim. intros. apply star_one. constructor. }
  intros [] w3. apply sim_seq; [apply sim_hash_order_settled|]. intros held w4.
  apply sim_seq.
  { apply sim_for_fold_settled. intros. apply sim_for_fold_settled. intros. apply drop_held_key_sim. }
  intros touched w5. apply sim_seq; [apply sim_hash_order_settled|]. intros touched' w6.
  by apply for_each_try_grant_sim.
Qed.

Lemma detach_lock_owner_sim u w : sim pol (detach_lock_owner u) w 0 settled.
Proof.
  unfold detach_lock_owner. apply sim_seq; [by sim_steps|]. intros s w1.
  apply sim_seq.
  { eapply sim_of_steps; [done| |done]. intros _. apply star_one, as_detach. }
  intros [] w2. apply sim_seq; [apply sim_hash_order_settled|]. intros touched w3.
  apply sim_for_each_settled. intros c w4 _. case_bool_decide; [by sim_steps|].
  apply sim_seq; [by sim_steps|]. intros [] w5. apply sim_seq; [by sim_steps|]. intros s' w6.
  destruct (clients s' !! c); [case_match|]; [by apply sim_upd_state|by sim_steps..].
Qed.

(** ** The TTL sweep *)

Lemma expire_deadline_sim acc k w : sim pol (expire_deadline acc k) w 0 settled.
Proof.
  unfold expire_deadline. apply sim_seq; [by sim_steps|]. intros s w1.
  destruct (deadlines s !! k) as [entry|]; [|by sim_steps].
  apply sim_seq; [by apply sim_upd_state|]. intros [] w2.
  apply sim_seq; [by sim_steps|]. intros s' w3. case_match; [by sim_steps|].
  apply sim_seq.
  { apply sim_for_each_settled. intros. apply alter_lock_sim. intros. apply release_for_kind_steps. }
  intros [] w4. apply sim_seq; [by sim_steps|]. intros [] w5.
  apply sim_seq; [by apply sim_upd_state|]. intros [] w6. by sim_steps.
Qed.

(** Pruning a list of distinct idle keys. *)
Lemma prune_keys_sim ks w :
  NoDup ks -> (forall k, k ∈ ks -> exists l, wlocks w !! k = Some l /\ is_idle l = true) ->
  sim pol (for_each ks (fun k => upd_state (fun s => set_locks (delete k (locks s)) s))) w 0
    settled.
Proof.
  revert w. induction ks as [|k ks IH]; intros w Hnd Hidle; simpl; [by sim_steps|].
  apply NoDup_cons in Hnd as [Hk Hnd]. destruct (Hidle k) as (l & Hl & Hi); [left|].
  sim_steps. eapply sim_of_steps; [done| |].
  - intros _. apply star_one. by eapply as_prune.
  - apply IH; [done|]. intros k' Hk'. destruct (Hidle k') as (l' & Hl' & Hi'); [by right|].
    exists l'. split; [|done]. unfold wlocks. simpl. rewrite lookup_delete_ne; [done|].
    intros ->. done.
Qed.

Lemma prune_idle_keys_sim now w : sim pol (prune_idle_keys now) w 0 settled.
Proof.
  unfold prune_idle_keys. sim_steps. case_match; [by sim_steps|].
  destruct (instant_checked_sub _ _) as [cutoff|]; [|by sim_steps].
  sim_steps. apply sim_hash_order. intros ls w1 Hperm [E1 C1]%(admin_facts (pol := pol)).
  apply sim_seq.
  - apply prune_keys_sim.
    + eapply sublist_NoDup; [|apply fmap_sublist, sublist_filter].
      rewrite Hperm. apply NoDup_fst_map_to_list.
    + intros k Hk. apply list_elem_of_fmap in Hk as ([k' l] & -> & Hkl).
      apply list_elem_of_filter in Hkl as [Hp Hin]. simpl in *.
      exists l. rewrite E1. split.
      * apply elem_of_map_to_list. by rewrite <-Hperm.
      * unfold prunable in Hp. destruct (timestamp_emptied l); [|done].
        by apply andb_true_iff in Hp as [_ ?].
  - intros [] w2. by apply sim_upd_state.
Qed.

Lemma tick_ttl_sim now w : sim pol (tick_ttl now) w 0 settled.
Proof using seed_nonneg seed_none seed_add.
  unfold tick_ttl. apply sim_seq; [by sim_steps|]. intros s w1.
  apply sim_seq; [apply sim_for_fold_settled; intros; apply expire_deadline_sim|].
  intros [evicted n] w2. apply sim_seq; [apply sim_hash_order_settled|]. intros ks w3.
  apply sim_seq; [by apply for_each_try_grant_sim|]. intros [] w4.
  apply sim_seq; [apply prune_idle_keys_sim|]. intros [] w5. by sim_steps.
Qed.

End refine_ops.

(** * Runs of the broker

    The public operations of [Broker] as one type, and runs of any sequence of
    them from a new broker.  The theorems about runs combine the refinement of
    [BrokerRefine.v] and [BrokerRuns.v] with the invariants of the
    specification. *)

(** ** Operations and runs *)

Inductive Op : Type :=
| OpRegisterClient
| OpRegisterClientWithId (preferred_id : ClientId)
| OpDropClient (client : ClientId)
| OpRequest (client : ClientId) (request : Request.t) (overrides : GrantOverrides)
| OpTickTtl (now : Z)
| OpDetachLockFromClient (client : ClientId) (lock_uuid : string)
| OpDetachLockOwner (lock_uuid : string)
| OpTrySend (client : ClientId) (response : Response.t)
(** The receiving half of a client's channel is dropped. *)
| OpHangUp (client : ClientId).

Section runs.
Context `{LQ : LinkedQueueCrate} `{E : Env}.

Definition hang_up (h : ClientHandle) : ClientHandle :=
  mkClientHandle SenderClosed (ch_held_lock_uuids h) (ch_pending_request_uuids h).

Definition exec_op (op : Op) : M World unit :=
  match op with
  | OpRegisterClient => register_client ;; mret tt
  | OpRegisterClientWithId id => register_client_with_id id ;; mret tt
  | OpDropClient c => drop_client c
  | OpRequest c r go => handle_request_with_grant_overrides c r go
  | OpTickTtl now => tick_ttl now ;; mret tt
  | OpDetachLockFromClient c u => detach_lock_from_client c u
  | OpDetachLockOwner u => detach_lock_owner u
  | OpTrySend c r => try_send c r ;; mret tt
  | OpHangUp c => upd_client c hang_up
  end.

Definition run (ops : list Op) : M World unit := for_each ops exec_op.

(** The configuration is within its types and the policy. *)
Definition config_ok (pol : Policy) (cfg : BrokerConfig) : Prop :=
  cfg_max_concurrency_cap cfg <= u32_max /\ cfg_max_lock_holders cfg <= limit pol.

Definition op_ok (pol : Policy) (op : Op) : Prop :=
  match op with
  | OpRegisterClientWithId id => id <= u64_max
  | OpRequest _ r go => request_ok pol r /\ seed_ok pol (go_fencing_seed go)
  | _ => True
  end.

(** A world some run of operations the policy allows reaches. *)
Definition reachable (pol : Policy) (cfg : BrokerConfig) (w : World) : Prop :=
  config_ok pol cfg /\
  exists obs ops, Forall (op_ok pol) ops /\ Z.of_nat (length ops) < u64_max /\
    run ops (Broker_new cfg obs) = Done tt w.

(** A key claimed by a composite waiter that waits for another key. *)
Definition claims (w : World) (k1 k2 : string) : Prop :=
  exists l u p all_keys remaining granted tokens cu,
    locks (state w) !! k2 = Some l /\ (u, p) ∈ LinkedQueue.iter (queue l) /\
    pr_kind p = PendingComposite all_keys remaining granted tokens cu /\ k1 ∈ granted.

(** ** Every operation refines the specification *)

Section with_policy.
Context (pol : Policy).
Context (seed_none : seed_ok pol None).
Context (seed_nonneg : forall s, seed_ok pol (Some s) -> 0 <= s).
Context (seed_add : forall s o,
  0 <= o -> seed_ok pol (Some s) -> seed_ok pol (Some (saturating_add64 s o))).

(** What a run keeps besides the lock table: the ids it may hand out. *)
Definition clients_ok (n : nat) (w : World) : Prop :=
  next_client_id (state w) <= u64_max /\ (size (clients (state w)) <= n)%nat.

Lemma clients_shrink_ok n w w' : clients_shrink w w' -> clients_ok n w -> clients_ok n w'.
Proof.
  intros [H1 H2] [H3 H4]. split; [lia|].
  apply subseteq_size in H1. rewrite !size_dom in H1. lia.
Qed.

Lemma register_sim (m : M World ClientId) preferred n w :
  m = (s ← get_state; id ← next_available_client_id s (preferred s);
       insert_client_handle id SenderOpen ;; mret id) ->
  preferred (state w) <= u64_max -> clients_ok n w -> Z.of_nat n < u64_max ->
  sim pol (m ;; mret tt) w 0 (fun _ w' owed => owed = 0 /\ clients_ok (S n) w').
Proof.
  intros -> Hp [H1 H2] Hn. sim_steps.
  destruct (next_available_client_id_spec (state w) (preferred (state w)) w)
    as (id & Hid & Hr & Hfresh); [done|lia|].
  eapply sim_admin; [exact Hid|done|].
  unfold insert_client_handle. eapply sim_admin; [done|done|]. sim_steps.
  split; [done|]. split; simpl.
  - unfold wrapping_add64. pose proof (Z.mod_pos_bound (id + 1) (2 ^ 64) ltac:(lia)).
    rewrite u64_max_eq. lia.
  - rewrite map_size_insert_None by done. lia.
Qed.

Lemma sim_clients (m : M World unit) n w :
  sim pol m w 0 settled -> keeps clients_shrink m -> clients_ok n w ->
  sim pol m w 0 (fun _ w' owed => owed = 0 /\ clients_ok (S n) w').
Proof.
  intros Hm Hk Hc Hg. specialize (Hm Hg). apply wp_done in Hm as (a & w' & Hd & owed & H1 & H2 & H3).
  apply wp_done. exists a, w'. split; [done|]. exists owed. split_and!; [done..|].
  specialize (Hk _ _ _ Hd). destruct (clients_shrink_ok n _ _ Hk Hc). split; [done|lia].
Qed.

Lemma exec_op_sim op n w :
  op_ok pol op -> clients_ok n w -> Z.of_nat n < u64_max ->
  sim pol (exec_op op) w 0 (fun _ w' owed => owed = 0 /\ clients_ok (S n) w').
Proof using seed_none seed_nonneg seed_add.
  intros Hok Hc Hn. destruct op as [|id|c|c r go|now|c u|u|c r|c]; simpl in *.
  - by eapply (register_sim _ next_client_id); [|apply Hc|..].
  - by eapply (register_sim _ (fun _ => id)).
  - apply sim_clients; [by apply drop_client_sim|apply frame_drop_client; apply _|done].
  - destruct Hok. apply sim_clients; [by apply handle_request_sim|apply frame_handle_request; apply _|done].
  - apply sim_clients; [|apply keeps_bind; [apply _|apply frame_tick_ttl; apply _|]|done].
    + apply sim_seq; [by apply tick_ttl_sim|]. intros. by apply sim_ret.
    + intros. apply keeps_ret. apply _.
  - apply sim_clients; [|apply keeps_upd_client|done]. unfold detach_lock_from_client; by sim_steps.
  - apply sim_clients; [apply detach_lock_owner_sim|apply frame_detach_lock_owner; apply _|done].
  - unfold try_send. sim_steps. destruct (clients (state w) !! c).
    + sim_steps. eapply sim_admin; [done|apply admin_deliver|]. sim_steps.
      split; [done|]. unfold clients_ok in *. rewrite state_deliver. destruct Hc. split; [done|lia].
    + sim_steps. split; [done|]. destruct Hc. split; [done|lia].
  - apply sim_clients; [|apply keeps_upd_client|done]. by sim_steps.
Qed.

Lemma run_sim ops n w :
  Forall (op_ok pol) ops -> clients_ok n w -> Z.of_nat (n + length ops) < u64_max ->
  sim pol (run ops) w 0 settled.
Proof using seed_none seed_nonneg seed_add.
  unfold run. intros Hok. revert n w. induction Hok as [|op ops Hop _ IH]; intros n w Hc Hn.
  - by apply sim_ret.
  - simpl in *. apply sim_bind. eapply sim_mono; [apply (exec_op_sim op n); [done..|lia]|].
    intros [] w' ? [-> Hc']. apply (IH (S n)); [done|lia].
Qed.

Lemma good_new cfg obs : config_ok pol cfg -> good pol (Broker_new cfg obs).
Proof.
  intros [H1 H2]. split_and!; [apply map_Forall_empty| |done].
  unfold state_cap. simpl. unfold u32_max in *. lia.
Qed.

Lemma run_new_total ops cfg obs :
  config_ok pol cfg -> Forall (op_ok pol) ops -> Z.of_nat (length ops) < u64_max ->
  exists w, run ops (Broker_new cfg obs) = Done tt w /\ good pol w /\
    star (astep pol) (Broker_new cfg obs, 0) (w, 0).
Proof using seed_none seed_nonneg seed_add.
  intros Hcfg Hops Hn.
  pose proof (run_sim ops 0 (Broker_new cfg obs) Hops) as Hs.
  specialize (Hs ltac:(split; simpl; [rewrite u64_max_eq; lia|by rewrite map_size_empty])
                 ltac:(simpl; lia) (good_new cfg obs Hcfg)).
  apply wp_done in Hs as ([] & w & Hr & owed & Hg & Hst & ->). eauto.
Qed.

Lemma reachable_steps cfg w :
  reachable pol cfg w ->
  good pol w /\ config (state w) = cfg /\
  exists obs, star (astep pol) (Broker_new cfg obs, 0) (w, 0).
Proof using seed_none seed_nonneg seed_add.
  intros (Hcfg & obs & ops & Hops & Hn & Hr).
  destruct (run_new_total ops cfg obs Hcfg Hops Hn) as (w' & Hr' & Hg & Hs).
  rewrite Hr in Hr'. injection Hr' as <-. split_and!; [done| |eauto].
  apply (asteps_config _ _ _ Hs).
Qed.

End with_policy.

End runs.
