(* ===== verification/BrokerTheorems.v ===== *)
(** * What every run of the broker guarantees

    Totality and refinement, fencing, mutual exclusion, limits and deadlock
    freedom, for every sequence of operations, every environment and every
    implementation of the queue crate that keeps its contract. *)

From S2P Require Import Prelude Monad Protocol Queue BrokerTypes BrokerState Broker BrokerOps.
From S2P Require Import BrokerSpec BrokerFencing BrokerSim BrokerRefine.
From S2P Require Import BrokerRuns BrokerClients.
From stdpp Require Import options.

(** Any non-negative seed may be forced, as Raft does. *)
Definition any_seed (limit : Z) : Policy :=
  mkPolicy (fun s => match s with Some s => 0 <= s | None => True end) limit.

Lemma any_seed_add limit s o :
  0 <= o -> seed_ok (any_seed limit) (Some s) -> seed_ok (any_seed limit) (Some (saturating_add64 s o)).
Proof. simpl. unfold saturating_add64, u64_max. lia. Qed.

(** ** A run the witnesses use

    Three clients: the first takes ["a"], the second queues for ["a"] and
    ["b"] together, the third takes ["b"] and releases it, the first releases
    ["a"]; a sweep ends the run. *)

Definition lock_request (u k : string) (mx : option Z) : Request.t :=
  Request.Lock u (Some k) None None None mx false 0 false None.
Definition composite_request (u : string) (ks : list string) : Request.t :=
  Request.Lock u None (Some ks) None None None false 0 false None.
Definition unlock_request (u k lu : string) : Request.t :=
  Request.Unlock u (Some k) None (Some lu) false.

Definition demo_ops (go : nat -> GrantOverrides) : list Op :=
  [OpRegisterClient; OpRegisterClient; OpRegisterClientWithId 7;
   OpRequest 1 (lock_request "r1" "a" None) (go 1%nat);
   OpRequest 2 (composite_request "r2" ["b"; "a"]) (go 2%nat);
   OpRequest 7 (lock_request "r3" "b" (Some 1)) (go 3%nat);
   OpRequest 7 (unlock_request "r4" "b" "g3") (go 4%nat);
   OpRequest 1 (unlock_request "r5" "a" "g1") (go 5%nat);
   OpTickTtl 5000000000].

(** Named grants, without and with Raft's seeds. *)
Definition named_grant (i : nat) : GrantOverrides := mkGrantOverrides (Some ("g" +:+ pretty i)) None.
Definition seeded_grant (i : nat) : GrantOverrides :=
  mkGrantOverrides (Some ("g" +:+ pretty i)) (Some (4000000000000000 + Z.of_nat i * 6)).

Definition demo_run (go : nat -> GrantOverrides) : option (@World list_queue) :=
  run_state (@run list_queue demo_env (demo_ops go))
    (@Broker_new list_queue demo_env BrokerConfig_default true).

(** The world the run ends in. *)
Definition demo_world (go : nat -> GrantOverrides) : @World list_queue :=
  default (@Broker_new list_queue demo_env BrokerConfig_default true) (demo_run go).

Lemma demo_ops_ok pol go :
  1 <= limit pol -> (forall i, seed_ok pol (go_fencing_seed (go i))) ->
  Forall (op_ok pol) (demo_ops go).
Proof.
  intros Hl Hgo. repeat constructor; simpl; intros; simplify_eq; auto; try lia.
  rewrite u64_max_eq. lia.
Qed.

Lemma demo_reachable pol go w :
  1 <= limit pol -> (forall i, seed_ok pol (go_fencing_seed (go i))) ->
  demo_run go = Some w -> @reachable list_queue demo_env pol BrokerConfig_default w.
Proof.
  intros Hl Hgo Hr. split; [split; simpl; [unfold u32_max, DEFAULT_MAX_CONCURRENCY_CAP; lia|done]|].
  exists true, (demo_ops go). split_and!; [by apply demo_ops_ok|simpl; rewrite u64_max_eq; lia|].
  unfold demo_run, run_state in Hr.
  destruct (run _ _) as [[] w'| |] eqn:He; [|done..]. by injection Hr as ->.
Qed.

Section theorems.
Context `{LQ : LinkedQueueCrate} `{E : Env}.

Lemma any_seed_reachable limit cfg w :
  reachable (any_seed limit) cfg w ->
  good (any_seed limit) w /\ config (state w) = cfg /\
  exists obs, star (astep (any_seed limit)) (Broker_new cfg obs, 0) (w, 0).
Proof. apply reachable_steps; [done|done|]. intros s o. apply any_seed_add. Qed.

Lemma unforced_reachable limit cfg w :
  reachable (unforced limit) cfg w ->
  good (unforced limit) w /\ config (state w) = cfg /\
  exists obs, star (astep (unforced limit)) (Broker_new cfg obs, 0) (w, 0).
Proof. apply reachable_steps; done. Qed.

Lemma reachable_fenced limit cfg w :
  reachable (unforced limit) cfg w -> clock_bound (u64_max - 1) ->
  fencing_watermark (state w) < u64_max ->
  fence_inv (u64_max - 1) (w, 0) /\ distinct_inv (w, 0).
Proof.
  intros (_ & _ & obs & Hs)%unforced_reachable Hclk Hwm.
  assert (high (w, 0) < u64_max) by (unfold high; rewrite u64_max_eq in *; simpl; lia).
  split.
  - eapply fence_asteps; [done|lia|done|done|apply fence_init].
  - eapply (distinct_asteps (u64_max - 1)); [done|lia|done|done|apply fence_init|].
    intros k l. simpl. by rewrite lookup_empty.
Qed.

(** C1: every sequence of operations within the policy runs to its end -- no
    operation panics, loops or runs out of fuel -- and its effect on the lock
    table is a sequence of the specification's steps, every granted token
    having been folded into the watermark. *)
Theorem run_refines_spec limit cfg obs ops :
  config_ok (any_seed limit) cfg -> Forall (op_ok (any_seed limit)) ops ->
  Z.of_nat (length ops) < u64_max ->
  exists w, run ops (Broker_new cfg obs) = Done tt w /\
    star (astep (any_seed limit)) (Broker_new cfg obs, 0) (w, 0).
Proof.
  intros H1 H2 H3.
  destruct (run_new_total (any_seed limit)) with (ops := ops) (cfg := cfg) (obs := obs)
    as (w & Hr & _ & Hs); try done; [intros s o; apply any_seed_add|eauto].
Qed.

(** C2: without forced seeds, the fencing tokens issued for a key are strictly
    increasing over the whole run, also across the pruning and re-creation of
    the key, positive and at most the watermark; provided the wall clock and
    the watermark stay below [u64::MAX]. *)
Theorem fencing_tokens_increase limit cfg w key :
  reachable (unforced limit) cfg w -> clock_bound (u64_max - 1) ->
  fencing_watermark (state w) < u64_max ->
  StronglySorted Z.lt (issued key (trace w)) /\
  Forall (fun t => 1 <= t <= fencing_watermark (state w)) (issued key (trace w)).
Proof.
  intros Hr Hclk Hwm. destruct (reachable_fenced _ _ _ Hr Hclk Hwm) as [[H1 H2 H3 _ _ _ _] _].
  split; [apply H2|]. apply Forall_forall. intros t Ht. specialize (H3 key t Ht).
  unfold high in H3. simpl in *. lia.
Qed.

(** Without forced seeds, every current holder of a key carries a token
    that was issued for that key, and no two exclusive holders and no two
    readers of a key carry the same token. *)
Theorem holder_tokens_issued limit cfg w key l :
  reachable (unforced limit) cfg w -> clock_bound (u64_max - 1) ->
  fencing_watermark (state w) < u64_max -> locks (state w) !! key = Some l ->
  (forall t, holds_token l t -> t ∈ issued key (trace w)) /\ tokens_distinct l.
Proof.
  intros Hr Hclk Hwm Hl. destruct (reachable_fenced _ _ _ Hr Hclk Hwm) as [Hf Hd].
  split; [|by eapply Hd]. intros t. by apply (fi_holders _ _ Hf).
Qed.

(** C18: on every key a writer excludes readers and exclusive holders, and
    readers exclude exclusive holders. *)
Theorem hold_kinds_exclusive limit cfg w key l :
  reachable (any_seed limit) cfg w -> locks (state w) !! key = Some l ->
  (writer l <> None -> readers l = ∅ /\ exclusive_holders l = ∅) /\
  (readers l <> ∅ -> writer l = None /\ exclusive_holders l = ∅) /\
  (exclusive_holders l <> ∅ -> writer l = None /\ readers l = ∅).
Proof.
  intros ((Hwf & _) & _)%any_seed_reachable Hl.
  destruct (Hwf key l Hl) as [_ _ _ Hw Hr _].
  destruct (writer l), (decide (readers l = ∅)), (decide (exclusive_holders l = ∅));
    naive_solver.
Qed.

(** C19: when neither the configured default nor any request asks for more than
    [limit] holders, no key ever has more than [limit] exclusive holders (nor
    more than the broker-wide cap); with [limit = 1] the lock is a mutex. *)
Theorem holders_within_limit limit cfg w key l :
  reachable (any_seed limit) cfg w -> locks (state w) !! key = Some l ->
  Z.of_nat (size (exclusive_holders l)) <=
    Z.max 1 (Z.min limit (cfg_max_concurrency_cap cfg)).
Proof.
  intros ((Hwf & _) & Hc & _)%any_seed_reachable Hl.
  destruct (Hwf key l Hl) as [_ _ Hs _ _ _]. unfold state_cap in Hs. rewrite Hc in Hs.
  simpl in Hs. lia.
Qed.

Lemma claims_lt limit cfg w k1 k2 :
  reachable (any_seed limit) cfg w -> claims w k1 k2 -> string_lt k1 k2.
Proof.
  intros ((Hwf & _) & _)%any_seed_reachable (l & u & p & ak & rk & gk & tk & cu & Hl & Hin & Hk & Hg).
  destruct (Hwf k2 l Hl) as [Hq _ _ _ _ _]. rewrite Forall_forall in Hq.
  destruct (Hq _ Hin) as (_ & _ & Hok). simpl in Hok. rewrite Hk in Hok.
  destruct Hok as [Hsplit Hsorted Hhead _].
  destruct rk as [|k rk]; [done|]. injection Hhead as ->. rewrite Hsplit in Hsorted.
  apply (StronglySorted_app_1_elem_of _ gk (k2 :: rk)); [done|done|left].
Qed.

(** C20: composite requests cannot deadlock: a cycle in which each composite
    waiter waits for a key another one has claimed never arises, because
    every key a waiter has claimed precedes the key it waits for. *)
Theorem composite_deadlock_free limit cfg w key :
  reachable (any_seed limit) cfg w -> ~ tc (claims w) key key.
Proof.
  intros Hr Hcyc. apply (irreflexivity string_lt key). revert Hcyc.
  generalize key at 1 3 as k1. generalize key as k2. clear key.
  intros k2 k1. induction 1 as [k1 k2 H|k1 k2 k3 H _ IH]; [by eapply claims_lt|].
  etrans; [by eapply claims_lt|done].
Qed.

End theorems.

(** ** The theorems at a concrete run *)

#[local] Existing Instance list_queue.
#[local] Existing Instance demo_env.

Lemma demo_clock_bound : @clock_bound demo_env (u64_max - 1).
Proof. intros n. vm_compute. discriminate. Qed.

Lemma demo_run_named : demo_run named_grant = Some (demo_world named_grant).
Proof. vm_compute. reflexivity. Qed.
Lemma demo_run_seeded : demo_run seeded_grant = Some (demo_world seeded_grant).
Proof. vm_compute. reflexivity. Qed.

Lemma demo_reachable_named limit :
  1 <= limit -> reachable (unforced limit) BrokerConfig_default (demo_world named_grant).
Proof. intros. by eapply demo_reachable, demo_run_named. Qed.

Lemma demo_reachable_seeded limit :
  1 <= limit -> reachable (any_seed limit) BrokerConfig_default (demo_world seeded_grant).
Proof. intros. eapply demo_reachable, demo_run_seeded; [done|]. intros i. simpl. lia. Qed.

(** The lock of a key at the end of the run. *)
Definition demo_lock (go : nat -> GrantOverrides) (key : string) : LockState :=
  default (mkLockState ∅ 0 ∅ None LinkedQueue.new 0 None) (locks (state (demo_world go)) !! key).

Lemma run_refines_spec_witness :
  exists w, run (demo_ops seeded_grant) (Broker_new BrokerConfig_default true) = Done tt w /\
    star (astep (any_seed 1)) (Broker_new BrokerConfig_default true, 0) (w, 0).
Proof.
  apply run_refines_spec.
  - split; simpl; [unfold u32_max, DEFAULT_MAX_CONCURRENCY_CAP; lia|lia].
  - apply demo_ops_ok; [done|]. intros i. simpl. lia.
  - rewrite u64_max_eq. simpl. lia.
Defined.

Lemma fencing_tokens_increase_witness :
  issued "b" (trace (demo_world named_grant)) = [1002; 1003] /\
  StronglySorted Z.lt (issued "b" (trace (demo_world named_grant))).
Proof.
  split; [vm_compute; reflexivity|].
  apply (fencing_tokens_increase 1 BrokerConfig_default).
  - by apply demo_reachable_named.
  - apply demo_clock_bound.
  - vm_compute. reflexivity.
Defined.

Lemma holder_tokens_issued_witness :
  (forall t, holds_token (demo_lock named_grant "b") t ->
     t ∈ issued "b" (trace (demo_world named_grant))) /\
  tokens_distinct (demo_lock named_grant "b").
Proof.
  apply (holder_tokens_issued 1 BrokerConfig_default).
  - by apply demo_reachable_named.
  - apply demo_clock_bound.
  - vm_compute. reflexivity.
  - vm_compute. reflexivity.
Defined.

Lemma hold_kinds_exclusive_witness :
  exclusive_holders (demo_lock seeded_grant "a") <> ∅ /\
  writer (demo_lock seeded_grant "a") = None /\ readers (demo_lock seeded_grant "a") = ∅.
Proof.
  assert (exclusive_holders (demo_lock seeded_grant "a") <> ∅) as Hne
    by (vm_compute; discriminate).
  split; [done|]. revert Hne.
  apply (hold_kinds_exclusive 1 BrokerConfig_default (demo_world seeded_grant) "a").
  - by apply demo_reachable_seeded.
  - vm_compute. reflexivity.
Defined.

Lemma holders_within_limit_witness :
  Z.of_nat (size (exclusive_holders (demo_lock seeded_grant "a"))) <= 1.
Proof.
  apply (holders_within_limit 1 BrokerConfig_default (demo_world seeded_grant) "a").
  - by apply demo_reachable_seeded.
  - vm_compute. reflexivity.
Defined.

Lemma composite_deadlock_free_witness : ~ tc (claims (demo_world seeded_grant)) "a" "a".
Proof.
  apply (composite_deadlock_free 1 BrokerConfig_default).
  by apply demo_reachable_seeded.
Defined.
