(* ===== verification/BrokerAnswers.v ===== *)
(** * What a request gets back

    Every request of a connected client is answered; a request that does not
    want to wait is never queued; registration hands out fresh ids. *)

From S2P Require Import Prelude Monad Protocol Queue BrokerTypes BrokerState Broker BrokerOps.
From S2P Require Import BrokerSpec BrokerFencing BrokerSim BrokerRefine.
From S2P Require Import BrokerRuns BrokerClients BrokerTheorems.
From stdpp Require Import options.

Create HintDb replies.

Section answers.
Context `{LQ : LinkedQueueCrate} `{E : Env}.

(** ** Every request is answered *)

(** The client is registered and reads its channel. *)
Definition connected (c : ClientId) (w : World) : Prop :=
  exists h, clients (state w) !! c = Some h /\ ch_sender h = SenderOpen.

(** The trace grows and the client stays connected. *)
Definition listening (c : ClientId) (w w' : World) : Prop :=
  trace w `prefix_of` trace w' /\ (connected c w -> connected c w').

#[global] Instance listening_frame c : Frame (listening c).
Proof.
  split; unfold listening, connected; simpl; try done.
  - split; [by intros w|]. intros ??? [H1 H2] [H3 H4]. split; [by etrans|auto].
  - intros w e. split; [by apply prefix_app_r|done].
  - intros w s H _. by rewrite H.
  - intros w c' f Hf. split; [done|]. intros (h & Hh & Ho).
    destruct (decide (c' = c)) as [->|Hne].
    + exists (f h). rewrite lookup_alter_eq, Hh. simpl. by rewrite Hf.
    + exists h. by rewrite lookup_alter_ne.
Qed.

(** [m] puts a response with correlation id [u] on the client's channel. *)
Definition replies {A} (c : ClientId) (u : string) (m : M World A) : Prop :=
  forall w a w', m w = Done a w' -> connected c w ->
    exists r, Response.correlation_uuid r = u /\
      Delivered c r ∈ drop (length (trace w)) (trace w').

Lemma replies_send c u r : Response.correlation_uuid r = u -> replies c u (send c r).
Proof.
  intros Hu w a w' [= _ <-] (h & Hh & Ho). exists r. split; [done|]. unfold deliver, observe_response.
  destruct (response_observer w); simpl; rewrite Hh, Ho; simpl; rewrite <-?app_assoc;
    rewrite drop_app_length; set_solver.
Qed.

Lemma replies_bind_r {A B} c u (m : M World A) (f : A -> M World B) :
  keeps (listening c) m -> (forall a, replies c u (f a)) -> replies c u (m ≫= f).
Proof.
  intros Hm Hf w b w' Hd Hc. unfold mbind, M_bind in Hd. destruct (m w) as [a w1| |] eqn:E1; [|done..].
  destruct (Hm _ _ _ E1) as [[l Hl] Hc1]. destruct (Hf a _ _ _ Hd (Hc1 Hc)) as (r & Hr & Hin).
  exists r. split; [done|]. rewrite Hl, length_app, <-drop_drop in Hin.
  apply list_elem_of_lookup in Hin as [i Hi]. rewrite lookup_drop in Hi.
  apply list_elem_of_lookup. eauto.
Qed.

Lemma replies_bind_l {A B} c u (m : M World A) (f : A -> M World B) :
  replies c u m -> (forall a, keeps (listening c) (f a)) -> replies c u (m ≫= f).
Proof.
  intros Hm Hf w b w' Hd Hc. unfold mbind, M_bind in Hd. destruct (m w) as [a w1| |] eqn:E1; [|done..].
  destruct (Hf a _ _ _ Hd) as [[l Hl] _]. destruct (Hm _ _ _ E1 Hc) as (r & Hr & Hin).
  exists r. split; [done|]. rewrite Hl. rewrite list_elem_of_lookup in Hin |- *.
  destruct Hin as [i Hi]. exists i. rewrite lookup_drop in *. by apply lookup_app_l_Some.
Qed.

Lemma replies_panic {A} c u msg : replies c u (@panic World A msg).
Proof. done. Qed.

Ltac listens := solve [keeps_split].

(** Walk to the answer along the structure of a handler. *)
Ltac replies_split :=
  repeat first
    [ progress intros
    | by apply replies_send
    | apply replies_panic
    | apply replies_bind_l; [by apply replies_send|listens]
    | apply replies_bind_r; [listens|]
    | progress cbv zeta
    | case_match ].

Lemma replies_exclusive c u k pid ttl mx keep force wait go :
  replies c u (handle_exclusive_lock c u k pid ttl mx keep force wait go).
Proof. unfold handle_exclusive_lock. replies_split. Qed.

Lemma replies_composite c u ks pid ttl wait go :
  replies c u (handle_composite_lock (mkCompositeLockRequest c u ks pid ttl wait go)).
Proof. unfold handle_composite_lock. replies_split. Qed.

Lemma replies_unlock c u ks lu force : replies c u (handle_unlock c u ks lu force).
Proof. unfold handle_unlock. replies_split. Qed.

Lemma replies_register_read c u k go : replies c u (handle_register_read c u k go).
Proof. unfold handle_register_read. replies_split. Qed.

Lemma replies_register_write c u k go : replies c u (handle_register_write c u k go).
Proof. unfold handle_register_write. replies_split. Qed.

Lemma replies_end_read c u k : replies c u (handle_end_read c u k).
Proof. unfold handle_end_read. replies_split. Qed.

Lemma replies_lock_info c u k : replies c u (handle_lock_info c u k).
Proof. unfold handle_lock_info. replies_split. Qed.

(** [EndWrite] answers when the key is known. *)
Lemma replies_end_write c u k w a w' :
  is_Some (locks (state w) !! k) -> handle_end_write c u k w = Done a w' -> connected c w ->
  exists r, Response.correlation_uuid r = u /\ Delivered c r ∈ drop (length (trace w)) (trace w').
Proof.
  intros [l Hl]. unfold handle_end_write, get_lock, gets. unfold mbind, M_bind at 1 2. rewrite Hl.
  match goal with |- match ?m w with _ => _ end = _ -> _ =>
    change (m w) with (m w); intros Hd; assert (replies c u (m ;; try_grant_next k)) as Hr end.
  { change (@M_bind World) with (@mbind (M World) _). apply replies_bind_l; [|listens].
    replies_split. }
  by eapply Hr.
Qed.

#[local] Hint Resolve replies_exclusive replies_composite replies_unlock replies_register_read
  replies_register_write replies_end_read replies_lock_info : replies.

Lemma replies_request c request go :
  (forall u k, request <> Request.EndWrite u k) ->
  replies c (Request.uuid request) (handle_request_with_grant_overrides c request go).
Proof.
  intros Hne. destruct request; simpl; try (by destruct (Hne uuid key)); auto with replies;
    repeat case_match; auto with replies; replies_split.
Qed.

Lemma request_answered limit c request go w :
  good (any_seed limit) w -> request_ok (any_seed limit) request ->
  seed_ok (any_seed limit) (go_fencing_seed go) -> connected c w ->
  (forall u k, request = Request.EndWrite u k -> is_Some (locks (state w) !! k)) ->
  exists w', handle_request_with_grant_overrides c request go w = Done tt w' /\
    exists r, Response.correlation_uuid r = Request.uuid request /\
      Delivered c r ∈ drop (length (trace w)) (trace w').
Proof.
  intros Hg Hr Hs Hc He.
  pose proof (handle_request_sim (any_seed limit) ltac:(done) ltac:(done)
    (fun s o => any_seed_add limit s o) c request go w Hr Hs Hg) as Hsim.
  apply wp_done in Hsim as ([] & w' & Hd & _). exists w'. split; [done|].
  assert ((exists u k, request = Request.EndWrite u k) \/
          forall u k, request <> Request.EndWrite u k) as [(u & k & ->)|Hne]
    by (destruct request; eauto).
  - eapply replies_end_write; eauto.
  - by eapply replies_request.
Qed.

(** C37: every request of a connected client is answered: from a sound lock
    table the handler returns, and before it does it puts a response with the
    request's correlation id on the client's channel.  The one exception is
    [EndWrite] for a key the broker has no entry for. *)
Theorem every_request_answered limit c request go w :
  good (any_seed limit) w -> request_ok (any_seed limit) request ->
  seed_ok (any_seed limit) (go_fencing_seed go) -> connected c w ->
  (forall u k, request = Request.EndWrite u k -> is_Some (locks (state w) !! k)) ->
  exists w', handle_request_with_grant_overrides c request go w = Done tt w' /\
    exists r, Response.correlation_uuid r = Request.uuid request /\
      Delivered c r ∈ drop (length (trace w)) (trace w').
Proof. apply request_answered. Qed.

(** ** Requests that do not wait are not queued *)

(** The requests queued for a key. *)
Definition queued (w : World) (k : string) : list (string * PendingRequest) :=
  match locks (state w) !! k with
  | Some l => LinkedQueue.iter (queue l)
  | None => []
  end.

Definition queues_same (w w' : World) : Prop := forall k, queued w' k = queued w k.

#[global] Instance queues_same_preorder : PreOrder queues_same.
Proof. split; [by intros w k|]. intros ??? H1 H2 k. by rewrite H2. Qed.

Lemma queues_same_locks w w' : locks (state w') = locks (state w) -> queues_same w w'.
Proof. intros H k. unfold queued. by rewrite H. Qed.

Lemma queues_upd_state f : (forall s, locks (f s) = locks s) -> keeps queues_same (upd_state f).
Proof. intros Hf. apply keeps_modify; [apply _|]. intros w. apply queues_same_locks, Hf. Qed.

Lemma queues_read {A} (f : nat -> A) :
  keeps queues_same (fun w => Done (f (tick w)) (next_tick w)).
Proof. intros w a w' H. injection H as _ <-. by apply queues_same_locks. Qed.

Lemma queues_send c r : keeps queues_same (send c r).
Proof.
  apply keeps_modify; [apply _|]. intros w. apply queues_same_locks.
  unfold deliver, observe_response. by repeat case_match.
Qed.

Lemma queues_instant_now : keeps queues_same instant_now.
Proof. apply (queues_read env_instant). Qed.
Lemma queues_uuid_or_new u : keeps queues_same (uuid_or_new u).
Proof. destruct u; simpl; [apply keeps_ret; apply _|apply (queues_read env_uuid)]. Qed.
Lemma queues_observe t : keeps queues_same (observe_fencing_token t).
Proof. apply queues_upd_state. intros s. by case_bool_decide. Qed.
Lemma queues_upd_client c f : keeps queues_same (upd_client c f).
Proof. by apply queues_upd_state. Qed.
Lemma queues_get_state : keeps queues_same get_state.
Proof. apply keeps_gets. apply _. Qed.
Lemma queues_get_lock k : keeps queues_same (get_lock k).
Proof. apply keeps_gets. apply _. Qed.
#[local] Hint Resolve queues_send queues_instant_now queues_uuid_or_new queues_observe
  queues_upd_client queues_get_state queues_get_lock : keeps.
#[local] Hint Unfold track_holder track_pending untrack_pending : keeps.

Lemma queues_schedule_deadline t u ks k c : keeps queues_same (schedule_deadline t u ks k c).
Proof. unfold schedule_deadline. keeps_split. by apply queues_upd_state. Qed.
Lemma queues_resolve_max c r : keeps queues_same (resolve_max c r).
Proof. unfold resolve_max. keeps_split. by apply queues_upd_state. Qed.

(** Writing back a lock whose queue is what it was. *)
Lemma queues_put_lock k l w :
  queued w k = LinkedQueue.iter (queue l) ->
  queues_same w (set_state (set_locks (<[k := l]> (locks (state w))) (state w)) w).
Proof.
  intros Hq k'. unfold queued in *. simpl. destruct (decide (k' = k)) as [->|Hne].
  - by rewrite lookup_insert_eq.
  - by rewrite lookup_insert_ne.
Qed.

(** Frames under the assumption that [l]'s queue is the one stored for [key]. *)
Definition keeps_at {A} (key : string) (l : LockState) (m : M World A) : Prop :=
  forall w a w', queued w key = LinkedQueue.iter (queue l) -> m w = Done a w' -> queues_same w w'.

Lemma keeps_at_keeps {A} key l (m : M World A) : keeps queues_same m -> keeps_at key l m.
Proof. intros Hm w a w' _. apply Hm. Qed.

Lemma keeps_at_bind {A B} key l (m : M World A) (f : A -> M World B) :
  keeps_at key l m -> (forall a, keeps_at key l (f a)) -> keeps_at key l (m ≫= f).
Proof.
  intros Hm Hf w b w' Hq. unfold mbind, M_bind. destruct (m w) as [a w1| |] eqn:Hd; [|done..].
  intros Hd'. assert (queues_same w w1) as H1 by by eapply Hm.
  etrans; [done|]. eapply Hf; [|done]. by rewrite H1.
Qed.

Lemma keeps_at_put key l l' : queue l' = queue l -> keeps_at key l (put_lock key l').
Proof. intros Hq w a w' Hw [= _ <-]. apply queues_put_lock. by rewrite Hq. Qed.

Lemma keeps_at_grant key l t l' : queue l' = queue l -> keeps_at key l (put_granted_lock key t l').
Proof.
  intros Hq w a w' Hw [= _ <-].
  etrans; [apply (queues_put_lock key l'); by rewrite Hq|by apply queues_same_locks].
Qed.

Lemma queues_get_lock_bind {B} key (f : option LockState -> M World B) :
  keeps queues_same (f None) -> (forall l, keeps_at key l (f (Some l))) ->
  keeps queues_same (get_lock key ≫= f).
Proof.
  intros Hn Hs w b w'. unfold get_lock, gets, mbind, M_bind.
  destruct (locks (state w) !! key) as [l|] eqn:Hl; [|apply Hn].
  apply Hs. unfold queued. by rewrite Hl.
Qed.

Lemma queues_maybe_mark_idle k : keeps queues_same (maybe_mark_idle k).
Proof.
  unfold maybe_mark_idle. apply queues_get_lock_bind; [apply keeps_ret; apply _|]. intros l.
  repeat case_match; try (apply keeps_at_keeps, keeps_ret; apply _).
  - apply keeps_at_bind; [apply keeps_at_keeps, queues_instant_now|]. intros. by apply keeps_at_put.
  - by apply keeps_at_put.
Qed.

Lemma queues_lock_or_default_bind {B} key (f : LockState -> M World B) :
  (forall l, keeps_at key l (f l)) -> keeps queues_same (lock_or_default key ≫= f).
Proof.
  intros Hf w b w'. unfold mbind, M_bind.
  destruct (lock_or_default key w) as [l w1| |] eqn:Hd; [|done..]. intros Hd'.
  assert (queues_same w w1 /\ queued w1 key = LinkedQueue.iter (queue l)) as [H1 H2];
    [|etrans; [exact H1|by eapply Hf]].
  revert Hd. unfold lock_or_default, get_state, gets, mbind, M_bind.
  destruct (locks (state w) !! key) as [l0|] eqn:Hl.
  - intros [= <- <-]. split; [done|]. unfold queued. by rewrite Hl.
  - unfold LockState_new, unix_time_ms, mbind, M_bind, put_lock, upd_state, modify, mret, M_ret.
    set (l0 := if bool_decide _ then _ else _). intros [= <- <-].
    assert (LinkedQueue.iter (queue l0) = []) as Hq.
    { subst l0. case_bool_decide; apply LinkedQueueFacts.iter_new. }
    split.
    + transitivity (next_tick w); [by apply queues_same_locks|].
      apply (queues_put_lock key l0 (next_tick w)). unfold queued. simpl. by rewrite Hl.
    + unfold queued. simpl. by rewrite lookup_insert_eq.
Qed.

Lemma queue_next_token forced l : queue (next_or_forced_fencing_token forced l).2 = queue l.
Proof. by destruct forced. Qed.

#[local] Hint Resolve queues_maybe_mark_idle queues_schedule_deadline queues_resolve_max : keeps.

(** Walk through a handler that does not queue. *)
Ltac at_split :=
  repeat first
    [ progress intros
    | solve [apply keeps_at_keeps; eauto with keeps]
    | apply keeps_at_bind
    | apply keeps_at_put; reflexivity
    | apply keeps_at_grant; reflexivity
    | progress cbv zeta ].

Lemma nowait_exclusive c u k pid ttl mx keep force go :
  keeps queues_same (handle_exclusive_lock c u k pid ttl mx keep force false go).
Proof.
  unfold handle_exclusive_lock.
  apply keeps_bind; [apply _|apply queues_get_state|]. intros s.
  apply keeps_bind; [apply _|apply queues_resolve_max|]. intros m.
  apply queues_lock_or_default_bind. intros l.
  apply keeps_at_bind; [by apply keeps_at_put|]. intros _. cbv zeta.
  destruct (_ && _ && _).
  - destruct (next_or_forced_fencing_token _ _) as [token l'] eqn:Ht.
    assert (queue l' = queue l) as Hq.
    { change l' with (token, l').2. rewrite <-Ht, queue_next_token. done. }
    at_split. by apply keeps_at_grant.
  - simpl. at_split.
Qed.

Lemma nowait_member c pid u go acc ik : keeps queues_same (grant_composite_member c pid u go acc ik).
Proof.
  unfold grant_composite_member. destruct acc as [tokens mx], ik as [idx k].
  apply queues_lock_or_default_bind. intros l.
  destruct (next_or_forced_fencing_token _ _) as [token l'] eqn:Ht.
  assert (queue l' = queue l) as Hq.
  { change l' with (token, l').2. rewrite <-Ht. apply queue_next_token. }
  apply keeps_at_bind; [by apply keeps_at_grant|].
  intros. apply keeps_at_keeps, keeps_ret. apply _.
Qed.
#[local] Hint Resolve nowait_member nowait_exclusive : keeps.

Lemma nowait_composite c u ks pid ttl go :
  keeps queues_same (handle_composite_lock (mkCompositeLockRequest c u ks pid ttl false go)).
Proof. unfold handle_composite_lock. cbn [negb]. keeps_split. Qed.
#[local] Hint Resolve nowait_composite : keeps.

(** A lock request that does not want to wait ([wait = false], single-key or
    composite, granted or refused) never changes any key's queue: nobody is
    queued, dequeued or overtaken in the queue because of it. *)
Theorem nowait_never_queues c u key keys pid ttl mx force rc keep go w w' k :
  handle_request_with_grant_overrides c
    (Request.Lock u key keys pid ttl mx force rc keep (Some false)) go w = Done tt w' ->
  queued w' k = queued w k.
Proof.
  intros Hd. assert (queues_same w w') as H; [|apply H].
  revert Hd. apply (fun H : keeps queues_same _ => H w tt w').
  cbn [handle_request_with_grant_overrides default]. repeat case_match; auto with keeps.
Qed.

(** ** Registration *)

(** Registering a client -- with or without a preferred id -- returns and
    hands out a non-zero [u64] id no connected client has; the client is
    connected with nothing held or pending, and no other client's handle, no
    lock and no deadline changes. *)
Theorem registration_is_fresh (preferred : option ClientId) w :
  next_client_id (state w) <= u64_max -> Z.of_nat (size (clients (state w))) < u64_max ->
  (forall p, preferred = Some p -> p <= u64_max) ->
  exists id w', match preferred with
                | Some p => register_client_with_id p
                | None => register_client
                end w = Done id w' /\
    1 <= id <= u64_max /\ clients (state w) !! id = None /\
    clients (state w') = <[id := mkClientHandle SenderOpen ∅ []]> (clients (state w)) /\
    locks (state w') = locks (state w) /\ deadlines (state w') = deadlines (state w) /\
    trace w' = trace w.
Proof.
  intros Hn Hs Hp. pose (p := default (next_client_id (state w)) preferred).
  destruct (next_available_client_id_spec (state w) p w) as (id & Hid & Hr & Hfresh); [|done|].
  { subst p. destruct preferred; simpl; auto. }
  destruct preferred as [p'|]; simpl in p; subst p; exists id; eexists;
    unfold register_client_with_id, register_client;
    rewrite (bind_done get_state _ w _ w eq_refl), (bind_done _ _ _ _ _ Hid);
    (split; [reflexivity|done]).
Qed.

End answers.

(** ** The theorems at concrete worlds *)

#[local] Existing Instance list_queue.
#[local] Existing Instance demo_env.

Lemma every_request_answered_witness :
  exists w', handle_request_with_grant_overrides 7 (lock_request "r9" "a" None) (named_grant 9)
      (demo_world seeded_grant) = Done tt w' /\
    exists r, Response.correlation_uuid r = "r9"%string /\
      Delivered 7 r ∈ drop (length (trace (demo_world seeded_grant))) (trace w').
Proof.
  apply (every_request_answered 1 7 (lock_request "r9" "a" None) (named_grant 9)).
  - exact (proj1 (any_seed_reachable 1 BrokerConfig_default _ (demo_reachable_seeded 1 ltac:(lia)))).
  - simpl. discriminate.
  - exact I.
  - eexists. split; [vm_compute; reflexivity|reflexivity].
  - discriminate.
Defined.

(** ["a"] is held and has a waiter. *)
Definition contended_ops : list Op :=
  [OpRegisterClient; OpRegisterClient;
   OpRequest 1 (lock_request "r1" "a" None) (named_grant 1);
   OpRequest 2 (lock_request "r2" "a" None) (named_grant 2)].

(** The world a list of operations leads to. *)
Definition world_after (ops : list Op) : World :=
  default (Broker_new BrokerConfig_default true)
    (run_state (run ops) (Broker_new BrokerConfig_default true)).

Definition nowait_request : Request.t :=
  Request.Lock "r3" (Some "a") None None None None false 0 false (Some false).

Definition after_nowait : World :=
  default (world_after contended_ops)
    (run_state (handle_request_with_grant_overrides 1 nowait_request (named_grant 3))
       (world_after contended_ops)).

Lemma nowait_never_queues_witness :
  queued after_nowait "a" = queued (world_after contended_ops) "a".
Proof.
  apply (nowait_never_queues 1 "r3" (Some "a") None None None None false 0 false (named_grant 3)).
  vm_compute. reflexivity.
Defined.

Lemma registration_is_fresh_witness :
  exists id w', register_client_with_id 2 (world_after contended_ops) = Done id w' /\
    clients (state (world_after contended_ops)) !! id = None.
Proof.
  destruct (registration_is_fresh (Some 2) (world_after contended_ops)) as (id & w' & H1 & _ & H2 & _).
  - vm_compute. discriminate.
  - vm_compute. reflexivity.
  - intros p [= <-]. vm_compute. discriminate.
  - exists id, w'. split; [exact H1|exact H2].
Defined.

(** ** Where the broker does less than its documentation says *)

(** [EndWrite] for a key the broker has no entry for is never answered,
    although the client is connected; [EndRead] for such a key is. *)
Theorem end_write_unknown_key_silent :
  run_state (handle_request_with_grant_overrides 1 (Request.EndWrite "r9" "nope") (named_grant 9))
    (world_after contended_ops) = Some (world_after contended_ops) /\
  connected 1 (world_after contended_ops).
Proof.
  split; [vm_compute; reflexivity|]. eexists. split; [vm_compute; reflexivity|reflexivity].
Qed.

(** Two waiters queue behind a mutex; then a third request raises [max]. *)
Definition raised_max_ops : list Op :=
  contended_ops ++
  [OpRegisterClient; OpRequest 3 (lock_request "r3" "a" (Some 3)) (named_grant 3)].

(** The holders of a key by lock uuid. *)
Definition holder_uuids (w : World) (k : string) : list string :=
  match locks (state w) !! k with
  | Some l => (map_to_list (exclusive_holders l)).*1
  | None => []
  end.

(** A request that raises a key's [max] is granted at once, past the waiters
    queued before it, and does not wake them although there is room for them:
    a slot stays free while a request is queued. *)
Theorem raised_max_leaves_waiters :
  let w := world_after raised_max_ops in
  (queued w "a").*1 = ["r2"%string] /\ length (holder_uuids w "a") = 2%nat /\
  (max <$> locks (state w) !! "a") = Some 3.
Proof. vm_compute. done. Qed.

(** A composite lock of which one key is released before the client leaves. *)
Definition leaked_key_ops : list Op :=
  [OpRegisterClient;
   OpRequest 1 (composite_request "r1" ["a"; "b"]) (named_grant 1);
   OpRequest 1 (unlock_request "r2" "a" "g1") (named_grant 2);
   OpDropClient 1].

(** When a client releases one key of a composite lock and then
    disconnects, the other key stays locked: the unlock removes the whole
    composite from the client's bookkeeping, so the disconnect does not find
    it. *)
Theorem partial_unlock_leaks :
  holder_uuids (world_after leaked_key_ops) "b" = ["g1"%string] /\
  clients (state (world_after leaked_key_ops)) = ∅.
Proof. vm_compute. done. Qed.
