(* ===== verification/BrokerGrants.v ===== *)
(** * A client that is told it has a lock has it

    Whatever operation the broker runs, every single-key, read or write grant
    it announces is backed by a holder in the state the operation ends in:
    operations first release and then grant, and granting only adds holders. *)

From S2P Require Import Prelude Monad Protocol Queue BrokerTypes BrokerState Broker BrokerOps.
From S2P Require Import BrokerSpec BrokerRuns BrokerTheorems.
From stdpp Require Import options.

Section grants.
Context `{LQ : LinkedQueueCrate} `{E : Env}.

(** ** Grants and holders *)

(** The hold a response announces. *)
Definition announces (r : Response.t) : option (RwHoldKind * string * string) :=
  match r with
  | Response.Lock _ key true _ (Some u) _ _ _ => Some (HoldExclusive, key, u)
  | Response.RegisterReadResult _ key _ _ true (Some u) _ => Some (HoldRead, key, u)
  | Response.RegisterWriteResult _ key _ _ true (Some u) _ => Some (HoldWrite, key, u)
  | _ => None
  end.

Definition event_announces (e : Event) : option (RwHoldKind * string * string) :=
  match e with
  | Observed r | Delivered _ r => announces r
  | Issued _ _ => None
  end.

(** The lock with id [u] is held on [key]. *)
Definition holds (w : World) (g : RwHoldKind * string * string) : Prop :=
  let '(kind, key, u) := g in
  exists l, locks (state w) !! key = Some l /\ lock_contains_uuid_for_kind l u kind = true.

(** [l'] has the holders of [l]. *)
Definition extends (l l' : LockState) : Prop :=
  forall kind u, lock_contains_uuid_for_kind l u kind = true ->
    lock_contains_uuid_for_kind l' u kind = true.

(** The trace grew and what it newly announces satisfies [P]. *)
Definition announced (P : RwHoldKind * string * string -> Prop) (w w' : World) : Prop :=
  exists new, trace w' = trace w ++ new /\
    forall e g, e ∈ new -> event_announces e = Some g -> P g.

(** Nothing is announced. *)
Definition silent (w w' : World) : Prop := announced (fun _ => False) w w'.

(** Holders are only added, and what is announced is held. *)
Definition adds (w w' : World) : Prop :=
  (forall g, holds w g -> holds w' g) /\ announced (holds w') w w'.

Lemma announced_mono (P Q : _ -> Prop) w w' :
  (forall g, P g -> Q g) -> announced P w w' -> announced Q w w'.
Proof. intros H (new & Ht & Hn). exists new. split; [done|]. eauto. Qed.

Lemma announced_trans P w1 w2 w3 : announced P w1 w2 -> announced P w2 w3 -> announced P w1 w3.
Proof.
  intros (n1 & H1 & H2) (n2 & H3 & H4). exists (n1 ++ n2). rewrite H3, H1, app_assoc.
  split; [done|]. intros e g [He|He]%elem_of_app; eauto.
Qed.

Lemma announced_same P w w' : trace w' = trace w -> announced P w w'.
Proof. intros Ht. exists []. rewrite app_nil_r. split; [done|]. by intros ?? []%elem_of_nil. Qed.

#[global] Instance silent_preorder : PreOrder silent.
Proof. split; [intros w; by apply announced_same|intros ???; apply announced_trans]. Qed.

#[global] Instance adds_preorder : PreOrder adds.
Proof.
  split; [intros w; split; [done|by apply announced_same]|].
  intros w1 w2 w3 [H1 H2] [H3 H4]. split; [auto|].
  eapply announced_trans; [|done]. eapply announced_mono; [|done]. auto.
Qed.

Lemma silent_adds w1 w2 w3 : silent w1 w2 -> adds w2 w3 -> announced (holds w3) w1 w3.
Proof. intros H1 [_ H2]. eapply announced_trans; [|done]. by eapply announced_mono; [|exact H1]. Qed.

(** ** Steps *)

Lemma same_locks_adds w w' :
  locks (state w') = locks (state w) -> silent w w' -> adds w w'.
Proof.
  intros Hl Hs. split.
  - intros [[kind key] u]. unfold holds. by rewrite Hl.
  - eapply announced_mono; [|done]. done.
Qed.

Lemma put_adds w key l l' :
  locks (state w) !! key = Some l -> extends l l' ->
  adds w (set_state (set_locks (<[key := l']> (locks (state w))) (state w)) w).
Proof.
  intros Hl He. split; [|by apply announced_same]. intros [[kind k] u] (l0 & H0 & Hc). unfold holds. simpl.
  destruct (decide (k = key)) as [->|Hne]; [|exists l0; by rewrite lookup_insert_ne].
  exists l'. rewrite lookup_insert_eq. split; [done|]. simplify_eq. by apply He.
Qed.

Lemma log_announced P e w : (forall g, event_announces e = Some g -> P g) -> announced P w (log e w).
Proof. intros He. exists [e]. split; [done|]. intros e' g ->%list_elem_of_singleton. apply He. Qed.

Lemma send_announced P c r w a w' :
  (forall g, announces r = Some g -> P g) -> send c r w = Done a w' ->
  announced P w w' /\ locks (state w') = locks (state w).
Proof.
  intros Hr [= _ <-]. split.
  - eapply announced_trans.
    + instantiate (1 := observe_response r w). unfold observe_response.
      case_match; [by apply log_announced|by apply announced_same].
    + unfold deliver. repeat case_match; try by apply announced_same. by apply log_announced.
  - unfold deliver, observe_response. by repeat case_match.
Qed.

(** Computations that leave the locks alone and announce nothing. *)
Definition calm (w w' : World) : Prop := locks (state w') = locks (state w) /\ silent w w'.

#[global] Instance grants_calm_preorder : PreOrder calm.
Proof.
  split; [intros w; by split|]. intros w1 w2 w3 [H1 H2] [H3 H4]. split; [congruence|by etrans].
Qed.

Lemma calm_read {A} (f : nat -> A) : keeps calm (fun w => Done (f (tick w)) (next_tick w)).
Proof. intros w a w' [= _ <-]. split; [done|by apply announced_same]. Qed.
Lemma calm_upd_state f : (forall s, locks (f s) = locks s) -> keeps calm (upd_state f).
Proof. intros Hf. apply keeps_modify; [apply _|]. intros w. split; [apply Hf|by apply announced_same]. Qed.
Lemma calm_instant_now : keeps calm instant_now.
Proof. apply (calm_read env_instant). Qed.
Lemma calm_uuid_or_new u : keeps calm (uuid_or_new u).
Proof. destruct u; [apply keeps_ret; apply _|apply (calm_read env_uuid)]. Qed.
Lemma calm_hash_order {A} (l : list A) : keeps calm (hash_order l).
Proof. apply (calm_read (fun n => env_hash_order n l)). Qed.
Lemma calm_get_state : keeps calm get_state.
Proof. apply keeps_gets, _. Qed.
Lemma calm_observe t : keeps calm (observe_fencing_token t).
Proof. apply calm_upd_state. intros s. by case_bool_decide. Qed.
Lemma calm_upd_client c f : keeps calm (upd_client c f).
Proof. by apply calm_upd_state. Qed.
Lemma calm_send c r : announces r = None -> keeps calm (send c r).
Proof.
  intros Hr w a w' Hd. destruct (send_announced (fun _ => False) c r w a w') as [H1 H2]; try done.
  by rewrite Hr.
Qed.
Lemma calm_schedule t u ks k c : keeps calm (schedule_deadline t u ks k c).
Proof. pose proof calm_instant_now. unfold schedule_deadline. keeps_split. by apply calm_upd_state. Qed.
Lemma calm_resolve_max c r : keeps calm (resolve_max c r).
Proof. pose proof calm_get_state. unfold resolve_max. keeps_split. by apply calm_upd_state. Qed.

#[local] Hint Resolve calm_instant_now calm_uuid_or_new calm_hash_order calm_get_state calm_observe
  calm_upd_client calm_schedule calm_resolve_max : keeps.
#[local] Hint Unfold track_holder track_pending untrack_pending : keeps.

Lemma calm_adds {A} (m : M World A) : keeps calm m -> keeps adds m.
Proof. apply keeps_mono. intros w w' [H1 H2]. by apply same_locks_adds. Qed.
Lemma calm_silent {A} (m : M World A) : keeps calm m -> keeps silent m.
Proof. apply keeps_mono. by intros w w' [_ H]. Qed.

(** ** Granting *)

(** [m] only adds, started where [key] has the lock [l]. *)
Definition adds_at {A} (key : string) (l : LockState) (m : M World A) : Prop :=
  forall w a w', locks (state w) !! key = Some l -> m w = Done a w' -> adds w w'.

(** [m] only adds, started where [g] is held. *)
Definition adds_if {A} (g : RwHoldKind * string * string) (m : M World A) : Prop :=
  forall w a w', holds w g -> m w = Done a w' -> adds w w'.

Lemma adds_at_keeps {A} key l (m : M World A) : keeps adds m -> adds_at key l m.
Proof. intros Hm w a w' _. apply Hm. Qed.

Lemma adds_if_keeps {A} g (m : M World A) : keeps adds m -> adds_if g m.
Proof. intros Hm w a w' _. apply Hm. Qed.

Lemma adds_if_bind {A B} g (m : M World A) (f : A -> M World B) :
  keeps adds m -> (forall a, adds_if g (f a)) -> adds_if g (m ≫= f).
Proof.
  intros Hm Hf w b w' Hg. unfold mbind, M_bind. destruct (m w) as [a w1| |] eqn:Hd; [|done..].
  intros Hd'. specialize (Hm _ _ _ Hd). etrans; [done|]. eapply Hf; [|done]. by apply Hm.
Qed.

Lemma adds_if_send_bind {A} g c r (m : M World A) :
  announces r = Some g -> keeps calm m -> adds_if g (send c r ;; m).
Proof.
  intros Hr Hm w a w' Hg. unfold mbind, M_bind. destruct (send c r w) as [[] w1| |] eqn:Hd; [|done..].
  intros Hd'. apply Hm in Hd' as [H1 H2].
  destruct (send_announced (holds w1) c r w tt w1) as [H3 H4]; [|done|].
  { intros g'. rewrite Hr. intros [= <-]. destruct g as [[kind key] u]. unfold holds. simpl in *.
    apply (f_equal (fun r => match r with Done _ w => locks (state w) | _ => ∅ end)) in Hd as Hl.
    simpl in Hl. unfold deliver, observe_response in Hl. rewrite <-Hl. by repeat case_match. }
  etrans; [|by apply same_locks_adds]. split; [|done].
  intros [[kind key] u]. unfold holds. by rewrite H4.
Qed.

Lemma adds_if_send g c r : announces r = Some g -> adds_if g (send c r).
Proof.
  intros Hr w a w' Hg Hd. apply (adds_if_send_bind g c r (mret tt) Hr) with (a := tt); [|done|].
  - apply keeps_ret, _.
  - unfold mbind, M_bind. by rewrite Hd; destruct a.
Qed.

(** Reading the lock, then working on it. *)
Lemma get_lock_adds {B} key (f : option LockState -> M World B) :
  keeps adds (f None) -> (forall l, adds_at key l (f (Some l))) -> keeps adds (get_lock key ≫= f).
Proof.
  intros Hn Hs w b w'. unfold get_lock, gets, mbind, M_bind.
  destruct (locks (state w) !! key) as [l|] eqn:Hl; [by apply Hs|apply Hn].
Qed.

Lemma lock_or_default_adds {B} key (f : LockState -> M World B) :
  (forall l, adds_at key l (f l)) -> keeps adds (lock_or_default key ≫= f).
Proof.
  intros Hf w b w' Hd. unfold lock_or_default, get_state, gets in Hd.
  unfold mbind, M_bind at 1 2 in Hd. cbv beta iota zeta in Hd.
  destruct (locks (state w) !! key) as [l|] eqn:Hl; [by eapply Hf|].
  unfold LockState_new, unix_time_ms, mbind, M_bind, mret, M_ret, put_lock, upd_state, modify in Hd.
  match type of Hd with f ?l0 ?w0 = _ => set (l1 := l0) in Hd; set (w1 := w0) in Hd end.
  assert (adds w w1) as H1.
  { split; [|by apply announced_same]. intros [[kind k] u] (l0 & H0 & Hc). exists l0. split; [|done].
    simpl. rewrite lookup_insert_ne; [done|]. intros ->. by rewrite Hl in H0. }
  etrans; [exact H1|]. eapply Hf; [|exact Hd]. simpl. by rewrite lookup_insert_eq.
Qed.

Lemma adds_at_put {B} key l l' (m : M World B) :
  extends l l' -> adds_at key l' m -> adds_at key l (put_lock key l' ;; m).
Proof.
  intros He Hm w b w' Hl Hd. etrans; [by apply (put_adds w key l l')|].
  eapply Hm; [|exact Hd]. simpl. by rewrite lookup_insert_eq.
Qed.

Lemma adds_at_put_last key l l' : extends l l' -> adds_at key l (put_lock key l').
Proof. intros He w b w' Hl [= _ <-]. by apply (put_adds w key l l'). Qed.

Lemma adds_at_calm {A B} key l (m : M World A) (f : A -> M World B) :
  keeps calm m -> (forall a, adds_at key l (f a)) -> adds_at key l (m ≫= f).
Proof.
  intros Hm Hf w b w' Hl. unfold mbind, M_bind. destruct (m w) as [a w1| |] eqn:Hd; [|done..].
  intros Hd'. destruct (Hm _ _ _ Hd) as [H1 H2]. etrans; [by apply same_locks_adds|].
  eapply Hf; [|done]. by rewrite H1.
Qed.

Lemma adds_at_grant {B} kind u key l l' t (m : M World B) :
  extends l l' -> lock_contains_uuid_for_kind l' u kind = true -> adds_if (kind, key, u) m ->
  adds_at key l (put_granted_lock key t l' ;; m).
Proof.
  intros He Hc Hm w b w' Hl Hd.
  match type of Hd with _ = Done b w' => unfold put_granted_lock, mbind, M_bind, modify in Hd end.
  match type of Hd with m ?w0 = _ => set (w1 := w0) in Hd end.
  assert (adds w w1) as H1.
  { etrans; [by apply (put_adds w key l l')|]. apply same_locks_adds; [done|].
    by apply log_announced. }
  etrans; [exact H1|]. eapply Hm; [|exact Hd]. exists l'. simpl. by rewrite lookup_insert_eq.
Qed.

(** What keeps or adds holders. *)
Lemma extends_refl l l' :
  exclusive_holders l' = exclusive_holders l -> readers l' = readers l -> writer l' = writer l ->
  extends l l'.
Proof. intros H1 H2 H3 [] u; simpl; by rewrite ?H1, ?H2, ?H3. Qed.

Lemma extends_exclusive l l' u h :
  exclusive_holders l' = <[u := h]> (exclusive_holders l) -> readers l' = readers l -> writer l' = writer l ->
  extends l l' /\ lock_contains_uuid_for_kind l' u HoldExclusive = true.
Proof.
  intros H1 H2 H3. split; [|simpl; apply bool_decide_eq_true; rewrite H1, lookup_insert_eq; by eexists].
  intros [] v; simpl; rewrite ?H2, ?H3; try done. rewrite !bool_decide_eq_true, H1, lookup_insert_is_Some'. auto.
Qed.

Lemma extends_reader l l' u h :
  readers l' = <[u := h]> (readers l) -> exclusive_holders l' = exclusive_holders l -> writer l' = writer l ->
  extends l l' /\ lock_contains_uuid_for_kind l' u HoldRead = true.
Proof.
  intros H1 H2 H3. split; [|simpl; apply bool_decide_eq_true; rewrite H1, lookup_insert_eq; by eexists].
  intros [] v; simpl; rewrite ?H2, ?H3; try done. rewrite !bool_decide_eq_true, H1, lookup_insert_is_Some'. auto.
Qed.

Lemma extends_writer l l' h :
  writer l = None -> writer l' = Some h -> exclusive_holders l' = exclusive_holders l -> readers l' = readers l ->
  extends l l' /\ lock_contains_uuid_for_kind l' (rh_lock_uuid h) HoldWrite = true.
Proof.
  intros H1 H2 H3 H4. split; [|simpl; rewrite H2; by apply bool_decide_eq_true].
  intros [] v; simpl; rewrite ?H3, ?H4, ?H1; done.
Qed.

Lemma token_lock forced l :
  exclusive_holders (next_or_forced_fencing_token forced l).2 = exclusive_holders l /\
  readers (next_or_forced_fencing_token forced l).2 = readers l /\
  writer (next_or_forced_fencing_token forced l).2 = writer l.
Proof. by destruct forced. Qed.

Lemma adds_calm_bind {A B} (m : M World A) (f : A -> M World B) :
  keeps calm m -> (forall a, keeps adds (f a)) -> keeps adds (m ≫= f).
Proof. intros Hm Hf. apply keeps_bind; [apply _|by apply calm_adds|done]. Qed.

(** Bookkeeping up to the announcement. *)
Ltac to_announcement :=
  repeat (apply adds_if_bind; [apply calm_adds; unfold track_holder, untrack_pending, track_pending;
                               solve [auto with keeps]|intros []]).

(** A grant of [kind] under the id [u] on a lock [l] that [lem] extends. *)
Ltac grants kind u l lem :=
  eapply (adds_at_grant kind u _ l);
    [eapply lem; simpl; by eauto with f_equal|eapply (lem l); simpl; by eauto with f_equal|].

Lemma adds_maybe_mark_idle key : keeps adds (maybe_mark_idle key).
Proof.
  unfold maybe_mark_idle. apply get_lock_adds; [apply keeps_ret, _|]. intros l.
  repeat case_match; try (apply adds_at_keeps, keeps_ret, _).
  - apply adds_at_calm; [auto with keeps|]. intros now. apply adds_at_put_last. by apply extends_refl.
  - apply adds_at_put_last. by apply extends_refl.
Qed.

Lemma adds_grant_exclusive key l : adds_at key l (grant_queued_exclusive key l).
Proof.
  unfold grant_queued_exclusive. destruct (LinkedQueue.pop_front (queue l)) as [[[u0 head]|] q]; [|done].
  pose proof (token_lock (pr_grant_fencing_seed head) (set_queue q l)) as (H1 & H2 & H3).
  destruct (next_or_forced_fencing_token _ _) as [t l1]. simpl in *.
  apply adds_at_calm; [auto with keeps|]. intros u.
  grants HoldExclusive u l extends_exclusive.
  to_announcement. apply adds_if_send_bind; [done|apply keeps_ret, _].
Qed.

Lemma adds_grant_reader key l : adds_at key l (grant_queued_reader key l).
Proof.
  unfold grant_queued_reader. destruct (LinkedQueue.pop_front (queue l)) as [[[u0 head]|] q]; [|done].
  pose proof (token_lock (pr_grant_fencing_seed head) (set_queue q l)) as (H1 & H2 & H3).
  destruct (next_or_forced_fencing_token _ _) as [t l1]. simpl in *.
  apply adds_at_calm; [auto with keeps|]. intros u.
  grants HoldRead u l extends_reader.
  to_announcement. apply adds_if_send_bind; [done|apply keeps_ret, _].
Qed.

Lemma adds_grant_writer key l : writer l = None -> adds_at key l (grant_queued_writer key l).
Proof.
  intros Hw. unfold grant_queued_writer. destruct (LinkedQueue.pop_front (queue l)) as [[[u0 head]|] q]; [|done].
  pose proof (token_lock (pr_grant_fencing_seed head) (set_queue q l)) as (H1 & H2 & H3).
  destruct (next_or_forced_fencing_token _ _) as [t l1]. simpl in *.
  apply adds_at_calm; [auto with keeps|]. intros u.
  destruct (extends_writer l (set_writer (Some (mkRwHolder (pr_client head) t u)) l1)
    (mkRwHolder (pr_client head) t u)) as [He Hc]; try done.
  eapply (adds_at_grant HoldWrite u); [exact He|exact Hc|].
  to_announcement. apply adds_if_send_bind; [done|apply keeps_ret, _].
Qed.

Lemma adds_try_grant_composite tgn key :
  (forall k, keeps adds (tgn k)) -> keeps adds (try_grant_composite tgn key).
Proof.
  intros Htgn. unfold try_grant_composite. apply get_lock_adds; [apply keeps_ret, _|]. intros l.
  assert (forall b : bool, adds_at key l (mret b)) as Hret by (intros; apply adds_at_keeps, keeps_ret, _).
  destruct (LinkedQueue.front (queue l)) as [[? head]|]; [|apply Hret].
  destruct (pr_kind head); try apply Hret.
  destruct remaining_keys as [|target ?]; [apply Hret|]. case_bool_decide; [cbn [negb]|apply Hret].
  case_match; [apply Hret|]. destruct (LinkedQueue.pop_front (queue l)) as [[[u0 pop]|] q]; [|done].
  destruct (pr_kind pop) as [| | |all_keys' remaining granted tokens cu];
    try (apply adds_at_put; [by apply extends_refl|apply adds_at_keeps, keeps_ret, _]).
  match goal with |- context [next_or_forced_fencing_token ?s ?l0] =>
    pose proof (token_lock s l0) as (H1 & H2 & H3); destruct (next_or_forced_fencing_token s l0) as [t l1] end.
  simpl in *. grants HoldExclusive cu l extends_exclusive.
  to_announcement. apply adds_if_keeps. destruct (tail remaining) as [|next_key ?].
  - apply adds_calm_bind; [auto with keeps|]. intros []. apply adds_calm_bind; [by apply calm_send|].
    intros []. apply keeps_ret, _.
  - apply lock_or_default_adds. intros l2. apply adds_at_put; [by apply extends_refl|].
    apply adds_at_keeps, adds_calm_bind; [unfold track_pending; auto with keeps|]. intros [].
    apply keeps_bind; [apply _|apply Htgn|]. intros []. apply keeps_ret, _.
Qed.

Lemma adds_try_grant_next_fuel fuel key : keeps adds (try_grant_next_fuel fuel key).
Proof.
  revert key. induction fuel as [|fuel IH]; intros key; simpl; [apply keeps_out_of_fuel, _|].
  apply keeps_bind; [apply _| |intros []; [apply IH|apply adds_maybe_mark_idle]].
  unfold try_grant_once. apply get_lock_adds; [apply keeps_ret, _|]. intros l.
  assert (forall b : bool, adds_at key l (mret b)) as Hret by (intros; apply adds_at_keeps, keeps_ret, _).
  destruct (LinkedQueue.front (queue l)) as [[? head]|]; [|apply Hret]. destruct (pr_kind head).
  - case_match; [apply Hret|apply adds_grant_exclusive].
  - case_match; [apply Hret|apply adds_grant_reader].
  - destruct (writer_blocked l) eqn:Hb; [apply Hret|]. apply adds_grant_writer. unfold writer_blocked in Hb.
    rewrite !orb_false_iff, bool_decide_eq_false in Hb. by destruct Hb as [[?%dec_stable _] _].
  - by apply adds_at_keeps, adds_try_grant_composite.
Qed.

Lemma adds_try_grant_next key : keeps adds (try_grant_next key).
Proof. intros w. apply adds_try_grant_next_fuel. Qed.

(** ** The handlers *)

Lemma adds_exclusive c u k pid ttl mx keep force wait go :
  keeps adds (handle_exclusive_lock c u k pid ttl mx keep force wait go).
Proof.
  unfold handle_exclusive_lock. apply adds_calm_bind; [auto with keeps|]. intros s.
  apply adds_calm_bind; [auto with keeps|]. intros cap. apply lock_or_default_adds. intros l.
  apply adds_at_put; [by apply extends_refl|]. cbv zeta. case_match.
  - match goal with |- context [next_or_forced_fencing_token ?s ?l0] =>
      pose proof (token_lock s l0) as (H1 & H2 & H3); destruct (next_or_forced_fencing_token s l0) as [t l1] end.
    simpl in *. apply adds_at_calm; [auto with keeps|]. intros lu.
    eapply (adds_at_grant HoldExclusive lu _ (set_max cap l));
      [eapply extends_exclusive; simpl; by eauto with f_equal
      |eapply (extends_exclusive l); simpl; by eauto with f_equal|].
    apply adds_if_bind; [apply calm_adds; auto with keeps|intros []].
    apply adds_if_bind; [apply adds_maybe_mark_idle|intros []]. to_announcement. by apply adds_if_send.
  - case_match.
    + apply adds_at_keeps, get_lock_adds; [apply calm_adds; by apply calm_send|].
      intros. apply adds_at_keeps, calm_adds. by apply calm_send.
    + apply adds_at_put; [by apply extends_refl|]. apply adds_at_keeps.
      apply keeps_bind; [apply _|apply adds_maybe_mark_idle|]. intros [].
      apply adds_calm_bind; [unfold track_pending; auto with keeps|]. intros [].
      by apply calm_adds, calm_send.
Qed.

Lemma adds_register_read c u k go : keeps adds (handle_register_read c u k go).
Proof.
  unfold handle_register_read. apply lock_or_default_adds. intros l. case_match.
  - match goal with |- context [next_or_forced_fencing_token ?s ?l0] =>
      pose proof (token_lock s l0) as (H1 & H2 & H3); destruct (next_or_forced_fencing_token s l0) as [t l1] end.
    simpl in *. apply adds_at_calm; [auto with keeps|]. intros lu. grants HoldRead lu l extends_reader.
    apply adds_if_bind; [apply calm_adds; auto with keeps|intros []].
    apply adds_if_bind; [apply adds_maybe_mark_idle|intros []]. to_announcement. by apply adds_if_send.
  - apply adds_at_put; [by apply extends_refl|]. apply adds_at_keeps.
    apply keeps_bind; [apply _|apply adds_maybe_mark_idle|]. intros [].
    apply adds_calm_bind; [unfold track_pending; auto with keeps|]. intros [].
    by apply calm_adds, calm_send.
Qed.

Lemma adds_register_write c u k go : keeps adds (handle_register_write c u k go).
Proof.
  unfold handle_register_write. apply lock_or_default_adds. intros l.
  destruct (bool_decide (writer l = None) && _ && _) eqn:Hf.
  - match goal with |- context [next_or_forced_fencing_token ?s ?l0] =>
      pose proof (token_lock s l0) as (H1 & H2 & H3); destruct (next_or_forced_fencing_token s l0) as [t l1] end.
    simpl in *. apply adds_at_calm; [auto with keeps|]. intros lu.
    rewrite !andb_true_iff, bool_decide_eq_true in Hf. destruct Hf as [[Hw _] _].
    destruct (extends_writer l (set_writer (Some (mkRwHolder c t lu)) l1) (mkRwHolder c t lu))
      as [He Hc]; try done.
    eapply (adds_at_grant HoldWrite lu); [exact He|exact Hc|].
    apply adds_if_bind; [apply calm_adds; auto with keeps|intros []].
    apply adds_if_bind; [apply adds_maybe_mark_idle|intros []]. to_announcement. by apply adds_if_send.
  - apply adds_at_put; [by apply extends_refl|]. apply adds_at_keeps.
    apply keeps_bind; [apply _|apply adds_maybe_mark_idle|]. intros [].
    apply adds_calm_bind; [unfold track_pending; auto with keeps|]. intros [].
    by apply calm_adds, calm_send.
Qed.

Lemma adds_composite r : keeps adds (handle_composite_lock r).
Proof.
  destruct r as [c u ks pid ttl wait go]. unfold handle_composite_lock.
  case_match; [by apply calm_adds, calm_send|]. cbv zeta.
  apply adds_calm_bind; [auto with keeps|]. intros s. apply adds_calm_bind; [auto with keeps|]. intros cu.
  case_match; [|case_match; [by apply calm_adds, calm_send|]].
  - apply keeps_bind; [apply _| |intros [tokens max_token]].
    + apply keeps_for_fold; [apply _|]. intros [tokens max_token] [idx k]. unfold grant_composite_member.
      apply lock_or_default_adds. intros l.
      match goal with |- context [next_or_forced_fencing_token ?s ?l0] =>
        pose proof (token_lock s l0) as (H1 & H2 & H3); destruct (next_or_forced_fencing_token s l0) as [t l1] end.
      simpl in *. grants HoldExclusive cu l extends_exclusive. apply adds_if_keeps, keeps_ret, _.
    + apply adds_calm_bind; [auto with keeps|]. intros [].
      apply keeps_bind; [apply _|apply keeps_for_each; [apply _|apply adds_maybe_mark_idle]|]. intros [].
      apply adds_calm_bind; [unfold track_holder; auto with keeps|]. intros [].
      apply adds_calm_bind; [auto with keeps|]. intros []. by apply calm_adds, calm_send.
  - destruct (dedup_keys (sort_keys ks)); [apply keeps_panic, _|]. apply lock_or_default_adds. intros l'.
    apply adds_at_put; [by apply extends_refl|]. apply adds_at_keeps.
    apply keeps_bind; [apply _|apply adds_maybe_mark_idle|]. intros [].
    apply adds_calm_bind; [unfold track_pending; auto with keeps|]. intros [].
    apply adds_calm_bind; [by apply calm_send|]. intros []. apply adds_try_grant_next.
Qed.

(** Operations that release first. *)
Definition tells {A} (m : M World A) : Prop :=
  forall w a w', m w = Done a w' -> announced (holds w') w w'.

Lemma tells_adds {A} (m : M World A) : keeps adds m -> tells m.
Proof. intros Hm w a w' Hd. by apply (Hm _ _ _ Hd). Qed.

Lemma tells_bind {A B} (m : M World A) (f : A -> M World B) :
  keeps silent m -> (forall a, tells (f a)) -> tells (m ≫= f).
Proof.
  intros Hm Hf w b w'. unfold mbind, M_bind. destruct (m w) as [a w1| |] eqn:Hd; [|done..]. intros Hd'.
  eapply announced_trans; [|by eapply Hf]. eapply announced_mono; [|by apply (Hm _ _ _ Hd)]. done.
Qed.

Lemma silent_put_lock k l : keeps silent (put_lock k l).
Proof. apply keeps_modify; [apply _|]. intros w. by apply announced_same. Qed.
Lemma silent_upd_state f : keeps silent (upd_state f).
Proof. apply keeps_modify; [apply _|]. intros w. by apply announced_same. Qed.
Lemma silent_get_lock k : keeps silent (get_lock k).
Proof. apply keeps_gets, _. Qed.
Lemma silent_get_state : keeps silent get_state.
Proof. apply keeps_gets, _. Qed.
Lemma silent_upd_client c f : keeps silent (upd_client c f).
Proof. apply silent_upd_state. Qed.
Lemma silent_hash_order {A} (l : list A) : keeps silent (hash_order l).
Proof. apply calm_silent; auto with keeps. Qed.
#[local] Hint Resolve silent_put_lock silent_upd_state silent_get_lock silent_get_state silent_upd_client
  silent_hash_order : keeps.
Lemma silent_alter_lock k f : keeps silent (alter_lock k f).
Proof. unfold alter_lock. keeps_split. Qed.
#[local] Hint Resolve silent_alter_lock : keeps.

Lemma adds_grant_all {A} (ks : list string) (m : M World A) :
  keeps adds m -> keeps adds (for_each ks try_grant_next ;; m).
Proof.
  intros Hm. apply keeps_bind; [apply _| |by intros []].
  apply keeps_for_each; [apply _|apply adds_try_grant_next].
Qed.

Lemma tells_unlock c u ks lu force : tells (handle_unlock c u ks lu force).
Proof.
  unfold handle_unlock. case_match; [by apply tells_adds, calm_adds, calm_send|].
  apply tells_bind; [auto with keeps|]. intros s.
  assert (forall target (can : ClientId -> bool), keeps silent (for_fold ks (mkUnlockAcc false 0 [] [] false)
    (unlock_key target can))) as Hfold.
  { intros target can. apply keeps_for_fold; [apply _|]. intros acc k. unfold unlock_key, unlock_wipe.
    keeps_split. }
  destruct lu as [lu|], force; try by apply tells_adds, calm_adds, calm_send.
  all: apply tells_bind; [apply Hfold|]; intros acc; apply tells_bind; [keeps_split|]; intros [];
    apply tells_adds, adds_grant_all, calm_adds, calm_send; done.
Qed.

Lemma tells_end_read c u k : tells (handle_end_read c u k).
Proof.
  unfold handle_end_read. apply tells_bind; [auto with keeps|]. intros [l|]; [|by apply tells_adds, calm_adds, calm_send].
  apply tells_bind; [auto with keeps|]. intros rs. apply tells_bind; [keeps_split|]. intros [].
  apply tells_bind; [auto with keeps|]. intros l'.
  apply tells_adds, adds_calm_bind; [by apply calm_send|]. intros []. apply adds_try_grant_next.
Qed.

Lemma silent_send c r : announces r = None -> keeps silent (send c r).
Proof. intros Hr. by apply calm_silent, calm_send. Qed.

Lemma tells_end_write c u k : tells (handle_end_write c u k).
Proof.
  unfold handle_end_write. pose proof silent_send. apply tells_bind; [auto with keeps|]. intros o.
  apply tells_bind; [keeps_split; done|]. intros []. apply tells_adds, adds_try_grant_next.
Qed.

Lemma tells_request c r go : tells (handle_request_with_grant_overrides c r go).
Proof.
  pose proof (fun c r H => tells_adds _ (calm_adds _ (calm_send c r H))) as Hsend.
  destruct r as [| |u k ks| u k ks| | | | | | |]; unfold handle_request_with_grant_overrides; try (by apply Hsend).
  - case_bool_decide; [destruct ks; by apply Hsend|].
    destruct k, ks; try (by apply Hsend); apply tells_adds; [apply adds_exclusive|apply adds_composite].
  - destruct k, ks; try (by apply Hsend); apply tells_unlock.
  - apply tells_adds, adds_register_read.
  - apply tells_adds, adds_register_write.
  - apply tells_end_read.
  - apply tells_end_write.
  - unfold handle_lock_info. apply tells_bind; [auto with keeps|]. intros [l|]; [|by apply Hsend].
    apply tells_bind; [auto with keeps|]. intros excl. apply tells_bind; [auto with keeps|]. intros rds.
    by apply Hsend.
  - apply tells_bind; [auto with keeps|]. intros s. apply tells_bind; [auto with keeps|]. intros ks. by apply Hsend.
Qed.

(** ** Disconnection and the sweep *)

Lemma tells_drop_client c : tells (drop_client c).
Proof.
  unfold drop_client. apply tells_bind; [auto with keeps|]. intros s.
  destruct (clients s !! c) as [h|].
  - apply tells_bind; [auto with keeps|]. intros []. apply tells_bind; [keeps_split|]. intros [].
    apply tells_bind; [auto with keeps|]. intros held.
    apply tells_bind; [unfold drop_held_lock, drop_held_key; keeps_split|]. intros touched.
    apply tells_bind; [auto with keeps|]. intros ks.
    apply tells_adds, keeps_for_each; [apply _|apply adds_try_grant_next].
  - unfold drop_unregistered_client. apply tells_bind; [auto with keeps|]. intros s'.
    apply tells_bind; [auto with keeps|]. intros ls. apply tells_bind; [unfold drop_scan_lock; keeps_split|].
    intros scan. do 4 (apply tells_bind; [keeps_split|]; intros []).
    apply tells_bind; [auto with keeps|]. intros ks. apply tells_adds, keeps_for_each; [apply _|]. intros k.
    apply keeps_bind; [apply _|apply adds_maybe_mark_idle|]. intros []. apply adds_try_grant_next.
Qed.

(** An idle lock has no holders, so pruning loses none. *)
Lemma idle_holds_nothing l u kind : is_idle l = true -> lock_contains_uuid_for_kind l u kind = false.
Proof.
  unfold is_idle. rewrite !andb_true_iff, !bool_decide_eq_true. intros [[[H1 H2] H3] _].
  destruct kind; simpl; rewrite ?H1, ?H2, ?H3, ?lookup_empty; try done; by apply bool_decide_eq_false_2; intros [].
Qed.

Lemma prune_adds doomed : forall w w',
  (forall k, k ∈ doomed -> exists l, locks (state w) !! k = Some l /\ is_idle l = true) ->
  for_each doomed (fun k => upd_state (fun s => set_locks (delete k (locks s)) s)) w = Done tt w' ->
  adds w w'.
Proof.
  assert (forall ks w w', (forall k l, k ∈ ks -> locks (state w) !! k = Some l -> is_idle l = true) ->
    for_each ks (fun k => upd_state (fun s => set_locks (delete k (locks s)) s)) w = Done tt w' ->
    adds w w') as Hrun.
  { induction ks as [|k ks IH]; intros w w' Hidle Hd; [by injection Hd as <-|].
    assert (adds w (set_state (set_locks (delete k (locks (state w))) (state w)) w)) as H1.
    { split; [|by apply announced_same]. intros [[kind key] u] (l & Hl & Hc). exists l. split; [|done].
      simpl. rewrite lookup_delete_ne; [done|]. intros ->.
      rewrite (idle_holds_nothing l u kind) in Hc; [done|]. eapply Hidle; [by left|done]. }
    etrans; [exact H1|]. eapply IH; [|exact Hd]. intros k' l Hk' Hl. simpl in Hl.
    apply lookup_delete_Some in Hl as [_ Hl]. eapply Hidle; [by right|done]. }
  intros w w' Hidle. apply Hrun. intros k l Hk Hl. destruct (Hidle k Hk) as (l' & Hl' & ?). by simplify_eq.
Qed.

Lemma adds_prune now : keeps adds (prune_idle_keys now).
Proof.
  intros w a w' Hd. unfold prune_idle_keys in Hd.
  unfold get_state, gets, mbind, M_bind at 1 in Hd. cbv beta iota zeta in Hd.
  destruct (duration_is_zero _); [injection Hd as _ <-; reflexivity|].
  destruct (instant_checked_sub now _) as [cutoff|]; [|injection Hd as _ <-; reflexivity].
  unfold hash_order, mbind, M_bind at 1 in Hd. cbv beta iota in Hd.
  match type of Hd with context [for_each ?l0 _] => set (doomed := l0) in Hd end.
  assert (forall k, k ∈ doomed -> exists l, locks (state w) !! k = Some l /\ is_idle l = true) as Hdoomed.
  { intros k (kl & -> & Hin)%list_elem_of_fmap. apply list_elem_of_filter in Hin as [Hp Hin].
    rewrite env_hash_order_perm in Hin. destruct kl as [k l]. apply elem_of_map_to_list in Hin.
    exists l. split; [done|]. unfold prunable in Hp. simpl in Hp. case_match; [|done].
    by apply andb_true_iff in Hp as [_ ?]. }
  clearbody doomed. unfold mbind, M_bind in Hd.
  destruct (for_each doomed _ _) as [[] w2| |] eqn:He; [|done..].
  assert (adds (next_tick w) w2) as H2 by by eapply prune_adds.
  injection Hd as _ <-. trans w2; [|by apply same_locks_adds; [|apply announced_same]].
  etrans; [|exact H2]. by apply same_locks_adds; [|apply announced_same].
Qed.

Lemma tells_tick now : tells (tick_ttl now).
Proof.
  unfold tick_ttl. apply tells_bind; [auto with keeps|]. intros s.
  apply tells_bind; [unfold expire_deadline; keeps_split|]. intros [evicted n].
  apply tells_bind; [auto with keeps|]. intros ks. apply tells_adds, adds_grant_all.
  apply keeps_bind; [apply _|apply adds_prune|]. intros []. apply keeps_ret, _.
Qed.

(** An operation that does not itself carry a grant. *)
Definition op_silent (op : Op) : Prop :=
  match op with OpTrySend _ r => announces r = None | _ => True end.

Lemma tells_op op : op_silent op -> tells (exec_op op).
Proof.
  assert (forall {A} (m : M World A), tells m -> tells (m ;; mret tt)) as Hret.
  { intros A m Hm w a w' Hd. unfold mbind, M_bind in Hd. destruct (m w) as [b w1| |] eqn:Hd1; [|done..].
    injection Hd as _ <-. by eapply Hm. }
  assert (forall {A} (m : M World A), keeps silent m -> tells m) as Hsil.
  { intros A m Hm w a w' Hd. eapply announced_mono; [|by apply (Hm _ _ _ Hd)]. done. }
  intros Hop. destruct op as [|id|c|c r go|now|c u|u|c r|c]; simpl.
  - apply Hret, Hsil. unfold register_client, next_available_client_id, insert_client_handle. keeps_split.
  - apply Hret, Hsil. unfold register_client_with_id, next_available_client_id, insert_client_handle. keeps_split.
  - apply tells_drop_client.
  - apply tells_request.
  - apply Hret, tells_tick.
  - apply Hsil. unfold detach_lock_from_client. auto with keeps.
  - apply Hsil. unfold detach_lock_owner. keeps_split.
  - apply Hret, Hsil. unfold try_send. keeps_split.
    apply keeps_modify; [apply _|]. intros w. unfold deliver. repeat case_match; try by apply announced_same.
    apply log_announced. simpl in *. by rewrite Hop.
  - apply Hsil. auto with keeps.
Qed.


End grants.

(** ** A composite that lost a key *)

Section lost_key.
#[local] Existing Instance list_queue.
#[local] Existing Instance demo_env.

(** Client 1 holds "b"; client 2 asks for "a" and "b", claims "a" and waits;
    client 3 releases "a" by force and takes it; client 1 releases "b". *)
Definition lost_key_ops : list Op :=
  [OpRegisterClient; OpRegisterClient; OpRegisterClient;
   OpRequest 1 (lock_request "r1" "b" None) (named_grant 1);
   OpRequest 2 (composite_request "r2" ["a"; "b"]) (named_grant 2);
   OpRequest 3 (Request.Unlock "r3" (Some "a"%string) None None true) no_overrides;
   OpRequest 3 (lock_request "r4" "a" None) (named_grant 4);
   OpRequest 1 (unlock_request "r5" "b" "g1") no_overrides].

(** The clients that hold "a" in the end, and whether client 2 was told that it
    holds "a" and "b". *)
Definition lost_key_outcome : option (list ClientId * bool) :=
  w ← run_state (run lost_key_ops) (Broker_new BrokerConfig_default false);
  l ← locks (state w) !! "a"%string;
  Some ((fun h => eh_client h.2) <$> map_to_list (exclusive_holders l),
        existsb (fun e => match e with
                          | Delivered 2 (Response.CompositeLock "r2" ["a"; "b"] true (Some _) _ _) => true
                          | _ => false
                          end%string) (trace w)).

(** A composite waiter whose claimed key is released by force is still
    granted: client 2 is told that it holds "a" and "b" while "a" is held by
    client 3, because the release does not cancel the waiter and the final
    grant does not look at the keys claimed before. *)
Theorem composite_told_lost_key : lost_key_outcome = Some ([3], true).
Proof. vm_compute. reflexivity. Qed.

End lost_key.

