(* ===== verification/Wire.v ===== *)
(** * Frames on a stream

    The JSON-lines framing shared by the broker's TCP and Unix-socket listener
    ([read_frame_bounded] of [src/src/server.rs]) and the client library
    ([read_response_frame_bounded], [trim_response_frame] and [write_request]
    of [src/src/client.rs]).  A socket is the list of what its reads bring; the
    reference definition [next_frame] sees only the bytes, not how they were
    cut. *)

From S2P Require Import Prelude Text Monad Protocol.
From stdpp Require Import options.

Definition CARRIAGE_RETURN : Z := 13.

(** ** Reading *)

(** [std::io::Error]: its kind, as far as the code looks at it, and text. *)
Inductive IoErrorKind : Type := InvalidData | OtherErrorKind.

Record IoError : Type := mkIoError {
  io_kind : IoErrorKind;
  io_message : string;
}.

(** What a read of the socket brings: at least one byte, or an error; after
    the last arrival the stream has ended. *)
Inductive Arrival : Type :=
| Arrived (b : Z) (bs : bytes)
| ReadFails (err : IoError).

(** [tokio::io::BufReader]: the bytes read and not yet consumed. *)
Record Reader : Type := mkReader {
  rd_buffer : bytes;
  rd_arrivals : list Arrival;
}.

(** [AsyncBufReadExt::fill_buf] *)
Definition fill_buf : M Reader (IoError + bytes) := fun r =>
  match rd_buffer r, rd_arrivals r with
  | [], Arrived b bs :: arrivals => Done (inr (b :: bs)) (mkReader (b :: bs) arrivals)
  | [], ReadFails err :: arrivals => Done (inl err) (mkReader [] arrivals)
  | buffer, _ => Done (inr buffer) r
  end.

(** [AsyncBufReadExt::consume] *)
Definition consume (amt : nat) : M Reader unit :=
  modify (fun r => mkReader (drop amt (rd_buffer r)) (rd_arrivals r)).

(** [chunk.iter().position(|&b| b == b'\n')] *)
Fixpoint newline_position (b : bytes) : option nat :=
  match b with
  | [] => None
  | x :: b => if bool_decide (x = NEWLINE) then Some 0%nat else S <$> newline_position b
  end.

Definition frame_too_large (what : string) (max_bytes : Z) : IoError :=
  mkIoError InvalidData (what +:+ " exceeds " +:+ pretty max_bytes +:+ " bytes")%string.

(** The loop of the two framers, which differ in the text of the error; the
    result and the contents of [buf]. *)
Fixpoint read_frame_loop (fuel : nat) (what : string) (max_bytes : Z) (buf : bytes)
    : M Reader ((IoError + bool) * bytes) :=
  match fuel with
  | O => out_of_fuel
  | S fuel =>
      res ← fill_buf;
      match res with
      | inl err => mret (inl err, buf)
      | inr [] => mret (inr (negb (bool_decide (buf = []))), buf)
      | inr chunk =>
          match newline_position chunk with
          | Some idx =>
              let n := (idx + 1)%nat in
              if bool_decide (max_bytes < Z.of_nat (length buf + n)) then
                consume n ;; mret (inl (frame_too_large what max_bytes), buf)
              else consume n ;; mret (inr true, buf ++ take n chunk)
          | None =>
              let n := length chunk in
              if bool_decide (max_bytes < Z.of_nat (length buf + n)) then
                consume n ;; mret (inl (frame_too_large what max_bytes), buf)
              else consume n ;; read_frame_loop fuel what max_bytes (buf ++ chunk)
          end
      end
  end.

(** The iterations that can follow: one for the buffer, one for every arrival,
    one for the end. *)
Definition read_frame (what : string) (max_bytes : Z) : M Reader ((IoError + bool) * bytes) :=
  r ← get; read_frame_loop (2 + length (rd_arrivals r)) what max_bytes [].

(** [read_frame_bounded] of the server *)
Definition read_frame_bounded (max_bytes : Z) : M Reader ((IoError + bool) * bytes) :=
  read_frame "frame" max_bytes.

(** [read_response_frame_bounded] of the client *)
Definition read_response_frame_bounded (max_bytes : Z) : M Reader ((IoError + bool) * bytes) :=
  read_frame "response frame" max_bytes.

Definition is_line_end (b : Z) : bool :=
  bool_decide (b = NEWLINE) || bool_decide (b = CARRIAGE_RETURN).

(** [trim_response_frame], and the trimming in [handle_stream] *)
Definition trim_frame (buf : bytes) : bytes := reverse (drop_while is_line_end (reverse buf)).

(** ** Messages *)

(** [serde_json] for the two message types, and the derived [Debug] text of a
    response: they are not part of the sources. *)
Class WireCodec : Type := {
  request_to_json : Request.t -> string + bytes;
  request_of_json : bytes -> string + Request.t;
  response_to_json : Response.t -> string + bytes;
  response_of_json : bytes -> string + Response.t;
  response_debug : Response.t -> string;
}.

(** A text that can be a line: it is not empty and has no line break. *)
Definition is_line (b : bytes) : Prop := b <> [] /\ Forall (fun x => is_line_end x = false) b.

(** The [max] of a request is of its type, [u32]. *)
Definition request_typed (r : Request.t) : Prop :=
  match r with
  | Request.Lock _ _ _ _ _ max_ _ _ _ _ => forall m, max_ = Some m -> u32_range m
  | _ => True
  end.

(** What the protocol relies on: every message has a compact text, which is one
    line (control characters are escaped) and parses back; what is decoded is
    of its type. *)
Class WireCodecLaws `{WC : WireCodec} : Prop := {
  request_text r : request_typed r ->
    exists b, request_to_json r = inr b /\ request_of_json b = inr r /\ is_line b;
  request_decoded_typed b r : request_of_json b = inr r -> request_typed r;
  response_text r : exists b, response_to_json r = inr b /\ response_of_json b = inr r /\ is_line b;
}.

(** A message on the wire ends with a newline. *)
Definition frame_bytes (payload : bytes) : bytes := payload ++ [NEWLINE].

(** ** The reference *)

(** Everything a reader still brings: the bytes up to the end or the first
    error, and what follows them. *)
Fixpoint arrivals_contents (l : list Arrival) : bytes * list Arrival :=
  match l with
  | Arrived b bs :: l => let '(s, rest) := arrivals_contents l in (b :: bs ++ s, rest)
  | _ => ([], l)
  end.

Definition contents (r : Reader) : bytes * list Arrival :=
  let '(s, rest) := arrivals_contents (rd_arrivals r) in (rd_buffer r ++ s, rest).

(** The first line with its newline and the rest; [None] without a newline. *)
Definition split_frame (s : bytes) : option (bytes * bytes) :=
  (fun idx => (take (S idx) s, drop (S idx) s)) <$> newline_position s.

(** What one call of a framer finds in the bytes [s] that are followed by
    [rest]: an error, the end, or a frame with the bytes after it. *)
Inductive NextFrame : Type :=
| FrameError (err : IoError)
| FrameEnd
| Frame (frame after : bytes) (rest : list Arrival).

Definition next_frame (what : string) (max_bytes : Z) (s : bytes) (rest : list Arrival) : NextFrame :=
  match split_frame s with
  | Some (frame, after) =>
      if bool_decide (Z.of_nat (length frame) <= max_bytes) then Frame frame after rest
      else FrameError (frame_too_large what max_bytes)
  | None =>
      if bool_decide (s <> []) && bool_decide (max_bytes < Z.of_nat (length s))
      then FrameError (frame_too_large what max_bytes)
      else match rest with
           | ReadFails err :: _ => FrameError err
           | _ => if bool_decide (s = []) then FrameEnd else Frame s [] rest
           end
  end.

(** * The framers see bytes, not packets

    A framer returns what the reference [next_frame] finds in the bytes the
    socket brings, however they are cut into reads; what is written as frames
    is read back. *)

(** ** Readers with the same contents *)

(** Two readers that bring the same bytes and errors. *)
Definition same_contents (r r' : Reader) : Prop := contents r = contents r'.

#[global] Instance same_contents_equiv : Equivalence same_contents.
Proof. split; repeat intros ?; unfold same_contents in *; congruence. Qed.

Lemma newline_position_app a b :
  newline_position (a ++ b) =
    match newline_position a with
    | Some i => Some i
    | None => (fun i => (length a + i)%nat) <$> newline_position b
    end.
Proof.
  induction a as [|x a IH]; simpl; [by destruct (newline_position b)|].
  case_bool_decide; [done|]. rewrite IH. by destruct (newline_position a), (newline_position b).
Qed.

Lemma newline_position_None b : newline_position b = None <-> NEWLINE ∉ b.
Proof.
  induction b as [|x b IH]; simpl; [set_solver|]. rewrite not_elem_of_cons.
  case_bool_decide; [naive_solver|]. rewrite fmap_None, IH. naive_solver.
Qed.

Lemma newline_position_lt b i : newline_position b = Some i -> (i < length b)%nat.
Proof.
  revert i. induction b as [|x b IH]; intros i H; simplify_eq/=. case_bool_decide; simplify_eq; [lia|].
  apply fmap_Some in H as (j & Hj & ->). specialize (IH _ Hj). lia.
Qed.

Lemma split_frame_app a b : newline_position a = None ->
  split_frame (a ++ b) = (fun p => (a ++ p.1, p.2)) <$> split_frame b.
Proof.
  intros H. unfold split_frame. rewrite newline_position_app, H.
  destruct (newline_position b) as [i|]; simpl; [|done].
  rewrite take_app_ge, drop_app_ge by lia. by replace (S (length a + i) - length a)%nat with (S i) by lia.
Qed.

(** One [fill_buf] in terms of the contents. *)
Lemma fill_buf_contents r :
  match fill_buf r with
  | Done (inr []) r' => contents r = ([], []) /\ r' = r
  | Done (inr chunk) r' => rd_buffer r' = chunk /\ contents r' = contents r /\
      (length (rd_arrivals r') <= length (rd_arrivals r))%nat /\
      (rd_buffer r = [] -> S (length (rd_arrivals r')) = length (rd_arrivals r))
  | Done (inl err) r' => (exists rest, contents r = ([], ReadFails err :: rest)) /\ rd_buffer r = []
  | _ => False
  end.
Proof.
  destruct r as [[|x b] [|[y bs|err] l]]; unfold contents; simpl; try done; try (split_and!; try done; lia).
  - split_and!; [done|by destruct (arrivals_contents l)|lia..].
  - split; [by eexists|done].
Qed.

Lemma contents_consume n r :
  (n <= length (rd_buffer r))%nat ->
  contents (mkReader (drop n (rd_buffer r)) (rd_arrivals r)) = (drop n (contents r).1, (contents r).2).
Proof.
  intros H. unfold contents. simpl. destruct (arrivals_contents (rd_arrivals r)). simpl.
  by rewrite drop_app_le.
Qed.

Lemma contents_buffer r : exists s, (contents r).1 = rd_buffer r ++ s.
Proof. unfold contents. destruct (arrivals_contents _). by eexists. Qed.

(** What a framer must return, by the reference. *)
Definition frame_outcome (max_bytes : Z) (next : NextFrame) (res : IoError + bool) (buf : bytes)
    (r : Reader) : Prop :=
  Z.of_nat (length buf) <= Z.max max_bytes 0 /\
  match next with
  | FrameError err => res = inl err
  | FrameEnd => res = inr false /\ buf = [] /\ contents r = ([], [])
  | Frame frame after rest => res = inr true /\ buf = frame /\ contents r = (after, rest)
  end.

Lemma read_frame_loop_spec what max_bytes fuel buf r :
  newline_position buf = None -> (buf = [] \/ Z.of_nat (length buf) <= max_bytes) ->
  (S (length (rd_arrivals r)) + (if bool_decide (rd_buffer r = []) then 0 else 1) <= fuel)%nat ->
  wp (read_frame_loop fuel what max_bytes buf)
    (fun p r' => frame_outcome max_bytes
       (next_frame what max_bytes (buf ++ (contents r).1) (contents r).2) p.1 p.2 r') r.
Proof.
  revert buf r. induction fuel as [|fuel IH]; intros buf r Hn Hb Hf; [lia|]. simpl.
  assert (Z.of_nat (length buf) <= Z.max max_bytes 0) as Hlen by (destruct Hb as [->|]; simpl; lia).
  assert (bool_decide (buf <> []) && bool_decide (max_bytes < Z.of_nat (length buf)) = false) as Hsmall.
  { apply andb_false_iff. destruct Hb as [->|Hb]; [left|right]; apply bool_decide_eq_false; [naive_solver|lia]. }
  apply wp_bind, wp_done. pose proof (fill_buf_contents r) as Hfill.
  destruct (fill_buf r) as [[err|chunk] r1| |]; try done; (eexists _, _; split; [reflexivity|]).
  - apply wp_ret. destruct Hfill as [[rest Hr] _]. rewrite Hr. simpl. rewrite app_nil_r.
    unfold frame_outcome, next_frame, split_frame. rewrite Hn. simpl. by rewrite Hsmall.
  - destruct chunk as [|x chunk]; [|rename chunk into ch; assert (x :: ch <> []) as Hne by done; remember (x :: ch) as chunk eqn:Hch; clear Hch].
    + destruct Hfill as [Hr ->]. apply wp_ret. rewrite Hr. simpl. rewrite app_nil_r.
      unfold frame_outcome, next_frame, split_frame. rewrite Hn. simpl. rewrite Hsmall.
      by destruct buf.
    + destruct Hfill as (Hbuf & <- & Hle & Hdec). destruct (contents_buffer r1) as [s Hs].
      rewrite Hbuf in Hs. unfold next_frame. rewrite split_frame_app by done. rewrite Hs.
      destruct (newline_position chunk) as [idx|] eqn:Hidx.
      * assert (split_frame (chunk ++ s) = Some (take (S idx) chunk, drop (S idx) (chunk ++ s))) as ->.
        { unfold split_frame. rewrite newline_position_app, Hidx. simpl.
          apply newline_position_lt in Hidx. by rewrite take_app_le by lia. }
        apply newline_position_lt in Hidx. simpl fmap. cbv iota beta. rewrite length_app, length_take_le by done.
        replace (idx + 1)%nat with (S idx) by lia. unfold consume.
        destruct (bool_decide_reflect (max_bytes < Z.of_nat (length buf + S idx))).
        -- rewrite (bool_decide_eq_false_2 (_ <= _)) by lia. by apply wp_bind, wp_modify, wp_ret.
        -- rewrite (bool_decide_eq_true_2 (_ <= _)) by lia.
           apply wp_bind, wp_modify, wp_ret. split; simpl.
           ++ rewrite length_app, length_take_le by done. lia.
           ++ split_and!; [done..|]. rewrite <-Hs. apply contents_consume. by rewrite Hbuf.
      * destruct (decide (max_bytes < Z.of_nat (length buf + length chunk))) as [Hbig|Hfit].
        -- unfold split_frame. rewrite newline_position_app, Hidx.
           rewrite bool_decide_true by done. unfold consume. apply wp_bind, wp_modify, wp_ret.
           split; [done|]. destruct (newline_position s) as [i|] eqn:Hi; cbn [fmap option_fmap option_map fst snd].
           ++ apply newline_position_lt in Hi.
              rewrite bool_decide_false; [done|]. rewrite length_app, length_take, length_app. lia.
           ++ rewrite (bool_decide_eq_true_2 (_ <> _)), (bool_decide_eq_true_2 (_ < _));
                [done|rewrite !length_app; lia|by destruct buf, chunk].
        -- rewrite bool_decide_false by done. unfold consume. apply wp_bind, wp_modify.
           assert (contents (mkReader (drop (length chunk) (rd_buffer r1)) (rd_arrivals r1)) =
             (s, (contents r1).2)) as Hc.
           { rewrite contents_consume by by rewrite Hbuf. by rewrite Hs, drop_app_length. }
           eapply wp_mono; [apply IH|].
           ++ by rewrite newline_position_app, Hn, Hidx.
           ++ right. rewrite length_app. lia.
           ++ simpl. rewrite Hbuf, drop_all, bool_decide_true by done.
              destruct (bool_decide_reflect (rd_buffer r = [])) as [He|]; [specialize (Hdec He)|]; lia.
           ++ intros [res b] r2. rewrite Hc. cbn [fst snd]. unfold next_frame.
              by rewrite <-app_assoc, split_frame_app by done.
Qed.

(** The framers return, and what they return is what the reference finds. *)
Lemma read_frame_spec what max_bytes r :
  wp (read_frame what max_bytes)
    (fun p r' => frame_outcome max_bytes
       (next_frame what max_bytes (contents r).1 (contents r).2) p.1 p.2 r') r.
Proof.
  unfold read_frame. apply wp_bind, wp_get. apply (read_frame_loop_spec what max_bytes _ []); [done|by left|].
  case_bool_decide; lia.
Qed.

(** ** Frames that were written are read *)

Lemma line_no_newline b : is_line b -> newline_position b = None.
Proof.
  intros [_ H]. apply newline_position_None. intros Hin. rewrite Forall_forall in H.
  specialize (H _ Hin). unfold is_line_end in H. by rewrite bool_decide_eq_true_2 in H.
Qed.

Lemma next_frame_line what max_bytes b s rest :
  is_line b -> Z.of_nat (S (length b)) <= max_bytes ->
  next_frame what max_bytes (frame_bytes b ++ s) rest = Frame (frame_bytes b) s rest.
Proof.
  intros Hb Hm. unfold next_frame, frame_bytes. rewrite <-app_assoc.
  rewrite split_frame_app by by apply line_no_newline. simpl.
  rewrite bool_decide_true; [done|]. rewrite length_app. simpl. lia.
Qed.

Lemma trim_frame_line b : is_line b -> trim_frame (frame_bytes b) = b.
Proof.
  intros [Hne H]. unfold trim_frame, frame_bytes. rewrite reverse_app. simpl.
  destruct b as [|y b'] using rev_ind; [done|]. clear IHb'.
  rewrite reverse_snoc. apply Forall_app in H as [_ H]. rewrite Forall_singleton in H.
  simpl. rewrite H. by rewrite reverse_cons, reverse_involutive.
Qed.
