(* ===== verification/Server.v ===== *)
(** * The stream listener: [src/src/server.rs]

    One connection of the TCP and Unix-socket listeners: [handle_stream] with
    its framing, authentication and dispatch (778-992), the cap on concurrent
    connections ([StreamConnGuard], 624-667), and the limits read from the
    environment (592-643).  An iteration of the connection's loop makes one
    call of the broker, so it is one step; a server is the broker with its
    connections, and any interleaving of their steps with the TTL sweep is a
    run of it.  The kernel options set after a read ([AfterRead]), the
    cooperative yield, log lines and durations are left out. *)

From S2P Require Import Prelude Text Monad Protocol Queue BrokerTypes BrokerState Broker BrokerOps.
From S2P Require Import BrokerRuns Wire.
From stdpp Require Import options.

(** ** Limits *)

(** [std::env::var], for the variables whose value is valid Unicode. *)
Abbreviation Environment := (string -> option string).

Definition DEFAULT_MAX_FRAME_BYTES : Z := 1024 * 1024.
Definition DEFAULT_MAX_CONNECTIONS : Z := 4096.
Definition DEFAULT_AUTH_HANDSHAKE_MS : Z := 10000.

(** [std::env::var(key).ok().and_then(|s| s.trim().parse().ok())] *)
Definition env_unsigned (env : Environment) (max_value : Z) (key : string) : option Z :=
  s ← env key; parse_unsigned max_value (trim s).

(** A value that is missing, unreadable or zero gives the default. *)
Definition env_positive (env : Environment) (key : string) (dflt : Z) : Z :=
  match env_unsigned env u64_max key with
  | Some n => if bool_decide (0 < n) then n else dflt
  | None => dflt
  end.

(** [max_frame_bytes] *)
Definition max_frame_bytes (env : Environment) : Z :=
  env_positive env "LMX_MAX_FRAME_BYTES" DEFAULT_MAX_FRAME_BYTES.

(** [max_connections] *)
Definition max_connections (env : Environment) : Z :=
  env_positive env "LMX_MAX_CONNECTIONS" DEFAULT_MAX_CONNECTIONS.

(** [auth_handshake_timeout] *)
Definition auth_handshake_timeout (env : Environment) : option Z :=
  let ms := default DEFAULT_AUTH_HANDSHAKE_MS (env_unsigned env u64_max "LMX_AUTH_HANDSHAKE_MS") in
  if bool_decide (0 < ms) then Some (duration_from_millis ms) else None.

(** ** The counters *)

Record StreamMetrics : Type := mkStreamMetrics {
  sm_requests_total : Z;
  sm_malformed_requests_total : Z;
  sm_auth_failures_total : Z;
  sm_stream_connections_active : Z;
  sm_stream_connection_cap_drops_total : Z;
}.

Definition inc_requests (m : StreamMetrics) : StreamMetrics :=
  mkStreamMetrics (sm_requests_total m + 1) (sm_malformed_requests_total m) (sm_auth_failures_total m)
    (sm_stream_connections_active m) (sm_stream_connection_cap_drops_total m).
Definition inc_malformed (m : StreamMetrics) : StreamMetrics :=
  mkStreamMetrics (sm_requests_total m) (sm_malformed_requests_total m + 1) (sm_auth_failures_total m)
    (sm_stream_connections_active m) (sm_stream_connection_cap_drops_total m).
Definition inc_auth_failures (m : StreamMetrics) : StreamMetrics :=
  mkStreamMetrics (sm_requests_total m) (sm_malformed_requests_total m) (sm_auth_failures_total m + 1)
    (sm_stream_connections_active m) (sm_stream_connection_cap_drops_total m).
Definition add_active (n : Z) (m : StreamMetrics) : StreamMetrics :=
  mkStreamMetrics (sm_requests_total m) (sm_malformed_requests_total m) (sm_auth_failures_total m)
    (sm_stream_connections_active m + n) (sm_stream_connection_cap_drops_total m).
Definition inc_cap_drops (m : StreamMetrics) : StreamMetrics :=
  mkStreamMetrics (sm_requests_total m) (sm_malformed_requests_total m) (sm_auth_failures_total m)
    (sm_stream_connections_active m) (sm_stream_connection_cap_drops_total m + 1).

Section server.
Context `{LQ : LinkedQueueCrate} `{E : Env} `{WC : WireCodec}.

(** ** One connection *)

(** What an iteration works on: the broker, the counters and its reader. *)
Record StreamState : Type := mkStreamState {
  ss_world : World;
  ss_metrics : StreamMetrics;
  ss_reader : Reader;
}.

Definition on_broker {A} (m : M World A) : M StreamState A := fun s =>
  match m (ss_world s) with
  | Done a w => Done a (mkStreamState w (ss_metrics s) (ss_reader s))
  | Panicked msg => Panicked msg
  | OutOfFuel => OutOfFuel
  end.

Definition on_reader {A} (m : M Reader A) : M StreamState A := fun s =>
  match m (ss_reader s) with
  | Done a r => Done a (mkStreamState (ss_world s) (ss_metrics s) r)
  | Panicked msg => Panicked msg
  | OutOfFuel => OutOfFuel
  end.

Definition count (f : StreamMetrics -> StreamMetrics) : M StreamState unit :=
  modify (fun s => mkStreamState (ss_world s) (f (ss_metrics s)) (ss_reader s)).

(** How an iteration ends: the loop goes on, is left, or the connection's task
    returns the error. *)
Inductive StreamNext : Type :=
| StreamContinue (authed : bool)
| StreamBreak
| StreamFail (err : IoError).

(** The dispatch of a decoded request. *)
Definition dispatch_request (auth_token : option string) (client_id : ClientId) (authed : bool)
    (request : Request.t) : M StreamState StreamNext :=
  if negb authed then
    match request with
    | Request.Version _ _ =>
        on_broker (handle_request client_id request) ;; mret (StreamContinue authed)
    | Request.Auth uuid token =>
        if bool_decide (Some token = auth_token) then
          on_broker (try_send client_id (Response.Auth uuid true None)) ;;
          mret (StreamContinue true)
        else
          count inc_auth_failures ;;
          on_broker (try_send client_id (Response.Auth uuid false (Some "invalid auth token"%string))) ;;
          mret StreamBreak
    | _ =>
        count inc_auth_failures ;;
        on_broker (try_send client_id (Response.Error "unauth" "auth handshake required")) ;;
        mret StreamBreak
    end
  else on_broker (handle_request client_id request) ;; mret (StreamContinue authed).

(** The part of an iteration after a frame was read. *)
Definition handle_frame (auth_token : option string) (client_id : ClientId) (authed : bool)
    (buf : bytes) : M StreamState StreamNext :=
  let payload := trim_frame buf in
  if bool_decide (payload = []) then mret (StreamContinue authed)
  else
    count inc_requests ;;
    match request_of_json payload with
    | inl err =>
        count inc_malformed ;;
        on_broker (try_send client_id
          (Response.Error "malformed" ("malformed request: " +:+ err)%string)) ;;
        mret (StreamContinue authed)
    | inr request => dispatch_request auth_token client_id authed request
    end.

(** An iteration of the loop of [handle_stream]; [elapsed]: the deadline of the
    handshake, if there is one and the connection has not authenticated,
    passes before a frame is read. *)
Definition stream_iteration (auth_token : option string) (frame_cap : Z) (auth_deadline : bool)
    (client_id : ClientId) (authed elapsed : bool) : M StreamState StreamNext :=
  if auth_deadline && negb authed && elapsed then
    count inc_auth_failures ;; mret StreamBreak
  else
    '(frame_res, buf) ← on_reader (read_frame_bounded frame_cap);
    match frame_res with
    | inl err =>
        match io_kind err with
        | InvalidData =>
            count inc_malformed ;;
            on_broker (try_send client_id (Response.Error "frame-too-large" (io_message err))) ;;
            mret StreamBreak
        | OtherErrorKind => mret (StreamFail err)
        end
    | inr false => mret StreamBreak
    | inr true => handle_frame auth_token client_id authed buf
    end.

(** The connection's writer task: the responses the broker put on the client's
    channel, each as a frame; one that has no text is skipped. *)
Definition response_frame (response : Response.t) : bytes :=
  match response_to_json response with
  | inr b => frame_bytes b
  | inl _ => []
  end.

Fixpoint deliveries (client_id : ClientId) (tr : list Event) : list Response.t :=
  match tr with
  | [] => []
  | Delivered c response :: tr =>
      if bool_decide (c = client_id) then response :: deliveries client_id tr else deliveries client_id tr
  | _ :: tr => deliveries client_id tr
  end.

Definition writer_output (client_id : ClientId) (tr : list Event) : bytes :=
  mjoin (response_frame <$> deliveries client_id tr).

(** ** The server *)

(** Where the task of a connection is: it was refused and has still to take
    back its count; it reads; it has left its loop; it has dropped its client
    and holds only its slot. *)
Inductive ConnPhase : Type :=
| ConnRefused
| ConnReading (authed : bool)
| ConnClosing
| ConnClosed.

Record Conn : Type := mkConn {
  cn_client : ClientId;
  cn_phase : ConnPhase;
  cn_reader : Reader;
  cn_auth_deadline : bool;
}.

Record Server : Type := mkServer {
  sv_world : World;
  sv_metrics : StreamMetrics;
  sv_active_stream_connections : Z;
  sv_conns : gmap nat Conn;
}.

Record ServerSettings : Type := mkServerSettings {
  ss_auth_token : option string;
  ss_env : Environment;
}.

(** What happens next: a connection is accepted, with what its socket will
    bring; a refused one takes back its count; a connection's loop goes round;
    its writer cannot write; it drops its client; it ends; the sweeper runs. *)
Inductive ServerEvent : Type :=
| Accept (conn : nat) (arrivals : list Arrival)
| Refused (conn : nat)
| Iterate (conn : nat) (elapsed : bool)
| WriterFails (conn : nat)
| DropClientOf (conn : nat)
| Release (conn : nat)
| Sweep (now : Z).

Definition set_conn (i : nat) (c : Conn) (s : Server) : Server :=
  mkServer (sv_world s) (sv_metrics s) (sv_active_stream_connections s) (<[i := c]> (sv_conns s)).
Definition set_phase (p : ConnPhase) (c : Conn) : Conn :=
  mkConn (cn_client c) p (cn_reader c) (cn_auth_deadline c).

Definition lift_broker {A} (m : M World A) : M Server A := fun s =>
  match m (sv_world s) with
  | Done a w => Done a (mkServer w (sv_metrics s) (sv_active_stream_connections s) (sv_conns s))
  | Panicked msg => Panicked msg
  | OutOfFuel => OutOfFuel
  end.

(** [ACTIVE_STREAM_CONNECTIONS.fetch_add(1)]: the value before. *)
Definition fetch_add_active : M Server Z := fun s =>
  Done (sv_active_stream_connections s)
    (mkServer (sv_world s) (sv_metrics s) (wrapping_add64 (sv_active_stream_connections s) 1) (sv_conns s)).
Definition fetch_sub_active : M Server unit := modify (fun s =>
  mkServer (sv_world s) (sv_metrics s) ((sv_active_stream_connections s - 1) mod 2 ^ 64) (sv_conns s)).
Definition count_server (f : StreamMetrics -> StreamMetrics) : M Server unit := modify (fun s =>
  mkServer (sv_world s) (f (sv_metrics s)) (sv_active_stream_connections s) (sv_conns s)).

(** The start of [handle_stream]: the connection takes a slot and registers a
    client, or is refused. *)
Definition accept (settings : ServerSettings) (i : nat) (arrivals : list Arrival) : M Server unit :=
  before ← fetch_add_active;
  if bool_decide (max_connections (ss_env settings) <= before) then
    modify (set_conn i (mkConn 0 ConnRefused (mkReader [] arrivals) false))
  else
    count_server (add_active 1) ;;
    client_id ← lift_broker register_client;
    let authed := bool_decide (ss_auth_token settings = None) in
    let auth_deadline := negb authed && bool_decide (auth_handshake_timeout (ss_env settings) <> None) in
    modify (set_conn i (mkConn client_id (ConnReading authed) (mkReader [] arrivals) auth_deadline)).

(** An iteration of the connection's loop on the server's state. *)
Definition iterate (settings : ServerSettings) (i : nat) (c : Conn) (authed elapsed : bool)
    : M Server unit := fun s =>
  match stream_iteration (ss_auth_token settings) (max_frame_bytes (ss_env settings))
          (cn_auth_deadline c) (cn_client c) authed elapsed
          (mkStreamState (sv_world s) (sv_metrics s) (cn_reader c)) with
  | Done next t =>
      let phase := match next with StreamContinue authed => ConnReading authed | _ => ConnClosing end in
      Done tt (mkServer (ss_world t) (ss_metrics t) (sv_active_stream_connections s)
                 (<[i := mkConn (cn_client c) phase (ss_reader t) (cn_auth_deadline c)]> (sv_conns s)))
  | Panicked msg => Panicked msg
  | OutOfFuel => OutOfFuel
  end.

(** One event; [None] when it cannot happen. *)
Definition server_event (settings : ServerSettings) (e : ServerEvent) (s : Server)
    : option (Res Server unit) :=
  match e with
  | Accept i arrivals =>
      match sv_conns s !! i with Some _ => None | None => Some (accept settings i arrivals s) end
  | Refused i =>
      c ← sv_conns s !! i;
      match cn_phase c with
      | ConnRefused =>
          Some ((fetch_sub_active ;; count_server inc_cap_drops ;;
                 modify (fun s => mkServer (sv_world s) (sv_metrics s) (sv_active_stream_connections s)
                                    (delete i (sv_conns s)))) s)
      | _ => None
      end
  | Iterate i elapsed =>
      c ← sv_conns s !! i;
      match cn_phase c with
      | ConnReading authed => Some (iterate settings i c authed elapsed s)
      | _ => None
      end
  | WriterFails i =>
      c ← sv_conns s !! i;
      match cn_phase c with
      | ConnReading _ | ConnClosing => Some (lift_broker (upd_client (cn_client c) hang_up) s)
      | _ => None
      end
  | DropClientOf i =>
      c ← sv_conns s !! i;
      match cn_phase c with
      | ConnClosing =>
          Some ((lift_broker (drop_client (cn_client c)) ;; modify (set_conn i (set_phase ConnClosed c))) s)
      | _ => None
      end
  | Release i =>
      c ← sv_conns s !! i;
      match cn_phase c with
      | ConnClosed =>
          Some ((fetch_sub_active ;; count_server (add_active (-1)) ;;
                 modify (fun s => mkServer (sv_world s) (sv_metrics s) (sv_active_stream_connections s)
                                    (delete i (sv_conns s)))) s)
      | _ => None
      end
  | Sweep now => Some ((lift_broker (tick_ttl now) ;; mret tt) s)
  end.

(** A run: every event can happen and returns. *)
Fixpoint serve (settings : ServerSettings) (events : list ServerEvent) (s : Server) : option Server :=
  match events with
  | [] => Some s
  | e :: events =>
      match server_event settings e s with
      | Some (Done _ s') => serve settings events s'
      | _ => None
      end
  end.

(** The server as [run] starts it. *)
Definition server_start (cfg : BrokerConfig) : Server :=
  mkServer (Broker_new cfg false) (mkStreamMetrics 0 0 0 0 0) 0 ∅.

End server.
