(* ===== verification/ServerFacts.v ===== *)
(** * What the stream listener guarantees

    Any interleaving of connections is a run of the broker, so everything
    proved of runs holds behind the listener; connections stay within the cap;
    a connection that has not authenticated leaves the broker's state alone. *)

From S2P Require Import Prelude Text Monad Protocol Queue BrokerTypes BrokerState Broker BrokerOps.
From S2P Require Import BrokerSpec BrokerFencing BrokerSim BrokerRefine.
From S2P Require Import BrokerRuns BrokerClients BrokerTheorems.
From S2P Require Import Wire Server.
From stdpp Require Import options.

Section facts.
Context `{LQ : LinkedQueueCrate} `{E : Env} `{WC : WireCodec}.

(** ** The server is a run of its broker *)

Lemma run_app ops ops' w :
  run (ops ++ ops') w = match run ops w with Done _ w' => run ops' w' | r => r end.
Proof.
  unfold run. revert w. induction ops as [|op ops IH]; intros w; [done|].
  simpl. unfold mbind, M_bind. destruct (exec_op op w); [apply IH|done..].
Qed.

(** The world was reached from a new broker by at most [n] operations. *)
Definition broker_run (cfg : BrokerConfig) (n : nat) (w : World) : Prop :=
  exists ops, Forall (op_ok (unforced u32_max)) ops /\ (length ops <= n)%nat /\
    run ops (Broker_new cfg false) = Done tt w.

Lemma broker_run_more cfg n n' w : (n <= n')%nat -> broker_run cfg n w -> broker_run cfg n' w.
Proof. intros H (ops & H1 & H2 & H3). exists ops. split_and!; [done|lia|done]. Qed.

Lemma broker_run_reachable cfg n w :
  config_ok (unforced u32_max) cfg -> Z.of_nat n < u64_max ->
  broker_run cfg n w -> reachable (unforced u32_max) cfg w.
Proof. intros Hc Hn (ops & H1 & H2 & H3). split; [done|]. exists false, ops. split_and!; [done|lia|done]. Qed.

(** An operation returns and is one more of the run. *)
Lemma broker_run_op cfg n w op :
  config_ok (unforced u32_max) cfg -> Z.of_nat (S n) < u64_max ->
  op_ok (unforced u32_max) op -> broker_run cfg n w ->
  exists w', exec_op op w = Done tt w' /\ broker_run cfg (S n) w'.
Proof.
  intros Hc Hn Hop (ops & H1 & H2 & H3).
  assert (Forall (op_ok (unforced u32_max)) (ops ++ [op])) as Hops by (apply Forall_app; auto).
  assert (length (ops ++ [op]) <= S n)%nat as Hlen by (rewrite length_app; simpl; lia).
  destruct (run_new_total (unforced u32_max) ltac:(done) ltac:(done) ltac:(done)
    (ops ++ [op]) cfg false Hc Hops ltac:(lia)) as (w' & Hr & _ & _).
  exists w'. split; [|by exists (ops ++ [op])].
  rewrite run_app, H3 in Hr. unfold run in Hr. simpl in Hr. unfold mbind, M_bind in Hr.
  by destruct (exec_op op w) as [[] w''| |].
Qed.

Section runs.
Context (cfg : BrokerConfig) (Hcfg : config_ok (unforced u32_max) cfg).
Context (L : WireCodecLaws).

Lemma handle_request_run n w c request :
  Z.of_nat (S n) < u64_max -> request_typed request -> broker_run cfg n w ->
  exists w', handle_request c request w = Done tt w' /\ broker_run cfg (S n) w'.
Proof using Hcfg.
  intros Hn Ht Hr. apply (broker_run_op cfg n w (OpRequest c request no_overrides)); try done.
Qed.

Lemma try_send_run n w c r :
  Z.of_nat (S n) < u64_max -> broker_run cfg n w ->
  exists b w', try_send c r w = Done b w' /\ broker_run cfg (S n) w'.
Proof using Hcfg.
  intros Hn Hr. destruct (broker_run_op cfg n w (OpTrySend c r)) as (w' & Hd & Hw'); try done.
  simpl in Hd. unfold mbind, M_bind in Hd. destruct (try_send c r w) as [b w''| |]; try done.
  injection Hd as ->. eauto.
Qed.

(** The computation of an iteration makes at most one operation. *)
Definition one_op (n : nat) {A} (m : M StreamState A) : Prop :=
  forall s, broker_run cfg n (ss_world s) -> wp m (fun _ s' => broker_run cfg (S n) (ss_world s')) s.

Lemma one_op_count n f {A} (m : M StreamState A) : one_op n m -> one_op n (count f ;; m).
Proof. intros Hm s Hs. apply wp_bind, wp_modify. by apply Hm. Qed.

Lemma one_op_ret n {A} (a : A) : one_op n (mret a).
Proof. intros s Hs. apply wp_ret. eapply broker_run_more; [|done]. lia. Qed.

Lemma one_op_try_send n c r {A} (a : A) :
  Z.of_nat (S n) < u64_max -> one_op n (on_broker (try_send c r) ;; mret a).
Proof using Hcfg.
  intros Hn s Hs. destruct (try_send_run n _ c r Hn Hs) as (b & w' & Hd & Hw).
  apply wp_bind, wp_done. eexists b, _. split; [unfold on_broker; by rewrite Hd|done].
Qed.

Lemma one_op_request n c request {A} (a : A) :
  Z.of_nat (S n) < u64_max -> request_typed request ->
  one_op n (on_broker (handle_request c request) ;; mret a).
Proof using Hcfg.
  intros Hn Ht s Hs. destruct (handle_request_run n _ c request Hn Ht Hs) as (w' & Hd & Hw).
  apply wp_bind, wp_done. eexists tt, _. split; [unfold on_broker; by rewrite Hd|done].
Qed.

Create HintDb one_op.
#[local] Hint Resolve one_op_count one_op_ret one_op_try_send one_op_request : one_op.

Lemma one_op_frame n tok c authed buf :
  Z.of_nat (S n) < u64_max -> one_op n (handle_frame tok c authed buf).
Proof using Hcfg L.
  intros Hn. unfold handle_frame. case_bool_decide; [by auto with one_op|]. apply one_op_count.
  destruct (request_of_json _) as [err|request] eqn:Hj; [auto with one_op|].
  apply request_decoded_typed in Hj. unfold dispatch_request.
  destruct authed; simpl; [by auto with one_op|].
  destruct request; auto with one_op. case_bool_decide; auto with one_op.
Qed.

Lemma stream_iteration_run n tok cap dl c authed elapsed :
  Z.of_nat (S n) < u64_max -> one_op n (stream_iteration tok cap dl c authed elapsed).
Proof using Hcfg L.
  intros Hn s Hs. unfold stream_iteration.
  destruct (dl && negb authed && elapsed); [by apply one_op_count; auto with one_op|].
  pose proof (read_frame_spec "frame" cap (ss_reader s)) as Hf.
  apply wp_done in Hf as ([res buf] & r' & Hf & _).
  apply wp_bind, wp_done. eexists (res, buf), _.
  split; [unfold on_reader, read_frame_bounded; by rewrite Hf|].
  destruct res as [err|[]]; [destruct (io_kind err)|..].
  - by apply one_op_count; auto with one_op.
  - by apply one_op_ret.
  - by apply one_op_frame.
  - by apply one_op_ret.
Qed.

(** ** Every event *)

Lemma exec_lift n op {A} (m : M World A) s :
  (forall w, exec_op op w = match m w with Done _ w' => Done tt w' | Panicked e => Panicked e | OutOfFuel => OutOfFuel end) ->
  Z.of_nat (S n) < u64_max -> op_ok (unforced u32_max) op -> broker_run cfg n (sv_world s) ->
  wp (lift_broker m) (fun _ s' => broker_run cfg (S n) (sv_world s')) s.
Proof using Hcfg.
  intros Hm Hn Hop Hr. destruct (broker_run_op cfg n _ op Hcfg Hn Hop Hr) as (w' & Hd & Hw').
  rewrite Hm in Hd. apply wp_done. unfold lift_broker.
  destruct (m (sv_world s)) as [a w''| |]; try done. injection Hd as ->. eauto.
Qed.

Lemma server_event_run n settings e s r :
  Z.of_nat (S n) < u64_max -> broker_run cfg n (sv_world s) ->
  server_event settings e s = Some r -> exists s', r = Done tt s' /\ broker_run cfg (S n) (sv_world s').
Proof using Hcfg L.
  intros Hn Hr He.
  enough (exists m : M Server unit, r = m s /\ wp m (fun _ s' => broker_run cfg (S n) (sv_world s')) s)
    as (m & -> & Hw) by (apply wp_done in Hw as ([] & s' & Hd & Hw); eauto).
  assert (broker_run cfg (S n) (sv_world s)) as Hr' by (eapply broker_run_more; [|done]; lia).
  destruct e as [i arrivals|i|i elapsed|i|i|i|now]; simpl in He.
  - destruct (sv_conns s !! i); simplify_eq. eexists. split; [done|]. unfold accept.
    apply wp_bind, wp_done. eexists _, _. split; [done|]. case_bool_decide.
    { by apply wp_modify. }
    apply wp_bind, wp_modify, wp_bind. eapply wp_mono.
    { apply (exec_lift n OpRegisterClient); [|done..]. intros w. simpl. unfold mbind, M_bind.
      by destruct (register_client w). }
    intros c s' Hs'. by apply wp_modify.
  - destruct (sv_conns s !! i) as [c|]; simpl in He; [|done]. destruct (cn_phase c); simplify_eq.
    eexists. split; [done|]. by repeat (apply wp_bind, wp_modify); apply wp_modify.
  - destruct (sv_conns s !! i) as [c|]; simpl in He; [|done]. destruct (cn_phase c) as [|authed| |]; simplify_eq.
    eexists. split; [done|].
    pose proof (stream_iteration_run n (ss_auth_token settings) (max_frame_bytes (ss_env settings))
      (cn_auth_deadline c) (cn_client c) authed elapsed Hn
      (mkStreamState (sv_world s) (sv_metrics s) (cn_reader c)) Hr) as Hw.
    apply wp_done in Hw as (next & t & Hd & Hw). apply wp_done. unfold iterate. rewrite Hd. eauto.
  - destruct (sv_conns s !! i) as [c|]; simpl in He; [|done].
    assert (wp (lift_broker (upd_client (cn_client c) hang_up))
      (fun _ s' => broker_run cfg (S n) (sv_world s')) s) as Hw.
    { apply (exec_lift n (OpHangUp (cn_client c))); done. }
    destruct (cn_phase c); simplify_eq; eauto.
  - destruct (sv_conns s !! i) as [c|]; simpl in He; [|done]. destruct (cn_phase c); simplify_eq.
    eexists. split; [done|]. apply wp_bind. eapply wp_mono.
    { apply (exec_lift n (OpDropClient (cn_client c))); [|done..]. intros w. simpl.
      by destruct (drop_client (cn_client c) w) as [[]| |]. }
    intros [] s' Hs'. by apply wp_modify.
  - destruct (sv_conns s !! i) as [c|]; simpl in He; [|done]. destruct (cn_phase c); simplify_eq.
    eexists. split; [done|]. by repeat (apply wp_bind, wp_modify); apply wp_modify.
  - simplify_eq. eexists. split; [done|]. apply wp_bind. eapply wp_mono.
    { apply (exec_lift n (OpTickTtl now)); [|done..]. intros w. simpl. unfold mbind, M_bind.
      by destruct (tick_ttl now w). }
    intros k s' Hs'. by apply wp_ret.
Qed.

Lemma serve_run settings events n s s' :
  Z.of_nat (n + length events) < u64_max -> broker_run cfg n (sv_world s) ->
  serve settings events s = Some s' -> broker_run cfg (n + length events) (sv_world s').
Proof using Hcfg L.
  revert n s. induction events as [|e events IH]; intros n s Hn Hr Hs; simplify_eq/=.
  { by rewrite Nat.add_0_r. }
  destruct (server_event settings e s) as [r|] eqn:He; [|done].
  destruct (server_event_run n settings e s r ltac:(lia) Hr He) as (s1 & -> & Hr1).
  replace (n + S (length events))%nat with (S n + length events)%nat by lia.
  apply (IH (S n) s1); [lia|done|done].
Qed.

End runs.


(** ** The cap on connections *)

Definition is_refused (c : Conn) : bool :=
  match cn_phase c with ConnRefused => true | _ => false end.

(** The connections that hold a slot. *)
Definition slots (conns : gmap nat Conn) : nat := size (filter (fun ic => is_refused ic.2 = false) conns).

Lemma slots_fresh conns i c :
  conns !! i = None -> slots (<[i := c]> conns) = (slots conns + if is_refused c then 0 else 1)%nat.
Proof.
  intros Hi. unfold slots. destruct (is_refused c) eqn:Hc.
  - rewrite map_filter_insert_False, map_filter_delete, delete_id; [lia| |simpl; congruence].
    by rewrite map_lookup_filter_None; left.
  - rewrite map_filter_insert_True by done. rewrite map_size_insert_None; [lia|].
    by rewrite map_lookup_filter_None; left.
Qed.

Lemma slots_delete conns i c :
  conns !! i = Some c -> slots conns = (slots (delete i conns) + if is_refused c then 0 else 1)%nat.
Proof.
  intros Hi. rewrite <-(insert_delete_id conns i c) at 1 by done. apply slots_fresh, lookup_delete_eq.
Qed.

Lemma slots_update conns i c c' :
  conns !! i = Some c -> is_refused c' = is_refused c -> slots (<[i := c']> conns) = slots conns.
Proof.
  intros Hi Hc. rewrite <-insert_delete_eq, slots_fresh by apply lookup_delete_eq.
  by rewrite (slots_delete conns i c), Hc.
Qed.

Definition gauge (s : Server) : Z := sm_stream_connections_active (sv_metrics s).

Record slots_ok (max_slots : Z) (s : Server) : Prop := {
  so_active : sv_active_stream_connections s = Z.of_nat (size (sv_conns s));
  so_gauge : gauge s = Z.of_nat (slots (sv_conns s));
  so_cap : Z.of_nat (slots (sv_conns s)) <= max_slots;
}.

Lemma slots_size conns : (slots conns <= size conns)%nat.
Proof. apply map_subseteq_size, map_filter_subseteq. Qed.

(** An iteration does not touch the gauge. *)
Definition gauge_same (s s' : StreamState) : Prop :=
  sm_stream_connections_active (ss_metrics s') = sm_stream_connections_active (ss_metrics s).

#[local] Instance gauge_same_preorder : PreOrder gauge_same.
Proof. split; repeat intros ?; unfold gauge_same in *; congruence. Qed.

Lemma gauge_on_broker {A} (m : M World A) : keeps gauge_same (on_broker m).
Proof. intros s a s'. unfold on_broker. destruct (m (ss_world s)); intros; by simplify_eq. Qed.
Lemma gauge_on_reader {A} (m : M Reader A) : keeps gauge_same (on_reader m).
Proof. intros s a s'. unfold on_reader. destruct (m (ss_reader s)); intros; by simplify_eq. Qed.
Lemma gauge_requests : keeps gauge_same (count inc_requests).
Proof. by apply keeps_modify; [apply _|]. Qed.
Lemma gauge_malformed : keeps gauge_same (count inc_malformed).
Proof. by apply keeps_modify; [apply _|]. Qed.
Lemma gauge_auth_failures : keeps gauge_same (count inc_auth_failures).
Proof. by apply keeps_modify; [apply _|]. Qed.
#[local] Hint Resolve gauge_on_broker gauge_on_reader gauge_requests gauge_malformed
  gauge_auth_failures : keeps.

Lemma gauge_iteration tok cap dl c authed elapsed :
  keeps gauge_same (stream_iteration tok cap dl c authed elapsed).
Proof. unfold stream_iteration, handle_frame, dispatch_request. keeps_split. Qed.

Lemma lift_broker_done {A} (m : M World A) s a s' :
  lift_broker m s = Done a s' ->
  sv_metrics s' = sv_metrics s /\ sv_conns s' = sv_conns s /\
  sv_active_stream_connections s' = sv_active_stream_connections s.
Proof. unfold lift_broker. destruct (m (sv_world s)); intros; by simplify_eq. Qed.

(** What an event does to the connections and their counts: one joins, one
    moves on, one leaves, or nothing. *)
Inductive conn_change (max_slots : Z) (s s' : Server) : Prop :=
| cc_join i c :
    sv_conns s !! i = None -> sv_conns s' = <[i := c]> (sv_conns s) ->
    sv_active_stream_connections s' = wrapping_add64 (sv_active_stream_connections s) 1 ->
    is_refused c = bool_decide (max_slots <= sv_active_stream_connections s) ->
    gauge s' = gauge s + (if is_refused c then 0 else 1) -> conn_change max_slots s s'
| cc_move i c c' :
    sv_conns s !! i = Some c -> sv_conns s' = <[i := c']> (sv_conns s) -> is_refused c' = is_refused c ->
    sv_active_stream_connections s' = sv_active_stream_connections s -> gauge s' = gauge s ->
    conn_change max_slots s s'
| cc_leave i c :
    sv_conns s !! i = Some c -> sv_conns s' = delete i (sv_conns s) ->
    sv_active_stream_connections s' = (sv_active_stream_connections s - 1) mod 2 ^ 64 ->
    gauge s' = gauge s - (if is_refused c then 0 else 1) -> conn_change max_slots s s'
| cc_none :
    sv_conns s' = sv_conns s -> sv_active_stream_connections s' = sv_active_stream_connections s ->
    gauge s' = gauge s -> conn_change max_slots s s'.

Lemma accept_change settings i arrivals s s' :
  sv_conns s !! i = None -> accept settings i arrivals s = Done tt s' ->
  conn_change (max_connections (ss_env settings)) s s'.
Proof.
  intros Hi Ha. unfold accept in Ha. unfold mbind, M_bind at 1 in Ha. simpl in Ha.
  case_bool_decide as Hcap.
  - injection Ha as <-. eapply cc_join; try done; unfold gauge, is_refused; simpl; [|lia].
    by rewrite bool_decide_eq_true_2.
  - unfold mbind, M_bind, count_server, modify in Ha. simpl in Ha.
    destruct (lift_broker register_client _) as [client s1| |] eqn:Hl; try done.
    apply lift_broker_done in Hl as (Hm & Hc & Hac). simpl in *. injection Ha as <-.
    eapply cc_join; [done|simpl; by rewrite Hc|done|unfold is_refused; simpl; by rewrite bool_decide_eq_false_2|].
    unfold gauge, is_refused. simpl. by rewrite Hm.
Qed.

Lemma event_change settings e s s' :
  server_event settings e s = Some (Done tt s') ->
  conn_change (max_connections (ss_env settings)) s s'.
Proof.
  assert (forall {A} (m : M World A) a, lift_broker m s = Done a s' ->
    conn_change (max_connections (ss_env settings)) s s') as Hlift.
  { intros A m a Hl. apply lift_broker_done in Hl as (Hm & Hc & Ha). unfold gauge.
    apply cc_none; unfold gauge; congruence. }
  destruct e as [i arrivals|i|i elapsed|i|i|i|now]; simpl; intros He.
  - destruct (sv_conns s !! i) eqn:Hi; [done|]. injection He as He. by eapply accept_change.
  - destruct (sv_conns s !! i) as [c|] eqn:Hi; simpl in He; [|done]. destruct (cn_phase c) eqn:Hp; simplify_eq/=.
    injection He as <-. eapply cc_leave; [done..|]. unfold gauge, is_refused. rewrite Hp. simpl. lia.
  - destruct (sv_conns s !! i) as [c|] eqn:Hi; simpl in He; [|done].
    destruct (cn_phase c) as [|authed| |] eqn:Hp; try done. injection He as He. unfold iterate in He.
    destruct (stream_iteration _ _ _ _ _ _ _) as [next t| |] eqn:Hit; try done. injection He as <-.
    eapply cc_move; [done..| |done|by apply (gauge_iteration _ _ _ _ _ _ _ _ _ Hit)].
    unfold is_refused. simpl. rewrite Hp. by destruct next.
  - destruct (sv_conns s !! i) as [c|]; simpl in He; [|done].
    destruct (cn_phase c); simplify_eq/=; by eapply Hlift.
  - destruct (sv_conns s !! i) as [c|] eqn:Hi; simpl in He; [|done].
    destruct (cn_phase c) eqn:Hp; simplify_eq/=. unfold mbind, M_bind in He.
    destruct (lift_broker _ s) as [? s1| |] eqn:Hl; try done.
    apply lift_broker_done in Hl as (Hm & Hc & Ha). injection He as <-.
    eapply cc_move; [done|simpl; by rewrite Hc| |done|unfold gauge; simpl; congruence].
    unfold is_refused, set_phase. simpl. by rewrite Hp.
  - destruct (sv_conns s !! i) as [c|] eqn:Hi; simpl in He; [|done]. destruct (cn_phase c) eqn:Hp; simplify_eq/=.
    injection He as <-. eapply cc_leave; [done..|]. unfold gauge, is_refused. rewrite Hp. simpl. lia.
  - injection He as He. unfold mbind, M_bind in He.
    destruct (lift_broker _ s) as [? s1| |] eqn:Hl; try done. injection He as ->. by eapply Hlift.
Qed.

Lemma change_slots max_slots s s' n :
  (size (sv_conns s) <= n)%nat -> Z.of_nat (S n) < u64_max ->
  slots_ok max_slots s -> conn_change max_slots s s' ->
  (size (sv_conns s') <= S n)%nat /\ slots_ok max_slots s'.
Proof.
  intros Hn Hb [H1 H2 H3] Hc. pose proof (slots_size (sv_conns s)).
  destruct Hc as [i c Hi Hc Ha Hr Hg|i c c' Hi Hc Hr Ha Hg|i c Hi Hc Ha Hg|Hc Ha Hg].
  - assert (size (sv_conns s') = S (size (sv_conns s))) as Hsz by by rewrite Hc, map_size_insert_None.
    split; [lia|]. assert (slots (sv_conns s') = slots (sv_conns s) + if is_refused c then 0 else 1)%nat as Hs
      by by rewrite Hc, slots_fresh.
    split; [|revert Hs Hg; destruct (is_refused c); lia|].
    + rewrite Ha, H1, Hsz, wrapping_add64_small; rewrite ?u64_max_eq in *; lia.
    + rewrite Hs, Hr. case_bool_decide; lia.
  - assert (size (sv_conns s') = size (sv_conns s)) as Hsz by (rewrite Hc; by eapply map_size_insert_Some).
    assert (slots (sv_conns s') = slots (sv_conns s)) by (rewrite Hc; by eapply slots_update).
    split; [lia|]. split; lia.
  - pose proof (slots_delete _ _ _ Hi) as Hs.
    assert (size (sv_conns s) = S (size (delete i (sv_conns s)))) as Hsz
      by (rewrite <-(insert_delete_id (sv_conns s) i c) at 1 by done;
          by rewrite map_size_insert_None by apply lookup_delete_eq).
    split; [rewrite Hc; lia|]. split; rewrite Hc; [|revert Hs Hg; destruct (is_refused c); lia..].
    rewrite Ha, H1, Hsz. rewrite u64_max_eq in Hb. rewrite Z.mod_small; lia.
  - split; [rewrite Hc; lia|]. split; rewrite Hc; lia.
Qed.

(** The cap on connections holds under every interleaving.  The connections
    that hold a slot never exceed [LMX_MAX_CONNECTIONS] (4096 by default), the
    gauge shows exactly these, and the counter shows these and the refused
    ones that have not yet taken back their count. *)
Theorem connections_within_cap cfg settings events s :
  Z.of_nat (S (length events)) < u64_max ->
  serve settings events (server_start cfg) = Some s ->
  Z.of_nat (slots (sv_conns s)) <= max_connections (ss_env settings) /\
  gauge s = Z.of_nat (slots (sv_conns s)) /\
  sv_active_stream_connections s = Z.of_nat (size (sv_conns s)).
Proof.
  intros Hn Hs. set (cap := max_connections (ss_env settings)).
  assert (forall n s0, (size (sv_conns s0) <= n)%nat -> Z.of_nat (S (n + length events)) < u64_max ->
    slots_ok cap s0 -> serve settings events s0 = Some s -> slots_ok cap s) as Hrun.
  { clear Hn Hs. induction events as [|e events IH]; intros n s0 Hsz Hn Hok Hs; simplify_eq/=; [done|].
    destruct (server_event settings e s0) as [[[] s1| |]|] eqn:He; try done.
    apply event_change in He. destruct (change_slots cap s0 s1 n Hsz ltac:(lia) Hok He) as [Hsz1 Hok1].
    eapply (IH (S n) s1); [done|lia|done|done]. }
  assert (0 <= cap) as Hcap.
  { unfold cap, max_connections, env_positive. repeat case_match; try done. case_bool_decide; [lia|done]. }
  assert (slots_ok cap s) as [H1 H2 H3]; [|done].
  apply (Hrun 0%nat (server_start cfg)); [done|lia| |done].
  assert (slots ∅ = 0%nat) as H0 by (unfold slots; by rewrite map_filter_empty, map_size_empty).
  by split; simpl; rewrite ?H0, ?map_size_empty.
Qed.

(** ** Authentication *)

(** The broker's state is what it was and no token was issued: at most a
    response was sent. *)
Definition untouched (w w' : World) : Prop :=
  state w' = state w /\ forall k, issued k (trace w') = issued k (trace w).

#[local] Instance untouched_preorder : PreOrder untouched.
Proof. split; [done|]. intros w1 w2 w3 [H1 H2] [H3 H4]. split; [congruence|]. intros k. by rewrite H4. Qed.

Lemma untouched_try_send c r : keeps untouched (try_send c r).
Proof.
  unfold try_send. keeps_split. apply keeps_modify; [apply _|]. intros w.
  split; [apply state_deliver|intros; apply issued_deliver].
Qed.

Lemma untouched_send c r : keeps untouched (send c r).
Proof.
  apply keeps_modify; [apply _|]. intros w.
  split; [by rewrite state_deliver, state_observe_response|].
  intros k. by rewrite issued_deliver, issued_observe_response.
Qed.

Lemma untouched_version c u v : keeps untouched (handle_request c (Request.Version u v)).
Proof. apply untouched_send. Qed.

Definition stream_untouched (s s' : StreamState) : Prop := untouched (ss_world s) (ss_world s').

#[local] Instance stream_untouched_preorder : PreOrder stream_untouched.
Proof. split; repeat intros ?; unfold stream_untouched in *; [done|by etrans]. Qed.

Lemma stream_untouched_broker {A} (m : M World A) : keeps untouched m -> keeps stream_untouched (on_broker m).
Proof.
  intros Hm s a s'. unfold on_broker. destruct (m (ss_world s)) eqn:Hd; intros; simplify_eq.
  by apply (Hm _ _ _ Hd).
Qed.

Lemma stream_untouched_reader {A} (m : M Reader A) : keeps stream_untouched (on_reader m).
Proof. intros s a s'. unfold on_reader. destruct (m (ss_reader s)); intros; by simplify_eq. Qed.

Lemma stream_untouched_count f : keeps stream_untouched (count f).
Proof. by apply keeps_modify; [apply _|]. Qed.

#[local] Hint Resolve stream_untouched_broker stream_untouched_reader stream_untouched_count
  untouched_try_send untouched_version : keeps.

(** What an iteration of a connection without authentication may lead to. *)
Definition refuses_without_token (token : string) (frame : bytes) (next : StreamNext) : Prop :=
  match request_of_json (trim_frame frame) with
  | inl _ => next = StreamContinue false
  | inr (Request.Version _ _) => next = StreamContinue false
  | inr (Request.Auth _ presented) => next = if bool_decide (presented = token) then StreamContinue true else StreamBreak
  | inr _ => next = StreamBreak
  end.

Lemma unauthenticated_untouched token cap dl c elapsed :
  keeps stream_untouched (stream_iteration (Some token) cap dl c false elapsed).
Proof.
  unfold stream_iteration, handle_frame, dispatch_request. cbn [negb].
  keeps_split; subst; try apply stream_untouched_broker; auto with keeps.
Qed.

Lemma handle_frame_verdict token c buf s next s' :
  handle_frame (Some token) c false buf s = Done next s' ->
  ss_reader s' = ss_reader s /\
  (trim_frame buf = [] /\ next = StreamContinue false \/ refuses_without_token token buf next).
Proof.
  assert (forall {A} (m : M World A) s0 a s1, on_broker m s0 = Done a s1 -> ss_reader s1 = ss_reader s0) as Hb.
  { intros A m s0 a s1. unfold on_broker. destruct (m (ss_world s0)); intros; by simplify_eq. }
  unfold handle_frame, refuses_without_token. case_bool_decide as Hp; [intros [= <- <-]; auto|].
  unfold count. unfold mbind, M_bind at 1. unfold modify at 1. cbv beta iota.
  destruct (request_of_json (trim_frame buf)) as [err|request].
  - unfold mbind, M_bind, modify. destruct (on_broker _ _) eqn:Hd; intros Heq; try done.
    injection Heq as <- <-. apply Hb in Hd. auto.
  - unfold dispatch_request, count, mbind, M_bind, modify. simpl. intros Hd.
    destruct request; repeat case_bool_decide; simplify_eq;
      match type of Hd with match on_broker ?m ?s0 with _ => _ end = _ =>
        destruct (on_broker m s0) eqn:Hbr; try done; apply Hb in Hbr;
        injection Hd as <- <-; split; [done|by right] end.
Qed.

(** A connection that has not authenticated leaves the broker's state as it
    is and no token is issued, whatever it sends; it goes on only after a blank
    or malformed frame or a version request, and it becomes authenticated only
    by a frame that carries the server's token. *)
Theorem unauthenticated_leaves_broker token cap dl c elapsed s next s' :
  stream_iteration (Some token) cap dl c false elapsed s = Done next s' ->
  untouched (ss_world s) (ss_world s') /\
  match next with
  | StreamContinue _ => exists frame after rest,
      next_frame "frame" cap (contents (ss_reader s)).1 (contents (ss_reader s)).2 = Frame frame after rest /\
      contents (ss_reader s') = (after, rest) /\
      (trim_frame frame = [] /\ next = StreamContinue false \/ refuses_without_token token frame next)
  | _ => True
  end.
Proof.
  intros Hd. split; [by apply (unauthenticated_untouched _ _ _ _ _ _ _ _ Hd)|].
  destruct next as [authed| |]; [|done..]. unfold stream_iteration in Hd.
  destruct (dl && negb false && elapsed); [done|].
  pose proof (read_frame_spec "frame" cap (ss_reader s)) as Hf.
  apply wp_done in Hf as ([res buf] & r & Hr & _ & Hf).
  unfold on_reader, read_frame_bounded in Hd. unfold mbind, M_bind at 1 in Hd. rewrite Hr in Hd.
  destruct res as [err|[]]; simpl in Hf.
  - destruct (io_kind err); [|done]. exfalso. revert Hd. unfold mbind, M_bind, count, modify.
    by destruct (on_broker _ _).
  - destruct (next_frame _ _ _ _) as [| |frame after rest]; simpl in Hf; [done|naive_solver|].
    destruct Hf as (_ & -> & Hc). apply handle_frame_verdict in Hd as [Hrd Hd].
    exists frame, after, rest. by rewrite Hrd.
  - done.
Qed.

End facts.
