(* ===== verification/Client.v ===== *)
(** * The client library: [src/src/client.rs] and [src/src/fenced_client.rs]

    A client multiplexes its calls over one connection: every call registers a
    channel under its correlation id, writes one frame and waits on its
    channel; a reader task hands the responses out.  The calls, the reader's
    iterations and the timers interleave freely, so each is a step on the state
    the tasks share.  A call is the request it writes and what it makes of a
    response.  The fenced facade checks every grant before it is returned. *)

From S2P Require Import Prelude Text Monad Protocol Queue BrokerTypes BrokerState Broker BrokerOps.
From S2P Require Import BrokerSpec BrokerFencing BrokerSim BrokerRefine BrokerRuns.
From S2P Require Import BrokerClients BrokerTheorems BrokerAnswers Wire Server.
From S2P Require Import ServerFacts.
From stdpp Require Import options.

Inductive ClientError : Type :=
| ClientIo (err : IoError)
| ClientEncoding (message : string)
| ClientBroker (message : string)
| ClientTimeout (after : Z)
| ClientClosed
| ClientInvalid (message : string).

(** ** Guards *)

Record LockGuard : Type := mkLockGuard {
  lg_keys : list string;
  lg_lock_uuid : string;
  lg_fencing_token : option Z;
  lg_fencing_tokens : gmap string Z;
}.

(** [LockGuard::single] *)
Definition LockGuard_single (key lock_uuid : string) (fencing_token : option Z) : LockGuard :=
  mkLockGuard [key] lock_uuid fencing_token
    match fencing_token with Some t => {[key := t]} | None => ∅ end.

(** [LockGuard::composite] *)
Definition LockGuard_composite (keys : list string) (lock_uuid : string) (fencing_tokens : gmap string Z)
    : LockGuard :=
  mkLockGuard keys lock_uuid None fencing_tokens.

(** [RwReadGuard] and [RwWriteGuard]: the same fields. *)
Record RwGuard : Type := mkRwGuard {
  rg_key : string;
  rg_lock_uuid : string;
  rg_fencing_token : option Z;
}.

Record LockInfo : Type := mkLockInfo {
  li_key : string;
  li_is_locked : bool;
  li_lockholder_uuids : list string;
  li_lock_request_count : nat;
  li_readers_count : Z;
  li_writer_flag : bool;
}.

(** ** The frame limit *)

Definition DEFAULT_MAX_RESPONSE_FRAME_BYTES : Z := 1024 * 1024.

(** [max_response_frame_bytes]: the second variable is read only when the first
    is not set. *)
Definition max_response_frame_bytes (env : Environment) : Z :=
  match env "LMX_MAX_RESPONSE_FRAME_BYTES" with
  | Some _ => env_positive env "LMX_MAX_RESPONSE_FRAME_BYTES" DEFAULT_MAX_RESPONSE_FRAME_BYTES
  | None => env_positive env "LMX_MAX_FRAME_BYTES" DEFAULT_MAX_RESPONSE_FRAME_BYTES
  end.

(** ** The shared state *)

(** The calls in flight, by correlation id, with their channels; what each
    channel holds; what was written to the socket; the reader and whether its
    task runs. *)
Record ClientState : Type := mkClientState {
  cl_inflight : gmap string nat;
  cl_channels : gmap nat (list Response.t);
  cl_next_channel : nat;
  cl_written : bytes;
  cl_reader : Reader;
  cl_reader_running : bool;
}.

Definition set_inflight (x : gmap string nat) (s : ClientState) : ClientState :=
  mkClientState x (cl_channels s) (cl_next_channel s) (cl_written s) (cl_reader s) (cl_reader_running s).
Definition set_channels (x : gmap nat (list Response.t)) (s : ClientState) : ClientState :=
  mkClientState (cl_inflight s) x (cl_next_channel s) (cl_written s) (cl_reader s) (cl_reader_running s).
Definition set_reader (x : Reader) (s : ClientState) : ClientState :=
  mkClientState (cl_inflight s) (cl_channels s) (cl_next_channel s) (cl_written s) x (cl_reader_running s).

(** The client's state as [start] makes it. *)
Definition client_start (arrivals : list Arrival) : ClientState :=
  mkClientState ∅ ∅ 0 [] (mkReader [] arrivals) true.

(** [Client::register_inflight]: a new channel, whose sending half is in the
    map; a sender already there is replaced. *)
Definition register_inflight (uuid : string) : M ClientState nat := fun s =>
  Done (cl_next_channel s)
    (mkClientState (<[uuid := cl_next_channel s]> (cl_inflight s))
       (<[cl_next_channel s := []]> (cl_channels s)) (S (cl_next_channel s))
       (cl_written s) (cl_reader s) (cl_reader_running s)).

(** [Client::unregister_inflight] *)
Definition unregister_inflight (uuid : string) : M ClientState unit :=
  modify (fun s => set_inflight (delete uuid (cl_inflight s)) s).

(** [UnboundedSender::send] *)
Definition push_response (ch : nat) (response : Response.t) : M ClientState unit :=
  modify (fun s => set_channels (alter (fun q => q ++ [response]) ch (cl_channels s)) s).

Inductive RecvOutcome : Type :=
| RecvMessage (response : Response.t)
| RecvClosed
| RecvPending.

(** A poll of [UnboundedReceiver::recv]: the channel is closed once it is empty
    and its sender is no longer in the map. *)
Definition recv (ch : nat) : M ClientState RecvOutcome := fun s =>
  match default [] (cl_channels s !! ch) with
  | response :: rest => Done (RecvMessage response) (set_channels (<[ch := rest]> (cl_channels s)) s)
  | [] =>
      if bool_decide (ch ∈ (map_to_list (cl_inflight s)).*2) then Done RecvPending s
      else Done RecvClosed s
  end.

Section client.
Context `{WC : WireCodec}.

(** ** The reader task *)

(** The end of the reader's task: every call in flight gets an error. *)
Definition drain_inflight : M ClientState unit :=
  s ← get;
  for_each (map_to_list (cl_inflight s))
    (fun '(uuid, ch) => push_response ch (Response.Error uuid "broker connection closed")) ;;
  modify (fun s => mkClientState ∅ (cl_channels s) (cl_next_channel s) (cl_written s) (cl_reader s) false).

(** A frame that was read. *)
Definition dispatch_frame (buf : bytes) : M ClientState unit :=
  let payload := trim_frame buf in
  if bool_decide (payload = []) then mret tt
  else
    match response_of_json payload with
    | inl _ => mret tt
    | inr response =>
        s ← get;
        match cl_inflight s !! Response.correlation_uuid response with
        | Some ch => push_response ch response
        | None => mret tt
        end
    end.

(** An iteration of the reader's loop. *)
Definition reader_iteration (frame_cap : Z) : M ClientState unit := fun s =>
  if cl_reader_running s then
    match read_response_frame_bounded frame_cap (cl_reader s) with
    | Done (res, buf) r =>
        match res with
        | inr true => dispatch_frame buf (set_reader r s)
        | _ => drain_inflight (set_reader r s)
        end
    | Panicked msg => Panicked msg
    | OutOfFuel => OutOfFuel
    end
  else Done tt s.

(** ** Writing *)

(** What becomes of a write to the socket. *)
Inductive WriteOutcome : Type :=
| WriteDone
| WriteFailed (written : nat) (err : IoError).

(** [Client::write_request] *)
Definition write_request (request : Request.t) (outcome : WriteOutcome)
    : M ClientState (ClientError + unit) := fun s =>
  let write b := mkClientState (cl_inflight s) (cl_channels s) (cl_next_channel s) (cl_written s ++ b)
                   (cl_reader s) (cl_reader_running s) in
  match request_to_json request with
  | inl message => Done (inl (ClientEncoding message)) s
  | inr b =>
      match outcome with
      | WriteDone => Done (inr tt) (write (frame_bytes b))
      | WriteFailed n err => Done (inl (ClientIo err)) (write (take n (frame_bytes b)))
      end
  end.

(** The first part of every call: register, write, and give up when the write
    fails. *)
Definition begin_call (request : Request.t) (outcome : WriteOutcome)
    : M ClientState (ClientError + nat) :=
  ch ← register_inflight (Request.uuid request);
  res ← write_request request outcome;
  match res with
  | inl err => unregister_inflight (Request.uuid request) ;; mret (inl err)
  | inr _ => mret (inr ch)
  end.

(** An iteration of a waiting loop: [elapsed] when the deadline has passed,
    [accept] what the call makes of a response ([None]: wait on).  The result
    is [None] while the call waits. *)
Definition wait_iteration {A} (timeout : Z) (elapsed : bool)
    (accept : Response.t -> option (ClientError + A)) (ch : nat)
    : M ClientState (option (ClientError + A)) :=
  if elapsed then mret (Some (inl (ClientTimeout timeout)))
  else
    outcome ← recv ch;
    match outcome with
    | RecvMessage response => mret (accept response)
    | RecvClosed => mret (Some (inl ClientClosed))
    | RecvPending => mret None
    end.

(** The last part of every call. *)
Definition end_call (uuid : string) : M ClientState unit := unregister_inflight uuid.

(** ** The calls: requests *)

(** [Duration::as_millis] truncated to [u64] *)
Definition ttl_ms (ttl : Z) : Z := as_u64 (duration_as_millis ttl).

(** The request of [acquire_internal] and [try_acquire_internal]. *)
Definition acquire_request (uuid : string) (key : option string) (keys : option (list string))
    (pid ttl : Z) (max_ : option Z) (wait : bool) : Request.t :=
  Request.Lock uuid key keys (Some pid) (Some (ttl_ms ttl)) max_ false 0 false (Some wait).

(** [Client::acquire] and [Client::try_acquire] *)
Definition single_request (uuid key : string) (pid ttl : Z) (wait : bool) : Request.t :=
  acquire_request uuid (Some key) None pid ttl None wait.

(** [Client::acquire_with_max] *)
Definition acquire_with_max_request (uuid key : string) (max_ pid ttl : Z) : ClientError + Request.t :=
  if bool_decide (max_ = 0)
  then inl (ClientInvalid "acquire_with_max requires max >= 1; use acquire() for default semantics")
  else inr (acquire_request uuid (Some key) None pid ttl (Some max_) true).

(** [Client::acquire_composite] and [Client::try_acquire_composite] *)
Definition composite_acquire_request (uuid : string) (keys : list string) (pid ttl : Z) (wait : bool)
    : ClientError + Request.t :=
  if bool_decide (keys = []) || bool_decide (MAX_COMPOSITE_KEYS < length keys)%nat
  then inl (ClientInvalid ("composite acquire requires 1..=" +:+ pretty MAX_COMPOSITE_KEYS +:+ " keys")%string)
  else inr (acquire_request uuid None (Some keys) pid ttl None wait).

(** [Client::release] *)
Definition release_request (uuid : string) (guard : LockGuard) : Request.t :=
  Request.Unlock uuid
    match lg_keys guard with [key] => Some key | _ => None end
    (if bool_decide (1 < length (lg_keys guard))%nat then Some (lg_keys guard) else None)
    (Some (lg_lock_uuid guard)) false.

(** [RwReadGuard::release] and [RwWriteGuard::release] *)
Definition rw_release_request (uuid : string) (guard : RwGuard) : Request.t :=
  release_request uuid (LockGuard_single (rg_key guard) (rg_lock_uuid guard) (rg_fencing_token guard)).

(** ** The calls: responses *)

(** The [match] of [wait_for_acquire]. *)
Definition wait_for_acquire (response : Response.t) : option (ClientError + LockGuard) :=
  match response with
  | Response.Lock _ key true _ (Some lock_uuid) fencing_token _ _ =>
      Some (inr (LockGuard_single key lock_uuid fencing_token))
  | Response.CompositeLock _ keys true (Some lock_uuid) fencing_tokens _ =>
      Some (inr (LockGuard_composite keys lock_uuid (default ∅ fencing_tokens)))
  | Response.Error _ error => Some (inl (ClientBroker error))
  | _ => None
  end.

(** The [match] of [try_acquire_internal]: one response decides. *)
Definition try_acquire_response (response : Response.t) : ClientError + option LockGuard :=
  match response with
  | Response.Lock _ key true _ (Some lock_uuid) fencing_token _ _ =>
      inr (Some (LockGuard_single key lock_uuid fencing_token))
  | Response.CompositeLock _ keys true (Some lock_uuid) fencing_tokens _ =>
      inr (Some (LockGuard_composite keys lock_uuid (default ∅ fencing_tokens)))
  | Response.Lock _ _ false _ _ _ _ _ | Response.CompositeLock _ _ false _ _ _ => inr None
  | Response.Error _ error => inl (ClientBroker error)
  | other => inl (ClientBroker ("unexpected try-acquire response: " +:+ response_debug other)%string)
  end.

(** The [match] of [wait_for_rw_grant]. *)
Definition wait_for_rw_grant (is_read : bool) (response : Response.t)
    : option (ClientError + (string * option Z)) :=
  match is_read, response with
  | true, Response.RegisterReadResult _ _ _ _ true (Some u) fencing_token
  | false, Response.RegisterWriteResult _ _ _ _ true (Some u) fencing_token => Some (inr (u, fencing_token))
  | _, Response.Error _ error => Some (inl (ClientBroker error))
  | _, _ => None
  end.

(** [RwClient::acquire_read] and [RwClient::acquire_write] *)
Definition rw_guard (key : string) (grant : string * option Z) : RwGuard := mkRwGuard key grant.1 grant.2.

Definition release_response (response : Response.t) : ClientError + unit :=
  match response with
  | Response.Unlock _ _ true _ _ => inr tt
  | Response.Unlock _ _ false _ error =>
      inl (ClientBroker (default "unlock returned unlocked=false"%string error))
  | Response.Error _ error => inl (ClientBroker error)
  | other => inl (ClientBroker ("unexpected unlock response: " +:+ response_debug other)%string)
  end.

Definition lock_info_response (response : Response.t) : ClientError + LockInfo :=
  match response with
  | Response.LockInfo _ key is_locked lockholder_uuids lock_request_count readers_count writer_flag =>
      inr (mkLockInfo key is_locked lockholder_uuids lock_request_count readers_count writer_flag)
  | Response.Error _ error => inl (ClientBroker error)
  | other => inl (ClientBroker ("unexpected: " +:+ response_debug other)%string)
  end.

Definition ls_response (response : Response.t) : ClientError + list string :=
  match response with
  | Response.LsResult _ keys => inr keys
  | other => inl (ClientBroker ("unexpected: " +:+ response_debug other)%string)
  end.

(** What [start] makes of the answer to its authentication. *)
Definition auth_response (response : Response.t) : ClientError + unit :=
  match response with
  | Response.Auth _ true _ => inr tt
  | Response.Auth _ false error => inl (ClientBroker (default "auth failed"%string error))
  | other => inl (ClientBroker ("unexpected auth response: " +:+ response_debug other)%string)
  end.

(** ** The fenced facade *)

Definition MAX_FENCING_TOKEN : Z := 9007199254740991.

Definition valid_token (token : Z) : bool := bool_decide (1 <= token <= MAX_FENCING_TOKEN).

Definition invalid (msg : string) : ClientError :=
  ClientInvalid ("invalid fenced authority from broker: " +:+ msg)%string.

(** The [Debug] form of a string. *)
Definition debug_string (s : string) : string :=
  String quote_char (escape_debug s +:+ String quote_char EmptyString)%string.

(** The loop of [validate_guard] over the keys of a composite. *)
Fixpoint validate_composite_keys (tokens : gmap string Z) (unique : gset string) (keys : list string)
    : option ClientError :=
  match keys with
  | [] => None
  | key :: keys =>
      if bool_decide (key ∈ unique)
      then Some (invalid ("composite grant repeated key " +:+ debug_string key)%string)
      else
        match tokens !! key with
        | None => Some (invalid ("composite grant omitted token for key " +:+ debug_string key)%string)
        | Some token =>
            if negb (valid_token token)
            then Some (invalid ("composite token for " +:+ debug_string key +:+ " outside 1..="
                                +:+ pretty MAX_FENCING_TOKEN)%string)
            else validate_composite_keys tokens ({[key]} ∪ unique) keys
        end
  end.

(** [validate_guard]: [None] is [Ok(())]. *)
Definition validate_guard (guard : LockGuard) : option ClientError :=
  match lg_keys guard with
  | [] => Some (invalid "grant contained no protected keys")
  | keys =>
      if bool_decide (lg_lock_uuid guard = EmptyString) then Some (invalid "grant omitted lock_uuid")
      else
        match keys with
        | [key] =>
            match lg_fencing_token guard with
            | None => Some (invalid "single-key grant omitted fencing_token")
            | Some token =>
                if negb (valid_token token)
                then Some (invalid ("single-key fencing token " +:+ pretty token +:+ " outside 1..="
                                    +:+ pretty MAX_FENCING_TOKEN)%string)
                else if negb (bool_decide (size (lg_fencing_tokens guard) = 1%nat))
                        || negb (bool_decide (lg_fencing_tokens guard !! key = Some token))
                then Some (invalid "single-key grant token map does not exactly match fencing_token")
                else None
            end
        | _ =>
            if bool_decide (lg_fencing_token guard <> None)
            then Some (invalid "composite grant exposed an ambiguous scalar fencing_token")
            else if negb (bool_decide (size (lg_fencing_tokens guard) = length keys))
            then Some (invalid "composite grant token/key cardinality mismatch")
            else validate_composite_keys (lg_fencing_tokens guard) ∅ keys
        end
  end.

(** [validate_rw_token] *)
Definition validate_rw_token (lock_uuid : string) (token : option Z) (kind : string) : option ClientError :=
  if bool_decide (lock_uuid = EmptyString) then Some (invalid (kind +:+ " grant omitted lock_uuid")%string)
  else
    match token with
    | None => Some (invalid (kind +:+ " grant omitted fencing_token")%string)
    | Some token =>
        if negb (valid_token token)
        then Some (invalid (kind +:+ " fencing token " +:+ pretty token +:+ " outside 1..="
                            +:+ pretty MAX_FENCING_TOKEN)%string)
        else None
    end.

(** [acquire], [acquire_with_max] and [acquire_composite] of the facade. *)
Definition fenced_acquire (result : ClientError + LockGuard) : ClientError + LockGuard :=
  match result with
  | inl err => inl err
  | inr guard => match validate_guard guard with Some err => inl err | None => inr guard end
  end.

(** [try_acquire] and [try_acquire_composite] of the facade. *)
Definition fenced_try_acquire (result : ClientError + option LockGuard) : ClientError + option LockGuard :=
  match result with
  | inr (Some guard) => match validate_guard guard with Some err => inl err | None => inr (Some guard) end
  | other => other
  end.

(** [acquire_read] and [acquire_write] of the facade. *)
Definition fenced_rw_acquire (kind : string) (result : ClientError + RwGuard) : ClientError + RwGuard :=
  match result with
  | inl err => inl err
  | inr guard =>
      match validate_rw_token (rg_lock_uuid guard) (rg_fencing_token guard) kind with
      | Some err => inl err
      | None => inr guard
      end
  end.

End client.

(** * What the client library guarantees

    Responses reach the call they answer and no other; a request written by a
    client is handled by the server and its response returns to the call, no
    matter how the network cuts the bytes; a guard the fenced facade returns
    carries complete authority. *)

(** ** The fenced facade *)

(** Complete authority: some keys without repetition, a lock id, and exactly
    one valid token for each key; the scalar token is that of a single key. *)
Record authority (g : LockGuard) : Prop := {
  au_keys : lg_keys g <> [];
  au_nodup : NoDup (lg_keys g);
  au_uuid : lg_lock_uuid g <> EmptyString;
  au_dom : dom (lg_fencing_tokens g) = list_to_set (lg_keys g);
  au_tokens : map_Forall (fun _ t => 1 <= t <= MAX_FENCING_TOKEN) (lg_fencing_tokens g);
  au_scalar : lg_fencing_token g =
    match lg_keys g with [key] => lg_fencing_tokens g !! key | _ => None end;
}.

Lemma validate_composite_keys_ok tokens unique keys :
  validate_composite_keys tokens unique keys = None <->
  NoDup keys /\ Forall (fun k => k ∉ unique) keys /\
  Forall (fun k => exists t, tokens !! k = Some t /\ 1 <= t <= MAX_FENCING_TOKEN) keys.
Proof.
  revert unique. induction keys as [|key keys IH]; intros unique; simpl.
  { split; [|done]. intros _. by split_and!; constructor. }
  rewrite NoDup_cons, !Forall_cons. case_bool_decide as Hu; [naive_solver|].
  destruct (tokens !! key) as [t|]; [|naive_solver].
  unfold valid_token. case_bool_decide as Ht; simpl; [|naive_solver].
  rewrite IH. rewrite !Forall_forall. split.
  - intros (H1 & H2 & H3). split_and!; try done; [|set_solver|naive_solver].
    intros Hin. specialize (H2 _ Hin). set_solver.
  - intros ([H1 H2] & [H3 H4] & H5 & H6). split_and!; try done. set_solver.
Qed.

(** As many tokens as distinct keys, all of which have one: no others. *)
Lemma tokens_exactly (tokens : gmap string Z) (keys : list string) :
  NoDup keys -> Forall (fun k => is_Some (tokens !! k)) keys ->
  size tokens = length keys <-> dom tokens = list_to_set keys.
Proof.
  intros Hnd Hk. assert (list_to_set keys ⊆@{gset string} dom tokens) as Hsub.
  { intros k Hin%elem_of_list_to_set. rewrite Forall_forall in Hk. by apply elem_of_dom, Hk. }
  rewrite <-size_dom. split.
  - intros Hs. symmetry. apply set_subseteq_size_eq; [done|]. rewrite size_list_to_set by done. lia.
  - intros ->. by apply size_list_to_set.
Qed.


(** ** Channels *)

Section channels.
Context `{WC : WireCodec}.

(** Different calls in flight have different channels, all made before. *)
Record client_ok (s : ClientState) : Prop := {
  ck_inj u u' ch : cl_inflight s !! u = Some ch -> cl_inflight s !! u' = Some ch -> u = u';
  ck_old u ch : cl_inflight s !! u = Some ch -> (ch < cl_next_channel s)%nat;
}.

(** What the tasks of a client do, in any order. *)
Inductive client_step (s s' : ClientState) : Prop :=
| cs_begin request outcome res : begin_call request outcome s = Done res s' -> client_step s s'
| cs_reader cap : reader_iteration cap s = Done tt s' -> client_step s s'
| cs_recv ch outcome : recv ch s = Done outcome s' -> client_step s s'
| cs_end uuid : end_call uuid s = Done tt s' -> client_step s s'.

Definition keys_kept (s s' : ClientState) : Prop :=
  cl_inflight s' ⊆ cl_inflight s /\ cl_next_channel s' = cl_next_channel s.

#[local] Instance keys_kept_preorder : PreOrder keys_kept.
Proof.
  split; [done|]. intros s1 s2 s3 [H1 H2] [H3 H4]. split; [by etrans|congruence].
Qed.

Lemma keys_kept_ok s s' : keys_kept s s' -> client_ok s -> client_ok s'.
Proof.
  intros [H1 H2] [H3 H4]. split.
  - intros u u' ch Hu Hu'. eapply H3; by eapply lookup_weaken.
  - intros u ch Hu. rewrite H2. eapply H4. by eapply lookup_weaken.
Qed.

Lemma kept_push ch r : keeps keys_kept (push_response ch r).
Proof. by apply keeps_modify; [apply _|]. Qed.

Lemma kept_drain : keeps keys_kept drain_inflight.
Proof.
  unfold drain_inflight. keeps_split; [destruct x; apply kept_push|].
  apply keeps_modify; [apply _|]. intros s1. split; [apply map_empty_subseteq|done].
Qed.

Lemma kept_dispatch buf : keeps keys_kept (dispatch_frame buf).
Proof. unfold dispatch_frame. pose proof kept_push. keeps_split. Qed.

Lemma kept_reader cap : keeps keys_kept (reader_iteration cap).
Proof.
  intros s [] s'. unfold reader_iteration. destruct (cl_reader_running s); [|intros [= <-]; by split].
  destruct (read_response_frame_bounded cap (cl_reader s)) as [[res buf] r| |]; try done.
  intros Hd. assert (keys_kept (set_reader r s) s') as H; [|exact H].
  destruct res as [|[]]; [by eapply kept_drain|by eapply kept_dispatch|by eapply kept_drain].
Qed.

Lemma register_ok uuid s : client_ok s ->
  client_ok (mkClientState (<[uuid := cl_next_channel s]> (cl_inflight s))
    (<[cl_next_channel s := []]> (cl_channels s)) (S (cl_next_channel s))
    (cl_written s) (cl_reader s) (cl_reader_running s)).
Proof.
  intros [H1 H2]. split; simpl.
  - intros u u' ch Hu Hu'. rewrite lookup_insert_Some in Hu, Hu'.
    destruct Hu as [[<- <-]|[Hn Hu]], Hu' as [[<- Hc]|[Hn' Hu']]; try done.
    + apply H2 in Hu'. lia.
    + subst. apply H2 in Hu. lia.
    + by eapply H1.
  - intros u ch Hu. rewrite lookup_insert_Some in Hu. destruct Hu as [[_ <-]|[_ Hu]]; [lia|].
    apply H2 in Hu. lia.
Qed.

Lemma client_step_ok s s' : client_step s s' -> client_ok s -> client_ok s'.
Proof.
  intros Hstep Hok. destruct Hstep as [request outcome res Hd|cap Hd|ch outcome Hd|uuid Hd].
  - unfold begin_call in Hd. unfold mbind, M_bind, register_inflight in Hd. cbv beta iota in Hd.
    pose proof (register_ok (Request.uuid request) s Hok) as Hok1.
    unfold write_request in Hd. simpl in Hd.
    assert (forall b, client_ok (mkClientState (<[Request.uuid request := cl_next_channel s]> (cl_inflight s))
      (<[cl_next_channel s := []]> (cl_channels s)) (S (cl_next_channel s)) b (cl_reader s) (cl_reader_running s)))
      as Hok2 by (intros b; destruct Hok1 as [H1 H2]; by split).
    assert (forall s1 u, client_ok s1 -> client_ok (set_inflight (delete u (cl_inflight s1)) s1)) as Hdel.
    { intros s1 u. apply keys_kept_ok. split; [apply delete_subseteq|done]. }
    destruct (request_to_json request) as [msg|b]; [|destruct outcome]; injection Hd as _ <-;
      [exact (Hdel _ _ Hok1)|apply Hok2|exact (Hdel _ _ (Hok2 _))].
  - by eapply keys_kept_ok; [eapply kept_reader|].
  - unfold recv in Hd. repeat case_match; simplify_eq; try done. by destruct Hok.
  - unfold end_call, unregister_inflight in Hd. injection Hd as <-.
    eapply keys_kept_ok; [|done]. split; [apply delete_subseteq|done].
Qed.

Lemma client_reachable_ok arrivals s : star client_step (client_start arrivals) s -> client_ok s.
Proof.
  assert (client_ok (client_start arrivals)) as H0 by (split; simpl; intros *; by rewrite lookup_empty).
  intros Hs. revert H0. generalize (client_start arrivals), Hs. clear. intros s0 Hs.
  induction Hs as [|s1 s2 s3 H12 _ IH]; intros H0; [done|]. by apply IH, (client_step_ok s1).
Qed.

End channels.

(** ** Responses return to their call *)

Section exchange.
Context `{LQ : LinkedQueueCrate} `{E : Env} `{WC : WireCodec} (L : WireCodecLaws).

Fixpoint reader_iterations (n : nat) (cap : Z) : M ClientState unit :=
  match n with
  | O => mret tt
  | S n => reader_iteration cap ;; reader_iterations n cap
  end.

(** A response hands on to the call registered under its correlation id. *)
Definition dispatched (response : Response.t) (s : ClientState) : gmap nat (list Response.t) :=
  match cl_inflight s !! Response.correlation_uuid response with
  | Some ch => alter (fun q => q ++ [response]) ch (cl_channels s)
  | None => cl_channels s
  end.

Lemma reader_iteration_frame cap s response after rest :
  cl_reader_running s = true ->
  contents (cl_reader s) = (response_frame response ++ after, rest) ->
  Z.of_nat (length (response_frame response)) <= cap ->
  exists r, reader_iteration cap s = Done tt (set_channels (dispatched response s) (set_reader r s)) /\
    contents r = (after, rest).
Proof using L.
  intros Hrun Hc Hlen. unfold reader_iteration. rewrite Hrun.
  destruct (response_text response) as (b & Hb & Hp & Hline).
  unfold response_frame in Hc, Hlen. rewrite Hb in Hc, Hlen.
  pose proof (read_frame_spec "response frame" cap (cl_reader s)) as Hf.
  apply wp_done in Hf as ([res buf] & r & Hr & _ & Hf). rewrite Hc in Hf. simpl in Hf.
  rewrite next_frame_line in Hf; [|done|unfold frame_bytes in Hlen; rewrite length_app in Hlen; simpl in Hlen; lia].
  destruct Hf as (-> & -> & Hr'). unfold read_response_frame_bounded. rewrite Hr.
  exists r. split; [|done]. unfold dispatch_frame. rewrite trim_frame_line by done.
  rewrite bool_decide_eq_false_2 by apply Hline. rewrite Hp.
  unfold get, mbind, M_bind, dispatched. simpl.
  by destruct (cl_inflight s !! Response.correlation_uuid response).
Qed.

(** The frames of several responses: each call gets its own, in their order. *)
Lemma reader_iterations_frames cap uuid ch responses : forall s q after rest,
  client_ok s -> cl_reader_running s = true ->
  cl_inflight s !! uuid = Some ch -> cl_channels s !! ch = Some q ->
  contents (cl_reader s) = (mjoin (response_frame <$> responses) ++ after, rest) ->
  Forall (fun r => Z.of_nat (length (response_frame r)) <= cap) responses ->
  exists s', reader_iterations (length responses) cap s = Done tt s' /\
    cl_channels s' !! ch = Some (q ++ filter (fun r => Response.correlation_uuid r = uuid) responses) /\
    contents (cl_reader s') = (after, rest).
Proof using L.
  induction responses as [|response responses IH]; intros s q after rest Hok Hrun Hu Hq Hc Hlen.
  - exists s. split; [done|]. simpl. by rewrite app_nil_r.
  - apply Forall_cons in Hlen as [H1 H2]. simpl in Hc. rewrite <-app_assoc in Hc.
    destruct (reader_iteration_frame cap s response _ _ Hrun Hc H1) as (r & Hd & Hr).
    set (s1 := set_channels (dispatched response s) (set_reader r s)) in *.
    assert (cl_channels s1 !! ch = Some (q ++ filter (fun r => Response.correlation_uuid r = uuid) [response]))
      as Hq1.
    { simpl. unfold dispatched. rewrite filter_cons, filter_nil. case_decide as Hcu.
      - rewrite Hcu, Hu, lookup_alter_eq, Hq. done.
      - rewrite app_nil_r. destruct (cl_inflight s !! Response.correlation_uuid response) as [ch'|] eqn:Hch; [|done].
        rewrite lookup_alter_ne; [done|]. intros ->. by apply Hcu, (ck_inj s Hok _ _ ch). }
    destruct (IH s1 (q ++ filter (fun r => Response.correlation_uuid r = uuid) [response]) after rest)
      as (s' & Hd' & Hq' & Hc'); try done.
    { destruct Hok as [Ha Hb]. by split. }
    exists s'. split_and!; [|rewrite Hq', <-app_assoc, <-filter_app; done|done].
    simpl. unfold mbind, M_bind. by rewrite Hd.
Qed.

(** An authenticated connection reads a request, whatever its packets. *)
Lemma stream_iteration_request tok cap dl c elapsed s b request after rest w' :
  contents (ss_reader s) = (frame_bytes b ++ after, rest) ->
  is_line b -> Z.of_nat (length (frame_bytes b)) <= cap ->
  request_of_json b = inr request ->
  handle_request c request (ss_world s) = Done tt w' ->
  exists s', stream_iteration tok cap dl c true elapsed s = Done (StreamContinue true) s' /\
    ss_world s' = w' /\ contents (ss_reader s') = (after, rest).
Proof.
  intros Hc Hline Hlen Hj Hh. unfold stream_iteration. rewrite andb_false_r. simpl.
  pose proof (read_frame_spec "frame" cap (ss_reader s)) as Hf.
  apply wp_done in Hf as ([res buf] & r & Hr & _ & Hf). rewrite Hc in Hf. simpl in Hf.
  rewrite next_frame_line in Hf; [|done|unfold frame_bytes in Hlen; rewrite length_app in Hlen; simpl in Hlen; lia].
  destruct Hf as (-> & -> & Hr').
  erewrite bind_done by (unfold on_reader, read_frame_bounded; by rewrite Hr).
  unfold handle_frame. rewrite trim_frame_line, bool_decide_eq_false_2 by (done || apply Hline).
  rewrite Hj. erewrite bind_done by done. unfold dispatch_request. simpl.
  erewrite bind_done by (unfold on_broker; simpl; by rewrite Hh). eexists. by split.
Qed.

Lemma deliveries_elem c r tr : Delivered c r ∈ tr -> r ∈ deliveries c tr.
Proof.
  induction tr as [|e tr IH]; [by intros ?%elem_of_nil|].
  intros [<-|Hin]%elem_of_cons; simpl; [rewrite bool_decide_eq_true_2 by done; left|].
  destruct e; auto. case_bool_decide; [right|]; auto.
Qed.


End exchange.
