(* ===== verification/Http.v ===== *)
(** * The HTTP API: [src/src/server.rs]

    The lock endpoints of the stand-alone server (2195-2750) with the
    authorisation and request ids they share (1017-1115), and the request and
    response bodies of [protocol.rs] (263-378).  A handler registers a client
    for the request, waits for its response and drops the client again; the
    broker operations other tasks run while it waits are arguments of the
    model, as is the UUID it draws.  Durations and counters are left out. *)

From S2P Require Import Prelude Text Monad Protocol Queue BrokerTypes BrokerState Broker BrokerOps.
From S2P Require Import BrokerSpec BrokerFencing BrokerSim BrokerRefine BrokerRuns.
From S2P Require Import BrokerClients BrokerTheorems BrokerAnswers BrokerGrants Wire.
From S2P Require Import Server ServerFacts.
From stdpp Require Import options.

(** ** Bodies *)

Record AcquireRequest : Type := mkAcquireRequest {
  aq_request_id : option string;
  aq_key : option string;
  aq_keys : option (list string);
  aq_ttl_ms : option Z;
  aq_max : option Z;
  aq_wait_ms : option Z;
}.

Record AcquireResponse : Type := mkAcquireResponse {
  ar_acquired : bool;
  ar_keys : list string;
  ar_lock_uuid : option string;
  ar_fencing_tokens : gmap string Z;
  ar_queue_depth : nat;
  ar_error : option string;
}.

Record ReleaseRequest : Type := mkReleaseRequest {
  rq_request_id : option string;
  rq_key : option string;
  rq_keys : option (list string);
  rq_lock_uuid : option string;
  rq_force : bool;
}.

Record RwAcquireRequest : Type := mkRwAcquireRequest {
  rw_key : string;
  rw_wait_ms : option Z;
}.

Record RwAcquireResponse : Type := mkRwAcquireResponse {
  rr_granted : bool;
  rr_key : string;
  rr_readers_count : Z;
  rr_writer_flag : bool;
  rr_lock_uuid : option string;
  rr_fencing_token : option Z;
}.

Record RwReleaseRequest : Type := mkRwReleaseRequest {
  rl_key : string;
  rl_lock_uuid : string;
}.

Inductive StatusCode : Type := OK | BAD_REQUEST | UNAUTHORIZED | SERVICE_UNAVAILABLE.

(** The bodies the handlers send: text, the typed bodies, and the small JSON
    objects. *)
Inductive HttpBody : Type :=
| BodyText (text : string)
| BodyAcquire (body : AcquireResponse)
| BodyRelease (unlocked : bool) (keys : list string)
| BodyRwAcquire (body : RwAcquireResponse)
| BodyRwRelease (key : string) (readers_count : Z) (writer_flag : bool)
| BodyLockInfo (key : string) (is_locked : bool) (lockholder_uuids : list string)
    (lock_request_count : nat) (readers_count : Z) (writer_flag : bool)
| BodyKeys (keys : list string)
| BodyError (error : string)
| BodyAcquireError (error : string)
| BodyUnlockError (error : string)
| BodyUnlockFailed.

Record HttpReply : Type := mkHttpReply {
  hr_status : StatusCode;
  hr_body : HttpBody;
}.

(** ** Authorisation and request ids *)

(** [HeaderMap::get] and [HeaderValue::to_str]: the text of a header, under its
    lower-case name. *)
Abbreviation Headers := (string -> option string).

Definition http_unauthorized : HttpReply := mkHttpReply UNAUTHORIZED (BodyText "unauthorized").

(** [http_token_matches] *)
Definition http_token_matches (headers : Headers) (token : string) : bool :=
  bool_decide ((headers "authorization" ≫= strip_prefix "Bearer ") = Some token)
  || bool_decide (headers "auth" = Some token)
  || bool_decide (headers "x-lmx-auth" = Some token).

(** [http_authorized] *)
Definition http_authorized (auth_token : option string) (headers : Headers) : bool :=
  match auth_token with
  | None => true
  | Some token => http_token_matches headers token
  end.

Definition MAX_REQUEST_ID_LEN : nat := 256.

(** [.map(str::trim).filter(|value| !value.is_empty())] *)
Definition trimmed_non_empty (value : option string) : option string :=
  value ← value;
  if bool_decide (trim value = EmptyString) then None else Some (trim value).

(** The first of the three headers that is there. *)
Fixpoint first_header (headers : Headers) (names : list string) : option string :=
  match names with
  | [] => None
  | name :: names =>
      match headers name with Some value => Some value | None => first_header headers names end
  end.

(** [http_request_id]; [fresh] is the UUID drawn when there is none. *)
Definition http_request_id (headers : Headers) (body_request_id : option string) (fresh : string)
    : HttpReply + string :=
  let header_request_id := trimmed_non_empty
    (first_header headers ["x-lmx-request-id"; "idempotency-key"; "x-idempotency-key"]) in
  let body_request_id := trimmed_non_empty body_request_id in
  let too_long := mkHttpReply BAD_REQUEST
    (BodyError ("requestId must be at most " +:+ pretty MAX_REQUEST_ID_LEN +:+ " bytes")%string) in
  let checked (request_id : string) : HttpReply + string :=
    if bool_decide (MAX_REQUEST_ID_LEN < String.length request_id)%nat then inl too_long else inr request_id in
  match body_request_id, header_request_id with
  | Some body, Some header =>
      if bool_decide (body <> header)
      then inl (mkHttpReply BAD_REQUEST (BodyError "requestId and idempotency header disagree"))
      else checked body
  | Some value, None | None, Some value => checked value
  | None, None => checked fresh
  end.

(** ** Waiting for the response *)

(** [wait_for]'s [matches!]: after such a response nothing else comes. *)
Definition definitive (response : Response.t) : bool :=
  match response with
  | Response.Lock _ _ true _ _ _ _ _ | Response.CompositeLock _ _ true _ _ _
  | Response.RegisterReadResult _ _ _ _ true _ _ | Response.RegisterWriteResult _ _ _ _ true _ _
  | Response.Unlock _ _ _ _ _ | Response.EndReadResult _ _ _ | Response.EndWriteResult _ _ _ _
  | Response.LockInfo _ _ _ _ _ _ _ | Response.LsResult _ _ | Response.Error _ _ => true
  | _ => false
  end.

(** The loop of [wait_for] on the messages received so far: it has returned, or
    it waits, with [last_match]. *)
Inductive Waited : Type :=
| WaitReturned (response : option Response.t)
| WaitPending (last_match : option Response.t).

Fixpoint wait_for (request_uuid : string) (keep_polling_until_definitive : bool)
    (last_match : option Response.t) (messages : list Response.t) : Waited :=
  match messages with
  | [] => WaitPending last_match
  | msg :: messages =>
      if bool_decide (Response.correlation_uuid msg = request_uuid) then
        if definitive msg || negb keep_polling_until_definitive then WaitReturned (Some msg)
        else wait_for request_uuid keep_polling_until_definitive (Some msg) messages
      else wait_for request_uuid keep_polling_until_definitive last_match messages
  end.

(** What [wait_for] returns, at the latest when its deadline passes. *)
Definition wait_result (w : Waited) : option Response.t :=
  match w with WaitReturned response | WaitPending response => response end.

(** The id of a grant. *)
Definition granted_uuid (response : Response.t) : option string :=
  match response with
  | Response.Lock _ _ true _ (Some u) _ _ _ | Response.CompositeLock _ _ true (Some u) _ _
  | Response.RegisterReadResult _ _ _ _ true (Some u) _
  | Response.RegisterWriteResult _ _ _ _ true (Some u) _ => Some u
  | _ => None
  end.

Section http.
Context `{LQ : LinkedQueueCrate} `{E : Env}.

(** What other tasks do to the broker while a handler runs: before its request,
    while it waits, before it detaches the lock, and before it drops its
    client. *)
Record Meanwhile : Type := mkMeanwhile {
  mw_registered : list Op;
  mw_waiting : list Op;
  mw_detaching : list Op;
  mw_dropping : list Op;
}.

Definition nobody_else : Meanwhile := mkMeanwhile [] [] [] [].

(** [run_ephemeral] up to the outcome: the client registered for the request,
    and what [wait_for] returns. *)
Definition ephemeral_outcome (request : Request.t) (request_uuid : string) (is_acquire : bool)
    (others : Meanwhile) : M World (ClientId * option Response.t) :=
  client_id ← register_client;
  run (mw_registered others) ;;
  w0 ← get;
  handle_request client_id request ;;
  run (mw_waiting others) ;;
  w ← get;
  mret (client_id, wait_result (wait_for request_uuid is_acquire None
                     (deliveries client_id (drop (length (trace w0)) (trace w))))).

(** [run_ephemeral] from the outcome on. *)
Definition ephemeral_end (client_id : ClientId) (outcome : option Response.t) (others : Meanwhile)
    : M World unit :=
  run (mw_detaching others) ;;
  match outcome ≫= granted_uuid with
  | Some lock_uuid => detach_lock_from_client client_id lock_uuid
  | None => mret tt
  end ;;
  run (mw_dropping others) ;;
  drop_client client_id.

(** [run_ephemeral] *)
Definition run_ephemeral (request : Request.t) (request_uuid : string) (is_acquire : bool)
    (others : Meanwhile) : M World (option Response.t) :=
  co ← ephemeral_outcome request request_uuid is_acquire others;
  ephemeral_end co.1 co.2 others ;;
  mret co.2.

(** ** The handlers *)

(** The part every handler starts with. *)
Definition authorized_or (auth_token : option string) (headers : Headers) (m : M World HttpReply)
    : M World HttpReply :=
  if http_authorized auth_token headers then m else mret http_unauthorized.

Definition acquire_reply (body : AcquireResponse) : HttpReply :=
  if negb (ar_acquired body) && bool_decide (ar_error body <> None)
  then mkHttpReply BAD_REQUEST (BodyAcquire body) else mkHttpReply OK (BodyAcquire body).

(** What [http_acquire] makes of the outcome. *)
Definition acquire_outcome (req : AcquireRequest) (outcome : option Response.t) : HttpReply :=
  match outcome with
  | Some (Response.Lock _ key acquired lock_request_count lock_uuid fencing_token _ error) =>
      acquire_reply (mkAcquireResponse acquired [key] lock_uuid
        match fencing_token with Some t => {[key := t]} | None => ∅ end lock_request_count error)
  | Some (Response.CompositeLock _ keys acquired lock_uuid fencing_tokens error) =>
      acquire_reply (mkAcquireResponse acquired keys lock_uuid (default ∅ fencing_tokens) 0 error)
  | Some (Response.Error _ error) => mkHttpReply BAD_REQUEST (BodyAcquireError error)
  | _ =>
      mkHttpReply OK (BodyAcquire (mkAcquireResponse false
        match aq_keys req with
        | Some keys => keys
        | None => match aq_key req with Some key => [key] | None => [] end
        end None ∅ 0 None))
  end.

(** [http_acquire] *)
Definition http_acquire (auth_token : option string) (headers : Headers) (req : AcquireRequest)
    (fresh : string) (others : Meanwhile) : M World HttpReply :=
  authorized_or auth_token headers
    match http_request_id headers (aq_request_id req) fresh with
    | inl reply => mret reply
    | inr request_uuid =>
        outcome ← run_ephemeral
          (Request.Lock request_uuid (aq_key req) (aq_keys req) None (aq_ttl_ms req) (aq_max req)
             false 0 false None) request_uuid true others;
        mret (acquire_outcome req outcome)
    end.

(** [http_release] *)
Definition http_release (auth_token : option string) (headers : Headers) (req : ReleaseRequest)
    (fresh : string) (others : Meanwhile) : M World HttpReply :=
  authorized_or auth_token headers
    match http_request_id headers (rq_request_id req) fresh with
    | inl reply => mret reply
    | inr request_uuid =>
        outcome ← run_ephemeral
          (Request.Unlock request_uuid (rq_key req) (rq_keys req) (rq_lock_uuid req) (rq_force req))
          request_uuid false others;
        mret match outcome with
             | Some (Response.Unlock _ keys unlocked _ _) => mkHttpReply OK (BodyRelease unlocked keys)
             | Some (Response.Error _ error) => mkHttpReply BAD_REQUEST (BodyUnlockError error)
             | _ => mkHttpReply SERVICE_UNAVAILABLE (BodyUnlockError "broker timed out")
             end
    end.

Definition rw_not_granted (key : string) : HttpReply :=
  mkHttpReply OK (BodyRwAcquire (mkRwAcquireResponse false key 0 false None None)).

(** [http_rw_read] *)
Definition http_rw_read (auth_token : option string) (headers : Headers) (req : RwAcquireRequest)
    (fresh : string) (others : Meanwhile) : M World HttpReply :=
  authorized_or auth_token headers (
    outcome ← run_ephemeral (Request.RegisterRead fresh (rw_key req)) fresh true others;
    mret match outcome with
         | Some (Response.RegisterReadResult _ key readers_count writer_flag granted lock_uuid fencing_token) =>
             mkHttpReply OK (BodyRwAcquire
               (mkRwAcquireResponse granted key readers_count writer_flag lock_uuid fencing_token))
         | _ => rw_not_granted (rw_key req)
         end).

(** [http_rw_write] *)
Definition http_rw_write (auth_token : option string) (headers : Headers) (req : RwAcquireRequest)
    (fresh : string) (others : Meanwhile) : M World HttpReply :=
  authorized_or auth_token headers (
    outcome ← run_ephemeral (Request.RegisterWrite fresh (rw_key req)) fresh true others;
    mret match outcome with
         | Some (Response.RegisterWriteResult _ key readers_count writer_flag granted lock_uuid fencing_token) =>
             mkHttpReply OK (BodyRwAcquire
               (mkRwAcquireResponse granted key readers_count writer_flag lock_uuid fencing_token))
         | _ => rw_not_granted (rw_key req)
         end).

(** [http_rw_read_end] and [http_rw_write_end], which are the same code. *)
Definition http_rw_end (auth_token : option string) (headers : Headers) (req : RwReleaseRequest)
    (fresh : string) (others : Meanwhile) : M World HttpReply :=
  authorized_or auth_token headers (
    outcome ← run_ephemeral
      (Request.Unlock fresh (Some (rl_key req)) None (Some (rl_lock_uuid req)) false) fresh false others;
    mret match outcome with
         | Some (Response.Unlock _ _ true _ _) => mkHttpReply OK (BodyRwRelease (rl_key req) 0 false)
         | _ => mkHttpReply BAD_REQUEST BodyUnlockFailed
         end).

(** [http_lock_info] *)
Definition http_lock_info (auth_token : option string) (headers : Headers) (key fresh : string)
    (others : Meanwhile) : M World HttpReply :=
  authorized_or auth_token headers (
    outcome ← run_ephemeral (Request.LockInfo fresh key) fresh false others;
    mret match outcome with
         | Some (Response.LockInfo _ _ is_locked lockholder_uuids lock_request_count readers_count writer_flag) =>
             mkHttpReply OK (BodyLockInfo key is_locked lockholder_uuids lock_request_count readers_count
                               writer_flag)
         | _ => mkHttpReply SERVICE_UNAVAILABLE (BodyText "broker did not respond")
         end).

(** [http_ls] *)
Definition http_ls (auth_token : option string) (headers : Headers) (fresh : string)
    (others : Meanwhile) : M World HttpReply :=
  authorized_or auth_token headers (
    outcome ← run_ephemeral (Request.Ls fresh) fresh false others;
    mret match outcome with
         | Some (Response.LsResult _ keys) => mkHttpReply OK (BodyKeys keys)
         | _ => mkHttpReply SERVICE_UNAVAILABLE (BodyText "broker did not respond")
         end).

(** The lock routes of [run]'s router, with what axum extracts for each. *)
Inductive HttpCall : Type :=
| PostLock (req : AcquireRequest)
| PostUnlock (req : ReleaseRequest)
| PostRwRead (req : RwAcquireRequest)
| PostRwReadEnd (req : RwReleaseRequest)
| PostRwWrite (req : RwAcquireRequest)
| PostRwWriteEnd (req : RwReleaseRequest)
| GetLockInfo (key : string)
| GetLocks.

Definition http_call (auth_token : option string) (headers : Headers) (call : HttpCall)
    (fresh : string) (others : Meanwhile) : M World HttpReply :=
  match call with
  | PostLock req => http_acquire auth_token headers req fresh others
  | PostUnlock req => http_release auth_token headers req fresh others
  | PostRwRead req => http_rw_read auth_token headers req fresh others
  | PostRwReadEnd req | PostRwWriteEnd req => http_rw_end auth_token headers req fresh others
  | PostRwWrite req => http_rw_write auth_token headers req fresh others
  | GetLockInfo key => http_lock_info auth_token headers key fresh others
  | GetLocks => http_ls auth_token headers fresh others
  end.

End http.

(** * What the HTTP API guarantees

    A handler is a run of the broker's operations and always answers; a lock it
    answers with outlives the request. *)

Section facts.
Context `{LQ : LinkedQueueCrate} `{E : Env}.

(** ** Handlers are runs *)

Section runs.
Context (cfg : BrokerConfig) (Hcfg : config_ok (unforced u32_max) cfg).

(** [m] returns and makes at most [k] operations, after at most [n]. *)
Definition makes {A} (n k : nat) (m : M World A) : Prop :=
  forall w, broker_run cfg n w -> wp m (fun _ w' => broker_run cfg (n + k) w') w.

Lemma makes_bind {A B} n k1 k2 (m : M World A) (f : A -> M World B) :
  makes n k1 m -> (forall a, makes (n + k1) k2 (f a)) -> makes n (k1 + k2) (m ≫= f).
Proof.
  intros Hm Hf w Hw. apply wp_bind. eapply wp_mono; [by apply Hm|]. intros a w' Hw'.
  rewrite Nat.add_assoc. by apply Hf.
Qed.

Lemma makes_ret {A} n k (a : A) : makes n k (mret a).
Proof. intros w Hw. apply wp_ret. eapply broker_run_more; [|done]. lia. Qed.

Lemma makes_get {B} n k (f : World -> M World B) :
  (forall w, makes n k (f w)) -> makes n k (get ≫= f).
Proof. intros Hf w Hw. apply wp_bind, wp_get. by apply Hf. Qed.

Lemma makes_op n op {A} (m : M World A) :
  Z.of_nat (S n) < u64_max -> op_ok (unforced u32_max) op ->
  (forall w, exec_op op w = match m w with Done _ w' => Done tt w' | Panicked e => Panicked e | OutOfFuel => OutOfFuel end) ->
  makes n 1 m.
Proof using Hcfg.
  intros Hn Hop Hm w Hw. destruct (broker_run_op cfg n w op Hcfg Hn Hop Hw) as (w' & Hd & Hw').
  rewrite Hm in Hd. apply wp_done. rewrite Nat.add_1_r.
  destruct (m w) as [a w''| |]; try done. injection Hd as ->. eauto.
Qed.

Lemma makes_unit n op : Z.of_nat (S n) < u64_max -> op_ok (unforced u32_max) op -> makes n 1 (exec_op op).
Proof using Hcfg. intros. apply (makes_op n op); [done..|]. intros w. by destruct (exec_op op w) as [[]| |]. Qed.

Lemma makes_run n ops :
  Z.of_nat (n + length ops) < u64_max -> Forall (op_ok (unforced u32_max)) ops ->
  makes n (length ops) (run ops).
Proof using Hcfg.
  intros Hn Hok. revert n Hn. induction Hok as [|op ops Hop _ IH]; intros n Hn; [apply makes_ret|].
  simpl in Hn. apply (makes_bind n 1 (length ops)).
  - apply makes_unit; [lia|done].
  - intros []. apply IH. lia.
Qed.

Definition others_ok (others : Meanwhile) : Prop :=
  Forall (op_ok (unforced u32_max))
    (mw_registered others ++ mw_waiting others ++ mw_detaching others ++ mw_dropping others).

Definition others_count (others : Meanwhile) : nat :=
  length (mw_registered others ++ mw_waiting others ++ mw_detaching others ++ mw_dropping others).

Lemma makes_ephemeral n request uuid is_acquire others :
  Z.of_nat (n + (others_count others + 4)) < u64_max -> request_typed request -> others_ok others ->
  makes n (others_count others + 4) (run_ephemeral request uuid is_acquire others).
Proof using Hcfg.
  unfold others_ok, others_count. rewrite !Forall_app, !length_app. intros Hn Hr (H1 & H2 & H3 & H4).
  destruct others as [o1 o2 o3 o4]. simpl in *.
  replace (_ + 4)%nat with ((1 + (length o1 + (1 + (length o2 + 0)))) + ((length o3 + (1 + (length o4 + 1))) + 0))%nat
    by lia.
  apply makes_bind; [|intros [c outcome]; apply makes_bind; [|intros []; apply makes_ret]].
  - apply makes_bind; [apply (makes_op _ OpRegisterClient); [lia|done|]|].
    { intros w. simpl. unfold mbind, M_bind. by destruct (register_client w). }
    intros c. apply makes_bind; [apply (makes_run _ o1); [lia|done]|]. intros []. apply makes_get. intros w0.
    apply makes_bind; [apply (makes_unit _ (OpRequest c request no_overrides)); [lia|done]|].
    intros []. apply makes_bind; [apply (makes_run _ o2); [lia|done]|]. intros []. apply makes_get. intros w.
    apply makes_ret.
  - apply makes_bind; [apply (makes_run _ o3); [lia|done]|]. intros []. apply makes_bind.
    + cbn [snd]. destruct (outcome ≫= granted_uuid) as [u|]; [|apply makes_ret].
      apply (makes_unit _ (OpDetachLockFromClient c u)); [lia|done].
    + intros []. apply makes_bind; [apply (makes_run _ o4); [lia|done]|]. intros [].
      apply (makes_unit _ (OpDropClient c)); [lia|done].
Qed.

(** The body's [max] is a [u32]. *)
Definition call_typed (call : HttpCall) : Prop :=
  match call with PostLock req => forall m, aq_max req = Some m -> u32_range m | _ => True end.

Lemma makes_call n token headers call fresh others :
  Z.of_nat (n + (others_count others + 4)) < u64_max -> call_typed call -> others_ok others ->
  makes n (others_count others + 4) (http_call token headers call fresh others).
Proof using Hcfg.
  intros Hn Hc Ho.
  assert (forall request uuid b (f : option Response.t -> HttpReply), request_typed request ->
    makes n (others_count others + 4) (o ← run_ephemeral request uuid b others; mret (f o))) as Hrun.
  { intros request uuid b f Hr. rewrite <-(Nat.add_0_r (_ + 4)).
    apply makes_bind; [by apply makes_ephemeral|]. intros o. apply makes_ret. }
  unfold http_call, http_acquire, http_release, http_rw_read, http_rw_write, http_rw_end, http_lock_info,
    http_ls, authorized_or.
  destruct (http_authorized token headers); [|destruct call; apply makes_ret].
  destruct call; try (by apply Hrun).
  all: destruct (http_request_id _ _ _); [apply makes_ret|by apply Hrun].
Qed.

End runs.


(** ** A granted lock outlives its request *)

(** Dropping the client of other locks. *)
Definition keeps_hold (g : RwHoldKind * string * string) (w w' : World) : Prop := holds w g -> holds w' g.

#[local] Instance keeps_hold_preorder g : PreOrder (keeps_hold g).
Proof. split; [intros w H; exact H|intros w1 w2 w3 H1 H2 H; by apply H2, H1]. Qed.

Lemma adds_keeps_hold {A} g (m : M World A) : keeps adds m -> keeps (keeps_hold g) m.
Proof. apply keeps_mono. intros w w' [H _] Hg. by apply H. Qed.

Lemma calm_keeps_hold {A} g (m : M World A) : keeps calm m -> keeps (keeps_hold g) m.
Proof. intros Hm. by apply adds_keeps_hold, calm_adds. Qed.

(** Writing back a lock whose holder is still there. *)
Lemma get_lock_keeps_hold {B} g key (f : option LockState -> M World B) :
  (forall w b w', f None w = Done b w' -> keeps_hold g w w') ->
  (forall l w b w', locks (state w) !! key = Some l -> f (Some l) w = Done b w' -> keeps_hold g w w') ->
  keeps (keeps_hold g) (get_lock key ≫= f).
Proof.
  intros Hn Hs w b w'. unfold get_lock, gets, mbind, M_bind.
  destruct (locks (state w) !! key) as [l|] eqn:Hl; [by eapply Hs|apply Hn].
Qed.

Lemma put_lock_keeps_hold kind k u key l l' w :
  locks (state w) !! key = Some l ->
  (lock_contains_uuid_for_kind l u kind = true -> lock_contains_uuid_for_kind l' u kind = true) ->
  keeps_hold (kind, k, u) w (set_state (set_locks (<[key := l']> (locks (state w))) (state w)) w).
Proof.
  intros Hl Hc (l0 & H0 & H1). unfold holds. simpl. destruct (decide (k = key)) as [->|Hne].
  - exists l'. rewrite lookup_insert_eq. simplify_eq. auto.
  - exists l0. by rewrite lookup_insert_ne.
Qed.

Lemma remove_other u u' kind l f :
  u <> u' -> f ∈ [remove_exclusive u'; remove_reader u'; remove_writer u'] ->
  lock_contains_uuid_for_kind l u kind = true -> lock_contains_uuid_for_kind (f l) u kind = true.
Proof.
  intros Hne Hf. repeat (apply elem_of_cons in Hf as [->|Hf]); [..|by apply elem_of_nil in Hf].
  - destruct kind; simpl; by rewrite ?lookup_delete_ne.
  - destruct kind; simpl; by rewrite ?lookup_delete_ne.
  - unfold remove_writer. destruct (writer l) as [h|] eqn:Hw; [|done].
    destruct (bool_decide_reflect (rh_lock_uuid h = u')); [|done].
    destruct kind; simpl; try done. rewrite Hw. by intros ?%bool_decide_eq_true; subst.
Qed.

Lemma drop_held_lock_keeps kind k u touched u' kol :
  u <> u' -> keeps (keeps_hold (kind, k, u)) (drop_held_lock touched (u', kol)).
Proof.
  intros Hne. apply keeps_for_fold; [apply _|]. intros t key.
  unfold drop_held_key. apply get_lock_keeps_hold; [by intros w b w' [= _ <-]|].
  intros l w b w' Hl.
  assert (forall f b, f ∈ [remove_exclusive u'; remove_reader u'; remove_writer u'] ->
    (put_lock key (f l) ;; mret ({[key]} ∪ t)) w = Done b w' -> keeps_hold (kind, k, u) w w') as Hput.
  { intros f b0 Hf Hd. injection Hd as _ <-. eapply put_lock_keeps_hold; [done|]. by apply (remove_other u u'). }
  repeat case_match; try (intros Hd; by injection Hd as _ <-);
    (apply Hput; set_solver) || (intros Hd; eapply Hput; [|exact Hd]; set_solver).
Qed.

Lemma alter_queue_keeps g ku : keeps (keeps_hold g) (alter_lock ku.1 (remove_queued ku.2)).
Proof.
  destruct g as [[kind k] u]. apply get_lock_keeps_hold; [intros w b w' Hd; by injection Hd as _ <-|].
  intros l w b w' Hl Hd. injection Hd as _ <-. eapply put_lock_keeps_hold; [done|]. by destruct kind.
Qed.

(** The locks of a client, without the one in question, and the grants. *)
Lemma drop_held_locks_keep kind k u held touched0 w b w' :
  (forall kol, ~ (u, kol) ∈ held) ->
  (touched ← for_fold held touched0 drop_held_lock;
   touched ← hash_order (elements touched);
   for_each touched try_grant_next) (next_tick w) = Done b w' ->
  keeps_hold (kind, k, u) w w'.
Proof.
  intros Hu Hd. enough (keeps_hold (kind, k, u) (next_tick w) w') as H by exact H. revert Hd.
  match goal with |- ?m _ = _ -> _ => enough (keeps (keeps_hold (kind, k, u)) m) as Hm by apply Hm end.
  apply keeps_bind; [apply _| |intros touched; apply keeps_bind; [apply _| |intros ks]].
  - revert touched0. induction held as [|[u' kol] held IH]; intros touched0; [apply keeps_ret, _|].
    apply keeps_bind; [apply _| |intros t; apply IH; intros kol' Hin; apply (Hu kol'); by right].
    apply drop_held_lock_keeps. intros ->. apply (Hu kol). by left.
  - apply calm_keeps_hold, calm_hash_order.
  - apply adds_keeps_hold, keeps_for_each; [apply _|]. apply adds_try_grant_next.
Qed.

(** Dropping a client that does not hold the lock itself. *)
Lemma drop_client_keeps kind k u c h w w' :
  clients (state w) !! c = Some h -> ch_held_lock_uuids h !! u = None ->
  drop_client c w = Done tt w' -> holds w (kind, k, u) -> holds w' (kind, k, u).
Proof.
  intros Hc Hu Hd. revert Hd. unfold drop_client, get_state, gets. unfold mbind at 1, M_bind at 1.
  cbv beta iota. rewrite Hc. intros Hd.
  assert (keeps (keeps_hold (kind, k, u)) (upd_state (fun s => set_clients (delete c (clients s)) s))) as H1
    by by apply calm_keeps_hold, calm_upd_state.
  match type of Hd with ?m w = _ => assert (keeps (keeps_hold (kind, k, u)) m) as Hm end;
    [|by apply (Hm _ _ _ Hd)].
  apply keeps_bind; [apply _|done|intros []].
  apply keeps_bind; [apply _|apply keeps_for_each; [apply _|apply alter_queue_keeps]|intros []].
  intros w1 b w2. unfold hash_order at 1. unfold mbind at 1, M_bind at 1. cbv beta iota. intros Hd1.
  apply (drop_held_locks_keep kind k u) in Hd1; [done|]. intros kol.
  rewrite env_hash_order_perm, elem_of_map_to_list. congruence.
Qed.

Lemma granted_announced r kind k u : announces r = Some (kind, k, u) -> granted_uuid r = Some u.
Proof. destruct r; simpl; intros; repeat case_match; by simplify_eq. Qed.

(** The end of a request keeps the lock it was granted, if nobody interferes. *)
Lemma ephemeral_end_keeps c r g w w' :
  is_Some (clients (state w) !! c) -> announces r = Some g ->
  ephemeral_end c (Some r) nobody_else w = Done tt w' -> holds w g -> holds w' g.
Proof.
  intros [h Hc] Hr Hd. destruct g as [[kind k] u]. unfold ephemeral_end in Hd. simpl in Hd.
  rewrite (granted_announced _ _ _ _ Hr) in Hd. unfold mbind, M_bind, run, for_each in Hd. simpl in Hd.
  intros Hh. eapply (drop_client_keeps kind k u c (unhold u h)); [| |exact Hd|exact Hh].
  - simpl. by rewrite lookup_alter_eq, Hc.
  - simpl. apply lookup_delete_eq.
Qed.

Lemma register_client_connected w c w' : register_client w = Done c w' -> connected c w'.
Proof.
  unfold register_client. intros (s & w1 & _ & Hd)%bind_done_inv.
  apply bind_done_inv in Hd as (id & w2 & _ & Hd). injection Hd as <- <-.
  eexists. simpl. by rewrite lookup_insert_eq.
Qed.

Lemma wait_for_elem uuid poll last messages r :
  wait_result (wait_for uuid poll last messages) = Some r -> last = Some r \/ r ∈ messages.
Proof.
  revert last. induction messages as [|msg messages IH]; intros last; simpl; [by left|].
  case_bool_decide; [|intros [?|?]%IH; set_solver]. case_match; simpl.
  - intros [= ->]. right. by left.
  - intros [?|?]%IH; [simplify_eq; right; by left|set_solver].
Qed.

Lemma deliveries_inv c r tr : r ∈ deliveries c tr -> Delivered c r ∈ tr.
Proof.
  induction tr as [|e tr IH]; simpl; [by intros ?%elem_of_nil|]. destruct e as [|c' r'|]; try (intros; right; by apply IH).
  case_bool_decide; subst; [|intros; right; by apply IH].
  intros [->|Hr]%elem_of_cons; [left|right; by apply IH].
Qed.

(** A lock granted over HTTP outlives its request.  When the reply carries an
    exclusive, read or write grant and nobody else used the broker meanwhile,
    the lock is held after the request's client is gone, so that the caller can
    release it later by its id. *)
Theorem http_grant_outlives_request request uuid is_acquire w r g w' :
  run_ephemeral request uuid is_acquire nobody_else w = Done (Some r) w' ->
  announces r = Some g -> holds w' g.
Proof.
  unfold run_ephemeral. intros Hd Hg. apply bind_done_inv in Hd as ([c o] & w1 & H1 & H2). simpl in H2.
  apply bind_done_inv in H2 as ([] & w2 & H2 & H3). injection H3 as -> ->.
  apply bind_done_inv in H1 as (c1 & w0 & Hreg & H1). apply register_client_connected in Hreg.
  unfold run, for_each, get in H1. unfold mbind, M_bind in H1. simpl in H1.
  destruct (handle_request c1 request w0) as [[] w3| |] eqn:Hreq; [|done..]. injection H1 as -> Hw <-.
  assert (is_Some (clients (state w3) !! c)) as Hc3.
  { destruct (frame_handle_request (listening c) c request no_overrides _ _ _ Hreq) as [_ Hl].
    destruct (Hl Hreg) as (h & Hh & _). eauto. }
  eapply ephemeral_end_keeps; [done..|]. apply wait_for_elem in Hw as [?|Hw%deliveries_inv]; [done|].
  destruct (tells_request c request no_overrides _ _ _ Hreq) as (new & Ht & Hnew).
  rewrite Ht, drop_app_length in Hw. by apply (Hnew _ _ Hw).
Qed.

End facts.
