(* ===== verification/BrokerSnapshot.v ===== *)
(** * Raft snapshots of the broker

    [src/src/broker.rs]: the snapshot structs (353-465), [snapshot_for_raft]
    (2331-2424), validation (2426-2470, 2910-3198) and installation
    (2439-2597).  The JSON library and the derived (de)serialisers are outside
    the sources: [SnapshotCodec] is their interface. *)

From S2P Require Import Prelude Monad Protocol Queue BrokerTypes BrokerState Broker BrokerOps.
From stdpp Require Import options.

(** ** [Result<A, String>] *)

Inductive Result (A : Type) : Type :=
| ROk (a : A)
| RErr (e : string).
Arguments ROk {A}.
Arguments RErr {A}.

#[global] Instance Result_ret : MRet Result := fun A a => ROk a.
#[global] Instance Result_bind : MBind Result := fun A B f m =>
  match m with ROk a => f a | RErr e => RErr e end.

(** [if c { return Err(e) }] *)
Definition reject_if (c : bool) (e : string) : Result unit := if c then RErr e else ROk tt.

(** A loop over [xs] with early return. *)
Fixpoint try_fold {A B} (xs : list A) (acc : B) (body : B -> A -> Result B) : Result B :=
  match xs with
  | [] => ROk acc
  | x :: xs' => acc' ← body acc x; try_fold xs' acc' body
  end.

(** ** The snapshot structs *)

Record BrokerRaftSnapshotMetrics : Type := mkBrokerRaftSnapshotMetrics {
  sm_keys : Z;
  sm_holders : Z;
  sm_waiters : Z;
  sm_clients : Z;
  sm_pending_deadlines : Z;
  sm_ttl_evictions_total : Z;
  sm_max_concurrency_cap : Z;
  sm_concurrency_cap_clamps_total : Z;
  sm_fencing_watermark : Z;
  sm_idle_keys_pruned_total : Z;
}.

Record BrokerRaftExclusiveHolderSnapshot : Type := mkExclusiveHolderSnapshot {
  es_lock_uuid : string;
  es_pid : option Z;
  es_fencing_token : Z;
  es_keep_locks_after_death : bool;
  es_composite_member : bool;
}.

Record BrokerRaftRwHolderSnapshot : Type := mkRwHolderSnapshot {
  rs_lock_uuid : string;
  rs_fencing_token : Z;
}.

Inductive BrokerRaftPendingKindSnapshot : Type :=
| SnapExclusive
| SnapReader
| SnapWriter
| SnapComposite (all_keys remaining_keys granted_keys : list string)
    (granted_tokens : gmap string Z) (composite_lock_uuid : string).

Record BrokerRaftPendingRequestSnapshot : Type := mkPendingRequestSnapshot {
  ps_request_uuid : string;
  ps_client_id : ClientId;
  ps_pid : option Z;
  ps_ttl_ms : option Z;
  ps_grant_lock_uuid : option string;
  ps_grant_fencing_seed : option Z;
  ps_keep_locks_after_death : bool;
  ps_kind : BrokerRaftPendingKindSnapshot;
}.

Record BrokerRaftLockSnapshot : Type := mkLockSnapshot {
  lk_key : string;
  lk_max : Z;
  lk_fencing_counter : Z;
  lk_exclusive_holders : list BrokerRaftExclusiveHolderSnapshot;
  lk_readers : list BrokerRaftRwHolderSnapshot;
  lk_writer : option BrokerRaftRwHolderSnapshot;
  lk_queue : list BrokerRaftPendingRequestSnapshot;
  lk_idle : bool;
}.

Record BrokerRaftDeadlineSnapshot : Type := mkDeadlineSnapshot {
  dl_lock_uuid : string;
  dl_keys : list string;
  dl_kind : RwHoldKind;
  dl_remaining_ms : Z;
}.

Record BrokerRaftSnapshot : Type := mkBrokerRaftSnapshot {
  sn_schema_version : Z;
  sn_metrics : BrokerRaftSnapshotMetrics;
  sn_locks : list BrokerRaftLockSnapshot;
  sn_deadlines : list BrokerRaftDeadlineSnapshot;
}.

(** [serde_json]: values, field access, numbers, and the derived conversions
    of [BrokerRaftSnapshot], which round-trip. *)
Class SnapshotCodec : Type := {
  Value : Type;
  value_get : Value -> string -> option Value;
  value_as_u64 : Value -> option Z;
  to_value : BrokerRaftSnapshot -> Result Value;
  from_value : Value -> Result BrokerRaftSnapshot;
  from_to_value : forall s v, to_value s = ROk v -> from_value v = ROk s;
}.

(** [duration_ms_u64] *)
Definition duration_ms_u64 (d : Z) : Z := Z.min (duration_as_millis d) u64_max.

(** [Instant::saturating_duration_since] *)
Definition instant_saturating_since (a b : Z) : Z := Z.max (a - b) 0.

(** [pending_kind_snapshot_from] *)
Definition pending_kind_snapshot_from (kind : PendingKind) : BrokerRaftPendingKindSnapshot :=
  match kind with
  | PendingExclusive => SnapExclusive
  | PendingReader => SnapReader
  | PendingWriter => SnapWriter
  | PendingComposite all_keys remaining_keys granted_keys granted_tokens cu =>
      SnapComposite all_keys remaining_keys granted_keys granted_tokens cu
  end.

(** [pending_kind_from_snapshot] *)
Definition pending_kind_from_snapshot (kind : BrokerRaftPendingKindSnapshot) : PendingKind :=
  match kind with
  | SnapExclusive => PendingExclusive
  | SnapReader => PendingReader
  | SnapWriter => PendingWriter
  | SnapComposite all_keys remaining_keys granted_keys granted_tokens cu =>
      PendingComposite all_keys remaining_keys granted_keys granted_tokens cu
  end.

(** [<[T]>::sort_by] on a string field. *)
Definition key_le {A} (key : A -> string) (a b : A) : Prop := string_le (key a) (key b).

#[global] Instance key_le_dec {A} (key : A -> string) : RelDecision (key_le key).
Proof. unfold RelDecision, key_le. intros. apply _. Defined.

Definition sort_by_key {A} (key : A -> string) (l : list A) : list A := merge_sort (key_le key) l.

(** [Vec<String>]'s [Ord]: lexicographic. *)
Fixpoint keys_leb (a b : list string) : bool :=
  match a, b with
  | [], _ => true
  | _ :: _, [] => false
  | x :: a', y :: b' =>
      if bool_decide (x = y) then keys_leb a' b' else bool_decide (string_le x y)
  end.

(** The order of deadline snapshots: by lock uuid, then by keys. *)
Definition deadline_snapshot_le (a b : BrokerRaftDeadlineSnapshot) : Prop :=
  (if bool_decide (dl_lock_uuid a = dl_lock_uuid b) then keys_leb (dl_keys a) (dl_keys b)
   else bool_decide (string_le (dl_lock_uuid a) (dl_lock_uuid b))) = true.

#[global] Instance deadline_snapshot_le_dec : RelDecision deadline_snapshot_le.
Proof. unfold RelDecision, deadline_snapshot_le. intros. apply _. Defined.

(** A [BTreeMap] of deadlines in ascending order of its keys. *)
Definition entry_le (a b : (Z * Z) * DeadlineEntry) : Prop := deadline_le a.1 b.1.

#[global] Instance entry_le_dec : RelDecision entry_le.
Proof. unfold RelDecision, entry_le. intros. apply _. Defined.

Definition deadlines_in_order (ds : gmap (Z * Z) DeadlineEntry) : list ((Z * Z) * DeadlineEntry) :=
  merge_sort entry_le (map_to_list ds).

(** ** Validation *)

(** [is_empty] of a string. *)
Definition string_is_empty (s : string) : bool := bool_decide (s = ""%string).

(** Insert into a set of seen strings, rejecting a repeated one. *)
Definition insert_unique (seen : gset string) (s e : string) : Result (gset string) :=
  if bool_decide (s ∈ seen) then RErr e else ROk ({[s]} ∪ seen).

Definition in_lock (lock_key rest : string) : string :=
  ("broker snapshot lock `" +:+ lock_key +:+ "` " +:+ rest)%string.

(** One holder uuid: not empty and not seen before. *)
Definition validate_holder_uuid (lock_key what : string) (seen : gset string) (lock_uuid : string)
    : Result (gset string) :=
  reject_if (string_is_empty lock_uuid)
    (in_lock lock_key ("has an empty " +:+ what +:+ " uuid")%string) ;;
  insert_unique seen lock_uuid (in_lock lock_key ("repeats holder uuid `" +:+ lock_uuid +:+ "`")%string).

(** [validate_broker_raft_waiter_snapshot] *)
Definition validate_broker_raft_waiter_snapshot (lock_key : string)
    (waiter : BrokerRaftPendingRequestSnapshot) : Result unit :=
  reject_if (string_is_empty (ps_request_uuid waiter))
    (in_lock lock_key "has an empty queued request uuid") ;;
  reject_if (bool_decide (ps_grant_lock_uuid waiter = Some ""%string))
    (in_lock lock_key "has an empty queued grant lock uuid") ;;
  match ps_kind waiter with
  | SnapExclusive | SnapReader | SnapWriter => ROk tt
  | SnapComposite all_keys remaining_keys granted_keys granted_tokens composite_lock_uuid =>
      reject_if (string_is_empty composite_lock_uuid)
        (in_lock lock_key "has an empty composite lock uuid") ;;
      reject_if (bool_decide (all_keys = []) || bool_decide (MAX_COMPOSITE_KEYS < length all_keys)%nat)
        (in_lock lock_key ("has invalid composite key count " +:+ pretty (length all_keys))%string) ;;
      reject_if (bool_decide (remaining_keys = []))
        (in_lock lock_key "has a composite waiter with no remaining keys") ;;
      reject_if (match head remaining_keys with
                 | Some key => negb (bool_decide (key = lock_key))
                 | None => false
                 end)
        (in_lock lock_key "has composite waiter queued on the wrong key") ;;
      all_ ← try_fold all_keys ∅ (fun (all_ : gset string) key =>
        reject_if (string_is_empty key) (in_lock lock_key "has an empty composite key") ;;
        insert_unique all_ key
          (in_lock lock_key ("repeats composite key `" +:+ key +:+ "`")%string));
      let outside key := in_lock lock_key ("has composite sub-key `" +:+ key +:+ "` outside allKeys")%string in
      remaining ← try_fold remaining_keys ∅ (fun (remaining : gset string) key =>
        reject_if (negb (bool_decide (key ∈ all_))) (outside key) ;;
        insert_unique remaining key
          (in_lock lock_key ("repeats remaining composite key `" +:+ key +:+ "`")%string));
      granted ← try_fold granted_keys ∅ (fun (granted : gset string) key =>
        reject_if (negb (bool_decide (key ∈ all_))) (outside key) ;;
        granted' ← insert_unique granted key
          (in_lock lock_key ("repeats granted composite key `" +:+ key +:+ "`")%string);
        reject_if (bool_decide (key ∈ remaining))
          (in_lock lock_key ("has composite key `" +:+ key
             +:+ "` in both remainingKeys and grantedKeys")%string) ;;
        mret granted');
      try_fold (sort_keys (elements (dom granted_tokens))) tt (fun _ key =>
        reject_if (negb (bool_decide (key ∈ all_)))
          (in_lock lock_key ("has granted token for unknown key `" +:+ key +:+ "`")%string)) ;;
      reject_if (negb (bool_decide (remaining ∪ granted = all_)))
        (in_lock lock_key "composite waiter does not partition allKeys") ;;
      reject_if (negb (bool_decide (dom granted_tokens = granted)))
        (in_lock lock_key "composite granted token keys do not match grantedKeys")
  end.

(** One lock of the snapshot: the set of keys seen and the waiters counted. *)
Definition validate_lock_snapshot (acc : gset string * Z) (lock : BrokerRaftLockSnapshot)
    : Result (gset string * Z) :=
  let '(keys, total_waiters) := acc in
  reject_if (string_is_empty (lk_key lock)) "broker snapshot contains an empty lock key" ;;
  keys ← insert_unique keys (lk_key lock)
    ("broker snapshot contains duplicate lock key `" +:+ lk_key lock +:+ "`")%string;
  reject_if (bool_decide (lk_max lock = 0)) (in_lock (lk_key lock) "has invalid max=0") ;;
  lock_uuids ← try_fold (lk_exclusive_holders lock) ∅ (fun seen holder =>
    validate_holder_uuid (lk_key lock) "exclusive holder" seen (es_lock_uuid holder));
  lock_uuids ← try_fold (lk_readers lock) lock_uuids (fun seen holder =>
    validate_holder_uuid (lk_key lock) "reader" seen (rs_lock_uuid holder));
  match lk_writer lock with
  | Some writer =>
      validate_holder_uuid (lk_key lock) "writer" lock_uuids (rs_lock_uuid writer) ;; ROk tt
  | None => ROk tt
  end ;;
  reject_if (lk_idle lock && negb (bool_decide (length (lk_exclusive_holders lock) = 0%nat)
                                   && bool_decide (length (lk_readers lock) = 0%nat)
                                   && match lk_writer lock with None => true | Some _ => false end
                                   && bool_decide (length (lk_queue lock) = 0%nat)))
    (in_lock (lk_key lock) "is marked idle while it has active state") ;;
  '(_, total_waiters) ← try_fold (lk_queue lock) (∅, total_waiters)
    (fun (acc : gset string * Z) waiter =>
       let total_waiters := saturating_add64 acc.2 1 in
       validate_broker_raft_waiter_snapshot (lk_key lock) waiter ;;
       request_uuids ← insert_unique acc.1 (ps_request_uuid waiter)
         (in_lock (lk_key lock)
            ("repeats queued request uuid `" +:+ ps_request_uuid waiter +:+ "`")%string);
       mret (request_uuids, total_waiters));
  mret (keys, total_waiters).

(** [snapshot_deadline_matches_locks] *)
Definition lock_snapshot_contains (lock : BrokerRaftLockSnapshot) (deadline : BrokerRaftDeadlineSnapshot)
    : bool :=
  match dl_kind deadline with
  | HoldExclusive =>
      existsb (fun h => bool_decide (es_lock_uuid h = dl_lock_uuid deadline)) (lk_exclusive_holders lock)
  | HoldRead =>
      existsb (fun h => bool_decide (rs_lock_uuid h = dl_lock_uuid deadline)) (lk_readers lock)
  | HoldWrite =>
      match lk_writer lock with
      | Some h => bool_decide (rs_lock_uuid h = dl_lock_uuid deadline)
      | None => false
      end
  end.

Definition snapshot_deadline_matches_locks (locks : list BrokerRaftLockSnapshot)
    (deadline : BrokerRaftDeadlineSnapshot) : bool :=
  forallb (fun key =>
    match List.find (fun lock => bool_decide (lk_key lock = key)) locks with
    | Some lock => lock_snapshot_contains lock deadline
    | None => false
    end) (dl_keys deadline).

Definition deadline_mismatch (lock_uuid : string) : string :=
  ("broker snapshot deadline for `" +:+ lock_uuid +:+ "` does not match restored holder state")%string.

Definition validate_deadline_snapshot (locks : list BrokerRaftLockSnapshot)
    (deadline : BrokerRaftDeadlineSnapshot) : Result unit :=
  let named rest := ("broker snapshot deadline for `" +:+ dl_lock_uuid deadline +:+ rest)%string in
  reject_if (string_is_empty (dl_lock_uuid deadline))
    "broker snapshot deadline has an empty lock uuid" ;;
  reject_if (bool_decide (dl_keys deadline = [])) (named "` has no keys") ;;
  reject_if (existsb string_is_empty (dl_keys deadline)) (named "` contains an empty key") ;;
  reject_if (negb (snapshot_deadline_matches_locks locks deadline))
    (deadline_mismatch (dl_lock_uuid deadline)).

(** [validate_broker_raft_snapshot] *)
Definition validate_broker_raft_snapshot (snapshot : BrokerRaftSnapshot) : Result unit :=
  reject_if (negb (bool_decide (sn_schema_version snapshot = 1)))
    ("unsupported broker snapshot schema version " +:+ pretty (sn_schema_version snapshot))%string ;;
  '(_, total_waiters) ← try_fold (sn_locks snapshot) (∅, 0) validate_lock_snapshot;
  reject_if (negb (bool_decide (sm_waiters (sn_metrics snapshot) = total_waiters)))
    ("broker snapshot waiters metric mismatch: metrics.waiters="
       +:+ pretty (sm_waiters (sn_metrics snapshot)) +:+ " queued=" +:+ pretty total_waiters)%string ;;
  try_fold (sn_deadlines snapshot) tt (fun _ => validate_deadline_snapshot (sn_locks snapshot)).

(** ** Taking a snapshot *)

Section snapshot.
Context `{LQ : LinkedQueueCrate} `{E : Env} `{SC : SnapshotCodec}.

(** [impl From<BrokerMetrics> for BrokerRaftSnapshotMetrics] *)
Definition snapshot_metrics_from (m : BrokerMetrics) : BrokerRaftSnapshotMetrics :=
  mkBrokerRaftSnapshotMetrics (bm_keys m) (bm_holders m) (bm_waiters m) (bm_clients m)
    (bm_pending_deadlines m) (bm_ttl_evictions_total m) (bm_max_concurrency_cap m)
    (bm_concurrency_cap_clamps_total m) (bm_fencing_watermark m) (bm_idle_keys_pruned_total m).

Definition exclusive_holder_snapshot (lh : string * ExclusiveHolder)
    : BrokerRaftExclusiveHolderSnapshot :=
  mkExclusiveHolderSnapshot lh.1 (eh_pid lh.2) (eh_fencing_token lh.2)
    (eh_keep_locks_after_death lh.2) (eh_composite_member lh.2).

Definition reader_snapshot (lh : string * RwHolder) : BrokerRaftRwHolderSnapshot :=
  mkRwHolderSnapshot lh.1 (rh_fencing_token lh.2).

Definition writer_snapshot (h : RwHolder) : BrokerRaftRwHolderSnapshot :=
  mkRwHolderSnapshot (rh_lock_uuid h) (rh_fencing_token h).

Definition pending_snapshot (p : PendingRequest) : BrokerRaftPendingRequestSnapshot :=
  mkPendingRequestSnapshot (pr_request_uuid p) (pr_client p) (pr_pid p)
    (duration_ms_u64 <$> pr_ttl p) (pr_grant_lock_uuid p) (pr_grant_fencing_seed p)
    (pr_keep_locks_after_death p) (pending_kind_snapshot_from (pr_kind p)).

(** The body of the [map] over [state.locks.iter()]. *)
Definition lock_snapshot (kl : string * LockState) : M World BrokerRaftLockSnapshot :=
  let '(key, lock) := kl in
  excl ← hash_order (map_to_list (exclusive_holders lock));
  rds ← hash_order (map_to_list (readers lock));
  mret (mkLockSnapshot key (max lock) (fencing_counter lock)
          (sort_by_key es_lock_uuid (exclusive_holder_snapshot <$> excl))
          (sort_by_key rs_lock_uuid (reader_snapshot <$> rds))
          (writer_snapshot <$> writer lock)
          ((fun up => pending_snapshot up.2) <$> LinkedQueue.iter (queue lock))
          (is_idle lock)).

Definition deadline_snapshot (now : Z) (d : (Z * Z) * DeadlineEntry) : BrokerRaftDeadlineSnapshot :=
  mkDeadlineSnapshot (de_lock_uuid d.2) (de_keys d.2) (de_kind d.2)
    (duration_ms_u64 (instant_saturating_since d.1.1 now)).

(** The struct [snapshot_for_raft] serialises. *)
Definition broker_snapshot : M World BrokerRaftSnapshot :=
  s ← get_state;
  now ← instant_now;
  all_locks ← hash_order (map_to_list (locks s));
  snaps ← for_fold all_locks [] (fun acc kl => l ← lock_snapshot kl; mret (acc ++ [l]));
  let deadlines_ := deadline_snapshot now
    <$> filter (fun d => deadline_entry_is_still_held s d.2 = true) (deadlines_in_order (deadlines s)) in
  mret (mkBrokerRaftSnapshot 1 (snapshot_metrics_from (broker_metrics_from_state s))
          (sort_by_key lk_key snaps) (merge_sort deadline_snapshot_le deadlines_)).

(** [Broker::snapshot_for_raft] *)
Definition snapshot_for_raft : M World (Result Value) :=
  snapshot ← broker_snapshot;
  mret (to_value snapshot).

(** ** Installing a snapshot *)

(** [snapshot_deadline_matches_state] *)
Definition snapshot_deadline_matches_state (s : BrokerState) (deadline : BrokerRaftDeadlineSnapshot)
    : bool :=
  forallb (fun key =>
    match locks s !! key with
    | Some lock => lock_contains_uuid_for_kind lock (dl_lock_uuid deadline) (dl_kind deadline)
    | None => false
    end) (dl_keys deadline).

(** Raise the lock's counter and the watermark to a restored token. *)
Definition raise_to_token (token : Z) (ln : LockState * BrokerState) : LockState * BrokerState :=
  (set_fencing_counter (Z.max (fencing_counter ln.1) token) ln.1,
   set_fencing_watermark (Z.max (fencing_watermark ln.2) token) ln.2).

Definition restore_exclusive (ln : LockState * BrokerState) (h : BrokerRaftExclusiveHolderSnapshot)
    : LockState * BrokerState :=
  let '(lock, next) := raise_to_token (es_fencing_token h) ln in
  (set_exclusive_holders
     (<[es_lock_uuid h :=
          mkExclusiveHolder SNAPSHOT_DETACHED_CLIENT (es_pid h) (es_fencing_token h)
            (es_keep_locks_after_death h) (es_composite_member h)]> (exclusive_holders lock)) lock, next).

Definition restore_reader (ln : LockState * BrokerState) (h : BrokerRaftRwHolderSnapshot)
    : LockState * BrokerState :=
  let '(lock, next) := raise_to_token (rs_fencing_token h) ln in
  (set_readers
     (<[rs_lock_uuid h :=
          mkRwHolder SNAPSHOT_DETACHED_CLIENT (rs_fencing_token h) (rs_lock_uuid h)]> (readers lock)) lock,
   next).

Definition restore_writer (ln : LockState * BrokerState) (h : option BrokerRaftRwHolderSnapshot)
    : LockState * BrokerState :=
  match h with
  | None => ln
  | Some h =>
      let '(lock, next) := raise_to_token (rs_fencing_token h) ln in
      (set_writer (Some (mkRwHolder SNAPSHOT_DETACHED_CLIENT (rs_fencing_token h) (rs_lock_uuid h)))
         lock, next)
  end.

Definition pending_from_snapshot (w : BrokerRaftPendingRequestSnapshot) : PendingRequest :=
  mkPendingRequest (ps_request_uuid w) (ps_client_id w) (ps_pid w)
    (duration_from_millis <$> ps_ttl_ms w) (ps_grant_lock_uuid w) (ps_grant_fencing_seed w)
    (ps_keep_locks_after_death w) (pending_kind_from_snapshot (ps_kind w)).

Definition restore_waiter (ln : LockState * BrokerState) (w : BrokerRaftPendingRequestSnapshot)
    : LockState * BrokerState :=
  (set_queue (LinkedQueue.push_back (queue ln.1) (ps_request_uuid w) (pending_from_snapshot w)).2 ln.1,
   set_next_client_id (Z.max (next_client_id ln.2) (saturating_add64 (ps_client_id w) 1)) ln.2).

(** The body of the loop over [snapshot.locks]. *)
Definition restore_lock (now : Z) (next : BrokerState) (ls : BrokerRaftLockSnapshot)
    : M World BrokerState :=
  lock ← LockState_new (Z.min (Z.max (lk_max ls) 1)
                          (Z.max (cfg_max_concurrency_cap (config next)) 1));
  let lock := set_timestamp_emptied None (set_fencing_counter (lk_fencing_counter ls) lock) in
  let ln := foldl restore_exclusive (lock, next) (lk_exclusive_holders ls) in
  let ln := foldl restore_reader ln (lk_readers ls) in
  let ln := restore_writer ln (lk_writer ls) in
  let '(lock, next) := foldl restore_waiter ln (lk_queue ls) in
  let next := set_fencing_watermark (Z.max (fencing_watermark next) (fencing_counter lock)) next in
  let lock := if is_idle lock && lk_idle ls then set_timestamp_emptied (Some now) lock else lock in
  mret (set_locks (<[lk_key ls := lock]> (locks next)) next).

(** The body of the loop over [snapshot.deadlines]. *)
Definition restore_deadline (now : Z) (next : BrokerState) (d : BrokerRaftDeadlineSnapshot)
    : Result BrokerState :=
  reject_if (negb (snapshot_deadline_matches_state next d)) (deadline_mismatch (dl_lock_uuid d)) ;;
  let next := set_deadline_seq (wrapping_add64 (deadline_seq next) 1) next in
  let deadline_at :=
    default now (instant_checked_add now (duration_from_millis (dl_remaining_ms d))) in
  mret (set_deadlines
          (<[(deadline_at, deadline_seq next) :=
               mkDeadlineEntry (dl_lock_uuid d) (dl_keys d) (dl_kind d) SNAPSHOT_DETACHED_CLIENT]>
             (deadlines next)) next).

Definition set_started_at (x : Z) (s : BrokerState) : BrokerState :=
  mkBrokerState (locks s) (clients s) (next_client_id s) (config s) (deadlines s) (deadline_seq s)
    (ttl_evictions_total s) x (concurrency_cap_clamps_total s)
    (fencing_watermark s) (idle_keys_pruned_total s).

(** A new state with the old configuration and start, and restored counters. *)
Definition state_with_metrics (s : BrokerState) (ttl clamps watermark pruned : Z) : M World BrokerState :=
  started ← instant_now;
  mret (set_idle_keys_pruned_total pruned (set_fencing_watermark watermark
         (set_concurrency_cap_clamps_total clamps (set_ttl_evictions_total ttl
           (set_started_at (started_at s) (BrokerState_new (config s) started)))))).

(** [Broker::install_broker_raft_snapshot] *)
Definition install_broker_raft_snapshot (snapshot : BrokerRaftSnapshot) : M World (Result unit) :=
  s ← get_state;
  now ← instant_now;
  let m := sn_metrics snapshot in
  next ← state_with_metrics s (sm_ttl_evictions_total m) (sm_concurrency_cap_clamps_total m)
    (sm_fencing_watermark m) (sm_idle_keys_pruned_total m);
  next ← for_fold (sn_locks snapshot) next (restore_lock now);
  match try_fold (sn_deadlines snapshot) next (restore_deadline now) with
  | RErr e => mret (RErr e)
  | ROk next => upd_state (fun _ => next) ;; mret (ROk tt)
  end.

(** [metrics_u64] *)
Definition metrics_u64 (metrics : Value) (field : string) : Z :=
  default 0 (value_get metrics field ≫= value_as_u64).

(** [Broker::validate_idle_snapshot_payload] *)
Definition validate_idle_snapshot_payload (payload : Value) : Result unit :=
  match value_get payload "metrics" with
  | None => RErr "idle broker snapshot is missing metrics"
  | Some metrics =>
      try_fold ["holders"; "waiters"; "pendingDeadlines"]%string tt (fun _ field =>
        match value_get metrics field ≫= value_as_u64 with
        | None => RErr ("idle broker snapshot missing numeric metrics." +:+ field)%string
        | Some value =>
            reject_if (negb (bool_decide (value = 0)))
              ("cannot install non-idle broker snapshot: metrics." +:+ field +:+ "="
                 +:+ pretty value)%string
        end)
  end.

(** [Broker::install_idle_snapshot] *)
Definition install_idle_snapshot (payload : Value) : M World (Result unit) :=
  match validate_idle_snapshot_payload payload with
  | RErr e => mret (RErr e)
  | ROk _ =>
      match value_get payload "metrics" with
      | None => mret (RErr "idle broker snapshot is missing metrics")
      | Some metrics =>
          s ← get_state;
          next ← state_with_metrics s (metrics_u64 metrics "ttlEvictionsTotal")
            (metrics_u64 metrics "concurrencyCapClampsTotal")
            (metrics_u64 metrics "fencingWatermark") (metrics_u64 metrics "idleKeysPrunedTotal");
          upd_state (fun _ => next) ;;
          mret (ROk tt)
      end
  end.

(** [Broker::validate_raft_snapshot_payload] *)
Definition validate_raft_snapshot_payload (payload : Value) : Result unit :=
  match value_get payload "broker" with
  | Some snapshot => snapshot ← from_value snapshot; validate_broker_raft_snapshot snapshot
  | None => validate_idle_snapshot_payload payload
  end.

(** [Broker::install_raft_snapshot] *)
Definition install_raft_snapshot (payload : Value) : M World (Result unit) :=
  match value_get payload "broker" with
  | Some snapshot =>
      match (snapshot ← from_value snapshot;
             validate_broker_raft_snapshot snapshot ;; mret snapshot) with
      | RErr e => mret (RErr e)
      | ROk snapshot => install_broker_raft_snapshot snapshot
      end
  | None => install_idle_snapshot payload
  end.

End snapshot.
