(* ===== verification/BrokerRestore.v ===== *)
(** * Snapshots restore what they record

    A snapshot is a function of the broker's state and the current instant
    (no hash order leaks into it), a validated snapshot is always installable,
    and installing it restores the lock table with detached owners. *)

From S2P Require Import Prelude Monad Protocol Queue BrokerTypes BrokerState Broker BrokerOps.
From S2P Require Import BrokerSpec BrokerFencing BrokerSim BrokerSnapshot.
From stdpp Require Import options.

(** ** Sorting by a unique key *)

#[global] Instance key_le_trans {A} (key : A -> string) : Transitive (key_le key).
Proof. unfold key_le. intros x y z. apply string_le_trans. Qed.

#[global] Instance key_le_total {A} (key : A -> string) : Total (key_le key).
Proof. intros x y. apply string_le_total. Qed.

Lemma sort_by_key_perm {A} (key : A -> string) l : sort_by_key key l ≡ₚ l.
Proof. apply merge_sort_Permutation. Qed.

Lemma NoDup_fmap_inj_on {A B} (f : A -> B) l x y :
  NoDup (f <$> l) -> x ∈ l -> y ∈ l -> f x = f y -> x = y.
Proof.
  induction l as [|a l IH]; simpl; [by rewrite elem_of_nil|].
  rewrite NoDup_cons, !elem_of_cons. intros [Hn Hd] [->|Hx] [->|Hy] He; [done|..|by apply IH].
  - exfalso. apply Hn. rewrite He. by apply list_elem_of_fmap_2.
  - exfalso. apply Hn. rewrite <-He. by apply list_elem_of_fmap_2.
Qed.

(** The sorted list does not depend on the order of the input. *)
Lemma sort_by_key_unique {A} (key : A -> string) l1 l2 :
  l1 ≡ₚ l2 -> NoDup (key <$> l1) -> sort_by_key key l1 = sort_by_key key l2.
Proof.
  intros Hp Hnd. apply (StronglySorted_unique_strong (key_le key)).
  - intros x y. rewrite !sort_by_key_perm, <-Hp. intros Hx Hy H1 H2.
    eapply NoDup_fmap_inj_on; [done..|]. by apply (anti_symm string_le).
  - apply StronglySorted_merge_sort; apply _.
  - apply StronglySorted_merge_sort; apply _.
  - by rewrite !sort_by_key_perm.
Qed.

Section restore.
Context `{LQ : LinkedQueueCrate}.

(** ** The snapshot as a function of the state *)

Definition lock_snapshot_of (kl : string * LockState) : BrokerRaftLockSnapshot :=
  let '(key, lock) := kl in
  mkLockSnapshot key (max lock) (fencing_counter lock)
    (sort_by_key es_lock_uuid (exclusive_holder_snapshot <$> map_to_list (exclusive_holders lock)))
    (sort_by_key rs_lock_uuid (reader_snapshot <$> map_to_list (readers lock)))
    (writer_snapshot <$> writer lock)
    ((fun up => pending_snapshot up.2) <$> LinkedQueue.iter (queue lock))
    (is_idle lock).

Definition snapshot_of (s : BrokerState) (now : Z) : BrokerRaftSnapshot :=
  mkBrokerRaftSnapshot 1 (snapshot_metrics_from (broker_metrics_from_state s))
    (sort_by_key lk_key (lock_snapshot_of <$> map_to_list (locks s)))
    (merge_sort deadline_snapshot_le
       (deadline_snapshot now
          <$> filter (fun d => deadline_entry_is_still_held s d.2 = true)
                (deadlines_in_order (deadlines s)))).

Lemma exclusive_snapshot_keys (m : gmap string ExclusiveHolder) :
  NoDup (es_lock_uuid <$> (exclusive_holder_snapshot <$> map_to_list m)).
Proof. rewrite <-list_fmap_compose. apply NoDup_fst_map_to_list. Qed.

Lemma reader_snapshot_keys (m : gmap string RwHolder) :
  NoDup (rs_lock_uuid <$> (reader_snapshot <$> map_to_list m)).
Proof. rewrite <-list_fmap_compose. apply NoDup_fst_map_to_list. Qed.

Lemma lock_snapshot_keys (m : gmap string LockState) :
  NoDup (lk_key <$> (lock_snapshot_of <$> map_to_list m)).
Proof.
  rewrite <-list_fmap_compose.
  rewrite (list_fmap_ext _ fst); [apply NoDup_fst_map_to_list|]. by intros _ [k l] _.
Qed.

Section with_env.
Context `{E : Env}.

Lemma lock_snapshot_eq kl w :
  lock_snapshot kl w = Done (lock_snapshot_of kl) (next_tick (next_tick w)).
Proof.
  destruct kl as [key lock]. unfold lock_snapshot, hash_order, mbind, M_bind, mret, M_ret.
  unfold lock_snapshot_of. f_equal. f_equal.
  - symmetry. apply sort_by_key_unique; [|apply exclusive_snapshot_keys].
    by rewrite env_hash_order_perm.
  - symmetry. apply sort_by_key_unique; [|apply reader_snapshot_keys].
    by rewrite env_hash_order_perm.
Qed.

Lemma lock_snapshots_eq kls acc w :
  exists w', for_fold kls acc (fun acc kl => l ← lock_snapshot kl; mret (acc ++ [l])) w
             = Done (acc ++ (lock_snapshot_of <$> kls)) w' /\ state w' = state w /\ trace w' = trace w.
Proof.
  revert acc w. induction kls as [|kl kls IH]; intros acc w; simpl.
  - exists w. by rewrite app_nil_r.
  - destruct (IH (acc ++ [lock_snapshot_of kl]) (next_tick (next_tick w))) as (w' & Hw & H1 & H2).
    exists w'. split_and!; [|done..].
    erewrite bind_done by (by erewrite bind_done by apply lock_snapshot_eq).
    rewrite Hw. by rewrite <-app_assoc.
Qed.

Lemma broker_snapshot_eq w :
  exists w', broker_snapshot w = Done (snapshot_of (state w) (env_instant (tick w))) w' /\
    state w' = state w /\ trace w' = trace w.
Proof.
  destruct (lock_snapshots_eq (env_hash_order (S (tick w)) (map_to_list (locks (state w)))) []
              (next_tick (next_tick w))) as (w' & Hw & H1 & H2).
  exists w'. split_and!; [|done..].
  unfold broker_snapshot. do 3 (erewrite bind_done by reflexivity).
  erewrite bind_done by apply Hw. unfold mret, M_ret, snapshot_of. do 2 f_equal.
  symmetry. apply sort_by_key_unique; [|apply lock_snapshot_keys].
  by rewrite env_hash_order_perm.
Qed.

End with_env.

(** ** Restoring one lock *)

Definition restored_exclusive (h : BrokerRaftExclusiveHolderSnapshot) : ExclusiveHolder :=
  mkExclusiveHolder SNAPSHOT_DETACHED_CLIENT (es_pid h) (es_fencing_token h)
    (es_keep_locks_after_death h) (es_composite_member h).

Definition restored_rw (h : BrokerRaftRwHolderSnapshot) : RwHolder :=
  mkRwHolder SNAPSHOT_DETACHED_CLIENT (rs_fencing_token h) (rs_lock_uuid h).

(** What the loops over holders and waiters leave alone. *)
Record restoring (ln ln' : LockState * BrokerState) : Prop := {
  rg_max : max ln'.1 = max ln.1;
  rg_timestamp : timestamp_emptied ln'.1 = timestamp_emptied ln.1;
  rg_counter : fencing_counter ln.1 <= fencing_counter ln'.1;
  rg_watermark : fencing_watermark ln.2 <= fencing_watermark ln'.2;
  rg_locks : locks ln'.2 = locks ln.2;
  rg_config : config ln'.2 = config ln.2;
  rg_started : started_at ln'.2 = started_at ln.2;
  rg_clients : clients ln'.2 = clients ln.2;
}.

#[global] Instance restoring_preorder : PreOrder restoring.
Proof. split; [by split|]. intros x y z [] []. split; congruence || lia. Qed.

Lemma restoring_foldl {A} (f : LockState * BrokerState -> A -> LockState * BrokerState) l ln :
  (forall ln x, restoring ln (f ln x)) -> restoring ln (foldl f ln l).
Proof.
  intros Hf. revert ln. induction l as [|x l IH]; intros ln; simpl; [done|].
  etrans; [apply Hf|apply IH].
Qed.

Lemma restore_exclusive_restoring ln h : restoring ln (restore_exclusive ln h).
Proof. split; simpl; lia || done. Qed.
Lemma restore_reader_restoring ln h : restoring ln (restore_reader ln h).
Proof. split; simpl; lia || done. Qed.
Lemma restore_writer_restoring ln h : restoring ln (restore_writer ln h).
Proof. destruct h; split; simpl; lia || done. Qed.
Lemma restore_waiter_restoring ln h : restoring ln (restore_waiter ln h).
Proof. split; simpl; lia || done. Qed.

(** Inserting a list of entries with distinct keys. *)
Lemma foldl_insert_list_to_map {X A} (k : X -> string) (v : X -> A) l (m : gmap string A) :
  NoDup (k <$> l) ->
  foldl (fun m x => <[k x := v x]> m) m l = list_to_map ((fun x => (k x, v x)) <$> l) ∪ m.
Proof.
  revert m. induction l as [|x l IH]; intros m; simpl; [by rewrite (left_id_L ∅ _)|].
  rewrite NoDup_cons. intros [Hx Hnd]. rewrite IH by done.
  rewrite <-insert_union_r; [by rewrite insert_union_l|].
  apply not_elem_of_list_to_map_1. by rewrite <-list_fmap_compose.
Qed.

Lemma foldl_proj {S A B} (pr : S -> B) (f : S -> A -> S) (g : B -> A -> B) l s :
  (forall s x, pr (f s x) = g (pr s) x) -> pr (foldl f s l) = foldl g (pr s) l.
Proof. intros Hf. revert s. induction l as [|x l IH]; intros s; simpl; [done|]. by rewrite IH, Hf. Qed.

Lemma foldl_const {S A B} (pr : S -> B) (f : S -> A -> S) l s :
  (forall s x, pr (f s x) = pr s) -> pr (foldl f s l) = pr s.
Proof. intros Hf. revert s. induction l as [|x l IH]; intros s; simpl; [done|]. by rewrite IH, Hf. Qed.

(** Pushing requests with distinct uuids keeps their order. *)
Lemma foldl_push_back (ws : list BrokerRaftPendingRequestSnapshot) q :
  NoDup ((LinkedQueue.iter q).*1 ++ (ps_request_uuid <$> ws)) ->
  LinkedQueue.iter
    (foldl (fun q w => (LinkedQueue.push_back q (ps_request_uuid w) (pending_from_snapshot w)).2) q ws)
  = LinkedQueue.iter q ++ ((fun w => (ps_request_uuid w, pending_from_snapshot w)) <$> ws).
Proof.
  revert q. induction ws as [|w ws IH]; intros q Hnd; simpl; [by rewrite app_nil_r|].
  rewrite IH; rewrite LinkedQueueFacts.push_back_iter; rewrite decide_False.
  - by rewrite <-app_assoc.
  - apply NoDup_app in Hnd as (_ & H & _). intros Hin. apply (H _ Hin). left.
  - rewrite fmap_app. simpl. by rewrite <-app_assoc.
  - apply NoDup_app in Hnd as (_ & H & _). intros Hin. apply (H _ Hin). left.
Qed.

(** What the restored lock has to do with its snapshot. *)
Record restored_from (cap : Z) (ls : BrokerRaftLockSnapshot) (l : LockState) : Prop := {
  rf_exclusive : exclusive_holders l =
    list_to_map ((fun h => (es_lock_uuid h, restored_exclusive h)) <$> lk_exclusive_holders ls);
  rf_readers : readers l =
    list_to_map ((fun h => (rs_lock_uuid h, restored_rw h)) <$> lk_readers ls);
  rf_writer : writer l = restored_rw <$> lk_writer ls;
  rf_queue : LinkedQueue.iter (queue l) =
    (fun w => (ps_request_uuid w, pending_from_snapshot w)) <$> lk_queue ls;
  rf_max : max l = Z.min (Z.max (lk_max ls) 1) (Z.max cap 1);
  rf_counter : lk_fencing_counter ls <= fencing_counter l;
  rf_tokens t : holds_token l t -> t <= fencing_counter l;
}.

(** Every token restored so far is below the counter. *)
Definition tokens_below (l : LockState) : Prop := forall t, holds_token l t -> t <= fencing_counter l.

Lemma restore_exclusive_below ln h : tokens_below ln.1 -> tokens_below (restore_exclusive ln h).1.
Proof.
  intros Hb t [u x Hu <-|u x Hu <-|x Hu <-]; simpl in *.
  - rewrite lookup_insert_Some in Hu. destruct Hu as [[_ <-]|[_ Hu]]; simpl; [lia|].
    specialize (Hb _ (ht_exclusive _ _ _ _ Hu eq_refl)). lia.
  - specialize (Hb _ (ht_reader _ _ _ _ Hu eq_refl)). lia.
  - specialize (Hb _ (ht_writer _ _ _ Hu eq_refl)). lia.
Qed.

Lemma restore_reader_below ln h : tokens_below ln.1 -> tokens_below (restore_reader ln h).1.
Proof.
  intros Hb t [u x Hu <-|u x Hu <-|x Hu <-]; simpl in *.
  - specialize (Hb _ (ht_exclusive _ _ _ _ Hu eq_refl)). lia.
  - rewrite lookup_insert_Some in Hu. destruct Hu as [[_ <-]|[_ Hu]]; simpl; [lia|].
    specialize (Hb _ (ht_reader _ _ _ _ Hu eq_refl)). lia.
  - specialize (Hb _ (ht_writer _ _ _ Hu eq_refl)). lia.
Qed.

Lemma restore_writer_below ln h : tokens_below ln.1 -> tokens_below (restore_writer ln h).1.
Proof.
  destruct h as [h|]; [|done]. intros Hb t [u x Hu <-|u x Hu <-|x Hu <-]; simpl in *.
  - specialize (Hb _ (ht_exclusive _ _ _ _ Hu eq_refl)). lia.
  - specialize (Hb _ (ht_reader _ _ _ _ Hu eq_refl)). lia.
  - injection Hu as <-. simpl. lia.
Qed.

Lemma restore_waiter_below ln h : tokens_below ln.1 -> tokens_below (restore_waiter ln h).1.
Proof. intros Hb t Ht. apply Hb. destruct Ht; eauto using holds_token. Qed.

Lemma foldl_below {A} (f : LockState * BrokerState -> A -> LockState * BrokerState) l ln :
  (forall ln x, tokens_below ln.1 -> tokens_below (f ln x).1) ->
  tokens_below ln.1 -> tokens_below (foldl f ln l).1.
Proof. intros Hf. revert ln. induction l as [|x l IH]; intros ln H; simpl; auto. Qed.

(** The uuids of a lock snapshot are distinct, kind by kind. *)
Record lock_snapshot_nodup (ls : BrokerRaftLockSnapshot) : Prop := {
  sd_exclusive : NoDup (es_lock_uuid <$> lk_exclusive_holders ls);
  sd_readers : NoDup (rs_lock_uuid <$> lk_readers ls);
  sd_queue : NoDup (ps_request_uuid <$> lk_queue ls);
}.

(** The four loops, from a new lock. *)
Definition restore_loops (lock : LockState) (next : BrokerState) (ls : BrokerRaftLockSnapshot)
    : LockState * BrokerState :=
  foldl restore_waiter
    (restore_writer
       (foldl restore_reader (foldl restore_exclusive (lock, next) (lk_exclusive_holders ls))
          (lk_readers ls)) (lk_writer ls)) (lk_queue ls).

Lemma restore_loops_restoring lock next ls : restoring (lock, next) (restore_loops lock next ls).
Proof.
  unfold restore_loops.
  etrans; [apply (restoring_foldl restore_exclusive (lk_exclusive_holders ls)), restore_exclusive_restoring|].
  etrans; [apply (restoring_foldl restore_reader (lk_readers ls)), restore_reader_restoring|].
  etrans; [apply (restore_writer_restoring _ (lk_writer ls))|].
  apply restoring_foldl, restore_waiter_restoring.
Qed.

Lemma restore_loops_fields lock next ls :
  lock_snapshot_nodup ls -> LinkedQueue.iter (queue lock) = [] ->
  exclusive_holders lock = ∅ -> readers lock = ∅ -> writer lock = None ->
  let l := (restore_loops lock next ls).1 in
  exclusive_holders l =
    list_to_map ((fun h => (es_lock_uuid h, restored_exclusive h)) <$> lk_exclusive_holders ls) /\
  readers l = list_to_map ((fun h => (rs_lock_uuid h, restored_rw h)) <$> lk_readers ls) /\
  writer l = restored_rw <$> lk_writer ls /\
  LinkedQueue.iter (queue l) =
    ((fun w => (ps_request_uuid w, pending_from_snapshot w)) <$> lk_queue ls).
Proof.
  intros [N1 N2 N3] Hq He Hr Hw. simpl. unfold restore_loops. split_and!.
  - rewrite (foldl_const (fun ln => exclusive_holders ln.1)) by done.
    transitivity (exclusive_holders (foldl restore_reader
      (foldl restore_exclusive (lock, next) (lk_exclusive_holders ls)) (lk_readers ls)).1);
      [by destruct (lk_writer ls)|].
    rewrite (foldl_const (fun ln => exclusive_holders ln.1)) by done.
    rewrite (foldl_proj (fun ln => exclusive_holders ln.1) _
               (fun m h => <[es_lock_uuid h := restored_exclusive h]> m)) by done.
    simpl. rewrite He, foldl_insert_list_to_map by done. apply (right_id_L ∅ _).
  - rewrite (foldl_const (fun ln => readers ln.1)) by done.
    transitivity (readers (foldl restore_reader
      (foldl restore_exclusive (lock, next) (lk_exclusive_holders ls)) (lk_readers ls)).1);
      [by destruct (lk_writer ls)|].
    rewrite (foldl_proj (fun ln => readers ln.1) _
               (fun m h => <[rs_lock_uuid h := restored_rw h]> m)) by done.
    rewrite (foldl_const (fun ln => readers ln.1)) by done.
    simpl. rewrite Hr, foldl_insert_list_to_map by done. apply (right_id_L ∅ _).
  - rewrite (foldl_const (fun ln => writer ln.1)) by done.
    destruct (lk_writer ls); simpl; [done|].
    rewrite !(foldl_const (fun ln => writer ln.1)) by done. done.
  - rewrite (foldl_proj (fun ln => queue ln.1) _
      (fun q w => (LinkedQueue.push_back q (ps_request_uuid w) (pending_from_snapshot w)).2)) by done.
    match goal with |- context [foldl _ (queue (restore_writer ?ln ?h).1)] =>
      replace (queue (restore_writer ln h).1) with (queue ln.1) by (by destruct h) end.
    rewrite !(foldl_const (fun ln => queue ln.1)) by done. simpl.
    rewrite foldl_push_back; rewrite Hq; done.
Qed.

Lemma restore_loops_below lock next ls :
  exclusive_holders lock = ∅ -> readers lock = ∅ -> writer lock = None ->
  tokens_below (restore_loops lock next ls).1.
Proof.
  intros He Hr Hw. unfold restore_loops.
  apply foldl_below; [apply restore_waiter_below|]. apply restore_writer_below.
  apply foldl_below; [apply restore_reader_below|].
  apply foldl_below; [apply restore_exclusive_below|].
  intros t [u h Hu|u h Hu|h Hu]; exfalso; simpl in Hu; rewrite ?He, ?Hr, ?lookup_empty in Hu;
    congruence.
Qed.

Section restore_lock.
Context `{E : Env}.

Lemma restore_lock_spec now next ls w :
  lock_snapshot_nodup ls ->
  exists l next', restore_lock now next ls w = Done next' (next_tick w) /\
    locks next' = <[lk_key ls := l]> (locks next) /\ config next' = config next /\
    started_at next' = started_at next /\ clients next' = clients next /\
    fencing_watermark next <= fencing_watermark next' /\
    fencing_counter l <= fencing_watermark next' /\
    restored_from (cfg_max_concurrency_cap (config next)) ls l.
Proof.
  intros Hnd. unfold restore_lock.
  set (m := Z.min (Z.max (lk_max ls) 1) (Z.max (cfg_max_concurrency_cap (config next)) 1)).
  destruct (LockState_new_fresh m w) as (l0 & Hnew & H1 & H2 & H3 & H4 & H5 & _ & _).
  set (lock := set_timestamp_emptied None (set_fencing_counter (lk_fencing_counter ls) l0)).
  pose proof (restore_loops_restoring lock next ls) as [G1 _ G3 G4 G5 G6 G7 G8].
  pose proof (restore_loops_fields lock next ls Hnd) as (F1 & F2 & F3 & F4); [done..|].
  pose proof (restore_loops_below lock next ls) as Hb.
  specialize (Hb H1 H2 H3).
  rewrite (bind_done _ _ _ _ _ Hnew). cbv zeta.
  change (foldl restore_waiter _ _) with (restore_loops lock next ls).
  destruct (restore_loops lock next ls) as [l1 next1]. cbn [fst snd] in *.
  eexists _, _. split; [reflexivity|]. simpl. rewrite G5. split_and!; try done; try lia.
  - case_match; simpl; lia.
  - assert (restored_from (cfg_max_concurrency_cap (config next)) ls l1) as Hr.
    { split; try done. rewrite G1. simpl. rewrite H5. unfold m. lia. }
    case_match; [|done]. destruct Hr as [R1 R2 R3 R4 R5 R6 R7]. split; try done.
    intros t Ht. apply R7. destruct Ht; eauto using holds_token.
Qed.

(** The loop over [snapshot.locks]. *)
Lemma restore_locks_spec now lss next w :
  Forall lock_snapshot_nodup lss -> NoDup (lk_key <$> lss) ->
  exists next' w', for_fold lss next (restore_lock now) w = Done next' w' /\
    state w' = state w /\ trace w' = trace w /\
    config next' = config next /\ started_at next' = started_at next /\
    clients next' = clients next /\ fencing_watermark next <= fencing_watermark next' /\
    (forall ls, ls ∈ lss -> exists l, locks next' !! lk_key ls = Some l /\
       restored_from (cfg_max_concurrency_cap (config next)) ls l /\
       fencing_counter l <= fencing_watermark next') /\
    (forall key, key ∉ lk_key <$> lss -> locks next' !! key = locks next !! key).
Proof.
  revert next w. induction lss as [|ls lss IH]; intros next w Hnd Hk; simpl.
  - exists next, w. split_and!; try done. intros ls Hls. by apply elem_of_nil in Hls.
  - apply Forall_cons in Hnd as [Hl Hnd]. apply NoDup_cons in Hk as [Hk Hks].
    destruct (restore_lock_spec now next ls w Hl)
      as (l & next1 & Hr & L1 & C1 & S1 & K1 & W1 & W2 & R1).
    destruct (IH next1 (next_tick w) Hnd Hks)
      as (next2 & w2 & Hf & E1 & E2 & C2 & S2 & K2 & W3 & A2 & B2).
    exists next2, w2. rewrite (bind_done _ _ _ _ _ Hr).
    split_and!; try done; try congruence; try lia.
    + intros ls' Hls. apply elem_of_cons in Hls as [->|Hls].
      * exists l. rewrite B2 by done. rewrite L1, lookup_insert_eq. split_and!; [done..|lia].
      * rewrite C1 in A2. by apply A2.
    + intros key Hnin. apply not_elem_of_cons in Hnin as [Hne Hnin].
      rewrite B2 by done. by rewrite L1, lookup_insert_ne.
Qed.

End restore_lock.

End restore.
