(* ===== verification/BrokerValidate.v ===== *)
(** * What snapshot validation accepts

    The checks of [validate_broker_raft_snapshot] as a predicate, both ways:
    what an accepted snapshot satisfies, and what is enough to be accepted. *)

From S2P Require Import Prelude Monad Protocol Queue BrokerTypes BrokerState Broker BrokerOps.
From S2P Require Import BrokerSpec BrokerFencing BrokerSim BrokerSnapshot BrokerRestore.
From stdpp Require Import options.

Lemma reject_bind {A} c e (k : Result A) r :
  (reject_if c e ;; k) = ROk r <-> c = false /\ k = ROk r.
Proof. destruct c; simpl; naive_solver. Qed.

Lemma reject_ok c e r : reject_if c e = ROk r <-> c = false.
Proof. destruct c; simpl; [naive_solver|]. destruct r. naive_solver. Qed.

Lemma result_bind {A B} (m : Result A) (f : A -> Result B) r :
  (m ≫= f) = ROk r <-> exists a, m = ROk a /\ f a = ROk r.
Proof. destruct m; simpl; naive_solver. Qed.

Lemma insert_unique_ok seen s e r :
  insert_unique seen s e = ROk r <-> (s ∉ seen) /\ r = {[s]} ∪ seen.
Proof. unfold insert_unique. case_bool_decide; naive_solver. Qed.

(** A loop that rejects repeated keys. *)
Lemma unique_loop {A B} (key : A -> string) (pr : B -> gset string) (good : A -> Prop)
    (step : B -> A -> B) (body : B -> A -> Result B) xs acc r :
  (forall acc x, pr (step acc x) = {[key x]} ∪ pr acc) ->
  (forall acc x acc', body acc x = ROk acc' <-> good x /\ (key x ∉ pr acc) /\ acc' = step acc x) ->
  try_fold xs acc body = ROk r <->
  Forall good xs /\ NoDup (key <$> xs) /\ Forall (fun x => key x ∉ pr acc) xs /\
  r = foldl step acc xs.
Proof.
  intros Hstep Hbody. revert acc. induction xs as [|x xs IH]; intros acc; simpl.
  { split; [intros [= <-]; split_and!; constructor|]. by intros (_ & _ & _ & ->). }
  rewrite result_bind, !Forall_cons, NoDup_cons. setoid_rewrite Hbody. setoid_rewrite IH.
  split.
  - intros (acc' & (G & N & ->) & H1 & H2 & H3 & ->). rewrite Hstep in H3.
    split_and!; try done.
    + intros (y & Hy & Hin)%list_elem_of_fmap. rewrite Forall_forall in H3.
      apply (H3 y Hin). rewrite Hy. set_solver.
    + eapply Forall_impl; [done|]. set_solver.
  - intros ([G H1] & [Hx H2] & [N H3] & ->). exists (step acc x). split_and!; try done.
    rewrite Hstep. rewrite Forall_forall in H3 |- *. intros y Hy.
    rewrite not_elem_of_union, not_elem_of_singleton. split; [|by apply H3].
    intros He. apply Hx. rewrite <-He. by apply list_elem_of_fmap_2.
Qed.

(** The common case: the accumulator is the set of keys. *)
Lemma unique_set_loop {A} (key : A -> string) (good : A -> Prop)
    (body : gset string -> A -> Result (gset string)) xs acc r :
  (forall acc x acc',
     body acc x = ROk acc' <-> good x /\ (key x ∉ acc) /\ acc' = {[key x]} ∪ acc) ->
  try_fold xs acc body = ROk r <->
  Forall good xs /\ NoDup (key <$> xs) /\ Forall (fun x => key x ∉ acc) xs /\
  r = list_to_set (key <$> xs) ∪ acc.
Proof.
  intros Hbody. rewrite (unique_loop key id good (fun acc x => {[key x]} ∪ acc)) by done.
  simpl. replace (foldl _ acc xs) with (list_to_set (key <$> xs) ∪ acc); [done|].
  clear Hbody. revert acc. induction xs as [|x xs IH]; intros acc; simpl.
  - by rewrite (left_id_L ∅ _).
  - rewrite <-IH. set_solver.
Qed.

(** A loop of independent checks. *)
Lemma check_loop {A} (body : A -> Result unit) xs r :
  try_fold xs tt (fun _ => body) = ROk r <-> Forall (fun x => body x = ROk tt) xs.
Proof.
  destruct r. induction xs as [|x xs IH]; simpl; [by split|].
  rewrite result_bind, Forall_cons, <-IH. split.
  - intros ([] & H1 & H2). done.
  - intros [H1 H2]. by exists tt.
Qed.

(** ** Waiters *)

Record composite_snapshot_ok (lock_key : string) (all_keys remaining_keys granted_keys : list string)
    (granted_tokens : gmap string Z) (cu : string) : Prop := {
  cs_uuid : cu <> ""%string;
  cs_count : (length all_keys <= MAX_COMPOSITE_KEYS)%nat;
  cs_head : head remaining_keys = Some lock_key;
  cs_nonempty : Forall (fun k => k <> ""%string) all_keys;
  cs_nodup : NoDup all_keys /\ NoDup remaining_keys /\ NoDup granted_keys;
  cs_disjoint : Forall (fun k => k ∉ remaining_keys) granted_keys;
  cs_partition : (list_to_set remaining_keys ∪ list_to_set granted_keys : gset string)
                   = list_to_set all_keys;
  cs_tokens : dom granted_tokens = list_to_set granted_keys;
}.

Definition waiter_snapshot_ok (lock_key : string) (w : BrokerRaftPendingRequestSnapshot) : Prop :=
  ps_request_uuid w <> ""%string /\ ps_grant_lock_uuid w <> Some ""%string /\
  match ps_kind w with
  | SnapComposite all_keys remaining_keys granted_keys granted_tokens cu =>
      composite_snapshot_ok lock_key all_keys remaining_keys granted_keys granted_tokens cu
  | _ => True
  end.

Lemma string_is_empty_false s : string_is_empty s = false <-> s <> ""%string.
Proof. apply bool_decide_eq_false. Qed.

(** The three loops over the keys of a composite waiter. *)
Lemma all_keys_body lock_key (acc : gset string) key acc' :
  (reject_if (string_is_empty key) (in_lock lock_key "has an empty composite key") ;;
   insert_unique acc key (in_lock lock_key ("repeats composite key `" +:+ key +:+ "`")%string))
  = ROk acc' <-> key <> ""%string /\ (id key ∉ acc) /\ acc' = {[id key]} ∪ acc.
Proof. rewrite reject_bind, string_is_empty_false, insert_unique_ok. done. Qed.

Lemma remaining_keys_body (all_ acc : gset string) e1 e2 key acc' :
  (reject_if (negb (bool_decide (key ∈ all_))) e1 ;; insert_unique acc key e2) = ROk acc' <->
  (key ∈ all_) /\ (id key ∉ acc) /\ acc' = {[id key]} ∪ acc.
Proof. rewrite reject_bind, negb_false_iff, bool_decide_eq_true, insert_unique_ok. done. Qed.

Lemma granted_keys_body (all_ remaining acc : gset string) e1 e2 e3 key acc' :
  (reject_if (negb (bool_decide (key ∈ all_))) e1 ;;
   granted' ← insert_unique acc key e2;
   reject_if (bool_decide (key ∈ remaining)) e3 ;; mret granted') = ROk acc' <->
  (key ∈ all_ /\ key ∉ remaining) /\ (id key ∉ acc) /\ acc' = {[id key]} ∪ acc.
Proof.
  rewrite reject_bind, negb_false_iff, bool_decide_eq_true, result_bind.
  setoid_rewrite insert_unique_ok. setoid_rewrite reject_bind.
  setoid_rewrite bool_decide_eq_false. simpl. split.
  - intros (H1 & a & [H2 ->] & H3 & [= <-]). done.
  - intros ([H1 H2] & H3 & ->). split; [done|]. eexists. done.
Qed.

Lemma validate_waiter_iff lock_key w :
  validate_broker_raft_waiter_snapshot lock_key w = ROk tt <-> waiter_snapshot_ok lock_key w.
Proof.
  unfold validate_broker_raft_waiter_snapshot, waiter_snapshot_ok.
  rewrite !reject_bind, string_is_empty_false, bool_decide_eq_false.
  destruct (ps_kind w) as [| | |ak rk gk tk cu]; try naive_solver.
  apply and_iff_compat_l, and_iff_compat_l.
  rewrite !reject_bind, string_is_empty_false, orb_false_iff, !bool_decide_eq_false.
  cbv zeta. split.
  - intros (H1 & [H2 H3] & H4 & H5 & H). apply result_bind in H as (all_ & Hall & H).
    apply (unique_set_loop id (fun k => k <> ""%string)) in Hall as (A1 & A2 & _ & ->);
      [|intros; apply all_keys_body].
    apply result_bind in H as (rem & Hrem & H).
    eapply (unique_set_loop id) in Hrem as (R1 & R2 & _ & ->);
      [|intros; apply remaining_keys_body].
    apply result_bind in H as (gr & Hgr & H).
    eapply (unique_set_loop id) in Hgr as (G1 & G2 & _ & ->);
      [|intros; apply granted_keys_body].
    apply result_bind in H as ([] & _ & H).
    rewrite reject_bind, reject_ok, !negb_false_iff, !bool_decide_eq_true in H.
    rewrite !list_fmap_id, !(right_id_L ∅ (∪)) in *. destruct H as [P1 P2].
    split; try done; [lia|by destruct rk; [|apply negb_false_iff, bool_decide_eq_true in H5 as ->]|].
    eapply Forall_impl; [done|]. simpl. set_solver.
  - intros [C1 C2 C3 C4 (C5 & C6 & C7) C8 C9 C10].
    assert (Forall (fun k => k ∈ (list_to_set ak : gset string)) rk) as Hr
      by (apply Forall_forall; intros x Hx; rewrite <-C9; set_solver).
    assert (Forall (fun k => k ∈ (list_to_set ak : gset string) /\
                             k ∉ (list_to_set rk : gset string)) gk) as Hg.
    { apply Forall_forall. intros x Hx. rewrite Forall_forall in C8. specialize (C8 x Hx).
      split; [rewrite <-C9; set_solver|]. by rewrite elem_of_list_to_set. }
    assert (forall l : list string, Forall (fun x => id x ∉ (∅ : gset string)) l) as Hempty
      by (intros; apply Forall_true; set_solver).
    split_and!.
    + done.
    + intros ->. destruct rk; [done|]. set_solver.
    + lia.
    + by intros ->.
    + destruct rk; [done|]. injection C3 as ->. simpl. by rewrite bool_decide_eq_true_2.
    + apply result_bind. exists (list_to_set ak). split.
      { apply (unique_set_loop id (fun k => k <> ""%string)); [intros; apply all_keys_body|].
        rewrite list_fmap_id, (right_id_L ∅ (∪)). done. }
      apply result_bind. exists (list_to_set rk). split.
      { apply (unique_set_loop id (fun k => k ∈ (list_to_set ak : gset string)));
          [intros; apply remaining_keys_body|].
        rewrite list_fmap_id, (right_id_L ∅ (∪)). done. }
      apply result_bind. exists (list_to_set gk). split.
      { eapply (unique_set_loop id); [intros; apply granted_keys_body|].
        rewrite list_fmap_id, (right_id_L ∅ (∪)). done. }
      apply result_bind. exists tt. split.
      { apply check_loop. apply Forall_forall. intros x Hx. apply reject_ok.
        rewrite negb_false_iff, bool_decide_eq_true. unfold sort_keys in Hx.
        rewrite merge_sort_Permutation, C10 in Hx. set_solver. }
      by rewrite reject_bind, reject_ok, !negb_false_iff, !bool_decide_eq_true.
Qed.

(** ** Locks *)

Definition holder_uuids (ls : BrokerRaftLockSnapshot) : list string :=
  (es_lock_uuid <$> lk_exclusive_holders ls) ++ (rs_lock_uuid <$> lk_readers ls)
  ++ option_list (rs_lock_uuid <$> lk_writer ls).

Definition snapshot_inactive (ls : BrokerRaftLockSnapshot) : Prop :=
  lk_exclusive_holders ls = [] /\ lk_readers ls = [] /\ lk_writer ls = None /\ lk_queue ls = [].

Record lock_snapshot_ok (ls : BrokerRaftLockSnapshot) : Prop := {
  lo_key : lk_key ls <> ""%string;
  lo_max : lk_max ls <> 0;
  lo_uuids : Forall (fun u => u <> ""%string) (holder_uuids ls);
  lo_nodup : NoDup (holder_uuids ls);
  lo_idle : lk_idle ls = true -> snapshot_inactive ls;
  lo_waiters : Forall (waiter_snapshot_ok (lk_key ls)) (lk_queue ls);
  lo_requests : NoDup (ps_request_uuid <$> lk_queue ls);
}.

Definition count_waiters (n : Z) (ls : BrokerRaftLockSnapshot) : Z :=
  foldl (fun n _ => saturating_add64 n 1) n (lk_queue ls).

Lemma validate_holder_iff lock_key what seen u r :
  validate_holder_uuid lock_key what seen u = ROk r <->
  u <> ""%string /\ (u ∉ seen) /\ r = {[u]} ∪ seen.
Proof.
  unfold validate_holder_uuid. by rewrite reject_bind, string_is_empty_false, insert_unique_ok.
Qed.

Lemma holder_loop {A} (key : A -> string) lock_key what xs acc r :
  try_fold xs acc (fun seen h => validate_holder_uuid lock_key what seen (key h)) = ROk r <->
  Forall (fun h => key h <> ""%string) xs /\ NoDup (key <$> xs) /\
  Forall (fun h => key h ∉ acc) xs /\ r = list_to_set (key <$> xs) ∪ acc.
Proof. apply unique_set_loop. intros. apply validate_holder_iff. Qed.

Lemma queue_loop_body lock_key (acc : gset string * Z) w acc' :
  (validate_broker_raft_waiter_snapshot lock_key w ;;
   request_uuids ← insert_unique acc.1 (ps_request_uuid w)
     (in_lock lock_key ("repeats queued request uuid `" +:+ ps_request_uuid w +:+ "`")%string);
   mret (request_uuids, saturating_add64 acc.2 1)) = ROk acc' <->
  waiter_snapshot_ok lock_key w /\ (ps_request_uuid w ∉ acc.1) /\
  acc' = ({[ps_request_uuid w]} ∪ acc.1, saturating_add64 acc.2 1).
Proof.
  rewrite result_bind, <-validate_waiter_iff. setoid_rewrite result_bind.
  setoid_rewrite insert_unique_ok. split.
  - intros ([] & H1 & a & [H2 ->] & [= <-]). done.
  - intros (H1 & H2 & ->). exists tt. split; [done|]. by eexists.
Qed.

Lemma queue_loop lock_key ws n r :
  try_fold ws (∅, n) (fun (acc : gset string * Z) waiter =>
    let total_waiters := saturating_add64 acc.2 1 in
    validate_broker_raft_waiter_snapshot lock_key waiter ;;
    request_uuids ← insert_unique acc.1 (ps_request_uuid waiter)
      (in_lock lock_key
         ("repeats queued request uuid `" +:+ ps_request_uuid waiter +:+ "`")%string);
    mret (request_uuids, total_waiters)) = ROk r <->
  Forall (waiter_snapshot_ok lock_key) ws /\ NoDup (ps_request_uuid <$> ws) /\
  r = foldl (fun acc w => ({[ps_request_uuid w]} ∪ acc.1, saturating_add64 acc.2 1)) (∅, n) ws.
Proof.
  rewrite (unique_loop ps_request_uuid fst (waiter_snapshot_ok lock_key)
             (fun acc w => ({[ps_request_uuid w]} ∪ acc.1, saturating_add64 acc.2 1)));
    [|done|intros; apply queue_loop_body].
  split; [naive_solver|]. intros (H1 & H2 & H3). split_and!; try done.
  apply Forall_true. set_solver.
Qed.

Lemma idle_check ls :
  lk_idle ls && negb (bool_decide (length (lk_exclusive_holders ls) = 0%nat)
    && bool_decide (length (lk_readers ls) = 0%nat)
    && match lk_writer ls with None => true | Some _ => false end
    && bool_decide (length (lk_queue ls) = 0%nat)) = false <->
  (lk_idle ls = true -> snapshot_inactive ls).
Proof.
  unfold snapshot_inactive.
  destruct (lk_idle ls), (lk_exclusive_holders ls), (lk_readers ls), (lk_writer ls), (lk_queue ls);
    simpl; naive_solver.
Qed.

Lemma NoDup_three {A} (a b : list A) (c : option A) :
  NoDup (a ++ b ++ option_list c) <->
  NoDup a /\ (NoDup b /\ Forall (fun x => x ∉ a) b) /\
  (forall x, c = Some x -> (x ∉ a) /\ (x ∉ b)).
Proof.
  rewrite !NoDup_app, Forall_forall. setoid_rewrite elem_of_app. destruct c as [x|]; simpl.
  - setoid_rewrite list_elem_of_singleton. split.
    + intros (H1 & H2 & H3 & H4 & _). split_and!; try done.
      * intros y Hb Ha. apply (H2 y Ha). by left.
      * intros y [= <-]. split; [intros Ha; apply (H2 x Ha); by right|intros Hb; by apply (H4 x Hb)].
    + intros (H1 & [H2 H3] & H4). destruct (H4 x eq_refl) as [H5 H6].
      split_and!; try done; [|by intros y Hb ->|apply NoDup_singleton].
      intros y Ha [Hb| ->]; [by apply (H3 y)|done].
  - setoid_rewrite elem_of_nil. split.
    + intros (H1 & H2 & H3 & _). split_and!; try done. intros y Hb Ha. apply (H2 y Ha). by left.
    + intros (H1 & [H2 H3] & _). split_and!; try done; [|by intros ? ? ?|constructor].
      intros y Ha [Hb|Hb]; [by apply (H3 y)|done].
Qed.

(** The three holder loops together reject empty and repeated uuids. *)
Lemma validate_holders_iff ls :
  (exists seen1 seen2,
     try_fold (lk_exclusive_holders ls) ∅ (fun seen holder =>
       validate_holder_uuid (lk_key ls) "exclusive holder" seen (es_lock_uuid holder)) = ROk seen1 /\
     try_fold (lk_readers ls) seen1 (fun seen holder =>
       validate_holder_uuid (lk_key ls) "reader" seen (rs_lock_uuid holder)) = ROk seen2 /\
     match lk_writer ls with
     | Some writer =>
         validate_holder_uuid (lk_key ls) "writer" seen2 (rs_lock_uuid writer) ;; ROk tt
     | None => ROk tt
     end = ROk tt) <->
  Forall (fun u => u <> ""%string) (holder_uuids ls) /\ NoDup (holder_uuids ls).
Proof.
  unfold holder_uuids. rewrite NoDup_three, !Forall_app, !Forall_fmap.
  setoid_rewrite holder_loop. split.
  - intros (s1 & s2 & (H1 & H2 & _ & ->) & (H3 & H4 & H5 & ->) & Hw).
    rewrite (right_id_L ∅ (∪)) in *. split_and!; try done.
    + destruct (lk_writer ls); simpl; repeat constructor.
      by apply result_bind in Hw as (? & (? & _)%validate_holder_iff & _).
    + eapply Forall_impl; [done|]. simpl. intros x. by rewrite elem_of_list_to_set.
    + intros x Hx. apply fmap_Some in Hx as (h & Hh & ->). rewrite Hh in Hw.
      apply result_bind in Hw as (? & (_ & Hn & _)%validate_holder_iff & _).
      rewrite elem_of_union, !elem_of_list_to_set in Hn. tauto.
  - intros ((H1 & H2 & H3) & H4 & [H5 H6] & H7). eexists _, _.
    split; [split_and!; [done|done|apply Forall_true; set_solver|reflexivity]|].
    split; [split_and!; [done|done| |reflexivity]|].
    + eapply Forall_impl; [done|]. simpl. intros x.
      by rewrite (right_id_L ∅ (∪)), elem_of_list_to_set.
    + destruct (lk_writer ls) as [h|]; [|done]. destruct (H7 _ eq_refl).
      apply result_bind. eexists. split; [|done]. apply validate_holder_iff.
      split_and!; [by simpl in H3; inversion H3| |done].
      rewrite (right_id_L ∅ (∪)), elem_of_union, !elem_of_list_to_set. tauto.
Qed.

Lemma count_waiters_foldl (ws : list BrokerRaftPendingRequestSnapshot) (acc : gset string * Z) :
  (foldl (fun acc w => ({[ps_request_uuid w]} ∪ acc.1, saturating_add64 acc.2 1)) acc ws).2 =
  foldl (fun n _ => saturating_add64 n 1) acc.2 ws.
Proof. revert acc. induction ws as [|w ws IH]; intros acc; simpl; [done|]. by rewrite IH. Qed.

Lemma validate_lock_iff keys n ls r :
  validate_lock_snapshot (keys, n) ls = ROk r <->
  lock_snapshot_ok ls /\ (lk_key ls ∉ keys) /\
  r = ({[lk_key ls]} ∪ keys, count_waiters n ls).
Proof.
  unfold validate_lock_snapshot. split.
  - rewrite reject_bind, string_is_empty_false. intros [H1 H].
    apply result_bind in H as (keys1 & [H2 ->]%insert_unique_ok & H).
    rewrite reject_bind, bool_decide_eq_false in H. destruct H as [H3 H].
    apply result_bind in H as (s1 & E1 & H). apply result_bind in H as (s2 & E2 & H).
    apply result_bind in H as ([] & E3 & H). rewrite reject_bind, idle_check in H.
    destruct H as [H4 H]. apply result_bind in H as ([qs nq] & Eq & [= <-]).
    apply queue_loop in Eq as (H5 & H6 & Hq).
    destruct (proj1 (validate_holders_iff ls)) as [H7 H8]; [by exists s1, s2|].
    split_and!; [by split|done|]. f_equal. apply (f_equal snd) in Hq. simpl in Hq.
    by rewrite count_waiters_foldl in Hq.
  - intros ([H1 H2 H3 H4 H5 H6 H7] & H8 & ->).
    destruct (proj2 (validate_holders_iff ls)) as (s1 & s2 & E1 & E2 & E3); [done|].
    rewrite reject_bind, string_is_empty_false. split; [done|].
    apply result_bind. eexists. split; [by apply insert_unique_ok|].
    rewrite reject_bind, bool_decide_eq_false. split; [done|].
    rewrite E1. simpl. rewrite E2. simpl. apply result_bind. exists tt. split; [done|].
    rewrite reject_bind, idle_check. split; [done|].
    apply result_bind. eexists. split; [apply queue_loop; by split_and!|].
    match goal with |- context [foldl ?f ?a ?l] => destruct (foldl f a l) as [qs nq] eqn:Eq end.
    apply (f_equal snd) in Eq. rewrite count_waiters_foldl in Eq. by simpl in *; subst.
Qed.

(** ** Snapshots *)

Definition deadline_snapshot_ok (lss : list BrokerRaftLockSnapshot) (d : BrokerRaftDeadlineSnapshot)
    : Prop :=
  dl_lock_uuid d <> ""%string /\ dl_keys d <> [] /\ Forall (fun k => k <> ""%string) (dl_keys d) /\
  snapshot_deadline_matches_locks lss d = true.

Record snapshot_ok (sn : BrokerRaftSnapshot) : Prop := {
  so_version : sn_schema_version sn = 1;
  so_locks : Forall lock_snapshot_ok (sn_locks sn);
  so_keys : NoDup (lk_key <$> sn_locks sn);
  so_waiters : sm_waiters (sn_metrics sn) = foldl count_waiters 0 (sn_locks sn);
  so_deadlines : Forall (deadline_snapshot_ok (sn_locks sn)) (sn_deadlines sn);
}.

Lemma validate_deadline_iff lss d :
  validate_deadline_snapshot lss d = ROk tt <-> deadline_snapshot_ok lss d.
Proof.
  unfold validate_deadline_snapshot, deadline_snapshot_ok. cbv zeta.
  rewrite !reject_bind, reject_ok, string_is_empty_false, bool_decide_eq_false, negb_false_iff.
  assert (existsb string_is_empty (dl_keys d) = false <-> Forall (fun k => k <> ""%string) (dl_keys d))
    as ->; [|done].
  induction (dl_keys d) as [|k ks IH]; simpl; [by split|].
  by rewrite orb_false_iff, Forall_cons, string_is_empty_false, IH.
Qed.

Lemma validate_locks_iff lss r :
  try_fold lss (∅, 0) validate_lock_snapshot = ROk r <->
  Forall lock_snapshot_ok lss /\ NoDup (lk_key <$> lss) /\
  r = foldl (fun acc ls => ({[lk_key ls]} ∪ acc.1, count_waiters acc.2 ls)) (∅, 0) lss.
Proof.
  rewrite (unique_loop lk_key fst lock_snapshot_ok
             (fun acc ls => ({[lk_key ls]} ∪ acc.1, count_waiters acc.2 ls)));
    [|done|intros [keys n]; intros; apply validate_lock_iff].
  split; [naive_solver|]. intros (H1 & H2 & H3). split_and!; try done.
  apply Forall_true. set_solver.
Qed.

Lemma count_all_foldl lss (acc : gset string * Z) :
  (foldl (fun acc ls => ({[lk_key ls]} ∪ acc.1, count_waiters acc.2 ls)) acc lss).2 =
  foldl count_waiters acc.2 lss.
Proof. revert acc. induction lss as [|l lss IH]; intros acc; simpl; [done|]. by rewrite IH. Qed.

(** Validation decides [snapshot_ok]. *)
Lemma validate_snapshot_iff sn : validate_broker_raft_snapshot sn = ROk tt <-> snapshot_ok sn.
Proof.
  unfold validate_broker_raft_snapshot.
  rewrite reject_bind, negb_false_iff, bool_decide_eq_true. split.
  - intros [H1 H]. apply result_bind in H as ([ks n] & (H2 & H3 & Hn)%validate_locks_iff & H).
    rewrite reject_bind, negb_false_iff, bool_decide_eq_true, check_loop in H.
    destruct H as [H4 H5]. apply (f_equal snd) in Hn. rewrite count_all_foldl in Hn. simpl in Hn.
    split; try done; [congruence|]. eapply Forall_impl; [done|]. intros d. apply validate_deadline_iff.
  - intros [H1 H2 H3 H4 H5]. split; [done|]. apply result_bind. eexists.
    split; [by apply validate_locks_iff|].
    match goal with |- context [foldl ?f ?a ?l] => destruct (foldl f a l) as [qs nq] eqn:Eq end.
    apply (f_equal snd) in Eq. rewrite count_all_foldl in Eq. simpl in Eq.
    rewrite reject_bind, negb_false_iff, bool_decide_eq_true, check_loop. split; [congruence|].
    eapply Forall_impl; [done|]. intros d. apply validate_deadline_iff.
Qed.
