(* ===== verification/BrokerSnapshotTheorems.v ===== *)
(** * Theorems about Raft snapshots of the broker *)

From S2P Require Import Prelude Monad Protocol Queue BrokerTypes BrokerState Broker BrokerOps.
From S2P Require Import BrokerSpec BrokerFencing BrokerSim BrokerRefine BrokerRuns.
From S2P Require Import BrokerClients BrokerTheorems BrokerSnapshot BrokerRestore.
From S2P Require Import BrokerValidate.
From stdpp Require Import options.

Section snapshot_theorems.
Context `{LQ : LinkedQueueCrate}.

(** What a restored lock keeps of the lock it was recorded from: every holder,
    now owned by the detached client; every waiter, in order, with its TTL in
    whole milliseconds; the limit, within the cap; a counter that covers the
    recorded one and every token held. *)
Definition restored_request (p : PendingRequest) : PendingRequest :=
  pending_from_snapshot (pending_snapshot p).

Record restores (cap : Z) (l l' : LockState) : Prop := {
  re_exclusive : exclusive_holders l' = detach_exclusive <$> exclusive_holders l;
  re_readers : readers l' = detach_rw <$> readers l;
  re_writer : writer l' = detach_rw <$> writer l;
  re_queue : LinkedQueue.iter (queue l') = prod_map id restored_request <$> LinkedQueue.iter (queue l);
  re_max : max l' = Z.min (max l) (Z.max cap 1);
  re_counter : fencing_counter l <= fencing_counter l';
  re_tokens : tokens_below l';
}.

(** ** Validated deadlines match the restored state *)

Lemma snapshot_list_contains {B C} (k : B -> string) (v : B -> C) (hs : list B) u :
  existsb (fun h => bool_decide (k h = u)) hs = true ->
  is_Some ((list_to_map ((fun h => (k h, v h)) <$> hs) : gmap string C) !! u).
Proof.
  intros (h & Hin & Hb)%existsb_exists. apply bool_decide_eq_true in Hb as <-.
  apply list_elem_of_In in Hin. apply elem_of_dom. rewrite dom_list_to_map_L, elem_of_list_to_set.
  rewrite <-list_fmap_compose. apply list_elem_of_fmap. by exists h.
Qed.

Lemma restored_contains cap ls l d :
  restored_from cap ls l -> lock_snapshot_contains ls d = true ->
  lock_contains_uuid_for_kind l (dl_lock_uuid d) (dl_kind d) = true.
Proof.
  intros [R1 R2 R3 _ _ _ _]. unfold lock_snapshot_contains, lock_contains_uuid_for_kind.
  destruct (dl_kind d).
  - intros H. rewrite R1. by apply bool_decide_eq_true, snapshot_list_contains.
  - intros H. rewrite R2. by apply bool_decide_eq_true, snapshot_list_contains.
  - rewrite R3. by destruct (lk_writer ls).
Qed.

Lemma matches_restored cap lss s d :
  (forall ls, ls ∈ lss -> exists l, locks s !! lk_key ls = Some l /\ restored_from cap ls l) ->
  snapshot_deadline_matches_locks lss d = true -> snapshot_deadline_matches_state s d = true.
Proof.
  intros Hr. unfold snapshot_deadline_matches_locks, snapshot_deadline_matches_state.
  rewrite !forallb_forall. intros H key Hk. specialize (H key Hk).
  destruct (List.find _ lss) as [ls|] eqn:Hf; [|done].
  apply find_some in Hf as [Hin Hb]. apply bool_decide_eq_true in Hb as <-.
  destruct (Hr ls) as (l & -> & Hl); [by apply list_elem_of_In|]. by eapply restored_contains.
Qed.

Section with_env.
Context `{E : Env}.

Lemma restore_deadlines_total now ds s :
  Forall (fun d => snapshot_deadline_matches_state s d = true) ds ->
  exists s', try_fold ds s (restore_deadline now) = ROk s' /\
    locks s' = locks s /\ config s' = config s /\ started_at s' = started_at s /\
    clients s' = clients s /\ fencing_watermark s' = fencing_watermark s.
Proof.
  revert s. induction ds as [|d ds IH]; intros s Hd; [by exists s|].
  apply Forall_cons in Hd as [H1 H2].
  assert (exists s1, restore_deadline now s d = ROk s1 /\ locks s1 = locks s /\
            config s1 = config s /\ started_at s1 = started_at s /\ clients s1 = clients s /\
            fencing_watermark s1 = fencing_watermark s) as (s1 & Hs1 & L1 & C1 & S1 & K1 & W1).
  { unfold restore_deadline. rewrite H1. by eexists. }
  destruct (IH s1) as (s' & Hs' & E1 & E2 & E3 & E4 & E5).
  { unfold snapshot_deadline_matches_state in *. by rewrite L1. }
  exists s'. cbn [try_fold]. split; [|split_and!; congruence]. apply result_bind. eauto.
Qed.

Lemma snapshot_ok_nodup sn : snapshot_ok sn -> Forall lock_snapshot_nodup (sn_locks sn).
Proof.
  intros [_ H _ _ _]. eapply Forall_impl; [done|]. intros ls [_ _ _ Hn _ _ Hq].
  unfold holder_uuids in Hn. apply NoDup_app in Hn as (N1 & _ & N2).
  apply NoDup_app in N2 as (N2 & _ & _). by split.
Qed.

(** An accepted snapshot installs, and every lock is restored from it. *)
Lemma install_accepted sn w :
  snapshot_ok sn ->
  exists w', install_broker_raft_snapshot sn w = Done (ROk tt) w' /\ trace w' = trace w /\
    config (state w') = config (state w) /\ started_at (state w') = started_at (state w) /\
    clients (state w') = ∅ /\
    sm_fencing_watermark (sn_metrics sn) <= fencing_watermark (state w') /\
    (forall ls, ls ∈ sn_locks sn -> exists l, locks (state w') !! lk_key ls = Some l /\
       restored_from (cfg_max_concurrency_cap (config (state w))) ls l /\
       fencing_counter l <= fencing_watermark (state w')) /\
    (forall key, key ∉ lk_key <$> sn_locks sn -> locks (state w') !! key = None).
Proof.
  intros Hok. pose proof (snapshot_ok_nodup _ Hok) as Hnd. destruct Hok as [_ _ Hk _ Hd].
  unfold install_broker_raft_snapshot, state_with_metrics.
  do 3 (erewrite bind_done by reflexivity).
  match goal with |- context [for_fold (sn_locks sn) ?next (restore_lock ?now) ≫= _] =>
    match goal with |- exists w', ?m ?w0 = _ /\ _ =>
      destruct (restore_locks_spec now (sn_locks sn) next w0 Hnd Hk)
        as (next' & w1 & Hf & E1 & E2 & C1 & S1 & K1 & W1 & A1 & B1) end end.
  rewrite (bind_done _ _ _ _ _ Hf).
  match goal with |- context [try_fold _ _ (restore_deadline ?now)] =>
    destruct (restore_deadlines_total now (sn_deadlines sn) next') as (s' & -> & D1 & D2 & D3 & D4 & D5)
  end.
  { eapply Forall_impl; [done|]. intros d (_ & _ & _ & Hm). eapply matches_restored; [|done].
    intros ls Hls. destruct (A1 ls Hls) as (l & Hl & Hr & _). eauto. }
  eexists. split; [reflexivity|]. simpl. rewrite D1, D2, D3, D4, D5. simpl in *.
  split_and!; try done.
Qed.

End with_env.

(** ** A snapshot of a well-formed lock *)

Lemma list_to_map_snapshot {A B C : Type} (snap : string * A -> B) (k : B -> string) (v : B -> C)
    (f : A -> C) (m : gmap string A) l :
  l ≡ₚ snap <$> map_to_list m -> (forall u x, k (snap (u, x)) = u) ->
  (forall u x, m !! u = Some x -> v (snap (u, x)) = f x) ->
  (list_to_map ((fun b => (k b, v b)) <$> l) : gmap string C) = f <$> m.
Proof.
  intros Hl Hk Hv.
  assert ((fun b => (k b, v b)) <$> l ≡ₚ prod_map id f <$> map_to_list m) as Hp.
  { rewrite Hl, <-list_fmap_compose. apply reflexive_eq, list_fmap_ext.
    intros i [u x] Hi. simpl. unfold prod_map. simpl. rewrite Hk. f_equal. apply Hv.
    apply elem_of_map_to_list. by eapply list_elem_of_lookup_2. }
  rewrite <-(list_to_map_to_list (f <$> m)), map_to_list_fmap. symmetry.
  apply list_to_map_proper; [|by rewrite Hp].
  rewrite <-list_fmap_compose. rewrite (list_fmap_ext _ fst); [apply NoDup_fst_map_to_list|].
  by intros ? [] _.
Qed.

Lemma restored_from_restores pol cap0 cap key l l' :
  lock_wf pol cap0 key l -> restored_from cap (lock_snapshot_of (key, l)) l' -> restores cap l l'.
Proof.
  intros [Hq Hm _ _ _ Hu] [R1 R2 R3 R4 R5 R6 R7]. simpl in *. split; try done.
  - rewrite R1. eapply (list_to_map_snapshot exclusive_holder_snapshot); [apply sort_by_key_perm|done..].
  - rewrite R2. eapply (list_to_map_snapshot reader_snapshot); [apply sort_by_key_perm|done|].
    intros u x Hx. specialize (Hu u x Hx). destruct x. simpl in *. by subst.
  - rewrite R3. by destruct (writer l).
  - rewrite R4, <-list_fmap_compose. apply list_fmap_ext. intros i [u p] Hi. simpl.
    rewrite Forall_forall in Hq. destruct (Hq (u, p)) as (Hup & _ & _);
      [by eapply list_elem_of_lookup_2|]. simpl in Hup. by subst.
  - rewrite R5. lia.
Qed.

(** ** When a snapshot passes its own validation *)

Definition waiters_total (s : BrokerState) : nat :=
  sum_list_with (fun kl => length (LinkedQueue.iter (queue kl.2))) (map_to_list (locks s)).

Definition waiter_named (p : PendingRequest) : Prop :=
  pr_request_uuid p <> ""%string /\ pr_grant_lock_uuid p <> Some ""%string /\
  match pr_kind p with
  | PendingComposite all_keys _ _ _ cu =>
      cu <> ""%string /\ (length all_keys <= MAX_COMPOSITE_KEYS)%nat /\
      Forall (fun k => k <> ""%string) all_keys
  | _ => True
  end.

#[global] Instance waiter_named_dec p : Decision (waiter_named p).
Proof. unfold waiter_named. destruct (pr_kind p); apply _. Defined.

(** Whether the holder of a deadline still holds one of its keys. *)
Definition deadline_held_on (s : BrokerState) (e : DeadlineEntry) (key : string) : bool :=
  match locks s !! key with
  | Some l => lock_contains_uuid_for_kind l (de_lock_uuid e) (de_kind e)
  | None => false
  end.

(** Keys and uuids are not empty, and an active deadline is held on all of its
    keys. *)
Definition lock_named (key : string) (l : LockState) : Prop :=
  key <> ""%string /\
  map_Forall (fun u _ => u <> ""%string) (exclusive_holders l) /\
  map_Forall (fun u _ => u <> ""%string) (readers l) /\
  Forall (fun h => rh_lock_uuid h <> ""%string) (option_list (writer l)) /\
  Forall (fun up => waiter_named up.2) (LinkedQueue.iter (queue l)).

#[global] Instance lock_named_dec key l : Decision (lock_named key l).
Proof. unfold lock_named. apply _. Defined.

Record snapshotable (s : BrokerState) : Prop := {
  sb_locks : map_Forall lock_named (locks s);
  sb_count : Z.of_nat (waiters_total s) <= u64_max;
  sb_deadlines : map_Forall (fun _ e => deadline_entry_is_still_held s e = true ->
    de_lock_uuid e <> ""%string /\ de_keys e <> [] /\
    Forall (fun key => deadline_held_on s e key = true) (de_keys e)) (deadlines s);
}.

Lemma is_idle_empty l :
  is_idle l = true ->
  exclusive_holders l = ∅ /\ readers l = ∅ /\ writer l = None /\ LinkedQueue.iter (queue l) = [].
Proof.
  unfold is_idle. rewrite !andb_true_iff, !bool_decide_eq_true, LinkedQueueFacts.is_empty_iter.
  intros [[[H1 H2] H3] H4]. by destruct (LinkedQueue.iter (queue l)).
Qed.

Lemma exclusive_uuids_of key l :
  es_lock_uuid <$> lk_exclusive_holders (lock_snapshot_of (key, l))
    ≡ₚ (map_to_list (exclusive_holders l)).*1.
Proof. simpl. rewrite sort_by_key_perm, <-list_fmap_compose. done. Qed.

Lemma reader_uuids_of key l :
  rs_lock_uuid <$> lk_readers (lock_snapshot_of (key, l)) ≡ₚ (map_to_list (readers l)).*1.
Proof. simpl. rewrite sort_by_key_perm, <-list_fmap_compose. done. Qed.

Lemma elem_of_map_keys {A} (m : gmap string A) u : u ∈ (map_to_list m).*1 <-> is_Some (m !! u).
Proof.
  rewrite list_elem_of_fmap. split.
  - intros ([k x] & -> & H%elem_of_map_to_list). eauto.
  - intros [x Hx]. exists (u, x). split; [done|]. by apply elem_of_map_to_list.
Qed.

Lemma holder_uuids_of key l :
  holder_uuids (lock_snapshot_of (key, l)) ≡ₚ
    (map_to_list (exclusive_holders l)).*1 ++ (map_to_list (readers l)).*1
    ++ option_list (rh_lock_uuid <$> writer l).
Proof.
  unfold holder_uuids. rewrite exclusive_uuids_of, reader_uuids_of. simpl.
  rewrite <-option_fmap_compose. done.
Qed.

Lemma kinds_nodup pol cap key l :
  lock_wf pol cap key l ->
  NoDup ((map_to_list (exclusive_holders l)).*1 ++ (map_to_list (readers l)).*1
         ++ option_list (rh_lock_uuid <$> writer l)).
Proof.
  intros [_ _ _ Hw Hr _]. apply NoDup_three. split_and!; [apply NoDup_fst_map_to_list..| |].
  - apply Forall_forall. intros u Hu. apply elem_of_map_keys in Hu as [h Hh].
    rewrite Hr by (intros He; by rewrite He, lookup_empty in Hh).
    rewrite elem_of_map_keys, lookup_empty. by intros [].
  - intros u (h & Hh & ->)%fmap_Some. destruct Hw as [-> ->]; [by rewrite Hh|].
    rewrite !elem_of_map_keys, !lookup_empty. split; by intros [].
Qed.

Lemma composite_ok_snapshot key ak rk gk tk cu :
  composite_ok key ak rk gk tk -> cu <> ""%string -> (length ak <= MAX_COMPOSITE_KEYS)%nat ->
  Forall (fun k => k <> ""%string) ak -> composite_snapshot_ok key ak rk gk tk cu.
Proof.
  intros [H1 H2 H3 H4] Hcu Hlen Hne. pose proof (strictly_sorted_NoDup _ H2) as Hnd.
  rewrite H1 in Hnd. apply NoDup_app in Hnd as (N1 & N2 & N3).
  split; try done.
  - split_and!; [by apply strictly_sorted_NoDup|done|done].
  - by apply Forall_forall.
  - rewrite H1, list_to_set_app_L. set_solver.
Qed.

Lemma waiter_snapshot_of pol key u p :
  waiter_ok pol key (u, p) -> waiter_named p -> waiter_snapshot_ok key (pending_snapshot p).
Proof.
  intros (_ & _ & Hk) (H1 & H2 & H3). split_and!; [done|done|]. simpl in *.
  destruct (pr_kind p); simpl in *; try done. destruct H3 as (? & ? & ?).
  by apply composite_ok_snapshot.
Qed.

Lemma lock_snapshot_of_ok pol s key l :
  locks_wf pol s -> snapshotable s -> locks s !! key = Some l ->
  lock_snapshot_ok (lock_snapshot_of (key, l)).
Proof.
  intros Hwf Hsb Hl. pose proof (Hwf key l Hl) as Hlw.
  destruct (sb_locks _ Hsb key l Hl) as (B1 & B2 & B3 & B4 & B5). split.
  - done.
  - destruct Hlw as [_ Hm _ _ _ _]. simpl. lia.
  - rewrite holder_uuids_of, !Forall_app, !Forall_forall. split_and!.
    + intros u [h Hh]%elem_of_map_keys. by apply (B2 u h).
    + intros u [h Hh]%elem_of_map_keys. by apply (B3 u h).
    + intros u Hu. destruct (writer l) eqn:Hw; simpl in Hu; [|by apply elem_of_nil in Hu].
      apply list_elem_of_singleton in Hu as ->. simpl in B4. by inversion B4.
  - rewrite holder_uuids_of. by eapply kinds_nodup.
  - intros (E1 & E2 & E3 & E4)%is_idle_empty. unfold snapshot_inactive. simpl.
    by rewrite E1, E2, E3, E4, !map_to_list_empty.
  - simpl. apply Forall_fmap, Forall_forall. intros [u p] Hin. simpl.
    destruct Hlw as [Hq _ _ _ _ _]. rewrite Forall_forall in Hq, B5.
    eapply waiter_snapshot_of; [by apply (Hq (u, p))|by apply (B5 (u, p))].
  - simpl. destruct Hlw as [Hq _ _ _ _ _].
    rewrite <-list_fmap_compose. rewrite (list_fmap_ext _ fst); [apply LinkedQueueFacts.iter_NoDup|].
    intros i up Hi. rewrite Forall_forall in Hq. destruct (Hq up) as [H _];
      [by eapply list_elem_of_lookup_2|]. simpl. by rewrite H.
Qed.

(** The validator's count agrees with the broker's metric. *)
Lemma count_waiters_add n ls :
  n + Z.of_nat (length (lk_queue ls)) <= u64_max -> count_waiters n ls = n + Z.of_nat (length (lk_queue ls)).
Proof.
  unfold count_waiters. revert n. induction (lk_queue ls) as [|w ws IH]; intros n Hn; simpl in *; [lia|].
  rewrite saturating_add64_small by lia. rewrite IH by lia. lia.
Qed.

Lemma count_all_add n lss :
  n + Z.of_nat (sum_list_with (fun ls => length (lk_queue ls)) lss) <= u64_max ->
  foldl count_waiters n lss = n + Z.of_nat (sum_list_with (fun ls => length (lk_queue ls)) lss).
Proof.
  revert n. induction lss as [|ls lss IH]; intros n Hn; simpl in *; [lia|].
  rewrite count_waiters_add by lia. rewrite IH by lia. lia.
Qed.

Lemma sum_snapshot_queues s :
  sum_list_with (fun ls => length (lk_queue ls))
    (sort_by_key lk_key (lock_snapshot_of <$> map_to_list (locks s))) = waiters_total s.
Proof.
  transitivity (sum_list_with (fun ls => length (lk_queue ls))
    (lock_snapshot_of <$> map_to_list (locks s))).
  { apply sum_list_with_Permutation_proper, sort_by_key_perm. }
  unfold waiters_total. induction (map_to_list (locks s)) as [|[k l] kls IH]; simpl; [done|].
  f_equal; [by rewrite length_fmap|apply IH].
Qed.

Lemma waiters_metric s :
  Z.of_nat (waiters_total s) <= u64_max ->
  bm_waiters (broker_metrics_from_state s) = Z.of_nat (waiters_total s).
Proof.
  simpl. unfold waiters_total. rewrite map_fold_foldr.
  induction (map_to_list (locks s)) as [|[k l] kls IH]; intros Hn; simpl in *; [done|].
  rewrite IH by lia. rewrite LinkedQueueFacts.len_iter. unfold len_u64, as_u64.
  rewrite u64_max_eq in Hn. rewrite Z.mod_small by lia. lia.
Qed.

Lemma find_lock_snapshot s key l :
  locks s !! key = Some l ->
  List.find (fun ls => bool_decide (lk_key ls = key))
    (sort_by_key lk_key (lock_snapshot_of <$> map_to_list (locks s)))
  = Some (lock_snapshot_of (key, l)).
Proof.
  intros Hl. set (lss := sort_by_key _ _).
  assert (lock_snapshot_of (key, l) ∈ lss) as Hin.
  { unfold lss. rewrite sort_by_key_perm. apply list_elem_of_fmap_2. by apply elem_of_map_to_list. }
  destruct (List.find _ lss) as [ls|] eqn:Hf.
  - apply find_some in Hf as [Hin' Hb]. apply bool_decide_eq_true in Hb. f_equal.
    eapply (NoDup_fmap_inj_on lk_key lss); [|by apply list_elem_of_In|done|by rewrite Hb].
    unfold lss. rewrite sort_by_key_perm. apply lock_snapshot_keys.
  - apply list_elem_of_In in Hin. pose proof (find_none _ _ Hf _ Hin) as Hb. simpl in Hb.
    by rewrite bool_decide_eq_true_2 in Hb.
Qed.

Lemma lock_snapshot_contains_of key l d :
  lock_contains_uuid_for_kind l (dl_lock_uuid d) (dl_kind d) = true ->
  lock_snapshot_contains (lock_snapshot_of (key, l)) d = true.
Proof.
  unfold lock_contains_uuid_for_kind, lock_snapshot_contains.
  destruct (dl_kind d); simpl.
  - rewrite bool_decide_eq_true. intros [h Hh]. apply existsb_exists.
    exists (exclusive_holder_snapshot (dl_lock_uuid d, h)). split; [|by apply bool_decide_eq_true].
    apply list_elem_of_In. rewrite sort_by_key_perm. apply list_elem_of_fmap_2.
    by apply elem_of_map_to_list.
  - rewrite bool_decide_eq_true. intros [h Hh]. apply existsb_exists.
    exists (reader_snapshot (dl_lock_uuid d, h)). split; [|by apply bool_decide_eq_true].
    apply list_elem_of_In. rewrite sort_by_key_perm. apply list_elem_of_fmap_2.
    by apply elem_of_map_to_list.
  - by destruct (writer l).
Qed.

Lemma deadline_snapshot_of_ok s now k e :
  snapshotable s -> deadlines s !! k = Some e -> deadline_entry_is_still_held s e = true ->
  deadline_snapshot_ok (sn_locks (snapshot_of s now)) (deadline_snapshot now (k, e)).
Proof.
  intros Hsb Hk Hh. destruct (sb_deadlines _ Hsb _ _ Hk Hh) as (H1 & H2 & H3).
  rewrite Forall_forall in H3. split_and!; simpl; [done|done| |].
  - apply Forall_forall. intros key Hin. specialize (H3 key Hin). unfold deadline_held_on in H3.
    destruct (locks s !! key) as [l|] eqn:Hl; [|done]. by apply (sb_locks _ Hsb key l Hl).
  - unfold snapshot_deadline_matches_locks. apply forallb_forall. simpl. intros key Hin.
    apply list_elem_of_In in Hin. specialize (H3 key Hin). unfold deadline_held_on in H3.
    destruct (locks s !! key) as [l|] eqn:Hl; [|done].
    rewrite (find_lock_snapshot _ _ _ Hl). by apply lock_snapshot_contains_of.
Qed.

Lemma snapshot_of_ok pol s now :
  locks_wf pol s -> snapshotable s -> snapshot_ok (snapshot_of s now).
Proof.
  intros Hwf Hsb. pose proof (sb_count _ Hsb) as Hc. split; simpl.
  - done.
  - rewrite sort_by_key_perm. apply Forall_fmap, Forall_forall. intros [k l] Hin.
    apply elem_of_map_to_list in Hin. by eapply lock_snapshot_of_ok.
  - rewrite sort_by_key_perm. apply lock_snapshot_keys.
  - rewrite count_all_add; rewrite sum_snapshot_queues; [|lia]. by apply waiters_metric.
  - rewrite merge_sort_Permutation. apply Forall_fmap, Forall_forall. intros [k e] Hin.
    apply list_elem_of_filter in Hin as [Hh Hin]. simpl in Hh.
    unfold deadlines_in_order in Hin. rewrite merge_sort_Permutation in Hin.
    apply elem_of_map_to_list in Hin. by apply deadline_snapshot_of_ok.
Qed.

(** ** The restored lock keeps the invariant *)

Lemma restored_request_ok pol key up :
  waiter_ok pol key up -> waiter_ok pol key (prod_map id restored_request up).
Proof.
  destruct up as [u p]. intros (H1 & H2 & H3). split_and!; [done|done|]. simpl in *.
  by destruct (pr_kind p).
Qed.

Lemma restores_wf pol cap0 cap key l l' :
  lock_wf pol cap0 key l -> restores cap l l' -> lock_wf pol cap0 key l'.
Proof.
  intros [H1 H2 H3 H4 H5 H6] [R1 R2 R3 R4 R5 _ _]. split.
  - rewrite R4. apply Forall_fmap. eapply Forall_impl; [done|]. intros up. apply restored_request_ok.
  - rewrite R5. lia.
  - by rewrite R1, map_size_fmap.
  - rewrite R1, R2, R3. intros H. destruct H4 as [-> ->]; [|by rewrite !fmap_empty].
    intros He. by rewrite He in H.
  - rewrite R1, R2. intros H. rewrite H5; [by rewrite fmap_empty|]. intros He.
    by rewrite He, fmap_empty in H.
  - rewrite R2. intros u h (h0 & <- & Hh)%lookup_fmap_Some. by apply (H6 u h0).
Qed.

Section claims.
Context `{E : Env} `{SC : SnapshotCodec}.

Lemma install_snapshot_of pol now w w2 :
  locks_wf pol (state w) -> snapshotable (state w) -> config (state w2) = config (state w) ->
  exists w3, install_broker_raft_snapshot (snapshot_of (state w) now) w2 = Done (ROk tt) w3 /\
    config (state w3) = config (state w) /\
    fencing_watermark (state w) <= fencing_watermark (state w3) /\
    (forall key, option_Forall2 (restores (cfg_max_concurrency_cap (config (state w))))
                   (locks (state w) !! key) (locks (state w3) !! key)).
Proof.
  intros Hwf Hsb Hcfg.
  destruct (install_accepted (snapshot_of (state w) now) w2) as (w3 & Hi & _ & C1 & _ & _ & W1 & A1 & B1);
    [by eapply snapshot_of_ok|].
  exists w3. split_and!; [done|congruence|done|]. intros key.
  destruct (locks (state w) !! key) as [l|] eqn:Hl.
  - destruct (A1 (lock_snapshot_of (key, l))) as (l' & Hl' & Hr & _).
    { cbn [sn_locks snapshot_of]. rewrite sort_by_key_perm. apply list_elem_of_fmap_2.
      by apply elem_of_map_to_list. }
    simpl in Hl'. rewrite Hl'. constructor. rewrite Hcfg in Hr.
    by eapply restored_from_restores; [apply Hwf|].
  - rewrite B1; [constructor|]. simpl. rewrite sort_by_key_perm, <-list_fmap_compose.
    rewrite list_elem_of_fmap. intros ([k l] & -> & Hin). simpl in Hl.
    apply elem_of_map_to_list in Hin. congruence.
Qed.

(** Installation agrees with validation on every payload: what the
    validator accepts is installed without error (the restored state passes
    the deadline check that installation repeats), and what it rejects is
    rejected with the same error and changes nothing. *)
Theorem install_agrees_with_validation payload w :
  match validate_raft_snapshot_payload payload with
  | ROk _ => exists w', install_raft_snapshot payload w = Done (ROk tt) w' /\
               config (state w') = config (state w) /\ clients (state w') = ∅
  | RErr e => install_raft_snapshot payload w = Done (RErr e) w
  end.
Proof.
  unfold validate_raft_snapshot_payload, install_raft_snapshot.
  destruct (value_get payload "broker") as [v|].
  - destruct (from_value v) as [sn|e]; simpl; [|done].
    destruct (validate_broker_raft_snapshot sn) as [[]|e] eqn:Hv; simpl; [|done].
    apply validate_snapshot_iff in Hv.
    destruct (install_accepted sn w Hv) as (w' & Hi & _ & C & _ & K & _). eauto.
  - unfold install_idle_snapshot.
    destruct (validate_idle_snapshot_payload payload) as [[]|e] eqn:Hv; [|done].
    unfold validate_idle_snapshot_payload in Hv. destruct (value_get payload "metrics"); [|done].
    eexists. split; [reflexivity|]. done.
Qed.

(** The snapshot a reachable broker takes passes validation, whatever
    operations led there, as long as no key or uuid is empty and every active
    deadline is still held on all of its keys. *)
Theorem own_snapshot_valid limit cfg w :
  reachable (any_seed limit) cfg w -> snapshotable (state w) ->
  exists sn w', broker_snapshot w = Done sn w' /\ state w' = state w /\
    validate_broker_raft_snapshot sn = ROk tt.
Proof.
  intros ((Hwf & _) & _)%any_seed_reachable Hsb.
  destruct (broker_snapshot_eq w) as (w' & Hs & H1 & _). eexists _, w'. split_and!; [done..|].
  apply validate_snapshot_iff. by eapply snapshot_of_ok.
Qed.


(** After an accepted snapshot is installed, the next token of every
    restored key exceeds the recorded counter and the token of every recorded
    holder, and the watermark covers them for keys created later. *)
Theorem restored_tokens_exceeded sn w :
  validate_broker_raft_snapshot sn = ROk tt ->
  exists w', install_broker_raft_snapshot sn w = Done (ROk tt) w' /\
    sm_fencing_watermark (sn_metrics sn) <= fencing_watermark (state w') /\
    forall ls, ls ∈ sn_locks sn -> exists l, locks (state w') !! lk_key ls = Some l /\
      fencing_counter l <= fencing_watermark (state w') /\
      (0 <= fencing_counter l < u64_max ->
       let token := (next_or_forced_fencing_token None l).1 in
       lk_fencing_counter ls < token /\ forall t, holds_token l t -> t < token).
Proof.
  intros Hv%validate_snapshot_iff.
  destruct (install_accepted sn w Hv) as (w' & Hi & _ & _ & _ & _ & W & A & _).
  exists w'. split_and!; [done..|]. intros ls Hls. destruct (A ls Hls) as (l & Hl & Hr & Hc).
  exists l. split_and!; [done..|]. intros Hlt. destruct (next_token_value l Hlt) as [Ht _].
  rewrite Ht. destruct Hr as [_ _ _ _ _ R6 R7]. split; [lia|]. intros t Htok.
  specialize (R7 t Htok). lia.
Qed.

End claims.

End snapshot_theorems.

(** A snapshot depends on the broker's state and the clock only: two
    processes whose hash maps iterate in different orders produce the same
    snapshot, so replicas that agree on the state agree on the bytes. *)
Theorem snapshot_order_independent `{LQ : LinkedQueueCrate} (E1 E2 : Env) w :
  @env_instant E1 (tick w) = @env_instant E2 (tick w) ->
  exists sn w1 w2, @broker_snapshot LQ E1 w = Done sn w1 /\ @broker_snapshot LQ E2 w = Done sn w2.
Proof.
  intros He. destruct (@broker_snapshot_eq LQ E1 w) as (w1 & H1 & _).
  destruct (@broker_snapshot_eq LQ E2 w) as (w2 & H2 & _).
  rewrite <-He in H2. eauto.
Qed.

(** ** The theorems at concrete inputs *)

#[local] Existing Instance list_queue.
#[local] Existing Instance demo_env.

(** A small JSON library: objects, numbers and embedded snapshots. *)
Inductive DemoValue : Type :=
| DMissing
| DObject (field : string -> DemoValue)
| DNumber (n : Z)
| DSnapshot (sn : BrokerRaftSnapshot).

Definition demo_get (v : DemoValue) (field : string) : option DemoValue :=
  match v with
  | DObject f => match f field with DMissing => None | v => Some v end
  | _ => None
  end.

Definition demo_from (v : DemoValue) : Result BrokerRaftSnapshot :=
  match v with DSnapshot sn => ROk sn | _ => RErr "invalid type" end.

Lemma demo_from_to sn v : ROk (DSnapshot sn) = ROk v -> demo_from v = ROk sn.
Proof. by intros [= <-]. Qed.

Definition demo_codec : SnapshotCodec := {|
  Value := DemoValue;
  value_get := demo_get;
  value_as_u64 v := match v with DNumber n => Some n | _ => None end;
  to_value sn := ROk (DSnapshot sn);
  from_value := demo_from;
  from_to_value := demo_from_to;
|}.
#[local] Existing Instance demo_codec.

(** A broker with a holder, a composite waiter and an active deadline. *)
Definition ttl_lock_request (u k : string) : Request.t :=
  Request.Lock u (Some k) None None (Some 4000) None false 0 false None.

Definition snapshot_demo_ops : list Op :=
  [OpRegisterClient; OpRegisterClient;
   OpRequest 1 (ttl_lock_request "r1" "a") (named_grant 1);
   OpRequest 2 (composite_request "r2" ["b"; "a"]) (named_grant 2)].

Definition new_world : World := Broker_new BrokerConfig_default true.
Definition snapshot_demo : World := default new_world (run_state (run snapshot_demo_ops) new_world).
Definition snapshot_demo_value : BrokerRaftSnapshot :=
  snapshot_of (state snapshot_demo) (env_instant (tick snapshot_demo)).

Lemma snapshot_demo_reachable : reachable (any_seed 1) BrokerConfig_default snapshot_demo.
Proof.
  split; [split; simpl; [unfold u32_max, DEFAULT_MAX_CONCURRENCY_CAP; lia|lia]|].
  exists true, snapshot_demo_ops. split_and!.
  - repeat constructor; simpl; intros; simplify_eq.
  - simpl. rewrite u64_max_eq. lia.
  - vm_compute. reflexivity.
Qed.

Lemma snapshot_demo_snapshotable : snapshotable (state snapshot_demo).
Proof.
  split; [|vm_compute; discriminate|]; apply (bool_decide_unpack _); vm_compute; exact I.
Qed.

Definition demo_payload : DemoValue :=
  DObject (fun f => if decide (f = "broker"%string) then DSnapshot snapshot_demo_value else DMissing).

Lemma own_snapshot_valid_witness :
  exists sn w', broker_snapshot snapshot_demo = Done sn w' /\ state w' = state snapshot_demo /\
    validate_broker_raft_snapshot sn = ROk tt.
Proof.
  apply (own_snapshot_valid 1 BrokerConfig_default).
  - apply snapshot_demo_reachable.
  - apply snapshot_demo_snapshotable.
Defined.

Lemma snapshot_demo_taken :
  exists w1, snapshot_for_raft snapshot_demo = Done (ROk (DSnapshot snapshot_demo_value)) w1.
Proof.
  destruct (broker_snapshot_eq snapshot_demo) as (w1 & H & _). exists w1.
  unfold snapshot_for_raft. by rewrite (bind_done _ _ _ _ _ H).
Qed.


Lemma restored_tokens_exceeded_witness :
  exists w', install_broker_raft_snapshot snapshot_demo_value new_world = Done (ROk tt) w' /\
    sm_fencing_watermark (sn_metrics snapshot_demo_value) <= fencing_watermark (state w') /\
    forall ls, ls ∈ sn_locks snapshot_demo_value -> exists l, locks (state w') !! lk_key ls = Some l /\
      fencing_counter l <= fencing_watermark (state w') /\
      (0 <= fencing_counter l < u64_max ->
       let token := (next_or_forced_fencing_token None l).1 in
       lk_fencing_counter ls < token /\ forall t, holds_token l t -> t < token).
Proof. apply restored_tokens_exceeded. vm_compute. reflexivity. Defined.

(** The same process with hash maps that iterate backwards. *)
Definition reversed_env : Env := {|
  env_uuid := @env_uuid demo_env;
  env_instant := @env_instant demo_env;
  env_unix_ms := @env_unix_ms demo_env;
  env_hash_order A _ l := rev l;
  env_instant_min := 0;
  env_instant_max := 2 ^ 63;
  env_hash_order_perm A _ l := symmetry (Permutation_rev l);
|}.

Lemma snapshot_order_independent_witness :
  exists sn w1 w2, @broker_snapshot list_queue demo_env snapshot_demo = Done sn w1 /\
    @broker_snapshot list_queue reversed_env snapshot_demo = Done sn w2.
Proof. apply snapshot_order_independent. unfold env_instant, reversed_env. reflexivity. Defined.

(** Two keys are locked together with a TTL and one of them is released. *)
Definition partial_release_ops : list Op :=
  [OpRegisterClient;
   OpRequest 1 (Request.Lock "r1" None (Some ["a"; "b"]) None (Some 4000) None false 0 false None)
     (named_grant 1);
   OpRequest 1 (unlock_request "r2" "a" "g1") (named_grant 2)].

Definition partial_release : World :=
  default new_world (run_state (run partial_release_ops) new_world).

(** A snapshot can fail its own validation: after a composite lock with a
    TTL was released on one of its keys only, the snapshot records the
    deadline (some key still holds the lock) and validation rejects it (not
    every key does). *)
Theorem partial_release_breaks_snapshot :
  exists w sn w', run partial_release_ops new_world = Done tt w /\
    broker_snapshot w = Done sn w' /\
    validate_broker_raft_snapshot sn = RErr (deadline_mismatch "g1").
Proof.
  destruct (broker_snapshot_eq partial_release) as (w' & Hs & _).
  exists partial_release, (snapshot_of (state partial_release) (env_instant (tick partial_release))), w'.
  split_and!; [vm_compute; reflexivity|done|vm_compute; reflexivity].
Qed.
