(* ===== verification/RaftQuorum.v ===== *)
(** * Raft membership, quorums and the choice of replication targets

    [src/src/broker_raft.rs], lines 463-468 and 748-1176. *)

From S2P Require Import Prelude Text.
From stdpp Require Import options.

Record RaftPeerConfig : Type := mkRaftPeerConfig {
  peer_id : string;
  peer_addr : string;
}.

#[global] Instance RaftPeerConfig_eq_dec : EqDecision RaftPeerConfig.
Proof. solve_decision. Defined.

Inductive RaftMembership : Type :=
| Simple (peers : list RaftPeerConfig)
| Joint (old_peers new_peers : list RaftPeerConfig).

(** A [BTreeMap<String, _>]'s values, in the order of its keys. *)
Definition btree_le {A} (x y : string * A) : Prop := string_le x.1 y.1.

#[global] Instance btree_le_dec {A} : RelDecision (@btree_le A).
Proof. unfold RelDecision, btree_le. intros. apply _. Defined.

Definition into_values {A} (m : gmap string A) : list A :=
  snd <$> merge_sort btree_le (map_to_list m).

(** [normalize_peers] *)
Definition normalize_peers (peers : list RaftPeerConfig) : list RaftPeerConfig :=
  into_values (foldl (fun by_id peer => <[peer_id peer := peer]> by_id) (∅ : gmap string _) peers).

(** [peer_votes] *)
Definition peer_votes (peers : list RaftPeerConfig) (ack_ids : gset string) : nat :=
  length (filter (fun peer => peer_id peer ∈ ack_ids) peers).

(** [quorum_for] *)
Definition quorum_for (cluster_size : nat) : nat :=
  if bool_decide (cluster_size = 0%nat) then 0 else cluster_size / 2 + 1.

(** [joint_quorum_size] *)
Definition joint_quorum_size (old_peers new_peers : list RaftPeerConfig) : nat :=
  let old_quorum := quorum_for (length old_peers) in
  let new_quorum := quorum_for (length new_peers) in
  if bool_decide (old_quorum = 0%nat) || bool_decide (new_quorum = 0%nat) then 0
  else
    let new_ids : gset string := list_to_set (peer_id <$> new_peers) in
    let overlap := length (filter (fun peer => peer_id peer ∈ new_ids) old_peers) in
    old_quorum + new_quorum - Nat.min (Nat.min overlap old_quorum) new_quorum.

(** [add_peer_if_present] *)
Definition add_peer_if_present (ack_ids : gset string) (peers : list RaftPeerConfig) (id : string)
    : gset string :=
  if existsb (fun peer => bool_decide (peer_id peer = id)) peers then {[id]} ∪ ack_ids else ack_ids.

(** [add_peers_until_quorum]: the loop over [rest]. *)
Fixpoint add_peers_loop (peers : list RaftPeerConfig) (quorum : nat) (rest : list RaftPeerConfig)
    (ack_ids : gset string) : gset string :=
  match rest with
  | [] => ack_ids
  | peer :: rest =>
      if bool_decide (quorum <= peer_votes peers ack_ids)%nat then ack_ids
      else add_peers_loop peers quorum rest ({[peer_id peer]} ∪ ack_ids)
  end.

Definition add_peers_until_quorum (ack_ids : gset string) (peers : list RaftPeerConfig)
    (quorum : nat) : gset string := add_peers_loop peers quorum peers ack_ids.

Module Membership.

(** [RaftMembership::from_simple] *)
Definition from_simple (peers : list RaftPeerConfig) : RaftMembership := Simple (normalize_peers peers).

(** [RaftMembership::validation_peers] *)
Definition validation_peers (m : RaftMembership) : list RaftPeerConfig :=
  match m with Simple peers => peers | Joint old_peers new_peers => old_peers ++ new_peers end.

(** [RaftMembership::active_peers] *)
Definition active_peers (m : RaftMembership) : list RaftPeerConfig :=
  match m with
  | Simple peers => normalize_peers peers
  | Joint old_peers new_peers => normalize_peers (old_peers ++ new_peers)
  end.

(** [RaftMembership::contains_id] *)
Definition contains_id (m : RaftMembership) (node_id : string) : bool :=
  match m with
  | Simple peers => existsb (fun peer => bool_decide (peer_id peer = node_id)) peers
  | Joint old_peers new_peers =>
      existsb (fun peer => bool_decide (peer_id peer = node_id)) (old_peers ++ new_peers)
  end.

(** [RaftMembership::contains_peer] *)
Definition contains_peer (m : RaftMembership) (peer : RaftPeerConfig) : bool :=
  existsb (fun active => bool_decide (peer_id active = peer_id peer)
                         && bool_decide (peer_addr active = peer_addr peer)) (active_peers m).

(** [RaftMembership::cluster_size] *)
Definition cluster_size (m : RaftMembership) : nat :=
  match m with
  | Simple peers => size (list_to_set (peer_id <$> peers) : gset string)
  | Joint old_peers new_peers =>
      size (list_to_set (peer_id <$> (old_peers ++ new_peers)) : gset string)
  end.

(** [RaftMembership::quorum_size] *)
Definition quorum_size (m : RaftMembership) : nat :=
  match m with
  | Simple peers => quorum_for (length peers)
  | Joint old_peers new_peers => joint_quorum_size old_peers new_peers
  end.

(** [RaftMembership::is_joint] *)
Definition is_joint (m : RaftMembership) : bool :=
  match m with Joint _ _ => true | Simple _ => false end.

(** The test of one peer list in [RaftMembership::quorum_met]. *)
Definition majority (peers : list RaftPeerConfig) (ack_ids : gset string) : bool :=
  negb (bool_decide (peers = []))
    && bool_decide (quorum_for (length peers) <= peer_votes peers ack_ids)%nat.

(** [RaftMembership::quorum_met] *)
Definition quorum_met (m : RaftMembership) (ack_ids : gset string) : bool :=
  match m with
  | Simple peers => majority peers ack_ids
  | Joint old_peers new_peers => majority old_peers ack_ids && majority new_peers ack_ids
  end.

(** [RaftMembership::minimal_quorum_ack_set] *)
Definition minimal_quorum_ack_set (m : RaftMembership) (local_id : string)
    : option (gset string) :=
  let ack_ids :=
    match m with
    | Simple peers =>
        add_peers_until_quorum (add_peer_if_present ∅ peers local_id) peers
          (quorum_for (length peers))
    | Joint old_peers new_peers =>
        let acks := add_peer_if_present ∅ old_peers local_id in
        let acks := add_peer_if_present acks new_peers local_id in
        let acks := add_peers_until_quorum acks old_peers (quorum_for (length old_peers)) in
        add_peers_until_quorum acks new_peers (quorum_for (length new_peers))
    end in
  if quorum_met m ack_ids then Some ack_ids else None.

End Membership.
Import Membership.

(** [quorum_gain] *)
Definition majority_gain (peers : list RaftPeerConfig) (before after : gset string) : nat :=
  Nat.min (peer_votes peers after) (quorum_for (length peers))
    - Nat.min (peer_votes peers before) (quorum_for (length peers)).

Definition quorum_gain (m : RaftMembership) (before after : gset string) : nat :=
  match m with
  | Simple peers => majority_gain peers before after
  | Joint old_peers new_peers =>
      majority_gain old_peers before after + majority_gain new_peers before after
  end.

(** ** Replication targets *)

Abbreviation remote := (RaftPeerConfig * Z)%type.

(** The sort order: higher match index first, then by id. *)
Definition remote_le (a b : remote) : Prop :=
  b.2 < a.2 \/ (a.2 = b.2 /\ string_le (peer_id a.1) (peer_id b.1)).

#[global] Instance remote_le_dec : RelDecision remote_le.
Proof. unfold RelDecision, remote_le. intros. apply _. Defined.

(** [<[T]>::rotate_left] *)
Definition rotate_left {A} (l : list A) (k : nat) : list A := drop k l ++ take k l.

Definition usize_max : Z := 2 ^ 64 - 1.

(** A candidate: gain, match index, inverted position; compared as a tuple. *)
Definition candidate_lt (a b : Z * Z * Z) : bool :=
  let '(a1, a2, a3) := a in
  let '(b1, b2, b3) := b in
  bool_decide (a1 < b1)
  || bool_decide (a1 = b1) && (bool_decide (a2 < b2) || bool_decide (a2 = b2) && bool_decide (a3 < b3)).

(** The [for] loop that looks for the best candidate, from position [pos]. *)
Fixpoint best_candidate (m : RaftMembership) (selected : gmap string RaftPeerConfig)
    (acks : gset string) (pos : nat) (rest : list remote) (best : option (Z * Z * Z))
    : option (Z * Z * Z) :=
  match rest with
  | [] => best
  | (peer, match_index) :: rest =>
      if bool_decide (is_Some (selected !! peer_id peer))
      then best_candidate m selected acks (S pos) rest best
      else
        let gain := quorum_gain m acks ({[peer_id peer]} ∪ acks) in
        if bool_decide (gain = 0%nat) then best_candidate m selected acks (S pos) rest best
        else
          let candidate := (Z.of_nat gain, match_index, Z.max (usize_max - Z.of_nat pos) 0) in
          let best := match best with
                      | None => Some candidate
                      | Some current => if candidate_lt current candidate then Some candidate
                                        else Some current
                      end in
          best_candidate m selected acks (S pos) rest best
  end.

(** The outcome of the [while] loop: the selection that reaches a quorum, the
    fallback to every remote peer, an index out of range, or no fuel. *)
Inductive Selection : Type :=
| Selected (selected : gmap string RaftPeerConfig)
| AllRemotes
| IndexPanic
| SelectionFuel.

Fixpoint select_loop (fuel : nat) (m : RaftMembership) (remotes : list remote)
    (selected : gmap string RaftPeerConfig) (acks : gset string) : Selection :=
  if quorum_met m acks then Selected selected
  else
    match fuel with
    | O => SelectionFuel
    | S fuel =>
        match best_candidate m selected acks 0 remotes None with
        | None => AllRemotes
        | Some (_, _, inverted_pos) =>
            match remotes !! Z.to_nat (Z.max (usize_max - inverted_pos) 0) with
            | None => IndexPanic
            | Some (peer, _) =>
                select_loop fuel m remotes (<[peer_id peer := peer]> selected)
                  ({[peer_id peer]} ∪ acks)
            end
        end
    end.

(** The loop that adds [extra_fanout] peers. *)
Fixpoint extra_fanout_loop (total : nat) (rest : list remote) (remaining_extra : nat)
    (selected : gmap string RaftPeerConfig) : gmap string RaftPeerConfig :=
  match rest with
  | [] => selected
  | (peer, _) :: rest =>
      if bool_decide (remaining_extra = 0%nat) || bool_decide (total <= size selected)%nat
      then selected
      else if bool_decide (is_Some (selected !! peer_id peer))
      then extra_fanout_loop total rest remaining_extra selected
      else extra_fanout_loop total rest (remaining_extra - 1) (<[peer_id peer := peer]> selected)
  end.

(** The remote peers in the order the loops visit them. *)
Definition visit_order (remotes : list remote) (fanout_round : Z) : list remote :=
  let sorted := merge_sort remote_le remotes in
  if bool_decide (1 < length sorted)%nat
  then rotate_left sorted (Z.to_nat (Z.max (fanout_round - 1) 0 mod Z.of_nat (length sorted)))
  else sorted.

(** [select_target_replication_peers] *)
Definition select_target_replication_peers (m : RaftMembership) (target_index : option Z)
    (ack_ids : gset string) (remotes : list remote) (fanout_round : Z) (extra_fanout : nat)
    : option (list RaftPeerConfig) :=
  match target_index with
  | None => Some remotes.*1
  | Some _ =>
      if quorum_met m ack_ids then Some []
      else if bool_decide (remotes = []) then Some []
      else
        let order := visit_order remotes fanout_round in
        match select_loop (S (length order)) m order ∅ ack_ids with
        | AllRemotes => Some remotes.*1
        | IndexPanic | SelectionFuel => None
        | Selected selected =>
            if bool_decide (length remotes <= size selected)%nat then Some remotes.*1
            else
              let selected := if bool_decide (0 < extra_fanout)%nat
                              then extra_fanout_loop (length remotes) order extra_fanout selected
                              else selected in
              Some (into_values selected)
        end
  end.

(** [TargetReplicationPeerSelection] *)
Record TargetReplicationPeerSelection : Type := mkTargetReplicationPeerSelection {
  tr_peers : list RaftPeerConfig;
  tr_busy_replacements : list remote;
  tr_extra_fanout_peers : nat;
}.

(** [select_target_replication_peers_avoiding_busy] *)
Definition select_target_replication_peers_avoiding_busy (m : RaftMembership)
    (target_index : option Z) (ack_ids : gset string) (remotes : list remote) (fanout_round : Z)
    (extra_fanout : nat) (busy_peer_ids : gset string) : option TargetReplicationPeerSelection :=
  minimal_selected ← select_target_replication_peers m target_index ack_ids remotes fanout_round 0;
  selected ← select_target_replication_peers m target_index ack_ids remotes fanout_round extra_fanout;
  let plain := mkTargetReplicationPeerSelection selected []
                 (length selected - length minimal_selected) in
  if bool_decide (target_index = None) || bool_decide (selected = [])
     || bool_decide (busy_peer_ids = ∅)
     || negb (existsb (fun peer => bool_decide (peer_id peer ∈ busy_peer_ids)) selected)
  then Some plain
  else
    let ready_remotes := filter (fun pm : remote => peer_id pm.1 ∉ busy_peer_ids) remotes in
    if bool_decide (ready_remotes = []) then Some plain
    else
      ready_minimal ← select_target_replication_peers m target_index ack_ids ready_remotes fanout_round 0;
      ready_selected ← select_target_replication_peers m target_index ack_ids ready_remotes fanout_round
        extra_fanout;
      let ready_acks := list_to_set (peer_id <$> ready_selected) ∪ ack_ids in
      if negb (quorum_met m ready_acks) then Some plain
      else
        let selected_ids : gset string := list_to_set (peer_id <$> selected) in
        let ready_selected_ids : gset string := list_to_set (peer_id <$> ready_selected) in
        let busy_replacements := filter (fun pm : remote =>
          peer_id pm.1 ∈ selected_ids /\ peer_id pm.1 ∈ busy_peer_ids
          /\ peer_id pm.1 ∉ ready_selected_ids) remotes in
        Some (mkTargetReplicationPeerSelection ready_selected busy_replacements
                (length ready_selected - length ready_minimal)).
