(* ===== verification/RaftQuorumFacts.v ===== *)
(** * Quorums intersect, and the replication targets reach one *)

From S2P Require Import Prelude Text RaftQuorum.
From stdpp Require Import options.
Import Membership.

Definition ids (peers : list RaftPeerConfig) : gset string := list_to_set (peer_id <$> peers).

(** ** Counting votes *)

Lemma elem_of_ids peers id : id ∈ ids peers <-> exists p, p ∈ peers /\ peer_id p = id.
Proof. unfold ids. rewrite elem_of_list_to_set, list_elem_of_fmap. naive_solver. Qed.

Lemma ids_app l1 l2 : ids (l1 ++ l2) = ids l1 ∪ ids l2.
Proof. unfold ids. by rewrite fmap_app, list_to_set_app_L. Qed.

Lemma peer_votes_mono peers a b : a ⊆ b -> (peer_votes peers a <= peer_votes peers b)%nat.
Proof.
  intros Hab. unfold peer_votes. induction peers as [|p peers IH]; [done|].
  rewrite !filter_cons. repeat case_decide; simpl; try lia. set_solver.
Qed.

Lemma peer_votes_all peers a : ids peers ⊆ a -> peer_votes peers a = length peers.
Proof.
  intros Ha. unfold peer_votes.
  assert (Forall (fun p => peer_id p ∈ a) peers) as Hall.
  { apply Forall_forall. intros p Hp. apply Ha, elem_of_ids. eauto. }
  induction Hall; [done|]. rewrite filter_cons_True by done. simpl. f_equal.
  apply IHHall. set_solver.
Qed.

(** Each peer counts at most once when the ids are distinct. *)
Lemma peer_votes_size peers a :
  NoDup (peer_id <$> peers) -> peer_votes peers a = size (ids peers ∩ a).
Proof.
  intros Hnd. unfold peer_votes.
  transitivity (size (list_to_set (peer_id <$> filter (fun p => peer_id p ∈ a) peers) : gset string)).
  - rewrite size_list_to_set; [by rewrite length_fmap|].
    eapply sublist_NoDup; [|apply fmap_sublist, sublist_filter]. done.
  - f_equal. apply set_eq. intros x. rewrite elem_of_list_to_set, elem_of_intersection, elem_of_ids.
    rewrite list_elem_of_fmap. setoid_rewrite list_elem_of_filter. naive_solver.
Qed.

Lemma filter_overlap (P Q : RaftPeerConfig -> Prop) `{!forall x, Decision (P x), !forall x, Decision (Q x)} l :
  (length (filter P l) + length (filter Q l)
     <= length l + length (filter (fun x => P x /\ Q x) l))%nat.
Proof.
  induction l as [|x l IH]; [done|]. rewrite !filter_cons.
  repeat case_decide; simpl; try lia; tauto.
Qed.

Lemma quorum_for_majority n : (0 < n)%nat -> (n < 2 * quorum_for n <= 2 * n)%nat.
Proof.
  intros Hn. unfold quorum_for. rewrite bool_decide_eq_false_2 by lia.
  pose proof (Nat.div_mod n 2 ltac:(lia)). pose proof (Nat.mod_upper_bound n 2 ltac:(lia)). lia.
Qed.

Lemma majority_true peers a :
  majority peers a = true <-> peers <> [] /\ (quorum_for (length peers) <= peer_votes peers a)%nat.
Proof.
  unfold majority. by rewrite andb_true_iff, negb_true_iff, bool_decide_eq_false, bool_decide_eq_true.
Qed.

Lemma majority_mono peers a b : a ⊆ b -> majority peers a = true -> majority peers b = true.
Proof.
  rewrite !majority_true. intros Hab [H1 H2]. split; [done|].
  pose proof (peer_votes_mono peers a b Hab). lia.
Qed.

Lemma quorum_met_mono m a b : a ⊆ b -> quorum_met m a = true -> quorum_met m b = true.
Proof.
  intros Hab. destruct m; simpl; [by apply majority_mono|].
  rewrite !andb_true_iff. intros [H1 H2]. split; by eapply majority_mono.
Qed.

Lemma majority_intersect peers a b :
  majority peers a = true -> majority peers b = true ->
  exists p, p ∈ peers /\ peer_id p ∈ a /\ peer_id p ∈ b.
Proof.
  rewrite !majority_true. unfold peer_votes. intros [Hne Ha] [_ Hb].
  assert (0 < length peers)%nat as Hpos by (destruct peers; simpl in *; [done|lia]).
  pose proof (quorum_for_majority _ Hpos).
  pose proof (filter_overlap (fun p => peer_id p ∈ a) (fun p => peer_id p ∈ b) peers) as Hov.
  match type of Hov with (_ <= _ + length ?f)%nat => destruct f as [|p l] eqn:Hf end.
  - cbn [length] in Hov. lia.
  - exists p. assert (p ∈ p :: l) as Hin by left. rewrite <-Hf in Hin.
    apply list_elem_of_filter in Hin. tauto.
Qed.

(** ** The minimal acknowledgement set *)

Lemma add_peer_if_present_elem acks peers id x :
  x ∈ add_peer_if_present acks peers id <-> x ∈ acks \/ (x = id /\ id ∈ ids peers).
Proof.
  unfold add_peer_if_present. destruct (existsb _ peers) eqn:He.
  - apply existsb_exists in He as (p & Hp & Hb). apply list_elem_of_In in Hp.
    apply bool_decide_eq_true in Hb. assert (id ∈ ids peers) by (apply elem_of_ids; eauto). set_solver.
  - split; [by left|]. intros [H|[-> (p & Hp & Hid)%elem_of_ids]]; [done|]. exfalso.
    apply not_true_iff_false in He. apply He, existsb_exists. exists p.
    by rewrite list_elem_of_In, bool_decide_eq_true in *.
Qed.

Lemma add_peers_loop_mono peers q rest acks :
  acks ⊆ add_peers_loop peers q rest acks /\ add_peers_loop peers q rest acks ⊆ acks ∪ ids rest.
Proof.
  revert acks. induction rest as [|p rest IH]; intros acks; simpl; [set_solver|].
  case_bool_decide; [set_solver|]. destruct (IH ({[peer_id p]} ∪ acks)) as [H1 H2].
  unfold ids in *. simpl. set_solver.
Qed.

Lemma add_peers_loop_votes peers q rest acks :
  (q <= length peers)%nat -> ids peers ⊆ acks ∪ ids rest ->
  (q <= peer_votes peers (add_peers_loop peers q rest acks))%nat.
Proof.
  revert acks. induction rest as [|p rest IH]; intros acks Hq Hall; simpl.
  - rewrite peer_votes_all; [done|]. unfold ids at 2 in Hall. set_solver.
  - case_bool_decide; [done|]. apply IH; [done|]. unfold ids in *. simpl in *. set_solver.
Qed.

(** The loop never overshoots. *)
Lemma add_peers_loop_exact peers q rest acks :
  NoDup (peer_id <$> peers) -> acks ⊆ ids peers -> ids rest ⊆ ids peers -> (size acks <= q)%nat ->
  (size (add_peers_loop peers q rest acks) <= q)%nat.
Proof.
  intros Hnd. revert acks. induction rest as [|p rest IH]; intros acks Ha Hr Hs; simpl; [done|].
  case_bool_decide as Hb; [done|]. rewrite peer_votes_size in Hb by done.
  replace (ids peers ∩ acks) with acks in Hb by set_solver.
  assert (size ({[peer_id p]} ∪ acks) <= S (size acks))%nat.
  { rewrite size_union_alt, size_singleton.
    pose proof (subseteq_size (acks ∖ {[peer_id p]}) acks ltac:(set_solver)). lia. }
  apply IH; [|by unfold ids in *; simpl in *; set_solver|lia].
  unfold ids in *; simpl in *; set_solver.
Qed.

(** ** The selection loop *)

Lemma into_values_elem {A} (m : gmap string A) x : x ∈ into_values m <-> exists k, m !! k = Some x.
Proof.
  unfold into_values. rewrite list_elem_of_fmap. setoid_rewrite merge_sort_Permutation.
  split.
  - intros ([k y] & -> & H%elem_of_map_to_list). eauto.
  - intros [k Hk]. exists (k, x). split; [done|]. by apply elem_of_map_to_list.
Qed.

Lemma visit_order_perm remotes round : visit_order remotes round ≡ₚ remotes.
Proof.
  unfold visit_order. case_bool_decide; [|apply merge_sort_Permutation].
  unfold rotate_left. rewrite (comm (++)), take_drop. apply merge_sort_Permutation.
Qed.

(** The chosen candidate is an unselected peer of the list. *)
Lemma best_candidate_some m selected acks rest pos best g mi inv :
  best_candidate m selected acks pos rest best = Some (g, mi, inv) ->
  best = Some (g, mi, inv) \/
  exists i peer, rest !! i = Some (peer, mi) /\ selected !! peer_id peer = None /\
    inv = Z.max (usize_max - Z.of_nat (pos + i)) 0.
Proof.
  revert pos best. induction rest as [|[peer mi'] rest IH]; intros pos best; simpl; [by left|].
  assert (forall best', (best' = best \/
            best' = Some (Z.of_nat (quorum_gain m acks ({[peer_id peer]} ∪ acks)), mi',
                          Z.max (usize_max - Z.of_nat pos) 0) /\ selected !! peer_id peer = None) ->
    best_candidate m selected acks (S pos) rest best' = Some (g, mi, inv) ->
    best = Some (g, mi, inv) \/
    exists i p, ((peer, mi') :: rest) !! i = Some (p, mi) /\ selected !! peer_id p = None /\
      inv = Z.max (usize_max - Z.of_nat (pos + i)) 0) as Hstep.
  { intros best' Hb Hr. apply IH in Hr as [->|(i & p & H1 & H2 & H3)].
    - destruct Hb as [<-|[[= -> -> ->] Hn]]; [by left|]. right. exists 0%nat, peer.
      rewrite Nat.add_0_r. done.
    - right. exists (S i), p. rewrite Nat.add_succ_r. done. }
  case_bool_decide as Hsel; [apply Hstep; by left|].
  case_bool_decide; [apply Hstep; by left|].
  apply eq_None_not_Some in Hsel.
  destruct best as [current|]; [case_match|]; apply Hstep; auto.
Qed.

(** What the loop keeps: the selected peers are remote peers under their ids. *)
Definition selection_ok (remotes : list remote) (selected : gmap string RaftPeerConfig) : Prop :=
  map_Forall (fun id p => p ∈ remotes.*1 /\ peer_id p = id) selected.

Lemma selection_ok_insert remotes selected p :
  selection_ok remotes selected -> p ∈ remotes.*1 ->
  selection_ok remotes (<[peer_id p := p]> selected).
Proof. intros Hs Hp. by apply map_Forall_insert_2. Qed.

Lemma size_list_to_set_le (l : list string) : (size (list_to_set l : gset string) <= length l)%nat.
Proof.
  induction l as [|x l IH]; simpl; [done|].
  rewrite size_union_alt, size_singleton.
  pose proof (subseteq_size (list_to_set l ∖ {[x]}) (list_to_set l : gset string) ltac:(set_solver)). lia.
Qed.

Lemma selection_ok_size remotes selected :
  selection_ok remotes selected -> (size selected <= length remotes)%nat.
Proof.
  intros Hs. rewrite <-size_dom. etrans; [apply (subseteq_size _ (ids remotes.*1))|].
  - intros id [p Hp]%elem_of_dom. apply elem_of_ids. exists p. by apply (Hs id p).
  - unfold ids. etrans; [apply size_list_to_set_le|]. by rewrite !length_fmap.
Qed.

Lemma select_loop_spec fuel m remotes selected acks0 :
  Z.of_nat (length remotes) <= usize_max ->
  selection_ok remotes selected -> (length remotes < fuel + size selected)%nat ->
  match select_loop fuel m remotes selected (dom selected ∪ acks0) with
  | Selected sel => selection_ok remotes sel /\ quorum_met m (dom sel ∪ acks0) = true
  | AllRemotes => True
  | IndexPanic | SelectionFuel => False
  end.
Proof.
  intros Hlen. revert selected. induction fuel as [|fuel IH]; intros selected Hs Hf; simpl.
  { pose proof (selection_ok_size _ _ Hs). lia. }
  destruct (quorum_met m _) eqn:Hq; [done|].
  destruct (best_candidate _ _ _ _ _ _) as [[[g mi] inv]|] eqn:Hb; [|done].
  apply best_candidate_some in Hb as [|(i & peer & Hi & Hn & ->)]; [done|].
  pose proof (lookup_lt_Some _ _ _ Hi). simpl in *.
  replace (Z.to_nat _) with i by lia. rewrite Hi.
  replace ({[peer_id peer]} ∪ (dom selected ∪ acks0))
    with (dom (<[peer_id peer := peer]> selected) ∪ acks0) by (rewrite dom_insert_L; set_solver).
  apply IH.
  - apply selection_ok_insert; [done|]. apply list_elem_of_fmap. exists (peer, mi).
    split; [done|]. by eapply list_elem_of_lookup_2.
  - rewrite map_size_insert_None by done. lia.
Qed.

Lemma extra_fanout_spec total remotes rest extra selected :
  selection_ok remotes selected -> (forall pm, pm ∈ rest -> pm ∈ remotes) ->
  selection_ok remotes (extra_fanout_loop total rest extra selected) /\
  dom selected ⊆ dom (extra_fanout_loop total rest extra selected).
Proof.
  revert extra selected. induction rest as [|[p mi] rest IH]; intros extra selected Hs Hr; simpl; [done|].
  destruct (_ || _); [done|]. assert (forall pm, pm ∈ rest -> pm ∈ remotes) as Hr'
    by (intros; apply Hr; by right).
  case_bool_decide; [by apply IH|].
  destruct (IH (extra - 1)%nat (<[peer_id p := p]> selected)) as [H1 H2]; [|done|].
  - apply selection_ok_insert; [done|]. apply list_elem_of_fmap. exists (p, mi).
    split; [done|]. apply Hr. left.
  - split; [done|]. rewrite dom_insert_L in H2. set_solver.
Qed.

Lemma selection_values remotes selected acks m :
  selection_ok remotes selected ->
  (forall p, p ∈ into_values selected -> p ∈ remotes.*1) /\
  (quorum_met m (dom selected ∪ acks) = true -> quorum_met m (ids (into_values selected) ∪ acks) = true).
Proof.
  intros Hs. split.
  - intros p (id & Hid)%into_values_elem. by apply (Hs id p).
  - apply quorum_met_mono. apply union_mono_r. intros id [p Hp]%elem_of_dom. apply elem_of_ids.
    exists p. split; [apply into_values_elem; eauto|]. by apply (Hs id p).
Qed.

Lemma selection_ok_perm r1 r2 selected : r1 ≡ₚ r2 -> selection_ok r1 selected -> selection_ok r2 selected.
Proof. intros Hp Hs id p Hid. destruct (Hs id p Hid). by rewrite <-Hp. Qed.

(** The selection is total, made of remote peers, and reaches a quorum
    whenever all remote peers together do. *)
Lemma select_spec m target acks remotes round extra :
  Z.of_nat (length remotes) <= usize_max ->
  exists sel, select_target_replication_peers m target acks remotes round extra = Some sel /\
    (forall p, p ∈ sel -> p ∈ remotes.*1) /\
    (quorum_met m (ids remotes.*1 ∪ acks) = true -> quorum_met m (ids sel ∪ acks) = true).
Proof.
  intros Hlen. unfold select_target_replication_peers.
  destruct target as [t|]; [|by eexists].
  destruct (quorum_met m acks) eqn:Hq.
  { exists []. split_and!; [done|set_solver|]. intros _. eapply quorum_met_mono; [|done]. set_solver. }
  case_bool_decide as He; [subst; by exists []|].
  pose proof (visit_order_perm remotes round) as Hp. set (order := visit_order remotes round) in *.
  assert (length order = length remotes) as Hlo by (by rewrite Hp).
  pose proof (select_loop_spec (S (length order)) m order ∅ acks) as Hl.
  rewrite dom_empty_L, (left_id_L ∅ (∪)) in Hl.
  specialize (Hl ltac:(lia) (map_Forall_empty _) ltac:(lia)).
  destruct (select_loop _ _ _ _ _) as [selected| | |]; [|by eexists|done..].
  destruct Hl as [Hs Hm]. apply (selection_ok_perm _ remotes) in Hs; [|done].
  case_bool_decide; [by eexists|].
  case_bool_decide.
  - destruct (extra_fanout_spec (length remotes) remotes order extra selected Hs) as [H1 H2].
    { intros pm. by rewrite Hp. }
    destruct (selection_values _ _ acks m H1) as [H3 H4].
    eexists. split_and!; [done|done|]. intros _. apply H4. eapply quorum_met_mono; [|done]. set_solver.
  - destruct (selection_values _ _ acks m Hs) as [H3 H4]. eexists. split_and!; [done|done|]. auto.
Qed.

(** ** Normalised peer lists *)

Lemma normalize_map_ok (peers : list RaftPeerConfig) (m : gmap string RaftPeerConfig) :
  map_Forall (fun id p => peer_id p = id) m ->
  let m' := foldl (fun by_id peer => <[peer_id peer := peer]> by_id) m peers in
  map_Forall (fun id p => peer_id p = id) m' /\ dom m' = ids peers ∪ dom m.
Proof.
  revert m. induction peers as [|p peers IH]; intros m Hm; simpl.
  - split; [done|]. unfold ids. set_solver.
  - destruct (IH (<[peer_id p := p]> m)) as [H1 H2]; [by apply map_Forall_insert_2|].
    split; [done|]. rewrite H2, dom_insert_L. unfold ids. simpl. set_solver.
Qed.

Lemma normalize_peers_ids peers :
  NoDup (peer_id <$> normalize_peers peers) /\ ids (normalize_peers peers) = ids peers.
Proof.
  destruct (normalize_map_ok peers ∅ (map_Forall_empty _)) as [H1 H2]. simpl in H2.
  unfold normalize_peers, into_values.
  set (m := foldl _ ∅ peers) in *. rewrite dom_empty_L, (right_id_L ∅ (∪)) in H2.
  assert (peer_id <$> (snd <$> merge_sort btree_le (map_to_list m)) ≡ₚ (map_to_list m).*1) as Hp.
  { rewrite merge_sort_Permutation, <-list_fmap_compose. apply reflexive_eq, list_fmap_ext.
    intros i [k p] Hi. simpl. apply (H1 k p), elem_of_map_to_list. by eapply list_elem_of_lookup_2. }
  split; [rewrite Hp; apply NoDup_fst_map_to_list|]. unfold ids at 1. rewrite Hp, <-H2.
  apply set_eq. intros x. rewrite elem_of_list_to_set, elem_of_dom, list_elem_of_fmap. split.
  - intros ([k p] & -> & H%elem_of_map_to_list). eauto.
  - intros [p Hpx]. exists (x, p). split; [done|]. by apply elem_of_map_to_list.
Qed.

(** ** The theorems *)

(** The configurations a membership change passes through: each step keeps the
    configuration, enters the joint one or leaves it. *)
Inductive adjacent : RaftMembership -> RaftMembership -> Prop :=
| adj_same m : adjacent m m
| adj_enter old_peers new_peers : adjacent (Simple old_peers) (Joint old_peers new_peers)
| adj_leave old_peers new_peers : adjacent (Joint old_peers new_peers) (Simple new_peers).

Definition distinct_ids (m : RaftMembership) : Prop :=
  match m with
  | Simple peers => NoDup (peer_id <$> peers)
  | Joint old_peers new_peers => NoDup (peer_id <$> old_peers) /\ NoDup (peer_id <$> new_peers)
  end.

Lemma contains_id_true m id : contains_id m id = true <-> id ∈ ids (validation_peers m).
Proof.
  rewrite elem_of_ids. destruct m; simpl; rewrite existsb_exists;
    setoid_rewrite bool_decide_eq_true; setoid_rewrite list_elem_of_In; done.
Qed.

(** Two quorums of a membership share a voter. *)
Lemma quorums_intersect m a b :
  quorum_met m a = true -> quorum_met m b = true -> exists id, id ∈ a /\ id ∈ b.
Proof.
  destruct m as [peers|o n]; simpl; rewrite ?andb_true_iff.
  - intros Ha Hb. destruct (majority_intersect _ _ _ Ha Hb) as (p & _ & ? & ?). eauto.
  - intros [Ha _] [Hb _]. destruct (majority_intersect _ _ _ Ha Hb) as (p & _ & ? & ?). eauto.
Qed.

(** Quorums of the same configuration, and of the configurations before
    and after each step of a membership change, share a voter that is a member
    of both; repeated ids in a peer list do not break this. *)
Theorem adjacent_quorums_intersect m1 m2 a b :
  adjacent m1 m2 -> quorum_met m1 a = true -> quorum_met m2 b = true ->
  exists id, id ∈ a /\ id ∈ b /\ contains_id m1 id = true /\ contains_id m2 id = true.
Proof.
  assert (forall peers, majority peers a = true -> majority peers b = true ->
            exists id, id ∈ a /\ id ∈ b /\ id ∈ ids peers) as Hmaj.
  { intros peers H1 H2. destruct (majority_intersect _ _ _ H1 H2) as (p & Hp & Ha & Hb).
    exists (peer_id p). rewrite elem_of_ids. eauto. }
  setoid_rewrite contains_id_true.
  destruct 1 as [m|o n|o n]; simpl; rewrite ?andb_true_iff; try setoid_rewrite ids_app.
  - destruct m as [peers|o n]; simpl; rewrite ?andb_true_iff; try setoid_rewrite ids_app.
    + intros H1 H2. destruct (Hmaj _ H1 H2) as (id & ? & ? & ?). eauto.
    + intros [H1 _] [H2 _]. destruct (Hmaj _ H1 H2) as (id & ? & ? & ?). exists id. set_solver.
  - intros H1 [H2 _]. destruct (Hmaj _ H1 H2) as (id & ? & ? & ?). exists id. set_solver.
  - intros [_ H1] H2. destruct (Hmaj _ H1 H2) as (id & ? & ? & ?). exists id. set_solver.
Qed.

Lemma size_inclusion_exclusion (A B : gset string) :
  (size (A ∪ B) + size (A ∩ B) = size A + size B)%nat.
Proof.
  rewrite size_union_alt. pose proof (size_difference_alt B A) as Hd.
  assert (B ∩ A = A ∩ B) as Hc by apply intersection_comm_L. rewrite Hc in Hd.
  pose proof (subseteq_size (A ∩ B) B (intersection_subseteq_r _ _)). lia.
Qed.

(** No quorum is smaller than [quorum_size]: a set of acknowledgements that
    meets the quorum contains at least that many distinct members, also in the
    joint configuration, where overlapping members count once. *)
Theorem quorum_size_is_lower_bound m a :
  distinct_ids m -> quorum_met m a = true ->
  (quorum_size m <= size (ids (validation_peers m) ∩ a))%nat.
Proof.
  destruct m as [peers|o n]; simpl.
  - intros Hnd [_ H]%majority_true. by rewrite peer_votes_size in H.
  - intros [Ho Hn]. rewrite andb_true_iff, !majority_true, !peer_votes_size by done.
    intros [[_ H1] [_ H2]]. unfold joint_quorum_size. case_match; [lia|].
    change (length (filter _ o)) with (peer_votes o (ids n)). rewrite peer_votes_size by done.
    rewrite ids_app, intersection_union_r_L.
    set (A := ids o ∩ a) in *. set (B := ids n ∩ a) in *.
    pose proof (size_inclusion_exclusion A B).
    assert (size (A ∩ B) <= size (ids o ∩ ids n))%nat by (apply subseteq_size; set_solver).
    assert (size (A ∩ B) <= size A)%nat by (apply subseteq_size; set_solver).
    assert (size (A ∩ B) <= size B)%nat by (apply subseteq_size; set_solver).
    lia.
Qed.

(** The peer lists of a configuration are not empty. *)
Definition populated (m : RaftMembership) : Prop :=
  match m with
  | Simple peers => peers <> []
  | Joint old_peers new_peers => old_peers <> [] /\ new_peers <> []
  end.

Lemma add_until_majority acks peers :
  peers <> [] -> majority peers (add_peers_until_quorum acks peers (quorum_for (length peers))) = true.
Proof.
  intros Hne. apply majority_true. split; [done|]. apply add_peers_loop_votes; [|set_solver].
  assert (0 < length peers)%nat as Hpos by (destruct peers; simpl in *; [done|lia]).
  pose proof (quorum_for_majority _ Hpos). lia.
Qed.

Lemma add_until_bounds acks peers q :
  acks ⊆ add_peers_until_quorum acks peers q /\
  add_peers_until_quorum acks peers q ⊆ acks ∪ ids peers.
Proof. apply add_peers_loop_mono. Qed.

(** A populated configuration always has a minimal acknowledgement set: it
    is a quorum made of members, includes the local node when that is a
    member, and in a simple configuration has exactly [quorum_size] members. *)
Theorem minimal_quorum_ack_set_ok m local_id :
  populated m -> distinct_ids m ->
  exists acks, minimal_quorum_ack_set m local_id = Some acks /\ quorum_met m acks = true /\
    acks ⊆ ids (validation_peers m) /\
    (contains_id m local_id = true -> local_id ∈ acks) /\
    (is_joint m = false -> size acks = quorum_size m).
Proof.
  intros Hp Hd. setoid_rewrite contains_id_true. unfold minimal_quorum_ack_set.
  destruct m as [peers|o n]; simpl in *.
  - set (acks0 := add_peer_if_present ∅ peers local_id).
    assert (acks0 ⊆ ids peers) as H0
      by (intros x [H|[-> H]]%add_peer_if_present_elem; [set_solver|done]).
    destruct (add_until_bounds acks0 peers (quorum_for (length peers))) as [B1 B2].
    pose proof (add_until_majority acks0 peers Hp) as Hm. rewrite Hm.
    eexists. split_and!; [done|done|set_solver| |].
    + intros Hin. apply B1, add_peer_if_present_elem. by right.
    + intros _. apply majority_true in Hm as [_ Hv]. rewrite peer_votes_size in Hv by done.
      pose proof (subseteq_size (ids peers ∩ add_peers_until_quorum acks0 peers (quorum_for (length peers)))
        (add_peers_until_quorum acks0 peers (quorum_for (length peers))) (intersection_subseteq_r _ _)).
      assert (size acks0 <= quorum_for (length peers))%nat as Hs0.
      { assert (0 < length peers)%nat as Hpos by (destruct peers; simpl in *; [done|lia]).
        pose proof (quorum_for_majority _ Hpos).
        assert (size acks0 <= size ({[local_id]} : gset string))%nat as Hs.
        { apply subseteq_size. intros x [Hx|[-> _]]%add_peer_if_present_elem; set_solver. }
        rewrite size_singleton in Hs. lia. }
      pose proof (add_peers_loop_exact peers (quorum_for (length peers)) peers acks0 Hd H0
                    (reflexivity _) Hs0). unfold add_peers_until_quorum in *. lia.
  - destruct Hp as [Ho Hn].
    set (acks0 := add_peer_if_present (add_peer_if_present ∅ o local_id) n local_id).
    assert (acks0 ⊆ ids o ∪ ids n) as H0.
    { intros x [[H|[-> H]]%add_peer_if_present_elem|[-> H]]%add_peer_if_present_elem; set_solver. }
    set (acks1 := add_peers_until_quorum acks0 o (quorum_for (length o))).
    destruct (add_until_bounds acks0 o (quorum_for (length o))) as [B1 B2].
    destruct (add_until_bounds acks1 n (quorum_for (length n))) as [B3 B4].
    pose proof (majority_mono o _ _ B3 (add_until_majority acks0 o Ho)) as Hm1.
    pose proof (add_until_majority acks1 n Hn) as Hm2.
    rewrite Hm1, Hm2. simpl. setoid_rewrite ids_app.
    eexists. split_and!; [done|by rewrite Hm1, Hm2|set_solver| |done].
    intros Hin. apply B3, B1. unfold acks0. rewrite !add_peer_if_present_elem. set_solver.
Qed.

(** The choice of replication targets always returns (no index is out of
    range), targets only known remote peers, and, together with the
    acknowledgements at hand, the targets reach a quorum whenever all remote
    peers together would, whatever the round and the extra fan-out. *)
Theorem select_targets_reach_quorum m target acks remotes round extra :
  Z.of_nat (length remotes) <= usize_max ->
  exists sel, select_target_replication_peers m target acks remotes round extra = Some sel /\
    (forall p, p ∈ sel -> p ∈ remotes.*1) /\
    (quorum_met m (ids remotes.*1 ∪ acks) = true -> quorum_met m (ids sel ∪ acks) = true).
Proof. apply select_spec. Qed.

(** Avoiding busy peers keeps the guarantee: the targets still reach a
    quorum whenever all remote peers would, and when busy peers were replaced
    no target is busy and every replaced peer is. *)
Theorem avoiding_busy_reaches_quorum m target acks remotes round extra busy :
  Z.of_nat (length remotes) <= usize_max ->
  exists r, select_target_replication_peers_avoiding_busy m target acks remotes round extra busy = Some r /\
    (forall p, p ∈ tr_peers r -> p ∈ remotes.*1) /\
    (quorum_met m (ids remotes.*1 ∪ acks) = true -> quorum_met m (ids (tr_peers r) ∪ acks) = true) /\
    (tr_busy_replacements r <> [] ->
       (forall p, p ∈ tr_peers r -> peer_id p ∉ busy) /\
       (forall pm, pm ∈ tr_busy_replacements r -> peer_id pm.1 ∈ busy)).
Proof.
  intros Hlen. unfold select_target_replication_peers_avoiding_busy.
  destruct (select_spec m target acks remotes round 0 Hlen) as (s0 & -> & _).
  destruct (select_spec m target acks remotes round extra Hlen) as (s1 & -> & H1 & H2). simpl.
  destruct (_ || _); [by eexists|].
  set (ready := filter _ remotes). case_bool_decide; [by eexists|].
  assert (Z.of_nat (length ready) <= usize_max) as Hlen'.
  { assert (length ready <= length remotes)%nat by apply length_filter. lia. }
  destruct (select_spec m target acks ready round 0 Hlen') as (r0 & -> & _).
  destruct (select_spec m target acks ready round extra Hlen') as (r1 & -> & R1 & R2). simpl.
  destruct (quorum_met m (list_to_set (peer_id <$> r1) ∪ acks)) eqn:Hq; simpl; [|by eexists].
  assert (forall p, p ∈ r1 -> p ∈ remotes.*1 /\ peer_id p ∉ busy) as Hr.
  { intros p Hp. apply R1, list_elem_of_fmap in Hp as ([p' mi] & -> & Hin).
    apply list_elem_of_filter in Hin as [Hb Hin]. split; [|done].
    apply list_elem_of_fmap. by exists (p', mi). }
  eexists. split_and!; [done|intros p Hp; by apply Hr|done|].
  simpl. intros _. split; [intros p Hp; by apply Hr|].
  intros pm Hpm. by apply list_elem_of_filter in Hpm as [(_ & Hb & _) _].
Qed.

(** ** Witnesses *)

Definition demo_peer (id : string) : RaftPeerConfig := mkRaftPeerConfig id (id +:+ ":7000")%string.
Definition demo_peers : list RaftPeerConfig := demo_peer <$> ["a"; "b"; "c"]%string.
Definition demo_new_peers : list RaftPeerConfig := demo_peer <$> ["b"; "c"; "d"]%string.
Definition demo_joint : RaftMembership := Joint demo_peers demo_new_peers.
Definition demo_remotes : list remote := [(demo_peer "b", 4); (demo_peer "c", 5); (demo_peer "d", 0)]%string.

Lemma adjacent_quorums_intersect_witness :
  exists id, id ∈ ({["a"; "b"]} : gset string) /\ id ∈ ({["b"; "c"]} : gset string) /\
    contains_id (Simple demo_peers) id = true /\ contains_id demo_joint id = true.
Proof.
  apply adjacent_quorums_intersect.
  - constructor.
  - vm_compute. reflexivity.
  - vm_compute. reflexivity.
Defined.

Lemma demo_joint_distinct : distinct_ids demo_joint.
Proof. split; apply (bool_decide_unpack _); vm_compute; exact I. Qed.

Lemma quorum_size_is_lower_bound_witness :
  quorum_size demo_joint = 2%nat /\
  (quorum_size demo_joint <= size (ids (validation_peers demo_joint) ∩ {["b"; "c"]}))%nat.
Proof.
  split; [vm_compute; reflexivity|]. apply quorum_size_is_lower_bound.
  - apply demo_joint_distinct.
  - vm_compute. reflexivity.
Defined.

Lemma minimal_quorum_ack_set_ok_witness :
  exists acks, minimal_quorum_ack_set demo_joint "d" = Some acks /\
    quorum_met demo_joint acks = true /\ acks ⊆ ids (validation_peers demo_joint) /\
    (contains_id demo_joint "d" = true -> "d"%string ∈ acks) /\
    (is_joint demo_joint = false -> size acks = quorum_size demo_joint).
Proof.
  apply minimal_quorum_ack_set_ok.
  - split; discriminate.
  - apply demo_joint_distinct.
Defined.

Lemma select_targets_reach_quorum_witness :
  exists sel, select_target_replication_peers demo_joint (Some 9) {["a"]} demo_remotes 2 0 = Some sel /\
    (forall p, p ∈ sel -> p ∈ demo_remotes.*1) /\
    (quorum_met demo_joint (ids demo_remotes.*1 ∪ {["a"]}) = true ->
     quorum_met demo_joint (ids sel ∪ {["a"]}) = true).
Proof. apply select_targets_reach_quorum. vm_compute. discriminate. Defined.

Lemma avoiding_busy_reaches_quorum_witness :
  exists r, select_target_replication_peers_avoiding_busy demo_joint (Some 9) {["a"]} demo_remotes 2 0
              {["b"]} = Some r /\
    (forall p, p ∈ tr_peers r -> p ∈ demo_remotes.*1) /\
    (quorum_met demo_joint (ids demo_remotes.*1 ∪ {["a"]}) = true ->
     quorum_met demo_joint (ids (tr_peers r) ∪ {["a"]}) = true) /\
    (tr_busy_replacements r <> [] ->
       (forall p, p ∈ tr_peers r -> peer_id p ∉ ({["b"]} : gset string)) /\
       (forall pm, pm ∈ tr_busy_replacements r -> peer_id pm.1 ∈ ({["b"]} : gset string))).
Proof. apply avoiding_busy_reaches_quorum. vm_compute. discriminate. Defined.
