(* ===== verification/RaftGrant.v ===== *)
(** * What the Raft layer adds to a client request

    [src/src/broker_raft.rs]: the replicated commands (2142-2176), the
    deterministic grant plan of a log index (23079-23112, 23428-23456), the
    admission checks (23132-23193), client ids (84-98, 1368-1396, 21712-21720)
    and the application of a client request to the broker (18899-18922). *)

From S2P Require Import Prelude Text Monad Protocol Queue BrokerTypes BrokerState Broker BrokerOps.
From S2P Require Import RaftQuorum.
From stdpp Require Import options.

Definition RAFT_MAX_COMPOSITE_KEYS : nat := 3.
Definition RAFT_FENCING_TOKEN_BASE : Z := 4000000000000000.
Definition RAFT_CLIENT_ID_PREFIX_SHIFT : Z := 48.
Definition RAFT_CLIENT_ID_SEQUENCE_MASK : Z := Z.shiftl 1 RAFT_CLIENT_ID_PREFIX_SHIFT - 1.

Record RaftGrantPlan : Type := mkRaftGrantPlan {
  gp_lock_uuid : option string;
  gp_fencing_seed : option Z;
}.

Inductive RaftCommand : Type :=
| Noop
| ClientRequest (client_id : ClientId) (request : Request.t) (grant : option RaftGrantPlan)
| ClientRequestWithIdentity (client_id : ClientId) (request : Request.t)
    (grant : option RaftGrantPlan) (request_id request_fingerprint : string)
| DropClient (client_id : ClientId)
| SetMembership (membership : RaftMembership)
| SetStagedLearners (learners : list RaftPeerConfig).

(** [BrokerRaftError]; the payloads of [Io] and [Json] are their messages. *)
Inductive BrokerRaftError : Type :=
| EIo (message : string)
| EJson (message : string)
| EInvalidConfig (message : string)
| EUnsupportedClientRequest (message : string)
| ECompactionAheadOfSnapshot (through_index snapshot_index : Z)
| ENoSnapshot
| ENotLeader (leader_id leader_addr : option string)
| EQuorumUnavailable (index : Z) (votes quorum : nat)
| EClientProposalUncertain (index : Z) (votes quorum : nat)
| ESnapshotChecksumMissing (index : Z)
| ESnapshotChecksumMismatch (index : Z) (expected actual : string)
| EBrokerSnapshot (message : string)
| EInvalidAppendEntries (message : string)
| EAppendEntriesFrameTooLarge (frame_bytes max_frame_bytes : nat)
| EFrameSizeEstimateMismatch (rpc : string) (estimated_bytes actual_bytes : nat)
| EInvalidLog (message : string)
| ELearnerCatchUpFailed (peer_id : string) (target_index : Z)
| EClientQueueFull (pending limit : nat)
| EIdempotencyKeyConflict (request_id : string)
| ERpc (message : string).

(** [Result<A, BrokerRaftError>] *)
Inductive RaftResult (A : Type) : Type :=
| RaftOk (a : A)
| RaftErr (e : BrokerRaftError).
Arguments RaftOk {A}.
Arguments RaftErr {A}.

(** ** Deterministic grants *)

(** [request_can_grant] *)
Definition request_can_grant (request : Request.t) : bool :=
  match request with
  | Request.Lock _ _ _ _ _ _ _ _ _ _ | Request.RegisterRead _ _ | Request.RegisterWrite _ _ => true
  | _ => false
  end.

(** [width] decimal digits of [n], most significant first, before [acc]. *)
Fixpoint decimal_digits (width : nat) (n : Z) (acc : string) : string :=
  match width with
  | O => acc
  | S width =>
      decimal_digits width (n / 10)
        (String (Ascii.ascii_of_N (48 + Z.to_N (n mod 10))) acc)
  end.

(** [deterministic_lock_uuid]: [{index:020}] of a [u64] has exactly 20 digits. *)
Definition deterministic_lock_uuid (index : Z) : string :=
  ("raft-" +:+ decimal_digits 20 index "")%string.

(** [deterministic_fencing_seed] *)
Definition deterministic_fencing_seed (index : Z) : Z :=
  saturating_add64 RAFT_FENCING_TOKEN_BASE
    (saturating_mul64 index (saturating_add64 (Z.of_nat MAX_COMPOSITE_KEYS) 1)).

(** [deterministic_grant_plan] *)
Definition deterministic_grant_plan (request : Request.t) (index : Z) : option RaftGrantPlan :=
  if negb (request_can_grant request) then None
  else Some (mkRaftGrantPlan (Some (deterministic_lock_uuid index))
               (Some (deterministic_fencing_seed index))).

(** [grant.or_else(..)] *)
Definition grant_or_plan (grant : option RaftGrantPlan) (request : Request.t) (index : Z)
    : option RaftGrantPlan :=
  match grant with
  | Some g => Some g
  | None => deterministic_grant_plan request index
  end.

(** [command_with_deterministic_grant] *)
Definition command_with_deterministic_grant (command : RaftCommand) (index : Z) : RaftCommand :=
  match command with
  | ClientRequest client_id request grant =>
      ClientRequest client_id request (grant_or_plan grant request index)
  | ClientRequestWithIdentity client_id request grant request_id request_fingerprint =>
      ClientRequestWithIdentity client_id request (grant_or_plan grant request index)
        request_id request_fingerprint
  | other => other
  end.

(** [client_request_identities_from_commands] *)
Definition client_request_identities_from_commands (commands : list RaftCommand)
    : list (string * string) :=
  omap (fun command =>
    match command with
    | ClientRequestWithIdentity _ _ _ request_id request_fingerprint =>
        Some (request_id, request_fingerprint)
    | _ => None
    end) commands.

(** [granted_lock_uuid] *)
Definition granted_lock_uuid (resp : Response.t) : option string :=
  match resp with
  | Response.Lock _ _ true _ (Some u) _ _ _
  | Response.CompositeLock _ _ true (Some u) _ _
  | Response.RegisterReadResult _ _ _ _ true (Some u) _
  | Response.RegisterWriteResult _ _ _ _ true (Some u) _ => Some u
  | _ => None
  end.

(** ** Admission *)

(** [request_for_ephemeral_wait]; [wait] is a duration. *)
Definition request_for_ephemeral_wait (request : Request.t) (wait : Z) (is_acquire : bool)
    : Request.t :=
  if is_acquire && duration_is_zero wait then
    match request with
    | Request.Lock uuid key keys pid ttl max force retry_count keep _ =>
        Request.Lock uuid key keys pid ttl max force retry_count keep (Some false)
    | _ => request
    end
  else request.

(** [request_is_fail_fast_acquire] *)
Definition request_is_fail_fast_acquire (request : Request.t) : bool :=
  match request with
  | Request.Lock _ _ _ _ _ _ _ _ _ (Some false) => true
  | _ => false
  end.

(** [ensure_supported_raft_composite_keys] *)
Definition ensure_supported_raft_composite_keys (keys : list string) (op : string)
    : RaftResult unit :=
  if bool_decide (keys = []) then
    RaftErr (EUnsupportedClientRequest ("composite " +:+ op +:+ " requires at least one key")%string)
  else
    let distinct := size (list_to_set keys : gset string) in
    if bool_decide (RAFT_MAX_COMPOSITE_KEYS < distinct)%nat then
      RaftErr (EUnsupportedClientRequest
        ("BrokerRaft composite " +:+ op +:+ " supports at most " +:+ pretty RAFT_MAX_COMPOSITE_KEYS
           +:+ " distinct keys; got " +:+ pretty distinct)%string)
    else RaftOk tt.

(** [ensure_supported_raft_client_request] *)
Definition ensure_supported_raft_client_request (request : Request.t) : RaftResult unit :=
  match request with
  | Request.Lock _ _ (Some keys) _ _ _ _ _ _ _ => ensure_supported_raft_composite_keys keys "lock"
  | Request.Unlock _ _ (Some keys) _ _ => ensure_supported_raft_composite_keys keys "unlock"
  | _ => RaftOk tt
  end.

(** [proxy_request_kind_label] *)
Definition proxy_request_kind_label (request : Request.t) : string :=
  match request with
  | Request.Version _ _ => "version"
  | Request.Auth _ _ => "auth"
  | Request.Lock _ _ (Some (_ :: _)) _ _ _ _ _ _ _ => "compositeLock"
  | Request.Lock _ _ _ _ _ _ _ _ _ _ => "lock"
  | Request.Unlock _ _ _ _ _ => "unlock"
  | Request.RegisterRead _ _ => "registerRead"
  | Request.RegisterWrite _ _ => "registerWrite"
  | Request.EndRead _ _ => "endRead"
  | Request.EndWrite _ _ => "endWrite"
  | Request.LockInfo _ _ => "lockInfo"
  | Request.Ls _ => "ls"
  | Request.Heartbeat _ => "heartbeat"
  end.

(** [ensure_replicable_raft_client_request] *)
Definition ensure_replicable_raft_client_request (request : Request.t) : RaftResult unit :=
  match request with
  | Request.Version _ _ | Request.Auth _ _ | Request.Heartbeat _ =>
      RaftErr (EUnsupportedClientRequest
        (proxy_request_kind_label request +:+ " requests cannot be replicated in the Raft log")%string)
  | _ => ensure_supported_raft_client_request request
  end.

(** ** Client ids *)

(** [u64::wrapping_mul] *)
Definition wrapping_mul64 (a b : Z) : Z := (a * b) mod 2 ^ 64.

Definition FNV_PRIME : Z := 1099511628211.

(** [stable_node_jitter] *)
Definition stable_node_jitter (node_id : string) (tick : Z) : Z :=
  foldl (fun h b => wrapping_mul64 (Z.lxor h b) FNV_PRIME) (wrapping_mul64 tick FNV_PRIME)
    (bytes_of node_id).

(** [raft_client_id_prefix] *)
Definition raft_client_id_prefix (node_id : string) : Z :=
  Z.max (Z.land (stable_node_jitter node_id 0) 65535) 1.

(** [raft_client_id_for_node] *)
Definition raft_client_id_for_node (node_id : string) (sequence : Z) : ClientId :=
  let sequence := Z.max (Z.land sequence RAFT_CLIENT_ID_SEQUENCE_MASK) 1 in
  Z.lor (Z.shiftl (raft_client_id_prefix node_id) RAFT_CLIENT_ID_PREFIX_SHIFT mod 2 ^ 64) sequence.

(** [validate_raft_client_id_prefixes]: the loop from [by_prefix]. *)
Fixpoint validate_prefixes_loop (by_prefix : gmap Z string) (peers : list RaftPeerConfig)
    : RaftResult unit :=
  match peers with
  | [] => RaftOk tt
  | peer :: peers =>
      let prefix := raft_client_id_prefix (peer_id peer) in
      match by_prefix !! prefix with
      | Some previous =>
          if bool_decide (previous = peer_id peer) then validate_prefixes_loop by_prefix peers
          else RaftErr (EInvalidConfig
            ("raft peer ids `" +:+ previous +:+ "` and `" +:+ peer_id peer
               +:+ "` derive the same client-id prefix " +:+ pretty prefix
               +:+ "; rename one peer id")%string)
      | None => validate_prefixes_loop (<[prefix := peer_id peer]> by_prefix) peers
      end
  end.

Definition validate_raft_client_id_prefixes (peers : list RaftPeerConfig) : RaftResult unit :=
  validate_prefixes_loop ∅ peers.

(** ** Applying a client request *)

Section apply.
Context `{LQ : LinkedQueueCrate} `{E : Env}.

(** The overrides [apply_client_request] builds. *)
Definition plan_overrides (request : Request.t) (grant : option RaftGrantPlan) : GrantOverrides :=
  let grant_lock_uuid :=
    match request with
    | Request.Lock uuid _ _ _ _ _ _ _ _ _ =>
        match grant ≫= gp_lock_uuid with Some u => Some u | None => Some uuid end
    | _ => None
    end in
  mkGrantOverrides
    (match grant ≫= gp_lock_uuid with Some u => Some u | None => grant_lock_uuid end)
    (grant ≫= gp_fencing_seed).

(** [BrokerRaft::apply_client_request] *)
Definition apply_client_request (client_id : ClientId) (request : Request.t)
    (grant : option RaftGrantPlan) : M World unit :=
  handle_request_with_grant_overrides client_id request (plan_overrides request grant).

End apply.

(** * Properties of Raft's deterministic grants and client ids *)

(** ** Fencing seeds *)

Lemma deterministic_fencing_seed_eq index :
  0 <= index -> RAFT_FENCING_TOKEN_BASE + index * 6 <= u64_max ->
  deterministic_fencing_seed index = RAFT_FENCING_TOKEN_BASE + index * 6.
Proof.
  unfold deterministic_fencing_seed, saturating_mul64, RAFT_FENCING_TOKEN_BASE.
  change (saturating_add64 (Z.of_nat MAX_COMPOSITE_KEYS) 1) with 6.
  unfold saturating_add64. lia.
Qed.

Lemma length_sort_dedup ks :
  length (dedup_keys (sort_keys ks)) = size (list_to_set ks : gset string).
Proof.
  assert (NoDup (dedup_keys (sort_keys ks))) as Hnd.
  { pose proof (sort_dedup_sorted ks) as Hs. induction Hs as [|k l Hs IH Hl]; constructor; [|done].
    rewrite Forall_forall in Hl. intros Hin. by apply (irreflexivity string_lt k), Hl. }
  rewrite <-(size_list_to_set (C := gset string) _ Hnd). f_equal.
  apply set_eq. intros k. rewrite !elem_of_list_to_set. apply sort_dedup_elem.
Qed.

Lemma ensure_composite_ok ks op :
  ensure_supported_raft_composite_keys ks op = RaftOk tt <->
  ks <> [] /\ (size (list_to_set ks : gset string) <= RAFT_MAX_COMPOSITE_KEYS)%nat.
Proof.
  unfold ensure_supported_raft_composite_keys. repeat case_bool_decide.
  all: split; [|intros []]; intros; try done; try lia; split; try done; lia.
Qed.

(** The token a grant at log index [index] forces on the [offset]-th of its
    keys. *)
Definition reserved_token (index : Z) (offset : nat) : Z :=
  saturating_add64 (deterministic_fencing_seed index) (Z.of_nat offset).

(** The tokens reserved for a log entry lie below the tokens reserved for
    every later entry: whatever keys an admitted composite request has, none
    of the tokens forced on them reaches the seed of a later index (as long as
    that seed does not saturate [u64]). *)
Theorem token_reservations_ordered ks op i j (o1 o2 : nat) :
  ensure_supported_raft_composite_keys ks op = RaftOk tt ->
  (o1 < length (dedup_keys (sort_keys ks)))%nat -> 0 <= i < j ->
  RAFT_FENCING_TOKEN_BASE + j * 6 <= u64_max ->
  reserved_token i o1 < reserved_token j o2.
Proof.
  intros [_ Hks]%ensure_composite_ok Ho Hij Hj. rewrite length_sort_dedup in Ho.
  unfold reserved_token, RAFT_MAX_COMPOSITE_KEYS in *.
  rewrite !deterministic_fencing_seed_eq by lia. unfold saturating_add64. lia.
Qed.

Lemma token_reservations_ordered_witness : reserved_token 41 2 < reserved_token 42 0.
Proof.
  apply (token_reservations_ordered ["b"; "a"; "b"; "c"] "lock");
    [reflexivity|vm_compute; lia|lia|vm_compute; discriminate].
Defined.

(** ** Lock identifiers *)

Lemma ascii_digit_inj a b :
  0 <= a < 10 -> 0 <= b < 10 ->
  Ascii.ascii_of_N (48 + Z.to_N a) = Ascii.ascii_of_N (48 + Z.to_N b) -> a = b.
Proof.
  intros Ha Hb He. apply (f_equal Ascii.N_of_ascii) in He.
  rewrite !Ascii.N_ascii_embedding in He by lia. lia.
Qed.

Lemma decimal_digits_inj width n m acc1 acc2 :
  0 <= n < 10 ^ Z.of_nat width -> 0 <= m < 10 ^ Z.of_nat width ->
  decimal_digits width n acc1 = decimal_digits width m acc2 -> n = m /\ acc1 = acc2.
Proof.
  revert n m acc1 acc2. induction width as [|width IH]; intros n m acc1 acc2 Hn Hm He.
  - simpl in *. split; [lia|done].
  - rewrite Nat2Z.inj_succ, Z.pow_succ_r in Hn, Hm by lia. simpl in He.
    apply IH in He as [Hd Hc];
      [|split; [apply Z.div_pos; lia|apply Z.div_lt_upper_bound; lia]..].
    injection Hc as Hc ->.
    apply ascii_digit_inj in Hc; [|apply Z.mod_pos_bound; lia..].
    split; [|done]. rewrite (Z.div_mod n 10), (Z.div_mod m 10) by lia. lia.
Qed.

(** Two log entries never name a grant alike: the lock uuid derived from a
    [u64] index determines the index. *)
Theorem deterministic_lock_uuid_inj i j :
  u64_range i -> u64_range j ->
  deterministic_lock_uuid i = deterministic_lock_uuid j -> i = j.
Proof.
  unfold u64_range. rewrite u64_max_eq. unfold deterministic_lock_uuid. intros Hi Hj He.
  apply (inj (String.append "raft-")) in He.
  apply (decimal_digits_inj 20 i j "" "") in He; [by destruct He|simpl; lia..].
Qed.

Lemma deterministic_lock_uuid_inj_witness :
  deterministic_lock_uuid 42 = "raft-00000000000000000042" /\
  deterministic_lock_uuid 42 <> deterministic_lock_uuid 420.
Proof.
  split; [vm_compute; reflexivity|]. intros He.
  apply deterministic_lock_uuid_inj in He; [done|unfold u64_range; rewrite u64_max_eq; lia..].
Defined.

(** ** Client ids *)

Lemma raft_client_id_prefix_range node_id : 1 <= raft_client_id_prefix node_id <= 65535.
Proof.
  unfold raft_client_id_prefix. change 65535 with (Z.ones 16).
  rewrite Z.land_ones by lia. pose proof (Z.mod_pos_bound (stable_node_jitter node_id 0) (2 ^ 16)).
  change (Z.ones 16) with 65535. lia.
Qed.

Lemma land_shifted p s n : 0 <= n -> 0 <= s < 2 ^ n -> Z.land (Z.shiftl p n) s = 0.
Proof.
  intros Hn Hs. apply Z.bits_inj'. intros i Hi. rewrite Z.land_spec, Z.bits_0.
  destruct (decide (i < n)); [by rewrite Z.shiftl_spec_low|].
  rewrite <-(Z.mod_small s (2 ^ n)), Z.mod_pow2_bits_high by lia. apply andb_false_r.
Qed.

Lemma lor_shifted p s n : 0 <= n -> 0 <= s < 2 ^ n -> Z.lor (Z.shiftl p n) s = p * 2 ^ n + s.
Proof.
  intros Hn Hs. rewrite <-Z.shiftl_mul_pow2, Z.add_nocarry_lxor by (try done; by apply land_shifted).
  symmetry. apply Z.lxor_lor. by apply land_shifted.
Qed.

Lemma raft_client_id_for_node_eq node_id sequence :
  exists s, 1 <= s < 2 ^ 48 /\
    raft_client_id_for_node node_id sequence = raft_client_id_prefix node_id * 2 ^ 48 + s.
Proof.
  pose proof (raft_client_id_prefix_range node_id) as Hp.
  exists (Z.max (Z.land sequence RAFT_CLIENT_ID_SEQUENCE_MASK) 1).
  change RAFT_CLIENT_ID_SEQUENCE_MASK with (Z.ones 48). rewrite Z.land_ones by lia.
  pose proof (Z.mod_pos_bound sequence (2 ^ 48)).
  assert (1 <= Z.max (sequence mod 2 ^ 48) 1 < 2 ^ 48) as Hs by lia. split; [done|].
  unfold raft_client_id_for_node. change RAFT_CLIENT_ID_SEQUENCE_MASK with (Z.ones 48).
  rewrite Z.land_ones by lia. unfold RAFT_CLIENT_ID_PREFIX_SHIFT.
  rewrite Z.mod_small by (rewrite Z.shiftl_mul_pow2 by lia; lia).
  by apply lor_shifted; [|lia].
Qed.

Lemma validate_prefixes_loop_ok m ps :
  validate_prefixes_loop m ps = RaftOk tt ->
  forall p, p ∈ ps ->
    (forall id, m !! raft_client_id_prefix (peer_id p) = Some id -> id = peer_id p) /\
    (forall q, q ∈ ps -> raft_client_id_prefix (peer_id p) = raft_client_id_prefix (peer_id q) ->
       peer_id p = peer_id q).
Proof.
  revert m. induction ps as [|a ps IH]; intros m Hok p Hp; [by apply not_elem_of_nil in Hp|].
  cbn [validate_prefixes_loop] in Hok.
  assert (exists m', validate_prefixes_loop m' ps = RaftOk tt /\ m ⊆ m' /\
            m' !! raft_client_id_prefix (peer_id a) = Some (peer_id a)) as (m' & Hok' & Hsub & Ha).
  { destruct (m !! _) as [prev|] eqn:He.
    - case_bool_decide as Hprev; [|done]. exists m. by rewrite He, Hprev.
    - eexists. split; [exact Hok|]. split; [by apply insert_subseteq|apply lookup_insert_eq]. }
  specialize (IH _ Hok').
  assert (forall q, q ∈ ps -> raft_client_id_prefix (peer_id a) = raft_client_id_prefix (peer_id q) ->
            peer_id a = peer_id q) as Haq.
  { intros q Hq Hpre. apply (IH q Hq). by rewrite <-Hpre. }
  apply elem_of_cons in Hp as [->|Hp].
  - split.
    + intros id Hid. rewrite (lookup_weaken _ _ _ _ Hid Hsub) in Ha. by injection Ha.
    + intros q [->|Hq]%elem_of_cons Hpre; [done|by apply Haq].
  - split.
    + intros id Hid. apply (IH p Hp). by eapply lookup_weaken.
    + intros q [->|Hq]%elem_of_cons Hpre; [symmetry; by apply Haq|by apply (IH p Hp)].
Qed.

(** Once the peers' prefixes are validated, two peers with different ids
    never hand out the same client id, whatever their sequence numbers; every
    id is a non-zero [u64]. *)
Theorem raft_client_ids_disjoint peers p q s1 s2 :
  validate_raft_client_id_prefixes peers = RaftOk tt -> p ∈ peers -> q ∈ peers ->
  peer_id p <> peer_id q ->
  raft_client_id_for_node (peer_id p) s1 <> raft_client_id_for_node (peer_id q) s2 /\
  0 < raft_client_id_for_node (peer_id p) s1 <= u64_max.
Proof.
  intros Hok Hp Hq Hne.
  destruct (raft_client_id_for_node_eq (peer_id p) s1) as (a & Ha & ->).
  destruct (raft_client_id_for_node_eq (peer_id q) s2) as (b & Hb & ->).
  pose proof (raft_client_id_prefix_range (peer_id p)).
  rewrite u64_max_eq. split; [|lia]. intros He. apply Hne.
  apply (validate_prefixes_loop_ok ∅ peers Hok p Hp); [done|]. lia.
Qed.

Lemma raft_client_ids_disjoint_witness :
  raft_client_id_for_node "node-1" 5 <> raft_client_id_for_node "node-2" 5.
Proof.
  refine (proj1 (raft_client_ids_disjoint
    [mkRaftPeerConfig "node-1" "10.0.0.1:7000"; mkRaftPeerConfig "node-2" "10.0.0.2:7000"]
    (mkRaftPeerConfig "node-1" "10.0.0.1:7000") (mkRaftPeerConfig "node-2" "10.0.0.2:7000")
    5 5 _ _ _ _)); [vm_compute; reflexivity|left|right; left|discriminate].
Defined.
