(* ===== verification/RaftCache.v ===== *)
(** * The client response cache of [BrokerRaft]

    [src/src/broker_raft.rs]: the cache that makes a retried request id apply at
    most once (3035-3075, 10585-10794, 23202-23233) and the validation of its
    snapshot entries (1665-1696).  Every method holds the cache's mutex from
    its first access to its return, so each is one step on the state. *)

From S2P Require Import Prelude Text Monad Protocol Queue BrokerTypes BrokerState Broker BrokerOps.
From S2P Require Import RaftQuorum RaftGrant.
From stdpp Require Import options.

Record CachedClientResponse : Type := mkCachedClientResponse {
  cr_request_fingerprint : string;
  cr_applied : bool;
  cr_response : option Response.t;
}.

Record ClientResponseCacheState : Type := mkClientResponseCacheState {
  cache_entries : gmap string CachedClientResponse;
  cache_order : list string;
}.

Definition ClientResponseCacheState_default : ClientResponseCacheState :=
  mkClientResponseCacheState ∅ [].

Record ClientResponseSnapshotEntry : Type := mkClientResponseSnapshotEntry {
  se_request_id : string;
  se_request_fingerprint : string;
  se_response : option Response.t;
}.

Inductive CachedClientResponseLookup : Type :=
| Missing
| Pending
| AppliedWithoutResponse
| Completed (response : Response.t).

(** The telemetry counters the cache's methods touch. *)
Record CacheTelemetry : Type := mkCacheTelemetry {
  client_cache_conflicts_total : Z;
  client_cache_completed_hits_total : Z;
  client_cache_pending_hits_total : Z;
}.

Definition add_conflict (t : CacheTelemetry) : CacheTelemetry :=
  mkCacheTelemetry (wrapping_add64 (client_cache_conflicts_total t) 1)
    (client_cache_completed_hits_total t) (client_cache_pending_hits_total t).
Definition add_completed_hit (t : CacheTelemetry) : CacheTelemetry :=
  mkCacheTelemetry (client_cache_conflicts_total t)
    (wrapping_add64 (client_cache_completed_hits_total t) 1) (client_cache_pending_hits_total t).
Definition add_pending_hit (t : CacheTelemetry) : CacheTelemetry :=
  mkCacheTelemetry (client_cache_conflicts_total t) (client_cache_completed_hits_total t)
    (wrapping_add64 (client_cache_pending_hits_total t) 1).

(** The part of [BrokerRaft] the cache's methods use; [cache_max_entries] is
    [config.client_response_cache_max_entries]. *)
Record CacheNode : Type := mkCacheNode {
  node_cache : ClientResponseCacheState;
  node_telemetry : CacheTelemetry;
  cache_max_entries : nat;
}.

Definition with_cache (c : ClientResponseCacheState) (n : CacheNode) : CacheNode :=
  mkCacheNode c (node_telemetry n) (cache_max_entries n).
Definition with_telemetry (f : CacheTelemetry -> CacheTelemetry) (n : CacheNode) : CacheNode :=
  mkCacheNode (node_cache n) (f (node_telemetry n)) (cache_max_entries n).

(** [client_response_cache_max_entries.max(1)] *)
Definition cache_limit (n : CacheNode) : nat := cache_max_entries n `max` 1.

(** ** Trimming *)

(** The entry may be evicted: missing, or applied with its response. *)
Definition evictable (entries : gmap string CachedClientResponse) (request_id : string) : bool :=
  match entries !! request_id with
  | None => true
  | Some cached => cr_applied cached && bool_decide (cr_response cached <> None)
  end.

(** [VecDeque::remove] *)
Definition remove_at {A} (i : nat) (l : list A) : list A := take i l ++ drop (S i) l.

(** One turn of the loop of [trim_client_response_cache]: [None] when it stops. *)
Definition trim_step (limit : nat) (c : ClientResponseCacheState)
    : option ClientResponseCacheState :=
  if bool_decide (size (cache_entries c) <= limit)%nat then None
  else
    match list_find (fun id => evictable (cache_entries c) id = true) (cache_order c) with
    | None => None
    | Some (evict_pos, oldest) =>
        Some (mkClientResponseCacheState (delete oldest (cache_entries c))
                (remove_at evict_pos (cache_order c)))
    end.

Fixpoint trim_loop (fuel : nat) (limit : nat) (c : ClientResponseCacheState)
    : ClientResponseCacheState :=
  match trim_step limit c with
  | None => c
  | Some c' => match fuel with O => c' | S fuel => trim_loop fuel limit c' end
  end.

(** [trim_client_response_cache]: every turn removes one id from the order. *)
Definition trim_client_response_cache (c : ClientResponseCacheState) (limit : nat)
    : ClientResponseCacheState :=
  trim_loop (length (cache_order c)) limit c.

(** ** The methods *)

(** [order.retain(|existing| existing != request_id)] *)
Definition retain_other (request_id : string) (order : list string) : list string :=
  filter (fun existing => existing <> request_id) order.

(** [order.push_back(id); entries.insert(id, entry)] *)
Definition push_entry (request_id : string) (entry : CachedClientResponse)
    (c : ClientResponseCacheState) : ClientResponseCacheState :=
  mkClientResponseCacheState (<[request_id := entry]> (cache_entries c))
    (cache_order c ++ [request_id]).

(** [observe_client_response_cache] *)
Definition observe_client_response_cache (c : ClientResponseCacheState) (response : Response.t)
    : ClientResponseCacheState :=
  let request_id := Response.correlation_uuid response in
  match cache_entries c !! request_id with
  | Some cached =>
      mkClientResponseCacheState
        (<[request_id := mkCachedClientResponse (cr_request_fingerprint cached) true
                           (Some response)]> (cache_entries c))
        (retain_other request_id (cache_order c) ++ [request_id])
  | None => c
  end.

(** [BrokerRaft::cached_client_response] *)
Definition cached_client_response (request_id request_fingerprint : string)
    : M CacheNode (RaftResult CachedClientResponseLookup) :=
  c ← gets node_cache;
  match cache_entries c !! request_id with
  | None => mret (RaftOk Missing)
  | Some cached =>
      if bool_decide (cr_request_fingerprint cached <> request_fingerprint) then
        modify (with_telemetry add_conflict) ;;
        mret (RaftErr (EIdempotencyKeyConflict request_id))
      else
        match cr_response cached with
        | Some response =>
            modify (with_telemetry add_completed_hit) ;;
            mret (RaftOk (Completed response))
        | None =>
            modify (with_telemetry add_pending_hit) ;;
            mret (RaftOk (if cr_applied cached then AppliedWithoutResponse else Pending))
        end
  end.

(** [BrokerRaft::begin_client_request_apply] *)
Definition begin_client_request_apply (request_id request_fingerprint : string)
    : M CacheNode (RaftResult bool) :=
  limit ← gets cache_limit;
  c ← gets node_cache;
  match cache_entries c !! request_id with
  | Some cached =>
      if bool_decide (cr_request_fingerprint cached <> request_fingerprint) then
        modify (with_telemetry add_conflict) ;;
        mret (RaftErr (EIdempotencyKeyConflict request_id))
      else if cr_applied cached then mret (RaftOk false)
      else
        modify (with_cache (mkClientResponseCacheState
          (<[request_id := mkCachedClientResponse (cr_request_fingerprint cached) true
                             (cr_response cached)]> (cache_entries c)) (cache_order c))) ;;
        mret (RaftOk true)
  | None =>
      modify (with_cache (trim_client_response_cache
        (push_entry request_id (mkCachedClientResponse request_fingerprint true None) c) limit)) ;;
      mret (RaftOk true)
  end.

(** [BrokerRaft::reserve_client_request_id] *)
Definition reserve_client_request_id (request_id request_fingerprint : string)
    : M CacheNode (RaftResult bool) :=
  limit ← gets cache_limit;
  c ← gets node_cache;
  match cache_entries c !! request_id with
  | Some cached =>
      if bool_decide (cr_request_fingerprint cached <> request_fingerprint) then
        modify (with_telemetry add_conflict) ;;
        mret (RaftErr (EIdempotencyKeyConflict request_id))
      else mret (RaftOk false)
  | None =>
      modify (with_cache (trim_client_response_cache
        (push_entry request_id (mkCachedClientResponse request_fingerprint false None) c) limit)) ;;
      mret (RaftOk true)
  end.

(** [BrokerRaft::release_unapplied_client_request_id] *)
Definition release_unapplied_client_request_id (request_id request_fingerprint : string)
    : M CacheNode unit :=
  c ← gets node_cache;
  let should_remove :=
    match cache_entries c !! request_id with
    | Some cached =>
        negb (cr_applied cached) && bool_decide (cr_request_fingerprint cached = request_fingerprint)
    | None => false
    end in
  if should_remove then
    modify (with_cache (mkClientResponseCacheState (delete request_id (cache_entries c))
                          (retain_other request_id (cache_order c))))
  else mret tt.

(** [BrokerRaft::release_unapplied_client_request_identities] *)
Definition release_unapplied_client_request_identities (identities : list (string * string))
    : M CacheNode unit :=
  for_each identities (fun ids => release_unapplied_client_request_id ids.1 ids.2).

(** [BrokerRaft::remember_client_response] *)
Definition remember_client_response (request_id request_fingerprint : string)
    (response : Response.t) : M CacheNode unit :=
  limit ← gets cache_limit;
  c ← gets node_cache;
  let order := if bool_decide (is_Some (cache_entries c !! request_id))
               then retain_other request_id (cache_order c) else cache_order c in
  modify (with_cache (trim_client_response_cache
    (push_entry request_id (mkCachedClientResponse request_fingerprint true (Some response))
       (mkClientResponseCacheState (cache_entries c) order)) limit)).

(** ** Snapshots of the cache *)

(** [BrokerRaft::client_response_snapshot_entries] *)
Definition client_response_snapshot_entries (c : ClientResponseCacheState)
    : list ClientResponseSnapshotEntry :=
  omap (fun request_id =>
    match cache_entries c !! request_id with
    | Some cached =>
        if cr_applied cached then
          Some (mkClientResponseSnapshotEntry request_id (cr_request_fingerprint cached)
                  (cr_response cached))
        else None
    | None => None
    end) (cache_order c).

(** [validate_snapshot_client_response_entries]: the loop from [fingerprints]. *)
Fixpoint validate_entries_loop (fingerprints : gmap string string)
    (entries : list ClientResponseSnapshotEntry) : RaftResult (gmap string string) :=
  match entries with
  | [] => RaftOk fingerprints
  | entry :: entries =>
      if bool_decide (se_request_id entry = ""%string) || bool_decide (se_request_fingerprint entry = ""%string)
      then RaftErr (EInvalidLog "snapshot client response entry has empty request id or fingerprint")
      else
        let mismatch :=
          match se_response entry with
          | Some response =>
              if bool_decide (Response.correlation_uuid response <> se_request_id entry)
              then Some (Response.correlation_uuid response) else None
          | None => None
          end in
        match mismatch with
        | Some found =>
            RaftErr (EInvalidLog ("snapshot client response entry `" +:+ se_request_id entry
              +:+ "` carries response correlation uuid `" +:+ found +:+ "`")%string)
        | None =>
            if bool_decide (is_Some (fingerprints !! se_request_id entry)) then
              RaftErr (EInvalidLog ("snapshot client response entry duplicates request id `"
                +:+ se_request_id entry +:+ "`")%string)
            else
              validate_entries_loop
                (<[se_request_id entry := se_request_fingerprint entry]> fingerprints) entries
        end
  end.

Definition validate_snapshot_client_response_entries (entries : list ClientResponseSnapshotEntry)
    : RaftResult (gmap string string) :=
  validate_entries_loop ∅ entries.

(** One turn of the loop of [restore_client_response_cache]. *)
Definition restore_entry (limit : nat) (c : ClientResponseCacheState)
    (entry : ClientResponseSnapshotEntry) : ClientResponseCacheState :=
  trim_client_response_cache
    (push_entry (se_request_id entry)
       (mkCachedClientResponse (se_request_fingerprint entry) true (se_response entry)) c) limit.

(** [BrokerRaft::restore_client_response_cache] *)
Definition restore_client_response_cache (entries : list ClientResponseSnapshotEntry)
    : M CacheNode (RaftResult unit) :=
  match validate_snapshot_client_response_entries entries with
  | RaftErr e => mret (RaftErr e)
  | RaftOk _ =>
      limit ← gets cache_limit;
      modify (with_cache (foldl (restore_entry limit) ClientResponseCacheState_default entries)) ;;
      mret (RaftOk tt)
  end.
