(* ===== verification/RaftCacheFacts.v ===== *)
(** * Properties of the client response cache

    The well-formedness invariant, what trimming may evict, the at-most-once
    guarantee and the snapshot round trip. *)

From S2P Require Import Prelude Text Monad Protocol Queue BrokerTypes BrokerState Broker BrokerOps.
From S2P Require Import RaftQuorum RaftGrant RaftCache.
From stdpp Require Import options.

(** ** The invariant: the order lists every entry once *)

Record cache_ok (c : ClientResponseCacheState) : Prop := {
  co_nodup : NoDup (cache_order c);
  co_dom : forall id, id ∈ cache_order c <-> is_Some (cache_entries c !! id);
}.

Lemma cache_ok_perm c : cache_ok c -> (map_to_list (cache_entries c)).*1 ≡ₚ cache_order c.
Proof.
  intros [Hnd Hd]. apply NoDup_Permutation; [apply NoDup_fst_map_to_list|done|].
  intros id. rewrite Hd, list_elem_of_fmap. split.
  - intros ([k v] & -> & Hin). exists v. by apply elem_of_map_to_list.
  - intros [v Hv]. exists (id, v). split; [done|]. by apply elem_of_map_to_list.
Qed.

Lemma cache_ok_length c : cache_ok c -> length (cache_order c) = size (cache_entries c).
Proof.
  intros H. by rewrite <-(Permutation_length (cache_ok_perm c H)), length_fmap, length_map_to_list.
Qed.

(** ** Trimming *)

(** The ids of a list that may be evicted. *)
Definition evictable_ids (c : ClientResponseCacheState) : list string :=
  filter (fun id => evictable (cache_entries c) id = true) (cache_order c).

(** [c] with the ids of [gone] evicted. *)
Definition evict (gone : list string) (c : ClientResponseCacheState) : ClientResponseCacheState :=
  mkClientResponseCacheState (filter (fun kv => kv.1 ∉ gone) (cache_entries c))
    (filter (fun id => id ∉ gone) (cache_order c)).

Lemma evict_nil c : evict [] c = c.
Proof.
  destruct c as [m o]. unfold evict. simpl. f_equal.
  - apply map_filter_id. intros k x _. apply not_elem_of_nil.
  - induction o as [|id o IH]; [done|].
    rewrite filter_cons_True by apply not_elem_of_nil. by f_equal.
Qed.

Lemma evict_cons id gone c :
  NoDup (cache_order c) -> evict gone (evict [id] c) = evict (id :: gone) c.
Proof.
  intros Hnd. unfold evict. simpl. f_equal.
  - rewrite map_filter_filter. apply map_filter_ext. intros k x _. simpl.
    rewrite !not_elem_of_cons. pose proof (not_elem_of_nil k). tauto.
  - rewrite list_filter_filter. apply list_filter_iff. intros k.
    rewrite !not_elem_of_cons. pose proof (not_elem_of_nil k). tauto.
Qed.

Lemma trim_step_evict limit c c' :
  cache_ok c -> trim_step limit c = Some c' ->
  exists id rest, evictable_ids c = id :: rest /\ c' = evict [id] c /\
    (limit < size (cache_entries c))%nat.
Proof.
  destruct c as [m o]. intros [Hnd _] Hs. unfold trim_step, evictable_ids, evict in *.
  cbn [cache_entries cache_order] in *. case_bool_decide as Hsz; [done|].
  destruct (list_find _ _) as [[pos id]|] eqn:Hf; [|done]. injection Hs as <-.
  apply list_find_Some in Hf as (Hl & Hev & Hbefore).
  assert (forall x, x ∈ take pos o -> evictable m x <> true) as Hnone.
  { intros x (i & Hi)%list_elem_of_lookup.
    apply lookup_take_Some in Hi as [Hi Hlt]. by eapply Hbefore. }
  pose proof (take_drop_middle _ _ _ Hl) as Hsplit. unfold remove_at.
  revert Hsplit Hnone. generalize (take pos o) as l1, (drop (S pos) o) as l2. clear Hbefore Hl.
  intros l1 l2 <- Hnone. apply NoDup_app in Hnd as (_ & Hnd & [Hid _]%NoDup_cons).
  exists id. eexists. rewrite !filter_app, filter_cons_True by done.
  rewrite (filter_none _ l1) by done. split_and!; [done| |lia]. f_equal.
  - apply map_eq. intros k. apply option_eq. intros v.
    rewrite map_lookup_filter_Some, lookup_delete_Some. simpl.
    rewrite list_elem_of_singleton. naive_solver.
  - rewrite filter_cons_False by (rewrite list_elem_of_singleton; auto).
    rewrite !filter_all; [done|..]; intros x Hx ->%list_elem_of_singleton; [done|].
    apply (Hnd id Hx). left.
Qed.

Lemma cache_ok_evict gone c : cache_ok c -> cache_ok (evict gone c).
Proof.
  intros [Hnd Hd]. split; simpl; [by apply NoDup_filter|].
  intros id. rewrite list_elem_of_filter, Hd. split.
  - intros [Hn [v Hv]]. exists v. by apply map_lookup_filter_Some.
  - intros [v [Hv Hn]%map_lookup_filter_Some]. split; [done|by exists v].
Qed.

Lemma evictable_evict gone c id :
  id ∉ gone -> evictable (cache_entries (evict gone c)) id = evictable (cache_entries c) id.
Proof.
  intros Hn. unfold evictable. simpl. destruct (cache_entries c !! id) as [v|] eqn:Hv.
  - by rewrite (proj2 (map_lookup_filter_Some _ _ id v) (conj Hv Hn)).
  - rewrite (proj2 (map_lookup_filter_None _ _ id)); [done|left; done].
Qed.

Lemma evictable_ids_evict id rest c :
  cache_ok c -> evictable_ids c = id :: rest -> evictable_ids (evict [id] c) = rest.
Proof.
  intros [Hnd _] He. assert (NoDup (evictable_ids c)) as Hnd' by by apply NoDup_filter.
  rewrite He in Hnd'. apply NoDup_cons in Hnd' as [Hid _].
  transitivity (filter (fun x => x ∉ [id]) (evictable_ids c)).
  - unfold evictable_ids. simpl. rewrite !list_filter_filter.
    apply list_filter_iff. intros x. split.
    + intros [H1 H2]. split; [done|]. by rewrite <-(evictable_evict [id] c x H2).
    + intros [H1 H2]. split; [|done]. by rewrite <-(evictable_evict [id] c x H1) in H2.
  - rewrite He, filter_cons_False by (rewrite list_elem_of_singleton; auto).
    apply filter_all. by intros x Hx ->%list_elem_of_singleton.
Qed.

Lemma size_evict_one id rest c :
  cache_ok c -> evictable_ids c = id :: rest ->
  size (cache_entries c) = S (size (cache_entries (evict [id] c))) /\
  length (cache_order c) = S (length (cache_order (evict [id] c))).
Proof.
  intros Hok He. rewrite !cache_ok_length by (try apply cache_ok_evict; done).
  assert (id ∈ cache_order c) as Hin.
  { assert (id ∈ evictable_ids c) as [_ H]%list_elem_of_filter by (rewrite He; left). done. }
  apply Hok in Hin as [v Hv].
  assert (cache_entries (evict [id] c) = delete id (cache_entries c)) as ->.
  { apply map_eq. intros k. apply option_eq. intros x. simpl.
    rewrite map_lookup_filter_Some, lookup_delete_Some. simpl.
    rewrite list_elem_of_singleton. naive_solver. }
  rewrite <-(insert_delete_id _ _ _ Hv) at 1 3.
  rewrite map_size_insert_None by apply lookup_delete_eq. done.
Qed.

Lemma trim_step_none limit c :
  trim_step limit c = None ->
  (size (cache_entries c) <= limit)%nat \/ evictable_ids c = [].
Proof.
  unfold trim_step. case_bool_decide; [by left|].
  destruct (list_find _ _) as [[]|] eqn:Hf; [done|]. right.
  apply list_find_None in Hf. unfold evictable_ids. apply filter_none.
  by apply Forall_forall.
Qed.

Lemma trim_loop_spec fuel limit c :
  cache_ok c -> (length (cache_order c) <= fuel)%nat ->
  exists gone rest, evictable_ids c = gone ++ rest /\ trim_loop fuel limit c = evict gone c /\
    ((size (cache_entries (evict gone c)) <= limit)%nat \/ rest = []) /\
    (gone = [] \/ (limit <= size (cache_entries (evict gone c)))%nat).
Proof.
  revert c. induction fuel as [|fuel IH]; intros c Hok Hfuel; cbn [trim_loop].
  all: destruct (trim_step limit c) as [c'|] eqn:Hs.
  2,4: exists [], (evictable_ids c); rewrite evict_nil; split_and!; auto; by apply trim_step_none.
  all: destruct (trim_step_evict _ _ _ Hok Hs) as (id & rest & He & -> & Hlim).
  all: destruct (size_evict_one _ _ _ Hok He) as [Hsz Hlen].
  { lia. }
  destruct (IH (evict [id] c)) as (gone & rest' & He' & -> & Hend & Hmin);
    [by apply cache_ok_evict|lia|].
  rewrite (evictable_ids_evict _ _ _ Hok He) in He'.
  rewrite evict_cons in * by apply Hok.
  exists (id :: gone), rest'. rewrite He, He'. split_and!; [done..|]. right.
  destruct Hmin as [->|]; [lia|done].
Qed.

(** Trimming terminates, evicts exactly the oldest completed requests,
    one at a time and never below the limit, and stops only when the limit is
    met or no completed request is left; requests whose response is not
    recorded yet are never evicted. *)
Theorem trim_evicts_oldest_completed limit c :
  cache_ok c ->
  exists gone rest, evictable_ids c = gone ++ rest /\
    trim_client_response_cache c limit = evict gone c /\
    ((size (cache_entries (trim_client_response_cache c limit)) <= limit)%nat \/ rest = []) /\
    (gone = [] \/ (limit <= size (cache_entries (trim_client_response_cache c limit)))%nat).
Proof.
  intros Hok. unfold trim_client_response_cache.
  destruct (trim_loop_spec (length (cache_order c)) limit c Hok) as (gone & rest & H1 & -> & H2);
    [done|eauto].
Qed.

(** ** Runs of the cache's methods *)

Inductive CacheOp : Type :=
| OpLookup (request_id request_fingerprint : string)
| OpBeginApply (request_id request_fingerprint : string)
| OpReserve (request_id request_fingerprint : string)
| OpRelease (request_id request_fingerprint : string)
| OpRemember (request_id request_fingerprint : string) (response : Response.t)
| OpObserve (response : Response.t)
| OpRestore (entries : list ClientResponseSnapshotEntry).

Definition exec_cache_op (op : CacheOp) : M CacheNode unit :=
  match op with
  | OpLookup id f => cached_client_response id f ;; mret tt
  | OpBeginApply id f => begin_client_request_apply id f ;; mret tt
  | OpReserve id f => reserve_client_request_id id f ;; mret tt
  | OpRelease id f => release_unapplied_client_request_id id f
  | OpRemember id f r => remember_client_response id f r
  | OpObserve r => modify (fun n => with_cache (observe_client_response_cache (node_cache n) r) n)
  | OpRestore entries => restore_client_response_cache entries ;; mret tt
  end.

Lemma cache_ok_default : cache_ok ClientResponseCacheState_default.
Proof.
  split; simpl; [constructor|]. intros id. rewrite lookup_empty. split.
  - by intros ?%not_elem_of_nil.
  - by intros [? ?].
Qed.

Lemma cache_ok_trim limit c : cache_ok c -> cache_ok (trim_client_response_cache c limit).
Proof.
  intros Hok. destruct (trim_loop_spec (length (cache_order c)) limit c Hok) as (? & ? & _ & He & _);
    [done|]. unfold trim_client_response_cache. rewrite He. by apply cache_ok_evict.
Qed.

(** Re-inserting an id at the end of the order. *)
Lemma cache_ok_push id e m o :
  NoDup o -> (forall k, k ∈ o <-> k <> id /\ is_Some (m !! k)) ->
  cache_ok (mkClientResponseCacheState (<[id := e]> m) (o ++ [id])).
Proof.
  intros Hnd Hd. split; simpl.
  - apply NoDup_app. split_and!; [done| |apply NoDup_singleton].
    intros k [Hk _]%Hd ->%list_elem_of_singleton. done.
  - intros k. rewrite elem_of_app, list_elem_of_singleton, Hd, lookup_insert_is_Some.
    destruct (decide (id = k)) as [->|]; naive_solver.
Qed.

Lemma cache_ok_push_entry id e c :
  cache_ok c -> cache_entries c !! id = None -> cache_ok (push_entry id e c).
Proof.
  intros [Hnd Hd] Hn. apply cache_ok_push; [done|]. intros k. rewrite Hd.
  split; [|tauto]. intros Hk. split; [|done]. intros ->. rewrite Hn in Hk. by destruct Hk.
Qed.

Lemma cache_ok_retain id e c :
  cache_ok c ->
  cache_ok (mkClientResponseCacheState (<[id := e]> (cache_entries c))
              (retain_other id (cache_order c) ++ [id])).
Proof.
  intros [Hnd Hd]. apply cache_ok_push; [by apply NoDup_filter|].
  intros k. unfold retain_other. by rewrite list_elem_of_filter, Hd.
Qed.

Lemma cache_ok_alter id e c :
  cache_ok c -> is_Some (cache_entries c !! id) ->
  cache_ok (mkClientResponseCacheState (<[id := e]> (cache_entries c)) (cache_order c)).
Proof.
  intros [Hnd Hd] Hs. split; simpl; [done|]. intros k.
  rewrite Hd, lookup_insert_is_Some. destruct (decide (id = k)) as [->|]; naive_solver.
Qed.

Lemma cache_ok_remove id c :
  cache_ok c ->
  cache_ok (mkClientResponseCacheState (delete id (cache_entries c))
              (retain_other id (cache_order c))).
Proof.
  intros [Hnd Hd]. split; simpl; [by apply NoDup_filter|]. intros k.
  unfold retain_other. rewrite list_elem_of_filter, Hd, lookup_delete_is_Some. naive_solver.
Qed.

(** *** Validation of snapshot entries *)

Definition entry_ok (e : ClientResponseSnapshotEntry) : Prop :=
  se_request_id e <> ""%string /\ se_request_fingerprint e <> ""%string /\
  forall r, se_response e = Some r -> Response.correlation_uuid r = se_request_id e.

(** The check of one entry, as the loop performs it. *)
Lemma validate_entries_cons m e es :
  (exists m', validate_entries_loop m (e :: es) = RaftOk m') <->
  entry_ok e /\ m !! se_request_id e = None /\
  exists m', validate_entries_loop
               (<[se_request_id e := se_request_fingerprint e]> m) es = RaftOk m'.
Proof.
  cbn [validate_entries_loop]. unfold entry_ok.
  destruct (bool_decide _ || bool_decide _) eqn:Hempty.
  { split; [by intros []|]. intros ((H1 & H2 & _) & _). by rewrite !bool_decide_eq_false_2 in Hempty. }
  apply orb_false_iff in Hempty as [H1%bool_decide_eq_false H2%bool_decide_eq_false].
  destruct (se_response e) as [r|] eqn:Hr; [case_bool_decide as Hc|].
  1: { split; [by intros []|]. intros ((_ & _ & H) & _). by destruct Hc; apply H. }
  all: case_bool_decide as Hdup;
    [split; [by intros []|]; intros (_ & Hn & _); rewrite Hn in Hdup; by destruct Hdup|].
  all: apply eq_None_not_Some in Hdup; split; [|naive_solver].
  all: intros; split_and!; try done; intros ? [= <-]; done.
Qed.

Lemma validate_entries_loop_iff m es :
  (exists m', validate_entries_loop m es = RaftOk m') <->
  Forall entry_ok es /\ NoDup (se_request_id <$> es) /\
  (forall e, e ∈ es -> m !! se_request_id e = None).
Proof.
  revert m. induction es as [|e es IH]; intros m.
  { split; [|by eexists]. intros _. split_and!; [constructor..|]. by intros e ?%not_elem_of_nil. }
  rewrite validate_entries_cons, IH, Forall_cons, fmap_cons, NoDup_cons. split.
  - intros (He & Hm & Hes & Hnd & Hfresh). split_and!; try done.
    + intros (x & Hx & Hin)%list_elem_of_fmap. specialize (Hfresh x Hin).
      rewrite <-Hx in Hfresh. by rewrite lookup_insert_eq in Hfresh.
    + intros x [->|Hx]%elem_of_cons; [done|]. specialize (Hfresh x Hx).
      by apply lookup_insert_None in Hfresh as [? _].
  - intros ((He & Hes) & (Hni & Hnd) & Hfresh). split_and!; try done; [apply Hfresh; left|].
    intros x Hx. apply lookup_insert_None. split; [apply Hfresh; by right|].
    intros Heq. apply Hni. rewrite Heq. by apply list_elem_of_fmap_2.
Qed.

Lemma validate_snapshot_entries_iff es :
  (exists m', validate_snapshot_client_response_entries es = RaftOk m') <->
  Forall entry_ok es /\ NoDup (se_request_id <$> es).
Proof.
  unfold validate_snapshot_client_response_entries. rewrite validate_entries_loop_iff.
  setoid_rewrite lookup_empty. naive_solver.
Qed.

(** *** The invariant is kept *)

Lemma trim_lookup limit c id e :
  cache_ok c -> cache_entries (trim_client_response_cache c limit) !! id = Some e ->
  cache_entries c !! id = Some e.
Proof.
  intros Hok. destruct (trim_loop_spec (length (cache_order c)) limit c Hok) as (? & ? & _ & He & _);
    [done|]. unfold trim_client_response_cache. rewrite He. simpl.
  by intros [? _]%map_lookup_filter_Some.
Qed.

(** What is not completed stays. *)
Lemma trim_keeps limit c id e :
  cache_ok c -> cache_entries c !! id = Some e -> evictable (cache_entries c) id = false ->
  cache_entries (trim_client_response_cache c limit) !! id = Some e.
Proof.
  intros Hok Hid Hev.
  destruct (trim_loop_spec (length (cache_order c)) limit c Hok) as (gone & rest & Hsplit & He & _);
    [done|]. unfold trim_client_response_cache. rewrite He. simpl.
  apply map_lookup_filter_Some. split; [done|]. simpl. intros Hin.
  assert (id ∈ evictable_ids c) as [Ht _]%list_elem_of_filter.
  { rewrite Hsplit. apply elem_of_app. by left. }
  congruence.
Qed.

Lemma trim_small limit c :
  (size (cache_entries c) <= limit)%nat -> trim_client_response_cache c limit = c.
Proof.
  intros Hs. unfold trim_client_response_cache.
  assert (trim_step limit c = None) as Hn by (unfold trim_step; by rewrite bool_decide_eq_true_2).
  destruct (length (cache_order c)); simpl; by rewrite Hn.
Qed.

Lemma cache_ok_restore limit es c :
  cache_ok c -> NoDup (se_request_id <$> es) ->
  (forall e, e ∈ es -> cache_entries c !! se_request_id e = None) ->
  cache_ok (foldl (restore_entry limit) c es).
Proof.
  revert c. induction es as [|e es IH]; intros c Hok Hnd Hfresh; [done|].
  rewrite fmap_cons, NoDup_cons in Hnd. destruct Hnd as [Hni Hnd]. simpl.
  assert (cache_ok (push_entry (se_request_id e)
    (mkCachedClientResponse (se_request_fingerprint e) true (se_response e)) c)) as Hok'.
  { apply cache_ok_push_entry; [done|]. apply Hfresh. left. }
  apply IH; [by apply cache_ok_trim|done|].
  intros x Hx. apply eq_None_not_Some. intros [v Hv%trim_lookup]; [|done]. simpl in Hv.
  apply lookup_insert_Some in Hv as [[Heq _]|[_ Hv]].
  - apply Hni. rewrite Heq. by apply list_elem_of_fmap_2.
  - rewrite Hfresh in Hv by by right. done.
Qed.

Ltac cache_step :=
  first [apply wp_bind | apply wp_gets | apply wp_modify | apply wp_ret].
Ltac cache_steps :=
  repeat (cache_step || (progress cbv beta; cbn [node_cache with_cache with_telemetry])).

(** Every method returns and keeps the invariant. *)
Lemma exec_cache_op_ok op n :
  cache_ok (node_cache n) -> wp (exec_cache_op op) (fun _ n' => cache_ok (node_cache n')) n.
Proof.
  intros Hok. destruct op as [id f|id f|id f|id f|id f r|r|es]; unfold exec_cache_op.
  - unfold cached_client_response. cache_steps. repeat case_match; by cache_steps.
  - unfold begin_client_request_apply. cache_steps. repeat case_match; cache_steps; try done.
    + by apply cache_ok_alter; [|eexists].
    + by apply cache_ok_trim, cache_ok_push_entry.
  - unfold reserve_client_request_id. cache_steps. repeat case_match; cache_steps; try done.
    by apply cache_ok_trim, cache_ok_push_entry.
  - unfold release_unapplied_client_request_id. cache_steps. case_match; cache_steps; [|done].
    by apply cache_ok_remove.
  - unfold remember_client_response. cache_steps. apply cache_ok_trim. case_bool_decide as Hs.
    + by apply (cache_ok_retain id _ (node_cache n)).
    + apply (cache_ok_push_entry id _ (node_cache n)); [done|by apply eq_None_not_Some].
  - cache_steps. unfold observe_client_response_cache. case_match; [by apply cache_ok_retain|done].
  - unfold restore_client_response_cache. cache_steps. case_match eqn:Hv; cache_steps; [|done].
    destruct (proj1 (validate_snapshot_entries_iff es)) as [_ Hnd]; [by eexists|].
    apply cache_ok_restore; [apply cache_ok_default|done|]. intros. apply lookup_empty.
Qed.

(** Every sequence of the cache's methods, in any order, returns, and
    leaves a cache whose eviction order lists exactly the cached request ids,
    each once. *)
Theorem cache_runs_ok ops n :
  cache_ok (node_cache n) ->
  exists n', for_each ops exec_cache_op n = Done tt n' /\ cache_ok (node_cache n').
Proof.
  intros Hok. assert (wp (for_each ops exec_cache_op) (fun _ n' => cache_ok (node_cache n')) n) as Hw.
  { apply (wp_for_each_inv (fun n => cache_ok (node_cache n))); [done|].
    intros op m _ Hm. by apply exec_cache_op_ok. }
  apply wp_done in Hw as ([] & n' & ? & ?). eauto.
Qed.

(** ** At most once

    A request that was applied and whose response is not recorded yet. *)

Definition unanswered (id f : string) (n : CacheNode) : Prop :=
  cache_entries (node_cache n) !! id = Some (mkCachedClientResponse f true None).

(** The operation neither records a response for [id] nor replaces the cache. *)
Definition leaves_unanswered (id : string) (op : CacheOp) : Prop :=
  match op with
  | OpRemember id' _ _ => id' <> id
  | OpObserve r => Response.correlation_uuid r <> id
  | OpRestore _ => False
  | _ => True
  end.

Lemma unanswered_push id f id' e limit c :
  id' <> id -> cache_entries c !! id = Some (mkCachedClientResponse f true None) ->
  cache_ok (push_entry id' e c) ->
  cache_entries (trim_client_response_cache (push_entry id' e c) limit) !! id =
    Some (mkCachedClientResponse f true None).
Proof.
  intros Hne Hid Hok. apply trim_keeps; [done|simpl; by rewrite lookup_insert_ne|].
  unfold evictable. simpl. by rewrite lookup_insert_ne, Hid.
Qed.

Lemma unanswered_op op id f n :
  cache_ok (node_cache n) -> unanswered id f n -> leaves_unanswered id op ->
  wp (exec_cache_op op) (fun _ n' => unanswered id f n') n.
Proof.
  unfold unanswered. intros Hok Hid Hop.
  destruct op as [id' f'|id' f'|id' f'|id' f'|id' f' r|r|es]; unfold exec_cache_op; [..|done].
  - unfold cached_client_response. cache_steps. repeat case_match; by cache_steps.
  - unfold begin_client_request_apply. cache_steps. destruct (decide (id' = id)) as [->|Hne].
    { rewrite Hid. cbn. case_bool_decide; by cache_steps. }
    repeat case_match; cache_steps; try done; [simpl; by rewrite lookup_insert_ne|].
    by apply unanswered_push, cache_ok_push_entry.
  - unfold reserve_client_request_id. cache_steps. destruct (decide (id' = id)) as [->|Hne].
    { rewrite Hid. cbn. case_bool_decide; by cache_steps. }
    repeat case_match; cache_steps; try done. by apply unanswered_push, cache_ok_push_entry.
  - unfold release_unapplied_client_request_id. cache_steps. destruct (decide (id' = id)) as [->|Hne].
    { rewrite Hid. cbn. by cache_steps. }
    case_match; cache_steps; [|done]. simpl. by rewrite lookup_delete_ne.
  - unfold remember_client_response. cache_steps. apply unanswered_push; [done..|].
    case_bool_decide as Hs; [by apply (cache_ok_retain id' _ (node_cache n))|].
    apply (cache_ok_push_entry id' _ (node_cache n)); [done|by apply eq_None_not_Some].
  - cache_steps. unfold observe_client_response_cache. simpl in Hop.
    case_match; [simpl; by rewrite lookup_insert_ne|done].
Qed.

Lemma unanswered_run ops id f n :
  cache_ok (node_cache n) -> unanswered id f n -> Forall (leaves_unanswered id) ops ->
  wp (for_each ops exec_cache_op)
    (fun _ n' => cache_ok (node_cache n') /\ unanswered id f n') n.
Proof.
  intros Hok Hid Hops. rewrite Forall_forall in Hops.
  apply (wp_for_each_inv (fun n => cache_ok (node_cache n) /\ unanswered id f n)); [done|].
  intros op m Hop [H1 H2]. apply wp_conj; [by apply exec_cache_op_ok|].
  apply unanswered_op; auto.
Qed.

Lemma begin_apply_eq id f n :
  begin_client_request_apply id f n =
  match cache_entries (node_cache n) !! id with
  | Some cached =>
      if bool_decide (cr_request_fingerprint cached <> f)
      then Done (RaftErr (EIdempotencyKeyConflict id)) (with_telemetry add_conflict n)
      else if cr_applied cached then Done (RaftOk false) n
      else Done (RaftOk true) (with_cache (mkClientResponseCacheState
             (<[id := mkCachedClientResponse (cr_request_fingerprint cached) true
                        (cr_response cached)]> (cache_entries (node_cache n)))
             (cache_order (node_cache n))) n)
  | None =>
      Done (RaftOk true) (with_cache (trim_client_response_cache
        (push_entry id (mkCachedClientResponse f true None) (node_cache n)) (cache_limit n)) n)
  end.
Proof.
  unfold begin_client_request_apply.
  rewrite (bind_done (gets cache_limit) _ n _ n eq_refl).
  rewrite (bind_done (gets node_cache) _ n _ n eq_refl).
  destruct (cache_entries (node_cache n) !! id) as [e|]; [|done].
  destruct (bool_decide _); [done|]. by destruct (cr_applied e).
Qed.

(** A request that was let through is applied and unanswered. *)
Lemma begin_apply_unanswered id f n n' :
  cache_ok (node_cache n) ->
  (forall e, cache_entries (node_cache n) !! id = Some e -> cr_response e = None) ->
  begin_client_request_apply id f n = Done (RaftOk true) n' ->
  cache_ok (node_cache n') /\ unanswered id f n'.
Proof.
  intros Hok Hnone Hbegin. split.
  - pose proof (exec_cache_op_ok (OpBeginApply id f) n Hok) as Hw. simpl in Hw.
    apply wp_done in Hw as (a & n1 & Hd & Hw). rewrite (bind_done _ _ _ _ _ Hbegin) in Hd.
    by injection Hd as <- <-.
  - revert Hbegin. rewrite begin_apply_eq. unfold unanswered.
    destruct (cache_entries (node_cache n) !! id) as [e|] eqn:He.
    + case_bool_decide as Hf; [done|]. destruct (cr_applied e); [done|].
      intros [= <-]. simpl. rewrite lookup_insert_eq, (Hnone e) by done. by rewrite Hf.
    + intros [= <-]. apply trim_keeps; [by apply cache_ok_push_entry|apply lookup_insert_eq|].
      unfold evictable. simpl. by rewrite lookup_insert_eq.
Qed.


(** ** Snapshots *)

Lemma snapshot_entries_cons m id o :
  client_response_snapshot_entries (mkClientResponseCacheState m (id :: o)) =
  match m !! id with
  | Some e => if cr_applied e
              then [mkClientResponseSnapshotEntry id (cr_request_fingerprint e) (cr_response e)]
              else []
  | None => []
  end ++ client_response_snapshot_entries (mkClientResponseCacheState m o).
Proof.
  unfold client_response_snapshot_entries. simpl.
  destruct (m !! id) as [e|]; [|done]. by destruct (cr_applied e).
Qed.

Lemma elem_of_snapshot_entries c x :
  x ∈ client_response_snapshot_entries c <->
  se_request_id x ∈ cache_order c /\
  cache_entries c !! se_request_id x =
    Some (mkCachedClientResponse (se_request_fingerprint x) true (se_response x)).
Proof.
  unfold client_response_snapshot_entries. rewrite list_elem_of_omap. split.
  - intros (id & Hin & Hx). destruct (cache_entries c !! id) as [[f [] r]|] eqn:He; try done.
    injection Hx as <-. done.
  - intros [Hin He]. exists (se_request_id x). split; [done|]. rewrite He. by destruct x.
Qed.

Lemma snapshot_entries_nodup c :
  NoDup (cache_order c) -> NoDup (se_request_id <$> client_response_snapshot_entries c).
Proof.
  destruct c as [m o]. simpl. induction o as [|id o IH]; [constructor|].
  rewrite NoDup_cons, snapshot_entries_cons. intros [Hid Hnd].
  destruct (m !! id) as [e|]; [|by apply IH]. destruct (cr_applied e); [|by apply IH].
  simpl. constructor; [|by apply IH].
  intros (x & Hx & [Hin _]%elem_of_snapshot_entries)%list_elem_of_fmap. simpl in *. congruence.
Qed.

(** The cache holding exactly the entries of a snapshot. *)
Definition cache_of (es : list ClientResponseSnapshotEntry) : ClientResponseCacheState :=
  mkClientResponseCacheState
    (list_to_map ((fun e => (se_request_id e,
       mkCachedClientResponse (se_request_fingerprint e) true (se_response e))) <$> es))
    (se_request_id <$> es).

Lemma lookup_cache_of es id e :
  NoDup (se_request_id <$> es) ->
  cache_entries (cache_of es) !! id = Some e <->
  exists x, x ∈ es /\ se_request_id x = id /\
    e = mkCachedClientResponse (se_request_fingerprint x) true (se_response x).
Proof.
  intros Hnd. simpl. rewrite <-elem_of_list_to_map.
  - rewrite list_elem_of_fmap. split; [|naive_solver].
    intros (x & [= -> ->] & Hx). by exists x.
  - rewrite <-list_fmap_compose. exact Hnd.
Qed.

Lemma cache_of_snoc es x :
  NoDup (se_request_id <$> es ++ [x]) ->
  push_entry (se_request_id x)
    (mkCachedClientResponse (se_request_fingerprint x) true (se_response x)) (cache_of es) =
  cache_of (es ++ [x]).
Proof.
  intros Hnd. unfold push_entry.
  transitivity (mkClientResponseCacheState (cache_entries (cache_of (es ++ [x])))
                  (cache_order (cache_of (es ++ [x])))); [|done].
  f_equal; [|simpl; by rewrite fmap_app]. apply map_eq. intros k. apply option_eq. intros e.
  assert (NoDup (se_request_id <$> es) /\ se_request_id x ∉ se_request_id <$> es) as [Hnd' Hx].
  { rewrite fmap_app in Hnd. apply NoDup_app in Hnd as (H1 & H2 & _). split; [done|].
    intros Hin. apply (H2 _ Hin). simpl. left. }
  rewrite lookup_insert_Some, !lookup_cache_of by done. setoid_rewrite elem_of_app.
  setoid_rewrite list_elem_of_singleton. split.
  - intros [[<- <-]|(Hne & y & Hy & <- & ->)]; eauto 6.
  - intros (y & [Hy| ->] & <- & ->); [right|by left]. split; [|eauto].
    intros Heq. apply Hx. rewrite Heq. by apply list_elem_of_fmap_2.
Qed.

Lemma restore_cache_of limit es es' :
  NoDup (se_request_id <$> es ++ es') -> (length (es ++ es') <= limit)%nat ->
  foldl (restore_entry limit) (cache_of es) es' = cache_of (es ++ es').
Proof.
  revert es. induction es' as [|x es' IH]; intros es Hnd Hlen; [by rewrite app_nil_r|].
  rewrite cons_middle, app_assoc in Hnd, Hlen |- *. simpl.
  unfold restore_entry at 2. rewrite cache_of_snoc, trim_small.
  - by apply IH.
  - simpl. rewrite map_size_list_to_map.
    + rewrite length_fmap. rewrite length_app in Hlen. lia.
    + rewrite <-list_fmap_compose. rewrite fmap_app in Hnd. by apply NoDup_app in Hnd as [? _].
  - rewrite fmap_app in Hnd. by apply NoDup_app in Hnd as [? _].
Qed.

Lemma snapshot_of_cache_of es :
  NoDup (se_request_id <$> es) -> client_response_snapshot_entries (cache_of es) = es.
Proof.
  intros Hnd. unfold client_response_snapshot_entries. simpl.
  assert (forall x, x ∈ es -> cache_entries (cache_of es) !! se_request_id x =
    Some (mkCachedClientResponse (se_request_fingerprint x) true (se_response x))) as Hall.
  { intros x Hx. apply lookup_cache_of; eauto. }
  revert Hall. simpl. generalize (list_to_map (M := gmap string CachedClientResponse)
    ((fun e => (se_request_id e, mkCachedClientResponse (se_request_fingerprint e) true
       (se_response e))) <$> es)) as m. intros m Hall. clear Hnd.
  induction es as [|x es IH]; [done|]. simpl. rewrite Hall by left. simpl.
  destruct x. simpl. f_equal. apply IH. intros y Hy. apply Hall. by right.
Qed.

(** Writing the cache into a snapshot and restoring it loses nothing that
    was applied: provided ids and fingerprints are non-empty and responses
    carry their request's id, the entries are accepted by the validation, the
    restored cache knows exactly the applied requests, in the same order and
    with the same responses, and a snapshot of it is the same snapshot. *)
Theorem cache_snapshot_roundtrip c n :
  cache_ok c -> Forall entry_ok (client_response_snapshot_entries c) ->
  (length (client_response_snapshot_entries c) <= cache_limit n)%nat ->
  exists n', restore_client_response_cache (client_response_snapshot_entries c) n =
      Done (RaftOk tt) n' /\
    cache_ok (node_cache n') /\
    client_response_snapshot_entries (node_cache n') = client_response_snapshot_entries c /\
    forall id e, cache_entries (node_cache n') !! id = Some e <->
      cache_entries c !! id = Some e /\ cr_applied e = true.
Proof.
  intros Hok He Hlen. set (es := client_response_snapshot_entries c) in *.
  assert (NoDup (se_request_id <$> es)) as Hnd by (apply snapshot_entries_nodup, Hok).
  destruct (proj2 (validate_snapshot_entries_iff es) (conj He Hnd)) as [m Hv].
  exists (with_cache (cache_of es) n). split_and!.
  - unfold restore_client_response_cache. rewrite Hv.
    rewrite (bind_done (gets cache_limit) _ n _ n eq_refl).
    by rewrite (restore_cache_of _ [] es).
  - change (cache_ok (cache_of ([] ++ es))).
    rewrite <-(restore_cache_of (cache_limit n) [] es) by done.
    apply cache_ok_restore; [apply cache_ok_default|done|]. intros. apply lookup_empty.
  - by apply snapshot_of_cache_of.
  - intros id e. simpl node_cache. rewrite lookup_cache_of by done. split.
    + intros (x & [Hin Hx]%elem_of_snapshot_entries & <- & ->). by rewrite Hx.
    + intros [Hid Ha]. exists (mkClientResponseSnapshotEntry id (cr_request_fingerprint e) (cr_response e)).
      destruct e as [f a r]. simpl in *. subst a. split_and!; try done.
      apply elem_of_snapshot_entries. simpl. split; [|done]. apply Hok. eauto.
Qed.

(** ** The theorems at a concrete cache

    Two completed requests and one reserved one, over a limit of one. *)

Definition ok_response (id : string) : Response.t := Response.Ok id.

Definition demo_cache_ops : list CacheOp :=
  [OpReserve "r1" "f1"; OpBeginApply "r1" "f1"; OpObserve (ok_response "r1");
   OpReserve "r2" "f2"; OpBeginApply "r2" "f2"].

Definition demo_node (limit : nat) : CacheNode :=
  mkCacheNode ClientResponseCacheState_default (mkCacheTelemetry 0 0 0) limit.

Definition demo_cache (limit : nat) (ops : list CacheOp) : CacheNode :=
  default (demo_node limit) (run_state (for_each ops exec_cache_op) (demo_node limit)).

Lemma demo_cache_ok limit ops : cache_ok (node_cache (demo_cache limit ops)).
Proof.
  unfold demo_cache, run_state. destruct (for_each _ _ _) as [[] n'| |] eqn:He; simpl;
    [|apply cache_ok_default..].
  assert (wp (for_each ops exec_cache_op) (fun _ n' => cache_ok (node_cache n')) (demo_node limit)) as Hw.
  { apply (wp_for_each_inv (fun n => cache_ok (node_cache n))); [apply cache_ok_default|].
    intros op m _ Hm. by apply exec_cache_op_ok. }
  apply wp_done in Hw as (a & n1 & Hd & Hok). rewrite He in Hd. by injection Hd as _ <-.
Qed.

Lemma trim_evicts_oldest_completed_witness :
  exists gone rest, evictable_ids (node_cache (demo_cache 5 demo_cache_ops)) = gone ++ rest /\
    trim_client_response_cache (node_cache (demo_cache 5 demo_cache_ops)) 1 =
      evict gone (node_cache (demo_cache 5 demo_cache_ops)).
Proof.
  destruct (trim_evicts_oldest_completed 1 (node_cache (demo_cache 5 demo_cache_ops)))
    as (gone & rest & H1 & H2 & _); [apply demo_cache_ok|].
  exists gone, rest. split; [exact H1|exact H2].
Defined.

Lemma cache_runs_ok_witness :
  exists n', for_each demo_cache_ops exec_cache_op (demo_node 1) = Done tt n' /\
    cache_ok (node_cache n').
Proof. apply cache_runs_ok. apply cache_ok_default. Defined.

Definition after_ops : list CacheOp :=
  [OpReserve "r3" "f3"; OpObserve (ok_response "r1"); OpRemember "r4" "f4" (ok_response "r4")].

Definition after_begin : CacheNode :=
  default (demo_node 1) (run_state (begin_client_request_apply "r2" "f2") (demo_node 1)).


Lemma cache_snapshot_roundtrip_witness :
  exists n', restore_client_response_cache
      (client_response_snapshot_entries (node_cache (demo_cache 5 demo_cache_ops))) (demo_node 5) =
      Done (RaftOk tt) n' /\
    client_response_snapshot_entries (node_cache n') =
      [mkClientResponseSnapshotEntry "r1" "f1" (Some (ok_response "r1"));
       mkClientResponseSnapshotEntry "r2" "f2" None].
Proof.
  destruct (cache_snapshot_roundtrip (node_cache (demo_cache 5 demo_cache_ops)) (demo_node 5))
    as (n' & H1 & _ & H2 & _).
  - apply demo_cache_ok.
  - vm_compute. repeat constructor; try discriminate. intros r [= <-]. reflexivity.
  - vm_compute. lia.
  - exists n'. split; [exact H1|]. rewrite H2. vm_compute. reflexivity.
Defined.
