(* ===== verification/RaftValidate.v ===== *)
(** * What the Raft layer accepts: peers, memberships and commands

    [src/src/broker_raft.rs]: the display of errors (2058-2130), the
    validation of peer ids, addresses, memberships, staged learners and
    replicated commands (1178-1366, 1398-1660) and the kinds of commands
    (2031-2056). *)

From S2P Require Import Prelude Text Monad Protocol RaftQuorum RaftQuorumFacts RaftGrant.
From stdpp Require Import options.

#[global] Instance RaftResult_ret : MRet RaftResult := fun A a => RaftOk a.
#[global] Instance RaftResult_bind : MBind RaftResult := fun A B f m =>
  match m with RaftOk a => f a | RaftErr e => RaftErr e end.

(** [Result::map_err] *)
Definition map_err {A} (f : BrokerRaftError -> BrokerRaftError) (r : RaftResult A) : RaftResult A :=
  match r with RaftOk a => RaftOk a | RaftErr e => RaftErr (f e) end.

Definition is_raft_ok {A} (r : RaftResult A) : bool :=
  match r with RaftOk _ => true | RaftErr _ => false end.

(** ** The display of errors *)

(** [impl Display for BrokerRaftError] *)
Definition error_display (e : BrokerRaftError) : string :=
  match e with
  | EIo message => "raft storage I/O error: " +:+ message
  | EJson message => "raft storage JSON error: " +:+ message
  | EInvalidConfig message => "invalid raft config: " +:+ message
  | EUnsupportedClientRequest message => "unsupported raft client request: " +:+ message
  | ECompactionAheadOfSnapshot through_index snapshot_index =>
      "cannot compact through index " +:+ pretty through_index
        +:+ "; latest snapshot only covers " +:+ pretty snapshot_index
  | ENoSnapshot => "cannot compact raft log before a snapshot has been written"
  | ENotLeader leader_id leader_addr =>
      "raft node is not leader; leader=" +:+ debug_option leader_id +:+ " addr="
        +:+ debug_option leader_addr
  | EQuorumUnavailable index votes quorum =>
      "raft quorum unavailable for log index " +:+ pretty index +:+ "; votes=" +:+ pretty votes
        +:+ " quorum=" +:+ pretty quorum
  | EClientProposalUncertain index votes quorum =>
      "raft client proposal outcome is unknown for log index " +:+ pretty index +:+ "; votes="
        +:+ pretty votes +:+ " quorum=" +:+ pretty quorum +:+ "; retry the same request id"
  | ESnapshotChecksumMissing index =>
      "raft snapshot at index " +:+ pretty index +:+ " is missing payload checksum"
  | ESnapshotChecksumMismatch index expected actual =>
      "raft snapshot payload checksum mismatch at index " +:+ pretty index +:+ "; expected="
        +:+ expected +:+ " actual=" +:+ actual
  | EBrokerSnapshot message => "raft broker snapshot error: " +:+ message
  | EInvalidAppendEntries message => "invalid raft append entries: " +:+ message
  | EAppendEntriesFrameTooLarge frame_bytes max_frame_bytes =>
      "single-entry AppendEntries RPC frame has " +:+ pretty frame_bytes
        +:+ " bytes, exceeding configured max frame bytes " +:+ pretty max_frame_bytes
  | EFrameSizeEstimateMismatch rpc estimated_bytes actual_bytes =>
      rpc +:+ " frame size estimator returned " +:+ pretty estimated_bytes
        +:+ " bytes but serialized body has " +:+ pretty actual_bytes +:+ " bytes"
  | EInvalidLog message => "invalid persisted raft log: " +:+ message
  | ELearnerCatchUpFailed peer_id target_index =>
      "raft learner `" +:+ peer_id +:+ "` did not catch up to index " +:+ pretty target_index
        +:+ " before promotion"
  | EClientQueueFull pending limit =>
      "raft leader client request queue full; pending=" +:+ pretty pending +:+ " limit="
        +:+ pretty limit
  | EIdempotencyKeyConflict request_id =>
      "raft request id `" +:+ request_id +:+ "` was reused with a different request payload"
  | ERpc message => "raft RPC error: " +:+ message
  end%string.

(** ** Peers *)

(** [validate_raft_node_id]: [None] is [Ok(())], [Some message] the error. *)
Definition validate_raft_node_id (id : string) : option string :=
  if bool_decide (id = EmptyString) then Some "cannot be empty"%string
  else if existsb is_whitespace (chars id) then Some "must not contain whitespace"%string
  else if existsb is_control (chars id) then Some "must not contain control characters"%string
  else if contains_byte SLASH id || contains_byte BACKSLASH id
  then Some "must not contain path separators"%string
  else None.

(** [validate_raft_node_id_set]: the loop from [normalized]. *)
Fixpoint node_id_set_loop (subject : string) (normalized : gset string) (ids : list string)
    : RaftResult (gset string) :=
  match ids with
  | [] => RaftOk normalized
  | id :: ids =>
      let id := trim id in
      match validate_raft_node_id id with
      | Some message =>
          RaftErr (EInvalidConfig (subject +:+ " id `" +:+ id +:+ "` is invalid: " +:+ message)%string)
      | None => node_id_set_loop subject ({[id]} ∪ normalized) ids
      end
  end.

Definition validate_raft_node_id_set (ids : list string) (subject : string)
    : RaftResult (gset string) :=
  if bool_decide (ids = []) then RaftErr (EInvalidConfig (subject +:+ " requires at least one id")%string)
  else node_id_set_loop subject ∅ ids.

(** [validate_raft_peer_addr_host] *)
Definition validate_raft_peer_addr_host (host : string) : option string :=
  if bool_decide (host = EmptyString) then Some "peer address host cannot be empty"%string
  else if existsb is_whitespace (chars host)
  then Some "peer address host must not contain whitespace"%string
  else if existsb is_control (chars host)
  then Some "peer address host must not contain control characters"%string
  else if contains_byte SLASH host || contains_byte BACKSLASH host
  then Some "peer address host must not contain URL or path separators"%string
  else None.

(** [validate_raft_peer_addr_port] *)
Definition validate_raft_peer_addr_port (port : string) : option string :=
  if bool_decide (port = EmptyString) then Some "peer address port cannot be empty"%string
  else
    match parse_u16 port with
    | None => Some "peer address port must be an integer from 1 to 65535"%string
    | Some port =>
        if bool_decide (port = 0) then Some "peer address port must be greater than 0"%string
        else None
    end.

(** [a?; b] on two such checks. *)
Definition and_then (a b : option string) : option string :=
  match a with Some message => Some message | None => b end.

(** [validate_raft_peer_addr_for_transport] *)
Definition validate_raft_peer_addr_for_transport (addr : string) (allow_memory_peer_addrs : bool)
    : option string :=
  match strip_prefix "memory://" addr with
  | Some node_name =>
      if negb allow_memory_peer_addrs then
        Some "memory:// peer addresses are only valid for the in-memory Raft simulator"%string
      else
        match validate_raft_node_id node_name with
        | Some message => Some ("memory:// peer address node name " +:+ message)%string
        | None => None
        end
  | None =>
      match strip_prefix "[" addr with
      | Some after_open =>
          match split_once CLOSE_BRACKET after_open with
          | None => Some "bracketed IPv6 peer address must include a closing `]`"%string
          | Some (host, suffix) =>
              and_then (validate_raft_peer_addr_host host)
                (match strip_prefix ":" suffix with
                 | None | Some EmptyString =>
                     Some "bracketed IPv6 peer address must be formatted as [addr]:port"%string
                 | Some port => validate_raft_peer_addr_port port
                 end)
          end
      | None =>
          match rsplit_once COLON addr with
          | None => Some "peer address must be formatted as host:port"%string
          | Some (host, port) =>
              and_then (validate_raft_peer_addr_host host)
                (if contains_byte COLON host then
                   Some "IPv6 peer addresses must be formatted as [addr]:port"%string
                 else if contains_byte OPEN_BRACKET host || contains_byte CLOSE_BRACKET host then
                   Some "peer address host must not contain brackets unless it is [addr]:port"%string
                 else validate_raft_peer_addr_port port)
          end
      end
  end.

(** The loop the two peer-list validations share, from the ids, addresses and
    peers already seen; [subject] is [raft peer] or [raft learner], and the
    message of an empty address is the caller's. *)
Fixpoint validate_peers_loop (subject : string) (empty_addr : string -> string)
    (allow_memory_peer_addrs : bool) (ids addrs : gset string) (normalized : list RaftPeerConfig)
    (peers : list RaftPeerConfig) : RaftResult (list RaftPeerConfig) :=
  match peers with
  | [] => RaftOk normalized
  | peer :: peers =>
      let peer := mkRaftPeerConfig (trim (peer_id peer)) (trim (peer_addr peer)) in
      if bool_decide (peer_id peer = EmptyString) then
        RaftErr (EInvalidConfig (subject +:+ " id cannot be empty")%string)
      else
        match validate_raft_node_id (peer_id peer) with
        | Some message =>
            RaftErr (EInvalidConfig
              (subject +:+ " id `" +:+ peer_id peer +:+ "` is invalid: " +:+ message)%string)
        | None =>
            if bool_decide (peer_addr peer = EmptyString) then
              RaftErr (EInvalidConfig (empty_addr (peer_id peer)))
            else
              match validate_raft_peer_addr_for_transport (peer_addr peer) allow_memory_peer_addrs with
              | Some message =>
                  RaftErr (EInvalidConfig
                    (subject +:+ " `" +:+ peer_id peer +:+ "` has invalid addr `"
                       +:+ peer_addr peer +:+ "`: " +:+ message)%string)
              | None =>
                  if bool_decide (peer_id peer ∈ ids) then
                    RaftErr (EInvalidConfig
                      (subject +:+ " id `" +:+ peer_id peer +:+ "` appears more than once")%string)
                  else if bool_decide (peer_addr peer ∈ addrs) then
                    RaftErr (EInvalidConfig
                      (subject +:+ " addr `" +:+ peer_addr peer +:+ "` appears more than once")%string)
                  else
                    validate_peers_loop subject empty_addr allow_memory_peer_addrs
                      ({[peer_id peer]} ∪ ids) ({[peer_addr peer]} ∪ addrs)
                      (normalized ++ [peer]) peers
              end
        end
  end.

(** [validate_membership_peers_for_transport] *)
Definition validate_membership_peers_for_transport (peers : list RaftPeerConfig)
    (allow_memory_peer_addrs : bool) : RaftResult (list RaftPeerConfig) :=
  if bool_decide (length peers < 3)%nat then
    RaftErr (EInvalidConfig "raft membership requires at least 3 peers for failover")
  else
    normalized ← validate_peers_loop "raft peer"
      (fun id => "raft peer `" +:+ id +:+ "` has an empty addr")%string
      allow_memory_peer_addrs ∅ ∅ [] peers;
    let normalized := normalize_peers normalized in
    _ ← validate_raft_client_id_prefixes normalized;
    RaftOk normalized.

(** [validate_staged_learner_peer_shapes_for_transport] *)
Definition validate_staged_learner_peer_shapes_for_transport (learners : list RaftPeerConfig)
    (allow_memory_peer_addrs : bool) : RaftResult (list RaftPeerConfig) :=
  normalized ← validate_peers_loop "raft learner"
    (fun id => "raft learner `" +:+ id +:+ "` addr cannot be empty")%string
    allow_memory_peer_addrs ∅ ∅ [] learners;
  let normalized := normalize_peers normalized in
  _ ← validate_raft_client_id_prefixes normalized;
  RaftOk normalized.

(** The loop of [validate_staged_learner_peers_for_transport]. *)
Fixpoint learners_not_active_loop (active_ids active_addrs : gset string)
    (learners : list RaftPeerConfig) : RaftResult unit :=
  match learners with
  | [] => RaftOk tt
  | peer :: learners =>
      if bool_decide (peer_id peer ∈ active_ids) then
        RaftErr (EInvalidConfig
          ("raft learner `" +:+ peer_id peer +:+ "` is already an active voter")%string)
      else if bool_decide (peer_addr peer ∈ active_addrs) then
        RaftErr (EInvalidConfig
          ("raft learner addr `" +:+ peer_addr peer +:+ "` is already used by an active voter")%string)
      else learners_not_active_loop active_ids active_addrs learners
  end.

(** [validate_staged_learner_peers_for_transport] *)
Definition validate_staged_learner_peers_for_transport (learners active_peers : list RaftPeerConfig)
    (allow_memory_peer_addrs : bool) : RaftResult (list RaftPeerConfig) :=
  normalized ← validate_staged_learner_peer_shapes_for_transport learners allow_memory_peer_addrs;
  _ ← learners_not_active_loop (list_to_set (peer_id <$> active_peers))
        (list_to_set (peer_addr <$> active_peers)) normalized;
  _ ← validate_raft_client_id_prefixes (active_peers ++ normalized);
  RaftOk normalized.

(** The loop of [validate_joint_membership_cross_addresses]. *)
Fixpoint cross_addresses_loop (old_by_id old_by_addr : gmap string string)
    (new_peers : list RaftPeerConfig) : RaftResult unit :=
  match new_peers with
  | [] => RaftOk tt
  | peer :: new_peers =>
      let shared :=
        match old_by_addr !! peer_addr peer with
        | Some old_id =>
            if bool_decide (old_id <> peer_id peer) then
              RaftErr (EInvalidConfig
                ("raft joint membership addr `" +:+ peer_addr peer +:+ "` is shared by peer `"
                   +:+ old_id +:+ "` in the old config and peer `" +:+ peer_id peer
                   +:+ "` in the new config")%string)
            else cross_addresses_loop old_by_id old_by_addr new_peers
        | None => cross_addresses_loop old_by_id old_by_addr new_peers
        end in
      match old_by_id !! peer_id peer with
      | Some old_addr =>
          if bool_decide (old_addr <> peer_addr peer) then
            RaftErr (EInvalidConfig
              ("raft joint membership peer `" +:+ peer_id peer +:+ "` changes addr from `"
                 +:+ old_addr +:+ "` to `" +:+ peer_addr peer
                 +:+ "`; use a new peer id for replacement endpoints so id-based quorums cannot count one ack for two addresses")%string)
          else shared
      | None => shared
      end
  end.

(** [validate_joint_membership_cross_addresses] *)
Definition validate_joint_membership_cross_addresses (old_peers new_peers : list RaftPeerConfig)
    : RaftResult unit :=
  cross_addresses_loop
    (foldl (fun m peer => <[peer_id peer := peer_addr peer]> m) ∅ old_peers)
    (foldl (fun m peer => <[peer_addr peer := peer_id peer]> m) ∅ old_peers)
    new_peers.

(** [validate_raft_membership_for_transport] *)
Definition validate_raft_membership_for_transport (membership : RaftMembership)
    (allow_memory_peer_addrs : bool) : RaftResult RaftMembership :=
  match membership with
  | Simple peers =>
      peers ← validate_membership_peers_for_transport peers allow_memory_peer_addrs;
      RaftOk (Simple peers)
  | Joint old_peers new_peers =>
      old_peers ← validate_membership_peers_for_transport old_peers allow_memory_peer_addrs;
      new_peers ← validate_membership_peers_for_transport new_peers allow_memory_peer_addrs;
      _ ← validate_joint_membership_cross_addresses old_peers new_peers;
      _ ← validate_raft_client_id_prefixes (old_peers ++ new_peers);
      RaftOk (Joint old_peers new_peers)
  end.

(** ** Commands *)

(** [validate_replicated_client_request] *)
Definition validate_replicated_client_request (request : Request.t) : RaftResult unit :=
  map_err (fun err => EInvalidAppendEntries
    ("unsupported replicated client request: " +:+ error_display err)%string)
    (ensure_replicable_raft_client_request request).

(** [request_fingerprint] hashes the request's JSON text: [serde_json] and
    [sha2] are not part of the sources. *)
Class RequestDigest : Type := {
  request_fingerprint : Request.t -> string;
}.

(** [validate_raft_command] *)
Definition validate_raft_command `{RequestDigest} (command : RaftCommand) : RaftResult unit :=
  match command with
  | SetMembership membership =>
      _ ← validate_raft_membership_for_transport membership true; RaftOk tt
  | SetStagedLearners learners =>
      _ ← validate_staged_learner_peers_for_transport learners [] true; RaftOk tt
  | ClientRequestWithIdentity _ request _ request_id fingerprint =>
      _ ← validate_replicated_client_request request;
      if bool_decide (request_id = EmptyString) then
        RaftErr (EInvalidAppendEntries "client request identity has empty request id")
      else if bool_decide (fingerprint = EmptyString) then
        RaftErr (EInvalidAppendEntries "client request identity has empty request fingerprint")
      else if bool_decide (fingerprint <> request_fingerprint request) then
        RaftErr (EInvalidAppendEntries
          "client request identity fingerprint does not match request payload")
      else RaftOk tt
  | ClientRequest _ request _ => validate_replicated_client_request request
  | Noop | DropClient _ => RaftOk tt
  end.

(** [raft_command_kind] *)
Definition raft_command_kind (command : RaftCommand) : string :=
  match command with
  | Noop => "noop"
  | ClientRequest _ _ _ => "client_request"
  | ClientRequestWithIdentity _ _ _ _ _ => "client_request_with_identity"
  | DropClient _ => "drop_client"
  | SetMembership _ => "set_membership"
  | SetStagedLearners _ => "set_staged_learners"
  end.

(** [raft_command_requires_active_quorum_admission] *)
Definition raft_command_requires_active_quorum_admission (command : RaftCommand) : bool :=
  match command with
  | ClientRequest _ _ _ | ClientRequestWithIdentity _ _ _ _ _ => true
  | _ => false
  end.

(** [raft_commands_require_active_quorum_admission] *)
Definition raft_commands_require_active_quorum_admission (commands : list RaftCommand) : bool :=
  existsb raft_command_requires_active_quorum_admission commands.

(** * What the validation of a membership accepts

    A list of peers is accepted exactly when there are at least three, their
    trimmed ids and addresses are well formed and distinct, and no two derive
    the same client-id prefix; what is returned is accepted unchanged. *)

Lemma raft_bind_ok {A B} (m : RaftResult A) (f : A -> RaftResult B) b :
  m ≫= f = RaftOk b <-> exists a, m = RaftOk a /\ f a = RaftOk b.
Proof. destruct m; unfold mbind, RaftResult_bind; naive_solver. Qed.

(** ** Sorting by id *)

Lemma by_id_lookup (peers : list RaftPeerConfig) (m : gmap string RaftPeerConfig) id p :
  NoDup (peer_id <$> peers) -> (forall p, p ∈ peers -> m !! peer_id p = None) ->
  foldl (fun by_id peer => <[peer_id peer := peer]> by_id) m peers !! id = Some p <->
  (p ∈ peers /\ peer_id p = id) \/ m !! id = Some p.
Proof.
  revert m. induction peers as [|q peers IH]; intros m Hnd Hm; simpl.
  { split; [by right|intros [[[]%elem_of_nil _]|]; done]. }
  apply NoDup_cons in Hnd as [Hq Hnd]. rewrite IH; [|done|].
  - destruct (decide (id = peer_id q)) as [->|Hne].
    + rewrite lookup_insert_eq, elem_of_cons, (Hm q) by by left. split.
      * intros [[Hp He]|[= <-]]; [|by left; split; [left|]].
        exfalso. apply Hq. rewrite <-He. by apply list_elem_of_fmap_2.
      * intros [[[->|Hp] He]|]; [by right| |done]. left. by split.
    + rewrite lookup_insert_ne by done. rewrite elem_of_cons. naive_solver.
  - intros p' Hp'. rewrite lookup_insert_ne; [apply Hm; by right|].
    intros He. apply Hq. rewrite He. by apply list_elem_of_fmap_2.
Qed.

Lemma normalize_perm peers : NoDup (peer_id <$> peers) -> normalize_peers peers ≡ₚ peers.
Proof.
  intros Hnd. unfold normalize_peers, into_values. set (m := foldl _ _ _).
  assert (forall id p, m !! id = Some p <-> p ∈ peers /\ peer_id p = id) as Hm.
  { intros id p. unfold m. rewrite by_id_lookup by done. rewrite lookup_empty. naive_solver. }
  rewrite merge_sort_Permutation. apply NoDup_Permutation.
  - apply NoDup_fmap_2_strong; [|apply NoDup_map_to_list].
    intros [i p] [j q] Hi%elem_of_map_to_list Hj%elem_of_map_to_list He. simpl in *. subst q.
    apply Hm in Hi as [_ <-]. by apply Hm in Hj as [_ <-].
  - by eapply NoDup_fmap_1.
  - intros p. rewrite list_elem_of_fmap. split.
    + intros ([i q] & -> & Hi%elem_of_map_to_list). by apply Hm in Hi as [? _].
    + intros Hp. exists (peer_id p, p). split; [done|]. apply elem_of_map_to_list. by apply Hm.
Qed.

Lemma normalize_ext peers peers' :
  NoDup (peer_id <$> peers) -> peers ≡ₚ peers' -> normalize_peers peers = normalize_peers peers'.
Proof.
  intros Hnd Hp. unfold normalize_peers. f_equal. apply map_eq. intros id. apply option_eq. intros p.
  rewrite !by_id_lookup; [by rewrite lookup_empty, Hp|by rewrite <-Hp|done..].
Qed.

Lemma normalize_idemp peers :
  NoDup (peer_id <$> peers) -> normalize_peers (normalize_peers peers) = normalize_peers peers.
Proof.
  intros Hnd. symmetry. apply normalize_ext; [done|]. symmetry. by apply normalize_perm.
Qed.

(** ** The specification *)

Definition trim_peer (p : RaftPeerConfig) : RaftPeerConfig :=
  mkRaftPeerConfig (trim (peer_id p)) (trim (peer_addr p)).

Definition peer_wf (allow : bool) (p : RaftPeerConfig) : Prop :=
  validate_raft_node_id (peer_id p) = None /\ peer_addr p <> EmptyString /\
  validate_raft_peer_addr_for_transport (peer_addr p) allow = None.

(** No two peers share an id, an address or a client-id prefix. *)
Record distinct_peers (peers : list RaftPeerConfig) : Prop := {
  dp_ids : NoDup (peer_id <$> peers);
  dp_addrs : NoDup (peer_addr <$> peers);
  dp_prefixes : forall p q, p ∈ peers -> q ∈ peers ->
    raft_client_id_prefix (peer_id p) = raft_client_id_prefix (peer_id q) -> peer_id p = peer_id q;
}.

Definition acceptable (allow : bool) (peers : list RaftPeerConfig) : Prop :=
  (3 <= length peers)%nat /\ Forall (peer_wf allow) peers /\ distinct_peers peers.

Lemma node_id_not_empty id : validate_raft_node_id id = None -> id <> EmptyString.
Proof. unfold validate_raft_node_id. intros H ->. done. Qed.

Lemma peers_loop_ok subject empty_addr allow ids addrs normalized peers out :
  validate_peers_loop subject empty_addr allow ids addrs normalized peers = RaftOk out <->
  out = normalized ++ (trim_peer <$> peers) /\ Forall (peer_wf allow) (trim_peer <$> peers) /\
  NoDup (peer_id <$> (trim_peer <$> peers)) /\ NoDup (peer_addr <$> (trim_peer <$> peers)) /\
  Forall (fun p => (peer_id p ∉ ids) /\ (peer_addr p ∉ addrs)) (trim_peer <$> peers).
Proof.
  revert ids addrs normalized. induction peers as [|p peers IH]; intros ids addrs normalized.
  { simpl. rewrite app_nil_r. split; [|by intros [-> _]]. intros [= ->].
    split_and!; try constructor; done. }
  rewrite !fmap_cons, !NoDup_cons, !Forall_cons. cbn [validate_peers_loop]. cbv zeta.
  change (mkRaftPeerConfig (trim (peer_id p)) (trim (peer_addr p))) with (trim_peer p).
  set (q := trim_peer p).
  assert (peer_wf allow q /\ (peer_id q ∉ ids) /\ (peer_addr q ∉ addrs) \/
    ~ (peer_wf allow q /\ (peer_id q ∉ ids) /\ (peer_addr q ∉ addrs))) as Hq.
  { unfold peer_wf. destruct (validate_raft_node_id (peer_id q)); [right; naive_solver|].
    destruct (validate_raft_peer_addr_for_transport (peer_addr q) allow); [right; naive_solver|].
    destruct (decide (peer_addr q = EmptyString)), (decide (peer_id q ∈ ids)),
      (decide (peer_addr q ∈ addrs)); naive_solver. }
  destruct Hq as [((H1 & H2 & H3) & H4 & H5)|Hq].
  - rewrite bool_decide_eq_false_2 by by apply node_id_not_empty. rewrite H1.
    rewrite bool_decide_eq_false_2 by done. rewrite H3, !bool_decide_eq_false_2 by done.
    rewrite IH, <-app_assoc. simpl. rewrite !Forall_forall.
    setoid_rewrite elem_of_union. setoid_rewrite elem_of_singleton. unfold peer_wf.
    rewrite !list_elem_of_fmap. split.
    + intros (-> & Hw & Hi & Ha & Hs). split; [done|]. split; [done|]. split; [|split; [|split]].
      4: { intros x Hx. destruct (Hs x Hx) as [Hs1 Hs2]. split; intros ?; [apply Hs1|apply Hs2]; by right. }
      * split; [|done]. intros (x & He & Hx). destruct (Hs x Hx) as [Hs1 _]. apply Hs1. left. congruence.
      * split; [|done]. intros (x & He & Hx). destruct (Hs x Hx) as [_ Hs2]. apply Hs2. left. congruence.
      * done.
    + intros (-> & [_ Hw] & [Hni Hi] & [Hna Ha] & _ & Hs). split_and!; try done.
      intros x Hx. destruct (Hs x Hx). split.
      * intros [He|?]; [|done]. apply Hni. by exists x.
      * intros [He|?]; [|done]. apply Hna. by exists x.
  - split; [|intros (_ & [? _] & _ & _ & [[? ?] _]); by destruct Hq].
    case_bool_decide; [done|]. destruct (validate_raft_node_id (peer_id q)) eqn:E1; [done|].
    case_bool_decide; [done|].
    destruct (validate_raft_peer_addr_for_transport (peer_addr q) allow) eqn:E2; [done|].
    repeat case_bool_decide; try done. destruct Hq. by unfold peer_wf.
Qed.

Lemma prefixes_loop_accepts (m : gmap Z string) peers :
  (forall p id, p ∈ peers -> m !! raft_client_id_prefix (peer_id p) = Some id -> id = peer_id p) ->
  (forall p q, p ∈ peers -> q ∈ peers ->
     raft_client_id_prefix (peer_id p) = raft_client_id_prefix (peer_id q) -> peer_id p = peer_id q) ->
  validate_prefixes_loop m peers = RaftOk tt.
Proof.
  revert m. induction peers as [|p peers IH]; intros m Hm Hp; [done|]. cbn [validate_prefixes_loop]. cbv zeta.
  assert (forall q, q ∈ peers -> q ∈ p :: peers) as Hin by (intros; by right).
  destruct (m !! raft_client_id_prefix (peer_id p)) as [id|] eqn:Hl.
  - rewrite bool_decide_eq_true_2 by (apply (Hm p); [left|done]). apply IH; eauto.
  - apply IH; [|eauto]. intros q id Hq. destruct (decide (raft_client_id_prefix (peer_id q) =
      raft_client_id_prefix (peer_id p))) as [He|Hne].
    + rewrite He, lookup_insert_eq. intros [= <-]. symmetry. apply (Hp q p); [auto|left|done].
    + rewrite lookup_insert_ne by done. eauto.
Qed.

Lemma prefixes_accepts peers :
  validate_raft_client_id_prefixes peers = RaftOk tt <->
  forall p q, p ∈ peers -> q ∈ peers ->
    raft_client_id_prefix (peer_id p) = raft_client_id_prefix (peer_id q) -> peer_id p = peer_id q.
Proof.
  split.
  - intros H p q Hp Hq. by apply (validate_prefixes_loop_ok ∅ peers H p Hp).
  - intros H. by apply prefixes_loop_accepts.
Qed.

Lemma membership_peers_ok allow peers out :
  validate_membership_peers_for_transport peers allow = RaftOk out <->
  acceptable allow (trim_peer <$> peers) /\ out = normalize_peers (trim_peer <$> peers).
Proof.
  unfold validate_membership_peers_for_transport, acceptable. rewrite length_fmap.
  case_bool_decide as Hlen; [split; [done|intros [[? _] _]; lia]|].
  rewrite raft_bind_ok. setoid_rewrite peers_loop_ok. rewrite app_nil_l. split.
  - intros (l & (-> & Hw & Hi & Ha & _) & H). apply raft_bind_ok in H as ([] & Hp & [= <-]).
    rewrite prefixes_accepts in Hp.
    split_and!; [lia|done| |done]. split; [done..|]. intros p q. rewrite <-(normalize_perm _ Hi). apply Hp.
  - intros [(_ & Hw & [Hi Ha Hp]) ->]. eexists. split.
    + split_and!; try done. apply Forall_forall. set_solver.
    + apply raft_bind_ok. exists tt. split; [|done]. apply prefixes_accepts. intros p q.
      rewrite (normalize_perm _ Hi). apply Hp.
Qed.

(** What is accepted over the network is accepted in memory. *)
Lemma peer_wf_memory allow p : peer_wf allow p -> peer_wf true p.
Proof.
  intros (H1 & H2 & H3). split_and!; [done..|]. revert H3. unfold validate_raft_peer_addr_for_transport.
  destruct (strip_prefix "memory://" (peer_addr p)); [|done]. by destruct allow.
Qed.

Lemma trim_peer_idemp p : trim_peer (trim_peer p) = trim_peer p.
Proof. unfold trim_peer. simpl. by rewrite !trim_trim. Qed.

Lemma trim_normalized peers :
  NoDup (peer_id <$> (trim_peer <$> peers)) ->
  trim_peer <$> normalize_peers (trim_peer <$> peers) = normalize_peers (trim_peer <$> peers).
Proof.
  intros Hnd. rewrite <-(list_fmap_id (normalize_peers _)) at 2. apply list_fmap_ext. intros i p Hp.
  apply list_elem_of_lookup_2 in Hp. rewrite (normalize_perm _ Hnd) in Hp.
  apply list_elem_of_fmap in Hp as (q & -> & _). apply trim_peer_idemp.
Qed.

#[global] Instance distinct_peers_proper : Proper ((≡ₚ) ==> iff) distinct_peers.
Proof.
  intros l l' Hp. split; intros [H1 H2 H3].
  - split; [by rewrite <-Hp|by rewrite <-Hp|]. intros p q. rewrite <-!Hp. apply H3.
  - split; [by rewrite Hp|by rewrite Hp|]. intros p q. rewrite !Hp. apply H3.
Qed.

(** What the validation returns it accepts unchanged, and so does the validation
    for the in-memory transport. *)
Lemma membership_peers_stable allow allow' peers out :
  validate_membership_peers_for_transport peers allow = RaftOk out -> allow' = allow \/ allow' = true ->
  validate_membership_peers_for_transport out allow' = RaftOk out.
Proof.
  rewrite !membership_peers_ok. intros [(Hl & Hw & Hd) ->] Ha. pose proof (dp_ids _ Hd) as Hnd.
  rewrite trim_normalized by done. split; [|by rewrite normalize_idemp].
  split_and!; rewrite normalize_perm; try done.
  eapply Forall_impl; [exact Hw|]. intros p Hp. destruct Ha as [->| ->]; [done|]. by eapply peer_wf_memory.
Qed.

(** The validation of a membership accepts exactly the lists of at least
    three peers whose trimmed ids and addresses are well formed and distinct
    and whose ids derive distinct client-id prefixes; it returns them trimmed
    and in the order of their ids, and accepts what it returned unchanged. *)
Theorem membership_validation_exact allow peers out :
  (validate_membership_peers_for_transport peers allow = RaftOk out <->
   acceptable allow (trim_peer <$> peers) /\ out = normalize_peers (trim_peer <$> peers)) /\
  (validate_membership_peers_for_transport peers allow = RaftOk out ->
   validate_membership_peers_for_transport out allow = RaftOk out).
Proof.
  split; [apply membership_peers_ok|]. intros H. eapply membership_peers_stable; [exact H|by left].
Qed.
