(* ===== verification/RaftFiles.v ===== *)
(** * The files of a Raft node

    [src/src/broker_raft.rs]: the log file, one JSON record per line
    (24262-24342, 24344-24414, 24663-24681, 25473-25762, 25933-25992), the
    hard-state file and its two commit slots (23787-23967, 24130-24196,
    26153-26180) and the snapshot file (23485-23527).

    The disk is a record of file contents with a script of faults: every call
    that reaches the file system takes the next one, fails or crashes as it
    says after a part of its effect, and succeeds when the script is empty.
    After a crash the disk no longer changes.  A file replaced by a rename
    holds the old or the new value; the log file, appended in place, is a list
    of bytes that can be torn anywhere.  The handles the code caches are used
    only while they are the file at the path, so they are left out. *)

From S2P Require Import Prelude Text Monad Protocol BrokerTypes BrokerOps BrokerSnapshot.
From S2P Require Import RaftQuorum RaftGrant RaftValidate RaftCache.
From stdpp Require Import options.

Definition HARD_STATE_COMMIT_SLOT_BYTES : nat := 512.
Definition HARD_STATE_COMMIT_SLOTS : Z := 2.

(** ** Early return in the state monad *)

Definition bindR {S A B} (m : M S (RaftResult A)) (k : A -> M S (RaftResult B))
    : M S (RaftResult B) :=
  r ← m;
  match r with
  | RaftOk a => k a
  | RaftErr e => mret (RaftErr e)
  end.

Notation "x ←? m ; k" := (bindR m (fun x : _ => k))
  (at level 20, m at level 100, k at level 200, only parsing) : stdpp_scope.
Notation "' x ←? m ; k" := (bindR m (fun x : _ => k))
  (at level 20, x pattern, m at level 100, k at level 200, only parsing) : stdpp_scope.
Notation "m ;;? k" := (bindR m (fun _ => k))
  (at level 100, k at level 200, right associativity, only parsing) : stdpp_scope.

Definition okR {S A} (a : A) : M S (RaftResult A) := mret (RaftOk a).
Definition errR {S A} (e : BrokerRaftError) : M S (RaftResult A) := mret (RaftErr e).

Lemma bindR_ok {S A B} (m : M S (RaftResult A)) (k : A -> M S (RaftResult B)) s a s' :
  m s = Done (RaftOk a) s' -> bindR m k s = k a s'.
Proof. intros H. unfold bindR. by rewrite (bind_done _ _ _ _ _ H). Qed.

Lemma bindR_err {S A B} (m : M S (RaftResult A)) (k : A -> M S (RaftResult B)) s e s' :
  m s = Done (RaftErr e) s' -> bindR m k s = Done (RaftErr e) s'.
Proof. intros H. unfold bindR. by rewrite (bind_done _ _ _ _ _ H). Qed.

Lemma wp_bindR {S A B} (m : M S (RaftResult A)) (k : A -> M S (RaftResult B)) Q s :
  wp m (fun r s' => match r with
                    | RaftOk a => wp (k a) Q s'
                    | RaftErr e => Q (RaftErr e) s'
                    end) s ->
  wp (bindR m k) Q s.
Proof.
  intros H. unfold bindR. apply wp_bind. eapply wp_mono; [exact H|].
  intros [a|e] s' Hs; [done|by apply wp_ret].
Qed.

Lemma wlp_bindR {S A B} (m : M S (RaftResult A)) (k : A -> M S (RaftResult B)) Q s :
  wlp m (fun r s' => match r with
                     | RaftOk a => wlp (k a) Q s'
                     | RaftErr e => Q (RaftErr e) s'
                     end) s ->
  wlp (bindR m k) Q s.
Proof.
  intros H. unfold bindR. apply wlp_bind. eapply wlp_mono; [exact H|].
  intros [a|e] s' Hs; [done|by apply wlp_ret].
Qed.

Lemma keeps_bindR {S A B} (R : S -> S -> Prop) `{!PreOrder R} (m : M S (RaftResult A))
    (k : A -> M S (RaftResult B)) :
  keeps R m -> (forall a, keeps R (k a)) -> keeps R (bindR m k).
Proof.
  intros Hm Hk. unfold bindR. apply keeps_bind; [done|done|]. intros [a|e]; [done|].
  by apply keeps_ret.
Qed.
#[export] Hint Resolve keeps_bindR : keeps.

Lemma returns_bindR {S A B} (m : M S (RaftResult A)) (k : A -> M S (RaftResult B)) :
  returns m -> (forall a, returns (k a)) -> returns (bindR m k).
Proof.
  intros Hm Hk. unfold bindR. apply returns_bind; [done|]. intros [a|e]; [done|].
  apply returns_ret.
Qed.
#[export] Hint Resolve returns_bindR : returns.

(** Split a [returns] goal along the structure of the code. *)
Ltac returns_split :=
  repeat first
    [ progress intros
    | solve [eauto 2 with returns]
    | apply returns_bind
    | apply returns_bindR
    | progress cbv zeta
    | case_match ].

(** ** Data *)

Record RaftLogEntry : Type := mkRaftLogEntry {
  le_index : Z;
  le_term : Z;
  le_created_at_ms : Z;
  le_command : RaftCommand;
}.

Record RaftHardState : Type := mkRaftHardState {
  hs_current_term : Z;
  hs_voted_for : option string;
  hs_commit_index : Z;
}.

(** [RaftHardState::default] *)
Definition default_hard_state : RaftHardState := mkRaftHardState 0 None 0.

Record RaftHardStateCommitSlot : Type := mkRaftHardStateCommitSlot {
  sl_generation : Z;
  sl_current_term : Z;
  sl_commit_index : Z;
  sl_checksum : string;
}.

Record RaftSnapshotMetadata : Type := mkRaftSnapshotMetadata {
  sm_last_included_index : Z;
  sm_last_included_term : Z;
  sm_created_at_ms : Z;
  sm_payload_sha256 : option string;
}.

#[global] Instance Request_eq_dec : EqDecision Request.t.
Proof. solve_decision. Defined.
#[global] Instance RaftGrantPlan_eq_dec : EqDecision RaftGrantPlan.
Proof. solve_decision. Defined.
#[global] Instance RaftMembership_eq_dec : EqDecision RaftMembership.
Proof. solve_decision. Defined.
#[global] Instance RaftCommand_eq_dec : EqDecision RaftCommand.
Proof. solve_decision. Defined.
#[global] Instance RaftLogEntry_eq_dec : EqDecision RaftLogEntry.
Proof. solve_decision. Defined.
#[global] Instance RaftHardState_eq_dec : EqDecision RaftHardState.
Proof. solve_decision. Defined.
#[global] Instance RaftSnapshotMetadata_eq_dec : EqDecision RaftSnapshotMetadata.
Proof. solve_decision. Defined.

(** What the files use of [serde_json] and [sha2], which are not part of the
    sources, beside [SnapshotCodec]: the JSON text of a log entry and its
    parser, the length of the JSON text of a commit slot, its checksum, the
    checksum of a snapshot payload, the conversions of the values it carries,
    and the object the payload is built as. *)
Class RaftCodec `{SC : SnapshotCodec} : Type := {
  entry_json : RaftLogEntry -> bytes;
  entry_of_json : bytes -> RaftResult RaftLogEntry;
  commit_slot_json_len : RaftHardStateCommitSlot -> nat;
  hard_state_commit_checksum : Z -> Z -> Z -> string;
  snapshot_payload_sha256 : Value -> string;
  client_responses_from_value : Value -> RaftResult (list ClientResponseSnapshotEntry);
  membership_from_value : Value -> RaftResult RaftMembership;
  learners_from_value : Value -> RaftResult (list RaftPeerConfig);
  snapshot_payload_value :
    string -> RaftMembership -> list RaftPeerConfig -> list ClientResponseSnapshotEntry ->
    Value -> BrokerMetrics -> Value;
}.

(** The documented behaviour of the codec the theorems rely on: a record is
    one line that starts and ends with a visible character and parses back; a
    proper prefix of a record does not parse, nor does a record followed by
    more than whitespace; a commit slot's text (its fields are of type [u64])
    has at most 511 bytes; a digest is printed in lower case; the fields of a
    payload convert back. *)
Class RaftCodecLaws `{C : RaftCodec} : Prop := {
  entry_roundtrip e : entry_of_json (entry_json e) = RaftOk e;
  entry_one_line e : NEWLINE ∉ entry_json e;
  entry_first_visible e : exists b rest, entry_json e = b :: rest /\ is_ascii_whitespace b = false;
  entry_last_visible e : exists rest b, entry_json e = rest ++ [b] /\ is_ascii_whitespace b = false;
  entry_prefix_fails e k : (k < length (entry_json e))%nat ->
    is_raft_ok (entry_of_json (take k (entry_json e))) = false;
  entry_trailing_fails e b rest : is_ascii_whitespace b = false ->
    is_raft_ok (entry_of_json (entry_json e ++ b :: rest)) = false;
  commit_slot_fits s : (commit_slot_json_len s < HARD_STATE_COMMIT_SLOT_BYTES)%nat;
  sha256_lowercase v :
    ascii_lower <$> bytes_of (snapshot_payload_sha256 v) = bytes_of (snapshot_payload_sha256 v);
  payload_membership id m ls rs b ms : exists v,
    value_get (snapshot_payload_value id m ls rs b ms) "membership" = Some v /\
    membership_from_value v = RaftOk m;
  payload_responses id m ls rs b ms : exists v,
    value_get (snapshot_payload_value id m ls rs b ms) "clientResponses" = Some v /\
    client_responses_from_value v = RaftOk rs;
}.

(** ** The disk *)

Section disk.
Context `{C : RaftCodec}.

Record RaftSnapshotFile : Type := mkRaftSnapshotFile {
  sf_metadata : RaftSnapshotMetadata;
  sf_payload : Value;
}.

(** A commit slot's 512 bytes: padding only, a record, or bytes that do not
    parse. *)
Inductive SlotContent : Type :=
| SlotBlank
| SlotTorn
| SlotRecord (slot : RaftHardStateCommitSlot).

(** What happens to a call: it succeeds; it fails, or the machine stops, after
    the first [done] units of its effect. *)
Inductive Fault : Type :=
| NoFault
| Fails (done : nat) (message : string)
| Crashes (done : nat).

Record Disk : Type := mkDisk {
  d_log : option bytes;
  d_hard_state : option RaftHardState;
  d_commit_slots : option (SlotContent * SlotContent);
  d_snapshot : option RaftSnapshotFile;
  d_learners : option (list RaftPeerConfig);
  d_local_voter_seen : option bool;
  d_faults : list Fault;
  d_frozen : bool;
}.

Definition set_d_log (x : option bytes) (d : Disk) : Disk :=
  mkDisk x (d_hard_state d) (d_commit_slots d) (d_snapshot d) (d_learners d) (d_local_voter_seen
    d) (d_faults d) (d_frozen d).
Definition set_d_hard_state (x : option RaftHardState) (d : Disk) : Disk :=
  mkDisk (d_log d) x (d_commit_slots d) (d_snapshot d) (d_learners d) (d_local_voter_seen d)
    (d_faults d) (d_frozen d).
Definition set_d_commit_slots (x : option (SlotContent * SlotContent)) (d : Disk) : Disk :=
  mkDisk (d_log d) (d_hard_state d) x (d_snapshot d) (d_learners d) (d_local_voter_seen d)
    (d_faults d) (d_frozen d).
Definition set_d_snapshot (x : option RaftSnapshotFile) (d : Disk) : Disk :=
  mkDisk (d_log d) (d_hard_state d) (d_commit_slots d) x (d_learners d) (d_local_voter_seen d)
    (d_faults d) (d_frozen d).
Definition set_d_learners (x : option (list RaftPeerConfig)) (d : Disk) : Disk :=
  mkDisk (d_log d) (d_hard_state d) (d_commit_slots d) (d_snapshot d) x (d_local_voter_seen d)
    (d_faults d) (d_frozen d).
Definition set_d_local_voter_seen (x : option bool) (d : Disk) : Disk :=
  mkDisk (d_log d) (d_hard_state d) (d_commit_slots d) (d_snapshot d) (d_learners d) x (d_faults
    d) (d_frozen d).
Definition set_d_faults (x : list Fault) (d : Disk) : Disk :=
  mkDisk (d_log d) (d_hard_state d) (d_commit_slots d) (d_snapshot d) (d_learners d)
    (d_local_voter_seen d) x (d_frozen d).
Definition freeze (d : Disk) : Disk :=
  mkDisk (d_log d) (d_hard_state d) (d_commit_slots d) (d_snapshot d) (d_learners d)
    (d_local_voter_seen d) (d_faults d) true.

(** One call: [effect k] is its effect cut after [k] units, [effect_all] the
    whole of it. *)
Definition io_call (effect : nat -> Disk -> Disk) (effect_all : Disk -> Disk)
    : M Disk (RaftResult unit) := fun d =>
  if d_frozen d then Done (RaftErr (EIo "the process has stopped")) d
  else
    match d_faults d with
    | [] => Done (RaftOk tt) (effect_all d)
    | fault :: faults =>
        let d := set_d_faults faults d in
        match fault with
        | NoFault => Done (RaftOk tt) (effect_all d)
        | Fails k message => Done (RaftErr (EIo message)) (effect k d)
        | Crashes k => Done (RaftErr (EIo "the process has stopped")) (freeze (effect k d))
        end
    end.

(** A call that changes no content: opening, seeking, syncing. *)
Definition io_gate : M Disk (RaftResult unit) := io_call (fun _ d => d) (fun d => d).

(** A call that happens or does not. *)
Definition io_atomic (f : Disk -> Disk) : M Disk (RaftResult unit) :=
  io_call (fun k d => if bool_decide (k = 0%nat) then d else f d) f.

(** [File::write_all] at the end of the log file. *)
Definition write_log_bytes (body : bytes) : M Disk (RaftResult unit) :=
  io_call (fun k d => set_d_log (Some (default [] (d_log d) ++ take k body)) d)
          (fun d => set_d_log (Some (default [] (d_log d) ++ body)) d).

(** [File::set_len] on bytes: cut, or filled with zeros. *)
Definition set_len_bytes (len : nat) (b : bytes) : bytes := resize len 0 b.

(** ** The log file *)

(** [serialized_log_entries_buffer_and_lens] *)
Definition serialized_log_entries_buffer_and_lens (entries : list RaftLogEntry)
    : bytes * list nat :=
  (concat ((fun entry => entry_json entry ++ [NEWLINE]) <$> entries),
   (fun entry => length (entry_json entry)) <$> entries).

(** [serialized_log_entry_lens] *)
Definition serialized_log_entry_lens (entries : list RaftLogEntry) : list nat :=
  (fun entry => length (entry_json entry)) <$> entries.

(** [rollback_log_file_len] *)
Definition rollback_log_file_len (len : nat) (sync_log : bool) : M Disk (RaftResult unit) :=
  d ← get;
  match d_log d with
  | None => errR (EInvalidLog "cannot roll back missing raft log")
  | Some _ =>
      io_gate ;;?
      io_atomic (fun d => set_d_log (Some (set_len_bytes len (default [] (d_log d)))) d) ;;?
      (if sync_log then io_gate else okR tt)
  end.

(** [rollback_log_write_after_failure]: the error to return. *)
Definition rollback_log_write_after_failure (operation : string) (rollback_len : nat)
    (sync_log : bool) (write_error : BrokerRaftError) : M Disk BrokerRaftError :=
  res ← rollback_log_file_len rollback_len sync_log;
  match res with
  | RaftErr rollback_error =>
      mret (ERpc ("raft log " +:+ operation +:+ " failed: " +:+ error_display write_error
        +:+ "; rollback to " +:+ pretty rollback_len +:+ " bytes failed: "
        +:+ error_display rollback_error)%string)
  | RaftOk _ => mret write_error
  end.

(** Return the error of a failed write after rolling the file back. *)
Definition or_rollback (m : M Disk (RaftResult unit)) (operation : string) (rollback_len : nat)
    (sync_log : bool) : M Disk (RaftResult unit) :=
  res ← m;
  match res with
  | RaftOk _ => okR tt
  | RaftErr err =>
      err ← rollback_log_write_after_failure operation rollback_len sync_log err;
      errR err
  end.

(** The file is created when it is missing. *)
Definition open_creating : M Disk (RaftResult unit) :=
  io_call (fun _ d => d) (fun d => set_d_log (Some (default [] (d_log d))) d).

(** [append_serialized_log_entries_with_cache] *)
Definition append_serialized_log_entries (body : bytes) (entries_len : nat) (sync_log : bool)
    : M Disk (RaftResult unit) :=
  if bool_decide (entries_len = 0%nat) then okR tt
  else
    d ← get;
    let created := bool_decide (d_log d = None) in
    let original_len := length (default [] (d_log d)) in
    open_creating ;;?
    or_rollback (write_log_bytes body ;;? if sync_log then io_gate else okR tt)
      "append" original_len sync_log ;;?
    if created && sync_log then or_rollback io_gate "append_parent_sync" original_len sync_log
    else okR tt.

(** [truncate_and_append_serialized_log_entries] *)
Definition truncate_and_append_serialized_log_entries (prefix_file_len : nat) (body : bytes)
    (sync_log : bool) : M Disk (RaftResult unit) :=
  d ← get;
  match d_log d with
  | Some b =>
      if bool_decide (length b < prefix_file_len)%nat then
        errR (EInvalidLog ("cannot truncate raft log at byte offset " +:+ pretty prefix_file_len
          +:+ "; file only has " +:+ pretty (length b) +:+ " bytes")%string)
      else okR false
  | None =>
      if bool_decide (prefix_file_len = 0%nat) then okR true
      else errR (EInvalidLog ("cannot preserve " +:+ pretty prefix_file_len
             +:+ " bytes from missing raft log")%string)
  end ≫= fun created =>
  match created with
  | RaftErr err => errR err
  | RaftOk created =>
      (if bool_decide (prefix_file_len = 0%nat) then open_creating else io_gate) ;;?
      io_atomic (fun d => set_d_log (Some (set_len_bytes prefix_file_len (default [] (d_log d)))) d) ;;?
      io_gate ;;?
      or_rollback (write_log_bytes body ;;? if sync_log then io_gate else okR tt)
        "truncate_append" prefix_file_len sync_log ;;?
      if created && sync_log
      then or_rollback io_gate "truncate_append_parent_sync" prefix_file_len sync_log
      else okR tt
  end.

(** [rewrite_log]: written to a temporary file that is renamed; the directory
    is synced after the rename. *)
Definition rewrite_log (entries : list RaftLogEntry) : M Disk (RaftResult unit) :=
  io_atomic (set_d_log (Some (serialized_log_entries_buffer_and_lens entries).1)).

(** The bytes before the first newline, and what follows it. *)
Fixpoint split_line (b : bytes) : bytes * option bytes :=
  match b with
  | [] => ([], None)
  | x :: b =>
      if bool_decide (x = NEWLINE) then ([], Some b)
      else let '(line, rest) := split_line b in (x :: line, rest)
  end.

(** [trim_ascii_bytes] *)
Definition trim_ascii_bytes (b : bytes) : bytes :=
  reverse (drop_while is_ascii_whitespace (reverse (drop_while is_ascii_whitespace b))).

(** The loop of [read_log_entries] from [offset]: the entries found, and the
    offset of an unterminated record to discard. *)
Fixpoint read_log_loop (fuel : nat) (offset : nat) (b : bytes)
    : RaftResult (list RaftLogEntry * option nat) :=
  match fuel with
  | O => RaftErr (ERpc "out of fuel")
  | S fuel =>
      match b with
      | [] => RaftOk ([], None)
      | _ :: _ =>
          let '(line, after) := split_line b in
          let rest := default [] after in
          let next_offset := (offset + length line + match after with Some _ => 1 | None => 0 end)%nat in
          let trimmed := trim_ascii_bytes line in
          if bool_decide (trimmed = []) then read_log_loop fuel next_offset rest
          else
            match entry_of_json trimmed, after with
            | RaftOk entry, _ =>
                '(entries, discard) ← read_log_loop fuel next_offset rest;
                RaftOk (entry :: entries, discard)
            | RaftErr _, None => RaftOk ([], Some offset)
            | RaftErr err, Some _ => RaftErr err
            end
      end
  end.

Section validate.
Context `{D : RequestDigest}.

(** [validate_persisted_log_entries]: the loop from the previous entry. *)
Fixpoint validate_entries_after (previous : option RaftLogEntry) (entries : list RaftLogEntry)
    : RaftResult unit :=
  match entries with
  | [] => RaftOk tt
  | entry :: entries =>
      if bool_decide (le_index entry = 0) then RaftErr (EInvalidLog "entry index must be >= 1")
      else if bool_decide (le_term entry = 0) then
        RaftErr (EInvalidLog ("entry index " +:+ pretty (le_index entry) +:+ " has term 0")%string)
      else
        _ ← match previous with
            | None => RaftOk tt
            | Some prev =>
                if bool_decide (le_index prev = u64_max) then
                  RaftErr (EInvalidLog ("entry index " +:+ pretty (le_index prev)
                    +:+ " cannot be followed by another entry")%string)
                else if bool_decide (le_index entry <> le_index prev + 1) then
                  RaftErr (EInvalidLog ("entry index " +:+ pretty (le_index entry)
                    +:+ " is not contiguous after index " +:+ pretty (le_index prev)
                    +:+ "; expected " +:+ pretty (le_index prev + 1))%string)
                else if bool_decide (le_term entry < le_term prev) then
                  RaftErr (EInvalidLog ("entry index " +:+ pretty (le_index entry) +:+ " has term "
                    +:+ pretty (le_term entry) +:+ " older than previous term "
                    +:+ pretty (le_term prev))%string)
                else RaftOk tt
            end;
        _ ← map_err (fun err => EInvalidLog ("entry index " +:+ pretty (le_index entry)
              +:+ " has invalid command: " +:+ error_display err)%string)
              (validate_raft_command (le_command entry));
        validate_entries_after (Some entry) entries
  end.

Definition validate_persisted_log_entries (entries : list RaftLogEntry) : RaftResult unit :=
  validate_entries_after None entries.

(** [read_log_entries]: a record without its newline that does not parse is
    cut off. *)
Definition read_log_entries : M Disk (RaftResult (list RaftLogEntry)) :=
  d ← get;
  match d_log d with
  | None => okR []
  | Some b =>
      io_gate ;;?
      match read_log_loop (S (length b)) 0 b with
      | RaftErr err => errR err
      | RaftOk (entries, discard) =>
          match discard with
          | Some offset => rollback_log_file_len offset true
          | None => okR tt
          end ;;?
          match validate_persisted_log_entries entries with
          | RaftErr err => errR err
          | RaftOk _ => okR entries
          end
      end
  end.

End validate.

(** ** The hard state *)

(** [hard_state_commit_slot_record] *)
Definition hard_state_commit_slot_record (generation current_term commit_index : Z)
    : RaftHardStateCommitSlot :=
  mkRaftHardStateCommitSlot generation current_term commit_index
    (hard_state_commit_checksum generation current_term commit_index).

(** [validate_hard_state_commit_slot], on the records that parse. *)
Definition valid_hard_state_commit_slot (slot : RaftHardStateCommitSlot) : bool :=
  negb (bool_decide (sl_generation slot = 0))
  && bool_decide (sl_checksum slot
       = hard_state_commit_checksum (sl_generation slot) (sl_current_term slot) (sl_commit_index slot)).

(** [hard_state_commit_slot_offset]: the first slot or the second. *)
Definition commit_slot_is_second (generation : Z) : bool :=
  bool_decide (Z.max (generation - 1) 0 mod HARD_STATE_COMMIT_SLOTS = 1).

Definition put_commit_slot (generation : Z) (content : SlotContent)
    (slots : SlotContent * SlotContent) : SlotContent * SlotContent :=
  if commit_slot_is_second generation then (slots.1, content) else (content, slots.2).

(** [write_hard_state_commit_slot_with_cache]: the file is created with two
    blank slots; a write cut short leaves the slot torn. *)
Definition write_hard_state_commit_slot (generation current_term commit_index : Z)
    (sync_commit : bool) : M Disk (RaftResult unit) :=
  if bool_decide (generation = 0) then
    errR (EInvalidLog "raft hard-state commit slot generation must start at 1")
  else
    let slot := hard_state_commit_slot_record generation current_term commit_index in
    let body_len := S (commit_slot_json_len slot) in
    if bool_decide (HARD_STATE_COMMIT_SLOT_BYTES < body_len)%nat then
      errR (EInvalidLog ("raft hard-state commit slot needs " +:+ pretty body_len
        +:+ " bytes, exceeding fixed slot size " +:+ pretty HARD_STATE_COMMIT_SLOT_BYTES)%string)
    else
      d ← get;
      let created := bool_decide (d_commit_slots d = None) in
      let put content d := set_d_commit_slots
        (Some (put_commit_slot generation content
                 (default (SlotBlank, SlotBlank) (d_commit_slots d)))) d in
      io_atomic (fun d => set_d_commit_slots
        (Some (default (SlotBlank, SlotBlank) (d_commit_slots d))) d) ;;?
      io_call (fun k d => if bool_decide (k = 0%nat) then d
                          else if bool_decide (k < HARD_STATE_COMMIT_SLOT_BYTES)%nat
                          then put SlotTorn d else put (SlotRecord slot) d)
              (put (SlotRecord slot)) ;;?
      (if sync_commit then io_gate else okR tt) ;;?
      if created && sync_commit then io_gate else okR tt.

(** [write_pretty_json_atomic] of the hard-state file. *)
Definition write_hard_state_json (state : RaftHardState) : M Disk (RaftResult unit) :=
  io_atomic (set_d_hard_state (Some state)).

(** [write_pretty_json_atomic] of the snapshot file. *)
Definition write_snapshot_json (snapshot : RaftSnapshotFile) : M Disk (RaftResult unit) :=
  io_atomic (set_d_snapshot (Some snapshot)).

(** The slots [read_hard_state_commit_slots] keeps. *)
Definition readable_slots (max_current_term : Z) (contents : list SlotContent)
    : list RaftHardStateCommitSlot :=
  omap (fun content =>
    match content with
    | SlotRecord slot =>
        if valid_hard_state_commit_slot slot && bool_decide (sl_current_term slot <= max_current_term)
        then Some slot else None
    | SlotBlank | SlotTorn => None
    end) contents.

Definition slot_le (a b : RaftHardStateCommitSlot) : Prop := sl_generation a <= sl_generation b.

#[local] Instance slot_le_dec : RelDecision slot_le.
Proof. unfold RelDecision, slot_le. intros. apply _. Defined.

(** The loop over the slots in the order of their generations. *)
Fixpoint best_slot (best : option RaftHardStateCommitSlot) (slots : list RaftHardStateCommitSlot)
    : option RaftHardStateCommitSlot :=
  match slots with
  | [] => best
  | slot :: slots =>
      match best with
      | Some current =>
          if bool_decide (sl_commit_index slot < sl_commit_index current) then best_slot best slots
          else best_slot (Some slot) slots
      | None => best_slot (Some slot) slots
      end
  end.

(** [read_hard_state_commit_slots] *)
Definition read_hard_state_commit_slots (d : Disk) (max_current_term : Z)
    : option RaftHardStateCommitSlot * Z :=
  match d_commit_slots d with
  | None => (None, 0)
  | Some (first, second) =>
      let best := best_slot None (merge_sort slot_le (readable_slots max_current_term [first; second])) in
      (best, match best with Some slot => sl_generation slot | None => 0 end)
  end.

(** [read_hard_state_with_commit_slots] *)
Definition read_hard_state_with_commit_slots (d : Disk) : RaftHardState * Z :=
  let hard_state := default default_hard_state (d_hard_state d) in
  let '(commit_slot, generation) := read_hard_state_commit_slots d (hs_current_term hard_state) in
  (match commit_slot with
   | Some slot =>
       mkRaftHardState (hs_current_term hard_state) (hs_voted_for hard_state)
         (Z.max (hs_commit_index hard_state) (sl_commit_index slot))
   | None => hard_state
   end, generation).

(** ** The sidecar files *)

(** [write_staged_learners]: an empty list removes the file. *)
Definition write_staged_learners (learners : list RaftPeerConfig) : M Disk (RaftResult unit) :=
  if bool_decide (learners = []) then
    d ← get;
    match d_learners d with
    | Some _ => io_atomic (set_d_learners None) ;;? io_gate
    | None => okR tt
    end
  else io_atomic (set_d_learners (Some learners)).

(** [write_local_voter_seen] *)
Definition write_local_voter_seen : M Disk (RaftResult unit) :=
  io_atomic (set_d_local_voter_seen (Some true)).

(** ** The snapshot file *)

(** [client_responses_from_snapshot_payload] *)
Definition client_responses_from_snapshot_payload (payload : Value)
    : RaftResult (list ClientResponseSnapshotEntry) :=
  match value_get payload "clientResponses" with
  | None => RaftOk []
  | Some value => client_responses_from_value value
  end.

(** [read_snapshot_file] *)
Definition read_snapshot_file : M Disk (RaftResult (option RaftSnapshotFile)) :=
  d ← get;
  match d_snapshot d with
  | None => okR None
  | Some snapshot =>
      let payload_sha256 := snapshot_payload_sha256 (sf_payload snapshot) in
      let meta := sf_metadata snapshot in
      match sm_payload_sha256 meta with
      | Some expected =>
          if eq_ignore_ascii_case payload_sha256 expected then
            okR (Some (mkRaftSnapshotFile
              (mkRaftSnapshotMetadata (sm_last_included_index meta) (sm_last_included_term meta)
                 (sm_created_at_ms meta) (Some payload_sha256)) (sf_payload snapshot)))
          else errR (ESnapshotChecksumMismatch (sm_last_included_index meta) expected payload_sha256)
      | None => okR (Some snapshot)
      end
  end.

(** [snapshot_file_matches_metadata] *)
Definition snapshot_file_matches_metadata (snapshot : option RaftSnapshotFile)
    (metadata : option RaftSnapshotMetadata) : bool :=
  match snapshot, metadata with
  | None, None => true
  | Some snapshot, Some metadata => bool_decide (sf_metadata snapshot = metadata)
  | _, _ => false
  end.

(** [verify_snapshot_payload_checksum] *)
Definition verify_snapshot_payload_checksum (index : Z) (payload : Value) (expected : option string)
    : RaftResult string :=
  match expected with
  | None => RaftErr (ESnapshotChecksumMissing index)
  | Some expected =>
      let actual := snapshot_payload_sha256 payload in
      if eq_ignore_ascii_case actual expected then RaftOk actual
      else RaftErr (ESnapshotChecksumMismatch index expected actual)
  end.

End disk.
