(* ===== verification/RaftFilesFacts.v ===== *)
(** * Properties of the files of a Raft node

    The log file under torn writes, failed writes and their rollback, and the
    durability of the hard state: what was acknowledged survives a crash. *)

From S2P Require Import Prelude Text Monad Protocol BrokerSnapshot.
From S2P Require Import RaftQuorum RaftGrant RaftValidate RaftCache RaftFiles.
From stdpp Require Import options.

(** ** Calls *)

Section calls.
Context `{C : RaftCodec}.

Lemma set_d_faults_id d : set_d_faults (d_faults d) d = d.
Proof. by destruct d. Qed.

(** The outcomes of a call. *)
Lemma wp_io effect effect_all Q d :
  (forall fs, Q (RaftOk tt) (effect_all (set_d_faults fs d))) ->
  (forall k e fs, Q (RaftErr e) (effect k (set_d_faults fs d))) ->
  (forall k e fs, Q (RaftErr e) (freeze (effect k (set_d_faults fs d)))) ->
  (forall e, Q (RaftErr e) d) ->
  wp (io_call effect effect_all) Q d.
Proof.
  intros H1 H2 H3 H4. apply wp_done. unfold io_call.
  destruct (d_frozen d); [by eexists _, _|].
  destruct (d_faults d) as [|[|k m|k] fs] eqn:Hf; eexists _, _; (split; [reflexivity|]); eauto.
  specialize (H1 (d_faults d)). by rewrite set_d_faults_id in H1.
Qed.

(** A call that meets no fault. *)
Lemma io_call_done effect effect_all d :
  d_frozen d = false -> d_faults d = [] ->
  io_call effect effect_all d = Done (RaftOk tt) (effect_all d).
Proof. unfold io_call. by intros -> ->. Qed.

(** ** Reading the log file *)

Section read.
Context `{L : !RaftCodecLaws}.

Definition serialized (entries : list RaftLogEntry) : bytes :=
  (serialized_log_entries_buffer_and_lens entries).1.

Lemma serialized_nil : serialized [] = [].
Proof. done. Qed.

Lemma serialized_cons e es : serialized (e :: es) = entry_json e ++ NEWLINE :: serialized es.
Proof. unfold serialized. simpl. by rewrite <-app_assoc. Qed.

Lemma serialized_app es es' : serialized (es ++ es') = serialized es ++ serialized es'.
Proof. unfold serialized. simpl. by rewrite fmap_app, concat_app. Qed.

Lemma split_line_newline l rest :
  NEWLINE ∉ l -> split_line (l ++ NEWLINE :: rest) = (l, Some rest).
Proof.
  induction l as [|x l IH]; intros Hl; simpl.
  - done.
  - apply not_elem_of_cons in Hl as [Hx Hl]. rewrite bool_decide_eq_false_2 by congruence.
    by rewrite IH.
Qed.

Lemma split_line_last l : NEWLINE ∉ l -> split_line l = (l, None).
Proof.
  induction l as [|x l IH]; intros Hl; simpl; [done|].
  apply not_elem_of_cons in Hl as [Hx Hl]. rewrite bool_decide_eq_false_2 by congruence.
  by rewrite IH.
Qed.

Lemma drop_while_head {A} (p : A -> bool) x l : p x = false -> drop_while p (x :: l) = x :: l.
Proof. simpl. by intros ->. Qed.

Lemma trim_visible l :
  (exists b rest, l = b :: rest /\ is_ascii_whitespace b = false) ->
  (exists rest b, l = rest ++ [b] /\ is_ascii_whitespace b = false) ->
  trim_ascii_bytes l = l.
Proof.
  intros (b & r & -> & Hb) (r' & b' & Hl & Hb'). unfold trim_ascii_bytes.
  rewrite (drop_while_head _ b r Hb), Hl, reverse_snoc.
  rewrite drop_while_head by done. by rewrite reverse_cons, reverse_involutive.
Qed.

Lemma trim_entry e : trim_ascii_bytes (entry_json e) = entry_json e.
Proof using L. apply trim_visible; [apply entry_first_visible|apply entry_last_visible]. Qed.

(** Trimming bytes that start with a visible one leaves a prefix of them. *)
Lemma trim_take b r :
  is_ascii_whitespace b = false ->
  exists k, (0 < k <= S (length r))%nat /\ trim_ascii_bytes (b :: r) = take k (b :: r).
Proof.
  intros Hb. unfold trim_ascii_bytes. rewrite drop_while_head by done.
  assert (forall l, exists k, (0 < k <= S (length l))%nat /\
    reverse (drop_while is_ascii_whitespace (l ++ [b])) = take k (b :: reverse l)) as H.
  { intros l. induction l as [|x l (k & Hk & IH)]; simpl.
    - exists 1%nat. split; [lia|]. by rewrite Hb.
    - rewrite reverse_cons. destruct (is_ascii_whitespace x).
      + exists k. split; [lia|]. rewrite IH. rewrite app_comm_cons, take_app_le; [done|].
        simpl. rewrite length_reverse. lia.
      + exists (S (S (length l))). split; [lia|]. rewrite reverse_cons, reverse_snoc. simpl.
        f_equal. rewrite take_ge; [done|]. rewrite length_app, length_reverse. simpl. lia. }
  destruct (H (reverse r)) as (k & Hk & Heq). exists k. rewrite length_reverse in Hk.
  split; [done|]. rewrite reverse_cons, Heq, reverse_involutive. done.
Qed.

(** A proper prefix of a record is blank or does not parse. *)
Lemma torn_record e k :
  (k < length (entry_json e))%nat ->
  trim_ascii_bytes (take k (entry_json e)) = [] \/
  (trim_ascii_bytes (take k (entry_json e)) <> [] /\
   is_raft_ok (entry_of_json (trim_ascii_bytes (take k (entry_json e)))) = false).
Proof using L.
  intros Hk. destruct (entry_first_visible e) as (b & r & He & Hb).
  destruct k as [|k]; [by left|]. right.
  assert (take (S k) (entry_json e) = b :: take k r) as Ht by (by rewrite He).
  destruct (trim_take b (take k r) Hb) as (j & Hj & Htrim).
  rewrite Ht, Htrim, <-Ht. rewrite length_take in Hj. rewrite He in Hk. simpl in Hk.
  rewrite take_take. split.
  - rewrite He. destruct (j `min` S k)%nat eqn:E; [lia|done].
  - apply entry_prefix_fails. rewrite He. simpl. lia.
Qed.

Lemma entry_json_nonempty e : entry_json e <> [].
Proof using L. destruct (entry_first_visible e) as (b & r & -> & _). done. Qed.

(** Reading past a complete record. *)
Lemma read_log_record fuel offset e rest :
  read_log_loop (S fuel) offset (entry_json e ++ NEWLINE :: rest) =
  ('(entries, discard) ← read_log_loop fuel (offset + length (entry_json e) + 1) rest;
   RaftOk (e :: entries, discard)).
Proof using L.
  cbn [read_log_loop]. rewrite split_line_newline by apply entry_one_line.
  rewrite trim_entry, bool_decide_eq_false_2 by apply entry_json_nonempty.
  rewrite entry_roundtrip. cbn [from_option id].
  by destruct (entry_json e ++ NEWLINE :: rest) eqn:E; [by destruct (entry_json e)|].
Qed.

(** Reading past complete records. *)
Lemma read_log_records es fuel offset rest :
  read_log_loop (length es + fuel) offset (serialized es ++ rest) =
  ('(entries, discard) ← read_log_loop fuel (offset + length (serialized es)) rest;
   RaftOk (es ++ entries, discard)).
Proof using L.
  revert offset. induction es as [|e es IH]; intros offset.
  - rewrite Nat.add_0_r. simpl. by destruct (read_log_loop fuel offset rest) as [[]|].
  - rewrite serialized_cons, <-app_assoc. cbn [app length plus]. rewrite read_log_record, IH.
    rewrite length_app. simpl. 
    replace (offset + length (entry_json e) + 1 + length (serialized es))%nat
      with (offset + (length (entry_json e) + S (length (serialized es))))%nat by lia.
    by destruct (read_log_loop fuel _ rest) as [[]|].
Qed.

Lemma serialized_length es : (length es <= length (serialized es))%nat.
Proof.
  induction es as [|e es IH]; [done|]. rewrite serialized_cons, length_app. simpl. lia.
Qed.

(** The file of a list of records reads back as the list. *)
Lemma read_log_serialized es : read_log_loop (S (length (serialized es))) 0 (serialized es) = RaftOk (es, None).
Proof using L.
  pose proof (serialized_length es).
  replace (S (length (serialized es))) with (length es + S (length (serialized es) - length es))%nat by lia.
  rewrite <-(app_nil_r (serialized es)) at 2. rewrite read_log_records. simpl. by rewrite app_nil_r.
Qed.

(** A record cut before its newline: read when it is complete, discarded
    otherwise. *)
Lemma read_log_torn fuel offset e k :
  (k <= length (entry_json e))%nat ->
  read_log_loop (S (S fuel)) offset (take k (entry_json e)) =
  RaftOk (if bool_decide (k = length (entry_json e)) then ([e], None)
          else if bool_decide (trim_ascii_bytes (take k (entry_json e)) = []) then ([], None)
          else ([], Some offset)).
Proof using L.
  intros Hk. case_bool_decide as Hfull.
  - subst k. rewrite take_ge by lia. cbn [read_log_loop].
    destruct (entry_json e) as [|b r] eqn:He; [by destruct (entry_json_nonempty e)|].
    rewrite <-He, split_line_last by apply entry_one_line.
    rewrite trim_entry, bool_decide_eq_false_2 by apply entry_json_nonempty.
    by rewrite entry_roundtrip.
  - assert (k < length (entry_json e))%nat as Hlt by lia.
    assert (NEWLINE ∉ take k (entry_json e)) as Hn.
    { intros Hin. apply (entry_one_line e). rewrite <-(take_drop k (entry_json e)). set_solver. }
    destruct (torn_record e k Hlt) as [Hb|[Hb Hp]]; cbn [read_log_loop];
      destruct (take k (entry_json e)) as [|b r] eqn:He; [done| |done|];
      rewrite split_line_last by done.
    + rewrite bool_decide_eq_true_2 by done. done.
    + rewrite bool_decide_eq_false_2 by done.
      destruct (entry_of_json (trim_ascii_bytes (b :: r))); done.
Qed.

Lemma take_serialized k es :
  (k < length (serialized es))%nat ->
  exists m e j, es !! m = Some e /\ (j <= length (entry_json e))%nat /\
    take k (serialized es) = serialized (take m es) ++ take j (entry_json e).
Proof.
  revert k. induction es as [|e es IH]; intros k Hk; [simpl in Hk; lia|].
  rewrite serialized_cons in *. rewrite length_app in Hk. simpl in Hk.
  destruct (decide (k <= length (entry_json e))%nat) as [Hle|Hgt].
  - exists 0%nat, e, k. split_and!; [done..|]. by rewrite take_app_le.
  - destruct (IH (k - S (length (entry_json e)))%nat) as (m & e' & j & Hm & Hj & Heq); [lia|].
    exists (S m), e', j. split_and!; [done..|]. cbn [take]. rewrite serialized_cons.
    rewrite <-app_assoc. cbn [app]. rewrite <-Heq.
    replace k with (length (entry_json e) + S (k - S (length (entry_json e))))%nat at 1 by lia.
    rewrite take_app_add. done.
Qed.

Lemma set_len_bytes_app (l k : bytes) : set_len_bytes (length l) (l ++ k) = l.
Proof. unfold set_len_bytes. rewrite resize_le by (rewrite length_app; lia). by rewrite take_app_length. Qed.

(** A disk whose calls meet no fault. *)
Definition quiet (d : Disk) : Prop := d_frozen d = false /\ d_faults d = [].

Lemma io_gate_quiet d : quiet d -> io_gate d = Done (RaftOk tt) d.
Proof. intros [H1 H2]. unfold io_gate. by rewrite io_call_done. Qed.

Lemma io_atomic_quiet f d : quiet d -> io_atomic f d = Done (RaftOk tt) (f d).
Proof. intros [H1 H2]. unfold io_atomic. by rewrite io_call_done. Qed.

Lemma rollback_quiet d b len sync :
  quiet d -> d_log d = Some b ->
  rollback_log_file_len len sync d = Done (RaftOk tt) (set_d_log (Some (set_len_bytes len b)) d).
Proof.
  intros Hq Hb. unfold rollback_log_file_len. rewrite (bind_done get _ d d d eq_refl), Hb.
  rewrite (bindR_ok _ _ _ _ _ (io_gate_quiet d Hq)).
  rewrite (bindR_ok _ _ _ _ _ (io_atomic_quiet _ d Hq)). rewrite Hb. simpl.
  destruct sync; [|done]. by apply io_gate_quiet.
Qed.

Section recovery.
Context `{D : RequestDigest}.

Lemma validate_entries_app prev es es' :
  validate_entries_after prev (es ++ es') = RaftOk tt -> validate_entries_after prev es = RaftOk tt.
Proof.
  revert prev. induction es as [|e es IH]; intros prev; [done|]. cbn [app validate_entries_after].
  repeat case_bool_decide; try done. unfold mbind, RaftResult_bind.
  destruct (match prev with Some _ => _ | None => _ end); [|done].
  destruct (map_err _ _); [|done]. apply IH.
Qed.

Lemma read_log_entries_quiet d b :
  quiet d -> d_log d = Some b ->
  read_log_entries d =
  match read_log_loop (S (length b)) 0 b with
  | RaftErr err => Done (RaftErr err) d
  | RaftOk (entries, discard) =>
      let d' := match discard with
                | Some offset => set_d_log (Some (set_len_bytes offset b)) d
                | None => d
                end in
      match validate_persisted_log_entries entries with
      | RaftErr err => Done (RaftErr err) d'
      | RaftOk _ => Done (RaftOk entries) d'
      end
  end.
Proof.
  intros Hq Hb. unfold read_log_entries. rewrite (bind_done get _ d d d eq_refl), Hb.
  rewrite (bindR_ok _ _ _ _ _ (io_gate_quiet d Hq)).
  destruct (read_log_loop _ _ _) as [[entries [offset|]]|err]; [| |done].
  - rewrite (bindR_ok _ _ _ _ _ (rollback_quiet d b offset true Hq Hb)). by case_match.
  - rewrite (bindR_ok (okR tt) _ d tt d eq_refl). by case_match.
Qed.

(** The file ends with a newline, or lacks exactly that one. *)
Definition log_file_of (entries : list RaftLogEntry) (b : bytes) : Prop :=
  b = serialized entries \/ b ++ [NEWLINE] = serialized entries.

(** A crash while entries are appended loses no entry that was in the
    file: reopening it returns the old entries and a prefix of the new ones,
    and cuts an incomplete record off. *)
Theorem torn_append_recovers d es es' k :
  quiet d -> d_log d = Some (serialized es ++ take k (serialized es')) ->
  validate_persisted_log_entries (es ++ es') = RaftOk tt ->
  exists m b, read_log_entries d = Done (RaftOk (es ++ take m es')) (set_d_log (Some b) d) /\
    log_file_of (es ++ take m es') b.
Proof using L.
  intros Hq Hb Hv.
  assert (forall m, validate_persisted_log_entries (es ++ take m es') = RaftOk tt) as Hvm.
  { intros m. apply (validate_entries_app _ _ (drop m es')). by rewrite <-app_assoc, take_drop. }
  assert (d = set_d_log (d_log d) d) as Hd by (by destruct d).
  destruct (decide (length (serialized es') <= k)%nat) as [Hall|Htorn].
  - rewrite take_ge in Hb by done. rewrite <-serialized_app in Hb.
    exists (length es'), (serialized (es ++ es')). rewrite take_ge by done. split; [|by left].
    rewrite (read_log_entries_quiet _ _ Hq Hb), read_log_serialized, Hv. by rewrite <-Hb, <-Hd.
  - destruct (take_serialized k es') as (m & e & j & Hm & Hj & Heq); [lia|].
    rewrite Heq, app_assoc, <-serialized_app in Hb.
    rewrite (read_log_entries_quiet _ _ Hq Hb).
    set (pre := es ++ take m es') in *. pose proof (serialized_length pre) as Hlen.
    replace (S (length (serialized pre ++ take j (entry_json e)))) with
      (length pre + S (length (serialized pre) - length pre + length (take j (entry_json e))))%nat
      by (rewrite length_app; lia).
    rewrite read_log_records. destruct j as [|j].
    { exists m, (serialized pre). split; [|by left]. simpl. rewrite app_nil_r.
      unfold pre. rewrite Hvm. fold pre. simpl in Hb. rewrite app_nil_r in Hb. by rewrite <-Hb, <-Hd. }
    assert (exists x r, take (S j) (entry_json e) = x :: r /\ is_ascii_whitespace x = false) as (x & r & Hx & Hxw).
    { destruct (entry_first_visible e) as (x & r & -> & Hxw). by eexists _, _. }
    assert (exists q, (length (serialized pre) - length pre + length (take (S j) (entry_json e)) = S q)%nat)
      as [q ->] by (rewrite Hx; simpl; eexists; by rewrite Nat.add_succ_r).
    rewrite read_log_torn by done. case_bool_decide as Hfull.
    + assert (es ++ take (S m) es' = pre ++ [e]) as Hpre.
      { unfold pre. by rewrite (take_S_r _ _ e), app_assoc. }
      exists (S m), (serialized pre ++ entry_json e). specialize (Hvm (S m)). rewrite Hpre in *.
      rewrite take_ge in Hb by lia. split.
      * cbn [mbind RaftResult_bind]. rewrite Hvm. cbv zeta iota. by rewrite <-Hb, <-Hd.
      * right. by rewrite serialized_app, serialized_cons, <-app_assoc.
    + rewrite bool_decide_eq_false_2.
      * exists m, (serialized pre). split; [|by left].
        cbn [mbind RaftResult_bind]. rewrite app_nil_r. pose proof (Hvm m) as Hm'. fold pre in Hm'.
        rewrite Hm'. cbv zeta iota. rewrite Nat.add_0_l. by rewrite set_len_bytes_app.
      * rewrite Hx. destruct (trim_take x r Hxw) as (n & Hn & ->). destruct n; [lia|done].
Qed.

(** Appending to a file when no call fails. *)
Lemma append_quiet d body n sync :
  quiet d -> (0 < n)%nat ->
  append_serialized_log_entries body n sync d =
  Done (RaftOk tt) (set_d_log (Some (default [] (d_log d) ++ body)) d).
Proof.
  intros Hq Hn. unfold append_serialized_log_entries. rewrite bool_decide_eq_false_2 by lia.
  rewrite (bind_done get _ d d d eq_refl). pose proof Hq as [H1 H2].
  unfold open_creating. rewrite (bindR_ok _ _ _ _ _ (io_call_done _ _ d H1 H2)).
  set (d1 := set_d_log _ d). assert (quiet d1) as Hq1 by done. pose proof Hq1 as [H3 H4].
  assert (forall w s, or_rollback (write_log_bytes body ;;? if sync then io_gate else okR tt) w s sync d1 =
    Done (RaftOk tt) (set_d_log (Some (default [] (d_log d) ++ body)) d)) as Hw.
  { intros w s. unfold or_rollback, write_log_bytes.
    rewrite (bind_done _ _ d1 (RaftOk tt) (set_d_log (Some (default [] (d_log d) ++ body)) d)); [done|].
    rewrite (bindR_ok _ _ _ _ _ (io_call_done _ _ d1 H3 H4)). destruct sync; [|done].
    by rewrite io_gate_quiet. }
  rewrite (bindR_ok _ _ _ _ _ (Hw _ _)). destruct (bool_decide _ && sync); [|done].
  unfold or_rollback. by erewrite (bind_done io_gate) by by apply io_gate_quiet.
Qed.

(** C40: the crash window of the log file: when the machine stops after the last
    record's closing brace and before its newline, the file still opens with
    every entry; the next append, which reports success, continues that line,
    and from then on the file does not open. *)
Theorem torn_newline_corrupts_log d es e e' sync :
  quiet d -> d_log d = Some (serialized es ++ entry_json e) ->
  validate_persisted_log_entries (es ++ [e]) = RaftOk tt ->
  read_log_entries d = Done (RaftOk (es ++ [e])) d /\
  exists d', append_serialized_log_entries (serialized [e']) 1 sync d = Done (RaftOk tt) d' /\
    exists err, read_log_entries d' = Done (RaftErr err) d'.
Proof using L.
  intros Hq Hb Hv. split.
  - rewrite (read_log_entries_quiet _ _ Hq Hb). pose proof (serialized_length es).
    replace (S (length (serialized es ++ entry_json e))) with
      (length es + S (length (serialized es) - length es + length (entry_json e)))%nat
      by (rewrite length_app; lia).
    rewrite read_log_records. pose proof (entry_json_nonempty e) as Hne.
    assert (exists q, (length (serialized es) - length es + length (entry_json e) = S q)%nat) as [q ->].
    { destruct (entry_json e); [done|]. simpl. eexists. by rewrite Nat.add_succ_r. }
    rewrite <-(take_ge (entry_json e) (length (entry_json e))) at 1 by done.
    rewrite read_log_torn by done. rewrite bool_decide_eq_true_2 by done.
    cbn [mbind RaftResult_bind]. by rewrite Hv.
  - rewrite append_quiet by (done || lia). eexists. split; [done|]. rewrite Hb. cbn [from_option id].
    set (d' := set_d_log _ d). rewrite (read_log_entries_quiet d' _ Hq eq_refl).
    rewrite serialized_cons, serialized_nil, <-app_assoc.
    pose proof (serialized_length es).
    set (rest := entry_json e ++ entry_json e' ++ [NEWLINE]).
    replace (S (length (serialized es ++ rest))) with
      (length es + S (length (serialized es) - length es + length rest))%nat
      by (rewrite length_app; lia).
    rewrite read_log_records. unfold rest at 2. rewrite (app_assoc (entry_json e)).
    cbn [read_log_loop]. rewrite split_line_newline
      by (pose proof (entry_one_line e); pose proof (entry_one_line e'); set_solver).
    destruct (entry_first_visible e) as (x & r & Hx & Hxw).
    destruct (entry_last_visible e') as (r' & x' & Hx' & Hxw').
    destruct (entry_first_visible e') as (y & r'' & Hy & Hyw).
    rewrite trim_visible.
    + rewrite bool_decide_eq_false_2 by (by rewrite Hx).
      pose proof (entry_trailing_fails e y r'' Hyw) as Hf. rewrite <-Hy in Hf.
      destruct (entry_of_json (entry_json e ++ entry_json e')) as [|err]; [done|].
      exists err. rewrite Hx. done.
    + rewrite Hx. by eexists _, _.
    + rewrite Hx', app_assoc. by eexists _, _.
Qed.

(** ** Writes that fail *)

(** The files beside the log are untouched. *)
Definition other_files_same (d d' : Disk) : Prop :=
  d_hard_state d' = d_hard_state d /\ d_commit_slots d' = d_commit_slots d /\
  d_snapshot d' = d_snapshot d /\ d_learners d' = d_learners d /\
  d_local_voter_seen d' = d_local_voter_seen d.

#[global] Instance other_files_same_preorder : PreOrder other_files_same.
Proof.
  split; [by intros d|]. intros d1 d2 d3 (?&?&?&?&?) (?&?&?&?&?). repeat split; congruence.
Qed.

Lemma io_gate_spec Q d :
  (forall r fs (stopped : bool),
     Q r (if stopped then freeze (set_d_faults fs d) else set_d_faults fs d)) ->
  wp io_gate Q d.
Proof.
  intros H. apply wp_io; intros.
  - apply (H _ fs false).
  - apply (H _ fs false).
  - apply (H _ fs true).
  - rewrite <-(set_d_faults_id d). apply (H _ _ false).
Qed.

(** The log file holds [base] and the first bytes of [body], beside the other
    files of [d0]. *)
Definition written (d0 : Disk) (base body : bytes) (d : Disk) : Prop :=
  other_files_same d0 d /\ exists k, d_log d = Some (base ++ take k body).

(** A call that keeps the contents, or puts [b] in the log file. *)
Lemma io_log_spec effect (all : Disk -> Disk) (P : Disk -> Prop) (Q : RaftResult unit -> Disk -> Prop) d :
  P d ->
  (forall d, P d -> forall fs, P (set_d_faults fs d)) ->
  (forall d, P d -> P (freeze d)) ->
  (forall d, P d -> Q (RaftOk tt) (all d)) ->
  (forall d k, P d -> P (effect k d)) ->
  (forall d e, P d -> Q (RaftErr e) d) ->
  wp (io_call effect all) Q d.
Proof. intros HP Hs Hz Ha He HQ. apply wp_io; intros; eauto 6. Qed.

Lemma written_faults d0 base body d fs :
  written d0 base body d -> written d0 base body (set_d_faults fs d).
Proof. done. Qed.

Lemma written_freeze d0 base body d : written d0 base body d -> written d0 base body (freeze d).
Proof. done. Qed.

Lemma written_cut d0 base body d :
  written d0 base body d ->
  written d0 base body (set_d_log (Some (set_len_bytes (length base) (default [] (d_log d)))) d).
Proof.
  intros [Ho [k Hk]]. split; [done|]. exists 0%nat. simpl. rewrite Hk. simpl.
  by rewrite set_len_bytes_app, app_nil_r.
Qed.
#[local] Hint Resolve written_faults written_freeze written_cut : core.

Lemma rollback_spec d0 base body sync d :
  written d0 base body d ->
  wp (rollback_log_file_len (length base) sync) (fun _ d' => written d0 base body d') d.
Proof.
  intros Hw. unfold rollback_log_file_len. apply wp_bind, wp_get.
  destruct (d_log d) as [b|] eqn:Hd; [|by apply wp_ret].
  apply wp_bindR, (io_log_spec _ _ (written d0 base body)); eauto.
  intros d1 H1. apply wp_bindR, (io_log_spec _ _ (written d0 base body)); eauto.
  - intros d2 H2. destruct sync; [|apply wp_ret; eauto].
    apply (io_log_spec _ _ (written d0 base body)); eauto.
  - intros d2 [|k] H2; simpl; eauto.
Qed.

Lemma or_rollback_spec m d0 base body what sync (Q : RaftResult unit -> Disk -> Prop) d :
  (forall r d, written d0 base body d -> r <> RaftOk tt -> Q r d) ->
  wp m (fun r d' => match r with
                    | RaftOk _ => Q (RaftOk tt) d'
                    | RaftErr _ => written d0 base body d'
                    end) d ->
  wp (or_rollback m what (length base) sync) Q d.
Proof.
  intros HQ Hm. unfold or_rollback. apply wp_bind. eapply wp_mono; [exact Hm|].
  intros [[]|e] d1 H1; [by apply wp_ret|]. apply wp_bind. unfold rollback_log_write_after_failure.
  apply wp_bind. eapply wp_mono; [by apply rollback_spec|]. intros r d2 H2.
  destruct r; apply wp_ret, wp_ret; by apply HQ.
Qed.

(** The bytes are written and synced: all of them, or some of them. *)
Lemma write_body_spec d0 base body (sync : bool) d :
  other_files_same d0 d -> d_log d = Some base ->
  wp (write_log_bytes body ;;? if sync then io_gate else okR tt)
    (fun (r : RaftResult unit) d' => match r with
                 | RaftOk _ => other_files_same d0 d' /\ d_log d' = Some (base ++ body)
                 | RaftErr _ => written d0 base body d'
                 end) d.
Proof.
  intros Ho Hd. assert (written d0 base body d) as Hw.
  { split; [done|]. exists 0%nat. by rewrite app_nil_r. }
  assert (forall k fs, written d0 base body
    (set_d_log (Some (default [] (d_log (set_d_faults fs d)) ++ take k body)) (set_d_faults fs d))) as Hk.
  { intros k fs. split; [done|]. exists k. simpl. by rewrite Hd. }
  apply wp_bindR, wp_io; eauto.
  intros fs. set (d1 := set_d_log _ _). assert (other_files_same d0 d1) as Ho1 by done.
  assert (d_log d1 = Some (base ++ body)) as Hd1 by (simpl; by rewrite Hd).
  destruct sync; [|by apply wp_ret]. apply io_gate_spec. intros [[]|e] fs' []; simpl.
  - done.
  - done.
  - split; [done|]. exists (length body). by rewrite take_ge.
  - split; [done|]. exists (length body). by rewrite take_ge.
Qed.

(** The outcomes of an append: everything, nothing, or a part. *)
Lemma append_outcomes body n sync d :
  (0 < n)%nat ->
  let base := default [] (d_log d) in
  wp (append_serialized_log_entries body n sync)
    (fun r d' => other_files_same d d' /\
       match r with
       | RaftOk _ => d_log d' = Some (base ++ body)
       | RaftErr _ => d_log d' = d_log d \/ exists k, d_log d' = Some (base ++ take k body)
       end) d.
Proof.
  intros Hn base. unfold append_serialized_log_entries. rewrite bool_decide_eq_false_2 by lia.
  apply wp_bind, wp_get, wp_bindR, wp_io; [|intros; split; [done|by left]..].
  intros fs. set (d1 := set_d_log _ _). fold base. apply wp_bindR.
  assert (forall r d', written d base body d' -> r <> RaftOk tt ->
    other_files_same d d' /\ match r with
       | RaftOk _ => d_log d' = Some (base ++ body)
       | RaftErr _ => d_log d' = d_log d \/ exists k, d_log d' = Some (base ++ take k body)
       end) as Hpost.
  { intros [[]|e] d' [Ho Hk] Hr; [done|]. auto. }
  apply (or_rollback_spec _ d base body).
  { intros [[]|e] d' Hw Hr; [done|]. apply (Hpost (RaftErr e) d' Hw Hr). }
  eapply wp_mono; [by apply write_body_spec|]. intros [[]|e] d2 H2; [|done].
  destruct (_ && _); [|by apply wp_ret]. apply (or_rollback_spec _ d base body); [done|].
  apply io_gate_spec. intros [[]|e] fs' []; simpl; try done; destruct H2 as [Ho Hd];
    (split; [done|]); exists (length body); by rewrite take_ge.
Qed.

(** The machine restarts: no call fails from here on. *)
Definition reboot (d : Disk) : Disk :=
  mkDisk (d_log d) (d_hard_state d) (d_commit_slots d) (d_snapshot d) (d_learners d)
    (d_local_voter_seen d) [] false.


End recovery.

End read.
End calls.
