(* ===== verification/RaftLog.v ===== *)
(** * The log store of a Raft node

    [src/src/broker_raft.rs], [RaftLogState] and [RaftLogStore]: the retained
    log and its indexes (2948-2962, 25056-25073, 25257-25423), range queries
    (3637-3675, 24551-24580), the checks of incoming entries (24830-24871,
    24997-25054, 25129-25244) and of request identities (1698-1868), the
    operations that write the log and the hard state (3396-3453, 3757-3960,
    3987-4365), snapshots and compaction (4409-4738), and opening the store
    (3246-3387, 24925-24995).

    The store is its in-memory state beside the disk of [RaftFiles]; its mutex
    makes each operation atomic.  Telemetry and log lines are left out. *)

From S2P Require Import Prelude Text Monad Protocol RaftQuorum RaftGrant RaftValidate RaftCache RaftFiles.
From S2P Require Import BrokerSnapshot.
From stdpp Require Import options.

(** [u64::saturating_sub] *)
Definition saturating_sub64 (a b : Z) : Z := Z.max (a - b) 0.

(** ** Range queries on the retained log *)

(** [slice::partition_point]: the length of the prefix that satisfies [p] (the
    slice is partitioned by [p]). *)
Fixpoint partition_point {A} (p : A -> bool) (l : list A) : nat :=
  match l with
  | [] => 0
  | x :: l => if p x then S (partition_point p l) else 0
  end.

Definition retained_entry_lower_bound (entries : list RaftLogEntry) (index : Z) : nat :=
  partition_point (fun entry => bool_decide (le_index entry < index)) entries.

Definition retained_entry_upper_bound (entries : list RaftLogEntry) (index : Z) : nat :=
  partition_point (fun entry => bool_decide (le_index entry <= index)) entries.

(** [retained_entry_at] *)
Definition retained_entry_at (entries : list RaftLogEntry) (index : Z) : option RaftLogEntry :=
  match entries !! retained_entry_lower_bound entries index with
  | Some entry => if bool_decide (le_index entry = index) then Some entry else None
  | None => None
  end.

(** [entries_range_cached]; [None] is the panic of a slice whose start lies
    after its end. *)
Definition entries_range_cached (entries : list RaftLogEntry) (start_index end_index : Z)
    : option (list RaftLogEntry) :=
  if bool_decide (end_index < start_index) then Some []
  else
    let start_index := Z.max start_index 1 in
    let start := retained_entry_lower_bound entries start_index in
    let end_ := retained_entry_upper_bound entries end_index in
    if bool_decide (end_ < start)%nat then None
    else Some (take (end_ - start) (drop start entries)).

(** The loop of [entries_range] over the entries found. *)
Fixpoint covered_through_loop (covered_through : Z) (entries : list RaftLogEntry) : Z :=
  match entries with
  | [] => covered_through
  | entry :: entries =>
      if bool_decide (le_index entry <= covered_through)
      then covered_through_loop covered_through entries
      else if bool_decide (le_index entry <> saturating_add64 covered_through 1)
      then covered_through
      else covered_through_loop (le_index entry) entries
  end.

(** [entries_range] on the parts of the state it reads. *)
Definition entries_range_of (retained : list RaftLogEntry) (snapshot_index start_index end_index : Z)
    : option (RaftResult (list RaftLogEntry)) :=
  if bool_decide (end_index < start_index) then Some (RaftOk [])
  else
    match entries_range_cached retained start_index end_index with
    | None => None
    | Some entries =>
        let covered_through :=
          if bool_decide (Z.max start_index 1 <= snapshot_index) then snapshot_index
          else saturating_sub64 (Z.max start_index 1) 1 in
        let covered_through := covered_through_loop covered_through entries in
        if bool_decide (covered_through < end_index) then
          Some (RaftErr (EInvalidLog ("log is missing committed entry range "
            +:+ pretty start_index +:+ "..=" +:+ pretty end_index)%string))
        else Some (RaftOk entries)
    end.

(** ** Request identities *)

Record RetainedRequestIdentityFingerprint : Type := mkRetainedRequestIdentityFingerprint {
  rf_request_fingerprint : string;
  rf_first_index : Z;
}.

(** The identity a command carries. *)
Definition command_identity (command : RaftCommand) : option (string * string) :=
  match command with
  | ClientRequestWithIdentity _ _ _ request_id request_fingerprint =>
      Some (request_id, request_fingerprint)
  | _ => None
  end.

Definition reused_id_error (entry : RaftLogEntry) (request_id suffix : string) : string :=
  ("entry index " +:+ pretty (le_index entry) +:+ " reuses request id `" +:+ request_id
     +:+ "` with a different request fingerprint" +:+ suffix)%string.

(** [add_client_request_identity_entries] *)
Fixpoint add_client_request_identity_entries (fingerprints : gmap string string)
    (entries : list RaftLogEntry) : RaftResult (gmap string string) :=
  match entries with
  | [] => RaftOk fingerprints
  | entry :: entries =>
      match command_identity (le_command entry) with
      | None => add_client_request_identity_entries fingerprints entries
      | Some (request_id, request_fingerprint) =>
          match fingerprints !! request_id with
          | Some previous =>
              if bool_decide (previous <> request_fingerprint) then
                RaftErr (EInvalidLog (reused_id_error entry request_id ""))
              else add_client_request_identity_entries fingerprints entries
          | None =>
              add_client_request_identity_entries
                (<[request_id := request_fingerprint]> fingerprints) entries
          end
      end
  end.

(** [validate_client_request_identity_entries] *)
Definition validate_client_request_identity_entries (fingerprints : gmap string string)
    (entries : list RaftLogEntry) : RaftResult unit :=
  _ ← add_client_request_identity_entries fingerprints entries; RaftOk tt.

Abbreviation retained_fingerprints := (gmap string RetainedRequestIdentityFingerprint).

(** [add_retained_request_identity_entries] *)
Fixpoint add_retained_request_identity_entries (fingerprints : retained_fingerprints)
    (entries : list RaftLogEntry) : RaftResult retained_fingerprints :=
  match entries with
  | [] => RaftOk fingerprints
  | entry :: entries =>
      match command_identity (le_command entry) with
      | None => add_retained_request_identity_entries fingerprints entries
      | Some (request_id, request_fingerprint) =>
          match fingerprints !! request_id with
          | Some previous =>
              if bool_decide (rf_request_fingerprint previous <> request_fingerprint) then
                RaftErr (EInvalidLog (reused_id_error entry request_id ""))
              else
                add_retained_request_identity_entries
                  (<[request_id := mkRetainedRequestIdentityFingerprint
                       (rf_request_fingerprint previous)
                       (Z.min (rf_first_index previous) (le_index entry))]> fingerprints) entries
          | None =>
              add_retained_request_identity_entries
                (<[request_id := mkRetainedRequestIdentityFingerprint request_fingerprint
                     (le_index entry)]> fingerprints) entries
          end
      end
  end.

(** [retained_request_identity_fingerprints_after] *)
Definition retained_request_identity_fingerprints_after (entries : list RaftLogEntry)
    (retained_after_index : Z) : RaftResult retained_fingerprints :=
  add_retained_request_identity_entries ∅
    (drop (retained_entry_upper_bound entries retained_after_index) entries).

(** [truncate_retained_request_identity_fingerprints] *)
Definition truncate_retained_request_identity_fingerprints (fingerprints : retained_fingerprints)
    (retained_prefix_last_index : Z) : retained_fingerprints :=
  if bool_decide (retained_prefix_last_index = 0) then ∅
  else filter (fun kv : string * RetainedRequestIdentityFingerprint =>
                 rf_first_index kv.2 <= retained_prefix_last_index) fingerprints.

(** [entries_have_client_request_identities] *)
Definition entries_have_client_request_identities (entries : list RaftLogEntry) : bool :=
  existsb (fun entry => match command_identity (le_command entry) with
                        | Some _ => true | None => false end) entries.

(** The loop of [validate_repaired_request_identity_context], from the
    identities already met in the suffix. *)
Fixpoint identity_context_loop (snapshot_client_response_fingerprints : gmap string string)
    (retained_request_fingerprints : retained_fingerprints) (retained_prefix_last_index : Z)
    (incoming_fingerprints : gmap string string) (suffix : list RaftLogEntry) : RaftResult unit :=
  match suffix with
  | [] => RaftOk tt
  | entry :: suffix =>
      match command_identity (le_command entry) with
      | None =>
          identity_context_loop snapshot_client_response_fingerprints retained_request_fingerprints
            retained_prefix_last_index incoming_fingerprints suffix
      | Some (request_id, request_fingerprint) =>
          let conflicts (fingerprint : option string) :=
            match fingerprint with
            | Some fingerprint => bool_decide (fingerprint <> request_fingerprint)
            | None => false
            end in
          let retained :=
            match retained_request_fingerprints !! request_id with
            | Some fingerprint =>
                if bool_decide (0 < retained_prefix_last_index)
                   && bool_decide (rf_first_index fingerprint <= retained_prefix_last_index)
                then Some (rf_request_fingerprint fingerprint) else None
            | None => None
            end in
          if conflicts (snapshot_client_response_fingerprints !! request_id) then
            RaftErr (EInvalidAppendEntries
              (reused_id_error entry request_id " from snapshotted idempotency context"))
          else if conflicts retained then
            RaftErr (EInvalidAppendEntries
              (reused_id_error entry request_id " from retained log context"))
          else if conflicts (incoming_fingerprints !! request_id) then
            RaftErr (EInvalidAppendEntries
              (reused_id_error entry request_id " inside append entries"))
          else
            identity_context_loop snapshot_client_response_fingerprints
              retained_request_fingerprints retained_prefix_last_index
              (<[request_id := request_fingerprint]> incoming_fingerprints) suffix
      end
  end.

(** [validate_repaired_request_identity_context] *)
Definition validate_repaired_request_identity_context
    (snapshot_client_response_fingerprints : gmap string string)
    (retained_request_fingerprints : retained_fingerprints) (retained_prefix_last_index : Z)
    (suffix : list RaftLogEntry) : RaftResult unit :=
  if negb (entries_have_client_request_identities suffix) then RaftOk tt
  else identity_context_loop snapshot_client_response_fingerprints retained_request_fingerprints
         retained_prefix_last_index ∅ suffix.

(** ** Sizes of the retained entries in the log file *)

(** [validate_retained_log_entry_bytes_len] *)
Definition validate_retained_log_entry_bytes_len (retained_len retained_sizes_len : nat)
    : RaftResult unit :=
  if bool_decide (retained_len <> retained_sizes_len) then
    RaftErr (EInvalidLog ("retained log byte-size cache has " +:+ pretty retained_sizes_len
      +:+ " entries for " +:+ pretty retained_len +:+ " retained log entries")%string)
  else RaftOk tt.

(** [retained_log_entry_file_len]: the line of an entry with its newline. *)
Definition retained_log_entry_file_len (entry_len : nat) : RaftResult Z :=
  if bool_decide (u64_max < Z.of_nat entry_len + 1) then
    RaftErr (EInvalidLog "retained log entry line length overflowed u64")
  else RaftOk (Z.of_nat entry_len + 1).

(** The fold of [retained_prefix_file_len]. *)
Fixpoint prefix_file_len_loop (sum : Z) (lens : list nat) : RaftResult Z :=
  match lens with
  | [] => RaftOk sum
  | len :: lens =>
      line_len ← retained_log_entry_file_len len;
      if bool_decide (u64_max < sum + line_len) then
        RaftErr (EInvalidLog "retained log prefix byte length overflowed u64")
      else prefix_file_len_loop (sum + line_len) lens
  end.

(** [retained_prefix_file_len] *)
Definition retained_prefix_file_len (entry_bytes : list nat) (prefix_len : nat) : RaftResult Z :=
  if bool_decide (length entry_bytes < prefix_len)%nat then
    RaftErr (EInvalidLog ("retained log prefix length " +:+ pretty prefix_len
      +:+ " exceeds byte-size cache length " +:+ pretty (length entry_bytes))%string)
  else prefix_file_len_loop 0 (take prefix_len entry_bytes).

(** [retained_log_prefix_file_len] *)
Definition retained_log_prefix_file_len (entries : list RaftLogEntry) (entry_bytes : list nat)
    (prefix_len : nat) : RaftResult Z :=
  _ ← validate_retained_log_entry_bytes_len (length entries) (length entry_bytes);
  retained_prefix_file_len entry_bytes prefix_len.

(** [retained_log_entry_bytes_suffix] *)
Definition retained_log_entry_bytes_suffix (entries : list RaftLogEntry) (entry_bytes : list nat)
    (suffix_start : nat) : RaftResult (list nat) :=
  _ ← validate_retained_log_entry_bytes_len (length entries) (length entry_bytes);
  if bool_decide (length entries < suffix_start)%nat then
    RaftErr (EInvalidLog ("retained log suffix start " +:+ pretty suffix_start
      +:+ " exceeds retained log entries length " +:+ pretty (length entries))%string)
  else RaftOk (drop suffix_start entry_bytes).

(** ** Checks of entries *)

(** [validate_snapshot_log_boundary] *)
Definition validate_snapshot_log_boundary (entries : list RaftLogEntry)
    (latest_snapshot : option RaftSnapshotMetadata) : RaftResult unit :=
  match head entries, last entries with
  | Some first, Some last =>
      match latest_snapshot with
      | None =>
          if bool_decide (le_index first <> 1) then
            RaftErr (EInvalidLog ("log starts at index " +:+ pretty (le_index first)
              +:+ " without a snapshot covering indexes before it")%string)
          else RaftOk tt
      | Some snapshot =>
          let snapshot_index := sm_last_included_index snapshot in
          let snapshot_term := sm_last_included_term snapshot in
          if bool_decide (le_index last < snapshot_index) then
            RaftErr (EInvalidLog ("retained log ends at index " +:+ pretty (le_index last)
              +:+ " before snapshot index " +:+ pretty snapshot_index)%string)
          else if bool_decide (snapshot_index = u64_max) then
            RaftErr (EInvalidLog ("snapshot index " +:+ pretty snapshot_index
              +:+ " cannot be followed by retained log entries")%string)
          else if bool_decide (snapshot_index + 1 < le_index first) then
            RaftErr (EInvalidLog ("retained log starts at index " +:+ pretty (le_index first)
              +:+ " but snapshot only covers through " +:+ pretty snapshot_index
              +:+ "; missing index " +:+ pretty (snapshot_index + 1))%string)
          else if bool_decide (le_index first <= snapshot_index) then
            match List.find (fun entry => bool_decide (le_index entry = snapshot_index)) entries with
            | None =>
                RaftErr (EInvalidLog ("retained log crosses snapshot index "
                  +:+ pretty snapshot_index +:+ " but does not contain it")%string)
            | Some snapshot_entry =>
                if bool_decide (le_term snapshot_entry <> snapshot_term) then
                  RaftErr (EInvalidLog ("retained log term " +:+ pretty (le_term snapshot_entry)
                    +:+ " at snapshot index " +:+ pretty snapshot_index
                    +:+ " does not match snapshot term " +:+ pretty snapshot_term)%string)
                else RaftOk tt
            end
          else RaftOk tt
      end
  | _, _ => RaftOk tt
  end.

Section checks.
Context `{D : RequestDigest}.

(** [validate_log_entries_for_snapshot] *)
Definition validate_log_entries_for_snapshot (entries : list RaftLogEntry)
    (latest_snapshot : option RaftSnapshotMetadata) : RaftResult unit :=
  _ ← validate_persisted_log_entries entries;
  validate_snapshot_log_boundary entries latest_snapshot.

(** [validate_repaired_log_suffix] *)
Definition validate_repaired_log_suffix (retained_entries : list RaftLogEntry)
    (retained_prefix_len : nat) (suffix : list RaftLogEntry)
    (latest_snapshot : option RaftSnapshotMetadata) : RaftResult unit :=
  if bool_decide (length retained_entries < retained_prefix_len)%nat then
    RaftErr (EInvalidLog ("retained log prefix length " +:+ pretty retained_prefix_len
      +:+ " exceeds retained entry count " +:+ pretty (length retained_entries))%string)
  else
    let prefix := take retained_prefix_len retained_entries in
    _ ← validate_persisted_log_entries suffix;
    _ ← (if bool_decide (prefix = []) then validate_snapshot_log_boundary suffix latest_snapshot
         else validate_snapshot_log_boundary prefix latest_snapshot);
    match last prefix, head suffix with
    | Some prev, Some first_suffix =>
        if bool_decide (le_index prev = u64_max) then
          RaftErr (EInvalidLog ("entry index " +:+ pretty (le_index prev)
            +:+ " cannot be followed by another entry")%string)
        else if bool_decide (le_index first_suffix <> le_index prev + 1) then
          RaftErr (EInvalidLog ("entry index " +:+ pretty (le_index first_suffix)
            +:+ " is not contiguous after retained prefix index " +:+ pretty (le_index prev)
            +:+ "; expected " +:+ pretty (le_index prev + 1))%string)
        else if bool_decide (le_term first_suffix < le_term prev) then
          RaftErr (EInvalidLog ("entry index " +:+ pretty (le_index first_suffix) +:+ " has term "
            +:+ pretty (le_term first_suffix) +:+ " older than retained prefix term "
            +:+ pretty (le_term prev))%string)
        else RaftOk tt
    | _, _ => RaftOk tt
    end.

(** The loop of [validate_append_entries_shape]. *)
Fixpoint append_shape_loop (prev_log_index leader_term expected_index prev_log_term : Z)
    (entries : list RaftLogEntry) : RaftResult unit :=
  match entries with
  | [] => RaftOk tt
  | entry :: entries =>
      if bool_decide (le_index entry = 0) then
        RaftErr (EInvalidAppendEntries "entry index must be >= 1")
      else if bool_decide (le_index entry <> expected_index) then
        RaftErr (EInvalidAppendEntries ("entry index " +:+ pretty (le_index entry)
          +:+ " is not contiguous after prevLogIndex " +:+ pretty prev_log_index
          +:+ "; expected " +:+ pretty expected_index)%string)
      else if bool_decide (le_term entry = 0) then
        RaftErr (EInvalidAppendEntries ("entry index " +:+ pretty (le_index entry)
          +:+ " has term 0")%string)
      else if bool_decide (le_term entry < prev_log_term) then
        RaftErr (EInvalidAppendEntries ("entry index " +:+ pretty (le_index entry) +:+ " has term "
          +:+ pretty (le_term entry) +:+ " older than previous term " +:+ pretty prev_log_term)%string)
      else if bool_decide (leader_term < le_term entry) then
        RaftErr (EInvalidAppendEntries ("entry index " +:+ pretty (le_index entry) +:+ " has term "
          +:+ pretty (le_term entry) +:+ " greater than leader term " +:+ pretty leader_term)%string)
      else
        _ ← map_err (fun err => EInvalidAppendEntries ("entry index " +:+ pretty (le_index entry)
              +:+ " has invalid command: " +:+ error_display err)%string)
              (validate_raft_command (le_command entry));
        if negb (bool_decide (entries = [])) && bool_decide (le_index entry = u64_max) then
          RaftErr (EInvalidAppendEntries ("entry index " +:+ pretty (le_index entry)
            +:+ " cannot be followed by another entry without overflowing u64")%string)
        else
          append_shape_loop prev_log_index leader_term (le_index entry + 1) (le_term entry) entries
  end.

(** [validate_append_entries_shape] *)
Definition validate_append_entries_shape (prev_log_index prev_log_term leader_term : Z)
    (entries : list RaftLogEntry) : RaftResult unit :=
  if bool_decide (leader_term = 0) then
    RaftErr (EInvalidAppendEntries "leader term must be >= 1")
  else if bool_decide (prev_log_index = 0) && bool_decide (prev_log_term <> 0) then
    RaftErr (EInvalidAppendEntries "prevLogTerm must be 0 when prevLogIndex is 0")
  else if bool_decide (0 < prev_log_index) && bool_decide (prev_log_term = 0) then
    RaftErr (EInvalidAppendEntries "prevLogTerm must be >= 1 when prevLogIndex is nonzero")
  else if bool_decide (leader_term < prev_log_term) then
    RaftErr (EInvalidAppendEntries "prevLogTerm cannot exceed leader term")
  else if bool_decide (prev_log_index = u64_max) then
    if bool_decide (entries = []) then RaftOk tt
    else RaftErr (EInvalidAppendEntries "prevLogIndex is too large for non-empty entries")
  else append_shape_loop prev_log_index leader_term (prev_log_index + 1) prev_log_term entries.

End checks.

(** ** The state of the log *)

Record RetainedAgeCompactionCache : Type := mkRetainedAgeCompactionCache {
  ac_max_age_ms : Z;
  ac_oldest_retained_ms : Z;
  ac_max_through_index : Z;
  ac_eligible_index : option Z;
}.

Record RaftLogState : Type := mkRaftLogState {
  last_index : Z;
  last_term : Z;
  hard_state : RaftHardState;
  hard_state_commit_generation : Z;
  latest_snapshot : option RaftSnapshotMetadata;
  snapshot_client_response_fingerprints : gmap string string;
  retained_request_fingerprints : retained_fingerprints;
  retained_log_entries : list RaftLogEntry;
  retained_log_entry_bytes : list nat;
  term_by_index : gmap Z Z;
  first_index_by_term : gmap Z Z;
  last_index_by_term : gmap Z Z;
  age_compaction_cache : option RetainedAgeCompactionCache;
}.

(** The three indexes, and the step that adds an entry to them: [insert],
    [entry(..).or_insert(..)], [insert]. *)
Definition add_term_index (maps : gmap Z Z * gmap Z Z * gmap Z Z) (entry : RaftLogEntry)
    : gmap Z Z * gmap Z Z * gmap Z Z :=
  let '(by_index, first_by_term, last_by_term) := maps in
  (<[le_index entry := le_term entry]> by_index,
   (if first_by_term !! le_term entry is Some _ then first_by_term
    else <[le_term entry := le_index entry]> first_by_term),
   <[le_term entry := le_index entry]> last_by_term).

(** [term_indexes_from_entries] *)
Definition term_indexes_from_entries (entries : list RaftLogEntry)
    : gmap Z Z * gmap Z Z * gmap Z Z := foldl add_term_index (∅, ∅, ∅) entries.

Definition snapshot_index_of (s : RaftLogState) : Z :=
  default 0 (sm_last_included_index <$> latest_snapshot s).

(** [term_at_index] *)
Definition term_at_index (state : RaftLogState) (index : Z) : option Z :=
  if bool_decide (index = 0) then Some 0
  else
    match term_by_index state !! index with
    | Some term => Some term
    | None =>
        match latest_snapshot state with
        | Some snapshot =>
            if bool_decide (sm_last_included_index snapshot = index)
            then Some (sm_last_included_term snapshot) else None
        | None => None
        end
    end.

(** The snapshot's index when its term is [term]. *)
Definition snapshot_index_for_term (state : RaftLogState) (term : Z) : option Z :=
  match latest_snapshot state with
  | Some snapshot =>
      if bool_decide (sm_last_included_term snapshot = term)
      then Some (sm_last_included_index snapshot) else None
  | None => None
  end.

(** [first_index_for_term] *)
Definition first_index_for_term (state : RaftLogState) (term : Z) : option Z :=
  match first_index_by_term state !! term with
  | Some index => Some index
  | None => snapshot_index_for_term state term
  end.

(** [last_index_for_term] *)
Definition last_index_for_term (state : RaftLogState) (term : Z) : option Z :=
  match last_index_by_term state !! term with
  | Some index => Some index
  | None => snapshot_index_for_term state term
  end.

(** [candidate_log_is_fresh_for_state] *)
Definition candidate_log_is_fresh_for_state (log_state : RaftLogState)
    (candidate_last_log_index candidate_last_log_term : Z) : bool :=
  bool_decide (last_term log_state < candidate_last_log_term)
  || bool_decide (candidate_last_log_term = last_term log_state)
     && bool_decide (last_index log_state <= candidate_last_log_index).

Definition set_last (index term : Z) (s : RaftLogState) : RaftLogState :=
  mkRaftLogState index term (hard_state s) (hard_state_commit_generation s) (latest_snapshot s)
    (snapshot_client_response_fingerprints s) (retained_request_fingerprints s)
    (retained_log_entries s) (retained_log_entry_bytes s) (term_by_index s) (first_index_by_term s)
    (last_index_by_term s) (age_compaction_cache s).
Definition set_hard_state (hs : RaftHardState) (s : RaftLogState) : RaftLogState :=
  mkRaftLogState (last_index s) (last_term s) hs (hard_state_commit_generation s)
    (latest_snapshot s) (snapshot_client_response_fingerprints s) (retained_request_fingerprints s)
    (retained_log_entries s) (retained_log_entry_bytes s) (term_by_index s) (first_index_by_term s)
    (last_index_by_term s) (age_compaction_cache s).
Definition set_commit_generation (generation : Z) (s : RaftLogState) : RaftLogState :=
  mkRaftLogState (last_index s) (last_term s) (hard_state s) generation (latest_snapshot s)
    (snapshot_client_response_fingerprints s) (retained_request_fingerprints s)
    (retained_log_entries s) (retained_log_entry_bytes s) (term_by_index s) (first_index_by_term s)
    (last_index_by_term s) (age_compaction_cache s).
Definition set_snapshot (snapshot : option RaftSnapshotMetadata) (fps : gmap string string)
    (s : RaftLogState) : RaftLogState :=
  mkRaftLogState (last_index s) (last_term s) (hard_state s) (hard_state_commit_generation s)
    snapshot fps (retained_request_fingerprints s) (retained_log_entries s)
    (retained_log_entry_bytes s) (term_by_index s) (first_index_by_term s) (last_index_by_term s)
    (age_compaction_cache s).
Definition set_retained_fingerprints (fps : retained_fingerprints) (s : RaftLogState)
    : RaftLogState :=
  mkRaftLogState (last_index s) (last_term s) (hard_state s) (hard_state_commit_generation s)
    (latest_snapshot s) (snapshot_client_response_fingerprints s) fps (retained_log_entries s)
    (retained_log_entry_bytes s) (term_by_index s) (first_index_by_term s) (last_index_by_term s)
    (age_compaction_cache s).
Definition set_entries (entries : list RaftLogEntry) (sizes : list nat) (s : RaftLogState)
    : RaftLogState :=
  mkRaftLogState (last_index s) (last_term s) (hard_state s) (hard_state_commit_generation s)
    (latest_snapshot s) (snapshot_client_response_fingerprints s) (retained_request_fingerprints s)
    entries sizes (term_by_index s) (first_index_by_term s) (last_index_by_term s)
    (age_compaction_cache s).
Definition set_term_indexes (maps : gmap Z Z * gmap Z Z * gmap Z Z) (s : RaftLogState)
    : RaftLogState :=
  mkRaftLogState (last_index s) (last_term s) (hard_state s) (hard_state_commit_generation s)
    (latest_snapshot s) (snapshot_client_response_fingerprints s) (retained_request_fingerprints s)
    (retained_log_entries s) (retained_log_entry_bytes s) maps.1.1 maps.1.2 maps.2
    (age_compaction_cache s).
Definition set_age_cache (cache : option RetainedAgeCompactionCache) (s : RaftLogState)
    : RaftLogState :=
  mkRaftLogState (last_index s) (last_term s) (hard_state s) (hard_state_commit_generation s)
    (latest_snapshot s) (snapshot_client_response_fingerprints s) (retained_request_fingerprints s)
    (retained_log_entries s) (retained_log_entry_bytes s) (term_by_index s) (first_index_by_term s)
    (last_index_by_term s) cache.

(** The index and term a log ends at. *)
Definition log_end (entries : list RaftLogEntry) (snapshot : option RaftSnapshotMetadata) : Z * Z :=
  match last entries with
  | Some entry => (le_index entry, le_term entry)
  | None =>
      match snapshot with
      | Some snapshot => (sm_last_included_index snapshot, sm_last_included_term snapshot)
      | None => (0, 0)
      end
  end.

(** [replace_retained_log_state_with_fingerprints], after its length check. *)
Definition replace_retained_log_state_with_fingerprints (s : RaftLogState)
    (retained : list RaftLogEntry) (retained_sizes : list nat) (fps : retained_fingerprints)
    : RaftResult RaftLogState :=
  _ ← validate_retained_log_entry_bytes_len (length retained) (length retained_sizes);
  let '(index, term) := log_end retained (latest_snapshot s) in
  RaftOk (set_age_cache None (set_term_indexes (term_indexes_from_entries retained)
    (set_retained_fingerprints fps (set_entries retained retained_sizes (set_last index term s))))).

(** [replace_retained_log_state] *)
Definition replace_retained_log_state (s : RaftLogState) (retained : list RaftLogEntry)
    (retained_sizes : list nat) : RaftResult RaftLogState :=
  _ ← validate_retained_log_entry_bytes_len (length retained) (length retained_sizes);
  fps ← retained_request_identity_fingerprints_after retained (snapshot_index_of s);
  replace_retained_log_state_with_fingerprints s retained retained_sizes fps.

(** [refresh_retained_request_identity_fingerprints_for_snapshot_boundary] *)
Definition refresh_retained_request_identity_fingerprints (s : RaftLogState)
    : RaftResult RaftLogState :=
  fps ← retained_request_identity_fingerprints_after (retained_log_entries s) (snapshot_index_of s);
  RaftOk (set_retained_fingerprints fps s).

(** [validate_snapshot_client_responses_against_retained_suffix] *)
Definition validate_snapshot_client_responses_against_retained_suffix (s : RaftLogState)
    (snapshot_index : Z) (fps : gmap string string) : RaftResult unit :=
  validate_client_request_identity_entries fps
    (drop (retained_entry_upper_bound (retained_log_entries s) snapshot_index)
       (retained_log_entries s)).

(** ** The store *)

Inductive HardStateVotePolicy : Type :=
| PreserveSameTermVote
| ForceClearSameTermVote.

#[global] Instance HardStateVotePolicy_eq_dec : EqDecision HardStateVotePolicy.
Proof. solve_decision. Defined.

Record RaftAppendReport : Type := mkRaftAppendReport {
  ar_success : bool;
  ar_match_index : Z;
  ar_conflict_index : option Z;
  ar_conflict_term : option Z;
  ar_appended_entries : nat;
  ar_rewritten_entries : nat;
  ar_truncated_entries : nat;
}.

Record RaftCompactionReport : Type := mkRaftCompactionReport {
  cp_compacted_through_index : Z;
  cp_compacted_entries : nat;
  cp_compacted_bytes : Z;
  cp_retained_entries : nat;
  cp_retained_bytes : Z;
}.

Section store.
Context `{D : RequestDigest} `{C : RaftCodec}.

Record RaftLogStore : Type := mkRaftLogStore {
  ls_sync_log : bool;
  ls_sync_commit : bool;
  ls_startup_trailing_log_entries : Z;
  ls_state : RaftLogState;
  ls_disk : Disk;
}.

Definition set_ls_state (s : RaftLogState) (st : RaftLogStore) : RaftLogStore :=
  mkRaftLogStore (ls_sync_log st) (ls_sync_commit st) (ls_startup_trailing_log_entries st) s
    (ls_disk st).
Definition set_ls_disk (d : Disk) (st : RaftLogStore) : RaftLogStore :=
  mkRaftLogStore (ls_sync_log st) (ls_sync_commit st) (ls_startup_trailing_log_entries st)
    (ls_state st) d.

(** Run a file operation. *)
Definition on_disk {A} (m : M Disk A) : M RaftLogStore A := fun st =>
  match m (ls_disk st) with
  | Done a d => Done a (set_ls_disk d st)
  | Panicked msg => Panicked msg
  | OutOfFuel => OutOfFuel
  end.

Definition modify_state (f : RaftLogState -> RaftLogState) : M RaftLogStore unit :=
  modify (fun st => set_ls_state (f (ls_state st)) st).

(** A check that returns early. *)
Definition check {A} (r : RaftResult A) : M RaftLogStore (RaftResult A) := mret r.

(** Replace the cached state, or return early. *)
Definition update_state (f : RaftLogState -> RaftResult RaftLogState) : M RaftLogStore (RaftResult unit) :=
  st ← get;
  s' ←? check (f (ls_state st));
  modify_state (fun _ => s') ;;
  okR tt.

(** [append_log_entries_with_lens] *)
Definition append_log_entries_with_lens (entries : list RaftLogEntry)
    : M RaftLogStore (RaftResult (list nat)) :=
  if bool_decide (entries = []) then okR []
  else
    st ← get;
    let '(body, entry_lens) := serialized_log_entries_buffer_and_lens entries in
    on_disk (append_serialized_log_entries body (length entries) (ls_sync_log st)) ;;?
    okR entry_lens.

(** The in-memory effect of an append: the end of the log, the indexes, the
    entries and their sizes. *)
Definition extend_state (entries : list RaftLogEntry) (sizes : list nat) (s : RaftLogState)
    : RaftLogState :=
  let s := match last entries with
           | Some entry => set_last (le_index entry) (le_term entry) s
           | None => s
           end in
  let s := set_term_indexes
             (foldl add_term_index (term_by_index s, first_index_by_term s, last_index_by_term s)
                entries) s in
  set_entries (retained_log_entries s ++ entries) (retained_log_entry_bytes s ++ sizes) s.

Fixpoint validate_commands (commands : list RaftCommand) : RaftResult unit :=
  match commands with
  | [] => RaftOk tt
  | command :: commands => _ ← validate_raft_command command; validate_commands commands
  end.

(** [RaftLogStore::append_batch]; [created_at_ms] is the clock's reading. *)
Definition append_batch (term : Z) (commands : list RaftCommand) (created_at_ms : Z)
    : M RaftLogStore (RaftResult (list RaftLogEntry)) :=
  if bool_decide (commands = []) then okR []
  else
    check (validate_commands commands) ;;?
    st ← get;
    let s := ls_state st in
    if bool_decide (term = 0) then
      errR (EInvalidAppendEntries "local append term must be >= 1")
    else if bool_decide (term < last_term s) then
      errR (EInvalidAppendEntries ("local append term " +:+ pretty term
        +:+ " is older than last persisted term " +:+ pretty (last_term s))%string)
    else
      let entries := imap (fun offset command =>
        mkRaftLogEntry (saturating_add64 (last_index s) (Z.of_nat offset + 1)) term created_at_ms
          command) commands in
      check (validate_repaired_request_identity_context (snapshot_client_response_fingerprints s)
        (retained_request_fingerprints s) (last_index s) entries) ;;?
      entry_sizes ←? append_log_entries_with_lens entries;
      modify_state (extend_state entries entry_sizes) ;;
      match add_retained_request_identity_entries (retained_request_fingerprints s) entries with
      | RaftErr err => errR err
      | RaftOk fps =>
          modify_state (set_retained_fingerprints fps) ;;
          okR entries
      end.

(** [write_hard_state_with_vote_policy_locked]: the state to persist. *)
Definition next_hard_state (current state : RaftHardState) (vote_policy : HardStateVotePolicy)
    : RaftResult RaftHardState :=
  let next :=
    if bool_decide (hs_current_term state < hs_current_term current)
    then mkRaftHardState (hs_current_term current) (hs_voted_for current) (hs_commit_index state)
    else state in
  next ← (if bool_decide (hs_current_term next = hs_current_term current) then
            match hs_voted_for current, hs_voted_for next with
            | Some existing_vote, Some next_vote =>
                if bool_decide (existing_vote <> next_vote) then
                  RaftErr (EInvalidLog ("refusing to replace persisted vote for `" +:+ existing_vote
                    +:+ "` with `" +:+ next_vote +:+ "` in term "
                    +:+ pretty (hs_current_term next))%string)
                else RaftOk next
            | Some existing_vote, None =>
                if bool_decide (vote_policy = PreserveSameTermVote)
                then RaftOk (mkRaftHardState (hs_current_term next) (Some existing_vote)
                               (hs_commit_index next))
                else RaftOk next
            | None, _ => RaftOk next
            end
          else RaftOk next);
  RaftOk (mkRaftHardState (hs_current_term next) (hs_voted_for next)
            (Z.max (hs_commit_index next) (hs_commit_index current))).

(** [write_hard_state_with_vote_policy_locked] *)
Definition write_hard_state_with_vote_policy (state : RaftHardState)
    (vote_policy : HardStateVotePolicy) : M RaftLogStore (RaftResult unit) :=
  st ← get;
  let current := hard_state (ls_state st) in
  next ←? check (next_hard_state current state vote_policy);
  if bool_decide (current = next) then okR tt
  else if bool_decide (hs_current_term next = hs_current_term current)
          && bool_decide (hs_voted_for next = hs_voted_for current)
          && bool_decide (hs_commit_index current < hs_commit_index next) then
    if bool_decide (hard_state_commit_generation (ls_state st) = u64_max) then
      errR (EInvalidLog "raft hard-state commit slot generation overflowed")
    else
      let generation := hard_state_commit_generation (ls_state st) + 1 in
      on_disk (write_hard_state_commit_slot generation (hs_current_term next)
        (hs_commit_index next) (ls_sync_commit st)) ;;?
      modify_state (fun s => set_hard_state next (set_commit_generation generation s)) ;;
      okR tt
  else
    on_disk (write_hard_state_json next) ;;?
    modify_state (set_hard_state next) ;;
    okR tt.

(** [write_hard_state] *)
Definition write_hard_state (state : RaftHardState) : M RaftLogStore (RaftResult unit) :=
  write_hard_state_with_vote_policy state PreserveSameTermVote.

(** [write_hard_state_clearing_vote] *)
Definition write_hard_state_clearing_vote (state : RaftHardState)
    : M RaftLogStore (RaftResult unit) :=
  write_hard_state_with_vote_policy state ForceClearSameTermVote.

(** [write_vote_hard_state_if_candidate_log_is_fresh] *)
Definition write_vote_hard_state_if_candidate_log_is_fresh (grant_state : RaftHardState)
    (stale_state : option RaftHardState) (candidate_last_log_index candidate_last_log_term : Z)
    : M RaftLogStore (RaftResult bool) :=
  st ← get;
  if negb (candidate_log_is_fresh_for_state (ls_state st) candidate_last_log_index
             candidate_last_log_term) then
    match stale_state with
    | Some stale_state => write_hard_state stale_state ;;? okR false
    | None => okR false
    end
  else write_hard_state grant_state ;;? okR true.

(** ** Entries from the leader *)

Definition failed_append (match_index : Z) (conflict_index conflict_term : option Z)
    : RaftAppendReport := mkRaftAppendReport false match_index conflict_index conflict_term 0 0 0.

(** [append_entries_prev_conflict]; [append_entries_from_leader] opens with the
    same checks. *)
Definition append_entries_prev_conflict (s : RaftLogState) (prev_log_index prev_log_term : Z)
    : option RaftAppendReport :=
  let local_last_index := last_index s in
  if bool_decide (local_last_index < prev_log_index) then
    Some (failed_append local_last_index (Some (saturating_add64 local_last_index 1)) None)
  else
    let match_index := Z.min local_last_index (saturating_sub64 prev_log_index 1) in
    match term_at_index s prev_log_index with
    | Some term =>
        if bool_decide (term = prev_log_term) then None
        else Some (failed_append match_index (first_index_for_term s term) (Some term))
    | None =>
        Some (failed_append match_index (Some (saturating_add64 (snapshot_index_of s) 1)) None)
    end.

(** Where the entries part from the retained log. *)
Inductive AppendScan : Type :=
| ScanDone
| ScanAppend (pos : nat)
| ScanRewrite (pos : nat).

(** The scan of [append_entries_from_leader] over the incoming entries, from
    position [pos]. *)
Fixpoint append_scan (s : RaftLogState) (pos : nat) (incoming : list RaftLogEntry)
    : RaftResult AppendScan :=
  match incoming with
  | [] => RaftOk ScanDone
  | entry :: incoming =>
      match term_by_index s !! le_index entry with
      | Some local_term =>
          if bool_decide (local_term = le_term entry) then
            match retained_entry_at (retained_log_entries s) (le_index entry) with
            | None =>
                RaftErr (EInvalidLog ("retained log term index contains entry "
                  +:+ pretty (le_index entry) +:+ " but retained entries do not")%string)
            | Some local_entry =>
                if bool_decide (le_command local_entry <> le_command entry) then
                  RaftErr (EInvalidAppendEntries ("entry index " +:+ pretty (le_index entry)
                    +:+ " term " +:+ pretty (le_term entry)
                    +:+ " violates Raft log matching property: command differs from local retained entry")%string)
                else append_scan s (S pos) incoming
            end
          else RaftOk (ScanRewrite pos)
      | None =>
          if bool_decide (le_index entry <= last_index s) then RaftOk (ScanRewrite pos)
          else RaftOk (ScanAppend pos)
      end
  end.

(** [reload_retained_log_from_disk_locked] needs the reconciliation of the
    persisted log with the snapshot. *)
Record ReconciledPersistedLog : Type := mkReconciledPersistedLog {
  rp_entries : list RaftLogEntry;
  rp_rewrite_needed : bool;
}.

(** [reconcile_persisted_log_with_snapshot] *)
Definition reconcile_persisted_log_with_snapshot (entries : list RaftLogEntry)
    (latest_snapshot : option RaftSnapshotMetadata) (startup_trailing_log_entries : Z)
    : RaftResult ReconciledPersistedLog :=
  match latest_snapshot with
  | None =>
      _ ← validate_snapshot_log_boundary entries None;
      RaftOk (mkReconciledPersistedLog entries false)
  | Some snapshot =>
      match head entries, last entries with
      | Some first, Some last =>
          let snapshot_index := sm_last_included_index snapshot in
          if bool_decide (le_index last < snapshot_index) then
            RaftOk (mkReconciledPersistedLog [] true)
          else if bool_decide (snapshot_index = u64_max) then
            RaftErr (EInvalidLog ("snapshot index " +:+ pretty snapshot_index
              +:+ " cannot be followed by retained log entries")%string)
          else if bool_decide (snapshot_index + 1 < le_index first) then
            RaftErr (EInvalidLog ("retained log starts at index " +:+ pretty (le_index first)
              +:+ " but snapshot only covers through " +:+ pretty snapshot_index
              +:+ "; missing index " +:+ pretty (snapshot_index + 1))%string)
          else if bool_decide (le_index first <= snapshot_index) then
            let boundary_matches :=
              match retained_entry_at entries snapshot_index with
              | Some entry => bool_decide (le_term entry = sm_last_included_term snapshot)
              | None => false
              end in
            if negb boundary_matches then RaftOk (mkReconciledPersistedLog [] true)
            else
              let retained_floor :=
                saturating_add64 (saturating_sub64 snapshot_index startup_trailing_log_entries) 1 in
              let suffix_start := retained_entry_lower_bound entries retained_floor in
              let retained := drop suffix_start entries in
              _ ← validate_snapshot_log_boundary retained (Some snapshot);
              RaftOk (mkReconciledPersistedLog retained (bool_decide (0 < suffix_start)%nat))
          else
            _ ← validate_snapshot_log_boundary entries (Some snapshot);
            RaftOk (mkReconciledPersistedLog entries false)
      | _, _ => RaftOk (mkReconciledPersistedLog entries false)
      end
  end.

(** [reload_retained_log_from_disk_locked] *)
Definition reload_retained_log_from_disk : M RaftLogStore (RaftResult unit) :=
  persisted ←? on_disk read_log_entries;
  st ← get;
  reconciled ←? check (reconcile_persisted_log_with_snapshot persisted
    (latest_snapshot (ls_state st)) (ls_startup_trailing_log_entries st));
  let retained := rp_entries reconciled in
  (if rp_rewrite_needed reconciled then on_disk (rewrite_log retained) else okR tt) ;;?
  update_state (fun s => replace_retained_log_state s retained (serialized_log_entry_lens retained)).

(** Return [err] after reloading the log; a failed reload is reported with it. *)
Definition reload_after {A} (what : string) (err : BrokerRaftError)
    : M RaftLogStore (RaftResult A) :=
  res ← reload_retained_log_from_disk;
  match res with
  | RaftErr reload_err =>
      errR (ERpc (what +:+ error_display err
        +:+ "; failed to reload retained log from disk: " +:+ error_display reload_err)%string)
  | RaftOk _ => errR err
  end.

(** The arm of [append_entries_from_leader] that replaces the log from the
    entry at [pos] of [incoming]; the sizes rewritten and truncated. *)
Definition rewrite_from_leader (effective_commit_index : Z) (incoming : list RaftLogEntry)
    (pos : nat) : M RaftLogStore (RaftResult (nat * nat)) :=
  st ← get;
  let s := ls_state st in
  let suffix := drop pos incoming in
  match head suffix with
  | None => panic "index out of bounds"
  | Some entry =>
      let rewrite_index := le_index entry in
      if bool_decide (rewrite_index <= effective_commit_index) then
        errR (EInvalidAppendEntries ("refusing to rewrite committed follower log entry at index "
          +:+ pretty rewrite_index +:+ "; local commitIndex is " +:+ pretty effective_commit_index)%string)
      else
        let retained_prefix_len := retained_entry_lower_bound (retained_log_entries s) rewrite_index in
        let truncated := (length (retained_log_entries s) - retained_prefix_len)%nat in
        prefix_file_len ←? check (retained_log_prefix_file_len (retained_log_entries s)
          (retained_log_entry_bytes s) retained_prefix_len);
        check (validate_repaired_log_suffix (retained_log_entries s) retained_prefix_len suffix
          (latest_snapshot s)) ;;?
        let retained_prefix_last_index :=
          match last (take retained_prefix_len (retained_log_entries s)) with
          | Some entry => le_index entry
          | None => 0
          end in
        check (validate_repaired_request_identity_context (snapshot_client_response_fingerprints s)
          (retained_request_fingerprints s) retained_prefix_last_index suffix) ;;?
        let '(body, incoming_sizes) := serialized_log_entries_buffer_and_lens suffix in
        res ← on_disk (truncate_and_append_serialized_log_entries (Z.to_nat prefix_file_len) body
                 (ls_sync_log st));
        match res with
        | RaftErr err => reload_after "raft conflict repair write failed: " err
        | RaftOk _ =>
            let retained := take retained_prefix_len (retained_log_entries s) ++ suffix in
            let fps := truncate_retained_request_identity_fingerprints
                         (retained_request_fingerprints s) retained_prefix_last_index in
            modify_state (fun s => set_age_cache None
              (set_entries retained (take retained_prefix_len (retained_log_entry_bytes s)
                 ++ incoming_sizes) s)) ;;
            match add_retained_request_identity_entries fps suffix with
            | RaftErr err => reload_after "raft conflict repair cache update failed: " err
            | RaftOk fps =>
                let '(index, term) := log_end retained (latest_snapshot s) in
                modify_state (fun s => set_term_indexes (term_indexes_from_entries retained)
                  (set_last index term (set_retained_fingerprints fps s))) ;;
                okR (length suffix, truncated)
            end
        end
  end.

(** The arm of [append_entries_from_leader] that extends the log. *)
Definition extend_from_leader (effective_commit_index : Z) (append_only : list RaftLogEntry)
    : M RaftLogStore (RaftResult nat) :=
  st ← get;
  let s := ls_state st in
  match head append_only with
  | Some entry =>
      if bool_decide (le_index entry <= effective_commit_index) then
        errR (EInvalidAppendEntries
          ("refusing to fill missing committed follower log entry at index "
             +:+ pretty (le_index entry) +:+ "; local commitIndex is "
             +:+ pretty effective_commit_index)%string)
      else okR tt
  | None => okR tt
  end ;;?
  check (validate_repaired_request_identity_context (snapshot_client_response_fingerprints s)
    (retained_request_fingerprints s) (last_index s) append_only) ;;?
  append_sizes ←? append_log_entries_with_lens append_only;
  modify_state (extend_state append_only append_sizes) ;;
  match add_retained_request_identity_entries (retained_request_fingerprints s) append_only with
  | RaftErr err => reload_after "raft append-only cache update failed: " err
  | RaftOk fps =>
      modify_state (set_retained_fingerprints fps) ;;
      okR (length append_only)
  end.

(** [RaftLogStore::append_entries_from_leader] *)
Definition append_entries_from_leader (prev_log_index prev_log_term leader_term local_commit_index : Z)
    (entries : list RaftLogEntry) : M RaftLogStore (RaftResult RaftAppendReport) :=
  check (validate_append_entries_shape prev_log_index prev_log_term leader_term entries) ;;?
  st ← get;
  let s := ls_state st in
  let snapshot_index := snapshot_index_of s in
  let effective_commit_index := Z.max local_commit_index (hs_commit_index (hard_state s)) in
  match append_entries_prev_conflict s prev_log_index prev_log_term with
  | Some report => okR report
  | None =>
      let incoming := drop_while (fun entry =>
        negb (bool_decide (snapshot_index < le_index entry)
              && bool_decide (prev_log_index < le_index entry))) entries in
      let match_index := match last incoming with
                         | Some entry => le_index entry
                         | None => prev_log_index
                         end in
      scan ←? check (append_scan s 0 incoming);
      match scan with
      | ScanDone => okR (mkRaftAppendReport true match_index None None 0 0 0)
      | ScanAppend pos =>
          appended ←? extend_from_leader effective_commit_index (drop pos incoming);
          okR (mkRaftAppendReport true match_index None None appended 0 0)
      | ScanRewrite pos =>
          '(rewritten, truncated) ←? rewrite_from_leader effective_commit_index incoming pos;
          okR (mkRaftAppendReport true match_index None None 0 rewritten truncated)
      end
  end.

(** ** Snapshots and compaction *)

(** [repair_retained_log_entry_byte_cache_if_needed] *)
Definition repair_retained_log_entry_byte_cache : M RaftLogStore unit :=
  modify_state (fun s =>
    set_entries (retained_log_entries s) (serialized_log_entry_lens (retained_log_entries s)) s).

(** The tail the paths of [write_snapshot] share: the new context of request
    identities. *)
Definition adopt_snapshot_context (metadata : option RaftSnapshotMetadata) (fps : gmap string string)
    : M RaftLogStore (RaftResult unit) :=
  modify_state (fun s => set_snapshot metadata fps s) ;;
  update_state refresh_retained_request_identity_fingerprints.

(** The branch of [write_snapshot] at the index of the latest snapshot. *)
Definition write_same_index_snapshot (existing : RaftSnapshotMetadata) (last_included_term : Z)
    (fps : gmap string string) (payload_sha256 : string)
    : M RaftLogStore (RaftResult RaftSnapshotMetadata) :=
  st ← get;
  let s := ls_state st in
  let index := sm_last_included_index existing in
  if bool_decide (last_included_term <> sm_last_included_term existing) then
    errR (EInvalidLog ("refusing to replace latest snapshot term "
      +:+ pretty (sm_last_included_term existing) +:+ " at index " +:+ pretty index
      +:+ " with term " +:+ pretty last_included_term)%string)
  else
    match sm_payload_sha256 existing with
    | Some existing_checksum =>
        if negb (eq_ignore_ascii_case existing_checksum payload_sha256) then
          errR (EInvalidLog ("refusing to replace latest snapshot payload at index "
            +:+ pretty index +:+ " with a different checksum")%string)
        else
          check (validate_snapshot_client_responses_against_retained_suffix s index fps) ;;?
          adopt_snapshot_context (Some existing) fps ;;?
          okR existing
    | None =>
        snapshot ←? on_disk read_snapshot_file;
        match snapshot with
        | None =>
            errR (EInvalidLog ("latest snapshot metadata at index " +:+ pretty index
              +:+ " has no checksum and snapshot file is missing")%string)
        | Some snapshot =>
            if bool_decide (sm_last_included_index (sf_metadata snapshot) <> index)
               || bool_decide (sm_last_included_term (sf_metadata snapshot)
                               <> sm_last_included_term existing) then
              errR (EInvalidLog ("latest snapshot metadata changed while validating local snapshot write at index "
                +:+ pretty index)%string)
            else if negb (eq_ignore_ascii_case (snapshot_payload_sha256 (sf_payload snapshot))
                            payload_sha256) then
              errR (EInvalidLog ("refusing to treat checksumless latest snapshot payload at index "
                +:+ pretty index +:+ " as idempotent with a different checksum")%string)
            else
              let metadata := mkRaftSnapshotMetadata index (sm_last_included_term existing)
                                (sm_created_at_ms existing) (Some payload_sha256) in
              check (validate_snapshot_client_responses_against_retained_suffix s index fps) ;;?
              on_disk (write_snapshot_json (mkRaftSnapshotFile metadata (sf_payload snapshot))) ;;?
              adopt_snapshot_context (Some metadata) fps ;;?
              okR metadata
        end
    end.

(** The branch of [write_snapshot] at a new index. *)
Definition write_new_snapshot (last_included_index last_included_term : Z) (payload : Value)
    (fps : gmap string string) (payload_sha256 : string) (created_at_ms : Z)
    : M RaftLogStore (RaftResult RaftSnapshotMetadata) :=
  st ← get;
  let s := ls_state st in
  match term_at_index s last_included_index with
  | Some retained_term =>
      if bool_decide (retained_term <> last_included_term) then
        errR (EInvalidLog ("refusing to write snapshot term " +:+ pretty last_included_term
          +:+ " at index " +:+ pretty last_included_index +:+ "; retained log has term "
          +:+ pretty retained_term)%string)
      else okR tt
  | None => okR tt
  end ;;?
  (if bool_decide (last_index s < last_included_index) && negb (bool_decide (retained_log_entries s = []))
   then errR (EInvalidLog ("refusing to write local snapshot at future index "
          +:+ pretty last_included_index +:+ "; retained log only reaches index "
          +:+ pretty (last_index s))%string)
   else okR tt) ;;?
  check (validate_snapshot_client_responses_against_retained_suffix s last_included_index fps) ;;?
  let metadata := mkRaftSnapshotMetadata last_included_index last_included_term created_at_ms
                    (Some payload_sha256) in
  on_disk (write_snapshot_json (mkRaftSnapshotFile metadata payload)) ;;?
  adopt_snapshot_context (Some metadata) fps ;;?
  modify_state (fun s => if bool_decide (last_index s <= last_included_index)
                         then set_last last_included_index last_included_term s else s) ;;
  okR metadata.

(** [RaftLogStore::write_snapshot] *)
Definition write_snapshot (last_included_index last_included_term : Z) (payload : Value)
    (created_at_ms : Z) : M RaftLogStore (RaftResult RaftSnapshotMetadata) :=
  responses ←? check (client_responses_from_snapshot_payload payload);
  fps ←? check (validate_snapshot_client_response_entries responses);
  let payload_sha256 := snapshot_payload_sha256 payload in
  st ← get;
  match latest_snapshot (ls_state st) with
  | Some existing =>
      if bool_decide (last_included_index < sm_last_included_index existing) then
        errR (EInvalidLog ("refusing to replace latest snapshot at index "
          +:+ pretty (sm_last_included_index existing) +:+ " with older snapshot index "
          +:+ pretty last_included_index)%string)
      else if bool_decide (last_included_index = sm_last_included_index existing) then
        write_same_index_snapshot existing last_included_term fps payload_sha256
      else
        write_new_snapshot last_included_index last_included_term payload fps payload_sha256
          created_at_ms
  | None =>
      write_new_snapshot last_included_index last_included_term payload fps payload_sha256
        created_at_ms
  end.

(** [validate_existing_snapshot_matches_install] *)
Definition validate_existing_snapshot_matches_install (existing : RaftSnapshotMetadata)
    (incoming_term : Z) (incoming_payload_sha256 : string) : M RaftLogStore (RaftResult unit) :=
  let index := sm_last_included_index existing in
  if bool_decide (sm_last_included_term existing <> incoming_term) then
    errR (EInvalidLog ("local snapshot term " +:+ pretty (sm_last_included_term existing)
      +:+ " at index " +:+ pretty index +:+ " conflicts with InstallSnapshot term "
      +:+ pretty incoming_term)%string)
  else
    existing_payload_sha256 ←?
      (match sm_payload_sha256 existing with
       | Some checksum => okR checksum
       | None =>
           snapshot ←? on_disk read_snapshot_file;
           match snapshot with
           | None =>
               errR (EInvalidLog ("local snapshot metadata at index " +:+ pretty index
                 +:+ " has no checksum and snapshot file is missing")%string)
           | Some snapshot =>
               if bool_decide (sm_last_included_index (sf_metadata snapshot) <> index)
                  || bool_decide (sm_last_included_term (sf_metadata snapshot)
                                  <> sm_last_included_term existing) then
                 errR (EInvalidLog ("local snapshot metadata changed while validating InstallSnapshot at index "
                   +:+ pretty index)%string)
               else okR (snapshot_payload_sha256 (sf_payload snapshot))
           end
       end);
    if negb (eq_ignore_ascii_case existing_payload_sha256 incoming_payload_sha256) then
      errR (EInvalidLog ("local snapshot payload checksum at index " +:+ pretty index
        +:+ " conflicts with InstallSnapshot payload checksum")%string)
    else okR tt.

(** The tail of [install_snapshot_from_leader], for a snapshot newer than the
    latest one. *)
Definition install_new_snapshot (last_included_index last_included_term : Z)
    (verified_payload_sha256 : string) (payload : Value) (fps : gmap string string)
    (created_at_ms : Z) : M RaftLogStore (RaftResult RaftSnapshotMetadata) :=
  repair_retained_log_entry_byte_cache ;;
  st ← get;
  let s := ls_state st in
  let retain_suffix := bool_decide (term_at_index s last_included_index = Some last_included_term) in
  '(retained, retained_sizes) ←?
    check (if retain_suffix then
             let suffix_start :=
               retained_entry_upper_bound (retained_log_entries s) last_included_index in
             sizes ← retained_log_entry_bytes_suffix (retained_log_entries s)
                       (retained_log_entry_bytes s) suffix_start;
             RaftOk (drop suffix_start (retained_log_entries s), sizes)
           else RaftOk ([], []));
  check (map_err (fun err => EInvalidLog
    ("installed snapshot client response cache conflicts with retained log suffix: "
       +:+ error_display err)%string)
    (validate_client_request_identity_entries fps retained)) ;;?
  let metadata := mkRaftSnapshotMetadata last_included_index last_included_term created_at_ms
                    (Some verified_payload_sha256) in
  check (validate_log_entries_for_snapshot retained (Some metadata)) ;;?
  on_disk (write_snapshot_json (mkRaftSnapshotFile metadata payload)) ;;?
  (if negb (bool_decide (retained = []))
      || bool_decide (0 < length (default [] (d_log (ls_disk st))))%nat
   then on_disk (rewrite_log retained) else okR tt) ;;?
  modify_state (set_snapshot (Some metadata) fps) ;;
  update_state (fun s => replace_retained_log_state s retained retained_sizes) ;;?
  okR metadata.

(** [RaftLogStore::install_snapshot_from_leader] *)
Definition install_snapshot_from_leader (last_included_index last_included_term : Z)
    (payload_sha256 : option string) (payload : Value) (created_at_ms : Z)
    : M RaftLogStore (RaftResult RaftSnapshotMetadata) :=
  verified_payload_sha256 ←?
    check (verify_snapshot_payload_checksum last_included_index payload payload_sha256);
  responses ←? check (client_responses_from_snapshot_payload payload);
  fps ←? check (validate_snapshot_client_response_entries responses);
  st ← get;
  match latest_snapshot (ls_state st) with
  | Some existing =>
      if bool_decide (last_included_index <= sm_last_included_index existing) then
        if bool_decide (sm_last_included_index existing = last_included_index) then
          validate_existing_snapshot_matches_install existing last_included_term
            verified_payload_sha256 ;;?
          check (validate_snapshot_client_responses_against_retained_suffix (ls_state st)
            (sm_last_included_index existing) fps) ;;?
          adopt_snapshot_context (Some existing) fps ;;?
          okR existing
        else okR existing
      else
        install_new_snapshot last_included_index last_included_term verified_payload_sha256 payload
          fps created_at_ms
  | None =>
      install_new_snapshot last_included_index last_included_term verified_payload_sha256 payload
        fps created_at_ms
  end.

(** [RaftLogStore::compact_through] *)
Definition compact_through (through_index : Z) : M RaftLogStore (RaftResult RaftCompactionReport) :=
  st ← get;
  match latest_snapshot (ls_state st) with
  | None => errR ENoSnapshot
  | Some snapshot =>
      let snapshot_index := sm_last_included_index snapshot in
      if bool_decide (snapshot_index < through_index) then
        errR (ECompactionAheadOfSnapshot through_index snapshot_index)
      else
        repair_retained_log_entry_byte_cache ;;
        st ← get;
        let s := ls_state st in
        let before := length (retained_log_entries s) in
        let suffix_start := retained_entry_upper_bound (retained_log_entries s) through_index in
        compacted_bytes ←? check (retained_log_prefix_file_len (retained_log_entries s)
          (retained_log_entry_bytes s) suffix_start);
        if bool_decide (suffix_start = 0%nat) then
          retained_bytes ←? check (retained_prefix_file_len (retained_log_entry_bytes s)
            (length (retained_log_entry_bytes s)));
          check (validate_log_entries_for_snapshot (retained_log_entries s) (latest_snapshot s)) ;;?
          okR (mkRaftCompactionReport through_index 0 compacted_bytes before retained_bytes)
        else
          let retained := drop suffix_start (retained_log_entries s) in
          retained_sizes ←? check (retained_log_entry_bytes_suffix (retained_log_entries s)
            (retained_log_entry_bytes s) suffix_start);
          retained_bytes ←? check (retained_prefix_file_len retained_sizes (length retained_sizes));
          check (validate_log_entries_for_snapshot retained (latest_snapshot s)) ;;?
          on_disk (rewrite_log retained) ;;?
          update_state (fun s => replace_retained_log_state s retained retained_sizes) ;;?
          okR (mkRaftCompactionReport through_index (before - length retained) compacted_bytes
                 (length retained) retained_bytes)
  end.

(** [RaftLogStore::compact_to_latest_snapshot] *)
Definition compact_to_latest_snapshot : M RaftLogStore (RaftResult RaftCompactionReport) :=
  st ← get;
  match latest_snapshot (ls_state st) with
  | None => errR ENoSnapshot
  | Some snapshot => compact_through (sm_last_included_index snapshot)
  end.

(** ** Opening the store *)

(** [RaftLogStore::open_with_sync_policy_and_telemetry], on the disk.  The
    temporary and partial files it removes first are not part of the model. *)
Definition open_log_store (sync_log sync_commit : bool) (startup_trailing_log_entries : Z)
    : M Disk (RaftResult RaftLogStore) :=
  latest_snapshot_file ←? read_snapshot_file;
  fps ←? (match latest_snapshot_file with
          | Some snapshot_file =>
              mret (responses ← client_responses_from_snapshot_payload (sf_payload snapshot_file);
                    validate_snapshot_client_response_entries responses)
          | None => okR ∅
          end);
  let latest_snapshot := sf_metadata <$> latest_snapshot_file in
  d ← get;
  let '(hard_state, generation) := read_hard_state_with_commit_slots d in
  persisted_entries ←? read_log_entries;
  reconciled ←? mret (reconcile_persisted_log_with_snapshot persisted_entries latest_snapshot
                        startup_trailing_log_entries);
  let entries := rp_entries reconciled in
  (if rp_rewrite_needed reconciled then rewrite_log entries else okR tt) ;;?
  let '(last_index, last_term) := log_end entries latest_snapshot in
  retained_request_fingerprints ←? mret (retained_request_identity_fingerprints_after entries
    (default 0 (sm_last_included_index <$> latest_snapshot)));
  let '(by_index, first_by_term, last_by_term) := term_indexes_from_entries entries in
  d ← get;
  okR (mkRaftLogStore sync_log sync_commit startup_trailing_log_entries
    (mkRaftLogState last_index last_term hard_state generation latest_snapshot fps
       retained_request_fingerprints entries (serialized_log_entry_lens entries)
       by_index first_by_term last_by_term None) d).

End store.

(** ** What to compact *)

(** The loop of [compact_through_for_retained_byte_budget_cached], over the
    entries from the last. *)
Fixpoint byte_budget_loop (max_retained_bytes max_through_index retained_suffix_bytes : Z)
    (rev_entries : list (RaftLogEntry * nat)) : RaftResult (option Z) :=
  match rev_entries with
  | [] => RaftOk None
  | (entry, entry_len) :: rest =>
      line_len ← retained_log_entry_file_len entry_len;
      if bool_decide (u64_max < retained_suffix_bytes + line_len) then
        RaftErr (EInvalidLog "retained log suffix byte length overflowed u64")
      else
        let next_suffix_bytes := retained_suffix_bytes + line_len in
        if bool_decide (max_through_index < le_index entry) then
          byte_budget_loop max_retained_bytes max_through_index next_suffix_bytes rest
        else if bool_decide (max_retained_bytes < next_suffix_bytes) then RaftOk (Some (le_index entry))
        else byte_budget_loop max_retained_bytes max_through_index next_suffix_bytes rest
  end.

(** [compact_through_for_retained_byte_budget_cached] *)
Definition compact_through_for_retained_byte_budget_cached (entries : list RaftLogEntry)
    (entry_bytes : list nat) (max_retained_bytes max_through_index : Z) : RaftResult (option Z) :=
  _ ← validate_retained_log_entry_bytes_len (length entries) (length entry_bytes);
  if bool_decide (max_through_index = 0) then RaftOk None
  else byte_budget_loop max_retained_bytes max_through_index 0 (reverse (zip entries entry_bytes)).

(** The loop of [compact_through_for_retained_age_cached_incremental]. *)
Fixpoint age_scan (max_through_index oldest_retained_ms : Z) (compact_through : option Z)
    (entries : list RaftLogEntry) : option Z :=
  match entries with
  | [] => compact_through
  | entry :: entries =>
      if bool_decide (max_through_index < le_index entry) then compact_through
      else if bool_decide (oldest_retained_ms < le_created_at_ms entry) then compact_through
      else age_scan max_through_index oldest_retained_ms (Some (le_index entry)) entries
  end.

(** [compact_through_for_retained_age_cached_incremental]: the index to compact
    through, and the cache. *)
Definition compact_through_for_retained_age_cached_incremental (entries : list RaftLogEntry)
    (cache : option RetainedAgeCompactionCache) (now_ms max_age_ms max_through_index : Z)
    : option Z * option RetainedAgeCompactionCache :=
  if bool_decide (max_age_ms = 0) || bool_decide (max_through_index = 0) then (None, None)
  else
    let oldest_retained_ms := saturating_sub64 now_ms max_age_ms in
    let '(compact_through, start_pos) :=
      match cache with
      | Some cached =>
          let cached_index_is_retained :=
            match ac_eligible_index cached with
            | None => true
            | Some index => if retained_entry_at entries index is Some _ then true else false
            end in
          if bool_decide (ac_max_age_ms cached = max_age_ms)
             && bool_decide (ac_oldest_retained_ms cached <= oldest_retained_ms)
             && bool_decide (ac_max_through_index cached <= max_through_index)
             && cached_index_is_retained then
            (ac_eligible_index cached,
             match ac_eligible_index cached with
             | Some index => retained_entry_upper_bound entries index
             | None => 0%nat
             end)
          else (None, 0%nat)
      | None => (None, 0%nat)
      end in
    let compact_through :=
      age_scan max_through_index oldest_retained_ms compact_through (drop start_pos entries) in
    (compact_through, Some (mkRetainedAgeCompactionCache max_age_ms oldest_retained_ms
                              max_through_index compact_through)).

(** ** Entries for a follower *)

(** The loop of [entries_from_limited_cached_with_byte_budget]: how many of
    the entries are selected, and their serialized bytes; [selected] is the
    number selected so far. *)
Fixpoint limited_loop (max_entries : nat) (max_serialized_bytes : Z) (max_payload_bytes : option Z)
    (selected : nat) (selected_budget_bytes selected_bytes : Z) (entry_bytes : list nat)
    : nat * Z :=
  match entry_bytes with
  | [] => (selected, selected_bytes)
  | entry_size :: rest =>
      let separator_bytes :=
        match max_payload_bytes with
        | Some _ => if bool_decide (0 < selected)%nat then 1 else 0
        | None => 0
        end in
      let candidate_budget_bytes :=
        saturating_add64 (saturating_add64 selected_budget_bytes separator_bytes) (Z.of_nat entry_size) in
      let candidate_serialized_bytes := saturating_add64 selected_bytes (Z.of_nat entry_size) in
      let payload_budget_exceeded :=
        match max_payload_bytes with
        | Some max_bytes => bool_decide (max_bytes < candidate_budget_bytes)
        | None => false
        end in
      if bool_decide (0 < selected)%nat
         && (bool_decide (max_serialized_bytes < candidate_serialized_bytes) || payload_budget_exceeded)
      then (selected, selected_bytes)
      else if bool_decide (max_entries <= S selected)%nat
      then (S selected, candidate_serialized_bytes)
      else limited_loop max_entries max_serialized_bytes max_payload_bytes (S selected)
             candidate_budget_bytes candidate_serialized_bytes rest
  end.

Record LimitedLogEntries : Type := mkLimitedLogEntries {
  ll_entries : list RaftLogEntry;
  ll_entry_bytes : list nat;
  ll_serialized_bytes : Z;
}.

Record LimitedLogByteBudgets : Type := mkLimitedLogByteBudgets {
  lb_max_serialized_bytes : Z;
  lb_max_payload_bytes : option Z;
}.

(** [entries_from_limited_cached_with_byte_budget] *)
Definition entries_from_limited_cached_with_byte_budget (entries : list RaftLogEntry)
    (entry_bytes : list nat) (index : Z) (max_entries : nat) (budgets : LimitedLogByteBudgets)
    : RaftResult LimitedLogEntries :=
  _ ← validate_retained_log_entry_bytes_len (length entries) (length entry_bytes);
  let start := retained_entry_lower_bound entries (Z.max index 1) in
  let '(selected, selected_bytes) :=
    limited_loop (Nat.max max_entries 1) (Z.max (lb_max_serialized_bytes budgets) 1)
      ((fun max_bytes => Z.max max_bytes 1) <$> lb_max_payload_bytes budgets) 0 0 0
      (drop start entry_bytes) in
  RaftOk (mkLimitedLogEntries (take selected (drop start entries))
            (take selected (drop start entry_bytes)) selected_bytes).

(** [prev_term_entries_and_bytes_limited_cached_with_budgets] on the state. *)
Definition prev_term_entries_and_bytes_limited (s : RaftLogState) (next_index : Z)
    (max_entries : nat) (budgets_for_prev_term : Z -> RaftResult LimitedLogByteBudgets)
    : RaftResult (option (Z * LimitedLogEntries)) :=
  let next_index := Z.max next_index 1 in
  let prev_log_index := saturating_sub64 next_index 1 in
  if bool_decide (prev_log_index = last_index s) then
    RaftOk (Some (last_term s, mkLimitedLogEntries [] [] 0))
  else
    let prev_log_term :=
      if bool_decide (prev_log_index = 0) then Some 0
      else
        match retained_entry_at (retained_log_entries s) prev_log_index with
        | Some entry => Some (le_term entry)
        | None =>
            match latest_snapshot s with
            | Some snapshot =>
                if bool_decide (sm_last_included_index snapshot = prev_log_index)
                then Some (sm_last_included_term snapshot) else None
            | None => None
            end
        end in
    match prev_log_term with
    | None => RaftOk None
    | Some prev_log_term =>
        budgets ← budgets_for_prev_term prev_log_term;
        limited ← entries_from_limited_cached_with_byte_budget (retained_log_entries s)
                    (retained_log_entry_bytes s) next_index max_entries budgets;
        RaftOk (Some (prev_log_term, limited))
    end.

(** ** Rules for the store's computations *)

Section rules.
Context `{C : RaftCodec}.

Lemma wp_on_disk {A} (m : M Disk A) Q st :
  wp m (fun a d => Q a (set_ls_disk d st)) (ls_disk st) -> wp (on_disk m) Q st.
Proof.
  rewrite !wp_done. intros (a & d & Hm & HQ). exists a, (set_ls_disk d st). split; [|done].
  unfold on_disk. by rewrite Hm.
Qed.

Lemma wp_modify_state f Q st : Q tt (set_ls_state (f (ls_state st)) st) -> wp (modify_state f) Q st.
Proof. intros H. by apply wp_modify. Qed.

Lemma wp_update_state f Q st :
  match f (ls_state st) with
  | RaftOk s' => Q (RaftOk tt) (set_ls_state s' st)
  | RaftErr e => Q (RaftErr e) st
  end -> wp (update_state f) Q st.
Proof.
  intros H. unfold update_state. apply wp_bind, wp_get. apply wp_bindR.
  unfold check. apply wp_ret. destruct (f (ls_state st)); [|done].
  apply wp_bind, wp_modify_state, wp_ret. done.
Qed.

Lemma wp_check {A} (r : RaftResult A) Q st : Q r st -> wp (check r) Q st.
Proof. apply wp_ret. Qed.

End rules.
