(* ===== verification/RaftHardState.v ===== *)
(** * Durability of the hard state

    The term, the vote and the commit index a node has acknowledged: they only
    move forward, a term has one vote, and what was acknowledged is what a
    restart reads back, whichever calls of the file system failed. *)

From S2P Require Import Prelude Text Monad Protocol BrokerSnapshot.
From S2P Require Import RaftQuorum RaftGrant RaftValidate RaftCache RaftFiles RaftFilesFacts RaftLog.
From stdpp Require Import options.

(** ** The order on hard states *)

(** [b] keeps what [a] promised: the commit index, and the term with its
    vote unless the term is a later one. *)
Definition hs_le (a b : RaftHardState) : Prop :=
  hs_commit_index a <= hs_commit_index b /\
  (hs_current_term a < hs_current_term b \/
   (hs_current_term a = hs_current_term b /\
    (hs_voted_for a = None \/ hs_voted_for b = hs_voted_for a))).

#[global] Instance hs_le_preorder : PreOrder hs_le.
Proof.
  split.
  - intros a. split; [done|]. right. auto.
  - intros a b c [H1 H2] [H3 H4]. split; [lia|].
    destruct H2 as [H2|[H2 H5]], H4 as [H4|[H4 H6]]; [left; lia..|].
    right. split; [congruence|]. destruct H5 as [H5|H5]; [by left|].
    destruct H6 as [H6|H6]; [left|right]; congruence.
Qed.

(** What a write under [PreserveSameTermVote] persists keeps the current
    state's promises, and the requested state's when its term is not stale. *)
Lemma next_hard_state_le current state next :
  next_hard_state current state PreserveSameTermVote = RaftOk next ->
  hs_le current next /\
  (hs_current_term current <= hs_current_term state -> hs_le state next).
Proof.
  destruct current as [ct cv cc], state as [t v c].
  unfold next_hard_state, mbind, RaftResult_bind, hs_le. simpl.
  destruct (bool_decide_reflect (t < ct)) as [Hlt|Hge]; simpl.
  - rewrite bool_decide_eq_true_2 by done. intros H.
    destruct cv as [a|]; [rewrite bool_decide_eq_false_2 in H by (intros Hn; by apply Hn)|];
      injection H as <-; simpl; (split; [split; [lia|by right; auto]|lia]).
  - destruct (bool_decide_reflect (t = ct)) as [->|Hne]; simpl.
    + destruct cv as [a|], v as [b|]; simpl; [case_bool_decide as Hab; [done|]|..];
        intros [= <-]; simpl.
      * subst b. split; (split; [lia|right; auto]).
      * split; (split; [lia|right; auto]).
      * split; (split; [lia|right; auto]).
      * split; (split; [lia|right; auto]).
    + intros [= <-]. simpl. split; [split; [lia|left; lia]|]. intros _.
      split; [lia|right; auto].
Qed.

(** ** The commit slots *)

Section slots.
Context `{C : RaftCodec}.

Lemma best_slot_max best slots :
  match best_slot best slots with
  | Some s => (best = Some s \/ s ∈ slots) /\
      (forall x, best = Some x \/ x ∈ slots -> sl_commit_index x <= sl_commit_index s)
  | None => best = None /\ slots = []
  end.
Proof.
  revert best. induction slots as [|x slots IH]; intros best; simpl.
  { destruct best; [|done]. split; [by left|]. intros y [[= ->]|Hy]; [done|by apply not_elem_of_nil in Hy]. }
  destruct best as [b|]; [case_bool_decide as Hb|].
  - specialize (IH (Some b)). destruct (best_slot (Some b) slots) as [s|]; [|naive_solver].
    destruct IH as [IH1 IH2]. split; [set_solver|]. intros y Hy.
    pose proof (IH2 b (or_introl eq_refl)). rewrite elem_of_cons in Hy.
    destruct Hy as [[= ->]|[->|Hy]]; [lia|lia|auto].
  - specialize (IH (Some x)). destruct (best_slot (Some x) slots) as [s|]; [|naive_solver].
    destruct IH as [IH1 IH2]. split; [set_solver|]. intros y Hy.
    pose proof (IH2 x (or_introl eq_refl)). rewrite elem_of_cons in Hy.
    destruct Hy as [[= ->]|[->|Hy]]; [lia|lia|auto].
  - specialize (IH (Some x)). destruct (best_slot (Some x) slots) as [s|]; [|naive_solver].
    destruct IH as [IH1 IH2]. split; [set_solver|]. intros y Hy.
    rewrite elem_of_cons in Hy. destruct Hy as [?|[->|Hy]]; [done|auto..].
Qed.

(** A slot that holds the record of its generation, in that generation's
    place. *)
Definition slot_wf (second : bool) (content : SlotContent) : Prop :=
  match content with
  | SlotBlank | SlotTorn => True
  | SlotRecord slot =>
      0 < sl_generation slot /\ commit_slot_is_second (sl_generation slot) = second /\
      slot = hard_state_commit_slot_record (sl_generation slot) (sl_current_term slot)
               (sl_commit_index slot)
  end.

Definition slots_wf (d : Disk) : Prop :=
  match d_commit_slots d with
  | Some (first, second) => slot_wf false first /\ slot_wf true second
  | None => True
  end.

Definition slot_at (generation : Z) (d : Disk) : option SlotContent :=
  (fun slots => if commit_slot_is_second generation then slots.2 else slots.1) <$> d_commit_slots d.

Lemma slot_wf_valid second slot :
  slot_wf second (SlotRecord slot) -> valid_hard_state_commit_slot slot = true.
Proof.
  intros (Hg & _ & ->). unfold valid_hard_state_commit_slot. simpl.
  rewrite bool_decide_eq_false_2 by lia. by rewrite bool_decide_eq_true_2.
Qed.

(** Reading the slots: the best one is in its place and no readable one
    commits more. *)
Lemma read_slots d max_term best generation :
  slots_wf d -> read_hard_state_commit_slots d max_term = (best, generation) ->
  match best with
  | Some slot => generation = sl_generation slot /\ 0 < generation /\
      slot_at generation d = Some (SlotRecord slot) /\ sl_current_term slot <= max_term
  | None => generation = 0
  end /\
  (forall g slot, slot_at g d = Some (SlotRecord slot) -> sl_current_term slot <= max_term ->
     exists s, best = Some s /\ sl_commit_index slot <= sl_commit_index s).
Proof.
  unfold slots_wf, read_hard_state_commit_slots, slot_at.
  destruct (d_commit_slots d) as [[first second]|]; [|intros _ [= <- <-]; by split].
  intros [Hf Hs]. set (l := merge_sort _ _). intros [= <- <-].
  assert (forall x, x ∈ l <-> exists content, content ∈ [first; second] /\ content = SlotRecord x /\
    sl_current_term x <= max_term) as Hl.
  { intros x. unfold l. rewrite merge_sort_Permutation. unfold readable_slots.
    rewrite list_elem_of_omap. split.
    - intros (content & Hin & Hx). exists content. split; [done|].
      destruct content as [| |s]; [done..|]. destruct (_ && _) eqn:E; [|done]. injection Hx as ->.
      apply andb_prop in E as [_ E]. by apply bool_decide_eq_true in E.
    - intros (content & Hin & -> & Hx). exists (SlotRecord x). split; [done|].
      assert (valid_hard_state_commit_slot x = true) as ->.
      { rewrite elem_of_cons, list_elem_of_singleton in Hin.
        destruct Hin as [<-|<-]; by eapply slot_wf_valid. }
      by rewrite bool_decide_eq_true_2. }
  pose proof (best_slot_max None l) as Hbest. split.
  - destruct (best_slot None l) as [s|]; [|done]. destruct Hbest as [[?|Hin] _]; [done|].
    apply Hl in Hin as (content & Hin & -> & Hterm).
    rewrite elem_of_cons, list_elem_of_singleton in Hin.
    destruct Hin as [<-|<-].
    + destruct Hf as (Hg & Hsec & _). split_and!; [done..| |done]. by rewrite Hsec.
    + destruct Hs as (Hg & Hsec & _). split_and!; [done..| |done]. by rewrite Hsec.
  - intros g slot Hat Hterm.
    assert (slot ∈ l) as Hin.
    { apply Hl. exists (SlotRecord slot). split_and!; [|done..]. injection Hat as Hat.
      destruct (commit_slot_is_second g); simpl in Hat; rewrite Hat; set_solver. }
    destruct (best_slot None l) as [s|]; [|destruct Hbest as [_ Hn]; rewrite Hn in Hin; set_solver].
    exists s. split; [done|]. apply Hbest. by right.
Qed.

Lemma commit_slot_alternates g :
  0 < g -> commit_slot_is_second (g + 1) = negb (commit_slot_is_second g).
Proof.
  intros Hg. unfold commit_slot_is_second, HARD_STATE_COMMIT_SLOTS.
  rewrite !Z.max_l by lia. replace (g + 1 - 1) with ((g - 1) + 1) by lia.
  rewrite Z.add_mod by lia. pose proof (Z.mod_pos_bound (g - 1) 2).
  assert ((g - 1) mod 2 = 0 \/ (g - 1) mod 2 = 1) as [->| ->] by lia; done.
Qed.

(** Only the slot of [generation] may differ between [d] and [d']. *)
Record only_slot (generation : Z) (d d' : Disk) : Prop := {
  os_wf : slots_wf d';
  os_hard_state : d_hard_state d' = d_hard_state d;
  os_log : d_log d' = d_log d;
  os_snapshot : d_snapshot d' = d_snapshot d;
  os_other : forall g slot, commit_slot_is_second g <> commit_slot_is_second generation ->
    slot_at g d = Some (SlotRecord slot) -> slot_at g d' = Some (SlotRecord slot);
}.

Lemma only_slot_refl generation d : slots_wf d -> only_slot generation d d.
Proof. by constructor. Qed.

Lemma only_slot_create generation d d' :
  only_slot generation d d' ->
  only_slot generation d
    (set_d_commit_slots (Some (default (SlotBlank, SlotBlank) (d_commit_slots d'))) d').
Proof.
  intros [H1 H2 H3 H4 H5]. constructor; try done.
  - unfold slots_wf in *. simpl. by destruct (d_commit_slots d') as [[]|].
  - intros g sl Hg Hat. specialize (H5 g sl Hg Hat). unfold slot_at in *. simpl.
    by destruct (d_commit_slots d') as [[]|].
Qed.

Lemma only_slot_put generation content d d' :
  slot_wf (commit_slot_is_second generation) content -> only_slot generation d d' ->
  only_slot generation d
    (set_d_commit_slots (Some (put_commit_slot generation content
       (default (SlotBlank, SlotBlank) (d_commit_slots d')))) d').
Proof.
  intros Hc [H1 H2 H3 H4 H5]. constructor; try done.
  - unfold slots_wf, put_commit_slot in *. simpl.
    destruct (commit_slot_is_second generation), (d_commit_slots d') as [[]|]; simpl in *; tauto.
  - intros g sl Hg Hat. specialize (H5 g sl Hg Hat). unfold slot_at, put_commit_slot in *. simpl.
    destruct (d_commit_slots d') as [[]|]; simpl in *; [|done].
    by destruct (commit_slot_is_second generation), (commit_slot_is_second g).
Qed.

Lemma only_slot_script generation d d' fs :
  only_slot generation d d' ->
  only_slot generation d (set_d_faults fs d') /\ only_slot generation d (freeze d').
Proof. intros [H1 H2 H3 H4 H5]. by split. Qed.

Lemma slot_at_put generation content slots d :
  slot_at generation (set_d_commit_slots (Some (put_commit_slot generation content slots)) d)
    = Some content.
Proof. unfold slot_at, put_commit_slot. simpl. by destruct (commit_slot_is_second generation). Qed.

(** The outcomes of a slot write. *)
Lemma write_slot_outcomes generation term commit sync d :
  0 < generation -> slots_wf d ->
  wp (write_hard_state_commit_slot generation term commit sync)
    (fun r d' => only_slot generation d d' /\
       (r = RaftOk tt -> slot_at generation d' =
          Some (SlotRecord (hard_state_commit_slot_record generation term commit)))) d.
Proof.
  intros Hgen Hwf. unfold write_hard_state_commit_slot. rewrite bool_decide_eq_false_2 by lia.
  pose proof (only_slot_refl generation d Hwf) as HP.
  case_bool_decide; [by apply wp_ret|]. apply wp_bind, wp_get.
  set (slot := hard_state_commit_slot_record generation term commit).
  assert (slot_wf (commit_slot_is_second generation) (SlotRecord slot)) as Hslot by done.
  set (P := only_slot generation d).
  set (P' := fun d' => P d' /\ slot_at generation d' = Some (SlotRecord slot)).
  assert (forall d' fs, P d' -> P (set_d_faults fs d')) as Hfs by (intros; by apply only_slot_script).
  assert (forall d', P d' -> P (freeze d')) as Hfr by (intros; by apply (only_slot_script _ _ _ [])).
  assert (forall d' fs, P' d' -> P' (set_d_faults fs d')) as Hfs' by (intros ?? []; split; auto).
  assert (forall d', P' d' -> P' (freeze d')) as Hfr' by (intros ? []; split; auto).
  assert (forall d' (e : BrokerRaftError), P d' -> P d' /\
    (RaftErr e = RaftOk tt -> slot_at generation d' = Some (SlotRecord slot))) as Herr by done.
  apply wp_bindR, (io_log_spec _ _ P); [done|auto|auto| |
    intros; case_bool_decide; [done|by apply only_slot_create]|auto].
  intros d1 H1%only_slot_create. apply wp_bindR, (io_log_spec _ _ P); [done|auto|auto| | |auto].
  2: { intros d' k Hd'. repeat case_bool_decide; [done|by apply only_slot_put..]. }
  intros d2 H2. set (d3 := set_d_commit_slots _ d2).
  assert (P' d3) as H3 by (split; [by apply only_slot_put|apply slot_at_put]).
  assert (forall d' r, P' d' -> P d' /\ (r = RaftOk tt -> slot_at generation d' = Some (SlotRecord slot)))
    as Hok by (intros ?? []; done).
  apply wp_bindR. destruct sync; [|apply wp_ret; rewrite andb_false_r; apply wp_ret; by apply Hok].
  apply (io_log_spec _ _ P'); [done|auto|auto| |auto|intros; by apply Hok].
  intros d4 H4. rewrite andb_true_r. case_bool_decide; [|apply wp_ret; by apply Hok].
  apply (io_log_spec _ _ P'); [done|auto|auto|intros; by apply Hok|auto|intros; by apply Hok].
Qed.

End slots.

(** ** The store *)

Section durable.
Context `{C : RaftCodec}.

Definition json_hard_state (d : Disk) : RaftHardState := default default_hard_state (d_hard_state d).

(** What the memory promises is on the disk: the term and vote in the JSON
    file, the commit index there or in the slot of the last generation. *)
Record hs_durable (st : RaftLogStore) : Prop := {
  du_wf : slots_wf (ls_disk st);
  du_generation : 0 <= hard_state_commit_generation (ls_state st);
  du_vote :
    let m := hard_state (ls_state st) in
    let j := json_hard_state (ls_disk st) in
    hs_current_term m < hs_current_term j \/
    (hs_current_term m = hs_current_term j /\ (hs_voted_for m = None \/ hs_voted_for j = hs_voted_for m));
  du_commit :
    let m := hard_state (ls_state st) in
    hs_commit_index m <= hs_commit_index (json_hard_state (ls_disk st)) \/
    exists slot, 0 < hard_state_commit_generation (ls_state st) /\
      slot_at (hard_state_commit_generation (ls_state st)) (ls_disk st) = Some (SlotRecord slot) /\
      sl_current_term slot <= hs_current_term m /\ hs_commit_index m <= sl_commit_index slot;
}.

(** A restart reads back what was promised. *)
Lemma hs_durable_read st :
  hs_durable st ->
  hs_le (hard_state (ls_state st)) (read_hard_state_with_commit_slots (ls_disk st)).1.
Proof.
  intros [Hwf Hg Hv Hc]. cbv zeta in *. unfold read_hard_state_with_commit_slots.
  change (default default_hard_state (d_hard_state (ls_disk st))) with (json_hard_state (ls_disk st)).
  set (m := hard_state (ls_state st)) in *. set (j := json_hard_state (ls_disk st)) in *.
  destruct (read_hard_state_commit_slots (ls_disk st) (hs_current_term j)) as [best g] eqn:Hread.
  destruct (read_slots _ _ _ _ Hwf Hread) as [_ Hbest].
  assert (hs_current_term m <= hs_current_term j) as Hterm by lia.
  split.
  - destruct Hc as [Hc|(slot & _ & Hat & Ht & Hc)]; [destruct best; simpl; lia|].
    destruct (Hbest _ _ Hat) as (s & -> & Hs); [lia|]. simpl. lia.
  - destruct best; simpl; done.
Qed.

(** The store a restart opens holds what it read. *)
Lemma hs_durable_open st :
  slots_wf (ls_disk st) ->
  (hard_state (ls_state st), hard_state_commit_generation (ls_state st))
    = read_hard_state_with_commit_slots (ls_disk st) ->
  hs_durable st.
Proof.
  intros Hwf. unfold read_hard_state_with_commit_slots.
  change (default default_hard_state (d_hard_state (ls_disk st))) with (json_hard_state (ls_disk st)).
  destruct (read_hard_state_commit_slots (ls_disk st) _) as [best g] eqn:Hread.
  destruct (read_slots _ _ _ _ Hwf Hread) as [Hbest _]. intros [= Hm Hg].
  constructor; cbv zeta; [done| | |]; rewrite ?Hm, ?Hg.
  - destruct best as [s|]; [|lia]. destruct Hbest as (-> & ? & _). lia.
  - right. destruct best; simpl; auto.
  - destruct best as [s|]; [|by left]. destruct Hbest as (-> & Hpos & Hat & Ht). simpl.
    destruct (decide (hs_commit_index (json_hard_state (ls_disk st)) < sl_commit_index s)); [|left; lia].
    right. exists s. split_and!; [done|done|done|lia].
Qed.

(** Writing the hard state, whatever the file system does: the disk stays
    ahead of the memory, the memory moves forward, and an acknowledged state
    is in memory. *)
Lemma write_hard_state_durable state st :
  hs_durable st ->
  wp (write_hard_state state)
    (fun r st' => hs_durable st' /\
       hs_le (hard_state (ls_state st)) (hard_state (ls_state st')) /\
       (r = RaftOk tt -> hs_current_term (hard_state (ls_state st)) <= hs_current_term state ->
          hs_le state (hard_state (ls_state st')))) st.
Proof.
  intros Hd. unfold write_hard_state, write_hard_state_with_vote_policy. apply wp_bind, wp_get.
  set (m := hard_state (ls_state st)). apply wp_bindR, wp_check.
  destruct (next_hard_state m state _) as [next|e] eqn:Hnext; [|by split_and!].
  apply next_hard_state_le in Hnext as [Hle Hreq].
  case_bool_decide as Heq.
  { apply wp_ret. split_and!; [done..|]. subst next. auto. }
  destruct (_ && _ && _) eqn:Hcommit.
  - apply andb_prop in Hcommit as [Hcommit Hlt%bool_decide_eq_true].
    apply andb_prop in Hcommit as [Ht%bool_decide_eq_true Hv%bool_decide_eq_true].
    case_bool_decide; [by apply wp_ret|].
    set (g := hard_state_commit_generation (ls_state st)) in *.
    apply wp_bindR, wp_on_disk. pose proof Hd as [Hwf Hg Hdv Hdc]. cbv zeta in *. fold m g in Hg, Hdv, Hdc.
    eapply wp_mono; [apply write_slot_outcomes; [lia|done]|].
    intros [[]|e] d' [[H1 H2 H3 H4 H5] Hat].
    + apply wp_bind, wp_modify_state, wp_ret. split_and!; [|done|auto].
      constructor; cbv zeta; simpl; [done|lia| |].
      * unfold json_hard_state. rewrite H2, Ht, Hv. exact Hdv.
      * right. eexists. split_and!; [lia|by apply Hat|simpl; lia..].
    + split_and!; [|done|done]. constructor; cbv zeta; simpl; [done|done| |].
      * unfold json_hard_state. rewrite H2. exact Hdv.
      * unfold json_hard_state. rewrite H2. destruct Hdc as [Hc|(slot & Hpos & Hs & Hrest)]; [by left|].
        right. exists slot. destruct Hrest. split_and!; [done| |done..]. apply H5; [|done].
        rewrite commit_slot_alternates by done. fold g. by destruct (commit_slot_is_second g).
  - apply wp_bindR, wp_on_disk. pose proof Hd as [Hwf Hg Hdv Hdc]. cbv zeta in *. fold m in Hdv, Hdc.
    assert (forall d', slots_wf d' -> d_hard_state d' = Some next ->
      hs_durable (set_ls_disk d' st)) as Hafter.
    { intros d' Hwf' Hj. destruct Hle as [Hle1 Hle2]. constructor; cbv zeta; simpl; [done..| |];
        unfold json_hard_state; rewrite Hj; simpl; [|by left]. exact Hle2. }
    apply wp_io.
    + intros fs. apply wp_bind, wp_modify_state, wp_ret. split_and!; [|done|auto].
      constructor; cbv zeta; simpl; [done..| |]; unfold json_hard_state; simpl; [by right; auto|left; lia].
    + intros [|k] e fs; simpl; split_and!; try done. by apply Hafter.
    + intros [|k] e fs; simpl; split_and!; try done. by apply Hafter.
    + intros e. split_and!; [|done..]. by destruct st.
Qed.

(** ** Opening the store *)

Lemma keeps_io (R : Disk -> Disk -> Prop) effect all :
  (forall d fs, R d (set_d_faults fs d)) -> (forall d, R d (freeze d)) -> Transitive R ->
  (forall d, R d (all d)) -> (forall d k, R d (effect k d)) ->
  keeps R (io_call effect all).
Proof.
  intros Hfs Hfr Ht Ha He d r d' H. unfold io_call in H.
  destruct (d_frozen d).
  { injection H as <- <-. pose proof (Hfs d (d_faults d)) as Hr. by rewrite set_d_faults_id in Hr. }
  destruct (d_faults d) as [|[|k m|k] fs]; injection H as <- <-; [done|..];
    (etrans; [apply (Hfs d fs)|]); [done|done|]. etrans; [apply He|apply Hfr].
Qed.

Lemma keeps_gate (R : Disk -> Disk -> Prop) :
  (forall d fs, R d (set_d_faults fs d)) -> (forall d, R d (freeze d)) -> PreOrder R ->
  keeps R io_gate.
Proof. intros H1 H2 H3. apply keeps_io; [done|done|apply _|by intros|by intros]. Qed.

Lemma keeps_gate_files : keeps other_files_same io_gate.
Proof. apply keeps_gate; [by intros [] ?|by intros []|apply _]. Qed.

Lemma keeps_rollback len sync : keeps other_files_same (rollback_log_file_len len sync).
Proof.
  unfold rollback_log_file_len. apply keeps_bind; [apply _|apply keeps_get; apply _|].
  intros d. destruct (d_log d); [|apply keeps_ret; apply _].
  apply keeps_bindR; [apply _|apply keeps_gate_files|]. intros _.
  apply keeps_bindR; [apply _|apply keeps_io; [done|done|apply _|done|]|].
  { intros d' k. by case_bool_decide. }
  intros _. destruct sync; [apply keeps_gate_files|apply keeps_ret; apply _].
Qed.

Lemma keeps_rewrite_log entries : keeps other_files_same (rewrite_log entries).
Proof.
  apply keeps_io; [done|done|apply _|done|]. intros d k. by case_bool_decide.
Qed.

Section open.
Context `{D : RequestDigest}.

Lemma keeps_read_log_entries : keeps other_files_same read_log_entries.
Proof.
  unfold read_log_entries. apply keeps_bind; [apply _|apply keeps_get; apply _|].
  intros d. destruct (d_log d) as [b|]; [|apply keeps_ret; apply _].
  apply keeps_bindR; [apply _|apply keeps_gate_files|]. intros _.
  destruct (read_log_loop _ _ _) as [[entries [offset|]]|]; [| |apply keeps_ret; apply _].
  - apply keeps_bindR; [apply _|apply keeps_rollback|]. intros _. case_match; apply keeps_ret; apply _.
  - apply keeps_bindR; [apply _|apply keeps_ret; apply _|]. intros _. case_match; apply keeps_ret; apply _.
Qed.

(** The opened store's hard state is the one on the disk. *)
Lemma open_hard_state sync_log sync_commit trailing d st d' :
  open_log_store sync_log sync_commit trailing d = Done (RaftOk st) d' ->
  ls_disk st = d' /\ other_files_same d d' /\
  (hard_state (ls_state st), hard_state_commit_generation (ls_state st))
    = read_hard_state_with_commit_slots d.
Proof.
  unfold open_log_store. intros H.
  assert (exists r, read_snapshot_file d = Done r d) as [[snap|e] Hsnap].
  { unfold read_snapshot_file. rewrite (bind_done get _ d d d eq_refl). repeat case_match; eauto. }
  2: { by rewrite (bindR_err _ _ _ _ _ Hsnap) in H. }
  rewrite (bindR_ok _ _ _ _ _ Hsnap) in H.
  match type of H with bindR ?m _ _ = _ => assert (exists r, m d = Done r d) as [[fps|e] Hfps] end.
  { case_match; by eexists. }
  2: { by rewrite (bindR_err _ _ _ _ _ Hfps) in H. }
  rewrite (bindR_ok _ _ _ _ _ Hfps), (bind_done get _ d d d eq_refl) in H.
  destruct (read_hard_state_with_commit_slots d) as [hs g].
  destruct (read_log_entries d) as [[persisted|e] d1| |] eqn:Hread;
    [|by unfold bindR, mbind, M_bind in H; rewrite Hread in H..].
  rewrite (bindR_ok _ _ _ _ _ Hread) in H. apply keeps_read_log_entries in Hread.
  destruct (reconcile_persisted_log_with_snapshot _ _ _) as [rec|e]; [|done].
  rewrite (bindR_ok (mret (RaftOk rec)) _ d1 rec d1 eq_refl) in H.
  match type of H with bindR ?m _ _ = _ =>
    destruct (m d1) as [[[]|e] d2| |] eqn:Hrw;
      [|by unfold bindR, mbind, M_bind in H; rewrite Hrw in H..] end.
  rewrite (bindR_ok _ _ _ _ _ Hrw) in H.
  assert (other_files_same d1 d2) as Hsame.
  { destruct (rp_rewrite_needed rec); [by eapply keeps_rewrite_log|]. by injection Hrw as <-. }
  destruct (log_end _ _) as [li lt].
  destruct (retained_request_identity_fingerprints_after _ _) as [fps'|e]; [|done].
  destruct (term_indexes_from_entries _) as [[m1 m2] m3].
  injection H as <- <-. simpl. split_and!; [done| |done]. by etrans.
Qed.

(** The hard state's life: writes, whatever becomes of them, and restarts. *)
Inductive hs_step : RaftLogStore -> RaftLogStore -> Prop :=
| hs_write state st r st' : write_hard_state state st = Done r st' -> hs_step st st'
| hs_restart sync_log sync_commit trailing faults st st' d' :
    open_log_store sync_log sync_commit trailing (set_d_faults faults (reboot (ls_disk st)))
      = Done (RaftOk st') d' ->
    hs_step st st'.

Lemma hs_step_durable st st' :
  hs_durable st -> hs_step st st' ->
  hs_durable st' /\ hs_le (hard_state (ls_state st)) (hard_state (ls_state st')).
Proof.
  intros Hd Hs. destruct Hs as [state st1 r st2 Hw|sl sc tr fs st1 st2 d' Ho].
  - pose proof (write_hard_state_durable state st1 Hd) as Hwp.
    apply wp_done in Hwp as (r' & st3 & Hw' & H1 & H2 & _). rewrite Hw in Hw'. by injection Hw' as <- <-.
  - apply open_hard_state in Ho as (Hdisk & (H1 & H2 & H3 & H4 & H5) & Hhs). simpl in *.
    pose proof (hs_durable_read _ Hd) as Hr. pose proof (du_wf _ Hd) as Hwf.
    assert (read_hard_state_with_commit_slots (ls_disk st2) =
      read_hard_state_with_commit_slots (ls_disk st1)) as Heq.
    { unfold read_hard_state_with_commit_slots, read_hard_state_commit_slots.
      by rewrite Hdisk, H1, H2. }
    assert (read_hard_state_with_commit_slots (set_d_faults fs (reboot (ls_disk st1))) =
      read_hard_state_with_commit_slots (ls_disk st1)) as Heq' by done.
    rewrite Heq' in Hhs. split.
    + apply hs_durable_open; [|by rewrite Heq]. unfold slots_wf. by rewrite Hdisk, H2.
    + by rewrite <-Hhs in Hr.
Qed.

(** The hard state is durable: through any sequence of writes of terms,
    votes and commit indexes, with any calls of the file system failing, and
    of restarts after the machine stopped anywhere, no promise is taken back:
    the term does not decrease, the vote of a term is not lost or changed, and
    the commit index does not decrease. *)
Theorem hard_state_survives_crash st st' :
  hs_durable st -> star hs_step st st' ->
  hs_durable st' /\ hs_le (hard_state (ls_state st)) (hard_state (ls_state st')).
Proof.
  intros Hd Hs. induction Hs as [|s1 s2 s3 Hs _ IH]; [by split|].
  destruct (hs_step_durable _ _ Hd Hs) as [H1 H2]. destruct (IH H1). split; [done|by etrans].
Qed.

End open.
End durable.
