(* ===== verification/RaftLogFacts.v ===== *)
(** * Properties of the retained log

    Range queries on a contiguous log, and what the operations of the log
    store keep. *)

From S2P Require Import Prelude Text Monad Protocol BrokerTypes.
From S2P Require Import RaftQuorum RaftGrant RaftValidate RaftCache RaftFiles RaftLog.
From stdpp Require Import options.

(** ** Range queries on a contiguous log *)

Fixpoint contiguous (first : Z) (entries : list RaftLogEntry) : Prop :=
  match entries with
  | [] => True
  | entry :: entries => le_index entry = first /\ contiguous (first + 1) entries
  end.

(** The entries with an index in [start..=end_]. *)
Definition between (start end_ : Z) (entries : list RaftLogEntry) : list RaftLogEntry :=
  filter (fun entry => start <= le_index entry <= end_) entries.

Lemma contiguous_ge first l e : contiguous first l -> e ∈ l -> first <= le_index e.
Proof.
  revert first. induction l as [|x l IH]; intros first Hc He; [by apply not_elem_of_nil in He|].
  destruct Hc as [Hx Hc]. apply elem_of_cons in He as [->|He]; [lia|].
  specialize (IH _ Hc He). lia.
Qed.

Lemma between_none s e first l : contiguous first l -> e < first -> between s e l = [].
Proof.
  intros Hc He. apply filter_none. intros x Hx%(contiguous_ge first); [lia|done].
Qed.

Lemma between_low s s' e first l :
  contiguous first l -> s <= first -> s' <= first -> between s e l = between s' e l.
Proof.
  revert first. induction l as [|x l IH]; intros first Hc H1 H2; [done|].
  destruct Hc as [Hx Hc]. unfold between in *. rewrite !filter_cons.
  rewrite (IH (first + 1)) by (done || lia).
  destruct (decide (s <= _ <= e)), (decide (s' <= _ <= e)); (done || lia).
Qed.

Lemma upper_bound_take e first l :
  contiguous first l -> take (retained_entry_upper_bound l e) l = between first e l.
Proof.
  revert first. induction l as [|x l IH]; intros first Hc; [done|]. pose proof Hc as [Hx Hc'].
  unfold retained_entry_upper_bound. cbn [partition_point]. case_bool_decide as Hle.
  - unfold between. rewrite filter_cons_True by lia. cbn [take]. f_equal.
    change (filter _ l) with (between first e l). rewrite <-(between_low (first + 1) first e (first + 1)) by (done || lia). by apply IH.
  - rewrite (between_none _ _ first) by (done || lia). done.
Qed.

Lemma range_between s e first l :
  contiguous first l -> s <= e + 1 ->
  (retained_entry_lower_bound l s <= retained_entry_upper_bound l e)%nat /\
  take (retained_entry_upper_bound l e - retained_entry_lower_bound l s)
    (drop (retained_entry_lower_bound l s) l) = between s e l.
Proof.
  revert first. induction l as [|x l IH]; intros first Hc Hse; [done|]. pose proof Hc as [Hx Hc'].
  destruct (decide (le_index x < s)) as [Hlt|Hge].
  - unfold retained_entry_lower_bound, retained_entry_upper_bound, between. cbn [partition_point].
    rewrite !bool_decide_eq_true_2 by lia. rewrite filter_cons_False by lia.
    destruct (IH _ Hc' Hse) as [H1 H2]. split; [by apply le_n_S|exact H2].
  - assert (retained_entry_lower_bound (x :: l) s = 0%nat) as ->.
    { unfold retained_entry_lower_bound. cbn [partition_point]. by rewrite bool_decide_eq_false_2. }
    split; [lia|]. rewrite drop_0, Nat.sub_0_r, (upper_bound_take _ first) by done.
    apply (between_low _ _ _ first); [done|lia..].
Qed.

Lemma between_contiguous s e first l :
  contiguous first l -> first <= s <= e + 1 -> e < first + Z.of_nat (length l) ->
  contiguous s (between s e l) /\ Z.of_nat (length (between s e l)) = e + 1 - s.
Proof.
  revert first s. induction l as [|x l IH]; intros first s Hc Hs He; simpl in He.
  { split; [done|]. simpl. lia. }
  destruct Hc as [Hx Hc]. destruct (decide (first < s)) as [Hlt|Hge].
  - unfold between. rewrite filter_cons_False by lia. apply (IH (first + 1)); [done|lia..].
  - assert (s = first) as -> by lia. destruct (decide (e < first)).
    { rewrite (between_none _ _ first) by (done || lia). simpl. split; [done|lia]. }
    unfold between. rewrite filter_cons_True by lia.
    change (filter _ l) with (between first e l).
    rewrite (between_low first (first + 1) e (first + 1)) by (done || lia).
    destruct (IH (first + 1) (first + 1)) as [H1 H2]; [done|lia..|].
    cbn [contiguous length]. split; [done|lia].
Qed.

Lemma between_split s m e first l :
  contiguous first l -> s <= m + 1 <= e + 1 ->
  between s e l = between s m l ++ between (m + 1) e l.
Proof.
  revert first. induction l as [|x l IH]; intros first Hc Hm; [done|].
  pose proof Hc as [Hx Hc']. specialize (IH _ Hc' Hm). unfold between in *.
  rewrite !(filter_cons _ x l).
  destruct (decide (le_index x < s)).
  { rewrite !decide_False by lia. done. }
  destruct (decide (le_index x <= m)).
  { rewrite (decide_False (P := m + 1 <= _ <= e)) by lia.
    rewrite !decide_True by lia. simpl. by rewrite IH. }
  rewrite (decide_False (P := s <= _ <= m)) by lia.
  assert (filter (fun entry => s <= le_index entry <= m) l = []) as Hn.
  { apply (between_none s m (first + 1)); [done|lia]. }
  rewrite Hn in *. simpl in *. rewrite IH.
  destruct (decide (s <= _ <= e)), (decide (m + 1 <= _ <= e)); (done || lia).
Qed.

Lemma covered_through_contiguous c first l :
  contiguous first l -> first <= c + 1 -> 0 <= first -> first + Z.of_nat (length l) <= u64_max ->
  covered_through_loop c l = Z.max c (first + Z.of_nat (length l) - 1).
Proof.
  revert c first. induction l as [|x l IH]; intros c first Hc Hf H0 Hm; simpl in *; [lia|].
  destruct Hc as [Hx Hc]. case_bool_decide as Hle.
  - rewrite (IH c (first + 1)) by (done || lia). lia.
  - rewrite bool_decide_eq_false_2 by (rewrite saturating_add64_small; lia).
    rewrite (IH _ (first + 1)) by (done || lia). lia.
Qed.

(** ** Positions in a contiguous log *)

Lemma partition_point_length {A} (p : A -> bool) (l : list A) : (partition_point p l <= length l)%nat.
Proof. induction l as [|x l IH]; simpl; [done|]. destruct (p x); lia. Qed.

Lemma contiguous_bound (b : Z) first (l : list RaftLogEntry) :
  contiguous first l ->
  partition_point (fun entry => bool_decide (le_index entry < b)) l =
    Nat.min (length l) (Z.to_nat (b - first)).
Proof.
  revert first. induction l as [|x l IH]; intros first Hc; [done|]. destruct Hc as [Hx Hc]. cbn [partition_point length].
  rewrite (IH _ Hc). case_bool_decide; lia.
Qed.

Lemma lower_bound_contiguous first l i :
  contiguous first l -> retained_entry_lower_bound l i = Nat.min (length l) (Z.to_nat (i - first)).
Proof. apply contiguous_bound. Qed.

Lemma upper_bound_contiguous first l i :
  contiguous first l -> retained_entry_upper_bound l i = Nat.min (length l) (Z.to_nat (i + 1 - first)).
Proof.
  intros Hc. rewrite <-(contiguous_bound (i + 1) first l) by done.
  unfold retained_entry_upper_bound. clear. induction l as [|x l IH]; simpl; [done|].
  rewrite IH. do 2 case_bool_decide; (done || lia).
Qed.

Lemma contiguous_lookup first l k e :
  contiguous first l -> l !! k = Some e -> le_index e = first + Z.of_nat k.
Proof.
  revert first k. induction l as [|x l IH]; intros first [|k] Hc Hk; simplify_eq/=.
  - destruct Hc. lia.
  - destruct Hc as [_ Hc]. rewrite (IH _ _ Hc Hk). lia.
Qed.

(** [retained_entry_at] is the lookup by index. *)
Lemma entry_at_contiguous first l i :
  contiguous first l ->
  retained_entry_at l i = if bool_decide (first <= i) then l !! Z.to_nat (i - first) else None.
Proof.
  intros Hc. unfold retained_entry_at. rewrite (lower_bound_contiguous first) by done.
  case_bool_decide as Hi.
  - destruct (l !! Z.to_nat (i - first)) as [e|] eqn:He.
    + pose proof (lookup_lt_Some _ _ _ He). rewrite Nat.min_r, He by lia.
      rewrite bool_decide_eq_true_2; [done|]. rewrite (contiguous_lookup _ _ _ _ Hc He). lia.
    + apply lookup_ge_None in He. by rewrite Nat.min_l, (proj2 (lookup_ge_None l (length l))) by lia.
  - rewrite (Z2Nat.nonpos (i - first)), Nat.min_0_r by lia. destruct l as [|x l]; [done|]. simpl.
    destruct Hc as [Hx _]. by rewrite bool_decide_eq_false_2 by lia.
Qed.

Lemma entry_at_elem l i e : retained_entry_at l i = Some e -> e ∈ l /\ le_index e = i.
Proof.
  unfold retained_entry_at. destruct (l !! _) as [x|] eqn:Hx; [|done].
  case_bool_decide; [|done]. intros [= <-]. split; [by eapply list_elem_of_lookup_2|done].
Qed.

Lemma entry_at_some first l e :
  contiguous first l -> e ∈ l -> retained_entry_at l (le_index e) = Some e.
Proof.
  intros Hc [k Hk]%list_elem_of_lookup. pose proof (contiguous_lookup _ _ _ _ Hc Hk) as Hi.
  rewrite (entry_at_contiguous first), bool_decide_eq_true_2 by (done || lia).
  rewrite Hi. by replace (Z.to_nat _) with k by lia.
Qed.

Lemma entry_at_is_some first l i :
  contiguous first l -> first <= i < first + Z.of_nat (length l) -> is_Some (retained_entry_at l i).
Proof.
  intros Hc Hi. rewrite (entry_at_contiguous first), bool_decide_eq_true_2 by (done || lia).
  apply lookup_lt_is_Some. lia.
Qed.

Lemma contiguous_app first l l' :
  contiguous first (l ++ l') <->
  contiguous first l /\ contiguous (first + Z.of_nat (length l)) l'.
Proof.
  revert first. induction l as [|x l IH]; intros first; simpl.
  - rewrite Z.add_0_r. tauto.
  - rewrite IH. replace (first + 1 + Z.of_nat (length l)) with (first + Z.of_nat (S (length l))) by lia.
    tauto.
Qed.

Lemma contiguous_take first l n : contiguous first l -> contiguous first (take n l).
Proof. rewrite <-(take_drop n l) at 1. by intros [? _]%contiguous_app. Qed.

Lemma contiguous_drop first l n :
  contiguous first l -> contiguous (first + Z.of_nat (Nat.min n (length l))) (drop n l).
Proof. rewrite <-(take_drop n l) at 1. intros [_ Hc]%contiguous_app. by rewrite length_take in Hc. Qed.

Lemma contiguous_last first l e :
  contiguous first l -> last l = Some e -> le_index e = first + Z.of_nat (length l) - 1.
Proof.
  rewrite last_lookup. intros Hc He. rewrite (contiguous_lookup _ _ _ _ Hc He).
  apply lookup_lt_Some in He. lia.
Qed.

Lemma entry_at_take first l n i :
  contiguous first l -> i < first + Z.of_nat n ->
  retained_entry_at (take n l) i = retained_entry_at l i.
Proof.
  intros Hc Hi. rewrite !(entry_at_contiguous first) by eauto using contiguous_take.
  case_bool_decide; [|done]. apply lookup_take_lt. lia.
Qed.

Lemma entry_at_app_l first l l' i :
  contiguous first (l ++ l') -> i < first + Z.of_nat (length l) ->
  retained_entry_at (l ++ l') i = retained_entry_at l i.
Proof.
  intros Hc Hi. rewrite <-(entry_at_take first (l ++ l') (length l)) by done.
  by rewrite take_app_length.
Qed.

(** ** Valid logs *)

Section valid.
Context `{D : RequestDigest}.

(** What [validate_persisted_log_entries] accepts, entry by entry. *)
Definition follows (previous : option RaftLogEntry) (entry : RaftLogEntry) : Prop :=
  forall prev, previous = Some prev ->
    le_index prev <> u64_max /\ le_index entry = le_index prev + 1 /\ le_term prev <= le_term entry.

Definition entry_valid (entry : RaftLogEntry) : Prop :=
  le_index entry <> 0 /\ le_term entry <> 0 /\ validate_raft_command (le_command entry) = RaftOk tt.

Lemma validate_cons previous entry entries :
  validate_entries_after previous (entry :: entries) = RaftOk tt <->
  entry_valid entry /\ follows previous entry /\
  validate_entries_after (Some entry) entries = RaftOk tt.
Proof.
  unfold entry_valid, follows. cbn [validate_entries_after].
  case_bool_decide as H1; [split; [done|]; by intros [(? & _) _]|].
  case_bool_decide as H2; [split; [done|]; by intros [(_ & ? & _) _]|].
  destruct previous as [prev|].
  - case_bool_decide as H3.
    { split; [done|]. intros (_ & Hf & _). by destruct (Hf prev eq_refl). }
    case_bool_decide as H4.
    { split; [done|]. intros (_ & Hf & _). by destruct (Hf prev eq_refl) as (_ & ? & _). }
    case_bool_decide as H5.
    { split; [done|]. intros (_ & Hf & _). destruct (Hf prev eq_refl). lia. }
    cbn. destruct (validate_raft_command (le_command entry)) as [[]|err]; cbn.
    + split; [|by intros (_ & _ & ?)]. intros Hv. split_and!; try done.
      intros p [= <-]. split_and!; [done|done|lia].
    + split; [done|]. by intros ((_ & _ & ?) & _).
  - cbn. destruct (validate_raft_command (le_command entry)) as [[]|err]; cbn.
    + split; [|by intros (_ & _ & ?)]. intros Hv. by split_and!.
    + split; [done|]. by intros ((_ & _ & ?) & _).
Qed.

#[local] Arguments validate_entries_after : simpl never.

Lemma validate_app previous l l' :
  validate_entries_after previous (l ++ l') = RaftOk tt <->
  validate_entries_after previous l = RaftOk tt /\
  validate_entries_after (if last l is Some e then Some e else previous) l' = RaftOk tt.
Proof.
  revert previous. induction l as [|e l IH]; intros previous; simpl app.
  { split; [done|by intros [_ ?]]. }
  rewrite !validate_cons, IH, last_cons. destruct (last l); tauto.
Qed.

Lemma validate_weaken previous l :
  validate_entries_after previous l = RaftOk tt -> validate_persisted_log_entries l = RaftOk tt.
Proof.
  unfold validate_persisted_log_entries. destruct l as [|e l]; [done|].
  rewrite !validate_cons. intros (? & _ & ?). by split_and!.
Qed.

Lemma validate_contiguous previous first l :
  validate_entries_after previous l = RaftOk tt ->
  (forall e, head l = Some e -> le_index e = first) -> contiguous first l.
Proof.
  revert previous first. induction l as [|e l IH]; intros previous first Hv Hf; [done|].
  apply validate_cons in Hv as (_ & _ & Hv). split; [by apply Hf|]. apply (IH (Some e)); [done|].
  intros e' He'. destruct l as [|x l]; simplify_eq/=.
  apply validate_cons in Hv as (_ & Hf' & _). destruct (Hf' e eq_refl) as (_ & -> & _).
  by rewrite (Hf e).
Qed.

Lemma valid_contiguous e l :
  validate_persisted_log_entries (e :: l) = RaftOk tt -> contiguous (le_index e) (e :: l).
Proof. intros Hv. eapply validate_contiguous; [done|]. by intros ? [= <-]. Qed.

Lemma valid_take n l :
  validate_persisted_log_entries l = RaftOk tt ->
  validate_persisted_log_entries (take n l) = RaftOk tt.
Proof.
  unfold validate_persisted_log_entries. rewrite <-(take_drop n l) at 1. by intros [? _]%validate_app.
Qed.

Lemma valid_drop n l :
  validate_persisted_log_entries l = RaftOk tt ->
  validate_persisted_log_entries (drop n l) = RaftOk tt.
Proof.
  unfold validate_persisted_log_entries. rewrite <-(take_drop n l) at 1.
  intros [_ ?]%validate_app. by eapply validate_weaken.
Qed.

(** Terms do not decrease along the log. *)
Lemma valid_terms l i j e e' :
  validate_persisted_log_entries l = RaftOk tt -> (i <= j)%nat ->
  l !! i = Some e -> l !! j = Some e' -> le_term e <= le_term e'.
Proof.
  unfold validate_persisted_log_entries. generalize (@None RaftLogEntry).
  revert i j e e'.
  induction l as [|x l IH]; intros [|i] [|j] e e' prev Hv Hij Hi Hj; simplify_eq/=; try lia.
  - apply validate_cons in Hv as (_ & _ & Hv). destruct l as [|y l]; [done|].
    assert (le_term e <= le_term y).
    { apply validate_cons in Hv as (_ & Hf & _). by destruct (Hf e eq_refl) as (_ & _ & ?). }
    enough (le_term y <= le_term e') by lia. eapply (IH 0%nat j); [done|lia|done..].
  - apply validate_cons in Hv as (_ & _ & Hv). eapply (IH i j); [done|lia|done..].
Qed.

End valid.

(** ** The term indexes *)

(** The entries of a term. *)
Definition of_term (t : Z) (l : list RaftLogEntry) : list RaftLogEntry :=
  filter (fun e => le_term e = t) l.

Lemma add_term_index_eq l e :
  term_indexes_from_entries (l ++ [e]) = add_term_index (term_indexes_from_entries l) e.
Proof. unfold term_indexes_from_entries. by rewrite foldl_app. Qed.

Lemma term_by_index_elem l i t :
  (term_indexes_from_entries l).1.1 !! i = Some t -> exists e, e ∈ l /\ le_index e = i /\ le_term e = t.
Proof.
  induction l as [|e l IH] using rev_ind; [done|]. rewrite add_term_index_eq. unfold add_term_index.
  destruct (term_indexes_from_entries l) as [[m1 m2] m3]. simpl in *.
  rewrite lookup_insert_Some. intros [[<- <-]|[_ Hm]].
  - exists e. set_solver.
  - destruct (IH Hm) as (e' & ? & ? & ?). exists e'. set_solver.
Qed.

(** [term_by_index] holds the terms of the retained entries. *)
Lemma term_by_index_at first l i :
  contiguous first l ->
  (term_indexes_from_entries l).1.1 !! i = le_term <$> retained_entry_at l i.
Proof.
  intros Hc. destruct ((term_indexes_from_entries l).1.1 !! i) as [t|] eqn:Ht.
  { apply term_by_index_elem in Ht as (e & He & <- & <-). by rewrite (entry_at_some first). }
  destruct (retained_entry_at l i) as [e|] eqn:He; [|done].
  apply entry_at_elem in He as [He <-]. exfalso. revert He Ht. clear.
  induction l as [|x l IH] using rev_ind; [by intros ?%not_elem_of_nil|].
  rewrite add_term_index_eq. unfold add_term_index.
  destruct (term_indexes_from_entries l) as [[m1 m2] m3]. simpl in *.
  rewrite lookup_insert_None, elem_of_app, list_elem_of_singleton. naive_solver.
Qed.

Lemma first_by_term_eq l t :
  (term_indexes_from_entries l).1.2 !! t = le_index <$> head (of_term t l).
Proof.
  induction l as [|e l IH] using rev_ind; [done|]. rewrite add_term_index_eq. unfold add_term_index.
  destruct (term_indexes_from_entries l) as [[m1 m2] m3]. simpl in *. unfold of_term in *.
  rewrite filter_app. simpl. destruct (decide (le_term e = t)) as [<-|Hne].
  - rewrite filter_cons_True by done. destruct (filter _ l) as [|x xs]; simpl in *.
    + rewrite IH. apply lookup_insert_eq.
    + by rewrite IH.
  - rewrite filter_cons_False, filter_nil, app_nil_r by done.
    case_match; [done|]. by rewrite lookup_insert_ne.
Qed.

Lemma last_by_term_eq l t :
  (term_indexes_from_entries l).2 !! t = le_index <$> last (of_term t l).
Proof.
  induction l as [|e l IH] using rev_ind; [done|]. rewrite add_term_index_eq. unfold add_term_index.
  destruct (term_indexes_from_entries l) as [[m1 m2] m3]. simpl in *. unfold of_term in *.
  rewrite filter_app. simpl. destruct (decide (le_term e = t)) as [<-|Hne].
  - rewrite filter_cons_True, filter_nil by done. rewrite last_snoc. apply lookup_insert_eq.
  - rewrite filter_cons_False, filter_nil, app_nil_r by done. by rewrite lookup_insert_ne.
Qed.

(** ** The request identities *)

(** The first use of a request id in a list of entries. *)
Fixpoint first_identity (id : string) (l : list RaftLogEntry)
    : option RetainedRequestIdentityFingerprint :=
  match l with
  | [] => None
  | e :: l =>
      match command_identity (le_command e) with
      | Some (i, f) =>
          if bool_decide (i = id) then Some (mkRetainedRequestIdentityFingerprint f (le_index e))
          else first_identity id l
      | None => first_identity id l
      end
  end.

Lemma first_identity_app id l l' :
  first_identity id (l ++ l') =
  if first_identity id l is Some fp then Some fp else first_identity id l'.
Proof.
  induction l as [|e l IH]; simpl; [done|]. destruct (command_identity _) as [[i f]|]; [|done].
  by case_bool_decide.
Qed.

Lemma first_identity_elem id l fp :
  first_identity id l = Some fp -> exists e, e ∈ l /\ rf_first_index fp = le_index e.
Proof.
  induction l as [|e l IH]; simpl; [done|].
  destruct (command_identity _) as [[i f]|]; [case_bool_decide|].
  - intros [= <-]. exists e. set_solver.
  - intros (e' & ? & ?)%IH. exists e'. set_solver.
  - intros (e' & ? & ?)%IH. exists e'. set_solver.
Qed.

Lemma add_retained_app m l l' :
  add_retained_request_identity_entries m (l ++ l') =
  match add_retained_request_identity_entries m l with
  | RaftOk m' => add_retained_request_identity_entries m' l'
  | RaftErr e => RaftErr e
  end.
Proof.
  revert m. induction l as [|e l IH]; intros m; [done|]. simpl.
  destruct (command_identity _) as [[i f]|]; [|done].
  destruct (m !! i); [|done]. by case_bool_decide.
Qed.

(** The fingerprints are the first uses. *)
Lemma add_retained_lookup first m l m' :
  contiguous first l ->
  (forall id fp, m !! id = Some fp -> rf_first_index fp < first) ->
  add_retained_request_identity_entries m l = RaftOk m' ->
  forall id, m' !! id = if m !! id is Some fp then Some fp else first_identity id l.
Proof.
  revert first m. induction l as [|e l IH]; intros first m Hc Hm Ha id; simpl in Ha |- *.
  { injection Ha as <-. by destruct (m !! id). }
  destruct Hc as [He Hc].
  assert (forall id fp, m !! id = Some fp -> rf_first_index fp < first + 1) as Hm'.
  { intros i fp Hi. specialize (Hm _ _ Hi). lia. }
  destruct (command_identity _) as [[i f]|]; [|by eapply IH].
  destruct (m !! i) as [prev|] eqn:Hi.
  - case_bool_decide; [done|]. pose proof (Hm _ _ Hi).
    rewrite Z.min_l, insert_id in Ha by (lia || by rewrite Hi; destruct prev).
    rewrite (IH _ _ Hc Hm' Ha). destruct (m !! id) eqn:Hid; [done|].
    rewrite bool_decide_eq_false_2; [done|]. by intros ->; rewrite Hid in Hi.
  - rewrite (fun H => IH (first + 1) _ Hc H Ha id).
    + case_bool_decide as Hid; [subst i; by rewrite lookup_insert_eq, Hi|].
      by rewrite lookup_insert_ne.
    + intros i' fp. rewrite lookup_insert_Some. intros [[_ <-]|[_ Hi']]; simpl; [lia|by eapply Hm'].
Qed.

Lemma truncate_first l l' plast fps :
  (forall id, fps !! id = first_identity id (l ++ l')) ->
  (forall e, e ∈ l -> le_index e <= plast) -> (forall e, e ∈ l' -> plast < le_index e) ->
  (plast = 0 -> l = []) ->
  forall id, truncate_retained_request_identity_fingerprints fps plast !! id = first_identity id l.
Proof.
  intros Hf Hl Hl' H0 id. unfold truncate_retained_request_identity_fingerprints.
  case_bool_decide; [by rewrite H0|]. rewrite map_lookup_filter, Hf, first_identity_app.
  destruct (first_identity id l) as [fp|] eqn:Hfp; simpl.
  - apply first_identity_elem in Hfp as (e & He & Hi). rewrite option_guard_True; [done|].
    simpl. rewrite Hi. by apply Hl.
  - destruct (first_identity id l') as [fp|] eqn:Hfp'; [|done]. simpl.
    apply first_identity_elem in Hfp' as (e & He & Hi). rewrite option_guard_False; [done|].
    simpl. rewrite Hi. specialize (Hl' _ He). lia.
Qed.

(** A batch that passes the identity checks is recorded without a conflict. *)
Lemma identity_context_admits snap fps plast incoming l m :
  identity_context_loop snap fps plast incoming l = RaftOk tt ->
  (forall id fp, m !! id = Some fp ->
     incoming !! id = Some (rf_request_fingerprint fp) \/
     (0 < plast /\ exists fp', fps !! id = Some fp' /\ rf_first_index fp' <= plast /\
        rf_request_fingerprint fp' = rf_request_fingerprint fp)) ->
  exists m', add_retained_request_identity_entries m l = RaftOk m'.
Proof.
  revert incoming m. induction l as [|e l IH]; intros incoming m Hl Hm; simpl in *; [eauto|].
  destruct (command_identity _) as [[i f]|]; [|by eapply IH]. cbv zeta in Hl.
  match type of Hl with (if ?c then _ else _) = _ => destruct c; [done|] end.
  match type of Hl with (if ?c then _ else _) = _ => destruct c eqn:H1; [done|] end.
  match type of Hl with (if ?c then _ else _) = _ => destruct c eqn:H2; [done|] end.
  assert (forall prev, m !! i = Some prev -> rf_request_fingerprint prev = f) as Hf.
  { intros prev Hi. destruct (Hm _ _ Hi) as [Hinc|(Hp & fp' & Hfp & Hle & Heq)].
    - rewrite Hinc in H2. by apply bool_decide_eq_false, dec_stable in H2.
    - rewrite Hfp, !bool_decide_eq_true_2 in H1 by done. simpl in H1.
      apply bool_decide_eq_false, dec_stable in H1. congruence. }
  assert (forall x, rf_request_fingerprint x = f ->
    exists m', add_retained_request_identity_entries (<[i := x]> m) l = RaftOk m') as Hgo.
  { intros x Hx. apply (IH _ _ Hl). intros id fp [[<- <-]|[Hne Hid]]%lookup_insert_Some.
    - left. by rewrite lookup_insert_eq, Hx.
    - destruct (Hm _ _ Hid); [left; by rewrite lookup_insert_ne|by right]. }
  destruct (m !! i) as [prev|] eqn:Hi; [|by apply Hgo].
  pose proof (Hf prev eq_refl). rewrite bool_decide_eq_false_2 by (by intros []).
  by apply Hgo.
Qed.

Lemma no_identities_admit l m :
  entries_have_client_request_identities l = false ->
  add_retained_request_identity_entries m l = RaftOk m.
Proof.
  induction l as [|e l IH]; simpl; [done|]. destruct (command_identity _) as [[]|]; [done|]. apply IH.
Qed.

Lemma repaired_context_admits snap fps plast l m :
  validate_repaired_request_identity_context snap fps plast l = RaftOk tt ->
  (forall id fp, m !! id = Some fp -> 0 < plast /\ fps !! id = Some fp /\ rf_first_index fp <= plast) ->
  exists m', add_retained_request_identity_entries m l = RaftOk m'.
Proof.
  unfold validate_repaired_request_identity_context.
  destruct (entries_have_client_request_identities l) eqn:Hl; simpl; intros Hv Hm.
  - eapply identity_context_admits; [done|]. intros id fp Hid. right.
    destruct (Hm _ _ Hid) as (? & ? & ?). eauto 6.
  - eexists. by apply no_identities_admit.
Qed.
