(* ===== verification/RaftLogInv.v ===== *)
(** * The invariant of the log store

    What the log store keeps between its cached state and its files, and that
    the entries a leader sends and the ones appended locally preserve it. *)

From S2P Require Import Prelude Text Monad Protocol BrokerTypes.
From S2P Require Import BrokerSnapshot.
From S2P Require Import RaftQuorum RaftGrant RaftValidate RaftCache RaftFiles RaftFilesFacts.
From S2P Require Import RaftLog RaftLogFacts.
From stdpp Require Import options.

#[local] Arguments validate_entries_after : simpl never.

(** ** The boundary between snapshot and log *)

Lemma find_entry_at first l i :
  contiguous first l ->
  List.find (fun entry => bool_decide (le_index entry = i)) l = retained_entry_at l i.
Proof.
  intros Hc. destruct (List.find _ l) as [e|] eqn:Hf.
  - apply List.find_some in Hf as [He Hi]. apply bool_decide_eq_true in Hi as <-.
    symmetry. apply (entry_at_some first); [done|]. by apply list_elem_of_In.
  - destruct (retained_entry_at l i) as [e|] eqn:He; [|done].
    apply entry_at_elem in He as [He Hi]. apply list_elem_of_In in He.
    apply (List.find_none _ _ Hf) in He. by apply bool_decide_eq_false in He.
Qed.

(** What [validate_snapshot_log_boundary] accepts: a log that starts at most
    one after the snapshot, reaches it and agrees with its term. *)
Definition boundary_ok (first : Z) (l : list RaftLogEntry) (snap : option RaftSnapshotMetadata)
    : Prop :=
  match snap with
  | None => first = 1
  | Some sm =>
      sm_last_included_index sm <= first + Z.of_nat (length l) - 1 /\
      sm_last_included_index sm <> u64_max /\ first <= sm_last_included_index sm + 1 /\
      (first <= sm_last_included_index sm ->
       le_term <$> retained_entry_at l (sm_last_included_index sm) = Some (sm_last_included_term sm))
  end.

Lemma boundary_iff first l snap :
  contiguous first l -> l <> [] ->
  validate_snapshot_log_boundary l snap = RaftOk tt <-> boundary_ok first l snap.
Proof.
  intros Hc Hl. unfold validate_snapshot_log_boundary, boundary_ok.
  destruct l as [|x l']; [done|]. destruct (last (x :: l')) as [y|] eqn:Hy; [|by apply last_None in Hy].
  pose proof Hc as [Hx _]. change (head (x :: l')) with (Some x). cbv iota.
  rewrite (contiguous_last _ _ _ Hc Hy), Hx. cbn [length].
  destruct snap as [sm|].
  - rewrite (find_entry_at first) by done. cbv zeta.
    repeat case_bool_decide; try (split; [done|]; intros (?&?&?&?); (done || lia)).
    + destruct (retained_entry_at _ _) as [e|]; simpl; [case_bool_decide as He|].
      * split; [done|]. intros (?&?&?&Ht). injection (Ht ltac:(lia)) as Ht'. done.
      * split; [|done]. intros _. split_and!; [lia|done|lia|]. intros _. by rewrite He.
      * split; [done|]. intros (?&?&?&Ht). specialize (Ht ltac:(lia)). done.
    + split; [|done]. intros _. split_and!; [lia|done|lia|lia].
  - case_bool_decide; split; (done || lia).
Qed.

Lemma boundary_app first l l' snap :
  contiguous first (l ++ l') -> boundary_ok first l snap -> boundary_ok first (l ++ l') snap.
Proof.
  intros Hc. unfold boundary_ok. destruct snap as [sm|]; [|done]. intros (H1 & H2 & H3 & H4).
  rewrite length_app. split_and!; [lia|done|done|]. intros H5. rewrite <-H4 by done. f_equal.
  apply (entry_at_app_l first); [done|lia].
Qed.

(** ** The invariant *)

(** The entry's index and term are of the type [u64]. *)
Definition typed_entry (e : RaftLogEntry) : Prop := 0 <= le_index e <= u64_max /\ 0 <= le_term e.

(** So is the snapshot's index; a snapshot of nothing has no term. *)
Definition typed_snapshot (snap : option RaftSnapshotMetadata) : Prop :=
  forall sm, snap = Some sm ->
    0 <= sm_last_included_index sm /\
    (sm_last_included_index sm = 0 -> sm_last_included_term sm = 0).

Section store.
Context `{D : RequestDigest} `{C : RaftCodec} `{L : !RaftCodecLaws}.

(** The cached state is that of a valid log which the file holds. *)
Record log_ok (st : RaftLogStore) : Prop := {
  lo_typed : Forall typed_entry (retained_log_entries (ls_state st));
  lo_snapshot_typed : typed_snapshot (latest_snapshot (ls_state st));
  lo_valid : validate_persisted_log_entries (retained_log_entries (ls_state st)) = RaftOk tt;
  lo_boundary :
    validate_snapshot_log_boundary (retained_log_entries (ls_state st)) (latest_snapshot (ls_state st))
      = RaftOk tt;
  lo_end :
    (last_index (ls_state st), last_term (ls_state st))
      = log_end (retained_log_entries (ls_state st)) (latest_snapshot (ls_state st));
  lo_maps :
    (term_by_index (ls_state st), first_index_by_term (ls_state st), last_index_by_term (ls_state st))
      = term_indexes_from_entries (retained_log_entries (ls_state st));
  lo_sizes :
    retained_log_entry_bytes (ls_state st)
      = serialized_log_entry_lens (retained_log_entries (ls_state st));
  lo_fingerprints :
    retained_request_identity_fingerprints_after (retained_log_entries (ls_state st))
      (snapshot_index_of (ls_state st)) = RaftOk (retained_request_fingerprints (ls_state st));
  lo_file : default [] (d_log (ls_disk st)) = serialized (retained_log_entries (ls_state st));
}.

(** The retained log is a contiguous range of indexes that reaches the
    snapshot from above and ends at [last_index]. *)
Definition shape (s : RaftLogState) (first : Z) : Prop :=
  contiguous first (retained_log_entries s) /\
  0 < first <= snapshot_index_of s + 1 /\
  last_index s = first + Z.of_nat (length (retained_log_entries s)) - 1 /\
  snapshot_index_of s <= last_index s.

Lemma snapshot_index_nonneg st : log_ok st -> 0 <= snapshot_index_of (ls_state st).
Proof.
  intros Hok. pose proof (lo_snapshot_typed _ Hok) as Hs. unfold snapshot_index_of.
  destruct (latest_snapshot _) as [sm|]; [|done]. by destruct (Hs sm eq_refl).
Qed.

Lemma log_shape st : log_ok st -> exists first, shape (ls_state st) first.
Proof.
  intros Hok. pose proof (snapshot_index_nonneg st Hok) as Hs.
  destruct Hok as [Ht _ Hv Hb He _ _ _ _]. unfold shape. set (s := ls_state st) in *.
  destruct (retained_log_entries s) as [|e l] eqn:Hl.
  - exists (snapshot_index_of s + 1). unfold snapshot_index_of in *.
    destruct (latest_snapshot s); injection He as -> _; simpl in *; split_and!; (done || lia).
  - pose proof (valid_contiguous _ _ Hv) as Hc. exists (le_index e).
    apply (boundary_iff (le_index e)) in Hb; [|done..].
    destruct (last (e :: l)) as [y|] eqn:Hy; [|by apply last_None in Hy].
    unfold log_end in He. rewrite Hy in He. injection He as -> _.
    rewrite (contiguous_last _ _ _ Hc Hy).
    apply validate_cons in Hv as ((H0 & _) & _). apply Forall_cons in Ht as [[[H1 _] _] _].
    unfold boundary_ok, snapshot_index_of in *. cbn [length] in *.
    destruct (latest_snapshot s); cbn [default from_option fmap option_fmap option_map id] in *;
      [destruct Hb as (? & ? & ? & _)|]; split_and!; (done || lia).
Qed.

(** The retained entry at an index. *)
Definition log_at (st : RaftLogStore) (i : Z) : option RaftLogEntry :=
  retained_entry_at (retained_log_entries (ls_state st)) i.

Lemma term_by_index_log st i :
  log_ok st -> term_by_index (ls_state st) !! i = le_term <$> log_at st i.
Proof.
  intros Hok. destruct (log_shape st Hok) as (first & Hc & _). pose proof (lo_maps _ Hok) as Hm.
  unfold log_at. rewrite <-(term_by_index_at first) by done. by rewrite <-Hm.
Qed.

(** The entries above the snapshot and not after the end are retained. *)
Lemma log_at_retained st i :
  log_ok st -> snapshot_index_of (ls_state st) < i <= last_index (ls_state st) ->
  is_Some (log_at st i).
Proof.
  intros Hok Hi. destruct (log_shape st Hok) as (first & Hc & Hf & Hl & Hs).
  apply (entry_at_is_some first); [done|lia].
Qed.

Lemma log_at_index st i e : log_at st i = Some e -> le_index e = i.
Proof. intros H. by apply entry_at_elem in H as [_ ?]. Qed.

Lemma log_end_term st e :
  log_ok st -> last (retained_log_entries (ls_state st)) = Some e ->
  le_index e = last_index (ls_state st) /\ le_term e = last_term (ls_state st).
Proof.
  intros Hok He. pose proof (lo_end _ Hok) as Hl. unfold log_end in Hl. rewrite He in Hl.
  by injection Hl as -> ->.
Qed.

(** The log's last term is the term at its last index. *)
Lemma term_at_last st : log_ok st -> term_at_index (ls_state st) (last_index (ls_state st)) = Some (last_term (ls_state st)).
Proof.
  intros Hok. destruct (log_shape st Hok) as (first & Hc & Hf & Hl & Hs).
  pose proof (lo_end _ Hok) as He. unfold term_at_index. rewrite term_by_index_log by done. unfold log_at.
  destruct (last (retained_log_entries (ls_state st))) as [e|] eqn:Hlast.
  - destruct (log_end_term st e Hok Hlast) as [<- <-].
    pose proof (contiguous_last _ _ _ Hc Hlast). assert (0 < le_index e).
    { apply last_Some_elem_of, list_elem_of_lookup in Hlast as [k Hk].
      rewrite (contiguous_lookup _ _ _ _ Hc Hk). lia. }
    rewrite bool_decide_eq_false_2 by lia.
    by rewrite (entry_at_some first) by (done || by apply last_Some_elem_of).
  - apply last_None in Hlast. rewrite Hlast in *. unfold log_end in He. simpl in He.
    pose proof (lo_snapshot_typed _ Hok) as Ht.
    destruct (latest_snapshot (ls_state st)) as [sm|]; injection He as -> ->; [|done].
    destruct (Ht sm eq_refl) as [_ H0]. case_bool_decide as Hz; [by rewrite H0|]. simpl.
    by rewrite bool_decide_eq_true_2.
Qed.

(** The log agrees with its snapshot. *)
Lemma term_at_snapshot st sm :
  log_ok st -> latest_snapshot (ls_state st) = Some sm ->
  term_at_index (ls_state st) (sm_last_included_index sm) = Some (sm_last_included_term sm).
Proof.
  intros Hok Hsm. pose proof (lo_snapshot_typed _ Hok) as Ht. destruct (Ht sm Hsm) as [_ H0].
  unfold term_at_index. case_bool_decide as Hz; [by rewrite H0|].
  rewrite term_by_index_log, Hsm by done. unfold log_at.
  destruct (retained_entry_at _ _) as [e|] eqn:He; simpl; [|by rewrite bool_decide_eq_true_2].
  pose proof (entry_at_elem _ _ _ He) as [Hel Hi].
  destruct (retained_log_entries (ls_state st)) as [|x l] eqn:Hl; [by apply not_elem_of_nil in Hel|].
  pose proof (lo_valid _ Hok) as Hv. pose proof (lo_boundary _ Hok) as Hb. rewrite Hl in Hv, Hb.
  pose proof (valid_contiguous _ _ Hv) as Hc. rewrite (boundary_iff _ _ _ Hc) in Hb by done.
  rewrite Hsm in Hb. destruct Hb as (_ & _ & _ & Hb). rewrite He in Hb. simpl in Hb.
  apply Hb. rewrite <-Hi. by apply (contiguous_ge _ _ _ Hc).
Qed.

(** ** Extending the log *)

(** A batch that continues the log. *)
Definition continues (s : RaftLogState) (entries : list RaftLogEntry) : Prop :=
  Forall typed_entry entries /\
  validate_persisted_log_entries entries = RaftOk tt /\
  last_index s <> u64_max /\
  forall e, head entries = Some e -> le_index e = last_index s + 1 /\ last_term s <= le_term e.

Lemma validate_follow previous l :
  validate_persisted_log_entries l = RaftOk tt ->
  (forall e, head l = Some e -> follows previous e) ->
  validate_entries_after previous l = RaftOk tt.
Proof.
  destruct l as [|e l]; [done|]. unfold validate_persisted_log_entries. rewrite !validate_cons.
  intros (? & _ & ?) Hf. split_and!; [done|by apply Hf|done].
Qed.

Lemma continues_valid st entries :
  log_ok st -> continues (ls_state st) entries ->
  validate_persisted_log_entries (retained_log_entries (ls_state st) ++ entries) = RaftOk tt.
Proof.
  intros Hok (_ & Hv & Hmax & Hh). apply validate_app. split; [apply Hok|].
  apply validate_follow; [done|]. intros e He. destruct (Hh _ He) as [Hi Ht].
  destruct (last _) as [p|] eqn:Hp; [|by intros ? ?].
  destruct (log_end_term st p Hok Hp) as [H1 H2]. intros q [= <-].
  rewrite H1, H2. split_and!; [done|done|done].
Qed.

Lemma continues_contiguous st first entries :
  log_ok st -> shape (ls_state st) first -> continues (ls_state st) entries ->
  contiguous first (retained_log_entries (ls_state st) ++ entries).
Proof.
  intros Hok (Hc & Hf & Hl & Hs) Hcont. apply (validate_contiguous None).
  - by apply continues_valid.
  - intros e He. destruct (retained_log_entries (ls_state st)) as [|x l]; simpl in *.
    + destruct Hcont as (_ & _ & _ & Hh). destruct (Hh e He). lia.
    + injection He as <-. by destruct Hc.
Qed.

Lemma continues_boundary st entries :
  log_ok st -> continues (ls_state st) entries ->
  validate_snapshot_log_boundary (retained_log_entries (ls_state st) ++ entries)
    (latest_snapshot (ls_state st)) = RaftOk tt.
Proof.
  intros Hok Hcont. destruct (log_shape st Hok) as (first & Hsh).
  pose proof (continues_contiguous st first entries Hok Hsh Hcont) as Hc.
  destruct Hsh as (Hc0 & Hf & Hl & Hs). pose proof (lo_boundary _ Hok) as Hb.
  destruct (decide (retained_log_entries (ls_state st) = [])) as [Hnil|Hne].
  - rewrite Hnil in *. simpl in *. destruct entries as [|e es]; [done|].
    apply (boundary_iff first); [done..|]. unfold boundary_ok, snapshot_index_of in *.
    pose proof Hcont as (_ & _ & Hmax & _).
    pose proof (lo_end _ Hok) as He. rewrite Hnil in He. simpl in He.
    destruct (latest_snapshot _) as [sm|]; simpl in *; [|lia].
    injection He as He _. split_and!; lia.
  - apply (boundary_iff first); [done|by destruct (retained_log_entries _)|].
    apply boundary_app; [done|]. by apply boundary_iff.
Qed.

(** The cached fingerprints are the first uses above the snapshot. *)
Lemma fingerprints_first st id :
  log_ok st ->
  retained_request_fingerprints (ls_state st) !! id =
  first_identity id (drop (retained_entry_upper_bound (retained_log_entries (ls_state st))
    (snapshot_index_of (ls_state st))) (retained_log_entries (ls_state st))).
Proof.
  intros Hok. destruct (log_shape st Hok) as (first & Hc & _).
  pose proof (lo_fingerprints _ Hok) as Hf.
  rewrite (add_retained_lookup _ _ _ _ (contiguous_drop _ _ _ Hc)) with (2 := Hf) by done. done.
Qed.

Lemma fingerprints_bounds st id fp :
  log_ok st -> retained_request_fingerprints (ls_state st) !! id = Some fp ->
  0 < rf_first_index fp <= last_index (ls_state st).
Proof.
  intros Hok. rewrite fingerprints_first by done. intros (e & He & ->)%first_identity_elem.
  destruct (log_shape st Hok) as (first & Hc & Hf & Hl & Hs).
  apply list_elem_of_lookup in He as [k Hk]. rewrite lookup_drop in Hk.
  pose proof (lookup_lt_Some _ _ _ Hk).
  rewrite (contiguous_lookup _ _ _ _ Hc Hk). lia.
Qed.

Lemma above_snapshot_app st first entries :
  shape (ls_state st) first -> contiguous first (retained_log_entries (ls_state st) ++ entries) ->
  drop (retained_entry_upper_bound (retained_log_entries (ls_state st) ++ entries)
    (snapshot_index_of (ls_state st))) (retained_log_entries (ls_state st) ++ entries) =
  drop (retained_entry_upper_bound (retained_log_entries (ls_state st))
    (snapshot_index_of (ls_state st))) (retained_log_entries (ls_state st)) ++ entries.
Proof.
  intros (Hc & Hf & Hl & Hs) Hc'. rewrite !(upper_bound_contiguous first) by done.
  rewrite length_app, !Nat.min_r by lia. apply drop_app_le. lia.
Qed.

Lemma fingerprints_extend st entries :
  log_ok st -> continues (ls_state st) entries ->
  validate_repaired_request_identity_context (snapshot_client_response_fingerprints (ls_state st))
    (retained_request_fingerprints (ls_state st)) (last_index (ls_state st)) entries = RaftOk tt ->
  exists fps,
    add_retained_request_identity_entries (retained_request_fingerprints (ls_state st)) entries
      = RaftOk fps /\
    retained_request_identity_fingerprints_after (retained_log_entries (ls_state st) ++ entries)
      (snapshot_index_of (ls_state st)) = RaftOk fps.
Proof.
  intros Hok Hcont Hctx. destruct (log_shape st Hok) as (first & Hsh).
  destruct (repaired_context_admits _ _ _ _ (retained_request_fingerprints (ls_state st)) Hctx)
    as [fps Hfps].
  { intros id fp Hid. pose proof (fingerprints_bounds _ _ _ Hok Hid). split_and!; [lia|done|lia]. }
  exists fps. split; [done|]. unfold retained_request_identity_fingerprints_after.
  rewrite (above_snapshot_app _ first) by eauto using continues_contiguous.
  rewrite add_retained_app. pose proof (lo_fingerprints _ Hok) as Hf.
  unfold retained_request_identity_fingerprints_after in Hf. by rewrite Hf.
Qed.

(** The store after an append. *)
Lemma log_ok_extend st entries fps d :
  log_ok st -> continues (ls_state st) entries ->
  default [] (d_log d) = default [] (d_log (ls_disk st)) ++ serialized entries ->
  retained_request_identity_fingerprints_after (retained_log_entries (ls_state st) ++ entries)
    (snapshot_index_of (ls_state st)) = RaftOk fps ->
  log_ok (set_ls_state (set_retained_fingerprints fps
    (extend_state entries (serialized_log_entry_lens entries) (ls_state st))) (set_ls_disk d st)).
Proof.
  intros Hok Hcont Hd Hfps. pose proof Hok as [H1 H2 H3 H4 H5 H6 H7 H8 H9].
  pose proof (continues_valid _ _ Hok Hcont). pose proof (continues_boundary _ _ Hok Hcont).
  destruct Hcont as (Ht & Hv & Hmax & Hh). unfold extend_state.
  destruct (last entries) as [e|] eqn:He; constructor; simpl; rewrite ?fmap_app, ?H7; try done.
  all: try (by apply Forall_app).
  all: try (rewrite H6; unfold term_indexes_from_entries; rewrite foldl_app;
            by destruct (foldl _ _ entries) as [[??]?]).
  all: try (unfold serialized_log_entry_lens; by rewrite fmap_app).
  all: try (by rewrite serialized_app, <-H9).
  - unfold log_end. by rewrite last_app, He.
  - apply last_None in He as ->. by rewrite app_nil_r.
Qed.

(** ** Appending *)

Lemma append_with_lens_quiet st entries :
  quiet (ls_disk st) ->
  exists d, append_log_entries_with_lens entries st
      = Done (RaftOk (serialized_log_entry_lens entries)) (set_ls_disk d st) /\
    default [] (d_log d) = default [] (d_log (ls_disk st)) ++ serialized entries /\
    quiet d /\ other_files_same (ls_disk st) d.
Proof.
  intros Hq. unfold append_log_entries_with_lens. case_bool_decide as Hn.
  { subst. exists (ls_disk st). split_and!; [by destruct st|by rewrite app_nil_r|done|done]. }
  rewrite (bind_done get _ st st st eq_refl).
  change (serialized_log_entries_buffer_and_lens entries)
    with (serialized entries, serialized_log_entry_lens entries). cbv iota.
  eexists. rewrite (bindR_ok _ _ st tt (set_ls_disk
    (set_d_log (Some (default [] (d_log (ls_disk st)) ++ serialized entries)) (ls_disk st)) st)).
  - by split_and!.
  - unfold on_disk. rewrite append_quiet; [done|done|]. destruct entries; [done|]. simpl. lia.
Qed.

(** What an operation that does not fail leaves of the rest of the store. *)
Definition same_context (st st' : RaftLogStore) : Prop :=
  hard_state (ls_state st') = hard_state (ls_state st) /\
  latest_snapshot (ls_state st') = latest_snapshot (ls_state st) /\
  snapshot_client_response_fingerprints (ls_state st')
    = snapshot_client_response_fingerprints (ls_state st) /\
  other_files_same (ls_disk st) (ls_disk st').

(** The store's log grows by [entries]. *)
Definition extended (st : RaftLogStore) (entries : list RaftLogEntry) (st' : RaftLogStore) : Prop :=
  log_ok st' /\ quiet (ls_disk st') /\ same_context st st' /\
  retained_log_entries (ls_state st') = retained_log_entries (ls_state st) ++ entries.

Lemma extend_quiet {A} st entries (fail : BrokerRaftError -> M RaftLogStore (RaftResult A)) a :
  log_ok st -> quiet (ls_disk st) -> continues (ls_state st) entries ->
  validate_repaired_request_identity_context (snapshot_client_response_fingerprints (ls_state st))
    (retained_request_fingerprints (ls_state st)) (last_index (ls_state st)) entries = RaftOk tt ->
  wp (entry_sizes ←? append_log_entries_with_lens entries;
      modify_state (extend_state entries entry_sizes) ;;
      match add_retained_request_identity_entries
              (retained_request_fingerprints (ls_state st)) entries with
      | RaftErr err => fail err
      | RaftOk fps => modify_state (set_retained_fingerprints fps) ;; okR a
      end) (fun r st' => r = RaftOk a /\ extended st entries st') st.
Proof.
  intros Hok Hq Hcont Hctx.
  destruct (fingerprints_extend st entries Hok Hcont Hctx) as (fps & Hadd & Hfps).
  destruct (append_with_lens_quiet st entries Hq) as (d & Ha & Hd & Hqd & Hsame).
  apply wp_bindR, wp_done. eexists _, _. split; [exact Ha|].
  apply wp_bind, wp_modify_state. rewrite Hadd. apply wp_bind, wp_modify_state, wp_ret.
  pose proof (log_ok_extend st entries fps d Hok Hcont Hd Hfps) as Hok'.
  split; [done|]. split; [exact Hok'|].
  unfold same_context, extend_state. destruct (last entries); by split_and!.
Qed.

(** ** Local appends *)

(** The entries of a batch. *)
Definition batch (index term now : Z) (commands : list RaftCommand) : list RaftLogEntry :=
  imap (fun offset command => mkRaftLogEntry (index + (Z.of_nat offset + 1)) term now command) commands.

Lemma batch_cons index term now c cs :
  batch index term now (c :: cs) =
  mkRaftLogEntry (index + 1) term now c :: batch (index + 1) term now cs.
Proof.
  unfold batch. rewrite imap_cons. rewrite Z.add_0_l. f_equal. apply imap_ext. intros i x _. simpl.
  f_equal. lia.
Qed.

Lemma batch_saturating index term now cs :
  0 <= index -> index + Z.of_nat (length cs) <= u64_max ->
  imap (fun offset command => mkRaftLogEntry (saturating_add64 index (Z.of_nat offset + 1)) term now
    command) cs = batch index term now cs.
Proof.
  intros H0 Hmax. apply imap_ext. intros i x Hi. apply lookup_lt_Some in Hi. f_equal.
  apply saturating_add64_small. lia.
Qed.

Lemma batch_valid previous index term now cs :
  0 <= index -> 0 < term -> index + Z.of_nat (length cs) <= u64_max ->
  validate_commands cs = RaftOk tt ->
  (forall p, previous = Some p -> le_index p = index /\ le_term p <= term) ->
  validate_entries_after previous (batch index term now cs) = RaftOk tt.
Proof.
  revert previous index. induction cs as [|c cs IH]; intros previous index H0 Ht Hmax Hv Hp; [done|].
  simpl in Hv, Hmax. destruct (validate_raft_command c) as [[]|] eqn:Hc; [|done].
  rewrite batch_cons, validate_cons. split_and!.
  - split_and!; simpl; [lia|lia|done].
  - intros p Hprev. destruct (Hp p Hprev). simpl. split_and!; lia.
  - apply IH; [lia|done|lia|done|]. intros p [= <-]. simpl. done.
Qed.

Lemma batch_typed index term now cs :
  0 <= index -> 0 < term -> index + Z.of_nat (length cs) <= u64_max -> Forall typed_entry (batch index term now cs).
Proof.
  revert index. induction cs as [|c cs IH]; intros index H0 Ht Hmax; [constructor|].
  simpl in Hmax. rewrite batch_cons. constructor; [split; simpl; lia|]. apply IH; lia.
Qed.

Lemma last_index_nonneg st : log_ok st -> 0 <= last_index (ls_state st).
Proof. intros Hok. destruct (log_shape st Hok) as (first & _ & ? & ? & ?). lia. Qed.

Lemma batch_continues st term now cs :
  log_ok st -> cs <> [] -> 0 < term -> last_term (ls_state st) <= term ->
  last_index (ls_state st) + Z.of_nat (length cs) <= u64_max ->
  validate_commands cs = RaftOk tt ->
  continues (ls_state st) (batch (last_index (ls_state st)) term now cs).
Proof.
  intros Hok Hn Ht Hlt Hmax Hv. pose proof (last_index_nonneg st Hok).
  destruct cs as [|c cs]; [done|]. simpl in Hmax. split_and!.
  - by apply batch_typed.
  - by apply batch_valid.
  - lia.
  - rewrite batch_cons. intros e [= <-]. done.
Qed.

(** [append_batch] on a sound log either appends the whole batch -- the
    commands in order at the next indexes, on file and in every cache -- or
    reports an error and changes nothing. *)
Lemma append_batch_spec st term commands now :
  log_ok st -> quiet (ls_disk st) -> 0 <= term ->
  last_index (ls_state st) + Z.of_nat (length commands) <= u64_max ->
  exists r st', append_batch term commands now st = Done r st' /\
  match r with
  | RaftOk entries =>
      entries = batch (last_index (ls_state st)) term now commands /\ extended st entries st'
  | RaftErr _ => st' = st
  end.
Proof.
  intros Hok Hq Ht Hmax. apply wp_done.
  unfold append_batch. case_bool_decide as Hn.
  { subst. apply wp_ret. split; [done|]. split_and!; [done..|by rewrite app_nil_r]. }
  apply wp_bindR, wp_check. destruct (validate_commands commands) as [[]|] eqn:Hv; [|done].
  apply wp_bind, wp_get. case_bool_decide; [by apply wp_ret|]. case_bool_decide; [by apply wp_ret|].
  rewrite batch_saturating by (by apply last_index_nonneg || done).
  apply wp_bindR, wp_check. destruct (validate_repaired_request_identity_context _ _ _ _) as [[]|] eqn:Hctx;
    [|done].
  eapply wp_mono; [apply extend_quiet; [done|done| |done]|].
  - apply batch_continues; (done || lia).
  - intros r st' [-> Hext]. by split.
Qed.

End store.
