(* ===== verification/RaftLogAppend.v ===== *)
(** * Entries from the leader

    [append_entries_from_leader] on a sound log: what a successful append
    guarantees, what it may not touch and when it changes nothing. *)

From S2P Require Import Prelude Text Monad Protocol BrokerTypes.
From S2P Require Import BrokerSnapshot.
From S2P Require Import RaftQuorum RaftGrant RaftValidate RaftCache RaftFiles RaftFilesFacts.
From S2P Require Import RaftLog RaftLogFacts RaftLogInv.
From stdpp Require Import options.

#[local] Arguments validate_entries_after : simpl never.

Lemma drop_while_spec {A} (p : A -> bool) (l : list A) :
  exists k, drop_while p l = drop k l /\ (k <= length l)%nat /\
    Forall (fun x => p x = true) (take k l) /\
    (forall x, head (drop k l) = Some x -> p x = false).
Proof.
  induction l as [|x l (k & Hk & Hlen & Ht & Hh)]; simpl.
  { exists 0%nat. by split_and!. }
  destruct (p x) eqn:Hp.
  - exists (S k). simpl. split_and!; [done|lia|by constructor|done].
  - exists 0%nat. split_and!; [done|lia|constructor|]. by intros y [= <-].
Qed.

Section append.
Context `{D : RequestDigest} `{C : RaftCodec} `{L : !RaftCodecLaws}.

(** ** The shape of a batch *)

Lemma append_shape_valid previous prev lterm expected pterm entries :
  append_shape_loop prev lterm expected pterm entries = RaftOk tt ->
  (forall p, previous = Some p ->
     le_index p + 1 = expected /\ le_term p = pterm /\ (entries <> [] -> le_index p <> u64_max)) ->
  validate_entries_after previous entries = RaftOk tt /\ contiguous expected entries /\
  (forall e, head entries = Some e -> pterm <= le_term e) /\
  Forall (fun e => le_term e <= lterm) entries.
Proof.
  revert previous expected pterm.
  induction entries as [|e entries IH]; intros previous expected pterm Hs Hp; [by split_and!|].
  cbn [append_shape_loop] in Hs. do 5 (case_bool_decide; [done|]).
  destruct (validate_raft_command (le_command e)) as [[]|err] eqn:Hc; [|done]. cbn in Hs.
  destruct (_ && _) eqn:Hlast; [done|].
  destruct (IH (Some e) _ _ Hs) as (H1' & H2' & H3' & H4').
  { intros p [= <-]. split_and!; [done|done|]. intros Hn Hmax.
    by rewrite bool_decide_eq_false_2, bool_decide_eq_true_2 in Hlast by done. }
  split_and!.
  - rewrite validate_cons. split_and!; [by split_and!| |done].
    intros p Hprev. destruct (Hp p Hprev) as (? & ? & Hm). split_and!; [by apply Hm|lia|lia].
  - simpl. split; [lia|]. by replace (expected + 1) with (le_index e + 1) by lia.
  - intros x [= <-]. lia.
  - constructor; [lia|done].
Qed.

(** What the shape check of a request guarantees of its entries. *)
Lemma shape_valid prev pterm lterm entries :
  validate_append_entries_shape prev pterm lterm entries = RaftOk tt ->
  validate_persisted_log_entries entries = RaftOk tt /\ contiguous (prev + 1) entries /\
  (forall e, head entries = Some e -> pterm <= le_term e) /\
  Forall (fun e => le_term e <= lterm) entries /\ (entries <> [] -> prev <> u64_max).
Proof.
  unfold validate_append_entries_shape. repeat (case_bool_decide; simpl; try done).
  all: intros Hs; subst; try (by split_and!).
  all: destruct (append_shape_valid None _ _ _ _ _ Hs) as (? & ? & ? & ?); [done|]; by split_and!.
Qed.

(** ** The scan *)

(** The log has this entry: same index, term and command. *)
Definition agrees (st : RaftLogStore) (e : RaftLogEntry) : Prop :=
  exists e', log_at st (le_index e) = Some e' /\ le_term e' = le_term e /\ le_command e' = le_command e.

(** The log has another term at this index. *)
Definition conflicts (st : RaftLogStore) (e : RaftLogEntry) : Prop :=
  exists e', log_at st (le_index e) = Some e' /\ le_term e' <> le_term e.

Lemma append_scan_spec st pos incoming i0 :
  log_ok st -> contiguous i0 incoming -> snapshot_index_of (ls_state st) < i0 ->
  i0 <= last_index (ls_state st) + 1 ->
  match append_scan (ls_state st) pos incoming with
  | RaftErr _ => True
  | RaftOk ScanDone => Forall (agrees st) incoming
  | RaftOk (ScanAppend p) =>
      exists k e, p = (pos + k)%nat /\ incoming !! k = Some e /\
        Forall (agrees st) (take k incoming) /\ le_index e = last_index (ls_state st) + 1
  | RaftOk (ScanRewrite p) =>
      exists k e, p = (pos + k)%nat /\ incoming !! k = Some e /\
        Forall (agrees st) (take k incoming) /\ conflicts st e
  end.
Proof.
  intros Hok. revert pos i0. induction incoming as [|e incoming IH]; intros pos i0 Hc Hs Hl.
  { constructor. }
  destruct Hc as [He Hc]. cbn [append_scan]. rewrite term_by_index_log by done.
  destruct (decide (le_index e <= last_index (ls_state st))) as [Hin|Hout].
  - destruct (log_at_retained st (le_index e) Hok) as [e' He']; [lia|]. rewrite He'. simpl.
    case_bool_decide as Ht; [|by exists 0%nat, e; rewrite Nat.add_0_r; split_and!; [..|exists e']].
    change (retained_entry_at _ _) with (log_at st (le_index e)). rewrite He'.
    case_bool_decide as Hcmd; [done|].
    assert (agrees st e) as Ha by (exists e'; split_and!; congruence).
    specialize (IH (S pos) (i0 + 1) Hc ltac:(lia) ltac:(lia)).
    destruct (append_scan _ _ incoming) as [[|p|p]|]; [by constructor| | |done];
      destruct IH as (k & x & -> & ? & ? & ?); exists (S k), x; simpl;
      split_and!; (lia || done || by constructor).
  - destruct (log_at st (le_index e)) as [e'|] eqn:He'.
    { exfalso. apply entry_at_elem in He' as [Hel Hi]. apply list_elem_of_lookup in Hel as [k Hk].
      destruct (log_shape st Hok) as (first & Hcf & _ & Hlast & _).
      pose proof (lookup_lt_Some _ _ _ Hk). rewrite (contiguous_lookup _ _ _ _ Hcf Hk) in Hi. lia. }
    simpl. rewrite bool_decide_eq_false_2 by done.
    exists 0%nat, e. rewrite Nat.add_0_r. split_and!; [done|done|constructor|lia].
Qed.

(** ** Cutting the log *)

Lemma prefix_file_len_sum sum lens n :
  prefix_file_len_loop sum lens = RaftOk n ->
  n = sum + Z.of_nat (sum_list_with S lens).
Proof.
  revert sum. induction lens as [|len lens IH]; intros sum; simpl; [intros [= <-]; lia|].
  unfold retained_log_entry_file_len. case_bool_decide; [done|]. simpl.
  case_bool_decide; [done|]. intros ->%IH. lia.
Qed.

Lemma serialized_length_sum l :
  length (serialized l) = sum_list_with S (serialized_log_entry_lens l).
Proof.
  induction l as [|e l IH]; [done|]. rewrite serialized_cons, length_app. simpl. rewrite IH. lia.
Qed.

Lemma prefix_file_len_eq l k n :
  retained_log_prefix_file_len l (serialized_log_entry_lens l) k = RaftOk n ->
  Z.to_nat n = length (serialized (take k l)) /\ (k <= length l)%nat.
Proof.
  unfold retained_log_prefix_file_len, validate_retained_log_entry_bytes_len, retained_prefix_file_len.
  unfold serialized_log_entry_lens. rewrite length_fmap.
  rewrite (bool_decide_eq_false_2 (length l <> length l)) by (intros Hn; by apply Hn). simpl.
  case_bool_decide; [done|]. intros ->%prefix_file_len_sum. split; [|lia].
  rewrite serialized_length_sum, <-fmap_take. unfold serialized_log_entry_lens. lia.
Qed.

Lemma take_serialized_prefix l k :
  take (length (serialized (take k l))) (serialized l) = serialized (take k l).
Proof. rewrite <-(take_drop k l) at 2. by rewrite serialized_app, take_app_length. Qed.

Lemma serialized_take_le l k : (length (serialized (take k l)) <= length (serialized l))%nat.
Proof. rewrite <-(take_serialized_prefix l k), length_take. lia. Qed.

Lemma truncate_quiet d plen body sync :
  quiet d -> (plen <= length (default [] (d_log d)))%nat ->
  truncate_and_append_serialized_log_entries plen body sync d =
  Done (RaftOk tt) (set_d_log (Some (take plen (default [] (d_log d)) ++ body)) d).
Proof.
  intros Hq Hlen. unfold truncate_and_append_serialized_log_entries.
  rewrite (bind_done get _ d d d eq_refl).
  set (b := default [] (d_log d)) in *.
  match goal with |- mbind ?k ?m d = _ =>
    assert (exists created, m d = Done (RaftOk created) d) as [created Hcreated] end.
  { unfold b in Hlen. destruct (d_log d); simpl in *.
    - rewrite bool_decide_eq_false_2 by lia. by eexists.
    - rewrite bool_decide_eq_true_2 by lia. by eexists. }
  rewrite (bind_done _ _ _ _ _ Hcreated).
  assert (exists d1, (if bool_decide (plen = 0%nat) then open_creating else io_gate) d
    = Done (RaftOk tt) d1 /\ quiet d1 /\ default [] (d_log d1) = b /\
    forall x, set_d_log x d1 = set_d_log x d) as (d1 & Hd1 & Hq1 & Hb1 & Hset).
  { case_bool_decide.
    - unfold open_creating. destruct Hq. rewrite io_call_done by done. by eexists.
    - rewrite io_gate_quiet by done. by eexists. }
  rewrite (bindR_ok _ _ _ _ _ Hd1).
  rewrite (bindR_ok _ _ _ _ _ (io_atomic_quiet _ d1 Hq1)). rewrite Hb1, Hset.
  set (d2 := set_d_log _ d). assert (quiet d2) as Hq2 by done.
  rewrite (bindR_ok _ _ _ _ _ (io_gate_quiet d2 Hq2)). pose proof Hq2 as [H3 H4].
  assert (forall w s, or_rollback (write_log_bytes body ;;? if sync then io_gate else okR tt) w s sync d2 =
    Done (RaftOk tt) (set_d_log (Some (take plen b ++ body)) d)) as Hw.
  { intros w s. unfold or_rollback, write_log_bytes.
    rewrite (bind_done _ _ d2 (RaftOk tt) (set_d_log (Some (take plen b ++ body)) d)); [done|].
    rewrite (bindR_ok _ _ _ _ _ (io_call_done _ _ d2 H3 H4)). unfold d2. simpl.
    unfold set_len_bytes. rewrite resize_le by done. destruct sync; [|done].
    by rewrite io_gate_quiet. }
  rewrite (bindR_ok _ _ _ _ _ (Hw _ _)). destruct (created && sync); [|done].
  unfold or_rollback. by erewrite (bind_done io_gate) by by apply io_gate_quiet.
Qed.

(** ** Replacing the end of the log *)

Section rewrite.
Context (st : RaftLogStore) (first : Z) (suffix : list RaftLogEntry) (e : RaftLogEntry).
Context (Hok : log_ok st) (Hsh : shape (ls_state st) first).
Context (Hhead : head suffix = Some e) (Htyped : Forall typed_entry suffix).
Context (Hidx : snapshot_index_of (ls_state st) < le_index e <= last_index (ls_state st)).

Abbreviation s := (ls_state st).
Abbreviation plen := (retained_entry_lower_bound (retained_log_entries s) (le_index e)).
Abbreviation prefix := (take plen (retained_log_entries s)).
Abbreviation plast := (match last prefix with Some x => le_index x | None => 0 end).

Lemma rewrite_plen : Z.of_nat plen = le_index e - first /\ (plen <= length (retained_log_entries s))%nat.
Proof using Hok Hsh Hhead Htyped Hidx.
  destruct Hsh as (Hc & Hf & Hl & Hs). rewrite (lower_bound_contiguous first) by done. lia.
Qed.

Lemma rewrite_prefix_length : Z.of_nat (length prefix) = le_index e - first.
Proof using Hok Hsh Hhead Htyped Hidx.
  destruct rewrite_plen. rewrite length_take. lia.
Qed.

Lemma rewrite_contiguous :
  validate_persisted_log_entries suffix = RaftOk tt -> contiguous first (prefix ++ suffix).
Proof using Hok Hsh Hhead Htyped Hidx.
  intros Hv. apply contiguous_app. split; [apply contiguous_take; apply Hsh|].
  rewrite rewrite_prefix_length. destruct suffix as [|x l]; [done|]. injection Hhead as ->.
  replace (first + (le_index e - first)) with (le_index e) by lia. by apply valid_contiguous.
Qed.

Lemma plast_eq : prefix <> [] -> plast = le_index e - 1.
Proof using Hok Hsh Hhead Htyped Hidx.
  intros Hn. destruct (last prefix) as [x|] eqn:Hx; [|by apply last_None in Hx].
  rewrite (contiguous_last first prefix x); [|apply contiguous_take, Hsh|done].
  rewrite rewrite_prefix_length. lia.
Qed.

Lemma plast_range x : x ∈ prefix -> 0 < le_index x <= plast.
Proof using Hok Hsh Hhead Htyped Hidx.
  intros Hx. assert (prefix <> []) as Hn by (intros Hn; by rewrite Hn in Hx; apply not_elem_of_nil in Hx).
  rewrite plast_eq by done. apply list_elem_of_lookup in Hx as [k Hk].
  pose proof (lookup_lt_Some _ _ _ Hk). pose proof rewrite_prefix_length.
  rewrite (contiguous_lookup first prefix k x); [|apply contiguous_take, Hsh|done].
  destruct Hsh as (_ & ? & _). lia.
Qed.

Lemma rewrite_above :
  validate_persisted_log_entries suffix = RaftOk tt ->
  drop (retained_entry_upper_bound (prefix ++ suffix) (snapshot_index_of s)) (prefix ++ suffix) =
  drop (retained_entry_upper_bound (retained_log_entries s) (snapshot_index_of s)) prefix ++ suffix /\
  drop (retained_entry_upper_bound (retained_log_entries s) (snapshot_index_of s))
      (retained_log_entries s) =
  drop (retained_entry_upper_bound (retained_log_entries s) (snapshot_index_of s)) prefix
    ++ drop plen (retained_log_entries s).
Proof using Hok Hsh Hhead Htyped Hidx.
  intros Hv. pose proof (rewrite_contiguous Hv) as Hc'. pose proof Hsh as (Hc & Hf & Hl & Hs).
  pose proof rewrite_prefix_length as Hp. destruct rewrite_plen as [Hpl Hpl'].
  rewrite (upper_bound_contiguous first (prefix ++ suffix)) by done.
  rewrite (upper_bound_contiguous first (retained_log_entries s)) by done.
  rewrite length_app, !Nat.min_r by lia.
  split; [apply drop_app_le; lia|].
  rewrite <-(take_drop plen (retained_log_entries s)) at 1. apply drop_app_le.
  lia.
Qed.

Lemma rewrite_truncated :
  validate_persisted_log_entries suffix = RaftOk tt ->
  add_retained_request_identity_entries ∅
    (drop (retained_entry_upper_bound (retained_log_entries s) (snapshot_index_of s)) prefix) =
  RaftOk (truncate_retained_request_identity_fingerprints (retained_request_fingerprints s) plast).
Proof using Hok Hsh Hhead Htyped Hidx.
  intros Hv. destruct (rewrite_above Hv) as [_ Habove]. pose proof Hsh as (Hc & Hf & Hl & Hs).
  pose proof (lo_fingerprints _ Hok) as Hfps. unfold retained_request_identity_fingerprints_after in Hfps.
  rewrite Habove, add_retained_app in Hfps.
  set (above := drop _ prefix) in *.
  destruct (add_retained_request_identity_entries ∅ above) as [m|] eqn:Hm; [|done]. f_equal.
  apply map_eq. intros id.
  rewrite (truncate_first above (drop plen (retained_log_entries s))).
  - rewrite (add_retained_lookup _ _ _ _ (contiguous_drop _ _ _ (contiguous_take _ _ plen Hc)))
      with (2 := Hm) by done. done.
  - intros id'. rewrite (fingerprints_first st id' Hok). by rewrite Habove.
  - intros x Hx. apply plast_range. unfold above in Hx. apply list_elem_of_lookup in Hx as [k Hk].
    rewrite lookup_drop in Hk. by eapply list_elem_of_lookup_2.
  - intros x Hx. apply list_elem_of_lookup in Hx as [k Hk]. rewrite lookup_drop in Hk.
    rewrite (contiguous_lookup first _ _ _ Hc Hk). destruct rewrite_plen.
    destruct (decide (prefix = [])) as [Hn|Hn]; [|rewrite plast_eq by done; lia].
    rewrite Hn. simpl. lia.
  - intros H0. destruct (decide (prefix = [])) as [Hn|Hn]; [unfold above; by rewrite Hn, drop_nil|].
    destruct (last prefix) as [x|] eqn:Hx; [|by apply last_None in Hx].
    pose proof (plast_range x (last_Some_elem_of _ _ Hx)) as Hr. rewrite Hx in Hr. lia.
Qed.

Lemma rewrite_fingerprints :
  validate_persisted_log_entries suffix = RaftOk tt ->
  validate_repaired_request_identity_context (snapshot_client_response_fingerprints s)
    (retained_request_fingerprints s) plast suffix = RaftOk tt ->
  exists fps,
    add_retained_request_identity_entries
      (truncate_retained_request_identity_fingerprints (retained_request_fingerprints s) plast) suffix
      = RaftOk fps /\
    retained_request_identity_fingerprints_after (prefix ++ suffix) (snapshot_index_of s) = RaftOk fps.
Proof using Hok Hsh Hhead Htyped Hidx.
  intros Hv Hctx.
  destruct (repaired_context_admits _ _ _ _
    (truncate_retained_request_identity_fingerprints (retained_request_fingerprints s) plast) Hctx)
    as [fps Hfps].
  { intros id fp. unfold truncate_retained_request_identity_fingerprints.
    case_bool_decide as H0; [done|]. intros [Hid Hle]%map_lookup_filter_Some. split_and!; [|done|done].
    destruct (decide (prefix = [])) as [Hn|Hn]; [by rewrite Hn in H0|].
    rewrite plast_eq in * by done. pose proof (fingerprints_bounds _ _ _ Hok Hid). simpl in *. lia. }
  exists fps. split; [done|]. unfold retained_request_identity_fingerprints_after.
  destruct (rewrite_above Hv) as [-> _]. by rewrite add_retained_app, rewrite_truncated.
Qed.

Lemma repaired_valid :
  validate_repaired_log_suffix (retained_log_entries s) plen suffix (latest_snapshot s) = RaftOk tt ->
  validate_persisted_log_entries suffix = RaftOk tt /\
  validate_persisted_log_entries (prefix ++ suffix) = RaftOk tt /\
  validate_snapshot_log_boundary (prefix ++ suffix) (latest_snapshot s) = RaftOk tt.
Proof using Hok Hsh Hhead Htyped Hidx.
  unfold validate_repaired_log_suffix. case_bool_decide; [done|]. cbv zeta.
  destruct (validate_persisted_log_entries suffix) as [[]|] eqn:Hv; [|done].
  cbn [mbind RaftResult_bind].
  pose proof (rewrite_contiguous Hv) as Hc.
  destruct (decide (prefix = [])) as [Hn|Hn].
  - rewrite bool_decide_eq_true_2, Hn by done. simpl.
    destruct (validate_snapshot_log_boundary suffix _) as [[]|]; [|done]. by intros _.
  - rewrite bool_decide_eq_false_2 by done.
    destruct (validate_snapshot_log_boundary prefix _) as [[]|] eqn:Hb; [|done].
    cbn [mbind RaftResult_bind].
    destruct (last prefix) as [p|] eqn:Hp; [|by apply last_None in Hp]. rewrite Hhead.
    repeat (case_bool_decide; [done|]). intros _. split_and!; [done| |].
    + apply validate_app. split; [apply valid_take, Hok|]. rewrite Hp.
      apply validate_follow; [done|]. rewrite Hhead. intros x [= <-] q [= <-]. split_and!; (done || lia).
    + apply (boundary_iff first); [done|by destruct prefix|]. apply boundary_app; [done|].
      apply boundary_iff; [apply contiguous_take, Hsh|done..].
Qed.

(** The log's end is replaced by [suffix]. *)
Definition rewritten (st' : RaftLogStore) : Prop :=
  log_ok st' /\ quiet (ls_disk st') /\ same_context st st' /\
  retained_log_entries (ls_state st') = prefix ++ suffix.

Lemma rewrite_quiet commit incoming pos :
  quiet (ls_disk st) -> drop pos incoming = suffix ->
  wp (rewrite_from_leader commit incoming pos)
    (fun r st' => match r with
                  | RaftErr _ => st' = st
                  | RaftOk _ => commit < le_index e /\ rewritten st'
                  end) st.
Proof using Hok Hsh Hhead Htyped Hidx.
  intros Hq Hdrop. unfold rewrite_from_leader. apply wp_bind, wp_get. cbv zeta. rewrite Hdrop, Hhead.
  case_bool_decide; [by apply wp_ret|].
  apply wp_bindR, wp_check. rewrite (lo_sizes _ Hok).
  destruct (retained_log_prefix_file_len _ _ _) as [flen|] eqn:Hflen; [|done].
  apply prefix_file_len_eq in Hflen as [Hflen Hplen].
  apply wp_bindR, wp_check.
  destruct (validate_repaired_log_suffix _ _ _ _) as [[]|] eqn:Hrep; [|done].
  apply repaired_valid in Hrep as (Hv & Hv' & Hb').
  apply wp_bindR, wp_check.
  destruct (validate_repaired_request_identity_context _ _ _ _) as [[]|] eqn:Hctx; [|done].
  destruct (rewrite_fingerprints Hv Hctx) as (fps & Hadd & Hfps).
  change (serialized_log_entries_buffer_and_lens suffix)
    with (serialized suffix, serialized_log_entry_lens suffix). cbv iota.
  apply wp_bind, wp_on_disk, wp_done. eexists _, _. split.
  { apply truncate_quiet; [done|]. rewrite Hflen, (lo_file _ Hok). apply serialized_take_le. }
  rewrite Hflen, (lo_file _ Hok), take_serialized_prefix, <-serialized_app.
  apply wp_bind, wp_modify_state. rewrite Hadd.
  destruct (log_end (prefix ++ suffix) (latest_snapshot s)) as [li lt] eqn:Hend.
  apply wp_bind, wp_modify_state, wp_ret. split; [lia|].
  split; [|by unfold same_context; split_and!].
  constructor; simpl; try done.
  - apply Forall_app. split; [apply Forall_take; apply Hok|done].
  - apply Hok.
  - by destruct (term_indexes_from_entries _) as [[??]?].
  - rewrite (lo_sizes _ Hok). unfold serialized_log_entry_lens. by rewrite <-fmap_take, <-fmap_app.
Qed.

End rewrite.

Lemma log_at_le_last st i : log_ok st -> is_Some (log_at st i) -> 0 < i <= last_index (ls_state st).
Proof.
  intros Hok [e He]. apply entry_at_elem in He as [Hel <-].
  destruct (log_shape st Hok) as (first & Hc & Hf & Hl & _).
  apply list_elem_of_lookup in Hel as [k Hk]. pose proof (lookup_lt_Some _ _ _ Hk).
  rewrite (contiguous_lookup _ _ _ _ Hc Hk). lia.
Qed.

Lemma agrees_same st st' e : log_at st' (le_index e) = log_at st (le_index e) -> agrees st e -> agrees st' e.
Proof. unfold agrees. by intros ->. Qed.

Lemma agrees_elem st first e :
  shape (ls_state st) first -> e ∈ retained_log_entries (ls_state st) -> agrees st e.
Proof. intros (Hc & _) He. exists e. split_and!; [by apply (entry_at_some first)|done..]. Qed.

(** ** The request *)

Section request.
Context (st : RaftLogStore) (prev pterm lterm commit : Z) (entries : list RaftLogEntry).
Context (Hok : log_ok st) (Hq : quiet (ls_disk st)).
Context (Hprev0 : 0 <= prev) (Htyped : Forall typed_entry entries).

Abbreviation s := (ls_state st).
Abbreviation snap := (snapshot_index_of s).
Abbreviation effective_commit := (Z.max commit (hs_commit_index (hard_state s))).

(** The entry at the snapshot's index, when it is sent, is the one the
    snapshot covers. *)
Definition covered_agrees : Prop :=
  forall e sm, e ∈ entries -> latest_snapshot s = Some sm ->
    le_index e = sm_last_included_index sm -> le_term e = sm_last_included_term sm.

(** What a successful request leaves: every entry sent above the snapshot is in
    the log; nothing at or below [prev] or committed has changed; an entry is
    only dropped from where the log had another term; the acknowledged index
    is within the log. *)
Definition appended (report : RaftAppendReport) (st' : RaftLogStore) : Prop :=
  log_ok st' /\ quiet (ls_disk st') /\ same_context st st' /\
  (forall e, e ∈ entries -> snap < le_index e -> agrees st' e) /\
  (forall i, i <= prev \/ i <= effective_commit -> log_at st' i = log_at st i) /\
  (forall i e, log_at st i = Some e -> log_at st' i = Some e \/
     exists e1, e1 ∈ entries /\ le_index e1 <= i /\ conflicts st e1) /\
  prev <= ar_match_index report <= last_index (ls_state st') /\
  (snap < prev + Z.of_nat (length entries) ->
   ar_match_index report = prev + Z.of_nat (length entries)).

Context (Hshape : validate_append_entries_shape prev pterm lterm entries = RaftOk tt).
Context (Hprev : append_entries_prev_conflict s prev pterm = None).

Lemma prev_in_log : prev <= last_index s /\ term_at_index s prev = Some pterm.
Proof using Hprev.
  unfold append_entries_prev_conflict in Hprev. case_bool_decide; [done|]. split; [lia|].
  destruct (term_at_index s prev); [|done]. case_bool_decide; [by subst|done].
Qed.

(** The entries above the snapshot, and what precedes them. *)
Lemma incoming_spec :
  exists k,
    drop_while (fun entry => negb (bool_decide (snap < le_index entry)
      && bool_decide (prev < le_index entry))) entries = drop k entries /\
    (k <= length entries)%nat /\
    prev + Z.of_nat k <= Z.max prev snap /\
    (k <> length entries -> Z.max prev snap = prev + Z.of_nat k).
Proof using Hshape.
  destruct (shape_valid _ _ _ _ Hshape) as (_ & Hc & _).
  destruct (drop_while_spec (fun entry => negb (bool_decide (snap < le_index entry)
      && bool_decide (prev < le_index entry))) entries) as (k & Hk & Hlen & Ht & Hh).
  exists k. split_and!; [done|done| |].
  - destruct k as [|k]; [lia|]. destruct (lookup_lt_is_Some_2 entries k) as [e He]; [lia|].
    rewrite Forall_lookup in Ht. specialize (Ht k e). rewrite lookup_take_lt in Ht by lia.
    specialize (Ht He). pose proof (contiguous_lookup _ _ _ _ Hc He) as Hi. simpl in Ht.
    rewrite (bool_decide_eq_true_2 (prev < le_index e)) in Ht by lia.
    rewrite andb_true_r in Ht. apply negb_true_iff, bool_decide_eq_false in Ht. lia.
  - intros Hne. destruct (lookup_lt_is_Some_2 entries k) as [e He]; [lia|].
    pose proof (contiguous_lookup _ _ _ _ Hc He) as Hi.
    assert (head (drop k entries) = Some e) as Hhd by (by rewrite head_lookup, lookup_drop, Nat.add_0_r).
    specialize (Hh _ Hhd). simpl in Hh. apply negb_false_iff, andb_true_iff in Hh as [Hh _].
    apply bool_decide_eq_true in Hh.
    destruct k as [|k]; [lia|]. destruct (lookup_lt_is_Some_2 entries k) as [e' He']; [lia|].
    rewrite Forall_lookup in Ht. specialize (Ht k e'). rewrite lookup_take_lt in Ht by lia.
    specialize (Ht He'). pose proof (contiguous_lookup _ _ _ _ Hc He') as Hi'. simpl in Ht.
    rewrite (bool_decide_eq_true_2 (prev < le_index e')) in Ht by lia.
    rewrite andb_true_r in Ht. apply negb_true_iff, bool_decide_eq_false in Ht. lia.
Qed.

Section incoming.
Context (k : nat) (Hk : (k <= length entries)%nat).
Context (Hk1 : prev + Z.of_nat k <= Z.max prev snap).
Context (Hk2 : k <> length entries -> Z.max prev snap = prev + Z.of_nat k).

Abbreviation incoming := (drop k entries).
Abbreviation match_index :=
  (match last incoming with Some entry => le_index entry | None => prev end).

Lemma incoming_contiguous : contiguous (prev + 1 + Z.of_nat k) incoming.
Proof using Hshape Hk.
  destruct (shape_valid _ _ _ _ Hshape) as (_ & Hc & _).
  apply (contiguous_drop _ _ k) in Hc. by rewrite Nat.min_l in Hc.
Qed.

Lemma incoming_elem e : e ∈ incoming <-> e ∈ entries /\ snap < le_index e.
Proof using Hshape Hk Hk1 Hk2.
  destruct (shape_valid _ _ _ _ Hshape) as (_ & Hc & _). split.
  - intros [j Hj]%list_elem_of_lookup. rewrite lookup_drop in Hj.
    pose proof (lookup_lt_Some _ _ _ Hj). rewrite (contiguous_lookup _ _ _ _ Hc Hj).
    split; [by eapply list_elem_of_lookup_2|]. lia.
  - intros [[j Hj]%list_elem_of_lookup Hs]. pose proof (lookup_lt_Some _ _ _ Hj).
    rewrite (contiguous_lookup _ _ _ _ Hc Hj) in Hs.
    apply (list_elem_of_lookup_2 _ (j - k)). rewrite lookup_drop.
    destruct (decide (k = length entries)); [lia|]. by replace (k + (j - k))%nat with j by lia.
Qed.

Lemma incoming_match :
  (incoming = [] /\ match_index = prev /\
     (snap < prev + Z.of_nat (length entries) -> length entries = 0%nat)) \/
  (exists e, last incoming = Some e /\ e ∈ incoming /\
     match_index = le_index e /\ le_index e = prev + Z.of_nat (length entries) /\ prev < le_index e).
Proof using Hshape Hk Hk1 Hk2.
  destruct (last incoming) as [e|] eqn:He.
  - right. exists e. pose proof (contiguous_last _ _ _ incoming_contiguous He) as Hi.
    rewrite length_drop in Hi. apply last_Some_elem_of in He as Hel.
    apply list_elem_of_lookup in Hel as Hel'. destruct Hel' as [j Hj].
    apply lookup_lt_Some in Hj. rewrite length_drop in Hj. split_and!; (done || lia).
  - left. apply last_None in He as He'. split_and!; [done|done|].
    assert (length incoming = 0%nat) as Hl by (by rewrite He'). rewrite length_drop in Hl. lia.
Qed.

Lemma appended_intro report st' :
  ar_match_index report = match_index ->
  log_ok st' -> quiet (ls_disk st') -> same_context st st' ->
  Forall (agrees st') incoming -> (incoming = [] -> st' = st) ->
  (forall i, i <= prev \/ i <= effective_commit -> log_at st' i = log_at st i) ->
  (forall i e, log_at st i = Some e -> log_at st' i = Some e \/
     exists e1, e1 ∈ incoming /\ le_index e1 <= i /\ conflicts st e1) ->
  appended report st'.
Proof using Hshape Hprev Hk Hk1 Hk2.
  intros Hm Hok' Hq' Hsame Ha Hnil Hsafe Hkept. rewrite Forall_forall in Ha.
  do 3 (split; [done|]). split; [|split; [done|split; [|split]]].
  - intros e He Hs. apply Ha. by apply incoming_elem.
  - intros i e He. destruct (Hkept i e He) as [|(e1 & H1 & H2)]; [by left|right].
    exists e1. split; [by apply incoming_elem|done].
  - rewrite Hm. destruct incoming_match as [(Hn & -> & _)|(e & _ & He & -> & Hi & Hlt)].
    + rewrite Hnil by done. split; [lia|]. apply prev_in_log.
    + split; [lia|]. destruct (Ha e He) as (e' & He' & _).
      by destruct (log_at_le_last st' (le_index e) Hok' (ex_intro _ _ He')).
  - rewrite Hm. destruct incoming_match as [(_ & -> & H0)|(e & _ & _ & -> & -> & _)]; [|done].
    intros ?%H0. lia.
Qed.

Lemma incoming_valid k1 : validate_persisted_log_entries (drop k1 incoming) = RaftOk tt.
Proof using Hshape.
  destruct (shape_valid _ _ _ _ Hshape) as (Hv & _). by apply valid_drop, valid_drop.
Qed.

Lemma incoming_typed k1 : Forall typed_entry (drop k1 incoming).
Proof using Htyped. by apply Forall_drop, Forall_drop. Qed.

Lemma head_drop {A} (l : list A) n x : l !! n = Some x -> head (drop n l) = Some x.
Proof. intros Hx. by rewrite head_lookup, lookup_drop, Nat.add_0_r. Qed.

(** The entries after the end of the log continue it. *)
Lemma incoming_continues k1 e :
  covered_agrees -> incoming !! k1 = Some e -> Forall (agrees st) (take k1 incoming) ->
  le_index e = last_index s + 1 -> continues s (drop k1 incoming).
Proof using Hok Hprev0 Htyped Hshape Hprev Hk Hk1 Hk2.
  intros Hcov He Ha Hi. split_and!; [apply incoming_typed|apply incoming_valid| |].
  { rewrite Forall_forall in Htyped. assert (e ∈ incoming) as Hin by by eapply list_elem_of_lookup_2.
    apply incoming_elem in Hin as [Hin _]. destruct (Htyped e Hin) as [? _]. lia. }
  rewrite (head_drop _ _ _ He). intros x [= <-]. split; [done|].
  destruct (shape_valid _ _ _ _ Hshape) as (Hv & Hc & Hpt & _).
  pose proof (term_at_last st Hok) as Hlast. pose proof (contiguous_lookup _ _ _ _ incoming_contiguous He).
  destruct k1 as [|k1]; [destruct k as [|k']|].
  - destruct prev_in_log as [_ Hpterm]. assert (prev = last_index s) as Hp by lia.
    rewrite <-Hp, Hpterm in Hlast. injection Hlast as <-. apply Hpt. by rewrite head_lookup.
  - rewrite lookup_drop in He. destruct (lookup_lt_is_Some_2 entries k') as [e0 He0]; [lia|].
    pose proof (contiguous_lookup _ _ _ _ Hc He0). pose proof (lookup_lt_Some _ _ _ He).
    transitivity (le_term e0); [|by eapply (valid_terms entries k' (S k' + 0) e0 e); [done|lia|done..]].
    assert (Z.max prev snap = prev + Z.of_nat (S k')) as Hmax by (apply Hk2; lia).
    assert (le_index e0 = snap /\ last_index s = snap) as [Hs Hls] by lia.
    unfold snapshot_index_of in *. destruct (latest_snapshot s) as [sm|] eqn:Hsm; simpl in *; [|lia].
    rewrite (Hcov e0 sm) by (done || by eapply list_elem_of_lookup_2).
    rewrite Hls, (term_at_snapshot st sm) in Hlast by done. injection Hlast as <-. done.
  - destruct (lookup_lt_is_Some_2 incoming k1) as [e0 He0]; [apply lookup_lt_Some in He; lia|].
    pose proof (contiguous_lookup _ _ _ _ incoming_contiguous He0).
    transitivity (le_term e0).
    + rewrite Forall_lookup in Ha. destruct (Ha k1 e0) as (e' & He' & <- & _).
      { by rewrite lookup_take_lt by lia. }
      assert (le_index e0 = last_index s) as Hi0 by lia.
      pose proof (log_at_le_last st _ Hok (ex_intro _ _ He')).
      unfold term_at_index in Hlast. rewrite bool_decide_eq_false_2 in Hlast by lia.
      rewrite term_by_index_log, <-Hi0, He' in Hlast by done. by injection Hlast as <-.
    + eapply (valid_terms incoming k1 (S k1)); [by apply valid_drop|lia|done..].
Qed.

(** The entries after the end of the log are appended. *)
Lemma extend_from_leader_spec k1 e :
  covered_agrees -> incoming !! k1 = Some e -> Forall (agrees st) (take k1 incoming) ->
  le_index e = last_index s + 1 ->
  wp (extend_from_leader effective_commit (drop k1 incoming))
    (fun r st' => match r with
                  | RaftErr _ => st' = st
                  | RaftOk _ => effective_commit <= last_index s /\ extended st (drop k1 incoming) st'
                  end) st.
Proof using Hok Hq Hprev0 Htyped Hshape Hprev Hk Hk1 Hk2.
  intros Hcov He Ha Hi. unfold extend_from_leader. apply wp_bind, wp_get. cbv zeta.
  rewrite (head_drop _ _ _ He). apply wp_bindR. case_bool_decide; apply wp_ret; [done|].
  apply wp_bindR, wp_check. destruct (validate_repaired_request_identity_context _ _ _ _) as [[]|] eqn:Hctx;
    [|done].
  eapply wp_mono; [apply extend_quiet; [done|done| |done]|].
  - by eapply incoming_continues.
  - intros r st' [-> Hext]. split; [lia|done].
Qed.

Lemma extended_appended k1 e st' report :
  covered_agrees -> incoming !! k1 = Some e -> Forall (agrees st) (take k1 incoming) ->
  le_index e = last_index s + 1 -> effective_commit <= last_index s ->
  extended st (drop k1 incoming) st' -> ar_match_index report = match_index ->
  appended report st'.
Proof using L Hok Hq Hprev0 Htyped Hshape Hprev Hk Hk1 Hk2.
  intros Hcov He Ha Hi Hcm (Hok' & Hq' & Hsame & Hl) Hm.
  destruct (log_shape st' Hok') as (first & Hsh'). pose proof Hsh' as (Hc' & _).
  destruct (log_shape st Hok) as (first0 & Hc0 & Hf0 & Hl0 & Hs0).
  assert (forall i, i <= last_index s -> log_at st' i = log_at st i) as Hlow.
  { intros i Hle. unfold log_at. rewrite Hl in *.
    destruct (retained_log_entries s) as [|x l] eqn:Hr; simpl in *.
    - destruct (retained_entry_at (drop k1 incoming) i) as [y|] eqn:Hy; [|done].
      apply entry_at_elem in Hy as [[j Hj]%list_elem_of_lookup Hy]. rewrite lookup_drop in Hj.
      pose proof (contiguous_lookup _ _ _ _ incoming_contiguous Hj).
      pose proof (contiguous_lookup _ _ _ _ incoming_contiguous He). lia.
    - assert (first = first0) as -> by (destruct Hc', Hc0; congruence).
      apply (entry_at_app_l first0 (x :: l)); [done|simpl; lia]. }
  apply appended_intro; try done.
  - rewrite <-(take_drop k1 incoming). apply Forall_app. split.
    + eapply Forall_impl; [done|]. intros x Hx. apply (agrees_same st); [|done]. apply Hlow.
      destruct Hx as (e' & He' & _). by apply (log_at_le_last st _ Hok (ex_intro _ _ He')).
    + apply Forall_forall. intros x Hx. apply (agrees_elem _ first); [done|]. rewrite Hl. set_solver.
  - intros Hn. by rewrite Hn in He.
  - intros i Hi'. apply Hlow. destruct prev_in_log. lia.
  - intros i x Hx. left. rewrite Hlow; [done|]. by apply (log_at_le_last st _ Hok (ex_intro _ _ Hx)).
Qed.

(** From the first entry with another term on, the log is replaced. *)
Lemma rewritten_appended k1 e first st' report :
  incoming !! k1 = Some e -> Forall (agrees st) (take k1 incoming) -> conflicts st e ->
  shape s first -> snap < le_index e <= last_index s -> effective_commit < le_index e ->
  rewritten st (drop k1 incoming) e st' -> ar_match_index report = match_index ->
  appended report st'.
Proof using L Hok Hq Hprev0 Htyped Hshape Hprev Hk Hk1 Hk2.
  intros He Ha Hcf Hsh Hi Hcm (Hok' & Hq' & Hsame & Hl) Hm.
  destruct (log_shape st' Hok') as (first' & Hsh').
  pose proof (rewrite_contiguous st first _ e Hok Hsh (head_drop _ _ _ He) (incoming_typed k1) Hi
    (incoming_valid k1)) as Hc.
  destruct (rewrite_plen st first _ e Hok Hsh (head_drop _ _ _ He) (incoming_typed k1) Hi) as [Hpl Hpl'].
  assert (forall i, i < le_index e -> log_at st' i = log_at st i) as Hlow.
  { intros i Hlt. unfold log_at. rewrite Hl, (entry_at_app_l first) by
      (done || (rewrite length_take; lia)).
    apply (entry_at_take first); [apply Hsh|lia]. }
  pose proof (contiguous_lookup _ _ _ _ incoming_contiguous He) as Hie.
  apply appended_intro; try done.
  - rewrite <-(take_drop k1 incoming). apply Forall_app. split.
    + apply Forall_forall. intros x Hx. rewrite Forall_forall in Ha.
      apply (agrees_same st); [|by apply Ha]. apply Hlow. apply list_elem_of_lookup in Hx as [j Hj].
      apply lookup_take_Some in Hj as [Hj Hlt].
      rewrite (contiguous_lookup _ _ _ _ incoming_contiguous Hj). lia.
    + apply Forall_forall. intros x Hx. apply (agrees_elem _ first'); [done|]. rewrite Hl. set_solver.
  - intros Hn. by rewrite Hn in He.
  - intros i Hi'. apply Hlow. lia.
  - intros i x Hx. destruct (decide (i < le_index e)); [left; by rewrite Hlow|right].
    exists e. split_and!; [by eapply list_elem_of_lookup_2|lia|done].
Qed.

End incoming.
End request.

Lemma leader_append_spec st prev pterm lterm commit entries :
  log_ok st -> quiet (ls_disk st) -> 0 <= prev -> Forall typed_entry entries ->
  covered_agrees st entries ->
  exists r st',
    append_entries_from_leader prev pterm lterm commit entries st = Done r st' /\
    match r with
    | RaftErr _ => st' = st
    | RaftOk report =>
        if ar_success report then appended st prev commit entries report st'
        else st' = st /\ append_entries_prev_conflict (ls_state st) prev pterm = Some report
    end.
Proof using L.
  intros Hok Hq Hp0 Ht Hcov. apply wp_done. unfold append_entries_from_leader.
  apply wp_bindR, wp_check. destruct (validate_append_entries_shape _ _ _ _) as [[]|] eqn:Hshape; [|done].
  apply wp_bind, wp_get. cbv zeta.
  destruct (append_entries_prev_conflict (ls_state st) prev pterm) as [report|] eqn:Hprev.
  { apply wp_ret. assert (ar_success report = false) as -> by
      (unfold append_entries_prev_conflict in Hprev; repeat case_match; by simplify_eq). done. }
  destruct (incoming_spec st prev pterm lterm entries Hshape) as (k & -> & Hk & Hk1 & Hk2).
  pose proof (incoming_contiguous prev pterm lterm entries Hshape k Hk) as Hc.
  pose proof (prev_in_log st prev pterm Hprev) as [Hple _].
  destruct (log_shape st Hok) as (first & Hsh). pose proof Hsh as (_ & _ & _ & Hsl).
  assert (forall j x, drop k entries !! j = Some x ->
    snapshot_index_of (ls_state st) < prev + 1 + Z.of_nat k <= last_index (ls_state st) + 1) as Hi0.
  { intros j x Hx. rewrite lookup_drop in Hx. apply lookup_lt_Some in Hx. specialize (Hk2 ltac:(lia)). lia. }
  assert (match append_scan (ls_state st) 0 (drop k entries) with
          | RaftErr _ => True
          | RaftOk ScanDone => Forall (agrees st) (drop k entries)
          | RaftOk (ScanAppend p) => exists k1 e, p = (0 + k1)%nat /\ drop k entries !! k1 = Some e /\
              Forall (agrees st) (take k1 (drop k entries)) /\ le_index e = last_index (ls_state st) + 1
          | RaftOk (ScanRewrite p) => exists k1 e, p = (0 + k1)%nat /\ drop k entries !! k1 = Some e /\
              Forall (agrees st) (take k1 (drop k entries)) /\ conflicts st e
          end) as Hscan.
  { destruct (drop k entries) as [|x l] eqn:Hd; [simpl; constructor|].
    specialize (Hi0 0%nat x eq_refl). eapply append_scan_spec; (done || lia). }
  apply wp_bindR, wp_check. destruct (append_scan _ _ _) as [[|pos|pos]|err]; [| | |done].
  - apply wp_ret. simpl. eapply appended_intro; try done. by left.
  - destruct Hscan as (k1 & e & -> & He & Ha & Hi). apply wp_bindR.
    eapply wp_mono; [by eapply extend_from_leader_spec|]. intros [n|err] st' Hst; [|done].
    destruct Hst as [Hcm Hext]. apply wp_ret. simpl. by eapply extended_appended.
  - destruct Hscan as (k1 & e & -> & He & Ha & Hcf). apply wp_bindR.
    pose proof (contiguous_lookup _ _ _ _ Hc He) as Hie. specialize (Hi0 _ _ He).
    assert (snapshot_index_of (ls_state st) < le_index e <= last_index (ls_state st)) as Hr.
    { destruct Hcf as (e' & He' & _). pose proof (log_at_le_last st _ Hok (ex_intro _ _ He')). lia. }
    eapply wp_mono; [apply (rewrite_quiet st first (drop k1 (drop k entries)) e); try done|].
    + by apply head_drop.
    + by apply incoming_typed.
    + intros [[n m]|err] st' Hst; [|done]. destruct Hst as [Hcm Hrw]. apply wp_ret. simpl.
      by eapply rewritten_appended.
Qed.


End append.
