(* ===== verification/RaftLogSnapshot.v ===== *)
(** * Snapshots, compaction and reopening

    The log store's other operations keep its invariant, and opening the store
    on its files gives the log it had. *)

From S2P Require Import Prelude Text Monad Protocol BrokerTypes.
From S2P Require Import BrokerSnapshot.
From S2P Require Import RaftQuorum RaftGrant RaftValidate RaftCache RaftFiles RaftFilesFacts.
From S2P Require Import RaftLog RaftLogFacts RaftLogInv RaftLogAppend.
From stdpp Require Import options.

#[local] Arguments validate_entries_after : simpl never.

(** ** Fingerprints of a suffix *)

(** Fewer known fingerprints idtac the same entries. *)
Lemma add_retained_weaken m m' l r :
  add_retained_request_identity_entries m l = RaftOk r ->
  (forall id fp', m' !! id = Some fp' ->
     exists fp, m !! id = Some fp /\ rf_request_fingerprint fp = rf_request_fingerprint fp') ->
  exists r', add_retained_request_identity_entries m' l = RaftOk r'.
Proof.
  revert m m'. induction l as [|e l IH]; intros m m' Ha Hm; simpl in *; [eauto|].
  destruct (command_identity _) as [[i f]|]; [|by eapply IH].
  assert (forall x y, rf_request_fingerprint x = f -> rf_request_fingerprint y = f ->
    add_retained_request_identity_entries (<[i := x]> m) l = RaftOk r ->
    exists r', add_retained_request_identity_entries (<[i := y]> m') l = RaftOk r') as Hgo.
  { intros x y Hx Hy Hadd. eapply IH; [done|].
    intros id fp' [[<- <-]|[Hne Hid]]%lookup_insert_Some.
    - exists x. rewrite lookup_insert_eq. split; [done|congruence].
    - destruct (Hm _ _ Hid) as (fp & ? & ?). exists fp. by rewrite lookup_insert_ne. }
  destruct (m !! i) as [p|] eqn:Hp.
  - case_bool_decide as Hpf; [done|]. destruct (m' !! i) as [p'|] eqn:Hp'.
    + destruct (Hm _ _ Hp') as (q & Hq & Heq). rewrite Hp in Hq. injection Hq as ->.
      rewrite bool_decide_eq_false_2 by (intros Hn; apply Hn; congruence).
      eapply Hgo; [| |done]; simpl; congruence.
    + eapply Hgo; [| |done]; simpl; congruence.
  - destruct (m' !! i) as [p'|] eqn:Hp'; [|by eapply Hgo; [..|done]].
    destruct (Hm _ _ Hp') as (q & Hq & _). congruence.
Qed.

Lemma add_retained_suffix l l' r :
  add_retained_request_identity_entries ∅ (l ++ l') = RaftOk r ->
  exists r', add_retained_request_identity_entries ∅ l' = RaftOk r'.
Proof.
  rewrite add_retained_app. destruct (add_retained_request_identity_entries ∅ l) as [m|]; [|done].
  intros Ha. by eapply add_retained_weaken.
Qed.

Section store.
Context `{D : RequestDigest} `{C : RaftCodec} `{L : !RaftCodecLaws}.

(** ** The snapshot file *)

(** The file holds the latest snapshot, with the checksum of its payload. *)
Definition snapshot_stored (st : RaftLogStore) : Prop :=
  match latest_snapshot (ls_state st) with
  | None => d_snapshot (ls_disk st) = None
  | Some sm =>
      exists payload, d_snapshot (ls_disk st) = Some (mkRaftSnapshotFile sm payload) /\
        (sm_payload_sha256 sm = None \/ sm_payload_sha256 sm = Some (snapshot_payload_sha256 payload)) /\
        exists responses fps, client_responses_from_snapshot_payload payload = RaftOk responses /\
          validate_snapshot_client_response_entries responses = RaftOk fps
  end.

Record sound (st : RaftLogStore) : Prop := {
  so_log : log_ok st;
  so_snapshot : snapshot_stored st;
  so_quiet : quiet (ls_disk st);
}.

Lemma digest_inj v w :
  eq_ignore_ascii_case (snapshot_payload_sha256 v) (snapshot_payload_sha256 w) = true ->
  snapshot_payload_sha256 v = snapshot_payload_sha256 w.
Proof using L.
  intros H%bool_decide_eq_true. rewrite !sha256_lowercase in H. by apply bytes_of_inj.
Qed.

Lemma eq_ignore_ascii_case_refl a : eq_ignore_ascii_case a a = true.
Proof. by apply bool_decide_eq_true. Qed.

Lemma read_snapshot_stored st :
  snapshot_stored st ->
  exists file, read_snapshot_file (ls_disk st) = Done (RaftOk file) (ls_disk st) /\
    sf_metadata <$> file = latest_snapshot (ls_state st) /\
    match file with
    | Some f => exists responses fps,
        client_responses_from_snapshot_payload (sf_payload f) = RaftOk responses /\
        validate_snapshot_client_response_entries responses = RaftOk fps
    | None => True
    end.
Proof.
  unfold snapshot_stored, read_snapshot_file. rewrite (bind_done get _ _ _ _ eq_refl).
  destruct (latest_snapshot _) as [sm|].
  - intros (payload & -> & Hsha & Hresp). simpl. destruct Hsha as [Hsha|Hsha]; rewrite Hsha.
    + eexists (Some _). by split_and!.
    + rewrite eq_ignore_ascii_case_refl. eexists (Some _). split_and!; [done| |done].
      simpl. rewrite <-Hsha. by destruct sm.
  - intros ->. by exists None.
Qed.

(** ** Dropping the beginning of the log *)

(** Entries the snapshot covers may go: what is left is a log that ends where
    the old one did, with the same entries above the snapshot. *)
Lemma drop_prefix st first n :
  log_ok st -> shape (ls_state st) first ->
  first + Z.of_nat n <= snapshot_index_of (ls_state st) + 1 ->
  let retained := drop n (retained_log_entries (ls_state st)) in
  validate_persisted_log_entries retained = RaftOk tt /\
  validate_snapshot_log_boundary retained (latest_snapshot (ls_state st)) = RaftOk tt /\
  log_end retained (latest_snapshot (ls_state st)) = (last_index (ls_state st), last_term (ls_state st)) /\
  retained_request_identity_fingerprints_after retained (snapshot_index_of (ls_state st))
    = RaftOk (retained_request_fingerprints (ls_state st)).
Proof.
  intros Hok (Hc & Hf & Hl & Hs) Hn retained. set (s := ls_state st) in *.
  pose proof (lo_end _ Hok) as He. fold s in He.
  assert (n <= length (retained_log_entries s))%nat as Hlen by lia.
  pose proof (contiguous_drop _ _ n Hc) as Hc'. rewrite Nat.min_l in Hc' by done. fold retained in Hc'.
  pose proof (lo_boundary _ Hok) as Hb. fold s in Hb.
  destruct (decide (retained_log_entries s = [])) as [Hnil|Hne].
  { assert (retained = []) as -> by (unfold retained; by rewrite Hnil, drop_nil).
    rewrite Hnil in *. split_and!; [done|done|done|]. pose proof (lo_fingerprints _ Hok) as Hfps.
    fold s in Hfps. by rewrite Hnil in Hfps. }
  apply (boundary_iff first) in Hb; [|done..].
  assert (length (retained_log_entries s) <> 0%nat) as Hlne by (by intros ?%nil_length_inv).
  split_and!; [apply valid_drop, Hok| | |].
  - destruct (decide (retained = [])) as [->|Hne']; [done|].
    apply (boundary_iff (first + Z.of_nat n)); [done..|].
    unfold boundary_ok, snapshot_index_of in *. unfold retained in *.
    destruct (latest_snapshot s) as [sm|]; simpl in *; [|lia].
    destruct Hb as (H1 & H2 & H3 & H4). rewrite length_drop. split_and!; [lia|done|lia|].
    intros Hle. rewrite <-H4 by lia. f_equal.
    rewrite (entry_at_contiguous first (retained_log_entries s)) by done.
    rewrite (entry_at_contiguous (first + Z.of_nat n)) by done.
    rewrite !bool_decide_eq_true_2 by lia. rewrite lookup_drop. f_equal. lia.
  - rewrite He. unfold log_end.
    destruct (last (retained_log_entries s)) as [e|] eqn:Hlast; [|by apply last_None in Hlast].
    pose proof (contiguous_last _ _ _ Hc Hlast) as Hi.
    destruct (decide (retained = [])) as [Hr|Hr].
    + rewrite Hr. simpl. assert (n = length (retained_log_entries s)) as Hn'.
      { assert (length retained = 0%nat) as H0 by by rewrite Hr. unfold retained in H0.
        rewrite length_drop in H0. lia. }
      unfold boundary_ok, snapshot_index_of in *. destruct (latest_snapshot s) as [sm|]; simpl in *; [|lia].
      destruct Hb as (H1 & H2 & H3 & H4).
      assert (le_index e = sm_last_included_index sm) as Hie by lia. rewrite <-Hie in *.
      rewrite (entry_at_some first) in H4 by (done || by apply last_Some_elem_of).
      pose proof (H4 ltac:(lia)) as H4'. simpl in H4'. by injection H4' as ->.
    + rewrite <-(take_drop n (retained_log_entries s)) in Hlast. fold retained in Hlast.
      rewrite last_app in Hlast. destruct (last retained) eqn:Hlr; [by simplify_eq|].
      by apply last_None in Hlr.
  - unfold retained_request_identity_fingerprints_after. pose proof (lo_fingerprints _ Hok) as Hfps.
    fold s in Hfps. rewrite <-Hfps. unfold retained_request_identity_fingerprints_after. f_equal.
    rewrite (upper_bound_contiguous first (retained_log_entries s)) by done.
    rewrite (upper_bound_contiguous (first + Z.of_nat n) retained) by done.
    unfold retained. rewrite length_drop, !Nat.min_r, drop_drop by lia. f_equal. lia.
Qed.

(** ** Compaction *)

(** What [replace_retained_log_state] makes of a valid log. *)
Lemma replaced st d retained fps :
  Forall typed_entry retained -> typed_snapshot (latest_snapshot (ls_state st)) ->
  validate_persisted_log_entries retained = RaftOk tt ->
  validate_snapshot_log_boundary retained (latest_snapshot (ls_state st)) = RaftOk tt ->
  retained_request_identity_fingerprints_after retained (snapshot_index_of (ls_state st)) = RaftOk fps ->
  default [] (d_log d) = serialized retained ->
  exists s', replace_retained_log_state (ls_state st) retained (serialized_log_entry_lens retained)
      = RaftOk s' /\
    log_ok (set_ls_state s' (set_ls_disk d st)) /\
    retained_log_entries s' = retained /\ hard_state s' = hard_state (ls_state st) /\
    latest_snapshot s' = latest_snapshot (ls_state st).
Proof.
  intros Ht Hs Hv Hb Hfps Hd. unfold replace_retained_log_state, validate_retained_log_entry_bytes_len.
  unfold serialized_log_entry_lens. rewrite length_fmap.
  rewrite (bool_decide_eq_false_2 (length retained <> _)) by (intros Hn; by apply Hn).
  cbn [mbind RaftResult_bind]. rewrite Hfps. cbn [mbind RaftResult_bind].
  unfold replace_retained_log_state_with_fingerprints, validate_retained_log_entry_bytes_len.
  rewrite length_fmap, (bool_decide_eq_false_2 (length retained <> _)) by (intros Hn; by apply Hn).
  cbn [mbind RaftResult_bind]. destruct (log_end retained (latest_snapshot (ls_state st))) as [li lt] eqn:He.
  eexists. split; [done|]. split_and!; [|done..].
  constructor; simpl; try done. by destruct (term_indexes_from_entries retained) as [[??]?].
Qed.

Lemma repair_same st : log_ok st -> repair_retained_log_entry_byte_cache st = Done tt st.
Proof.
  intros Hok. unfold repair_retained_log_entry_byte_cache, modify_state, modify.
  pose proof (lo_sizes _ Hok) as Hs. destruct st as [? ? ? [] ?]. simpl in *. by subst.
Qed.

Lemma suffix_sizes l n :
  (n <= length l)%nat ->
  retained_log_entry_bytes_suffix l (serialized_log_entry_lens l) n
    = RaftOk (serialized_log_entry_lens (drop n l)).
Proof.
  intros Hn. unfold retained_log_entry_bytes_suffix, validate_retained_log_entry_bytes_len,
    serialized_log_entry_lens. rewrite length_fmap.
  rewrite (bool_decide_eq_false_2 (length l <> _)) by (intros H; by apply H).
  cbn [mbind RaftResult_bind]. rewrite bool_decide_eq_false_2 by lia. by rewrite fmap_drop.
Qed.

Lemma rewrite_log_quiet d entries :
  quiet d -> rewrite_log entries d = Done (RaftOk tt) (set_d_log (Some (serialized entries)) d).
Proof. apply io_atomic_quiet. Qed.

(** The log at and below an index is dropped. *)
Definition compacted (st : RaftLogStore) (through : Z) (st' : RaftLogStore) : Prop :=
  sound st' /\ latest_snapshot (ls_state st') = latest_snapshot (ls_state st) /\
  hard_state (ls_state st') = hard_state (ls_state st) /\
  last_index (ls_state st') = last_index (ls_state st) /\
  last_term (ls_state st') = last_term (ls_state st) /\
  (forall i, through < i -> log_at st' i = log_at st i).

Lemma drop_log_at first l n i :
  contiguous first l -> (n <= length l)%nat -> first + Z.of_nat n <= i ->
  retained_entry_at (drop n l) i = retained_entry_at l i.
Proof.
  intros Hc Hn Hi. pose proof (contiguous_drop _ _ n Hc) as Hc'. rewrite Nat.min_l in Hc' by done.
  rewrite (entry_at_contiguous first l), (entry_at_contiguous (first + Z.of_nat n)) by done.
  rewrite !bool_decide_eq_true_2 by lia. rewrite lookup_drop. f_equal. lia.
Qed.

(** Compaction keeps the log sound, or reports an error and changes nothing. *)
Lemma compact_sound st through :
  sound st ->
  wp (compact_through through)
    (fun r st' => match r with
                  | RaftOk _ => compacted st through st'
                  | RaftErr _ => st' = st
                  end) st.
Proof.
  intros [Hok Hsn Hq]. unfold compact_through. apply wp_bind, wp_get.
  destruct (latest_snapshot (ls_state st)) as [sm|] eqn:Hsm; [|by apply wp_ret].
  case_bool_decide; [by apply wp_ret|].
  apply wp_bind, wp_done. eexists _, _. split; [by apply repair_same|].
  apply wp_bind, wp_get. cbv zeta. destruct (log_shape st Hok) as (first & Hsh). pose proof Hsh as (Hc & Hf & Hl & Hs).
  assert (snapshot_index_of (ls_state st) = sm_last_included_index sm) as Hsi
    by (unfold snapshot_index_of; by rewrite Hsm).
  set (n := retained_entry_upper_bound (retained_log_entries (ls_state st)) through).
  assert (n <= length (retained_log_entries (ls_state st)))%nat as Hn by apply partition_point_length.
  assert (n <> 0%nat -> first + Z.of_nat n <= through + 1) as Hnt.
  { unfold n. rewrite (upper_bound_contiguous first) by done. lia. }
  apply wp_bindR, wp_check. destruct (retained_log_prefix_file_len _ _ _) as [cb|]; [|done].
  case_bool_decide as Hz.
  { apply wp_bindR, wp_check. destruct (retained_prefix_file_len _ _) as [rb|]; [|done].
    apply wp_bindR, wp_check. destruct (validate_log_entries_for_snapshot _ _) as [[]|]; [|done].
    apply wp_ret. by split_and!. }
  specialize (Hnt Hz).
  destruct (drop_prefix st first n Hok Hsh) as (Hv & Hb & He & Hfps); [lia|].
  rewrite (lo_sizes _ Hok), suffix_sizes by done. apply wp_bindR, wp_check.
  apply wp_bindR, wp_check. destruct (retained_prefix_file_len _ _) as [rb|]; [|done].
  apply wp_bindR, wp_check. destruct (validate_log_entries_for_snapshot _ _) as [[]|]; [|done].
  apply wp_bindR, wp_on_disk, wp_done. eexists _, _. split; [by apply rewrite_log_quiet|].
  destruct (replaced st (set_d_log (Some (serialized (drop n (retained_log_entries (ls_state st)))))
    (ls_disk st)) _ _ ltac:(by apply Forall_drop, Hok) (lo_snapshot_typed _ Hok) Hv Hb Hfps eq_refl)
    as (s' & Hs' & Hok' & Hr & Hhs & Hls).
  apply wp_bindR, wp_update_state. simpl. rewrite Hs'. apply wp_ret.
  pose proof (lo_end _ Hok') as He'. simpl in He'. rewrite Hr, Hls, He in He'. injection He' as Hli Hlt.
  split; [split; [exact Hok'| |done]|split_and!; try done].
  - unfold snapshot_stored in *. simpl. by rewrite Hls.
  - intros i Hi. unfold log_at. simpl. rewrite Hr. apply (drop_log_at first); [done|done|lia].
Qed.

(** ** Writing a snapshot *)

(** A snapshot within the log it covers. *)
Definition covers_log (st : RaftLogStore) (md : RaftSnapshotMetadata) : Prop :=
  let n := sm_last_included_index md in
  snapshot_index_of (ls_state st) <= n < u64_max /\ typed_snapshot (Some md) /\
  (last_index (ls_state st) < n -> retained_log_entries (ls_state st) = []) /\
  (forall e, log_at st n = Some e -> le_term e = sm_last_included_term md).

Lemma covers_boundary st md :
  log_ok st -> covers_log st md ->
  validate_snapshot_log_boundary (retained_log_entries (ls_state st)) (Some md) = RaftOk tt.
Proof.
  intros Hok ([Hn Hmax] & Hty & Hl & Ht). destruct (log_shape st Hok) as (first & Hc & Hf & Hli & Hs).
  destruct (decide (retained_log_entries (ls_state st) = [])) as [->|Hne]; [done|].
  apply (boundary_iff first); [done..|]. unfold boundary_ok.
  assert (sm_last_included_index md <= last_index (ls_state st)) as Hle.
  { destruct (decide (last_index (ls_state st) < sm_last_included_index md)); [|lia]. by destruct Hne, Hl. }
  split_and!; [lia|lia|lia|]. intros Hge.
  destruct (entry_at_is_some first (retained_log_entries (ls_state st)) (sm_last_included_index md) Hc)
    as [e He]; [lia|]. rewrite He. simpl. f_equal. by apply Ht.
Qed.

Lemma covers_fingerprints st n :
  log_ok st -> snapshot_index_of (ls_state st) <= n ->
  exists fps, retained_request_identity_fingerprints_after (retained_log_entries (ls_state st)) n
    = RaftOk fps.
Proof.
  intros Hok Hn. pose proof (lo_fingerprints _ Hok) as Hfps. destruct (log_shape st Hok) as (first & Hc & _).
  unfold retained_request_identity_fingerprints_after in *.
  set (l := retained_log_entries (ls_state st)) in *. set (a := retained_entry_upper_bound l n).
  assert (retained_entry_upper_bound l (snapshot_index_of (ls_state st)) <= a)%nat as Hle.
  { unfold a. rewrite !(upper_bound_contiguous first) by done. lia. }
  set (b := retained_entry_upper_bound l _) in *.
  rewrite <-(take_drop (a - b) (drop b l)) in Hfps. apply add_retained_suffix in Hfps as [r Hr].
  rewrite drop_drop in Hr. replace (b + (a - b))%nat with a in Hr by lia. eauto.
Qed.

(** The log's caches under a new snapshot. *)
Lemma log_ok_snapshot st md snap_fps fps d :
  log_ok st -> covers_log st md -> d_log d = d_log (ls_disk st) ->
  retained_request_identity_fingerprints_after (retained_log_entries (ls_state st))
    (sm_last_included_index md) = RaftOk fps ->
  log_ok (set_ls_state
    (let s := set_retained_fingerprints fps (set_snapshot (Some md) snap_fps (ls_state st)) in
     if bool_decide (last_index s <= sm_last_included_index md)
     then set_last (sm_last_included_index md) (sm_last_included_term md) s else s)
    (set_ls_disk d st)).
Proof.
  intros Hok Hcov Hd Hfps. pose proof (covers_boundary st md Hok Hcov) as Hb.
  destruct Hcov as ([Hn Hmax] & Hty & Hl & Ht). pose proof Hok as [H1 H2 H3 H4 H5 H6 H7 H8 H9].
  destruct (log_shape st Hok) as (first & Hc & Hf & Hli & Hs). cbv zeta.
  assert ((if bool_decide (last_index (ls_state st) <= sm_last_included_index md)
           then (sm_last_included_index md, sm_last_included_term md)
           else (last_index (ls_state st), last_term (ls_state st)))
          = log_end (retained_log_entries (ls_state st)) (Some md)) as Hend.
  { unfold log_end. destruct (last (retained_log_entries (ls_state st))) as [e|] eqn:He.
    - destruct (log_end_term st e Hok He) as [Hi Hte]. case_bool_decide as Hle; [|by rewrite Hi, Hte].
      assert (last_index (ls_state st) = sm_last_included_index md) as Heq.
      { destruct (decide (last_index (ls_state st) < sm_last_included_index md)); [|lia].
        rewrite Hl in He by done. done. }
      f_equal; [lia|]. symmetry. apply Ht. rewrite <-Heq, <-Hi.
      apply (entry_at_some first); [done|]. by apply last_Some_elem_of.
    - apply last_None in He. rewrite He in Hli. simpl in Hli.
      rewrite bool_decide_eq_true_2 by lia. done. }
  simpl. case_bool_decide; constructor; simpl; try done; by rewrite Hd.
Qed.

Lemma adopt_sound st0 st d md snap_fps (Q : RaftResult unit -> RaftLogStore -> Prop) :
  log_ok st -> covers_log st md ->
  st0 = set_ls_disk d st ->
  (forall fps, retained_request_identity_fingerprints_after (retained_log_entries (ls_state st))
      (sm_last_included_index md) = RaftOk fps ->
    Q (RaftOk tt) (set_ls_state
      (set_retained_fingerprints fps (set_snapshot (Some md) snap_fps (ls_state st)))
      (set_ls_disk d st))) ->
  wp (adopt_snapshot_context (Some md) snap_fps) Q st0.
Proof.
  intros Hok ([Hn _] & _) -> HQ. destruct (covers_fingerprints st _ Hok Hn) as [fps Hfps].
  unfold adopt_snapshot_context. apply wp_bind, wp_modify_state, wp_update_state.
  unfold refresh_retained_request_identity_fingerprints. simpl.
  unfold snapshot_index_of. simpl. rewrite Hfps. simpl. by apply HQ.
Qed.

(** The latest snapshot covers its log. *)
Lemma latest_covers st sm md :
  log_ok st -> latest_snapshot (ls_state st) = Some sm -> sm_last_included_index sm < u64_max ->
  sm_last_included_index md = sm_last_included_index sm ->
  sm_last_included_term md = sm_last_included_term sm -> covers_log st md.
Proof.
  intros Hok Hsm Hmax Hmi Hmt. unfold covers_log. rewrite Hmi, Hmt. pose proof (lo_snapshot_typed _ Hok sm Hsm) as [H0 H0'].
  destruct (log_shape st Hok) as (first & Hc & Hf & Hli & Hs).
  pose proof (term_at_snapshot st sm Hok Hsm) as Ht.
  assert (snapshot_index_of (ls_state st) = sm_last_included_index sm) as Hsi
    by (unfold snapshot_index_of; by rewrite Hsm).
  split_and!; simpl; [lia|lia| | |].
  - intros x [= <-]. by rewrite Hmi, Hmt.
  - lia.
  - intros e He. unfold term_at_index in Ht. pose proof (log_at_le_last st _ Hok (ex_intro _ _ He)).
    rewrite bool_decide_eq_false_2, term_by_index_log, He in Ht by (done || lia). by injection Ht as ->.
Qed.

(** The store with the snapshot [md] and the log it had. *)
Definition snapshotted (st : RaftLogStore) (md : RaftSnapshotMetadata) (st' : RaftLogStore) : Prop :=
  sound st' /\ latest_snapshot (ls_state st') = Some md /\
  hard_state (ls_state st') = hard_state (ls_state st) /\
  retained_log_entries (ls_state st') = retained_log_entries (ls_state st) /\
  last_index (ls_state st') = Z.max (last_index (ls_state st)) (sm_last_included_index md).

Lemma set_last_same s : set_last (last_index s) (last_term s) s = s.
Proof. by destruct s. Qed.

(** At the index of the latest snapshot the end of the log stays. *)
Lemma snapshotted_same st sm md snap_fps fps d :
  log_ok st -> latest_snapshot (ls_state st) = Some sm -> sm_last_included_index sm < u64_max ->
  sm_last_included_index md = sm_last_included_index sm ->
  sm_last_included_term md = sm_last_included_term sm ->
  d_log d = d_log (ls_disk st) -> quiet d ->
  snapshot_stored (set_ls_state (set_snapshot (Some md) snap_fps (ls_state st)) (set_ls_disk d st)) ->
  retained_request_identity_fingerprints_after (retained_log_entries (ls_state st))
    (sm_last_included_index md) = RaftOk fps ->
  snapshotted st md (set_ls_state (set_retained_fingerprints fps
    (set_snapshot (Some md) snap_fps (ls_state st))) (set_ls_disk d st)).
Proof.
  intros Hok Hsm Hmax Hmi Hmt Hd Hq Hst Hfps.
  assert (covers_log st md) as Hcov by by eapply latest_covers.
  pose proof (log_ok_snapshot st md snap_fps fps d Hok Hcov Hd Hfps) as Hok'. cbv zeta in Hok'.
  destruct (log_shape st Hok) as (first & _ & _ & _ & Hsl).
  unfold snapshot_index_of in Hsl. rewrite Hsm in Hsl. simpl in Hsl.
  simpl in Hok'. rewrite Hmi, Hmt in Hok'. case_bool_decide as Hle.
  - assert (last_index (ls_state st) = sm_last_included_index sm) as Heq by lia.
    pose proof (term_at_last st Hok) as Ht. rewrite Heq, (term_at_snapshot st sm Hok Hsm) in Ht.
    injection Ht as Ht.
    assert (set_last (sm_last_included_index sm) (sm_last_included_term sm)
      (set_retained_fingerprints fps (set_snapshot (Some md) snap_fps (ls_state st)))
      = set_retained_fingerprints fps (set_snapshot (Some md) snap_fps (ls_state st))) as Hsame.
    { rewrite <-(set_last_same (set_retained_fingerprints _ _)). simpl. by rewrite Heq, Ht. }
    rewrite Hsame in Hok'. split; [by split|]. split_and!; simpl; (done || lia).
  - split; [by split|]. split_and!; simpl; (done || lia).
Qed.

Lemma same_index_sound st n t payload existing fps :
  sound st -> n < u64_max -> latest_snapshot (ls_state st) = Some existing ->
  sm_last_included_index existing = n ->
  wp (write_same_index_snapshot existing t fps (snapshot_payload_sha256 payload))
    (fun r st' => match r with
                  | RaftOk md => sm_last_included_index md = n /\ sm_last_included_term md = t /\
                      snapshotted st md st'
                  | RaftErr _ => st' = st
                  end) st.
Proof using L.
  intros [Hok Hsn Hq] Hmax Hsm Hi. unfold write_same_index_snapshot.
  apply wp_bind, wp_get. cbv zeta. case_bool_decide as Ht; [by apply wp_ret|].
  pose proof Hsn as Hsn'. unfold snapshot_stored in Hsn'. rewrite Hsm in Hsn'.
  destruct Hsn' as (pl & Hpl & Hsha & Hresp).
  destruct (sm_payload_sha256 existing) as [checksum|] eqn:Hck.
  - case_match; [by apply wp_ret|]. apply wp_bindR, wp_check.
    destruct (validate_snapshot_client_responses_against_retained_suffix _ _ _) as [[]|]; [|done].
    apply wp_bindR, (adopt_sound _ st (ls_disk st));
      [done|eapply latest_covers; (done || lia)|by destruct st|]. intros fps' Hfps'.
    apply wp_ret. split_and!; [done|done|].
    apply (snapshotted_same st existing existing fps fps' (ls_disk st)); try done; [lia|].
    unfold snapshot_stored. simpl. rewrite Hck. eauto 6.
  - apply wp_bindR, wp_on_disk.
    destruct (read_snapshot_stored st Hsn) as (file & Hrd & Hmd & _). apply wp_done.
    eexists _, _. split; [exact Hrd|].
    unfold read_snapshot_file in Hrd. rewrite (bind_done get _ _ _ _ eq_refl), Hpl in Hrd. simpl in Hrd.
    rewrite Hck in Hrd. injection Hrd as <-. simpl.
    rewrite !bool_decide_eq_false_2 by (intros H; by apply H). simpl.
    case_match eqn:Hcase; [apply wp_ret; by destruct st|]. apply wp_bindR, wp_check.
    destruct (validate_snapshot_client_responses_against_retained_suffix _ _ _) as [[]|];
      [|by destruct st].
    apply wp_bindR, wp_on_disk, wp_done. eexists _, _. split; [by apply io_atomic_quiet|].
    set (md := mkRaftSnapshotMetadata _ _ _ _). set (d := set_d_snapshot _ _).
    apply wp_bindR, (adopt_sound _ st d); [done|eapply latest_covers; (done || lia)|done|].
    intros fps' Hfps'. apply wp_ret. split_and!; [done|done|].
    apply (snapshotted_same st existing md fps fps' d); try done; [lia|].
    exists pl. split_and!; [done| |done]. right. simpl. f_equal. symmetry. apply digest_inj.
    by apply negb_false_iff in Hcase.
Qed.

Lemma new_snapshot_sound st n t payload fps now :
  sound st -> 0 <= n < u64_max ->
  (forall sm, latest_snapshot (ls_state st) = Some sm -> sm_last_included_index sm < n) ->
  (exists responses fps', client_responses_from_snapshot_payload payload = RaftOk responses /\
     validate_snapshot_client_response_entries responses = RaftOk fps') ->
  wp (write_new_snapshot n t payload fps (snapshot_payload_sha256 payload) now)
    (fun r st' => match r with
                  | RaftOk md => sm_last_included_index md = n /\ sm_last_included_term md = t /\
                      snapshotted st md st'
                  | RaftErr _ => st' = st
                  end) st.
Proof.
  intros [Hok Hsn Hq] Hn Hnew Hresp. unfold write_new_snapshot. apply wp_bind, wp_get. cbv zeta.
  destruct (log_shape st Hok) as (first & Hc & Hf & Hl & Hs).
  apply wp_bindR. eapply (wp_mono _ (fun r st' => st' = st /\
    (r = RaftOk tt -> forall rt, term_at_index (ls_state st) n = Some rt -> rt = t))).
  { destruct (term_at_index _ _) as [rt|]; [case_bool_decide as Hrt|]; apply wp_ret; split; try done.
    intros _ ? [= <-]. done. }
  intros [[]|] st0 [-> Hterm]; [specialize (Hterm eq_refl)|done]. apply wp_bindR.
  eapply (wp_mono _ (fun r st' => st' = st /\
    (r = RaftOk tt -> last_index (ls_state st) < n -> retained_log_entries (ls_state st) = []))).
  { destruct (_ && _) eqn:Hfut; apply wp_ret; split; try done. intros _ Hlt.
    rewrite bool_decide_eq_true_2 in Hfut by done. by apply negb_false_iff, bool_decide_eq_true in Hfut. }
  intros [[]|] st0 [-> Hfut]; [specialize (Hfut eq_refl)|done].
  apply wp_bindR, wp_check.
  destruct (validate_snapshot_client_responses_against_retained_suffix _ _ _) as [[]|]; [|done].
  apply wp_bindR, wp_on_disk, wp_done. eexists _, _. split; [by apply io_atomic_quiet|].
  set (md := mkRaftSnapshotMetadata _ _ _ _). set (d := set_d_snapshot _ _).
  assert (snapshot_index_of (ls_state st) <= n) as Hsi.
  { unfold snapshot_index_of. destruct (latest_snapshot _) as [sm|]; simpl; [|lia].
    specialize (Hnew sm eq_refl). lia. }
  assert (covers_log st md) as Hcov.
  { split_and!; simpl; [lia|lia| |done|].
    - intros x [= <-]. simpl. split; [lia|]. intros ->. symmetry. by apply Hterm.
    - intros e He. apply Hterm. pose proof (log_at_le_last st _ Hok (ex_intro _ _ He)).
      unfold term_at_index. rewrite bool_decide_eq_false_2 by lia.
      by rewrite term_by_index_log, He. }
  apply wp_bindR, (adopt_sound _ st d); [done..|]. intros fps' Hfps'.
  apply wp_bind, wp_modify_state, wp_ret. split_and!; [done|done|].
  pose proof (log_ok_snapshot st md fps fps' d Hok Hcov eq_refl Hfps') as Hok'.
  split; [split; [exact Hok'| |done]|].
  - unfold snapshot_stored. simpl. case_bool_decide; simpl; exists payload; (split; [done|]); eauto.
  - simpl. case_bool_decide; split_and!; simpl; (done || lia).
Qed.

(** A local snapshot keeps the log sound, or reports an error and changes
    nothing. *)
Lemma write_snapshot_sound st n t payload now :
  sound st -> 0 <= n < u64_max ->
  wp (write_snapshot n t payload now)
    (fun r st' => match r with
                  | RaftOk md => sm_last_included_index md = n /\ sm_last_included_term md = t /\
                      snapshotted st md st'
                  | RaftErr _ => st' = st
                  end) st.
Proof using L.
  intros Hsound Hn. unfold write_snapshot. apply wp_bindR, wp_check.
  destruct (client_responses_from_snapshot_payload payload) as [rs|] eqn:Hrs; [|done].
  apply wp_bindR, wp_check.
  destruct (validate_snapshot_client_response_entries rs) as [fps|] eqn:Hfps; [|done].
  apply wp_bind, wp_get.
  destruct (latest_snapshot (ls_state st)) as [sm|] eqn:Hsm.
  - case_bool_decide; [by apply wp_ret|]. case_bool_decide; [apply same_index_sound; (done || lia)|].
    apply new_snapshot_sound; [done..| |eauto]. intros x Hx. rewrite Hsm in Hx. injection Hx as <-. lia.
  - apply new_snapshot_sound; [done..| |eauto]. intros x Hx. by rewrite Hsm in Hx.
Qed.

(** ** Installing a leader's snapshot *)

Lemma existing_matches_same st existing t sha :
  sound st ->
  wp (validate_existing_snapshot_matches_install existing t sha) (fun _ st' => st' = st) st.
Proof.
  intros [Hok Hsn Hq]. unfold validate_existing_snapshot_matches_install.
  case_bool_decide; [by apply wp_ret|]. apply wp_bindR.
  eapply (wp_mono _ (fun _ st' => st' = st)).
  - destruct (sm_payload_sha256 existing); [by apply wp_ret|]. apply wp_bindR, wp_on_disk, wp_done.
    destruct (read_snapshot_stored st Hsn) as (file & Hrd & _). eexists _, _. split; [exact Hrd|].
    assert (set_ls_disk (ls_disk st) st = st) as -> by by destruct st.
    destruct file; [case_match|]; by apply wp_ret.
  - intros [x|] st0 ->; [|done]. case_match; by apply wp_ret.
Qed.

(** The entries an installed snapshot leaves. *)
Definition kept_after (st : RaftLogStore) (n t : Z) : list RaftLogEntry :=
  if bool_decide (term_at_index (ls_state st) n = Some t)
  then drop (retained_entry_upper_bound (retained_log_entries (ls_state st)) n)
         (retained_log_entries (ls_state st))
  else [].

(** A snapshot that is not newer changes nothing but the fingerprints; a newer
    one replaces the log up to its index, and the rest of the log too unless
    the log has the snapshot's term at its index. *)
Definition installed (st : RaftLogStore) (n t : Z) (md : RaftSnapshotMetadata) (st' : RaftLogStore)
    : Prop :=
  sound st' /\ hard_state (ls_state st') = hard_state (ls_state st) /\
  latest_snapshot (ls_state st') = Some md /\
  if bool_decide (n <= snapshot_index_of (ls_state st))
  then latest_snapshot (ls_state st) = Some md /\
       retained_log_entries (ls_state st') = retained_log_entries (ls_state st)
  else sm_last_included_index md = n /\ sm_last_included_term md = t /\
       retained_log_entries (ls_state st') = kept_after st n t.

Lemma kept_fingerprints st n t :
  log_ok st -> snapshot_index_of (ls_state st) <= n ->
  exists fps, retained_request_identity_fingerprints_after (kept_after st n t) n = RaftOk fps.
Proof.
  intros Hok Hn. unfold kept_after. case_bool_decide; [|by eexists].
  destruct (covers_fingerprints st n Hok Hn) as [fps Hfps]. exists fps. rewrite <-Hfps.
  destruct (log_shape st Hok) as (first & Hc & _).
  unfold retained_request_identity_fingerprints_after. f_equal.
  set (l := retained_log_entries (ls_state st)) in *.
  pose proof (contiguous_drop _ _ (retained_entry_upper_bound l n) Hc) as Hc'.
  rewrite Nat.min_l in Hc' by apply partition_point_length.
  rewrite (upper_bound_contiguous _ _ n Hc'), (upper_bound_contiguous first l n Hc), length_drop.
  rewrite drop_drop. set (len := length l). destruct (decide (Z.to_nat (n + 1 - first) <= len)%nat).
  - rewrite (Nat.min_r len) by lia. f_equal. lia.
  - rewrite (Nat.min_l len) by lia. rewrite !drop_ge; (done || lia).
Qed.

Lemma install_new_sound st n t payload fps now :
  sound st -> snapshot_index_of (ls_state st) < n < u64_max ->
  (exists rs fps', client_responses_from_snapshot_payload payload = RaftOk rs /\
     validate_snapshot_client_response_entries rs = RaftOk fps') ->
  wp (install_new_snapshot n t (snapshot_payload_sha256 payload) payload fps now)
    (fun r st' => match r with
                  | RaftOk md => installed st n t md st'
                  | RaftErr _ => st' = st
                  end) st.
Proof.
  intros Hsound Hnew Hresp. pose proof Hsound as [Hok Hsn Hq].
  pose proof (snapshot_index_nonneg st Hok). unfold install_new_snapshot.
  apply wp_bind, wp_done. eexists _, _. split; [by apply repair_same|].
  apply wp_bind, wp_get. apply wp_bindR, wp_check.
  match goal with |- match ?r with RaftOk _ => _ | RaftErr _ => _ end =>
    assert (r = RaftOk (kept_after st n t, serialized_log_entry_lens (kept_after st n t))) as -> end.
  { unfold kept_after. case_bool_decide; [|done]. rewrite (lo_sizes _ Hok), suffix_sizes; [done|].
    apply partition_point_length. }
  set (kept := kept_after st n t). apply wp_bindR, wp_check.
  destruct (map_err _ (validate_client_request_identity_entries fps kept)) as [[]|]; [|done].
  apply wp_bindR, wp_check. set (md := mkRaftSnapshotMetadata _ _ _ _).
  destruct (validate_log_entries_for_snapshot kept (Some md)) as [[]|] eqn:Hval; [|done].
  unfold validate_log_entries_for_snapshot in Hval.
  destruct (validate_persisted_log_entries kept) as [[]|] eqn:Hv; [|done]. simpl in Hval.
  apply wp_bindR, wp_on_disk, wp_done. eexists _, _. split; [by apply io_atomic_quiet|].
  set (d := set_d_snapshot _ _). apply wp_bindR.
  eapply (wp_mono _ (fun r st' => r = RaftOk tt /\ exists d', st' = set_ls_disk d' st /\
    quiet d' /\ d_snapshot d' = d_snapshot d /\ default [] (d_log d') = serialized kept)).
  { destruct (_ || _) eqn:Hor.
    - apply wp_on_disk, wp_done. eexists _, _. split; [by apply rewrite_log_quiet|].
      split; [done|]. by eexists.
    - apply wp_ret. split; [done|]. exists d. split_and!; try done.
      apply orb_false_iff in Hor as [H1 H2]. apply negb_false_iff, bool_decide_eq_true in H1 as ->.
      apply bool_decide_eq_false in H2. simpl in *. by destruct (default [] _); simpl in *; [|lia]. }
  intros r st0 (-> & d' & -> & Hqd & Hsnd & Hfile).
  apply wp_bind, wp_modify_state, wp_bindR, wp_update_state.
  destruct (kept_fingerprints st n t Hok) as [kfps Hkf]; [lia|].
  set (st1 := set_ls_state _ (set_ls_disk d' st)).
  destruct (replaced st1 d' kept kfps) as (s' & Hs' & Hok' & Hr & Hhs & Hls).
  { unfold kept, kept_after. case_bool_decide; [apply Forall_drop, Hok|constructor]. }
  { intros x [= <-]. simpl. lia. }
  { done. } { done. } { done. } { done. }
  rewrite Hs'. apply wp_ret.
  split; [split; [exact Hok'| |done]|].
  - unfold snapshot_stored. simpl. rewrite Hls. simpl. rewrite Hsnd. eauto 8.
  - simpl. rewrite Hls, bool_decide_eq_false_2 by lia. by split_and!.
Qed.

Lemma install_sound st n t sha payload now :
  sound st -> 0 < n < u64_max ->
  wp (install_snapshot_from_leader n t sha payload now)
    (fun r st' => match r with
                  | RaftOk md => installed st n t md st'
                  | RaftErr _ => st' = st
                  end) st.
Proof using L.
  intros Hsound Hn. pose proof Hsound as [Hok Hsn Hq]. unfold install_snapshot_from_leader.
  apply wp_bindR, wp_check.
  destruct (verify_snapshot_payload_checksum n payload sha) as [vsha|] eqn:Hvsha; [|done].
  assert (vsha = snapshot_payload_sha256 payload) as ->.
  { unfold verify_snapshot_payload_checksum in Hvsha. repeat case_match; by simplify_eq. }
  apply wp_bindR, wp_check.
  destruct (client_responses_from_snapshot_payload payload) as [rs|] eqn:Hrs; [|done].
  apply wp_bindR, wp_check.
  destruct (validate_snapshot_client_response_entries rs) as [fps|] eqn:Hfps; [|done].
  apply wp_bind, wp_get. cbv zeta.
  assert (snapshot_index_of (ls_state st) < n ->
    wp (install_new_snapshot n t (snapshot_payload_sha256 payload) payload fps now)
      (fun r st' => match r with RaftOk md => installed st n t md st' | RaftErr _ => st' = st end) st)
    as Hinst by (intros; apply install_new_sound; eauto; lia).
  destruct (latest_snapshot (ls_state st)) as [sm|] eqn:Hsm; unfold snapshot_index_of in Hinst;
    rewrite Hsm in Hinst; simpl in Hinst; [|apply Hinst; lia].
  case_bool_decide as Hle; [|apply Hinst; lia].
  assert (snapshot_index_of (ls_state st) = sm_last_included_index sm) as Hsi
    by (unfold snapshot_index_of; by rewrite Hsm).
  case_bool_decide as Heq.
  - apply wp_bindR. eapply wp_mono; [by apply existing_matches_same|]. intros [[]|] st0 ->; [|done].
    apply wp_bindR, wp_check.
    destruct (validate_snapshot_client_responses_against_retained_suffix _ _ _) as [[]|]; [|done].
    apply wp_bindR, (adopt_sound _ st (ls_disk st));
      [done|eapply latest_covers; (done || lia)|by destruct st|]. intros fps' Hfps'. apply wp_ret.
    destruct (snapshotted_same st sm sm fps fps' (ls_disk st)) as (Hso & Hl & Hh & Hr & _);
      try done; [lia|by unfold snapshot_stored in *; rewrite Hsm in Hsn|].
    split; [exact Hso|]. rewrite bool_decide_eq_true_2 by lia. by split_and!.
  - apply wp_ret. split; [done|]. rewrite bool_decide_eq_true_2 by lia. by split_and!.
Qed.

(** ** Reopening *)

Lemma read_log_sound st :
  sound st ->
  read_log_entries (ls_disk st) = Done (RaftOk (retained_log_entries (ls_state st))) (ls_disk st).
Proof using L.
  intros [Hok _ Hq]. pose proof (lo_file _ Hok) as Hf.
  destruct (d_log (ls_disk st)) as [b|] eqn:Hb; simpl in Hf.
  - subst b. rewrite (read_log_entries_quiet _ _ Hq Hb), read_log_serialized. cbv zeta iota beta.
    by rewrite (lo_valid _ Hok).
  - unfold read_log_entries. rewrite (bind_done get _ _ _ _ eq_refl), Hb.
    pose proof (serialized_length (retained_log_entries (ls_state st))) as Hl. rewrite <-Hf in Hl.
    by destruct (retained_log_entries (ls_state st)); [|simpl in Hl; lia].
Qed.

(** What [reconcile_persisted_log_with_snapshot] makes of a sound log: it drops
    the entries more than [trailing] below the snapshot. *)
Lemma reconcile_sound st first trailing :
  log_ok st -> shape (ls_state st) first -> 0 <= trailing ->
  exists n rewrite,
    reconcile_persisted_log_with_snapshot (retained_log_entries (ls_state st))
      (latest_snapshot (ls_state st)) trailing
      = RaftOk (mkReconciledPersistedLog (drop n (retained_log_entries (ls_state st))) rewrite) /\
    (n <= length (retained_log_entries (ls_state st)))%nat /\ (rewrite = false -> n = 0%nat) /\
    (n <> 0%nat -> first + Z.of_nat n <= Z.max (snapshot_index_of (ls_state st) - trailing) 0 + 1).
Proof.
  intros Hok Hsh Ht. pose proof Hsh as (Hc & Hf & Hl & Hs).
  unfold reconcile_persisted_log_with_snapshot. pose proof (lo_boundary _ Hok) as Hb.
  set (l := retained_log_entries (ls_state st)) in *.
  destruct (latest_snapshot (ls_state st)) as [sm|] eqn:Hsm.
  2: { exists 0%nat, false. rewrite Hb. simpl. by rewrite drop_0; split_and!; [|lia| |]. }
  assert (snapshot_index_of (ls_state st) = sm_last_included_index sm) as Hsi
    by (unfold snapshot_index_of; by rewrite Hsm).
  destruct l as [|x l'] eqn:Hxl.
  { exists 0%nat, false. by split_and!. }
  change (head (x :: l')) with (Some x). destruct (last (x :: l')) as [y|] eqn:Hy; [|by apply last_None in Hy].
  pose proof (contiguous_last _ _ _ Hc Hy) as Hyi. pose proof Hc as [Hxi _].
  pose proof Hb as Hb'. apply (boundary_iff first) in Hb' as (H1 & H2 & H3 & H4); [|done..].
  cbv zeta iota. rewrite bool_decide_eq_false_2 by lia. rewrite bool_decide_eq_false_2 by lia.
  rewrite bool_decide_eq_false_2 by lia. case_bool_decide as Hin.
  - specialize (H4 ltac:(lia)). destruct (retained_entry_at (x :: l') (sm_last_included_index sm)) as [z|];
      [|done]. injection H4 as H4. rewrite bool_decide_eq_true_2 by done. simpl negb. cbv iota.
    set (n := retained_entry_lower_bound (x :: l') _).
    assert (n <= length (x :: l'))%nat as Hn by apply partition_point_length.
    pose proof (lo_snapshot_typed _ Hok sm Hsm) as [H0 _].
    assert (n <> 0%nat -> first + Z.of_nat n <= Z.max (sm_last_included_index sm - trailing) 0 + 1) as Hnt.
    { unfold n, saturating_sub64, saturating_add64. rewrite (lower_bound_contiguous first) by done. lia. }
    destruct (drop_prefix st first n Hok Hsh) as (_ & Hb2 & _).
    { destruct (decide (n = 0%nat)) as [->|Hn0]; [lia|]. specialize (Hnt Hn0). lia. }
    fold l in Hb2. rewrite Hxl, Hsm in Hb2. rewrite Hb2. simpl.
    exists n, (bool_decide (0 < n)%nat). rewrite Hsi. split_and!; [done|done| |done].
    case_bool_decide; [done|lia].
  - exists 0%nat, false. rewrite Hb. simpl. split_and!; [done|lia|done|done].
Qed.

(** The reopened store: the same snapshot and end, the same entries but those
    more than [trailing] below the snapshot, the same identities. *)
Definition reopened (st : RaftLogStore) (trailing : Z) (st' : RaftLogStore) : Prop :=
  sound st' /\
  latest_snapshot (ls_state st') = latest_snapshot (ls_state st) /\
  last_index (ls_state st') = last_index (ls_state st) /\
  last_term (ls_state st') = last_term (ls_state st) /\
  retained_request_fingerprints (ls_state st') = retained_request_fingerprints (ls_state st) /\
  (forall i, Z.max (snapshot_index_of (ls_state st) - trailing) 0 < i -> log_at st' i = log_at st i).

(** C26: reopening: whatever sound state the store is in, opening it again on
    its files succeeds and gives the log back. *)
Theorem reopen_roundtrip st sync_log sync_commit trailing :
  sound st -> 0 <= trailing ->
  exists st' d', open_log_store sync_log sync_commit trailing (ls_disk st) = Done (RaftOk st') d' /\
    reopened st trailing st'.
Proof using L.
  intros Hsound Htr. pose proof Hsound as [Hok Hsn Hq]. unfold open_log_store.
  destruct (read_snapshot_stored st Hsn) as (file & Hrd & Hmd & Hresp).
  rewrite (bindR_ok _ _ _ _ _ Hrd).
  match goal with |- exists st' d', bindR ?m _ _ = _ /\ _ =>
    assert (exists fps, m (ls_disk st) = Done (RaftOk fps) (ls_disk st)) as [fps Hfps] end.
  { destruct file as [f|]; [|by eexists]. destruct Hresp as (rs & fps & Hrs & Hfps). exists fps.
    unfold mret, M_ret. rewrite Hrs. simpl. by rewrite Hfps. }
  rewrite (bindR_ok _ _ _ _ _ Hfps), (bind_done get _ _ _ _ eq_refl), Hmd. cbv zeta.
  destruct (read_hard_state_with_commit_slots (ls_disk st)) as [hs g].
  rewrite (bindR_ok _ _ _ _ _ (read_log_sound st Hsound)).
  destruct (log_shape st Hok) as (first & Hsh). pose proof Hsh as (Hc & Hf & Hl & Hs).
  destruct (reconcile_sound st first trailing Hok Hsh Htr) as (n & rw & Hrec & Hn & Hrw & Hnt).
  rewrite Hrec. rewrite (bindR_ok (mret (RaftOk _)) _ _ _ _ eq_refl). simpl rp_entries. simpl rp_rewrite_needed.
  pose proof (snapshot_index_nonneg st Hok).
  destruct (drop_prefix st first n Hok Hsh) as (Hv & Hb & He & Hfp).
  { destruct (decide (n = 0%nat)) as [->|Hn0]; [lia|]. specialize (Hnt Hn0). lia. }
  set (retained := drop n (retained_log_entries (ls_state st))) in *.
  match goal with |- exists st' d', bindR ?m _ _ = _ /\ _ =>
    assert (exists d', m (ls_disk st) = Done (RaftOk tt) d' /\ quiet d' /\
      d_snapshot d' = d_snapshot (ls_disk st) /\ default [] (d_log d') = serialized retained)
      as (d' & Hm & Hq' & Hsn' & Hfile) end.
  { destruct rw; [rewrite rewrite_log_quiet by done; by eexists|].
    exists (ls_disk st). split_and!; try done. unfold retained. rewrite Hrw, drop_0 by done. apply Hok. }
  rewrite (bindR_ok _ _ _ _ _ Hm), He.
  change (default 0 (sm_last_included_index <$> latest_snapshot (ls_state st)))
    with (snapshot_index_of (ls_state st)).
  rewrite Hfp, (bindR_ok (mret (RaftOk _)) _ _ _ _ eq_refl).
  destruct (term_indexes_from_entries retained) as [[m1 m2] m3] eqn:Hmaps.
  rewrite (bind_done get _ _ _ _ eq_refl). eexists _, _. split; [done|].
  split; [split; [|unfold snapshot_stored in *; simpl; by rewrite Hsn'|done]|split_and!; try done].
  - constructor; simpl; try done; [apply Forall_drop, Hok|apply Hok].
  - intros i Hi. unfold log_at. simpl. destruct (decide (n = 0%nat)) as [Hn0|Hn0].
    + unfold retained. by rewrite Hn0, drop_0.
    + specialize (Hnt Hn0). apply (drop_log_at first); [done|done|lia].
Qed.

End store.
