(* ===== verification/RaftExamples.v ===== *)
(** * A concrete codec

    An instance of [RaftCodec] that satisfies [RaftCodecLaws], and of
    [RequestDigest]: a log record is a pair of braces around the bits of the
    entry's code.  The theorems' examples run on it. *)

From S2P Require Import Prelude Text Monad Protocol Queue BrokerTypes BrokerState Broker BrokerOps.
From S2P Require Import BrokerSnapshot.
From S2P Require Import RaftQuorum RaftGrant RaftValidate RaftCache RaftFiles.
From stdpp Require Import options.

(** ** Codes of log entries *)

Definition request_sum (r : Request.t) :=
  match r with
  | Request.Version u v => inl (0%nat, u, v)
  | Request.Auth u v => inl (1%nat, u, v)
  | Request.RegisterRead u v => inl (2%nat, u, v)
  | Request.RegisterWrite u v => inl (3%nat, u, v)
  | Request.EndRead u v => inl (4%nat, u, v)
  | Request.EndWrite u v => inl (5%nat, u, v)
  | Request.LockInfo u v => inl (6%nat, u, v)
  | Request.Ls u => inl (7%nat, u, u)
  | Request.Heartbeat u => inl (8%nat, u, u)
  | Request.Lock u k ks p t m f r d w => inr (inl (u, k, ks, p, t, m, (f, r, d, w)))
  | Request.Unlock u k ks l f => inr (inr (u, k, ks, l, f))
  end.

Definition sum_request (s : (nat * string * string) + (_ + _)) : option Request.t :=
  match s with
  | inl (0%nat, u, v) => Some (Request.Version u v)
  | inl (1%nat, u, v) => Some (Request.Auth u v)
  | inl (2%nat, u, v) => Some (Request.RegisterRead u v)
  | inl (3%nat, u, v) => Some (Request.RegisterWrite u v)
  | inl (4%nat, u, v) => Some (Request.EndRead u v)
  | inl (5%nat, u, v) => Some (Request.EndWrite u v)
  | inl (6%nat, u, v) => Some (Request.LockInfo u v)
  | inl (7%nat, u, _) => Some (Request.Ls u)
  | inl (_, u, _) => Some (Request.Heartbeat u)
  | inr (inl (u, k, ks, p, t, m, (f, r, d, w))) => Some (Request.Lock u k ks p t m f r d w)
  | inr (inr (u, k, ks, l, f)) => Some (Request.Unlock u k ks l f)
  end.

#[global] Instance Request_eq_dec : EqDecision Request.t.
Proof. solve_decision. Defined.
#[global] Instance Request_countable : Countable Request.t.
Proof. refine (inj_countable request_sum sum_request _). by intros []. Defined.

#[global] Instance RaftPeerConfig_countable : Countable RaftPeerConfig.
Proof.
  refine (inj_countable' (fun p => (peer_id p, peer_addr p)) (fun p => mkRaftPeerConfig p.1 p.2) _).
  by intros [].
Defined.

#[global] Instance RaftGrantPlan_countable : Countable RaftGrantPlan.
Proof.
  refine (inj_countable' (fun p => (gp_lock_uuid p, gp_fencing_seed p))
    (fun p => mkRaftGrantPlan p.1 p.2) _).
  by intros [].
Defined.

#[global] Instance RaftMembership_countable : Countable RaftMembership.
Proof.
  refine (inj_countable'
    (fun m => match m with Simple l => inl l | Joint l l' => inr (l, l') end)
    (fun m => match m with inl l => Simple l | inr (l, l') => Joint l l' end) _).
  by intros [].
Defined.

#[global] Instance RaftCommand_countable : Countable RaftCommand.
Proof.
  refine (inj_countable'
    (fun c => match c with
      | Noop => inl None
      | DropClient c => inl (Some c)
      | ClientRequest c r g => inr (inl (c, r, g, None))
      | ClientRequestWithIdentity c r g i f => inr (inl (c, r, g, Some (i, f)))
      | SetMembership m => inr (inr (inl m))
      | SetStagedLearners l => inr (inr (inr l))
      end)
    (fun c => match c with
      | inl None => Noop
      | inl (Some c) => DropClient c
      | inr (inl (c, r, g, None)) => ClientRequest c r g
      | inr (inl (c, r, g, Some (i, f))) => ClientRequestWithIdentity c r g i f
      | inr (inr (inl m)) => SetMembership m
      | inr (inr (inr l)) => SetStagedLearners l
      end) _).
  by intros [].
Defined.

#[global] Instance RaftLogEntry_countable : Countable RaftLogEntry.
Proof.
  refine (inj_countable' (fun e => (le_index e, le_term e, le_created_at_ms e, le_command e))
    (fun '(i, t, c, cmd) => mkRaftLogEntry i t c cmd) _).
  by intros [].
Defined.

(** ** Records *)

Fixpoint bits (p : positive) : bytes :=
  match p with
  | xH => [125]
  | xO p => 48 :: bits p
  | xI p => 49 :: bits p
  end.

Fixpoint of_bits (b : bytes) : option positive :=
  match b with
  | [] => None
  | x :: b =>
      if bool_decide (x = 125) then if bool_decide (b = []) then Some 1%positive else None
      else if bool_decide (x = 48) then xO <$> of_bits b
      else if bool_decide (x = 49) then xI <$> of_bits b
      else None
  end.

Lemma of_bits_bits p : of_bits (bits p) = Some p.
Proof. induction p as [p IH|p IH|]; simpl; [by rewrite IH..|done]. Qed.

Lemma of_bits_take p k : (k < length (bits p))%nat -> of_bits (take k (bits p)) = None.
Proof.
  revert k. induction p as [p IH|p IH|]; intros [|k] Hk; simpl in *; try done;
    [by rewrite IH by lia..|lia].
Qed.

Lemma of_bits_more p b : b <> [] -> of_bits (bits p ++ b) = None.
Proof. intros Hb. induction p as [p IH|p IH|]; simpl; [by rewrite IH..|by destruct b]. Qed.

Lemma bits_in p x : x ∈ bits p -> x = 125 \/ x = 48 \/ x = 49.
Proof. induction p; simpl; set_solver. Qed.

Lemma bits_last p : exists rest, bits p = rest ++ [125].
Proof.
  induction p as [p [r IH]|p [r IH]|]; simpl;
    [exists (49 :: r)|exists (48 :: r)|exists []]; by rewrite ?IH.
Qed.

Definition demo_entry_json (e : RaftLogEntry) : bytes := 123 :: bits (encode e).
Definition demo_entry_of_json (b : bytes) : RaftResult RaftLogEntry :=
  match b with
  | 123 :: b =>
      match of_bits b ≫= decode with
      | Some e => RaftOk e
      | None => RaftErr (EJson "invalid entry")
      end
  | _ => RaftErr (EJson "expected an object")
  end.

(** A JSON library with the values the snapshots hold. *)
Inductive RaftValue : Type :=
| VMissing
| VObject (field : string -> RaftValue)
| VNumber (n : Z)
| VSnapshot (sn : BrokerRaftSnapshot)
| VMembership (m : RaftMembership)
| VLearners (l : list RaftPeerConfig)
| VResponses (l : list ClientResponseSnapshotEntry).

Definition raft_value_get (v : RaftValue) (field : string) : option RaftValue :=
  match v with
  | VObject f => match f field with VMissing => None | v => Some v end
  | _ => None
  end.

Definition raft_value_snapshot (v : RaftValue) : Result BrokerRaftSnapshot :=
  match v with VSnapshot sn => ROk sn | _ => RErr "invalid type" end.

Lemma raft_value_from_to sn v : ROk (VSnapshot sn) = ROk v -> raft_value_snapshot v = ROk sn.
Proof. by intros [= <-]. Qed.

Definition demo_value_codec : SnapshotCodec := {|
  Value := RaftValue;
  value_get := raft_value_get;
  value_as_u64 v := match v with VNumber n => Some n | _ => None end;
  to_value sn := ROk (VSnapshot sn);
  from_value := raft_value_snapshot;
  from_to_value := raft_value_from_to;
|}.

Definition raft_value_responses (v : RaftValue) : RaftResult (list ClientResponseSnapshotEntry) :=
  match v with VResponses l => RaftOk l | _ => RaftErr (EJson "invalid type") end.
Definition raft_value_membership (v : RaftValue) : RaftResult RaftMembership :=
  match v with VMembership m => RaftOk m | _ => RaftErr (EJson "invalid type") end.
Definition raft_value_learners (v : RaftValue) : RaftResult (list RaftPeerConfig) :=
  match v with VLearners l => RaftOk l | _ => RaftErr (EJson "invalid type") end.
Definition raft_value_payload (m : RaftMembership) (ls : list RaftPeerConfig)
    (rs : list ClientResponseSnapshotEntry) (b : RaftValue) : RaftValue :=
  VObject (fun field =>
    if bool_decide (field = "membership"%string) then VMembership m
    else if bool_decide (field = "stagedLearners"%string) then VLearners ls
    else if bool_decide (field = "clientResponses"%string) then VResponses rs
    else if bool_decide (field = "broker"%string) then b
    else VMissing).

Definition demo_checksum (generation term commit : Z) : string :=
  (pretty generation +:+ "-" +:+ pretty term +:+ "-" +:+ pretty commit)%string.

Definition demo_raft_codec : RaftCodec (SC := demo_value_codec) :=
  @Build_RaftCodec demo_value_codec demo_entry_json demo_entry_of_json (fun _ => 200%nat)
    demo_checksum (fun _ => "sha"%string) raft_value_responses raft_value_membership
    raft_value_learners (fun _ m ls rs b _ => raft_value_payload m ls rs b).

Lemma demo_raft_codec_laws : RaftCodecLaws (C := demo_raft_codec).
Proof.
  split; unfold entry_json, entry_of_json; simpl; unfold demo_entry_json.
  - intros e. simpl. rewrite of_bits_bits. simpl. by rewrite decode_encode.
  - intros e [He|He]%elem_of_cons; [done|]. apply bits_in in He. unfold NEWLINE in He. lia.
  - intros e. by eexists _, _.
  - intros e. destruct (bits_last (encode e)) as [rest ->]. by exists (123 :: rest), 125.
  - intros e [|k] Hk; [done|]. simpl in *. by rewrite of_bits_take by lia.
  - intros e b rest _. simpl. by rewrite of_bits_more.
  - intros s. unfold HARD_STATE_COMMIT_SLOT_BYTES. lia.
  - done.
  - intros. by eexists.
  - intros. by eexists.
Qed.

Definition demo_digest : RequestDigest := {| request_fingerprint := Request.uuid |}.
