(* ===== verification/RaftLogRuns.v ===== *)
(** * Runs of the log store

    Every run of the store's operations from a sound store stays sound; the
    incremental age scan agrees with the full one; the theorems on the log
    store at concrete inputs. *)

From S2P Require Import Prelude Text Monad Protocol BrokerTypes.
From S2P Require Import BrokerSnapshot BrokerSnapshotTheorems BrokerOps.
From S2P Require Import RaftQuorum RaftGrant RaftValidate RaftCache RaftFiles RaftFilesFacts.
From S2P Require Import RaftLog RaftHardState RaftLogFacts RaftLogInv RaftLogAppend RaftLogSnapshot.
From S2P Require Import RaftExamples.
From stdpp Require Import options.

Section runs.
Context `{D : RequestDigest} `{C : RaftCodec} `{L : !RaftCodecLaws}.

(** ** Operations *)

Inductive LogOp : Type :=
| OpAppendBatch (term : Z) (commands : list RaftCommand) (created_at_ms : Z)
| OpFromLeader (prev_log_index prev_log_term leader_term local_commit_index : Z)
    (entries : list RaftLogEntry)
| OpWriteHardState (state : RaftHardState) (policy : HardStateVotePolicy)
| OpWriteSnapshot (index term : Z) (payload : Value) (created_at_ms : Z)
| OpInstallSnapshot (index term : Z) (payload_sha256 : option string) (payload : Value)
    (created_at_ms : Z)
| OpCompact (through_index : Z).

Definition run_op (op : LogOp) : M RaftLogStore unit :=
  match op with
  | OpAppendBatch term commands now => append_batch term commands now ;; mret tt
  | OpFromLeader prev pterm lterm commit entries =>
      append_entries_from_leader prev pterm lterm commit entries ;; mret tt
  | OpWriteHardState state policy => write_hard_state_with_vote_policy state policy ;; mret tt
  | OpWriteSnapshot index term payload now => write_snapshot index term payload now ;; mret tt
  | OpInstallSnapshot index term sha payload now =>
      install_snapshot_from_leader index term sha payload now ;; mret tt
  | OpCompact through => compact_through through ;; mret tt
  end.

(** The arguments are of the type [u64], with room for the indexes they lead
    to, and a leader's entries agree with the snapshot they reach into. *)
Definition op_ok (st : RaftLogStore) (op : LogOp) : Prop :=
  match op with
  | OpAppendBatch term commands _ =>
      0 <= term /\ last_index (ls_state st) + Z.of_nat (length commands) <= u64_max
  | OpFromLeader prev _ _ _ entries =>
      0 <= prev /\ Forall typed_entry entries /\ covered_agrees st entries
  | OpWriteHardState _ _ => True
  | OpWriteSnapshot index _ _ _ => 0 <= index < u64_max
  | OpInstallSnapshot index _ _ _ _ => 0 < index < u64_max
  | OpCompact _ => True
  end.

Definition log_step (st st' : RaftLogStore) : Prop :=
  exists op, op_ok st op /\ run_op op st = Done tt st'.

(** The parts of the store the log's soundness is about. *)
Lemma sound_context st st' :
  sound st -> log_ok st' -> quiet (ls_disk st') -> same_context st st' -> sound st'.
Proof.
  intros [_ Hsn _] Hok Hq (_ & Hl & _ & _ & _ & Hd & _). split; [done| |done].
  unfold snapshot_stored in *. by rewrite Hl, Hd.
Qed.

(** A hard-state write leaves the log and its files. *)
Definition log_untouched (st st' : RaftLogStore) : Prop :=
  (exists hs g, ls_state st' = set_hard_state hs (set_commit_generation g (ls_state st))) /\
  quiet (ls_disk st') /\ d_log (ls_disk st') = d_log (ls_disk st) /\
  d_snapshot (ls_disk st') = d_snapshot (ls_disk st).

Lemma untouched_sound st st' : sound st -> log_untouched st st' -> sound st'.
Proof.
  intros [Hok Hsn Hq] ((hs & g & Hs) & Hq' & Hl & Hd).
  split; [|unfold snapshot_stored in *; rewrite Hs, Hd; exact Hsn|done].
  destruct Hok as [H1 H2 H3 H4 H5 H6 H7 H8 H9].
  constructor; rewrite ?Hl, Hs; done.
Qed.

Lemma write_hard_state_untouched state policy st :
  quiet (ls_disk st) ->
  wp (write_hard_state_with_vote_policy state policy) (fun _ st' => log_untouched st st') st.
Proof using L.
  intros Hq. assert (log_untouched st st) as Hid.
  { split_and!; try done. exists (hard_state (ls_state st)), (hard_state_commit_generation (ls_state st)).
    by destruct (ls_state st). }
  unfold write_hard_state_with_vote_policy. apply wp_bind, wp_get. cbv zeta. apply wp_bindR, wp_check.
  destruct (next_hard_state _ _ _) as [next|]; [|done].
  case_bool_decide; [by apply wp_ret|]. destruct (_ && _ && _).
  - case_bool_decide; [by apply wp_ret|]. apply wp_bindR, wp_on_disk.
    unfold write_hard_state_commit_slot.
    case_bool_decide; [by apply wp_ret; destruct st|]. cbv zeta.
    rewrite bool_decide_eq_false_2.
    2: { pose proof (commit_slot_fits (hard_state_commit_slot_record
           (hard_state_commit_generation (ls_state st) + 1) (hs_current_term next) (hs_commit_index next))).
         lia. }
    apply wp_bind, wp_get. apply wp_bindR, wp_done. eexists _, _. split; [by apply io_atomic_quiet|].
    apply wp_bindR. apply wp_done. eexists _, _. split; [destruct Hq; by apply io_call_done|].
    apply wp_bindR.
    match goal with |- wp _ _ ?d => assert (quiet d) as Hq1 by done;
      assert (forall b : bool, (if b then io_gate else okR tt) d = Done (RaftOk tt) d) as Hgate
        by (intros []; [by apply io_gate_quiet|done]) end.
    apply wp_done. eexists _, _. split; [apply Hgate|].
    apply wp_done. eexists _, _. split; [apply Hgate|].
    apply wp_bind, wp_modify_state, wp_ret. split_and!; try done. by eexists _, _.
  - apply wp_bindR, wp_on_disk, wp_done. eexists _, _. split; [by apply io_atomic_quiet|].
    apply wp_bind, wp_modify_state, wp_ret. split_and!; try done.
    exists next, (hard_state_commit_generation (ls_state st)). simpl. by destruct (ls_state st).
Qed.

Lemma run_op_sound st op :
  sound st -> op_ok st op -> wp (run_op op) (fun _ st' => sound st') st.
Proof using L.
  intros Hs Hop. pose proof Hs as [Hok Hsn Hq].
  destruct op as [term cmds now|prev pterm lterm commit es|state policy|n t pl now|n t sha pl now|thr];
    simpl in *; apply wp_bind.
  - destruct Hop. destruct (append_batch_spec st term cmds now) as (r & st' & Hr & Hpost); [done..|].
    apply wp_done. eexists _, _. split; [done|]. apply wp_ret. destruct r as [es|]; [|by subst].
    destruct Hpost as (_ & ? & ? & ? & _). by eapply sound_context.
  - destruct Hop as (? & ? & ?).
    destruct (leader_append_spec st prev pterm lterm commit es) as (r & st' & Hr & Hpost); [done..|].
    apply wp_done. eexists _, _. split; [done|]. apply wp_ret. destruct r as [rep|]; [|by subst].
    destruct (ar_success rep); [|by destruct Hpost; subst].
    destruct Hpost as (? & ? & ? & _). by eapply sound_context.
  - eapply wp_mono; [by apply write_hard_state_untouched|]. intros r st' Hu. apply wp_ret.
    by eapply untouched_sound.
  - eapply wp_mono; [by apply write_snapshot_sound|]. intros [md|] st' Hp; apply wp_ret; [|by subst].
    by destruct Hp as (_ & _ & ? & _).
  - eapply wp_mono; [by apply install_sound|]. intros [md|] st' Hp; apply wp_ret; [|by subst].
    by destruct Hp as (? & _).
  - eapply wp_mono; [by apply compact_sound|]. intros [md|] st' Hp; apply wp_ret; [|by subst].
    by destruct Hp as (? & _).
Qed.


End runs.

(** ** The incremental age scan *)

(** The entry may be compacted by age. *)
Definition aged (max_through oldest : Z) (e : RaftLogEntry) : Prop :=
  le_index e <= max_through /\ le_created_at_ms e <= oldest.

(** What the cache says of the retained entries: the eligible index is one of
    theirs, and everything up to it was old enough. *)
Definition age_cache_ok (cache : option RetainedAgeCompactionCache) (entries : list RaftLogEntry)
    : Prop :=
  forall c i, cache = Some c -> ac_eligible_index c = Some i ->
    (exists e, e ∈ entries /\ le_index e = i) /\
    forall e, e ∈ entries -> le_index e <= i -> aged (ac_max_through_index c) (ac_oldest_retained_ms c) e.

Lemma age_scan_app m o acc l l' :
  Forall (aged m o) l ->
  age_scan m o acc (l ++ l') = age_scan m o (if last l is Some e then Some (le_index e) else acc) l'.
Proof.
  intros Hl. revert acc. induction Hl as [|e l [H1 H2] _ IH]; intros acc; [done|]. simpl.
  rewrite !bool_decide_eq_false_2 by lia. rewrite IH. destruct l as [|x l]; [done|].
  change (last (e :: x :: l)) with (last (x :: l)).
  destruct (last (x :: l)) eqn:Hlast; [done|]. by apply last_None in Hlast.
Qed.

Lemma age_scan_spec m o acc l :
  exists k, Forall (aged m o) (take k l) /\ (k <= length l)%nat /\
    age_scan m o acc l = if last (take k l) is Some e then Some (le_index e) else acc.
Proof.
  revert acc. induction l as [|e l IH]; intros acc.
  { exists 0%nat. by split_and!. }
  simpl. case_bool_decide; [exists 0%nat; split_and!; simpl; [done|lia|done]|].
  case_bool_decide; [exists 0%nat; split_and!; simpl; [done|lia|done]|].
  destruct (IH (Some (le_index e))) as (k & Hf & Hk & ->). exists (S k). simpl.
  split_and!; [constructor; [split; lia|done]|lia|].
  destruct (take k l) as [|x l'] eqn:Ht; [done|]. change (last (e :: x :: l')) with (last (x :: l')).
  destruct (last (x :: l')) eqn:Hlast; [done|]. by apply last_None in Hlast.
Qed.

Lemma take_upper_bound first l i e :
  contiguous first l -> retained_entry_at l i = Some e ->
  last (take (retained_entry_upper_bound l i) l) = Some e /\
  forall x, x ∈ take (retained_entry_upper_bound l i) l -> le_index x <= i.
Proof.
  intros Hc He. rewrite (upper_bound_contiguous first) by done.
  pose proof (entry_at_elem _ _ _ He) as [Hel Hi]. apply list_elem_of_lookup in Hel as [k Hk].
  pose proof (contiguous_lookup _ _ _ _ Hc Hk). pose proof (lookup_lt_Some _ _ _ Hk).
  replace (Nat.min (length l) (Z.to_nat (i + 1 - first))) with (S k) by lia. split.
  - rewrite last_lookup, length_take, Nat.min_l by lia. simpl. by rewrite lookup_take_lt by lia.
  - intros x [j Hj]%list_elem_of_lookup. apply lookup_take_Some in Hj as [Hj Hlt].
    rewrite (contiguous_lookup _ _ _ _ Hc Hj). lia.
Qed.

(** The incremental age scan finds the index the full scan finds, whatever
    scans left the cache behind, and leaves a cache that is good for the next
    one. *)
Theorem age_scan_incremental first entries cache now max_age max_through :
  contiguous first entries -> age_cache_ok cache entries ->
  let r := compact_through_for_retained_age_cached_incremental entries cache now max_age max_through in
  r.1 = (compact_through_for_retained_age_cached_incremental entries None now max_age max_through).1 /\
  age_cache_ok r.2 entries.
Proof.
  intros Hc Hcache. unfold compact_through_for_retained_age_cached_incremental.
  destruct (_ || _); [by split|]. set (oldest := saturating_sub64 now max_age).
  assert (forall acc start,
    age_scan max_through oldest acc (drop start entries) = age_scan max_through oldest None entries ->
    age_scan max_through oldest acc (drop start entries) = age_scan max_through oldest None entries /\
    age_cache_ok (Some (mkRetainedAgeCompactionCache max_age oldest max_through
      (age_scan max_through oldest acc (drop start entries)))) entries) as Hfin.
  { intros acc start Heq. split; [done|]. rewrite Heq.
    destruct (age_scan_spec max_through oldest None entries) as (k & Hf & Hk & ->).
    intros c i [= <-]. simpl. destruct (last (take k entries)) as [e|] eqn:Hlast; [|done]. intros [= <-].
    pose proof (last_Some_elem_of _ _ Hlast) as Hel.
    pose proof (contiguous_last _ _ _ (contiguous_take _ _ k Hc) Hlast) as Hi. rewrite length_take in Hi.
    split.
    - exists e. split; [|done]. apply list_elem_of_lookup in Hel as [j Hj].
      apply lookup_take_Some in Hj as [Hj _]. by eapply list_elem_of_lookup_2.
    - intros x [j Hj]%list_elem_of_lookup Hle. rewrite (contiguous_lookup _ _ _ _ Hc Hj) in Hle.
      rewrite Forall_lookup in Hf. apply (Hf j). apply lookup_take_Some. split; [done|lia]. }
  destruct cache as [c|]; [|by apply (Hfin None 0%nat)].
  destruct (_ && _ && _ && _) eqn:Hhit; [|by apply (Hfin None 0%nat)].
  rewrite !andb_true_iff, !bool_decide_eq_true in Hhit. destruct Hhit as [[[_ Ho] Hm] Hret].
  destruct (ac_eligible_index c) as [i|] eqn:Hi; [|by apply (Hfin None 0%nat)].
  destruct (retained_entry_at entries i) as [e|] eqn:He; [|done].
  apply Hfin. destruct (Hcache c i eq_refl Hi) as [_ Haged].
  destruct (take_upper_bound first entries i e Hc He) as [Hlast Hle].
  set (ub := retained_entry_upper_bound entries i) in *.
  rewrite <-(take_drop ub entries) at 2. rewrite age_scan_app, Hlast.
  - f_equal. by apply entry_at_elem in He as [_ ->].
  - apply Forall_forall. intros x Hx. destruct (Haged x) as [H1 H2].
    + apply list_elem_of_lookup in Hx as [j Hj]. apply lookup_take_Some in Hj as [Hj _].
      by eapply list_elem_of_lookup_2.
    + by apply Hle.
    + split; lia.
Qed.

(** Appended entries leave the cache good. *)
Lemma age_cache_append first entries entries' cache :
  contiguous first (entries ++ entries') -> age_cache_ok cache entries ->
  age_cache_ok cache (entries ++ entries').
Proof.
  intros Hc Hok c i Hcc Hi. destruct (Hok c i Hcc Hi) as [(e & He & <-) Haged]. split.
  - exists e. set_solver.
  - intros x [Hx|Hx]%elem_of_app Hle; [by apply Haged|exfalso].
    apply contiguous_app in Hc as [Hc Hc'].
    apply list_elem_of_lookup in He as [k Hk]. apply list_elem_of_lookup in Hx as [k' Hk'].
    rewrite (contiguous_lookup _ _ _ _ Hc Hk) in Hle. rewrite (contiguous_lookup _ _ _ _ Hc' Hk') in Hle.
    apply lookup_lt_Some in Hk. lia.
Qed.
