(* ===== verification/RaftNode.v ===== *)
(** * The state of a Raft node and its membership commands

    [src/src/broker_raft.rs]: [RaftRuntimeState] (2379-2435), the local peer
    and its admission checks (6036-6047, 11884-11887, 11950-11985), election
    deadlines (21118-21161), the application of staged learners and
    memberships (9484-9576, 20672-20877).

    The runtime's mutex is held from its first access to the last one of each
    block; the caches published for readers that do not take it, the
    connection pool, telemetry and log lines are left out. *)

From S2P Require Import Prelude Text Monad Protocol Queue BrokerTypes BrokerState Broker BrokerOps.
From S2P Require Import BrokerSnapshot RaftQuorum RaftGrant RaftCache RaftValidate RaftFiles RaftLog.
From S2P Require Import RaftLogFacts.
From stdpp Require Import options.
Import Membership.

Inductive RaftRole : Type := Follower | Candidate | Leader.

#[global] Instance RaftRole_eq_dec : EqDecision RaftRole.
Proof. solve_decision. Defined.

Record RaftPeerProgress : Type := mkRaftPeerProgress {
  pp_next_index : Z;
  pp_match_index : Z;
}.

Record RaftRuntimeState : Type := mkRaftRuntimeState {
  rt_current_term : Z;
  rt_voted_for : option string;
  rt_role : RaftRole;
  rt_leader_id : option string;
  rt_commit_index : Z;
  rt_last_applied : Z;
  rt_election_deadline : Z;
  rt_leader_progress : gmap string RaftPeerProgress;
  rt_staged_learners : gmap string RaftPeerConfig;
  rt_membership : RaftMembership;
  rt_local_voter_seen : bool;
}.

(** The fields of [BrokerRaftConfig] the node's state machine reads; durations
    are in nanoseconds, [nc_advertise_addr] is what
    [configured_local_raft_advertise_addr] returns and [nc_in_memory] whether
    the node runs on the in-memory transport. *)
Record RaftNodeConfig : Type := mkRaftNodeConfig {
  nc_node_id : string;
  nc_advertise_addr : string;
  nc_in_memory : bool;
  nc_election_timeout_min : Z;
  nc_election_timeout_max : Z;
  nc_snapshot_interval : Z;
  nc_snapshot_max_log_entries : Z;
  nc_snapshot_max_log_bytes : Z;
  nc_snapshot_max_log_age : Z;
  nc_trailing_log_entries : Z;
}.

(** The readings of the clocks a handler makes: [Instant::now] and
    [unix_ms]. *)
Record Clock : Type := mkClock {
  ck_now : Z;
  ck_unix_ms : Z;
}.

(** ** Runtime updates *)

Definition set_rt_term (term : Z) (r : RaftRuntimeState) : RaftRuntimeState :=
  mkRaftRuntimeState term (rt_voted_for r) (rt_role r) (rt_leader_id r) (rt_commit_index r)
    (rt_last_applied r) (rt_election_deadline r) (rt_leader_progress r) (rt_staged_learners r)
    (rt_membership r) (rt_local_voter_seen r).
Definition set_rt_voted_for (vote : option string) (r : RaftRuntimeState) : RaftRuntimeState :=
  mkRaftRuntimeState (rt_current_term r) vote (rt_role r) (rt_leader_id r) (rt_commit_index r)
    (rt_last_applied r) (rt_election_deadline r) (rt_leader_progress r) (rt_staged_learners r)
    (rt_membership r) (rt_local_voter_seen r).
Definition set_rt_role (role : RaftRole) (r : RaftRuntimeState) : RaftRuntimeState :=
  mkRaftRuntimeState (rt_current_term r) (rt_voted_for r) role (rt_leader_id r) (rt_commit_index r)
    (rt_last_applied r) (rt_election_deadline r) (rt_leader_progress r) (rt_staged_learners r)
    (rt_membership r) (rt_local_voter_seen r).
Definition set_rt_leader_id (id : option string) (r : RaftRuntimeState) : RaftRuntimeState :=
  mkRaftRuntimeState (rt_current_term r) (rt_voted_for r) (rt_role r) id (rt_commit_index r)
    (rt_last_applied r) (rt_election_deadline r) (rt_leader_progress r) (rt_staged_learners r)
    (rt_membership r) (rt_local_voter_seen r).
Definition set_rt_commit_index (i : Z) (r : RaftRuntimeState) : RaftRuntimeState :=
  mkRaftRuntimeState (rt_current_term r) (rt_voted_for r) (rt_role r) (rt_leader_id r) i
    (rt_last_applied r) (rt_election_deadline r) (rt_leader_progress r) (rt_staged_learners r)
    (rt_membership r) (rt_local_voter_seen r).
Definition set_rt_last_applied (i : Z) (r : RaftRuntimeState) : RaftRuntimeState :=
  mkRaftRuntimeState (rt_current_term r) (rt_voted_for r) (rt_role r) (rt_leader_id r)
    (rt_commit_index r) i (rt_election_deadline r) (rt_leader_progress r) (rt_staged_learners r)
    (rt_membership r) (rt_local_voter_seen r).
Definition set_rt_election_deadline (i : Z) (r : RaftRuntimeState) : RaftRuntimeState :=
  mkRaftRuntimeState (rt_current_term r) (rt_voted_for r) (rt_role r) (rt_leader_id r)
    (rt_commit_index r) (rt_last_applied r) i (rt_leader_progress r) (rt_staged_learners r)
    (rt_membership r) (rt_local_voter_seen r).
Definition set_rt_leader_progress (p : gmap string RaftPeerProgress) (r : RaftRuntimeState)
    : RaftRuntimeState :=
  mkRaftRuntimeState (rt_current_term r) (rt_voted_for r) (rt_role r) (rt_leader_id r)
    (rt_commit_index r) (rt_last_applied r) (rt_election_deadline r) p (rt_staged_learners r)
    (rt_membership r) (rt_local_voter_seen r).
Definition set_rt_staged_learners (l : gmap string RaftPeerConfig) (r : RaftRuntimeState)
    : RaftRuntimeState :=
  mkRaftRuntimeState (rt_current_term r) (rt_voted_for r) (rt_role r) (rt_leader_id r)
    (rt_commit_index r) (rt_last_applied r) (rt_election_deadline r) (rt_leader_progress r) l
    (rt_membership r) (rt_local_voter_seen r).
Definition set_rt_membership (m : RaftMembership) (seen : bool) (r : RaftRuntimeState)
    : RaftRuntimeState :=
  mkRaftRuntimeState (rt_current_term r) (rt_voted_for r) (rt_role r) (rt_leader_id r)
    (rt_commit_index r) (rt_last_applied r) (rt_election_deadline r) (rt_leader_progress r)
    (rt_staged_learners r) m seen.

(** [entry(id).or_insert(progress)] *)
Definition or_insert_progress (progress : RaftPeerProgress) (m : gmap string RaftPeerProgress)
    (id : string) : gmap string RaftPeerProgress :=
  if m !! id is Some _ then m else <[id := progress]> m.

(** [seed_leader_progress_for_current_membership] *)
Definition seed_leader_progress (local_id : string) (next_index : Z) (r : RaftRuntimeState)
    : RaftRuntimeState :=
  let peers := filter (fun peer => peer_id peer <> local_id) (active_peers (rt_membership r))
                 ++ into_values (rt_staged_learners r) in
  set_rt_leader_progress
    (foldl (fun m peer => <[peer_id peer := mkRaftPeerProgress next_index 0]> m) ∅ peers) r.

(** [accepts_active_peer] *)
Definition accepts_active_peer (r : RaftRuntimeState) (peer : RaftPeerConfig) : bool :=
  contains_peer (rt_membership r) peer.

(** [accepts_replication_peer] *)
Definition accepts_replication_peer (r : RaftRuntimeState) (peer : RaftPeerConfig) : bool :=
  accepts_active_peer r peer
  || match rt_staged_learners r !! peer_id peer with
     | Some learner => bool_decide (peer_addr learner = peer_addr peer)
     | None => false
     end.

(** ** Election deadlines *)

(** [election_timeout_and_jitter_for_config]: the timeout. *)
Definition election_timeout_for_config (config : RaftNodeConfig) (tick_ms : Z) : Z :=
  let spread := Z.max (nc_election_timeout_max config - nc_election_timeout_min config) 0 in
  let jitter_ms :=
    if bool_decide (spread = 0) then 0
    else
      let span := Z.max (spread / ns_per_ms) 1 mod 2 ^ 64 in
      stable_node_jitter (nc_node_id config) tick_ms mod span in
  nc_election_timeout_min config + jitter_ms * ns_per_ms.

(** [next_election_deadline] *)
Definition next_election_deadline (config : RaftNodeConfig) (clock : Clock) : Z :=
  ck_now clock + election_timeout_for_config config (ck_unix_ms clock).

(** ** The node *)

Section node.
Context `{LQ : LinkedQueueCrate} `{E : Env} `{D : RequestDigest} `{C : RaftCodec}.

Record RaftNode : Type := mkRaftNode {
  rn_config : RaftNodeConfig;
  rn_broker : World;
  rn_cache : CacheNode;
  rn_log : RaftLogStore;
  rn_runtime : RaftRuntimeState;
  rn_last_snapshot_at : Z;
}.

Definition set_rn_broker (w : World) (n : RaftNode) : RaftNode :=
  mkRaftNode (rn_config n) w (rn_cache n) (rn_log n) (rn_runtime n) (rn_last_snapshot_at n).
Definition set_rn_cache (c : CacheNode) (n : RaftNode) : RaftNode :=
  mkRaftNode (rn_config n) (rn_broker n) c (rn_log n) (rn_runtime n) (rn_last_snapshot_at n).
Definition set_rn_log (l : RaftLogStore) (n : RaftNode) : RaftNode :=
  mkRaftNode (rn_config n) (rn_broker n) (rn_cache n) l (rn_runtime n) (rn_last_snapshot_at n).
Definition set_rn_runtime (r : RaftRuntimeState) (n : RaftNode) : RaftNode :=
  mkRaftNode (rn_config n) (rn_broker n) (rn_cache n) (rn_log n) r (rn_last_snapshot_at n).

Definition set_rn_last_snapshot_at (at_ : Z) (n : RaftNode) : RaftNode :=
  mkRaftNode (rn_config n) (rn_broker n) (rn_cache n) (rn_log n) (rn_runtime n) at_.

Definition rn_state (n : RaftNode) : RaftLogState := ls_state (rn_log n).
Definition rn_retained_log_entries (n : RaftNode) : list RaftLogEntry :=
  retained_log_entries (rn_state n).
Definition rn_commit_index (n : RaftNode) : Z := rt_commit_index (rn_runtime n).
Definition rn_last_applied (n : RaftNode) : Z := rt_last_applied (rn_runtime n).

(** Run an operation of the log store, of the node's other files. *)
Definition on_log {A} (m : M RaftLogStore A) : M RaftNode A := fun n =>
  match m (rn_log n) with
  | Done a l => Done a (set_rn_log l n)
  | Panicked msg => Panicked msg
  | OutOfFuel => OutOfFuel
  end.

(** Update the runtime under its lock. *)
Definition modify_runtime (f : RaftRuntimeState -> RaftRuntimeState) : M RaftNode unit :=
  modify (fun n => set_rn_runtime (f (rn_runtime n)) n).

Definition set_rn_last_applied (i : Z) (n : RaftNode) : RaftNode :=
  set_rn_runtime (set_rt_last_applied i (rn_runtime n)) n.

(** [local_configured_peer] *)
Definition local_configured_peer (config : RaftNodeConfig) : RaftPeerConfig :=
  mkRaftPeerConfig (nc_node_id config) (nc_advertise_addr config).

(** [local_peer_is_active] *)
Definition local_peer_is_active (n : RaftNode) : bool :=
  accepts_active_peer (rn_runtime n) (local_configured_peer (rn_config n)).

(** [local_seen_voter_is_removed] *)
Definition local_seen_voter_is_removed (n : RaftNode) : bool :=
  rt_local_voter_seen (rn_runtime n) && negb (local_peer_is_active n).

(** [active_peer_sender_rejection_error] *)
Definition active_peer_sender_rejection_error (sender_role peer_id peer_addr : string) (n : RaftNode)
    : option string :=
  if bool_decide (peer_id = EmptyString) then
    Some ("raft " +:+ sender_role +:+ " sender is missing node id")%string
  else if bool_decide (peer_addr = EmptyString) then
    Some ("raft " +:+ sender_role +:+ " sender `" +:+ peer_id +:+ "` is missing node addr")%string
  else if bool_decide (peer_id = nc_node_id (rn_config n)) then
    Some ("raft " +:+ sender_role +:+ " sender `" +:+ peer_id +:+ "` is the local node")%string
  else if accepts_active_peer (rn_runtime n) (mkRaftPeerConfig peer_id peer_addr) then None
  else if contains_id (rt_membership (rn_runtime n)) peer_id then
    Some ("raft " +:+ sender_role +:+ " sender `" +:+ peer_id +:+ "` at `" +:+ peer_addr
      +:+ "` is not active at that address in current membership")%string
  else
    Some ("raft " +:+ sender_role +:+ " sender `" +:+ peer_id
      +:+ "` is not active in current membership")%string.

(** [retained_replication_floor_next_index] *)
Definition retained_replication_floor_next_index (s : RaftLogState) : Z :=
  match latest_snapshot s with
  | Some snapshot => saturating_add64 (sm_last_included_index snapshot) 1
  | None => 1
  end.

(** ** Membership commands *)

(** [persist_staged_learners_for_active_peers] *)
Definition persist_staged_learners_for_active_peers (learners active : list RaftPeerConfig)
    : M RaftNode (RaftResult unit) :=
  n ← get;
  match validate_staged_learner_peers_for_transport learners active (nc_in_memory (rn_config n)) with
  | RaftErr err => errR err
  | RaftOk learners => on_log (on_disk (write_staged_learners learners))
  end.

(** [restore_staged_learners_after_membership_preflight_failure] *)
Definition restore_staged_learners_after_membership_preflight_failure
    (previous_staged_learners previous_active_peers : list RaftPeerConfig) (reason : string)
    (original_error : BrokerRaftError) : M RaftNode BrokerRaftError :=
  res ← persist_staged_learners_for_active_peers previous_staged_learners previous_active_peers;
  match res with
  | RaftOk _ => mret original_error
  | RaftErr restore_err =>
      mret (ERpc ("raft membership apply failed during " +:+ reason +:+ ": "
        +:+ error_display original_error +:+ "; failed to restore staged learners sidecar: "
        +:+ error_display restore_err)%string)
  end.

Definition is_active_vote (active_ids : gset string) (vote : option string) : bool :=
  match vote with Some id => bool_decide (id ∈ active_ids) | None => true end.

(** [is_some_and(|addr| addr != peer.addr)] *)
Definition addr_changed (previous : option string) (peer : RaftPeerConfig) : bool :=
  match previous with
  | Some previous_addr => bool_decide (previous_addr <> peer_addr peer)
  | None => false
  end.

(** The block of [apply_membership] that updates the runtime. *)
Definition adopt_membership (config : RaftNodeConfig) (membership : RaftMembership)
    (next_index : Z) (r : RaftRuntimeState) : RaftRuntimeState :=
  let peers := active_peers membership in
  let active_ids : gset string := list_to_set (peer_id <$> peers) in
  let self_is_active := contains_peer membership (local_configured_peer config) in
  let previous_active_addrs : gmap string string :=
    foldl (fun m peer => <[peer_id peer := peer_addr peer]> m) ∅ (active_peers (rt_membership r)) in
  let changed_active_peer_ids :=
    peer_id <$> filter (fun peer => peer_id peer <> nc_node_id config /\
      addr_changed (previous_active_addrs !! peer_id peer) peer) peers in
  let r := set_rt_membership membership (rt_local_voter_seen r || self_is_active) r in
  let progress := filter (fun kv : string * RaftPeerProgress =>
    kv.1 ∈ active_ids /\ kv.1 <> nc_node_id config) (rt_leader_progress r) in
  let progress := foldl (fun m id => delete id m) progress changed_active_peer_ids in
  let r := set_rt_leader_progress progress r in
  let r := set_rt_staged_learners
    (filter (fun kv : string * RaftPeerConfig => kv.1 ∉ active_ids) (rt_staged_learners r)) r in
  let r := if is_active_vote active_ids (rt_leader_id r) then r else set_rt_leader_id None r in
  let r := if is_active_vote active_ids (rt_voted_for r) then r else set_rt_voted_for None r in
  let r := if bool_decide (rt_role r = Leader) then
             set_rt_leader_progress
               (foldl (or_insert_progress (mkRaftPeerProgress next_index 0)) (rt_leader_progress r)
                  (peer_id <$> filter (fun peer => peer_id peer <> nc_node_id config) peers)) r
           else r in
  if self_is_active then r
  else set_rt_staged_learners ∅ (set_rt_leader_progress ∅ (set_rt_voted_for None
         (set_rt_leader_id None (set_rt_role Follower r)))).

(** [BrokerRaft::apply_membership] *)
Definition apply_membership (membership : RaftMembership) : M RaftNode (RaftResult unit) :=
  n ← get;
  match validate_raft_membership_for_transport membership (nc_in_memory (rn_config n)) with
  | RaftErr err => errR err
  | RaftOk membership =>
      let config := rn_config n in
      let r := rn_runtime n in
      let peers := active_peers membership in
      let active_ids : gset string := list_to_set (peer_id <$> peers) in
      let next_index := saturating_add64 (last_index (rn_state n)) 1 in
      let self_is_active := contains_peer membership (local_configured_peer config) in
      let durable_commit_index :=
        Z.max (hs_commit_index (hard_state (rn_state n))) (snapshot_index_of (rn_state n)) in
      let previous_staged_learners := into_values (rt_staged_learners r) in
      let previous_active_peers := validation_peers (rt_membership r) in
      let staged_learners :=
        if self_is_active then filter (fun peer => peer_id peer ∉ active_ids) previous_staged_learners
        else [] in
      let clears_vote := negb self_is_active || negb (is_active_vote active_ids (rt_voted_for r)) in
      let restore reason err :=
        err ← restore_staged_learners_after_membership_preflight_failure previous_staged_learners
          previous_active_peers reason err;
        errR err in
      persist_staged_learners_for_active_peers staged_learners peers ;;?
      res ← (if clears_vote then
               on_log (write_hard_state_clearing_vote
                 (mkRaftHardState (rt_current_term r) None (Z.max (rt_commit_index r) durable_commit_index)))
             else okR tt);
      match res with
      | RaftErr err => restore "hard-state"%string err
      | RaftOk _ =>
          res ← (if self_is_active && negb (rt_local_voter_seen r)
                 then on_log (on_disk write_local_voter_seen) else okR tt);
          match res with
          | RaftErr err => restore "local-voter-marker"%string err
          | RaftOk _ =>
              modify_runtime (adopt_membership config membership next_index) ;;
              okR tt
          end
      end
  end.

(** The block of [apply_staged_learners] that updates the runtime. *)
Definition adopt_staged_learners (learners active : list RaftPeerConfig) (initial_next_index : Z)
    (r : RaftRuntimeState) : RaftRuntimeState :=
  let active_ids : gset string := list_to_set (peer_id <$> active) in
  let learner_ids : gset string := list_to_set (peer_id <$> learners) in
  let changed_learner_ids :=
    peer_id <$> filter (fun peer =>
      addr_changed (peer_addr <$> rt_staged_learners r !! peer_id peer) peer) learners in
  let progress := foldl (fun m id => delete id m) (rt_leader_progress r) changed_learner_ids in
  let progress := filter (fun kv : string * RaftPeerProgress =>
    kv.1 ∈ active_ids \/ kv.1 ∈ learner_ids) progress in
  let progress :=
    if bool_decide (rt_role r = Leader) then
      foldl (or_insert_progress (mkRaftPeerProgress initial_next_index 0)) progress
        (peer_id <$> learners)
    else progress in
  set_rt_leader_progress progress
    (set_rt_staged_learners (foldl (fun m peer => <[peer_id peer := peer]> m) ∅ learners) r).

(** [BrokerRaft::apply_staged_learners] *)
Definition apply_staged_learners (learners : list RaftPeerConfig) : M RaftNode (RaftResult unit) :=
  n ← get;
  let active := validation_peers (rt_membership (rn_runtime n)) in
  match validate_staged_learner_peers_for_transport learners active (nc_in_memory (rn_config n)) with
  | RaftErr err => errR err
  | RaftOk learners =>
      let initial_next_index := retained_replication_floor_next_index (rn_state n) in
      persist_staged_learners_for_active_peers learners active ;;?
      modify_runtime (adopt_staged_learners learners active initial_next_index) ;;
      okR tt
  end.

End node.

(** * What the membership commands keep *)

Section node.
Context `{LQ : LinkedQueueCrate} `{E : Env} `{D : RequestDigest} `{C : RaftCodec}.

(** The retained log, the snapshot and the commit index are what they were. *)
Definition log_same (n n' : RaftNode) : Prop :=
  rn_retained_log_entries n' = rn_retained_log_entries n /\
  latest_snapshot (rn_state n') = latest_snapshot (rn_state n) /\
  rn_commit_index n' = rn_commit_index n.
Definition index_same (n n' : RaftNode) : Prop :=
  log_same n n' /\ rn_last_applied n' = rn_last_applied n.

#[global] Instance index_same_preorder : PreOrder index_same.
Proof.
  split; [by intros n|]. intros n1 n2 n3 ((H1 & H2 & H3) & H4) ((H5 & H6 & H7) & H8).
  repeat split; congruence.
Qed.

(** ... and so are the broker and the response cache. *)
Definition broker_same (n n' : RaftNode) : Prop :=
  index_same n n' /\ rn_broker n' = rn_broker n /\ rn_cache n' = rn_cache n.

#[global] Instance broker_same_preorder : PreOrder broker_same.
Proof.
  split; [by intros n|]. intros n1 n2 n3 (H1 & H2 & H3) (H4 & H5 & H6).
  split_and!; [by etrans|congruence..].
Qed.

(** The retained log and the snapshot of a store. *)
Definition retained_same (st st' : RaftLogStore) : Prop :=
  retained_log_entries (ls_state st') = retained_log_entries (ls_state st) /\
  latest_snapshot (ls_state st') = latest_snapshot (ls_state st).

#[global] Instance retained_same_preorder : PreOrder retained_same.
Proof.
  split; [by intros n|]. intros n1 n2 n3 (H1 & H2) (H3 & H4). split; congruence.
Qed.

Lemma keeps_on_disk {A} (m : M Disk A) : keeps retained_same (on_disk m).
Proof. intros st a st'. unfold on_disk. destruct (m (ls_disk st)); intros [= <- <-]. done. Qed.

Lemma keeps_write_hard_state state policy :
  keeps retained_same (write_hard_state_with_vote_policy state policy).
Proof.
  unfold write_hard_state_with_vote_policy. apply keeps_bind; [apply _|apply keeps_get; apply _|].
  intros st. cbv zeta. apply keeps_bindR; [apply _|apply keeps_ret; apply _|]. intros next.
  repeat case_match; try (apply keeps_ret; apply _);
    (apply keeps_bindR; [apply _|apply keeps_on_disk|]; intros _;
     apply keeps_bind; [apply _|apply keeps_modify; [apply _|by intros]|]; intros _; apply keeps_ret; apply _).
Qed.

Lemma keeps_on_log {A} (m : M RaftLogStore A) :
  keeps retained_same m -> keeps broker_same (on_log m).
Proof.
  intros Hm n a n'. unfold on_log. destruct (m (rn_log n)) as [b l| |] eqn:Heq; intros [= <- <-].
  apply Hm in Heq as [H1 H2]. done.
Qed.

Lemma keeps_modify_runtime f :
  (forall r, rt_commit_index (f r) = rt_commit_index r) ->
  (forall r, rt_last_applied (f r) = rt_last_applied r) ->
  keeps broker_same (modify_runtime f).
Proof.
  intros H1 H2. apply keeps_modify; [apply _|]. intros n. unfold broker_same, index_same, log_same,
    rn_commit_index, rn_last_applied. simpl. by rewrite H1, H2.
Qed.

Lemma keeps_persist l a : keeps broker_same (persist_staged_learners_for_active_peers l a).
Proof.
  unfold persist_staged_learners_for_active_peers.
  apply keeps_bind; [apply _|apply keeps_get; apply _|]. intros n.
  case_match; [apply keeps_on_log, keeps_on_disk|apply keeps_ret; apply _].
Qed.

Lemma keeps_restore l a reason err :
  keeps broker_same (restore_staged_learners_after_membership_preflight_failure l a reason err).
Proof.
  unfold restore_staged_learners_after_membership_preflight_failure.
  apply keeps_bind; [apply _|apply keeps_persist|]. intros [|]; apply keeps_ret; apply _.
Qed.

Lemma adopt_membership_indexes config m i r :
  rt_commit_index (adopt_membership config m i r) = rt_commit_index r /\
  rt_last_applied (adopt_membership config m i r) = rt_last_applied r.
Proof. unfold adopt_membership. cbv zeta. repeat case_match; done. Qed.

Hint Resolve keeps_persist keeps_restore keeps_on_log keeps_on_disk keeps_write_hard_state : keeps.

Lemma keeps_apply_membership m : keeps broker_same (apply_membership m).
Proof.
  unfold apply_membership. apply keeps_bind; [apply _|apply keeps_get; apply _|]. intros n.
  destruct (validate_raft_membership_for_transport _ _); [|apply keeps_ret; apply _]. cbv zeta.
  apply keeps_bindR; [apply _|auto with keeps|]. intros _.
  apply keeps_bind; [apply _|case_match; [|apply keeps_ret; apply _]|].
  { apply keeps_on_log, keeps_write_hard_state. }
  intros [_|err]; [|apply keeps_bind; [apply _|auto with keeps|intros; apply keeps_ret; apply _]].
  apply keeps_bind; [apply _|case_match; [|apply keeps_ret; apply _]|]; [auto with keeps|].
  intros [_|err]; [|apply keeps_bind; [apply _|auto with keeps|intros; apply keeps_ret; apply _]].
  apply keeps_bind; [apply _|apply keeps_modify_runtime|intros; apply keeps_ret; apply _];
    intros r; apply adopt_membership_indexes.
Qed.

Lemma keeps_apply_staged_learners l : keeps broker_same (apply_staged_learners l).
Proof.
  unfold apply_staged_learners. apply keeps_bind; [apply _|apply keeps_get; apply _|]. intros n.
  cbv zeta. destruct (validate_staged_learner_peers_for_transport _ _ _); [|apply keeps_ret; apply _].
  apply keeps_bindR; [apply _|auto with keeps|]. intros _.
  apply keeps_bind; [apply _|by apply keeps_modify_runtime|intros; apply keeps_ret; apply _].
Qed.

(** ** They return *)

Lemma returns_io effect all : returns (io_call effect all).
Proof. intros d. unfold io_call. repeat case_match; eauto. Qed.

Lemma returns_on_disk {A} (m : M Disk A) : returns m -> returns (on_disk m).
Proof. intros Hm st. destruct (Hm (ls_disk st)) as (a & d & H). unfold on_disk. rewrite H. eauto. Qed.

Lemma returns_on_log {A} (m : M RaftLogStore A) : returns m -> returns (on_log m).
Proof. intros Hm n. destruct (Hm (rn_log n)) as (a & l & H). unfold on_log. rewrite H. eauto. Qed.

Hint Resolve returns_io returns_on_disk returns_on_log : returns.

Ltac node_returns :=
  repeat first [progress returns_split | apply returns_on_disk | apply returns_on_log].

Lemma returns_write_hard_state state policy :
  returns (write_hard_state_with_vote_policy state policy).
Proof.
  unfold write_hard_state_with_vote_policy, check, modify_state, write_hard_state_commit_slot,
    write_hard_state_json, io_gate, io_atomic.
  node_returns.
Qed.

Lemma returns_persist l a : returns (persist_staged_learners_for_active_peers l a).
Proof.
  unfold persist_staged_learners_for_active_peers, write_staged_learners, io_atomic. node_returns.
Qed.

Lemma returns_restore l a reason err :
  returns (restore_staged_learners_after_membership_preflight_failure l a reason err).
Proof.
  apply returns_bind; [apply returns_persist|]. intros [|]; apply returns_ret.
Qed.

Hint Resolve returns_write_hard_state returns_persist returns_restore : returns.

Lemma returns_apply_membership m : returns (apply_membership m).
Proof.
  unfold apply_membership, write_hard_state_clearing_vote, write_local_voter_seen, modify_runtime,
    io_atomic.
  node_returns.
Qed.

Lemma returns_apply_staged_learners l : returns (apply_staged_learners l).
Proof. unfold apply_staged_learners, modify_runtime. node_returns. Qed.

End node.
