(* ===== verification/RaftApply.v ===== *)
(** * Applying the committed log

    [src/src/broker_raft.rs]: [entries_range] (3637-3675) and
    [apply_committed] (18775-18863), which brings the broker, the response
    cache and the membership up to the commit index in chunks.  Telemetry and
    log lines are left out. *)

From S2P Require Import Prelude Text Monad Protocol Queue BrokerTypes BrokerState Broker BrokerOps.
From S2P Require Import BrokerSnapshot.
From S2P Require Import RaftQuorum RaftGrant RaftValidate RaftCache RaftFiles RaftLog RaftNode.
From stdpp Require Import options.

Definition APPLY_COMMITTED_CHUNK_ENTRIES : Z := 1024.

Section node.
Context `{LQ : LinkedQueueCrate} `{E : Env} `{D : RequestDigest} `{C : RaftCodec}.

(** The responses observed between two points of a broker's trace. *)
Definition observed_since (w w' : World) : list Response.t :=
  omap (fun e => match e with Observed r => Some r | _ => None end)
    (drop (length (trace w)) (trace w')).

(** Run an operation of the broker.  The observer the node installs
    (5461-5467) records each response in the cache; the broker never reads the
    cache, so the records are made, in order, when the operation is over. *)
Definition on_broker {A} (m : M World A) : M RaftNode A := fun n =>
  match m (rn_broker n) with
  | Done a w' =>
      let c := foldl observe_client_response_cache (node_cache (rn_cache n))
                 (observed_since (rn_broker n) w') in
      Done a (set_rn_cache (with_cache c (rn_cache n)) (set_rn_broker w' n))
  | Panicked msg => Panicked msg
  | OutOfFuel => OutOfFuel
  end.

(** Run a method of the response cache. *)
Definition on_cache {A} (m : M CacheNode A) : M RaftNode A := fun n =>
  match m (rn_cache n) with
  | Done a c' => Done a (set_rn_cache c' n)
  | Panicked msg => Panicked msg
  | OutOfFuel => OutOfFuel
  end.

(** [RaftLogStore::entries_range] *)
Definition entries_range (start_index end_index : Z) : M RaftNode (RaftResult (list RaftLogEntry)) :=
  n ← get;
  match entries_range_of (rn_retained_log_entries n) (snapshot_index_of (rn_state n))
          start_index end_index with
  | None => panic "slice index starts after its end"
  | Some res => mret res
  end.

(** The arm of [apply_committed] for one command. *)
Definition apply_command (command : RaftCommand) : M RaftNode (RaftResult unit) :=
  match command with
  | Noop => mret (RaftOk tt)
  | ClientRequest client_id request grant =>
      on_broker (apply_client_request client_id request grant) ;;
      mret (RaftOk tt)
  | ClientRequestWithIdentity client_id request grant request_id request_fingerprint =>
      res ← on_cache (begin_client_request_apply request_id request_fingerprint);
      match res with
      | RaftOk true =>
          on_broker (apply_client_request client_id request grant) ;;
          mret (RaftOk tt)
      | RaftOk false => mret (RaftOk tt)
      | RaftErr err => mret (RaftErr err)
      end
  | DropClient client_id => on_broker (drop_client client_id) ;; mret (RaftOk tt)
  | SetMembership membership => apply_membership membership
  | SetStagedLearners learners => apply_staged_learners learners
  end.

(** The inner loop of [apply_committed]: stops at the first error, with
    [last_applied] at the entry before it. *)
Fixpoint apply_entries (entries : list RaftLogEntry) : M RaftNode (RaftResult unit) :=
  match entries with
  | [] => mret (RaftOk tt)
  | entry :: entries =>
      res ← apply_command (le_command entry);
      match res with
      | RaftErr err => mret (RaftErr err)
      | RaftOk _ =>
          modify (set_rn_last_applied (le_index entry)) ;;
          apply_entries entries
      end
  end.

(** The outer loop of [apply_committed]. *)
Fixpoint apply_committed_loop (fuel : nat) : M RaftNode (RaftResult unit) :=
  match fuel with
  | O => out_of_fuel
  | S fuel =>
      n ← get;
      let start_index := saturating_add64 (rn_last_applied n) 1 in
      let commit_index := rn_commit_index n in
      if bool_decide (commit_index < start_index) then mret (RaftOk tt)
      else
        let end_index := Z.min commit_index
          (saturating_sub64 (saturating_add64 start_index APPLY_COMMITTED_CHUNK_ENTRIES) 1) in
        res ← entries_range start_index end_index;
        match res with
        | RaftErr err => mret (RaftErr err)
        | RaftOk [] =>
            modify (set_rn_last_applied end_index) ;;
            apply_committed_loop fuel
        | RaftOk entries =>
            res ← apply_entries entries;
            match res with
            | RaftErr err => mret (RaftErr err)
            | RaftOk _ => apply_committed_loop fuel
            end
        end
  end.

(** [BrokerRaft::apply_committed]: every turn advances [last_applied]. *)
Definition apply_committed : M RaftNode (RaftResult unit) :=
  n ← get;
  apply_committed_loop (S (Z.to_nat (rn_commit_index n - rn_last_applied n))).

End node.
