(* ===== verification/RaftApplyFacts.v ===== *)
(** * Properties of the application of the committed log *)

From S2P Require Import Prelude Text Monad Protocol Queue BrokerTypes BrokerState Broker BrokerOps.
From S2P Require Import BrokerSpec BrokerFencing BrokerSim BrokerRefine.
From S2P Require Import BrokerRuns BrokerClients BrokerTheorems.
From S2P Require Import BrokerSnapshot BrokerSnapshotTheorems.
From S2P Require Import RaftQuorum RaftGrant RaftValidate RaftCache RaftCacheFacts RaftFiles RaftLog.
From S2P Require Import RaftLogFacts RaftExamples RaftNode RaftApply.
From stdpp Require Import options.

(** ** [apply_committed] *)

Section apply.
Context `{LQ : LinkedQueueCrate} `{E : Env} `{D : RequestDigest} `{C : RaftCodec}.

Lemma keeps_on_broker {A} (m : M World A) : keeps index_same (on_broker m).
Proof.
  intros n a n'. unfold on_broker. destruct (m (rn_broker n)); intros [= <- <-]. done.
Qed.

Lemma keeps_on_cache {A} (m : M CacheNode A) : keeps index_same (on_cache m).
Proof.
  intros n a n'. unfold on_cache. destruct (m (rn_cache n)); intros [= <- <-]. done.
Qed.

Lemma keeps_apply_command cmd : keeps index_same (apply_command cmd).
Proof.
  destruct cmd; simpl; 
    [..|eapply keeps_mono, keeps_apply_membership; by intros ?? [? _]
       |eapply keeps_mono, keeps_apply_staged_learners; by intros ?? [? _]].
  - apply keeps_ret. apply _.
  - apply keeps_bind; [apply _|apply keeps_on_broker|]. intros. apply keeps_ret. apply _.
  - apply keeps_bind; [apply _|apply keeps_on_cache|].
    intros [[]|]; try (apply keeps_ret; apply _).
    apply keeps_bind; [apply _|apply keeps_on_broker|]. intros. apply keeps_ret. apply _.
  - apply keeps_bind; [apply _|apply keeps_on_broker|]. intros. apply keeps_ret. apply _.
Qed.

Lemma apply_entries_app es1 es2 n :
  apply_entries (es1 ++ es2) n =
  match apply_entries es1 n with
  | Done (RaftOk _) n' => apply_entries es2 n'
  | r => r
  end.
Proof.
  revert n. induction es1 as [|e es1 IH]; intros n; [done|]. simpl.
  unfold mbind, M_bind. destruct (apply_command (le_command e) n) as [[[]|err] n1| |]; try done.
  apply IH.
Qed.

(** A chunk that applies brings [last_applied] to its last entry. *)
Lemma apply_entries_ok first es n n' :
  contiguous first es -> apply_entries es n = Done (RaftOk tt) n' ->
  log_same n n' /\
  rn_last_applied n' = if bool_decide (es = []) then rn_last_applied n
                       else first + Z.of_nat (length es) - 1.
Proof.
  revert first n. induction es as [|e es IH]; intros first n Hc Ha; simpl in Ha.
  { injection Ha as <-. done. }
  destruct Hc as [He Hc]. unfold mbind, M_bind in Ha.
  destruct (apply_command (le_command e) n) as [[[]|err] n1| |] eqn:Hcmd; try done.
  apply keeps_apply_command in Hcmd as [(H1 & H2 & H3) _]. unfold modify in Ha.
  apply (IH (first + 1)) in Ha as [(H4 & H5 & H6) H7]; [|done].
  unfold rn_commit_index, rn_last_applied, rn_retained_log_entries, rn_state in *. simpl in *.
  unfold log_same, rn_commit_index, rn_retained_log_entries, rn_state.
  split; [split_and!; congruence|]. rewrite H7. case_bool_decide; subst; simpl; lia.
Qed.

(** The log holds every entry between [last_applied] and [commit_index]. *)
Definition log_covers (n : RaftNode) : Prop :=
  exists first, 0 < first <= rn_last_applied n + 1 /\
    contiguous first (rn_retained_log_entries n) /\
    rn_commit_index n < first + Z.of_nat (length (rn_retained_log_entries n)).

(** The entries that are committed and not applied. *)
Definition unapplied (n : RaftNode) : list RaftLogEntry :=
  between (rn_last_applied n + 1) (rn_commit_index n) (rn_retained_log_entries n).

Lemma entries_range_ok n s e :
  log_covers n -> rn_last_applied n + 1 = s -> s <= e <= rn_commit_index n ->
  rn_commit_index n < u64_max ->
  entries_range s e n = Done (RaftOk (between s e (rn_retained_log_entries n))) n.
Proof.
  intros (first & Hf & Hc & Hlen) Hs He Hmax.
  unfold entries_range. rewrite (bind_done get _ n n n eq_refl). unfold entries_range_of.
  rewrite bool_decide_eq_false_2 by lia. unfold entries_range_cached.
  rewrite bool_decide_eq_false_2 by lia.
  rewrite Z.max_l by lia. destruct (range_between s e first _ Hc) as [Hb ->]; [lia|].
  rewrite bool_decide_eq_false_2 by lia.
  destruct (between_contiguous s e first _ Hc) as [Hb1 Hb2]; [lia..|].
  rewrite (covered_through_contiguous _ s); [|done|..|lia|rewrite Hb2; lia].
  - rewrite bool_decide_eq_false_2; [done|]. rewrite Hb2. lia.
  - case_bool_decide; unfold saturating_sub64; lia.
Qed.

Lemma apply_committed_loop_eq fuel n :
  log_covers n -> rn_commit_index n < u64_max ->
  (Z.to_nat (rn_commit_index n - rn_last_applied n) < fuel)%nat ->
  apply_committed_loop fuel n = apply_entries (unapplied n) n.
Proof.
  revert n. induction fuel as [|fuel IH]; intros n Hcov Hmax Hfuel; [lia|]. pose proof Hcov as (first & Hf & Hc & Hlen).
  cbn [RaftApply.apply_committed_loop]. rewrite (bind_done get _ n n n eq_refl).
  destruct (decide (rn_commit_index n < rn_last_applied n + 1)) as [Hdone|Hmore].
  { rewrite bool_decide_eq_true_2 by (unfold saturating_add64; lia).
    unfold unapplied, between. rewrite filter_none; [done|]. intros x _. lia. }
  rewrite saturating_add64_small by lia. rewrite bool_decide_eq_false_2 by lia.
  set (s := rn_last_applied n + 1) in *.
  set (e := Z.min _ (saturating_sub64 _ _)).
  assert (s <= e <= rn_commit_index n) as He.
  { subst e. unfold saturating_sub64, saturating_add64, APPLY_COMMITTED_CHUNK_ENTRIES. lia. }
  rewrite (bind_done _ _ _ _ _ (entries_range_ok n s e Hcov eq_refl He Hmax)).
  unfold unapplied. fold s.
  rewrite (between_split s e (rn_commit_index n) first) by (done || lia).
  rewrite apply_entries_app.
  destruct (between_contiguous s e first _ Hc) as [Hb1 Hb2]; [lia..|].
  destruct (between s e _) as [|x chunk] eqn:Hchunk; [simpl in Hb2; lia|].
  unfold mbind, M_bind at 1.
  destruct (apply_entries (x :: chunk) n) as [[[]|err] n1| |] eqn:Ha; try done.
  destruct (apply_entries_ok s _ _ _ Hb1 Ha) as [(H1 & H2 & H3) H4].
  rewrite bool_decide_eq_false_2 in H4 by done. rewrite IH.
  - unfold unapplied. rewrite H1, H3, H4, Hb2. do 2 f_equal. lia.
  - exists first. rewrite H1, H3, H4, Hb2. split; [lia|done].
  - lia.
  - lia.
Qed.

(** C21: [apply_committed] terminates and, whatever the chunk size, does exactly
    what applying the committed entries one by one in index order does: same
    state, same outcome, stopping at the first error; when it succeeds every
    committed entry has been applied. *)
Theorem apply_committed_in_order n :
  log_covers n -> rn_commit_index n < u64_max ->
  apply_committed n = apply_entries (unapplied n) n /\
  forall n', apply_committed n = Done (RaftOk tt) n' ->
    rn_last_applied n' = Z.max (rn_last_applied n) (rn_commit_index n).
Proof.
  intros Hcov Hmax. assert (apply_committed n = apply_entries (unapplied n) n) as Heq.
  { unfold RaftApply.apply_committed. rewrite (bind_done get _ n n n eq_refl).
    apply apply_committed_loop_eq; [done..|lia]. }
  split; [done|]. intros n'. rewrite Heq. intros Ha. destruct Hcov as (first & Hf & Hc & Hlen).
  destruct (decide (rn_commit_index n < rn_last_applied n + 1)).
  { unfold unapplied, between in Ha. rewrite filter_none in Ha by (intros x _; lia).
    injection Ha as <-. lia. }
  unfold unapplied in Ha.
  destruct (between_contiguous (rn_last_applied n + 1) (rn_commit_index n) first _ Hc) as [Hb1 Hb2];
    [lia..|].
  destruct (apply_entries_ok _ _ _ _ Hb1 Ha) as [_ ->].
  rewrite bool_decide_eq_false_2, Hb2; [lia|]. intros He. rewrite He in Hb2. simpl in Hb2. lia.
Qed.

(** ** Replayed requests *)

(** The request is known to have been applied. *)
Definition known (id f : string) (c : ClientResponseCacheState) : Prop :=
  exists r, cache_entries c !! id = Some (mkCachedClientResponse f true r).

Lemma known_observe id f c rs :
  known id f c -> known id f (foldl observe_client_response_cache c rs).
Proof.
  revert c. induction rs as [|r rs IH]; intros c [r0 Hk]; [by eexists|]. simpl. apply IH.
  unfold observe_client_response_cache. destruct (decide (Response.correlation_uuid r = id)) as [->|Hne].
  - rewrite Hk. exists (Some r). simpl. apply lookup_insert_eq.
  - case_match; [|by eexists]. exists r0. simpl. by rewrite lookup_insert_ne.
Qed.

Lemma begin_apply_known id f n b n' :
  cache_ok (node_cache n) -> begin_client_request_apply id f n = Done (RaftOk b) n' ->
  known id f (node_cache n').
Proof.
  intros Hok. rewrite begin_apply_eq. destruct (cache_entries (node_cache n) !! id) as [e|] eqn:He.
  - case_bool_decide as Hf; [done|]. destruct (cr_applied e) eqn:Ha; intros [= <- <-].
    + exists (cr_response e). destruct e. simpl in *. congruence.
    + exists (cr_response e). simpl. rewrite lookup_insert_eq. by rewrite Hf.
  - intros [= <- <-]. exists None.
    apply trim_keeps; [by apply cache_ok_push_entry|apply lookup_insert_eq|].
    unfold evictable. simpl. by rewrite lookup_insert_eq.
Qed.

(** An entry that repeats the request id and fingerprint of the entry just
    applied changes nothing -- not the lock table, not the clients, not the
    cache -- whatever client, request and grant it carries. *)
Theorem repeated_entry_is_noop n n' id f c1 r1 g1 c2 r2 g2 :
  cache_ok (node_cache (rn_cache n)) ->
  apply_command (ClientRequestWithIdentity c1 r1 g1 id f) n = Done (RaftOk tt) n' ->
  apply_command (ClientRequestWithIdentity c2 r2 g2 id f) n' = Done (RaftOk tt) n'.
Proof.
  intros Hok Ha. assert (known id f (node_cache (rn_cache n'))) as [r Hk].
  { revert Ha. simpl. unfold mbind, M_bind, on_cache.
    destruct (begin_client_request_apply id f (rn_cache n)) as [[[]|] c'| |] eqn:Hb; try done.
    - unfold on_broker. destruct (apply_client_request c1 r1 g1 _) as [[] w'| |]; try done.
      intros [= <-]. simpl. apply known_observe. by eapply begin_apply_known.
    - intros [= <-]. simpl. by eapply begin_apply_known. }
  simpl. unfold mbind, M_bind, on_cache. rewrite begin_apply_eq, Hk. simpl.
  rewrite bool_decide_eq_false_2 by (intros H; by apply H). by destruct n'.
Qed.

(** ** Replicas refine the lock-table specification *)

Section refinement.
Context (limit : Z).

(** A command within its types: no request asks for more than [limit]
    holders, and the seed of a grant is unsigned. *)
Definition command_ok (command : RaftCommand) : Prop :=
  match command with
  | ClientRequest _ request grant | ClientRequestWithIdentity _ request grant _ _ =>
      request_ok (any_seed limit) request /\
      forall s, grant ≫= gp_fencing_seed = Some s -> 0 <= s
  | _ => True
  end.

(** Steps of the specification between two nodes' lock tables. *)
Definition node_refines (n n' : RaftNode) : Prop :=
  good (any_seed limit) (rn_broker n') /\
  star (astep (any_seed limit)) (rn_broker n, 0) (rn_broker n', 0).

Lemma on_broker_refines (m : M World unit) n :
  sim (any_seed limit) m (rn_broker n) 0 settled -> good (any_seed limit) (rn_broker n) ->
  exists n', on_broker m n = Done tt n' /\ node_refines n n'.
Proof.
  intros Hs Hg. specialize (Hs Hg). apply wp_done in Hs as ([] & w' & Hd & owed & Hg' & Hst & ->).
  unfold on_broker. rewrite Hd. eexists. split; [done|]. by split.
Qed.

Lemma apply_request_refines c r g n :
  request_ok (any_seed limit) r -> (forall s, g ≫= gp_fencing_seed = Some s -> 0 <= s) ->
  good (any_seed limit) (rn_broker n) ->
  exists n', on_broker (apply_client_request c r g) n = Done tt n' /\ node_refines n n'.
Proof.
  intros Hr Hseed Hg. apply on_broker_refines; [|done].
  apply handle_request_sim; [done|simpl; lia|intros s o; apply any_seed_add|done|].
  simpl. destruct (g ≫= gp_fencing_seed); [by apply Hseed|done].
Qed.

Lemma begin_apply_returns id f c :
  exists r c', begin_client_request_apply id f c = Done r c'.
Proof. rewrite begin_apply_eq. repeat case_match; eauto. Qed.

Lemma apply_command_refines cmd n :
  command_ok cmd -> good (any_seed limit) (rn_broker n) ->
  exists r n', apply_command cmd n = Done r n' /\
    node_refines n n'.
Proof.
  intros Hok Hg. assert (forall n', rn_broker n' = rn_broker n -> node_refines n n') as Hsame.
  { intros n' Heq. unfold node_refines. rewrite Heq. split; [done|constructor]. }
  destruct cmd as [|c r g|c r g id f|c|m|l]; simpl in *.
  - eexists _, n. split; [done|]. by apply Hsame.
  - destruct Hok. destruct (apply_request_refines c r g n) as (n' & Hd & Hn); [done..|].
    exists (RaftOk tt), n'. by rewrite (bind_done _ _ _ _ _ Hd).
  - destruct Hok as [Hr Hs]. destruct (begin_apply_returns id f (rn_cache n)) as (res & c' & Hb).
    rewrite (bind_done (on_cache _) _ n res (set_rn_cache c' n))
      by (unfold on_cache; by rewrite Hb).
    destruct res as [[]|err]; [|by eexists _, _; split; [done|]; apply Hsame..].
    destruct (apply_request_refines c r g (set_rn_cache c' n)) as (n' & Hd & Hn); [done..|].
    exists (RaftOk tt), n'. by rewrite (bind_done _ _ _ _ _ Hd).
  - destruct (on_broker_refines (drop_client c) n) as (n' & Hd & Hn); [|done|].
    + apply drop_client_sim; [done|simpl; lia|intros s o; apply any_seed_add].
    + exists (RaftOk tt), n'. by rewrite (bind_done _ _ _ _ _ Hd).
  - destruct (returns_apply_membership m n) as (a & n' & Hd). exists a, n'. split; [done|].
    apply Hsame. by eapply keeps_apply_membership.
  - destruct (returns_apply_staged_learners l n) as (a & n' & Hd). exists a, n'. split; [done|].
    apply Hsame. by eapply keeps_apply_staged_learners.
Qed.

(** C4: every replica implements the lock-table specification: from a sound
    lock table, applying any sequence of committed entries returns -- no
    panic, no unbounded loop -- and its effect on the lock table is a sequence
    of the specification's steps ending in a sound lock table, whichever
    entries repeat a request, fail or were planned by another leader. *)
Theorem replica_refines_spec entries n :
  Forall (fun entry => command_ok (le_command entry)) entries ->
  good (any_seed limit) (rn_broker n) ->
  exists r n', apply_entries entries n = Done r n' /\
    good (any_seed limit) (rn_broker n') /\
    star (astep (any_seed limit)) (rn_broker n, 0) (rn_broker n', 0).
Proof.
  intros Hall. revert n. induction Hall as [|e es He _ IH]; intros n Hg.
  { eexists _, n. split_and!; [done..|constructor]. }
  destruct (apply_command_refines _ n He Hg) as (r & n1 & Hd & Hg1 & Hs1).
  simpl. rewrite (bind_done _ _ _ _ _ Hd). destruct r as [[]|err]; [|eauto].
  destruct (IH (set_rn_last_applied (le_index e) n1) Hg1) as (r & n2 & Hd2 & Hg2 & Hs2).
  exists r, n2. split_and!; [done..|]. by eapply star_app.
Qed.

End refinement.
End apply.

(** ** The theorems at a concrete log *)

#[local] Existing Instance list_queue.
#[local] Existing Instance demo_env.
#[local] Existing Instance demo_value_codec.
#[local] Existing Instance demo_raft_codec.
#[local] Existing Instance demo_digest.

(** The entries a leader appends for [commands], from [index] on. *)
Fixpoint planned_log (index : Z) (commands : list RaftCommand) : list RaftLogEntry :=
  match commands with
  | [] => []
  | command :: commands =>
      mkRaftLogEntry index 1 0 (command_with_deterministic_grant command index)
        :: planned_log (index + 1) commands
  end.

(** A log store with these entries on an empty disk. *)
Definition demo_store (entries : list RaftLogEntry) : RaftLogStore :=
  let maps := term_indexes_from_entries entries in
  mkRaftLogStore true true 0
    (mkRaftLogState (log_end entries None).1 (log_end entries None).2 default_hard_state 0 None ∅ ∅
       entries (serialized_log_entry_lens entries) maps.1.1 maps.1.2 maps.2 None)
    (mkDisk (Some (serialized_log_entries_buffer_and_lens entries).1) None None None None None [] false).

Definition demo_peers : list RaftPeerConfig :=
  [mkRaftPeerConfig "n1" "10.0.0.1:7001"; mkRaftPeerConfig "n2" "10.0.0.2:7001";
   mkRaftPeerConfig "n3" "10.0.0.3:7001"].

Definition demo_config : RaftNodeConfig := mkRaftNodeConfig "n1" "10.0.0.1:7001" false 0 0 0 0 0 0 0.

(** A node with broker [w] that has the log of [commands] and has applied
    nothing. *)
Definition node_with (w : World) (commands : list RaftCommand) : RaftNode :=
  mkRaftNode demo_config w (demo_node 8) (demo_store (planned_log 1 commands))
    (mkRaftRuntimeState 1 None Follower None (Z.of_nat (length commands)) 0 0 ∅ ∅
       (Simple demo_peers) true) 0.

Definition fresh_node (commands : list RaftCommand) : RaftNode :=
  node_with (Broker_new BrokerConfig_default true) commands.

Definition demo_commands : list RaftCommand :=
  [Noop;
   ClientRequestWithIdentity 5 (lock_request "r1" "a" None) None "r1" "f1";
   ClientRequestWithIdentity 6 (composite_request "r2" ["b"; "a"]) None "r2" "f2";
   ClientRequestWithIdentity 5 (lock_request "r1" "a" None) None "r1" "f1";
   DropClient 5].

Lemma planned_log_contiguous index commands : contiguous index (planned_log index commands).
Proof. revert index. induction commands as [|c cs IH]; intros index; simpl; [done|]. split; [done|apply IH]. Qed.

Lemma fresh_node_covers commands : log_covers (fresh_node commands).
Proof.
  exists 1. split; [done|]. split; [apply planned_log_contiguous|].
  change (Z.of_nat (length commands) < 1 + Z.of_nat (length (planned_log 1 commands))).
  assert (forall i, length (planned_log i commands) = length commands) as Hl.
  { induction commands as [|c cs IH]; intros i; [done|]. simpl. f_equal. apply IH. }
  rewrite Hl. lia.
Qed.

Lemma apply_committed_in_order_witness :
  apply_committed (fresh_node demo_commands) =
  apply_entries (planned_log 1 demo_commands) (fresh_node demo_commands).
Proof.
  refine (proj1 (apply_committed_in_order (fresh_node demo_commands) _ _)).
  - apply fresh_node_covers.
  - vm_compute. reflexivity.
Defined.

Definition after_request (n : RaftNode) : RaftNode :=
  default n (run_state (apply_command
    (ClientRequestWithIdentity 5 (lock_request "r1" "a" None) None "r1" "f1")) n).

Lemma repeated_entry_is_noop_witness :
  apply_command
    (ClientRequestWithIdentity 9 (lock_request "r1" "a" None) None "r1" "f1")
    (after_request (fresh_node [])) =
  Done (RaftOk tt) (after_request (fresh_node [])).
Proof.
  apply (repeated_entry_is_noop (fresh_node []) _ "r1" "f1"
           5 (lock_request "r1" "a" None) None).
  - apply cache_ok_default.
  - vm_compute. reflexivity.
Defined.

Lemma replica_refines_spec_witness :
  exists r n', apply_entries (planned_log 1 demo_commands)
      (fresh_node demo_commands) = Done r n' /\
    star (astep (any_seed 1)) (Broker_new BrokerConfig_default true, 0) (rn_broker n', 0).
Proof.
  destruct (replica_refines_spec 1 (planned_log 1 demo_commands) (fresh_node demo_commands))
    as (r & n' & H1 & _ & H2).
  - repeat constructor; simpl; intros; simplify_eq; vm_compute; discriminate.
  - apply good_new. split; simpl; [unfold u32_max, DEFAULT_MAX_CONCURRENCY_CAP; lia|lia].
  - exists r, n'. split; [exact H1|exact H2].
Defined.
