(* ===== verification/RaftNodeOps.v ===== *)
(** * Snapshots, votes and terms of a node

    [src/src/broker_raft.rs]: the application of an installed snapshot
    (13938-14043, 22884-22945), of the durable commit index (18703-18749) and
    of committed entries with compaction (18865-19244), [step_down]
    (20934-21025), the vote handlers (12021-12337, 25075-25094), the candidate
    (14130-14411) and the opening of a node (5273-5571, 1870-2029).

    Each function runs as one step: what other threads may do between two of
    its critical sections is left out, as are telemetry, log lines and the
    caches published for readers.  A function reads each clock once. *)

From S2P Require Import Prelude Text Monad Protocol Queue BrokerTypes BrokerState Broker BrokerOps.
From S2P Require Import BrokerSnapshot.
From S2P Require Import RaftQuorum RaftGrant RaftValidate RaftCache RaftFiles RaftLog RaftNode.
From S2P Require Import RaftApply.
From stdpp Require Import options.
Import Membership.

Definition RAFT_CONTEXT_VALIDATION_CHUNK_ENTRIES : Z := 1024.

Inductive RaftRpcResponse : Type :=
| PreVoteResponse (term : Z) (vote_granted : bool)
| RequestVoteResponse (term : Z) (vote_granted : bool)
| AppendEntriesResponse (term : Z) (success : bool) (match_index : Z)
    (conflict_index conflict_term : option Z)
| InstallSnapshotResponse (term : Z) (success : bool) (last_included_index : Z)
| ProxyResponse (term : Z) (response : option Response.t) (error leader_id leader_addr : option string)
| ErrorResponse (term : Z) (error : string).

(** [map_err(BrokerRaftError::BrokerSnapshot)] *)
Definition broker_result {A} (r : Result A) : RaftResult A :=
  match r with ROk a => RaftOk a | RErr e => RaftErr (EBrokerSnapshot e) end.

Section ops.
Context `{LQ : LinkedQueueCrate} `{E : Env} `{D : RequestDigest} `{C : RaftCodec}.

(** ** Snapshots *)

(** [RaftLogStore::latest_snapshot_file], when no other thread replaces the
    snapshot meanwhile; the message's path and metadata are left out. *)
Definition latest_snapshot_file : M RaftLogStore (RaftResult (option RaftSnapshotFile)) :=
  snapshot ←? on_disk read_snapshot_file;
  st ← get;
  if snapshot_file_matches_metadata snapshot (latest_snapshot (ls_state st)) then okR snapshot
  else errR (EInvalidLog "raft snapshot file metadata does not match the latest snapshot metadata").

(** [membership_from_snapshot_payload_for_transport] *)
Definition membership_from_snapshot_payload (payload : Value) (allow_memory_peer_addrs : bool)
    : RaftResult (option RaftMembership) :=
  match value_get payload "membership" with
  | None => RaftOk None
  | Some value =>
      membership ← membership_from_value value;
      membership ← validate_raft_membership_for_transport membership allow_memory_peer_addrs;
      RaftOk (Some membership)
  end.

(** [staged_learners_from_snapshot_payload_with_fallback_active_peers] *)
Definition staged_learners_from_snapshot_payload (payload : Value) (allow_memory_peer_addrs : bool)
    (fallback_active_peers : list RaftPeerConfig) : RaftResult (option (list RaftPeerConfig)) :=
  match value_get payload "stagedLearners" with
  | None => RaftOk None
  | Some value =>
      learners ← learners_from_value value;
      membership ← membership_from_snapshot_payload payload allow_memory_peer_addrs;
      let active_peers := match membership with
                          | Some membership => validation_peers membership
                          | None => fallback_active_peers
                          end in
      learners ← validate_staged_learner_peers_for_transport learners active_peers
                   allow_memory_peer_addrs;
      RaftOk (Some learners)
  end.

(** [BrokerRaft::apply_installed_snapshot_payload] *)
Definition apply_installed_snapshot_payload (installed_index : Z) (payload : Value)
    : M RaftNode (RaftResult unit) :=
  n ← get;
  let allow := nc_in_memory (rn_config n) in
  mret (broker_result (validate_raft_snapshot_payload payload)) ;;?
  snapshot_membership ←? mret (membership_from_snapshot_payload payload allow);
  snapshot_learners ←? mret (staged_learners_from_snapshot_payload payload allow
    (validation_peers (rt_membership (rn_runtime n))));
  let snapshot_learner_side_effect :=
    match snapshot_learners, snapshot_membership with
    | Some learners, _ => Some learners
    | None, Some _ => Some []
    | None, None => None
    end in
  responses ←? mret (client_responses_from_snapshot_payload payload);
  mret (validate_snapshot_client_response_entries responses) ;;?
  let r := rn_runtime n in
  let next_commit := Z.max (rt_commit_index r) installed_index in
  let should_apply := bool_decide (rt_last_applied r < installed_index) in
  (if bool_decide (next_commit <> rt_commit_index r)
   then on_log (write_hard_state (mkRaftHardState (rt_current_term r) (rt_voted_for r) next_commit))
   else okR tt) ;;?
  (if should_apply then
     match snapshot_membership with
     | Some membership => apply_membership membership
     | None => okR tt
     end ;;?
     match snapshot_learner_side_effect with
     | Some learners => apply_staged_learners learners
     | None => okR tt
     end ;;?
     on_cache (restore_client_response_cache responses) ;;?
     res ← on_broker (install_raft_snapshot payload);
     mret (broker_result res)
   else okR tt) ;;?
  modify_runtime (fun r =>
    set_rt_last_applied (Z.max (rt_last_applied r) installed_index)
      (set_rt_commit_index (Z.max (rt_commit_index r) installed_index) r)) ;;
  okR tt.

(** [RaftLogStore::compact_through_for_retained_age] *)
Definition compact_through_for_retained_age (now_ms max_age max_through_index : Z)
    : M RaftLogStore (option Z) :=
  st ← get;
  let '(compact_through, cache) :=
    compact_through_for_retained_age_cached_incremental (retained_log_entries (ls_state st))
      (age_compaction_cache (ls_state st)) now_ms (duration_ms_u64 max_age) max_through_index in
  modify_state (set_age_cache cache) ;;
  mret compact_through.

(** The last part of [snapshot_and_compact_if_needed]: a new snapshot at the
    commit index, and the compaction it allows. *)
Definition take_snapshot_and_compact (clock : Clock) (commit_index current_term through : Z)
    : M RaftNode (RaftResult unit) :=
  n ← get;
  match term_at_index (rn_state n) commit_index with
  | None =>
      errR (EInvalidLog ("committed index " +:+ pretty commit_index
        +:+ " is missing from retained log and latest snapshot")%string)
  | Some snapshot_term =>
      if bool_decide (current_term < snapshot_term) then
        errR (EInvalidLog ("committed index " +:+ pretty commit_index +:+ " has future term "
          +:+ pretty snapshot_term +:+ " above current term " +:+ pretty current_term)%string)
      else
        broker_metrics ← on_broker metrics;
        res ← on_broker snapshot_for_raft;
        broker_snapshot ←? mret (broker_result res);
        n ← get;
        let payload := snapshot_payload_value (nc_node_id (rn_config n))
          (rt_membership (rn_runtime n)) (into_values (rt_staged_learners (rn_runtime n)))
          (client_response_snapshot_entries (node_cache (rn_cache n))) broker_snapshot broker_metrics in
        on_log (write_snapshot commit_index snapshot_term payload (ck_unix_ms clock)) ;;?
        on_log (compact_through through) ;;?
        modify (set_rn_last_snapshot_at (ck_now clock)) ;;
        okR tt
  end.

(** [BrokerRaft::snapshot_and_compact_if_needed] *)
Definition snapshot_and_compact_if_needed (clock : Clock) : M RaftNode (RaftResult unit) :=
  n ← get;
  let config := rn_config n in
  let commit_index := rn_commit_index n in
  let bytes := Z.of_nat (length (default [] (d_log (ls_disk (rn_log n))))) in
  let elapsed := instant_saturating_since (ck_now clock) (rn_last_snapshot_at n) in
  let retained_entries := length (rn_retained_log_entries n) in
  if bool_decide (retained_entries = 0%nat) then okR tt
  else
    let entries_threshold_reached :=
      bool_decide (0 < nc_snapshot_max_log_entries config)
      && bool_decide (nc_snapshot_max_log_entries config <= Z.of_nat retained_entries) in
    let bytes_threshold_reached :=
      bool_decide (0 < nc_snapshot_max_log_bytes config)
      && bool_decide (nc_snapshot_max_log_bytes config <= bytes) in
    age ← on_log (compact_through_for_retained_age (ck_unix_ms clock)
            (nc_snapshot_max_log_age config) commit_index);
    let age_retention_compact_through := default 0 age in
    let compaction_pressure_reached :=
      entries_threshold_reached || bytes_threshold_reached
      || bool_decide (0 < age_retention_compact_through) in
    let cadence_due := bool_decide (nc_snapshot_interval config <= elapsed) in
    if negb compaction_pressure_reached && negb cadence_due then okR tt
    else if bool_decide (commit_index = 0) then okR tt
    else if bool_decide (rn_last_applied n < commit_index) then okR tt
    else
      let latest_snapshot_index := snapshot_index_of (rn_state n) in
      let count_retention_compact_through :=
        saturating_sub64 commit_index (nc_trailing_log_entries config) in
      byte_retention ←?
        (if bytes_threshold_reached then
           mret (compact_through_for_retained_byte_budget_cached (rn_retained_log_entries n)
                   (retained_log_entry_bytes (rn_state n)) (nc_snapshot_max_log_bytes config)
                   commit_index)
         else okR None);
      let through := Z.max (Z.max count_retention_compact_through (default 0 byte_retention))
                       age_retention_compact_through in
      if bool_decide (through = 0) then okR tt
      else if bool_decide (through <= latest_snapshot_index) then
        let covered_entries := retained_entry_upper_bound (rn_retained_log_entries n) through in
        (if bool_decide (0 < covered_entries)%nat
         then on_log (compact_through through) ;;? okR tt else okR tt) ;;?
        modify (set_rn_last_snapshot_at (ck_now clock)) ;;
        okR tt
      else
        take_snapshot_and_compact clock commit_index (rt_current_term (rn_runtime n)) through.

(** [BrokerRaft::apply_committed_and_maybe_compact_locked] *)
Definition apply_committed_and_maybe_compact (clock : Clock) (compact_after_apply : bool)
    : M RaftNode (RaftResult unit) :=
  apply_committed ;;?
  if compact_after_apply then snapshot_and_compact_if_needed clock else okR tt.

(** [BrokerRaft::apply_visible_durable_commit_index] *)
Definition apply_visible_durable_commit_index (clock : Clock) : M RaftNode (RaftResult unit) :=
  n ← get;
  let durable_commit_index := hs_commit_index (hard_state (rn_state n)) in
  if bool_decide (durable_commit_index = 0) then okR tt
  else
    match latest_snapshot (rn_state n) with
    | Some snapshot =>
        let snapshot_index := sm_last_included_index snapshot in
        if bool_decide (snapshot_index <= durable_commit_index)
           && bool_decide (rn_last_applied n < snapshot_index) then
          snapshot_file ←? on_log latest_snapshot_file;
          match snapshot_file with
          | None =>
              errR (EInvalidLog ("latest snapshot metadata at index " +:+ pretty snapshot_index
                +:+ " has no snapshot file")%string)
          | Some snapshot_file =>
              apply_installed_snapshot_payload (sm_last_included_index (sf_metadata snapshot_file))
                (sf_payload snapshot_file)
          end
        else okR tt
    | None => okR tt
    end ;;?
    modify_runtime (fun r => set_rt_commit_index (Z.max (rt_commit_index r) durable_commit_index) r) ;;
    n ← get;
    if bool_decide (rn_last_applied n < rn_commit_index n)
    then apply_committed_and_maybe_compact clock false else okR tt.

(** ** Terms and votes *)

(** [BrokerRaft::step_down] *)
Definition step_down (clock : Clock) (term : Z) (leader_id : option string) : M RaftNode unit :=
  n ← get;
  let config := rn_config n in
  let r := rn_runtime n in
  if bool_decide (rt_current_term r <= term) then
    let leader_id :=
      match leader_id with
      | Some id => if negb (bool_decide (id = nc_node_id config)) && contains_id (rt_membership r) id
                   then Some id else None
      | None => None
      end in
    let next_voted_for := if bool_decide (rt_current_term r < term) then None else rt_voted_for r in
    res ← on_log (write_hard_state (mkRaftHardState term next_voted_for (rt_commit_index r)));
    match res with
    | RaftErr _ => mret tt
    | RaftOk _ =>
        n ← get;
        let durable_commit_index := hs_commit_index (hard_state (rn_state n)) in
        modify_runtime (fun r =>
          set_rt_election_deadline (next_election_deadline config clock)
            (set_rt_commit_index (Z.max (rt_commit_index r) durable_commit_index)
               (set_rt_leader_id leader_id (set_rt_voted_for next_voted_for
                  (set_rt_role Follower (set_rt_term term r)))))) ;;
        n ← get;
        if bool_decide (rn_last_applied n < rn_commit_index n)
        then apply_committed_and_maybe_compact clock false ;; mret tt
        else mret tt
    end
  else mret tt.

(** [malformed_vote_request_reason] *)
Definition malformed_vote_request_reason (term last_log_index last_log_term : Z) : option string :=
  if bool_decide (term = 0) then Some "term must be >= 1"%string
  else if bool_decide (last_log_index = 0) && bool_decide (last_log_term <> 0) then
    Some "lastLogTerm must be 0 when lastLogIndex is 0"%string
  else if bool_decide (0 < last_log_index) && bool_decide (last_log_term = 0) then
    Some "lastLogTerm must be >= 1 when lastLogIndex is nonzero"%string
  else if bool_decide (term < last_log_term) then
    Some "lastLogTerm cannot exceed request term"%string
  else None.

(** The node knows of another leader it has heard of recently. *)
Definition other_leader_fresh (clock : Clock) (candidate_id : string) (r : RaftRuntimeState) : bool :=
  match rt_leader_id r with
  | Some leader_id => negb (bool_decide (leader_id = candidate_id))
                      && bool_decide (ck_now clock < rt_election_deadline r)
  | None => false
  end.

(** [BrokerRaft::handle_pre_vote_from_peer] *)
Definition handle_pre_vote_from_peer (clock : Clock) (term : Z) (candidate_id candidate_addr : string)
    (last_log_index last_log_term : Z) : M RaftNode RaftRpcResponse :=
  match malformed_vote_request_reason term last_log_index last_log_term with
  | Some _ => n ← get; mret (PreVoteResponse (rt_current_term (rn_runtime n)) false)
  | None =>
      res ← apply_visible_durable_commit_index clock;
      n ← get;
      let r := rn_runtime n in
      let refuse := PreVoteResponse (rt_current_term r) false in
      match res with
      | RaftErr err => mret (ErrorResponse (rt_current_term r) (error_display err))
      | RaftOk _ =>
          if negb (local_peer_is_active n) then mret refuse
          else if active_peer_sender_rejection_error "pre-vote candidate" candidate_id candidate_addr n
                  is Some _ then mret refuse
          else if bool_decide (term < rt_current_term r) then mret refuse
          else if other_leader_fresh clock candidate_id r then mret refuse
          else mret (PreVoteResponse (rt_current_term r)
                 (candidate_log_is_fresh_for_state (rn_state n) last_log_index last_log_term))
      end
  end.

(** The middle of [handle_request_vote_from_peer], under the runtime's lock:
    the vote is decided, persisted and recorded.  [inl] is an early response,
    [inr] whether the vote was granted and whether the commit index may have
    to be applied. *)
Definition decide_vote (clock : Clock) (term : Z) (candidate_id candidate_addr : string)
    (last_log_index last_log_term : Z) : M RaftNode (RaftRpcResponse + bool * bool) :=
  n ← get;
  let r := rn_runtime n in
  let current_term := rt_current_term r in
  let refuse : RaftRpcResponse + bool * bool := inl (RequestVoteResponse current_term false) in
  if negb (local_peer_is_active n) then mret refuse
  else if active_peer_sender_rejection_error "vote candidate" candidate_id candidate_addr n
          is Some _ then mret refuse
  else if bool_decide (term < current_term) then mret refuse
  else if bool_decide (term = current_term) && other_leader_fresh clock candidate_id r then mret refuse
  else
    let response_term := Z.max current_term term in
    let newer := bool_decide (current_term < term) in
    let can_vote := newer || match rt_voted_for r with
                             | None => true
                             | Some voted_for => bool_decide (voted_for = candidate_id)
                             end in
    let no_vote := mkRaftHardState response_term None (rt_commit_index r) in
    res ← (if can_vote then
             on_log (write_vote_hard_state_if_candidate_log_is_fresh
               (mkRaftHardState response_term (Some candidate_id) (rt_commit_index r))
               (if newer then Some no_vote else None) last_log_index last_log_term)
           else if newer then on_log (write_hard_state no_vote) ;;? okR false
           else okR false);
    match res with
    | RaftErr err => mret (inl (ErrorResponse current_term (error_display err)))
    | RaftOk granted =>
        let next_voted_for := if (granted : bool) then Some candidate_id
                              else if newer then None else rt_voted_for r in
        modify_runtime (fun r : RaftRuntimeState =>
          let r := if newer then set_rt_leader_id None (set_rt_role Follower (set_rt_term term r)) else r in
          let r := if granted
                   then set_rt_election_deadline (next_election_deadline (rn_config n) clock)
                          (set_rt_leader_id None r)
                   else r in
          set_rt_voted_for next_voted_for r) ;;
        mret (inr (granted, newer || granted))
    end.

(** The end of [handle_request_vote_from_peer], under the runtime's lock: a
    vote is reported only while the node still stands by it. *)
Definition vote_response (granted : bool) (response_term : Z) (candidate : RaftPeerConfig)
    (n : RaftNode) : RaftRpcResponse :=
  let r := rn_runtime n in
  RequestVoteResponse (Z.max (rt_current_term r) response_term)
    (granted && bool_decide (rt_current_term r = response_term) && local_peer_is_active n
     && accepts_active_peer r candidate && bool_decide (rt_voted_for r = Some (peer_id candidate))).

(** [BrokerRaft::handle_request_vote_from_peer] *)
Definition handle_request_vote_from_peer (clock : Clock) (term : Z)
    (candidate_id candidate_addr : string) (last_log_index last_log_term : Z)
    : M RaftNode RaftRpcResponse :=
  match malformed_vote_request_reason term last_log_index last_log_term with
  | Some _ => n ← get; mret (RequestVoteResponse (rt_current_term (rn_runtime n)) false)
  | None =>
      res ← apply_visible_durable_commit_index clock;
      n ← get;
      match res with
      | RaftErr err => mret (ErrorResponse (rt_current_term (rn_runtime n)) (error_display err))
      | RaftOk _ =>
          let response_term := Z.max (rt_current_term (rn_runtime n)) term in
          decided ← decide_vote clock term candidate_id candidate_addr last_log_index last_log_term;
          match decided with
          | inl response => mret response
          | inr (granted, sync_after_vote) =>
              res ← (if (sync_after_vote : bool) then apply_visible_durable_commit_index clock else okR tt);
              n ← get;
              let r := rn_runtime n in
              match res with
              | RaftErr err => mret (ErrorResponse (rt_current_term r) (error_display err))
              | RaftOk _ =>
                  mret (vote_response granted response_term
                          (mkRaftPeerConfig candidate_id candidate_addr) n)
              end
          end
      end
  end.

(** ** Candidates *)

Record RaftPreVoteRound : Type := mkRaftPreVoteRound {
  pr_current_term : Z;
  pr_pre_vote_term : Z;
  pr_membership : RaftMembership;
}.

Record RaftCandidateRound : Type := mkRaftCandidateRound {
  cr_term : Z;
  cr_membership : RaftMembership;
}.

(** [BrokerRaft::begin_pre_vote_round] *)
Definition begin_pre_vote_round (clock : Clock) : M RaftNode (RaftResult (option RaftPreVoteRound)) :=
  apply_visible_durable_commit_index clock ;;?
  n ← get;
  let r := rn_runtime n in
  if negb (local_peer_is_active n) then okR None
  else okR (Some (mkRaftPreVoteRound (rt_current_term r) (saturating_add64 (rt_current_term r) 1)
                    (rt_membership r))).

(** The block of [begin_candidate_election] under the runtime's lock. *)
Definition start_candidacy (clock : Clock) : M RaftNode (RaftResult (option RaftCandidateRound)) :=
  n ← get;
  if negb (local_peer_is_active n) then okR None
  else
    let r := rn_runtime n in
    let config := rn_config n in
    let term := saturating_add64 (rt_current_term r) 1 in
    on_log (write_hard_state (mkRaftHardState term (Some (nc_node_id config)) (rt_commit_index r))) ;;?
    modify_runtime (fun r =>
      set_rt_election_deadline (next_election_deadline config clock)
        (set_rt_leader_id None (set_rt_voted_for (Some (nc_node_id config))
           (set_rt_term term (set_rt_role Candidate r))))) ;;
    okR (Some (mkRaftCandidateRound term (rt_membership r))).

(** The candidate is still running the round. *)
Definition still_candidate (round : RaftCandidateRound) (n : RaftNode) : bool :=
  let r := rn_runtime n in
  bool_decide (rt_current_term r = cr_term round) && bool_decide (rt_role r = Candidate)
  && bool_decide (rt_membership r = cr_membership round) && local_peer_is_active n.

(** [BrokerRaft::begin_candidate_election] *)
Definition begin_candidate_election (clock : Clock) : M RaftNode (RaftResult (option RaftCandidateRound)) :=
  apply_visible_durable_commit_index clock ;;?
  round ←? start_candidacy clock;
  match round with
  | None => okR None
  | Some round =>
      apply_visible_durable_commit_index clock ;;?
      n ← get;
      if still_candidate round n then okR (Some round) else okR None
  end.

(** [BrokerRaft::observe_higher_election_peer_term] *)
Definition observe_higher_election_peer_term (clock : Clock) (peer : RaftPeerConfig)
    (expected_current_term response_term : Z) : M RaftNode bool :=
  if bool_decide (response_term <= expected_current_term) then mret false
  else
    n ← get;
    if bool_decide (rt_current_term (rn_runtime n) <> expected_current_term) then mret false
    else if negb (accepts_active_peer (rn_runtime n) peer) then mret false
    else step_down clock response_term None ;; mret true.

(** The body of the loops of [run_pre_vote] and [start_election] for the next
    answer to a vote request, its term and whether it grants the vote ([None]
    when the request failed or was answered otherwise): the votes so far, or
    [None] when the round is over.  A vote counts when it is granted in the
    term the candidate expects; a higher term makes it step down. *)
Definition on_election_response (clock : Clock) (expected_term : Z) (still : RaftNode -> bool)
    (votes : gset string) (peer : RaftPeerConfig) (answer : option (Z * bool))
    : M RaftNode (option (gset string)) :=
  let keep_going votes := n ← get; mret (if still n then Some votes else None) in
  match answer with
  | Some (peer_term, vote_granted) =>
      if bool_decide (expected_term < peer_term) then
        stepped_down ← observe_higher_election_peer_term clock peer expected_term peer_term;
        mret (if stepped_down : bool then None else Some votes)
      else if bool_decide (peer_term < expected_term) then keep_going votes
      else keep_going (if vote_granted : bool then {[peer_id peer]} ∪ votes else votes)
  | None => keep_going votes
  end.

(** The loop of [start_election]. *)
Definition on_vote_response (clock : Clock) (round : RaftCandidateRound) (votes : gset string)
    (peer : RaftPeerConfig) (response : option RaftRpcResponse) : M RaftNode (option (gset string)) :=
  on_election_response clock (cr_term round) (still_candidate round) votes peer
    match response with
    | Some (RequestVoteResponse peer_term vote_granted) => Some (peer_term, vote_granted)
    | Some (ErrorResponse peer_term _) => Some (peer_term, false)
    | _ => None
    end.

(** The pre-vote round is still the one that was begun. *)
Definition still_same_round (round : RaftPreVoteRound) (n : RaftNode) : bool :=
  let r := rn_runtime n in
  bool_decide (rt_current_term r = pr_current_term round)
  && bool_decide (rt_membership r = pr_membership round) && local_peer_is_active n.

(** The loop of [run_pre_vote]. *)
Definition on_pre_vote_response (clock : Clock) (round : RaftPreVoteRound) (votes : gset string)
    (peer : RaftPeerConfig) (response : option RaftRpcResponse) : M RaftNode (option (gset string)) :=
  on_election_response clock (pr_current_term round) (still_same_round round) votes peer
    match response with
    | Some (PreVoteResponse peer_term vote_granted) => Some (peer_term, vote_granted)
    | Some (ErrorResponse peer_term _) => Some (peer_term, false)
    | _ => None
    end.

(** The end of [run_pre_vote]. *)
Definition pre_vote_granted (round : RaftPreVoteRound) (votes : gset string) (n : RaftNode) : bool :=
  still_same_round round n && quorum_met (pr_membership round) votes.

(** The end of [start_election]: the candidate with a quorum of votes that is
    still running the round leads the term. *)
Definition become_leader (round : RaftCandidateRound) (votes : gset string) : M RaftNode bool :=
  if quorum_met (cr_membership round) votes then
    n ← get;
    let next_index := saturating_add64 (last_index (rn_state n)) 1 in
    if still_candidate round n then
      modify_runtime (fun r =>
        seed_leader_progress (nc_node_id (rn_config n)) next_index
          (set_rt_leader_id (Some (nc_node_id (rn_config n))) (set_rt_role Leader r))) ;;
      mret true
    else mret false
  else mret false.

End ops.
