(* ===== verification/RaftFollower.v ===== *)
(** * A follower: AppendEntries and InstallSnapshot

    [src/src/broker_raft.rs]: the follower's side of AppendEntries
    (12391-12522, 12598-12807, 12828-12984, 1621-1660), and of InstallSnapshot
    (12986-13262, 13786-13833, 13853-13937): its checks of the
    sender and the installation of a payload whose chunks have all arrived and
    whose checksum has been verified.  The staging of the chunks in files is
    left out.

    As in [RaftNodeOps], a function runs as one step and reads each clock
    once; telemetry, log lines and caches are left out. *)

From S2P Require Import Prelude Text Monad Protocol Queue BrokerTypes BrokerState Broker BrokerOps.
From S2P Require Import BrokerSnapshot.
From S2P Require Import RaftQuorum RaftGrant RaftValidate RaftCache RaftFiles RaftLog RaftNode.
From S2P Require Import RaftApply RaftNodeOps.
From stdpp Require Import options.
Import Membership.

(** ** The membership along the log *)

(** [validate_staged_learner_entries_against_membership] *)
Fixpoint validate_staged_learner_entries_against_membership (membership : RaftMembership)
    (entries : list RaftLogEntry) (allow_memory_peer_addrs : bool) : RaftResult RaftMembership :=
  match entries with
  | [] => RaftOk membership
  | entry :: entries =>
      membership ←
        match le_command entry with
        | SetMembership next_membership =>
            map_err (fun err => EInvalidAppendEntries ("entry index " +:+ pretty (le_index entry)
                +:+ " has invalid membership command: " +:+ error_display err)%string)
              (validate_raft_membership_for_transport next_membership allow_memory_peer_addrs)
        | SetStagedLearners learners =>
            _ ← map_err (fun err => EInvalidAppendEntries ("entry index " +:+ pretty (le_index entry)
                  +:+ " has staged learners invalid for active membership: "
                  +:+ error_display err)%string)
                (validate_staged_learner_peers_for_transport learners (validation_peers membership)
                   allow_memory_peer_addrs);
            RaftOk membership
        | _ => RaftOk membership
        end;
      validate_staged_learner_entries_against_membership membership entries allow_memory_peer_addrs
  end.

Definition is_membership_command (command : RaftCommand) : bool :=
  match command with SetMembership _ | SetStagedLearners _ => true | _ => false end.

Section ops.
Context `{LQ : LinkedQueueCrate} `{E : Env} `{D : RequestDigest} `{C : RaftCodec}.

(** The loop of [validate_append_entries_staged_learners] over the entries
    between the last one applied and the first one sent.  At [u64::MAX] the
    code's loop does not end. *)
Fixpoint learner_context_loop (fuel : nat) (allow : bool) (context_start prev_log_index : Z)
    (membership : RaftMembership) : M RaftNode (RaftResult RaftMembership) :=
  match fuel with
  | O => out_of_fuel
  | S fuel =>
      if bool_decide (prev_log_index < context_start) then okR membership
      else
        let context_end := Z.min prev_log_index
          (saturating_sub64 (saturating_add64 context_start RAFT_CONTEXT_VALIDATION_CHUNK_ENTRIES) 1) in
        context_entries ←? entries_range context_start context_end;
        membership ←? mret (validate_staged_learner_entries_against_membership membership
                              context_entries allow);
        learner_context_loop fuel allow (saturating_add64 context_end 1) prev_log_index membership
  end.

(** [BrokerRaft::validate_append_entries_staged_learners] *)
Definition validate_append_entries_staged_learners (prev_log_index : Z) (entries : list RaftLogEntry)
    : M RaftNode (RaftResult unit) :=
  if negb (existsb (fun entry => is_membership_command (le_command entry)) entries) then okR tt
  else
    n ← get;
    let last_applied := rn_last_applied n in
    let allow := nc_in_memory (rn_config n) in
    let first_unapplied := saturating_add64 last_applied 1 in
    membership ←? learner_context_loop (S (Z.to_nat (prev_log_index + 1 - first_unapplied))) allow
                    first_unapplied prev_log_index (rt_membership (rn_runtime n));
    _ ←? mret (validate_staged_learner_entries_against_membership membership
      (filter (fun entry => last_applied < le_index entry /\ prev_log_index < le_index entry) entries)
      allow);
    okR tt.

(** ** AppendEntries *)

Record AppendEntriesFromPeer : Type := mkAppendEntriesFromPeer {
  ae_term : Z;
  ae_leader_id : string;
  ae_leader_addr : string;
  ae_prev_log_index : Z;
  ae_prev_log_term : Z;
  ae_entries : list RaftLogEntry;
  ae_leader_commit : Z;
}.

(** The node follows the leader in the term, and the leader is a voter. *)
Definition follows (sender_role : string) (term : Z) (leader_id leader_addr : string) (n : RaftNode)
    : bool :=
  let r := rn_runtime n in
  bool_decide (rt_current_term r = term) && bool_decide (rt_role r = Follower)
  && bool_decide (rt_leader_id r = Some leader_id)
  && match active_peer_sender_rejection_error sender_role leader_id leader_addr n with
     | Some _ => false
     | None => true
     end.

(** The node knows another leader of its term. *)
Definition other_leader_known (leader_id : string) (r : RaftRuntimeState) : bool :=
  match rt_leader_id r with
  | Some known_leader_id => negb (bool_decide (known_leader_id = leader_id))
  | None => false
  end.

(** A leader's higher term is persisted, without a vote, and entered. *)
Definition enter_leader_term (term : Z) : M RaftNode (RaftResult unit) :=
  n ← get;
  let r := rn_runtime n in
  if bool_decide (rt_current_term r < term) then
    on_log (write_hard_state (mkRaftHardState term None (rt_commit_index r))) ;;?
    modify_runtime (fun r => set_rt_leader_id None (set_rt_voted_for None (set_rt_term term r))) ;;
    okR tt
  else okR tt.

(** The refusal of a request in [prepare_append_entries]. *)
Definition refuse_append (local_last_index : Z) : M RaftNode (RaftRpcResponse + Z) :=
  n ← get;
  mret (inl (AppendEntriesResponse (rt_current_term (rn_runtime n)) false local_last_index None None)).

(** The first block of [prepare_append_entries], under the runtime's lock: the
    node follows the leader, in the leader's term; its commit index. *)
Definition follow_leader (clock : Clock) (term : Z) (leader_id leader_addr : string)
    : M RaftNode (RaftRpcResponse + Z) :=
  n ← get;
  let local_last_index := last_index (rn_state n) in
  let r := rn_runtime n in
  if local_seen_voter_is_removed n then refuse_append local_last_index
  else if active_peer_sender_rejection_error "append leader" leader_id leader_addr n is Some _
  then refuse_append local_last_index
  else if bool_decide (term < rt_current_term r) then refuse_append local_last_index
  else
    res ← enter_leader_term term;
    match res with
    | RaftErr err => mret (inl (ErrorResponse (rt_current_term r) (error_display err)))
    | RaftOk _ =>
        n ← get;
        let r := rn_runtime n in
        if other_leader_known leader_id r then refuse_append local_last_index
        else
          let commit_index := Z.max (rt_commit_index r) (hs_commit_index (hard_state (rn_state n))) in
          modify_runtime (fun r =>
            set_rt_election_deadline (next_election_deadline (rn_config n) clock)
              (set_rt_leader_id (Some leader_id) (set_rt_role Follower
                 (set_rt_commit_index commit_index r)))) ;;
          mret (inr commit_index)
    end.

(** [BrokerRaft::prepare_append_entries] *)
Definition prepare_append_entries (clock : Clock) (term : Z) (leader_id leader_addr : string)
    : M RaftNode (RaftRpcResponse + Z) :=
  n ← get;
  let local_last_index := last_index (rn_state n) in
  prepared ← follow_leader clock term leader_id leader_addr;
  match prepared with
  | inl response => mret (inl response)
  | inr prepared_commit_index =>
      n ← get;
      if bool_decide (rn_last_applied n < prepared_commit_index) then
        res ← apply_committed_and_maybe_compact clock false;
        n ← get;
        match res with
        | RaftErr err => mret (inl (ErrorResponse (rt_current_term (rn_runtime n)) (error_display err)))
        | RaftOk _ =>
            if follows "append leader" term leader_id leader_addr n && negb (local_seen_voter_is_removed n)
            then mret (inr prepared_commit_index)
            else refuse_append local_last_index
        end
      else mret (inr prepared_commit_index)
  end.

(** [BrokerRaft::finish_append_entries_from_peer] *)
Definition finish_append_entries_from_peer (clock : Clock) (term : Z) (leader_id leader_addr : string)
    (append_report : RaftAppendReport) (leader_commit : Z) : M RaftNode RaftRpcResponse :=
  n ← get;
  let r := rn_runtime n in
  let failed := AppendEntriesResponse (rt_current_term r) false (ar_match_index append_report)
                  (ar_conflict_index append_report) (ar_conflict_term append_report) in
  if negb (follows "append leader" term leader_id leader_addr n) then mret failed
  else if negb (ar_success append_report) then mret failed
  else
    let next_commit :=
      Z.max (rt_commit_index r) (Z.min leader_commit (ar_match_index append_report)) in
    let advances := bool_decide (next_commit <> rt_commit_index r) in
    res ← (if advances then
             on_log (write_hard_state (mkRaftHardState (rt_current_term r) (rt_voted_for r) next_commit)) ;;?
             modify_runtime (set_rt_commit_index next_commit) ;;
             okR tt
           else okR tt);
    match res with
    | RaftErr err => mret (ErrorResponse (rt_current_term r) (error_display err))
    | RaftOk _ =>
        res ← (if advances || bool_decide (rt_last_applied r < rt_commit_index r)
               then apply_committed_and_maybe_compact clock true else okR tt);
        n ← get;
        match res with
        | RaftErr err => mret (ErrorResponse (rt_current_term (rn_runtime n)) (error_display err))
        | RaftOk _ =>
            mret (AppendEntriesResponse (rt_current_term (rn_runtime n)) true
                    (ar_match_index append_report) None None)
        end
    end.

(** [handle_append_entries_from_peer] once the leader is accepted. *)
Definition append_prepared (clock : Clock) (request : AppendEntriesFromPeer) (local_commit_index : Z)
    : M RaftNode RaftRpcResponse :=
  n ← get;
  let finish append_report :=
    finish_append_entries_from_peer clock (ae_term request) (ae_leader_id request)
      (ae_leader_addr request) append_report (ae_leader_commit request) in
  let error err := n ← get; mret (ErrorResponse (rt_current_term (rn_runtime n)) (error_display err)) in
  match append_entries_prev_conflict (rn_state n) (ae_prev_log_index request)
          (ae_prev_log_term request) with
  | Some append_report => finish append_report
  | None =>
      res ← validate_append_entries_staged_learners (ae_prev_log_index request) (ae_entries request);
      match res with
      | RaftErr err => error err
      | RaftOk _ =>
          res ← on_log (append_entries_from_leader (ae_prev_log_index request)
                  (ae_prev_log_term request) (ae_term request) local_commit_index (ae_entries request));
          match res with
          | RaftErr err => error err
          | RaftOk append_report => finish append_report
          end
      end
  end.

(** [BrokerRaft::handle_append_entries_from_peer] *)
Definition handle_append_entries_from_peer (clock : Clock) (request : AppendEntriesFromPeer)
    : M RaftNode RaftRpcResponse :=
  match validate_append_entries_shape (ae_prev_log_index request) (ae_prev_log_term request)
          (ae_term request) (ae_entries request) with
  | RaftErr err => n ← get; mret (ErrorResponse (rt_current_term (rn_runtime n)) (error_display err))
  | RaftOk _ =>
      prepared ← prepare_append_entries clock (ae_term request) (ae_leader_id request)
                   (ae_leader_addr request);
      match prepared with
      | inl response => mret response
      | inr local_commit_index => append_prepared clock request local_commit_index
      end
  end.

(** ** InstallSnapshot *)

(** The refusal of a snapshot's sender. *)
Definition refuse_snapshot : M RaftNode (option RaftRpcResponse) :=
  n ← get;
  mret (Some (InstallSnapshotResponse (rt_current_term (rn_runtime n)) false
                (snapshot_index_of (rn_state n)))).

(** [BrokerRaft::precheck_install_snapshot_sender]; [None] accepts. *)
Definition precheck_install_snapshot_sender (term : Z) (leader_id leader_addr : string)
    : M RaftNode (option RaftRpcResponse) :=
  n ← get;
  let r := rn_runtime n in
  if local_seen_voter_is_removed n then refuse_snapshot
  else if active_peer_sender_rejection_error "snapshot leader" leader_id leader_addr n is Some _
  then refuse_snapshot
  else if bool_decide (term < rt_current_term r) then refuse_snapshot
  else if bool_decide (term = rt_current_term r) && other_leader_known leader_id r then refuse_snapshot
  else mret None.

(** [BrokerRaft::accept_validated_install_snapshot_sender] *)
Definition accept_validated_install_snapshot_sender (clock : Clock) (term : Z)
    (leader_id leader_addr : string) : M RaftNode (option RaftRpcResponse) :=
  n ← get;
  let r := rn_runtime n in
  if local_seen_voter_is_removed n then refuse_snapshot
  else if active_peer_sender_rejection_error "snapshot leader" leader_id leader_addr n is Some _
  then refuse_snapshot
  else if bool_decide (term < rt_current_term r) then refuse_snapshot
  else
    res ← enter_leader_term term;
    match res with
    | RaftErr err => mret (Some (ErrorResponse (rt_current_term r) (error_display err)))
    | RaftOk _ =>
        n ← get;
        if other_leader_known leader_id (rn_runtime n) then refuse_snapshot
        else
          modify_runtime (fun r =>
            set_rt_election_deadline (next_election_deadline (rn_config n) clock)
              (set_rt_leader_id (Some leader_id) (set_rt_role Follower r))) ;;
          mret None
    end.

(** [BrokerRaft::finish_installed_snapshot_payload_from_peer] *)
Definition finish_installed_snapshot_payload_from_peer (term : Z) (leader_id leader_addr : string)
    (installed_index : Z) (payload : Value) : M RaftNode RaftRpcResponse :=
  n ← get;
  if follows "snapshot leader" term leader_id leader_addr n then
    let response_term := rt_current_term (rn_runtime n) in
    res ← apply_installed_snapshot_payload installed_index payload;
    match res with
    | RaftErr err => n ← get; mret (ErrorResponse (rt_current_term (rn_runtime n)) (error_display err))
    | RaftOk _ => mret (InstallSnapshotResponse response_term true installed_index)
    end
  else mret (InstallSnapshotResponse (rt_current_term (rn_runtime n)) false (snapshot_index_of (rn_state n))).

(** The checks of [handle_install_snapshot_from_peer] on a verified payload. *)
Definition validate_installed_payload (payload : Value) (n : RaftNode) : RaftResult unit :=
  let allow := nc_in_memory (rn_config n) in
  _ ← membership_from_snapshot_payload payload allow;
  _ ← staged_learners_from_snapshot_payload payload allow
        (validation_peers (rt_membership (rn_runtime n)));
  entries ← client_responses_from_snapshot_payload payload;
  _ ← validate_snapshot_client_response_entries entries;
  broker_result (validate_raft_snapshot_payload payload).

(** The end of [handle_install_snapshot_from_peer], once the payload has
    arrived and its checksum is verified; [current_snapshot_index] was read
    before the last chunk was staged. *)
Definition install_verified_snapshot (clock : Clock) (term : Z) (leader_id leader_addr : string)
    (last_included_index last_included_term : Z) (expected_checksum : string) (payload : Value)
    (current_snapshot_index : Z) : M RaftNode RaftRpcResponse :=
  let error err := n ← get; mret (ErrorResponse (rt_current_term (rn_runtime n)) err) in
  n ← get;
  match validate_installed_payload payload n with
  | RaftErr (EBrokerSnapshot err) => error err
  | RaftErr err => error (error_display err)
  | RaftOk _ =>
      if bool_decide (current_snapshot_index < last_included_index) then
        if follows "snapshot leader" term leader_id leader_addr n then
          res ← on_log (install_snapshot_from_leader last_included_index last_included_term
                  (Some expected_checksum) payload (ck_unix_ms clock));
          match res with
          | RaftErr err => error (error_display err)
          | RaftOk installed =>
              finish_installed_snapshot_payload_from_peer term leader_id leader_addr
                (sm_last_included_index installed) payload
          end
        else mret (InstallSnapshotResponse (rt_current_term (rn_runtime n)) false
                     (snapshot_index_of (rn_state n)))
      else
        finish_installed_snapshot_payload_from_peer term leader_id leader_addr
          current_snapshot_index payload
  end.

End ops.
