(* ===== verification/RaftLeader.v ===== *)
(** * The leader: replication progress and the commit index

    [src/src/broker_raft.rs]: the progress of a peer before a batch is sent
    (16316-16398) and after its answer (16777-17230, 21050-21116, 25213-25244,
    5783-5820), the commit index (15562-15616, 15761-15906, 21180-21206), the
    leader's append to its own log (10483-10529, 10226-10271, 10335-10397), the
    loss of the quorum (15533-15560) and the observation of a proxied answer
    (11459-11532).

    As in [RaftNodeOps], a function runs as one step.  What is sent to a peer
    is built from the log by [prev_term_entries_and_bytes_limited] of [RaftLog]
    and is not part of this file. *)

From S2P Require Import Prelude Text Monad Protocol Queue BrokerTypes BrokerState Broker BrokerOps.
From S2P Require Import BrokerSnapshot.
From S2P Require Import RaftQuorum RaftGrant RaftValidate RaftCache RaftFiles RaftLog RaftNode.
From S2P Require Import RaftApply RaftNodeOps.
From stdpp Require Import options.
Import Membership.

Record RaftPeerReplicationOutcome : Type := mkRaftPeerReplicationOutcome {
  po_contacted : bool;
  po_quorum_contacted : bool;
  po_target_reached : bool;
  po_progress_changed : bool;
}.

Definition no_outcome : RaftPeerReplicationOutcome := mkRaftPeerReplicationOutcome false false false false.
Definition contacted_only : RaftPeerReplicationOutcome := mkRaftPeerReplicationOutcome true false false false.

#[global] Instance RaftPeerProgress_eq_dec : EqDecision RaftPeerProgress.
Proof. solve_decision. Defined.

(** ** What has been acknowledged *)

(** [trusted_peer_match_index] *)
Definition trusted_peer_match_index (progress : RaftPeerProgress) (local_last_index : Z) : option Z :=
  if bool_decide (pp_match_index progress <= local_last_index) then Some (pp_match_index progress)
  else None.

(** [is_some_and(|match_index| match_index >= index)] *)
Definition has_matched (local_match_index index : Z) (progress : RaftPeerProgress) : bool :=
  match trusted_peer_match_index progress local_match_index with
  | Some match_index => bool_decide (index <= match_index)
  | None => false
  end.

(** [matched_ids_for_index] *)
Definition matched_ids_for_index (local_id : string) (local_match_index : Z)
    (progress : gmap string RaftPeerProgress) (index : Z) : gset string :=
  (if bool_decide (index <= local_match_index) then {[local_id]} else ∅)
  ∪ dom (filter (fun kv => has_matched local_match_index index kv.2 = true) progress).

(** ** A peer's progress *)

(** The reset and the clamp of a peer's progress before a batch is sent. *)
Definition prepared_progress (local_last_index : Z) (progress : RaftPeerProgress) : RaftPeerProgress :=
  let max_next_index := Z.max (saturating_add64 local_last_index 1) 1 in
  let progress := if bool_decide (local_last_index < pp_match_index progress)
                  then mkRaftPeerProgress max_next_index 0 else progress in
  let min_next_index := Z.max (saturating_add64 (pp_match_index progress) 1) 1 in
  mkRaftPeerProgress (Z.min (Z.max (pp_next_index progress) min_next_index) max_next_index)
    (pp_match_index progress).

(** What an acknowledged batch makes of a peer's progress. *)
Definition acknowledged_progress (acknowledged_match_index : Z) (progress : RaftPeerProgress)
    : RaftPeerProgress :=
  let match_index := Z.max (pp_match_index progress) acknowledged_match_index in
  mkRaftPeerProgress (Z.max (pp_next_index progress) (saturating_add64 match_index 1)) match_index.

(** What a rejected batch makes of a peer's progress. *)
Definition repaired_progress (repaired_next_index : Z) (progress : RaftPeerProgress)
    : RaftPeerProgress :=
  mkRaftPeerProgress
    (Z.max repaired_next_index (Z.max (saturating_add64 (pp_match_index progress) 1) 1))
    (pp_match_index progress).

(** [invalid_append_conflict_hint_reason] *)
Definition invalid_append_conflict_hint_reason (conflict_term conflict_index : option Z)
    (match_index prev_log_index current_next_index response_term : Z) : option string :=
  if bool_decide (conflict_term = Some 0) then Some "conflictTerm must be >= 1 when present"%string
  else if match conflict_term with Some term => bool_decide (response_term < term) | None => false end
  then Some "conflictTerm cannot exceed response term"%string
  else if bool_decide (conflict_term <> None) && bool_decide (conflict_index = None)
  then Some "conflictIndex is required when conflictTerm is present"%string
  else if bool_decide (conflict_index = Some 0)
  then Some "conflictIndex must be >= 1 when present"%string
  else if bool_decide (current_next_index <= match_index)
  then Some "matchIndex must be below rejected nextIndex"%string
  else if bool_decide (0 < prev_log_index) && bool_decide (prev_log_index <= match_index)
  then Some "matchIndex must be below rejected prevLogIndex"%string
  else if bool_decide (conflict_term <> None)
          && match conflict_index with
             | Some index => bool_decide (current_next_index <= index)
             | None => false
             end
  then Some "conflictIndex must be below rejected nextIndex"%string
  else None.

(** [next_index_after_conflict] *)
Definition next_index_after_conflict (s : RaftLogState) (conflict_term conflict_index : option Z)
    (current_next_index : Z) : Z :=
  let retained_floor := Z.max (retained_replication_floor_next_index s) 1 in
  let local_tail_next_index := Z.max (saturating_add64 (last_index s) 1) 1 in
  let compacted_prefix_hint :=
    bool_decide (conflict_term = None)
    && match conflict_index with
       | Some index => bool_decide (current_next_index <= index)
       | None => false
       end in
  let repair_ceiling :=
    if compacted_prefix_hint then local_tail_next_index
    else Z.min (Z.max (saturating_sub64 current_next_index 1) retained_floor) local_tail_next_index in
  let hinted := default (saturating_sub64 current_next_index 1) conflict_index in
  let repaired :=
    match conflict_term with
    | Some term =>
        match last_index_for_term s term with
        | Some last_index => saturating_add64 last_index 1
        | None => hinted
        end
    | None => hinted
    end in
  Z.min (Z.max repaired retained_floor) repair_ceiling.

(** [snapshot_fallback_next_index_after_conflict] *)
Definition snapshot_fallback_next_index_after_conflict (s : RaftLogState)
    (conflict_term conflict_index : option Z) : option Z :=
  let retained_floor := Z.max (retained_replication_floor_next_index s) 1 in
  if bool_decide (retained_floor <= 1)
     || match conflict_index with
        | Some index => bool_decide (retained_floor <= index)
        | None => true
        end then None
  else if match conflict_term with
          | Some term => bool_decide (last_index_for_term s term <> None)
          | None => false
          end then None
  else Some (Z.max (saturating_sub64 retained_floor 1) 1).

Section ops.
Context `{LQ : LinkedQueueCrate} `{E : Env} `{D : RequestDigest} `{C : RaftCodec}.

(** The node still leads [term]. *)
Definition leads (term : Z) (n : RaftNode) : bool :=
  bool_decide (rt_role (rn_runtime n) = Leader) && bool_decide (rt_current_term (rn_runtime n) = term).

Definition set_peer_progress (peer_id : string) (progress : RaftPeerProgress) : M RaftNode unit :=
  modify_runtime (fun r => set_rt_leader_progress (<[peer_id := progress]> (rt_leader_progress r)) r).

(** The first block of [replicate_one_batch_to_peer_with_snapshot_source_inner]:
    the next index to send from, or the outcome when nothing is to be sent. *)
Definition prepare_peer_progress (peer : RaftPeerConfig) (term : Z) (target_index : option Z)
    : M RaftNode (RaftPeerReplicationOutcome + Z) :=
  n ← get;
  let r := rn_runtime n in
  let local_last_index := last_index (rn_state n) in
  if negb (leads term n) || negb (accepts_replication_peer r peer) then mret (inl no_outcome)
  else
    let max_next_index := Z.max (saturating_add64 local_last_index 1) 1 in
    let before := default (mkRaftPeerProgress max_next_index 0) (rt_leader_progress r !! peer_id peer) in
    let progress := prepared_progress local_last_index before in
    let progress_changed :=
      bool_decide (rt_leader_progress r !! peer_id peer = None) || bool_decide (progress <> before) in
    set_peer_progress (peer_id peer) progress ;;
    match target_index with
    | Some target =>
        if bool_decide (target <= pp_match_index progress)
        then mret (inl (mkRaftPeerReplicationOutcome false false true progress_changed))
        else mret (inr (pp_next_index progress))
    | None => mret (inr (pp_next_index progress))
    end.

(** [BrokerRaft::observe_higher_replication_peer_term] *)
Definition observe_higher_replication_peer_term (clock : Clock) (peer : RaftPeerConfig)
    (request_term response_term : Z) : M RaftNode bool :=
  if bool_decide (response_term <= request_term) then mret false
  else
    n ← get;
    if negb (leads request_term n) then mret false
    else if negb (accepts_replication_peer (rn_runtime n) peer) then mret false
    else step_down clock response_term None ;; mret true.

(** A batch that was sent: the next index it was built from, and the index of
    its last entry. *)
Record SentBatch : Type := mkSentBatch {
  sb_next_index : Z;
  sb_sent_match_index : Z;
  sb_entries_count : nat;
}.

(** The answer to a batch that succeeded. *)
Definition on_append_success (peer : RaftPeerConfig) (term : Z) (target_index : option Z)
    (sent : SentBatch) (match_index : Z) (conflict_index conflict_term : option Z)
    : M RaftNode RaftPeerReplicationOutcome :=
  let prev_log_index := saturating_sub64 (sb_next_index sent) 1 in
  if bool_decide (conflict_index <> None) || bool_decide (conflict_term <> None) then mret contacted_only
  else if bool_decide (match_index < prev_log_index)
          || (bool_decide (0 < sb_entries_count sent)%nat
              && bool_decide (match_index < sb_sent_match_index sent)) then mret contacted_only
  else
    let acknowledged_match_index := Z.min match_index (sb_sent_match_index sent) in
    n ← get;
    let r := rn_runtime n in
    if negb (leads term n) || negb (accepts_replication_peer r peer) then mret contacted_only
    else if match rt_leader_progress r !! peer_id peer with
            | Some current => bool_decide (pp_next_index current < sb_next_index sent)
            | None => false
            end then mret contacted_only
    else
      let before := default (mkRaftPeerProgress (saturating_add64 acknowledged_match_index 1) 0)
                      (rt_leader_progress r !! peer_id peer) in
      let progress := acknowledged_progress acknowledged_match_index before in
      set_peer_progress (peer_id peer) progress ;;
      mret (mkRaftPeerReplicationOutcome true true
              match target_index with
              | Some target => bool_decide (target <= pp_match_index progress)
              | None => true
              end (bool_decide (progress <> before))).

(** The answer to a batch that was rejected. *)
Definition on_append_conflict (peer : RaftPeerConfig) (term peer_term : Z) (sent : SentBatch)
    (match_index : Z) (conflict_index conflict_term : option Z)
    : M RaftNode RaftPeerReplicationOutcome :=
  let next_index := sb_next_index sent in
  let prev_log_index := saturating_sub64 next_index 1 in
  n ← get;
  let r := rn_runtime n in
  if negb (leads term n) || negb (accepts_replication_peer r peer) then mret contacted_only
  else if bool_decide (conflict_index = None) && bool_decide (conflict_term = None) then mret contacted_only
  else if invalid_append_conflict_hint_reason conflict_term conflict_index match_index prev_log_index
            next_index peer_term is Some _ then mret contacted_only
  else if match rt_leader_progress r !! peer_id peer with
          | Some current => bool_decide (pp_next_index current <> next_index)
          | None => false
          end then mret contacted_only
  else
    let repaired_next_index :=
      match snapshot_fallback_next_index_after_conflict (rn_state n) conflict_term conflict_index with
      | Some fallback_next_index => fallback_next_index
      | None => next_index_after_conflict (rn_state n) conflict_term conflict_index next_index
      end in
    let before := default (mkRaftPeerProgress repaired_next_index 0)
                    (rt_leader_progress r !! peer_id peer) in
    let progress := repaired_progress repaired_next_index before in
    set_peer_progress (peer_id peer) progress ;;
    mret (mkRaftPeerReplicationOutcome true true false (bool_decide (progress <> before))).

(** The end of [replicate_one_batch_to_peer_with_snapshot_source_inner]: the
    peer's answer, [None] when the request failed. *)
Definition on_append_response (clock : Clock) (peer : RaftPeerConfig) (term : Z)
    (target_index : option Z) (sent : SentBatch) (response : option RaftRpcResponse)
    : M RaftNode RaftPeerReplicationOutcome :=
  match response with
  | Some (AppendEntriesResponse peer_term success match_index conflict_index conflict_term) =>
      if bool_decide (term < peer_term) then
        observe_higher_replication_peer_term clock peer term peer_term ;; mret contacted_only
      else if bool_decide (peer_term < term) then mret contacted_only
      else if success then
        on_append_success peer term target_index sent match_index conflict_index conflict_term
      else on_append_conflict peer term peer_term sent match_index conflict_index conflict_term
  | Some (ErrorResponse peer_term _) =>
      (if bool_decide (term < peer_term)
       then observe_higher_replication_peer_term clock peer term peer_term ;; mret tt else mret tt) ;;
      mret contacted_only
  | Some _ => mret contacted_only
  | None => mret no_outcome
  end.

(** ** The commit index *)

(** [BrokerRaft::commit_leader_index_in_term_with_membership_control]; the
    check after the write repeats the one before it. *)
Definition commit_leader_index (clock : Clock) (index term : Z) (compact_after_apply : bool)
    (commit_membership : option RaftMembership) (apply_after_commit : bool)
    : M RaftNode (RaftResult bool) :=
  n ← get;
  let r := rn_runtime n in
  if bool_decide (term_at_index (rn_state n) index <> Some term) then okR false
  else if negb (leads term n) then okR false
  else
    let membership := default (rt_membership r) commit_membership in
    let ack_ids := matched_ids_for_index (nc_node_id (rn_config n)) (last_index (rn_state n))
                     (rt_leader_progress r) index in
    let apply :=
      if apply_after_commit then apply_committed_and_maybe_compact clock compact_after_apply ;;? okR true
      else okR true in
    if bool_decide (index <= rt_commit_index r) then apply
    else if negb (quorum_met membership ack_ids) then okR false
    else
      on_log (write_hard_state (mkRaftHardState (rt_current_term r) (rt_voted_for r) index)) ;;?
      modify_runtime (fun r => set_rt_commit_index (Z.max (rt_commit_index r) index) r) ;;
      apply.

(** The pairs of a node and the index it has matched, the leader first. *)
Definition matched_pairs (n : RaftNode) : list (string * Z) :=
  let last := last_index (rn_state n) in
  (nc_node_id (rn_config n), last)
  :: omap (fun kv : string * RaftPeerProgress =>
             pair kv.1 <$> trusted_peer_match_index kv.2 last)
       (map_to_list (rt_leader_progress (rn_runtime n))).

(** The loop of [advance_leader_commit_from_progress] over the candidates from
    the greatest: the first one of the leader's term that a quorum has. *)
Fixpoint first_committable (n : RaftNode) (candidates : list Z) : option Z :=
  match candidates with
  | [] => None
  | candidate :: candidates =>
      let ack_ids : gset string :=
        list_to_set (filter (fun p => candidate <= p.2) (matched_pairs n)).*1 in
      if bool_decide (term_at_index (rn_state n) candidate = Some (rt_current_term (rn_runtime n)))
         && quorum_met (rt_membership (rn_runtime n)) ack_ids
      then Some candidate
      else first_committable n candidates
  end.

(** The matched indexes above the commit index, from the greatest; [sort],
    [dedup] and [reverse] of the code. *)
Definition commit_candidates (n : RaftNode) : list Z :=
  merge_sort (flip Z.le)
    (remove_dups (filter (fun i => rt_commit_index (rn_runtime n) < i /\ i <= last_index (rn_state n))
       (matched_pairs n).*2)).

(** [BrokerRaft::advance_leader_commit_from_progress] *)
Definition advance_leader_commit_from_progress (clock : Clock) : M RaftNode (RaftResult (option Z)) :=
  n ← get;
  if negb (bool_decide (rt_role (rn_runtime n) = Leader)) then okR None
  else
    match first_committable n (commit_candidates n) with
    | None => okR None
    | Some candidate =>
        committed ←? commit_leader_index clock candidate (rt_current_term (rn_runtime n)) false None true;
        okR (if committed : bool then Some candidate else None)
    end.

(** ** The leader's log *)

(** [leader_peer_hint_from_runtime]: the leader's identity and address. *)
Definition leader_peer_hint (r : RaftRuntimeState) : option string * option RaftPeerConfig :=
  (rt_leader_id r,
   id ← rt_leader_id r;
   snd <$> list_find (fun peer => peer_id peer = id) (active_peers (rt_membership r))).

(** [BrokerRaft::append_local_batch_as_leader_with_quorum_gate]; [quorum_fresh]
    is whether a quorum was observed within [election_timeout_min]. *)
Definition append_local_batch_as_leader (clock : Clock) (term : Z) (commands : list RaftCommand)
    (require_quorum_freshness quorum_fresh : bool) : M RaftNode (RaftResult (list RaftLogEntry)) :=
  n ← get;
  let r := rn_runtime n in
  if negb (leads term n) then
    errR (ENotLeader (rt_leader_id r) (peer_addr <$> (leader_peer_hint r).2))
  else if negb (local_peer_is_active n) then errR (ENotLeader None None)
  else if require_quorum_freshness
          && negb (quorum_met (rt_membership r) {[nc_node_id (rn_config n)]} || quorum_fresh)
  then errR (ENotLeader None None)
  else on_log (append_batch term commands (ck_unix_ms clock)).

(** [BrokerRaft::committed_index_is_applied] *)
Definition committed_index_is_applied (index term : Z) (n : RaftNode) : bool :=
  negb (bool_decide (index = 0)) && bool_decide (term_at_index (rn_state n) index = Some term)
  && bool_decide (index <= hs_commit_index (hard_state (rn_state n)))
  && bool_decide (index <= rn_commit_index n) && bool_decide (index <= rn_last_applied n).

(** [BrokerRaft::committed_membership_removal_is_applied] *)
Definition committed_membership_removal_is_applied (entry : RaftLogEntry) (term : Z)
    : M RaftNode bool :=
  n ← get;
  let local_peer := local_configured_peer (rn_config n) in
  match le_command entry with
  | SetMembership membership =>
      if contains_peer membership local_peer
         || bool_decide (term_at_index (rn_state n) (le_index entry) <> Some term) then mret false
      else if bool_decide (le_index entry <= rn_commit_index n)
              && bool_decide (rt_membership (rn_runtime n) = membership)
              && negb (accepts_active_peer (rn_runtime n) local_peer)
      then
        modify_runtime (fun r => set_rt_last_applied (Z.max (rt_last_applied r) (le_index entry)) r) ;;
        mret true
      else mret false
  | _ => mret false
  end.

(** One peer of [reset_membership_fanout_progress]. *)
Definition fanout_progress (local_last_index fallback_next_index target_index : Z)
    (progress : RaftPeerProgress) : RaftPeerProgress :=
  match trusted_peer_match_index progress local_last_index with
  | Some match_index =>
      if bool_decide (target_index <= match_index) then progress
      else mkRaftPeerProgress
             (Z.min (Z.max (saturating_add64 match_index 1) fallback_next_index)
                (Z.max (saturating_add64 local_last_index 1) 1)) match_index
  | None => mkRaftPeerProgress fallback_next_index 0
  end.

(** [BrokerRaft::reset_membership_fanout_progress] *)
Definition reset_membership_fanout_progress (peers : list RaftPeerConfig) (term target_index : Z)
    : M RaftNode unit :=
  n ← get;
  if bool_decide (target_index = 0) || bool_decide (peers = []) || negb (leads term n) then mret tt
  else
    let fallback_next_index := Z.max (retained_replication_floor_next_index (rn_state n)) 1 in
    modify_runtime (fun r =>
      set_rt_leader_progress
        (foldl (fun m peer =>
           <[peer_id peer := fanout_progress (last_index (rn_state n)) fallback_next_index target_index
               (default (mkRaftPeerProgress fallback_next_index 0) (m !! peer_id peer))]> m)
           (rt_leader_progress r) (filter (fun peer => accepts_replication_peer r peer = true) peers)) r).

(** ** Stepping down *)

(** [BrokerRaft::check_leader_quorum], once the quorum has not been observed
    for [election_timeout_min]. *)
Definition leader_quorum_lost (clock : Clock) (acks : gset string) : M RaftNode unit :=
  n ← get;
  if quorum_met (rt_membership (rn_runtime n)) acks then mret tt
  else if bool_decide (rt_role (rn_runtime n) = Leader)
  then step_down clock (rt_current_term (rn_runtime n)) None
  else mret tt.

(** [BrokerRaft::observe_proxy_response_term] *)
Definition observe_proxy_response_term (clock : Clock) (leader_peer : RaftPeerConfig)
    (response_term : Z) (leader_confirmed : bool) : M RaftNode unit :=
  n ← get;
  let r := rn_runtime n in
  if bool_decide (response_term < rt_current_term r) then mret tt
  else
    let unknown := bool_decide (peer_id leader_peer = nc_node_id (rn_config n))
                   || negb (accepts_active_peer r leader_peer) in
    if bool_decide (response_term = rt_current_term r) then
      if negb leader_confirmed || unknown || bool_decide (rt_role r = Leader) then mret tt
      else modify_runtime (fun r =>
             set_rt_election_deadline (next_election_deadline (rn_config n) clock)
               (set_rt_leader_id (Some (peer_id leader_peer)) (set_rt_role Follower r)))
    else if unknown then mret tt
    else step_down clock response_term (if leader_confirmed then Some (peer_id leader_peer) else None).

End ops.
