(* ===== verification/RaftFrames.v ===== *)
(** * What the operations leave of the hard state

    The log store's operations on entries and snapshots touch neither the term
    nor the vote, in memory or on the disk; whatever is applied, installed or
    compacted, a node keeps its term, its vote and its role as long as its
    membership is not changed. *)

From S2P Require Import Prelude Text Monad Protocol Queue BrokerTypes BrokerState Broker BrokerOps.
From S2P Require Import BrokerSnapshot.
From S2P Require Import RaftQuorum RaftGrant RaftValidate RaftCache RaftFiles RaftFilesFacts RaftLog.
From S2P Require Import RaftHardState RaftLogFacts RaftNode RaftApply RaftNodeOps.
From stdpp Require Import options.
Import Membership.

(** Split a [keeps] goal along the structure of a function with early
    returns. *)
Ltac keeps_steps :=
  repeat first
    [ lazymatch goal with |- forall _, _ => intros end
    | progress cbv zeta
    | solve [eauto 2 with keeps]
    | lazymatch goal with
      | |- keeps _ (bindR _ _) => apply keeps_bindR; [apply _| |]
      | |- keeps _ (mbind _ _) => apply keeps_bind; [apply _| |]
      | |- keeps _ get => apply keeps_get; apply _
      | |- keeps _ (panic _) => apply keeps_panic; apply _
      | |- keeps _ out_of_fuel => apply keeps_out_of_fuel; apply _
      | |- keeps _ (okR _) => apply keeps_ret; apply _
      | |- keeps _ (errR _) => apply keeps_ret; apply _
      | |- keeps _ (mret _) => apply keeps_ret; apply _
      end
    | case_match ].

(** ** The log store *)

Section store.
Context `{C : RaftCodec}.

Definition hs_files (d d' : Disk) : Prop :=
  d_hard_state d' = d_hard_state d /\ d_commit_slots d' = d_commit_slots d.

#[global] Instance hs_files_preorder : PreOrder hs_files.
Proof. split; [by intros d|]. intros d1 d2 d3 [] []. split; congruence. Qed.

(** The hard state and its files are what they were. *)
Definition hs_same (st st' : RaftLogStore) : Prop :=
  hard_state (ls_state st') = hard_state (ls_state st) /\
  hard_state_commit_generation (ls_state st') = hard_state_commit_generation (ls_state st) /\
  hs_files (ls_disk st) (ls_disk st').

#[global] Instance hs_same_preorder : PreOrder hs_same.
Proof.
  split; [by intros st|]. intros s1 s2 s3 (H1 & H2 & H3) (H4 & H5 & H6).
  split_and!; [congruence..|by etrans].
Qed.

Lemma hs_same_durable st st' : hs_same st st' -> hs_durable st -> hs_durable st'.
Proof.
  intros (H1 & H2 & [H3 H4]) [D1 D2 D3 D4]. unfold slots_wf, json_hard_state, slot_at in *.
  constructor; unfold slots_wf, json_hard_state, slot_at; by rewrite ?H1, ?H2, ?H3, ?H4.
Qed.

Lemma keeps_io_files effect all :
  (forall d, hs_files d (all d)) -> (forall d k, hs_files d (effect k d)) ->
  keeps hs_files (io_call effect all).
Proof. intros. by apply keeps_io; [| |apply _|..]. Qed.

Lemma keeps_on_disk_hs {A} (m : M Disk A) : keeps hs_files m -> keeps hs_same (on_disk m).
Proof.
  intros Hm st a st'. unfold on_disk. destruct (m (ls_disk st)) as [b d| |] eqn:Heq; intros [= <- <-].
  apply Hm in Heq. done.
Qed.

Lemma keeps_modify_state_hs f :
  (forall s, hard_state (f s) = hard_state s) ->
  (forall s, hard_state_commit_generation (f s) = hard_state_commit_generation s) ->
  keeps hs_same (modify_state f).
Proof. intros H1 H2. apply keeps_modify; [apply _|]. intros st. split; [apply H1|]. split; [apply H2|done]. Qed.

Lemma keeps_check_hs {A} (r : RaftResult A) : keeps hs_same (check r).
Proof. apply keeps_ret; apply _. Qed.

Lemma other_files_hs d d' : other_files_same d d' -> hs_files d d'.
Proof. by intros (H1 & H2 & _). Qed.

Lemma keeps_files_other {A} (m : M Disk A) : keeps other_files_same m -> keeps hs_files m.
Proof. apply keeps_mono, other_files_hs. Qed.

Hint Resolve keeps_on_disk_hs keeps_check_hs : keeps.

(** *** Files *)

Lemma keeps_gate_hs : keeps hs_files io_gate.
Proof. by apply keeps_io_files. Qed.

Lemma keeps_atomic_hs f : (forall d, hs_files d (f d)) -> keeps hs_files (io_atomic f).
Proof. intros Hf. apply keeps_io_files; [done|]. intros d k. by case_bool_decide. Qed.

Hint Resolve keeps_gate_hs : keeps.

Lemma keeps_or_rollback m op len sync : keeps hs_files m -> keeps hs_files (or_rollback m op len sync).
Proof.
  intros Hm. unfold or_rollback, rollback_log_write_after_failure.
  pose proof (keeps_files_other _ (keeps_rollback len sync)). keeps_steps.
Qed.

#[local] Opaque or_rollback.

Lemma keeps_append_serialized body len sync : keeps hs_files (append_serialized_log_entries body len sync).
Proof.
  unfold append_serialized_log_entries.
  assert (keeps hs_files open_creating) by by apply keeps_io_files.
  assert (keeps hs_files (write_log_bytes body)) by by apply keeps_io_files.
  keeps_steps; apply keeps_or_rollback; keeps_steps.
Qed.

Lemma keeps_truncate_and_append len body sync :
  keeps hs_files (truncate_and_append_serialized_log_entries len body sync).
Proof.
  unfold truncate_and_append_serialized_log_entries.
  assert (keeps hs_files open_creating) by by apply keeps_io_files.
  assert (keeps hs_files (write_log_bytes body)) by by apply keeps_io_files.
  keeps_steps; try (apply keeps_or_rollback; keeps_steps); try by apply keeps_atomic_hs.
  all: intros d r d' H'; repeat case_match; injection H' as <- <-; reflexivity.
Qed.

Lemma keeps_rewrite_hs entries : keeps hs_files (rewrite_log entries).
Proof. apply keeps_files_other, keeps_rewrite_log. Qed.

Lemma keeps_write_snapshot_json sf : keeps hs_files (write_snapshot_json sf).
Proof. by apply keeps_atomic_hs. Qed.

Lemma keeps_read_snapshot_file : keeps hs_files read_snapshot_file.
Proof. unfold read_snapshot_file. keeps_steps. Qed.

Lemma keeps_write_staged_learners ls : keeps hs_files (write_staged_learners ls).
Proof. unfold write_staged_learners. keeps_steps; by apply keeps_atomic_hs. Qed.

Lemma keeps_write_local_voter_seen : keeps hs_files write_local_voter_seen.
Proof. by apply keeps_atomic_hs. Qed.

End store.

#[export] Hint Resolve keeps_on_disk_hs keeps_check_hs keeps_append_serialized keeps_truncate_and_append
  keeps_rewrite_hs keeps_write_snapshot_json keeps_read_snapshot_file keeps_write_staged_learners
  keeps_write_local_voter_seen : keeps.

(** *** Entries and snapshots *)

Section entries.
Context `{D : RequestDigest} `{C : RaftCodec}.

Ltac hs_steps :=
  keeps_steps; try (apply keeps_modify_state_hs; by intros); keeps_steps.

Lemma keeps_update_hs f :
  (forall s s', f s = RaftOk s' -> hard_state s' = hard_state s /\
     hard_state_commit_generation s' = hard_state_commit_generation s) ->
  keeps hs_same (update_state f).
Proof.
  intros Hf st r st'. unfold update_state, bindR, check, mbind, M_bind, mret, M_ret. simpl.
  destruct (f (ls_state st)) as [s'|e] eqn:Hs; intros [= <- <-]; [|done].
  apply Hf in Hs as [H1 H2]. by split_and!.
Qed.

Lemma replace_retained_hs s l sizes s' :
  replace_retained_log_state s l sizes = RaftOk s' ->
  hard_state s' = hard_state s /\ hard_state_commit_generation s' = hard_state_commit_generation s.
Proof.
  unfold replace_retained_log_state, replace_retained_log_state_with_fingerprints, mbind, RaftResult_bind.
  destruct (validate_retained_log_entry_bytes_len _ _); [|done].
  destruct (retained_request_identity_fingerprints_after _ _); [|done].
  destruct (log_end _ _). by intros [= <-].
Qed.

Lemma refresh_hs s s' :
  refresh_retained_request_identity_fingerprints s = RaftOk s' ->
  hard_state s' = hard_state s /\ hard_state_commit_generation s' = hard_state_commit_generation s.
Proof.
  unfold refresh_retained_request_identity_fingerprints, mbind, RaftResult_bind.
  destruct (retained_request_identity_fingerprints_after _ _); [|done]. by intros [= <-].
Qed.

Lemma keeps_update_replace l sizes :
  keeps hs_same (update_state (fun s => replace_retained_log_state s l sizes)).
Proof. apply keeps_update_hs. intros s s'. apply replace_retained_hs. Qed.

Lemma keeps_update_refresh : keeps hs_same (update_state refresh_retained_request_identity_fingerprints).
Proof. apply keeps_update_hs, refresh_hs. Qed.

Lemma keeps_append_lens entries : keeps hs_same (append_log_entries_with_lens entries).
Proof. unfold append_log_entries_with_lens. hs_steps. Qed.

Lemma keeps_read_log_hs : keeps hs_files read_log_entries.
Proof. apply keeps_files_other, keeps_read_log_entries. Qed.

Lemma extend_state_hs entries sizes s :
  hard_state (extend_state entries sizes s) = hard_state s /\
  hard_state_commit_generation (extend_state entries sizes s) = hard_state_commit_generation s.
Proof. unfold extend_state. cbv zeta. by destruct (last entries). Qed.

Lemma keeps_extend entries sizes : keeps hs_same (modify_state (extend_state entries sizes)).
Proof. apply keeps_modify_state_hs; intros s; apply extend_state_hs. Qed.

Hint Resolve keeps_update_replace keeps_update_refresh keeps_append_lens keeps_read_log_hs
  keeps_extend : keeps.

Lemma keeps_append_batch term commands at_ : keeps hs_same (append_batch term commands at_).
Proof. unfold append_batch. hs_steps. Qed.

Lemma keeps_reload_after {A} what err : keeps hs_same (@reload_after _ _ _ A what err).
Proof. unfold reload_after, reload_retained_log_from_disk. hs_steps. Qed.
Hint Resolve keeps_reload_after : keeps.

Lemma keeps_rewrite_from_leader c i pos : keeps hs_same (rewrite_from_leader c i pos).
Proof. unfold rewrite_from_leader. hs_steps. Qed.

Lemma keeps_extend_from_leader c l : keeps hs_same (extend_from_leader c l).
Proof. unfold extend_from_leader. hs_steps. Qed.
Hint Resolve keeps_rewrite_from_leader keeps_extend_from_leader : keeps.

Lemma keeps_append_entries pi pt t c l : keeps hs_same (append_entries_from_leader pi pt t c l).
Proof. unfold append_entries_from_leader. hs_steps. Qed.

Lemma keeps_repair_sizes : keeps hs_same repair_retained_log_entry_byte_cache.
Proof. unfold repair_retained_log_entry_byte_cache. hs_steps. Qed.

Lemma keeps_adopt_context md fps : keeps hs_same (adopt_snapshot_context md fps).
Proof. unfold adopt_snapshot_context. hs_steps. Qed.
Hint Resolve keeps_repair_sizes keeps_adopt_context : keeps.

Lemma keeps_write_snapshot i t payload at_ : keeps hs_same (write_snapshot i t payload at_).
Proof.
  unfold write_snapshot, write_same_index_snapshot, write_new_snapshot. hs_steps.
  all: apply keeps_modify_state_hs; intros s; by destruct (bool_decide (last_index s <= i)).
Qed.

Lemma keeps_install_snapshot i t sha payload at_ :
  keeps hs_same (install_snapshot_from_leader i t sha payload at_).
Proof.
  unfold install_snapshot_from_leader, validate_existing_snapshot_matches_install, install_new_snapshot.
  hs_steps.
Qed.

Lemma keeps_compact i : keeps hs_same (compact_through i).
Proof. unfold compact_through. hs_steps. Qed.

End entries.
