(* ===== verification/RaftVotes.v ===== *)
(** * Terms, votes and roles of a node

    With a fixed membership, what every critical section of a node keeps: its
    runtime agrees with its hard state, the hard state with the disk, a
    candidate or a leader has voted for itself, and neither the term nor the
    vote of a term is ever taken back. *)

From S2P Require Import Prelude Text Monad Protocol Queue BrokerTypes BrokerState Broker BrokerOps.
From S2P Require Import BrokerSnapshot.
From S2P Require Import RaftQuorum RaftQuorumFacts RaftGrant RaftValidate RaftCache RaftFiles.
From S2P Require Import RaftFilesFacts RaftLog.
From S2P Require Import RaftHardState RaftLogFacts RaftNode RaftApply RaftApplyFacts.
From S2P Require Import RaftNodeOps RaftFollower RaftLeader RaftFrames.
From stdpp Require Import options.
Import Membership.

(** ** The order on votes *)

Definition hs_vote (hs : RaftHardState) : Z * option string := (hs_current_term hs, hs_voted_for hs).

(** [b] keeps the term and the vote of [a], or is in a later term. *)
Definition vote_le (a b : Z * option string) : Prop :=
  a.1 < b.1 \/ (a.1 = b.1 /\ (a.2 = None \/ b.2 = a.2)).

#[global] Instance vote_le_preorder : PreOrder vote_le.
Proof.
  split; [by intros [t v]; right; auto|]. intros [t1 v1] [t2 v2] [t3 v3]. unfold vote_le. simpl.
  intros [H1|[-> H1]] [H2|[-> H2]]; [left; lia..|left; lia|right]. split; [done|].
  destruct H1 as [->| ->], H2 as [->| ->]; auto.
Qed.

Lemma hs_le_vote a b : hs_le a b -> vote_le (hs_vote a) (hs_vote b).
Proof. by intros [_ H]. Qed.

(** The vote that results from asking for [v] in [t] when [cur] is held. *)
Definition next_vote (cur : Z * option string) (t : Z) (v : option string) : Z * option string :=
  (t, if bool_decide (t = cur.1) then match cur.2 with Some x => Some x | None => v end else v).

Lemma next_vote_le cur t v : cur.1 <= t -> vote_le cur (next_vote cur t v).
Proof.
  intros Ht. unfold vote_le, next_vote. simpl. case_bool_decide; [right|left; lia].
  split; [done|]. destruct cur.2; auto.
Qed.

Lemma next_hard_state_vote cur state next :
  next_hard_state cur state PreserveSameTermVote = RaftOk next ->
  hs_current_term cur <= hs_current_term state ->
  hs_vote next = next_vote (hs_vote cur) (hs_current_term state) (hs_voted_for state).
Proof.
  destruct cur as [ct cv cc], state as [t v c].
  unfold next_hard_state, mbind, RaftResult_bind, hs_vote, next_vote. simpl. intros H Ht.
  rewrite (bool_decide_eq_false_2 (t < ct)) in H by lia. simpl in H.
  case_bool_decide; [subst t|by injection H as <-].
  destruct cv as [a|], v as [b|]; simpl in H; [case_bool_decide as Hab; [done|]|..];
    injection H as <-; simpl; auto.
  destruct (decide (a = b)) as [->|]; [done|]. by destruct Hab.
Qed.

(** ** Writing the hard state *)

Lemma wp_wlp {S A} (m : M S A) Q s : wp m Q s -> wlp m Q s.
Proof. intros (a & s' & Hm & HQ)%wp_done b s2 Hb. rewrite Hm in Hb. by injection Hb as <- <-. Qed.

Section write.
Context `{C : RaftCodec}.

(** The entries and the snapshot are what they were, in memory and on the
    disk. *)
Definition log_kept (st st' : RaftLogStore) : Prop :=
  retained_log_entries (ls_state st') = retained_log_entries (ls_state st) /\
  latest_snapshot (ls_state st') = latest_snapshot (ls_state st) /\
  d_snapshot (ls_disk st') = d_snapshot (ls_disk st).

#[global] Instance log_kept_preorder : PreOrder log_kept.
Proof. split; [done|]. intros s1 s2 s3 (?&?&?) (?&?&?). split_and!; congruence. Qed.

Lemma wlp_on_disk {A} (m : M Disk A) Q st :
  wlp m (fun a d => Q a (set_ls_disk d st)) (ls_disk st) -> wlp (on_disk m) Q st.
Proof.
  intros H a st'. unfold on_disk. destruct (m (ls_disk st)) eqn:Heq; intros [= <- <-]. by apply H.
Qed.

Lemma wlp_modify_state f Q st :
  Q tt (set_ls_state (f (ls_state st)) st) -> wlp (modify_state f) Q st.
Proof. intros H. unfold modify_state. by apply wlp_modify. Qed.

Lemma write_json_outcomes next d :
  wlp (write_hard_state_json next)
    (fun _ d' => d_snapshot d' = d_snapshot d /\
       (d_hard_state d' = d_hard_state d \/ d_hard_state d' = Some next)) d.
Proof.
  intros r d'. unfold write_hard_state_json, io_atomic, io_call.
  destruct (d_frozen d); [intros [= <- <-]; auto|].
  destruct (d_faults d) as [|[|k msg|k] fs]; intros [= <- <-]; simpl; auto; case_bool_decide; simpl; auto.
Qed.

Definition json_vote (st : RaftLogStore) : option string :=
  hs_voted_for (json_hard_state (ls_disk st)).

(** What becomes of a write of [state]: the disk's vote is the old one, the
    new one, or the one in memory; after an error the memory is unchanged. *)
Definition written (state : RaftHardState) (st : RaftLogStore) (r : RaftResult unit)
    (st' : RaftLogStore) : Prop :=
  log_kept st st' /\
  (forall v, json_vote st' = Some v -> json_vote st = Some v \/ hs_voted_for state = Some v \/
     hs_voted_for (hard_state (ls_state st)) = Some v) /\
  match r with
  | RaftOk _ => hs_vote (hard_state (ls_state st')) =
      next_vote (hs_vote (hard_state (ls_state st))) (hs_current_term state) (hs_voted_for state)
  | RaftErr _ => hard_state (ls_state st') = hard_state (ls_state st)
  end.

Lemma write_hard_state_written state st :
  hs_durable st -> hs_current_term (hard_state (ls_state st)) <= hs_current_term state ->
  wlp (write_hard_state state) (written state st) st.
Proof.
  intros Hd Ht. unfold written.
  unfold write_hard_state, write_hard_state_with_vote_policy. apply wlp_bind, wlp_get, wlp_bindR, wlp_ret.
  destruct (next_hard_state _ state _) as [next|e] eqn:Hnext; [|split; [done|split; [by auto|done]]].
  pose proof (next_hard_state_vote _ _ _ Hnext Ht) as Hnv.
  assert (forall v, hs_voted_for next = Some v -> hs_voted_for state = Some v \/
    hs_voted_for (hard_state (ls_state st)) = Some v) as Hnew.
  { intros v Hv. injection Hnv as _ Hnv. rewrite Hv in Hnv. simpl in Hnv.
    repeat case_match; auto; simplify_eq; auto. }
  case_bool_decide as Heq.
  { apply wlp_ret. split; [done|split; [by auto|]]. rewrite <-Hnv. by rewrite Heq. }
  destruct (_ && _).
  - case_bool_decide; [apply wlp_ret; split; [done|split; [by auto|done]]|].
    apply wlp_bindR, wlp_on_disk. pose proof (du_wf _ Hd) as Hwf. pose proof (du_generation _ Hd).
    eapply wlp_mono; [apply wp_wlp, write_slot_outcomes; [lia|done]|].
    intros [[]|e] d' [[H1 H2 H3 H4 H5] _].
    + apply wlp_bind, wlp_modify_state, wlp_ret. unfold log_kept, json_vote, json_hard_state. simpl.
      rewrite H2. split; [auto|split; [by auto|done]].
    + unfold log_kept, json_vote, json_hard_state. simpl. rewrite H2. split; [auto|split; [by auto|done]].
  - apply wlp_bindR, wlp_on_disk. eapply wlp_mono; [apply write_json_outcomes|].
    assert (forall d', (d_hard_state d' = d_hard_state (ls_disk st) \/ d_hard_state d' = Some next) ->
      forall v, hs_voted_for (json_hard_state d') = Some v -> json_vote st = Some v \/
        hs_voted_for state = Some v \/ hs_voted_for (hard_state (ls_state st)) = Some v) as Hj.
    { intros d' Hor v. unfold json_vote, json_hard_state.
      destruct Hor as [->| ->]; [by left|]. simpl. intros Hv'. right. auto. }
    intros [[]|e] d' [H1 H2].
    + apply wlp_bind, wlp_modify_state, wlp_ret. split; [done|split; [exact (Hj d' H2)|done]].
    + split; [done|split; [exact (Hj d' H2)|done]].
Qed.

(** A write in the current term or a later one: the vote in memory is the one
    asked for unless the term already has one. *)
Lemma write_hard_state_spec state st :
  hs_durable st -> hs_current_term (hard_state (ls_state st)) <= hs_current_term state ->
  wlp (write_hard_state state)
    (fun r st' => written state st r st' /\ hs_durable st' /\
       (r = RaftOk tt -> hs_le state (hard_state (ls_state st')))) st.
Proof.
  intros Hd Ht. apply wlp_conj; [by apply write_hard_state_written|].
  eapply wlp_mono; [apply wp_wlp, (write_hard_state_durable _ _ Hd)|].
  intros r st' (H1 & _ & H2). auto.
Qed.

End write.

(** ** A node of a fixed membership *)

Section node.
Context `{LQ : LinkedQueueCrate} `{E : Env} `{D : RequestDigest} `{C : RaftCodec}.

Context (membership : RaftMembership).

Definition rt_vote (n : RaftNode) : Z * option string :=
  (rt_current_term (rn_runtime n), rt_voted_for (rn_runtime n)).

Definition voter_ok (vote : option string) : Prop :=
  forall id, vote = Some id -> contains_id membership id = true.

Record node_ok (n : RaftNode) : Prop := {
  no_durable : hs_durable (rn_log n);
  no_synced : hs_vote (hard_state (rn_state n)) = rt_vote n;
  no_membership : rt_membership (rn_runtime n) = membership;
  no_local : contains_peer membership (local_configured_peer (rn_config n)) = true;
  no_candidate : rt_role (rn_runtime n) <> Follower ->
    rt_voted_for (rn_runtime n) = Some (nc_node_id (rn_config n));
  no_voter : voter_ok (rt_voted_for (rn_runtime n));
  no_disk_voter : voter_ok (json_vote (rn_log n));
}.

(** From [n] to [n'] nothing promised is taken back, and no one becomes a
    leader. *)
Record evolves (n n' : RaftNode) : Prop := {
  ev_ok : node_ok n';
  ev_config : rn_config n' = rn_config n;
  ev_vote : vote_le (rt_vote n) (rt_vote n');
  ev_leader : rt_role (rn_runtime n') = Leader ->
    rt_role (rn_runtime n) = Leader /\ rt_current_term (rn_runtime n') = rt_current_term (rn_runtime n);
}.

Definition moves (n n' : RaftNode) : Prop := node_ok n -> evolves n n'.

Lemma evolves_refl n : node_ok n -> evolves n n.
Proof. by constructor. Qed.

Lemma evolves_trans n1 n2 n3 : evolves n1 n2 -> evolves n2 n3 -> evolves n1 n3.
Proof.
  intros [A1 A2 A3 A4] [B1 B2 B3 B4]. constructor; [done|congruence|by etrans|].
  intros H. destruct (B4 H) as [H1 H2]. destruct (A4 H1) as [H3 H4]. split; [done|congruence].
Qed.

#[global] Instance moves_preorder : PreOrder moves.
Proof.
  split; [intros n Hn; by apply evolves_refl|]. intros n1 n2 n3 H1 H2 Hn.
  specialize (H1 Hn). eapply evolves_trans; [done|apply H2, H1].
Qed.

(** The log has no membership command, and a snapshot no other membership. *)
Definition payload_static (allow : bool) (payload : Value) : Prop :=
  membership_from_snapshot_payload payload allow = RaftOk None \/
  membership_from_snapshot_payload payload allow = RaftOk (Some membership).

Definition sets_membership (command : RaftCommand) : bool :=
  match command with SetMembership _ => true | _ => false end.

Definition store_static (allow : bool) (st : RaftLogStore) : Prop :=
  Forall (fun e => sets_membership (le_command e) = false) (retained_log_entries (ls_state st)) /\
  (forall sf, d_snapshot (ls_disk st) = Some sf -> payload_static allow (sf_payload sf)).

Definition static (n : RaftNode) : Prop := store_static (nc_in_memory (rn_config n)) (rn_log n).

Definition node_log_kept (n n' : RaftNode) : Prop :=
  rn_config n' = rn_config n /\ log_kept (rn_log n) (rn_log n').

#[global] Instance node_log_kept_preorder : PreOrder node_log_kept.
Proof.
  split; [done|]. intros n1 n2 n3 [H1 H2] [H3 H4]. split; [congruence|by etrans].
Qed.

Lemma log_kept_static n n' : node_log_kept n n' -> static n -> static n'.
Proof.
  intros [Hc (H1 & H2 & H3)] [S1 S2]. unfold static, store_static. rewrite Hc, H1, H3. done.
Qed.

(** What is applied leaves the log alone. *)
Definition calm (n n' : RaftNode) : Prop := moves n n' /\ node_log_kept n n'.

#[global] Instance calm_preorder : PreOrder calm.
Proof.
  split; [done|]. intros n1 n2 n3 [H1 H2] [H3 H4]. split; by etrans.
Qed.

(** *** The parts a section is made of *)

Lemma hs_same_moves st n : hs_same (rn_log n) st -> moves n (set_rn_log st n).
Proof.
  intros Hs [H1 H2 H3 H4 H5 H6 H7]. pose proof Hs as (G1 & G2 & [G3 G4]). constructor; [|done|done|done].
  constructor; try done; [by eapply hs_same_durable|by unfold rn_state; simpl; rewrite G1|].
  simpl. unfold json_vote, json_hard_state in *. by rewrite G3.
Qed.

Lemma keeps_log_moves {A} (m : M RaftLogStore A) : keeps hs_same m -> keeps moves (on_log m).
Proof.
  intros Hm n a n'. unfold on_log. destruct (m (rn_log n)) as [b l| |] eqn:Heq; intros [= <- <-].
  apply hs_same_moves. by apply Hm in Heq.
Qed.

Lemma keeps_log_calm {A} (m : M RaftLogStore A) :
  keeps hs_same m -> keeps log_kept m -> keeps calm (on_log m).
Proof.
  intros Hm Hk n a n' H. split; [by eapply keeps_log_moves|]. unfold on_log in H.
  destruct (m (rn_log n)) as [b l| |] eqn:Heq; simplify_eq. split; [done|]. by apply Hk in Heq.
Qed.

Lemma keeps_broker_calm {A} (m : M World A) : keeps calm (on_broker m).
Proof.
  intros n a n'. unfold on_broker. destruct (m (rn_broker n)); intros [= <- <-]. split; [|done].
  intros [H1 H2 H3 H4 H5 H6 H7]. by constructor.
Qed.

Lemma keeps_cache_calm {A} (m : M CacheNode A) : keeps calm (on_cache m).
Proof.
  intros n a n'. unfold on_cache. destruct (m (rn_cache n)); intros [= <- <-]. split; [|done].
  intros [H1 H2 H3 H4 H5 H6 H7]. by constructor.
Qed.

(** An update of the runtime that leaves the term, the vote, the role and the
    membership. *)
Lemma runtime_calm f n :
  rt_vote (set_rn_runtime (f (rn_runtime n)) n) = rt_vote n ->
  rt_role (f (rn_runtime n)) = rt_role (rn_runtime n) ->
  rt_membership (f (rn_runtime n)) = rt_membership (rn_runtime n) ->
  calm n (set_rn_runtime (f (rn_runtime n)) n).
Proof.
  intros Hv Hr Hm. split; [|done]. intros [H1 H2 H3 H4 H5 H6 H7]. pose proof Hv as Hv'.
  injection Hv' as Ht Hvote. constructor; simpl; try done.
  - constructor; simpl; try done; [by rewrite Hv|by rewrite Hm|by rewrite Hr, Hvote|by rewrite Hvote].
  - by rewrite Hv.
  - rewrite Hr, Ht. done.
Qed.

Lemma keeps_runtime_calm f :
  (forall r, rt_current_term (f r) = rt_current_term r) -> (forall r, rt_voted_for (f r) = rt_voted_for r) ->
  (forall r, rt_role (f r) = rt_role r) -> (forall r, rt_membership (f r) = rt_membership r) ->
  keeps calm (modify_runtime f).
Proof.
  intros H1 H2 H3 H4 n a n' [= <- <-]. apply runtime_calm; [|done|done].
  unfold rt_vote. simpl. by rewrite H1, H2.
Qed.

Lemma keeps_calm_moves {A} (m : M RaftNode A) : keeps calm m -> keeps moves m.
Proof. apply keeps_mono. by intros n n' [H _]. Qed.

Hint Resolve keeps_log_calm keeps_broker_calm keeps_cache_calm : keeps.

(** *** Applying commands *)

Lemma keeps_sidecar_kept f :
  (forall d, d_snapshot (f d) = d_snapshot d) -> keeps log_kept (on_disk (io_atomic f)).
Proof.
  intros Hf st a st'. unfold on_disk, io_atomic, io_call. intros H.
  destruct (d_frozen _); [injection H as <- <-; by destruct st|].
  destruct (d_faults _) as [|[|k msg|k] fs]; injection H as <- <-; unfold log_kept; simpl;
    rewrite ?Hf; try done; case_bool_decide; simpl; by rewrite ?Hf.
Qed.

Lemma keeps_gate_kept : keeps log_kept (on_disk io_gate).
Proof.
  intros st a st'. unfold on_disk, io_gate, io_call. intros H.
  destruct (d_frozen _); [injection H as <- <-; by destruct st|].
  by destruct (d_faults _) as [|[|k msg|k] fs]; injection H as <- <-.
Qed.

Lemma keeps_learners_kept ls : keeps log_kept (on_disk (write_staged_learners ls)).
Proof.
  unfold write_staged_learners. case_bool_decide as Hempty; [|by apply keeps_sidecar_kept].
  intros st a st' H. unfold on_disk, mbind, M_bind in H. simpl in H.
  destruct (d_learners (ls_disk st)); [|injection H as <- <-; by destruct st].
  unfold bindR, mbind, M_bind in H.
  destruct (io_atomic (set_d_learners None) (ls_disk st)) as [[[]|e] d| |] eqn:Heq; simplify_eq.
  - assert (log_kept st (set_ls_disk d st)) as H1.
    { apply (keeps_sidecar_kept (set_d_learners None) ltac:(done) st (RaftOk tt)).
      unfold on_disk. by rewrite Heq. }
    destruct (io_gate d) as [r d'| |] eqn:Hg; simplify_eq. etrans; [exact H1|].
    apply (keeps_gate_kept _ a). unfold on_disk. simpl. by rewrite Hg.
  - injection H as <- <-.
    apply (keeps_sidecar_kept (set_d_learners None) ltac:(done) st (RaftErr e)).
    unfold on_disk. by rewrite Heq.
Qed.

Lemma keeps_persist_calm ls active : keeps calm (persist_staged_learners_for_active_peers ls active).
Proof.
  unfold persist_staged_learners_for_active_peers. keeps_steps.
  apply keeps_log_calm; [auto with keeps|apply keeps_learners_kept].
Qed.
Hint Resolve keeps_persist_calm : keeps.

Lemma keeps_staged_learners_calm ls : keeps calm (apply_staged_learners ls).
Proof. unfold apply_staged_learners. keeps_steps. by apply keeps_runtime_calm. Qed.

Lemma keeps_restore_calm ls active reason err :
  keeps calm (restore_staged_learners_after_membership_preflight_failure ls active reason err).
Proof. unfold restore_staged_learners_after_membership_preflight_failure. keeps_steps. Qed.

(** The membership's own members are active. *)
Lemma contains_id_active id :
  contains_id membership id = true <-> id ∈ ids (active_peers membership).
Proof.
  assert (forall peers, existsb (fun p => bool_decide (peer_id p = id)) peers = true <->
    id ∈ ids (normalize_peers peers)) as H.
  { intros peers. destruct (normalize_peers_ids peers) as [_ ->]. rewrite elem_of_ids, existsb_exists.
    setoid_rewrite bool_decide_eq_true. by setoid_rewrite list_elem_of_In. }
  destruct membership; apply H.
Qed.

Lemma voter_active vote :
  voter_ok vote -> is_active_vote (ids (active_peers membership)) vote = true.
Proof.
  intros Hv. unfold is_active_vote. destruct vote as [id|]; [|done].
  by apply bool_decide_eq_true, contains_id_active, Hv.
Qed.

Lemma adopt_own_membership config next r :
  rt_membership r = membership -> contains_peer membership (local_configured_peer config) = true ->
  voter_ok (rt_voted_for r) ->
  let r' := adopt_membership config membership next r in
  rt_current_term r' = rt_current_term r /\ rt_voted_for r' = rt_voted_for r /\
  rt_role r' = rt_role r /\ rt_membership r' = membership.
Proof.
  intros Hm Hl Hv. unfold adopt_membership. cbv zeta. rewrite Hl.
  change (list_to_set (peer_id <$> active_peers membership)) with (ids (active_peers membership)).
  destruct (is_active_vote (ids (active_peers membership)) (rt_leader_id _)); simpl;
    rewrite (voter_active _ Hv); by case_bool_decide.
Qed.

(** Applying the membership the node already has changes nothing that matters
    here; in particular the vote stays. *)
Lemma apply_own_membership m n :
  validate_raft_membership_for_transport m (nc_in_memory (rn_config n)) = RaftOk membership ->
  node_ok n -> wlp (apply_membership m) (fun _ n' => calm n n') n.
Proof.
  intros Hm Hok. unfold apply_membership. apply wlp_bind, wlp_get. rewrite Hm. cbv zeta.
  pose proof Hok as [H1 H2 H3 H4 H5 H6 H7].
  rewrite H4. change (list_to_set (peer_id <$> active_peers membership)) with (ids (active_peers membership)).
  rewrite (voter_active _ H6). simpl. apply wlp_bindR.
  intros r1 n1 Hr1. apply keeps_persist_calm in Hr1 as Hc1. destruct r1 as [[]|]; [|done].
  apply wlp_bind, wlp_ret. apply wlp_bind. intros r2 n2 Hr2.
  assert (calm n1 n2) as Hc2.
  { destruct (negb _); [|by injection Hr2 as <- <-].
    revert Hr2. apply keeps_log_calm; [auto with keeps|by apply keeps_sidecar_kept]. }
  assert (calm n n2) as Hc by by etrans.
  destruct r2 as [[]|err].
  - apply wlp_bind, wlp_modify, wlp_ret. etrans; [exact Hc|].
    destruct Hc as [Hmv _]. specialize (Hmv Hok) as [[G1 G2 G3 G4 G5 G6 G7] Hcfg _ _]. rewrite Hcfg in G4.
    destruct (adopt_own_membership (rn_config n) (saturating_add64 (last_index (rn_state n)) 1)
      (rn_runtime n2) G3 G4 G6) as (F1 & F2 & F3 & F4).
    apply runtime_calm; [|done|congruence]. unfold rt_vote. simpl. by rewrite F1, F2.
  - apply wlp_bind. intros e n3 Hr3. apply keeps_restore_calm in Hr3. apply wlp_ret. by etrans.
Qed.

Lemma keeps_command_calm command : sets_membership command = false -> keeps calm (apply_command command).
Proof.
  intros Hs. pose proof keeps_staged_learners_calm.
  destruct command; simpl; [..|done|done]; keeps_steps.
Qed.

Lemma keeps_entries_calm entries :
  Forall (fun e => sets_membership (le_command e) = false) entries -> keeps calm (apply_entries entries).
Proof.
  induction 1 as [|e entries He _ IH]; simpl; [keeps_steps|].
  pose proof (keeps_command_calm _ He). keeps_steps.
  intros n0 u n1 [= <- <-]. by apply (runtime_calm (set_rt_last_applied (le_index e))).
Qed.

Lemma entries_range_static s e n r n' :
  entries_range s e n = Done r n' -> static n ->
  n' = n /\ forall entries, r = RaftOk entries ->
    Forall (fun e => sets_membership (le_command e) = false) entries.
Proof.
  intros H [Hst _]. unfold entries_range, mbind, M_bind in H. simpl in H.
  unfold rn_retained_log_entries, rn_state in H.
  destruct (entries_range_of _ _ _ _) as [res|] eqn:Heq; [|done]. injection H as <- <-.
  split; [done|]. intros entries ->. unfold entries_range_of, entries_range_cached in Heq.
  repeat case_match; simplify_eq; first [by apply Forall_nil_2|by apply Forall_take, Forall_drop].
Qed.

(** Applying the committed entries. *)
Lemma apply_committed_loop_calm fuel n :
  static n -> wlp (apply_committed_loop fuel) (fun _ n' => calm n n') n.
Proof.
  revert n. induction fuel as [|fuel IH]; intros n Hs; simpl; [done|].
  apply wlp_bind, wlp_get. cbv zeta. case_bool_decide; [by apply wlp_ret|].
  apply wlp_bind. intros r n1 Hr. destruct (entries_range_static _ _ _ _ _ Hr Hs) as [-> Hes].
  assert (forall n2, calm n n2 -> wlp (apply_committed_loop fuel) (fun _ n' => calm n n') n2) as Hgo.
  { intros n2 Hc. eapply wlp_mono; [apply IH|].
    - by eapply log_kept_static, Hs; destruct Hc.
    - intros ? n3 H3. by etrans. }
  destruct r as [[|e entries]|err]; [| |by apply wlp_ret].
  - apply wlp_bind, wlp_modify, Hgo. by apply (runtime_calm (set_rt_last_applied _)).
  - apply wlp_bind. intros r2 n2 H2.
    assert (calm n n2) by by eapply keeps_entries_calm; [apply Hes|].
    destruct r2 as [[]|]; [by apply Hgo|by apply wlp_ret].
Qed.

Lemma apply_committed_calm n : static n -> wlp apply_committed (fun _ n' => calm n n') n.
Proof. intros Hs. unfold apply_committed. apply wlp_bind, wlp_get, (apply_committed_loop_calm _ _ Hs). Qed.

(** Compaction changes the log but not the votes. *)
Lemma keeps_compact_moves clock : keeps moves (snapshot_and_compact_if_needed clock).
Proof.
  unfold snapshot_and_compact_if_needed, take_snapshot_and_compact.
  pose proof (fun i => keeps_log_moves _ (keeps_compact i)).
  pose proof (fun i t p at_ => keeps_log_moves _ (keeps_write_snapshot i t p at_)).
  pose proof (fun A (m : M World A) => keeps_calm_moves _ (keeps_broker_calm m)).
  assert (forall a b c, keeps moves (on_log (compact_through_for_retained_age a b c))) as Hage.
  { intros. apply keeps_log_moves. unfold compact_through_for_retained_age. keeps_steps.
    by apply keeps_modify_state_hs. }
  keeps_steps; auto.
  all: intros n0 u n1 [= <- <-]; intros []; by constructor.
Qed.

Lemma apply_compact_moves clock compact n :
  static n -> wlp (apply_committed_and_maybe_compact clock compact) (fun _ n' => moves n n') n.
Proof.
  intros Hs. unfold apply_committed_and_maybe_compact. apply wlp_bindR.
  eapply wlp_mono; [by apply apply_committed_calm|]. intros [[]|] n1 [H1 H1']; [|done].
  destruct compact; [|by apply wlp_ret].
  intros r n2 H2. apply keeps_compact_moves in H2. by etrans.
Qed.

Lemma apply_no_compact_calm clock n :
  static n -> wlp (apply_committed_and_maybe_compact clock false) (fun _ n' => calm n n') n.
Proof.
  intros Hs. unfold apply_committed_and_maybe_compact. apply wlp_bindR.
  eapply wlp_mono; [by apply apply_committed_calm|]. intros [[]|] n1 H1; [|done]. by apply wlp_ret.
Qed.

(** *** Writing the hard state *)

Lemma wlp_on_log {A} (m : M RaftLogStore A) Q n :
  wlp m (fun a st => Q a (set_rn_log st n)) (rn_log n) -> wlp (on_log m) Q n.
Proof.
  intros H a n'. unfold on_log. destruct (m (rn_log n)) eqn:Heq; intros [= <- <-]. by apply H.
Qed.

(** The outcome of a write of [hs] by a node. *)
Record store_written (hs : RaftHardState) (n : RaftNode) (r : RaftResult unit) (st : RaftLogStore)
    : Prop := {
  sw_kept : log_kept (rn_log n) st;
  sw_durable : hs_durable st;
  sw_voter : voter_ok (json_vote st);
  sw_vote :
    match r with
    | RaftOk _ => hs_vote (hard_state (ls_state st))
                    = next_vote (rt_vote n) (hs_current_term hs) (hs_voted_for hs) /\
                  hs_le hs (hard_state (ls_state st))
    | RaftErr _ => hs_vote (hard_state (ls_state st)) = rt_vote n
    end;
}.

Lemma node_write hs n :
  node_ok n -> rt_current_term (rn_runtime n) <= hs_current_term hs -> voter_ok (hs_voted_for hs) ->
  wlp (write_hard_state hs) (store_written hs n) (rn_log n).
Proof.
  intros [H1 H2 H3 H4 H5 H6 H7] Ht Hv. pose proof H2 as [= Hterm Hvote].
  eapply wlp_mono; [apply write_hard_state_spec; [done|unfold rn_state in Hterm; lia]|].
  intros r st ((K1 & K2 & K3) & K4 & K5). unfold rn_state in *. constructor; [done|done| |].
  - intros id Hid. destruct (K2 id Hid) as [K|[K|K]]; [by apply H7|by apply Hv|].
    apply H6. congruence.
  - destruct r as [[]|]; [|by rewrite K3]. rewrite <-H2. auto.
Qed.

(** The store changes, the runtime stays. *)
Lemma store_calm st n :
  log_kept (rn_log n) st -> hs_durable st -> voter_ok (json_vote st) ->
  hs_vote (hard_state (ls_state st)) = rt_vote n -> calm n (set_rn_log st n).
Proof.
  intros Hk Hd Hj Hv. split; [|done]. intros [H1 H2 H3 H4 H5 H6 H7]. by constructor.
Qed.

(** The commit index moves, the vote stays. *)
Lemma write_same_calm c n :
  node_ok n ->
  wlp (write_hard_state (mkRaftHardState (rt_current_term (rn_runtime n))
                           (rt_voted_for (rn_runtime n)) c))
    (fun _ st => calm n (set_rn_log st n)) (rn_log n).
Proof.
  intros Hok. eapply wlp_mono; [by apply node_write, Hok|].
  intros r st [H1 H2 H3 H4]. apply store_calm; [done..|].
  destruct r; [|done]. destruct H4 as [-> _]. unfold next_vote, rt_vote. simpl.
  rewrite bool_decide_eq_true_2 by done. by destruct (rt_voted_for _).
Qed.

(** The node enters a term, or votes. *)
Lemma advance_evolves n st r :
  node_ok n -> hs_durable st -> voter_ok (json_vote st) ->
  hs_vote (hard_state (ls_state st)) = (rt_current_term r, rt_voted_for r) ->
  vote_le (rt_vote n) (rt_current_term r, rt_voted_for r) ->
  rt_membership r = membership -> voter_ok (rt_voted_for r) ->
  (rt_role r <> Follower -> rt_voted_for r = Some (nc_node_id (rn_config n))) ->
  (rt_role r = Leader -> rt_role (rn_runtime n) = Leader /\
     rt_current_term r = rt_current_term (rn_runtime n)) ->
  evolves n (set_rn_runtime r (set_rn_log st n)).
Proof. intros [H1 H2 H3 H4 H5 H6 H7]. intros. constructor; [by constructor|done..]. Qed.

(** A member of the membership is one of its voters. *)
Lemma contains_peer_id peer : contains_peer membership peer = true -> contains_id membership (peer_id peer) = true.
Proof.
  unfold contains_peer. rewrite existsb_exists. intros (p & Hp & Hb). apply contains_id_active.
  apply andb_prop in Hb as [Hb _]. apply bool_decide_eq_true in Hb. apply elem_of_ids.
  exists p. split; [by apply list_elem_of_In|done].
Qed.

Lemma sender_accepted role id addr n :
  node_ok n -> active_peer_sender_rejection_error role id addr n = None ->
  contains_id membership id = true /\ id <> nc_node_id (rn_config n).
Proof.
  intros Hok. unfold active_peer_sender_rejection_error, accepts_active_peer.
  rewrite (no_membership _ Hok). repeat case_bool_decide; try done.
  destruct (contains_peer membership _) eqn:Hc; [|by case_match]. intros _. split; [|done].
  by apply (contains_peer_id (mkRaftPeerConfig id addr)).
Qed.

(** *** Snapshots and the durable commit index *)

(** The membership is a validated one. *)
Context (valid : forall allow, validate_raft_membership_for_transport membership allow = RaftOk membership).

Lemma payload_calm index payload n :
  payload_static (nc_in_memory (rn_config n)) payload -> node_ok n ->
  wlp (apply_installed_snapshot_payload index payload) (fun _ n' => calm n n') n.
Proof using valid.
  intros Hp Hok. unfold apply_installed_snapshot_payload. apply wlp_bind, wlp_get. cbv zeta.
  apply wlp_bindR, wlp_ret. destruct (broker_result _) as [?|]; [|done].
  apply wlp_bindR, wlp_ret. destruct (membership_from_snapshot_payload _ _) as [sm|] eqn:Hsm; [|done].
  apply wlp_bindR, wlp_ret. destruct (staged_learners_from_snapshot_payload _ _ _) as [sl|]; [|done].
  apply wlp_bindR, wlp_ret. destruct (client_responses_from_snapshot_payload _) as [rs|]; [|done].
  apply wlp_bindR, wlp_ret. destruct (validate_snapshot_client_response_entries _) as [fps|]; [|done].
  apply wlp_bindR. intros r1 n1 Hr1.
  assert (calm n n1) as Hc1.
  { destruct (bool_decide _); [|by injection Hr1 as <- <-].
    apply (wlp_on_log _ (fun _ n' => calm n n')) in Hr1; [done|by apply write_same_calm]. }
  destruct r1 as [[]|]; [|done].
  apply wlp_bindR. intros r2 n2 Hr2.
  assert (calm n n2) as Hc2.
  2: { destruct r2 as [[]|]; [|done]. apply wlp_bind, wlp_modify, wlp_ret. etrans; [exact Hc2|].
       by apply (runtime_calm (fun r => set_rt_last_applied _ (set_rt_commit_index _ r))). }
  destruct (bool_decide (rt_last_applied (rn_runtime n) < index)); [|by injection Hr2 as <- <-].
  etrans; [exact Hc1|]. destruct Hc1 as [Hm1 [Hcfg _]]. specialize (Hm1 Hok) as [Hok1 _ _ _].
  apply (wlp_bindR _ _ (fun _ n' => calm n1 n')) in Hr2; [done|]. intros r3 n3 Hr3.
  assert (calm n1 n3) as Hc3.
  { destruct sm as [m|]; [|by injection Hr3 as <- <-].
    assert (m = membership) as -> by (destruct Hp as [Hp|Hp]; congruence).
    by eapply apply_own_membership; [apply valid| |]. }
  destruct r3 as [[]|]; [|done].
  apply wlp_bindR. intros r4 n4 Hr4.
  assert (calm n1 n4) as Hc4.
  { etrans; [exact Hc3|]. repeat case_match; simplify_eq; try (by eapply keeps_staged_learners_calm);
      by injection Hr4 as <- <-. }
  destruct r4 as [[]|]; [|done].
  apply wlp_bindR. intros r5 n5 Hr5. apply keeps_cache_calm in Hr5.
  destruct r5 as [[]|]; [|by etrans].
  apply wlp_bind. intros r6 n6 Hr6. apply keeps_broker_calm in Hr6. apply wlp_ret.
  etrans; [|exact Hr6]. by etrans.
Qed.

Lemma read_snapshot_payload d r d' :
  read_snapshot_file d = Done r d' ->
  d' = d /\ forall sf, r = RaftOk (Some sf) -> exists sf0, d_snapshot d = Some sf0 /\
    sf_payload sf = sf_payload sf0.
Proof.
  unfold read_snapshot_file, mbind, M_bind. simpl. intros H.
  repeat case_match; injection H as <- <-; split; try done; intros sf [= <-]; eauto.
Qed.

Lemma latest_snapshot_static allow st r st' :
  store_static allow st -> latest_snapshot_file st = Done r st' ->
  st' = st /\ forall sf, r = RaftOk (Some sf) -> payload_static allow (sf_payload sf).
Proof.
  intros [_ Hs] H. unfold latest_snapshot_file, bindR, on_disk, mbind, M_bind in H. simpl in H.
  destruct (read_snapshot_file (ls_disk st)) as [r1 d| |] eqn:Hr; [|done..].
  apply read_snapshot_payload in Hr as [-> Hsf].
  assert (set_ls_disk (ls_disk st) st = st) as Heq by by destruct st.
  rewrite Heq in H. destruct r1 as [o|e]; [|by injection H as <- <-].
  case_match; injection H as <- <-; (split; [done|]); intros sf [= ->].
  destruct (Hsf sf eq_refl) as (sf0 & Hd & ->). by apply Hs.
Qed.

Lemma apply_visible_calm clock n :
  static n -> node_ok n -> wlp (apply_visible_durable_commit_index clock) (fun _ n' => calm n n') n.
Proof using valid.
  intros Hs Hok. unfold apply_visible_durable_commit_index. apply wlp_bind, wlp_get. cbv zeta.
  case_bool_decide; [by apply wlp_ret|]. apply wlp_bindR. intros r1 n1 Hr1.
  assert (calm n n1) as Hc1.
  { destruct (latest_snapshot (rn_state n)); [|by injection Hr1 as <- <-].
    destruct (_ && _); [|by injection Hr1 as <- <-].
    apply (wlp_bindR _ _ (fun _ n' => calm n n')) in Hr1; [done|]. apply wlp_on_log. intros res st Hl.
    destruct (latest_snapshot_static _ _ _ _ Hs Hl) as [-> Hp].
    assert (set_rn_log (rn_log n) n = n) as Heq by by destruct n. rewrite Heq.
    destruct res as [[sf|]|]; [|by apply wlp_ret|done]. apply payload_calm; [by apply Hp|done]. }
  destruct r1 as [[]|]; [|done]. apply wlp_bind, wlp_modify, wlp_bind, wlp_get.
  set (n2 := set_rn_runtime _ n1).
  assert (calm n n2) as Hc2.
  { etrans; [exact Hc1|]. by apply (runtime_calm (set_rt_commit_index _)). }
  case_bool_decide; [|by apply wlp_ret].
  eapply wlp_mono; [apply apply_no_compact_calm; by eapply log_kept_static, Hs; destruct Hc2|].
  intros ? n3 H3. by etrans.
Qed.

End node.
