(* ===== verification/RaftElection.v ===== *)
(** * The critical sections and the votes

    Every section of a node's handlers, run on a node of a fixed membership,
    keeps the node well-formed and takes back neither its term nor its vote
    ([evolves] of [RaftVotes]); only [become_leader] makes a leader. *)

From S2P Require Import Prelude Text Monad Protocol Queue BrokerTypes BrokerState Broker BrokerOps.
From S2P Require Import BrokerSnapshot.
From S2P Require Import RaftQuorum RaftQuorumFacts RaftGrant RaftValidate RaftCache RaftFiles.
From S2P Require Import RaftFilesFacts RaftLog RaftHardState RaftLogFacts RaftNode.
From S2P Require Import RaftApply RaftApplyFacts RaftNodeOps RaftFollower RaftLeader RaftFrames RaftVotes.
From stdpp Require Import options.
Import Membership.

Section sections.
Context `{LQ : LinkedQueueCrate} `{E : Env} `{D : RequestDigest} `{C : RaftCodec}.
Context (membership : RaftMembership).
Context (valid : forall allow, validate_raft_membership_for_transport membership allow = RaftOk membership).

#[local] Abbreviation ok := (node_ok membership).
#[local] Abbreviation evolves := (evolves membership).
#[local] Abbreviation static := (static membership).
#[local] Abbreviation calm := (calm membership).
#[local] Abbreviation voter_ok := (voter_ok membership).

(** [m] evolves the node it starts from. *)
Definition section_ok {A} (m : M RaftNode A) : Prop :=
  forall n, static n -> ok n -> wlp m (fun _ n' => evolves n n') n.

Lemma calm_evolves n n' : ok n -> calm n n' -> evolves n n'.
Proof. intros Hok [Hm _]. by apply Hm. Qed.

Lemma calm_static n n' : static n -> calm n n' -> static n'.
Proof. intros Hs [_ Hk]. by eapply log_kept_static. Qed.

Lemma keeps_section {A} (m : M RaftNode A) : keeps (moves membership) m -> section_ok m.
Proof. intros Hm n _ Hok r n' Heq. by apply Hm in Heq as H; apply H. Qed.

Lemma apply_visible_section clock : section_ok (apply_visible_durable_commit_index clock).
Proof using valid.
  intros n Hs Hok. eapply wlp_mono; [by apply apply_visible_calm|]. intros ? n' Hc. by apply calm_evolves.
Qed.

Lemma apply_compact_section clock compact : section_ok (apply_committed_and_maybe_compact clock compact).
Proof.
  intros n Hs Hok. eapply wlp_mono; [by apply (apply_compact_moves membership)|].
  intros ? n' Hm. by apply Hm.
Qed.

Lemma voter_none : voter_ok None.
Proof. done. Qed.

(** ** Stepping down *)

Lemma step_down_section clock term leader_id : section_ok (step_down clock term leader_id).
Proof.
  intros n Hs Hok. unfold step_down. apply wlp_bind, wlp_get. cbv zeta.
  case_bool_decide as Hterm; [|by apply wlp_ret, evolves_refl].
  set (vote := if bool_decide _ then None else _).
  assert (voter_ok vote) as Hv by (unfold vote; case_bool_decide; [done|apply Hok]).
  apply wlp_bind, wlp_on_log. eapply wlp_mono; [by apply node_write|].
  intros r st [W1 W2 W3 W4]. destruct r as [[]|].
  2: { apply wlp_ret, calm_evolves; [done|]. by apply store_calm. }
  destruct W4 as [W4 _]. simpl in W4.
  assert (next_vote (rt_vote n) term vote = (term, vote)) as Hnext.
  { unfold next_vote, rt_vote, vote. simpl. f_equal. repeat case_bool_decide; try lia; [|done].
    by destruct (rt_voted_for _). }
  apply wlp_bind, wlp_get. apply wlp_bind, wlp_modify, wlp_bind, wlp_get.
  set (r := rn_runtime (set_rn_log st n)). set (r' := set_rt_election_deadline _ _).
  change (set_rn_runtime _ (set_rn_log st n)) with (set_rn_runtime r' (set_rn_log st n)).
  assert (evolves n (set_rn_runtime r' (set_rn_log st n))) as He.
  { apply advance_evolves; try done; [by rewrite W4| |apply Hok].
    change (vote_le (rt_vote n) (term, vote)). rewrite <-Hnext. apply next_vote_le. simpl. lia. }
  case_bool_decide; [|by apply wlp_ret].
  apply wlp_bind. intros r2 n2 Hr2. apply wlp_ret. eapply evolves_trans; [exact He|].
  revert r2 n2 Hr2. apply (apply_compact_section clock false); [|apply He].
  by apply (log_kept_static _ n).
Qed.

(** ** Votes *)

(** The write of [decide_vote]: with no vote granted the vote of the term
    stays, or the term is a new one without a vote. *)
Lemma write_vote_spec n term candidate li lt commit :
  let newer := bool_decide (rt_current_term (rn_runtime n) < term) in
  let t := Z.max (rt_current_term (rn_runtime n)) term in
  ok n -> contains_id membership candidate = true ->
  (newer = true \/ rt_voted_for (rn_runtime n) = None \/ rt_voted_for (rn_runtime n) = Some candidate) ->
  rt_current_term (rn_runtime n) <= term ->
  wlp (write_vote_hard_state_if_candidate_log_is_fresh (mkRaftHardState t (Some candidate) commit)
         (if newer then Some (mkRaftHardState t None commit) else None) li lt)
    (fun r st => log_kept (rn_log n) st /\ hs_durable st /\ voter_ok (json_vote st) /\
       hs_vote (hard_state (ls_state st)) =
         match r with
         | RaftOk true => (term, Some candidate)
         | RaftOk false => if newer then (term, None) else rt_vote n
         | RaftErr _ => rt_vote n
         end) (rn_log n).
Proof.
  intros newer t Hok Hc Hcan Hle. unfold t in *. rewrite Z.max_r by done.
  assert (forall vote, (newer = true \/ rt_voted_for (rn_runtime n) = None \/ rt_voted_for (rn_runtime n) = vote) ->
    next_vote (rt_vote n) term vote = (term, vote)) as Hnext.
  { intros vote Hor. unfold next_vote, rt_vote, newer in *. simpl. f_equal.
    destruct (bool_decide_reflect (term = rt_current_term (rn_runtime n))); [|done].
    rewrite bool_decide_eq_false_2 in Hor by lia. destruct Hor as [?|[->| ->]]; [done|done|]. by destruct vote. }
  unfold write_vote_hard_state_if_candidate_log_is_fresh. apply wlp_bind, wlp_get.
  destruct (negb _).
  - destruct newer eqn:Hn.
    + apply wlp_bindR. eapply wlp_mono; [by apply (node_write membership)|].
      intros r st [W1 W2 W3 W4]. destruct r as [[]|]; [|done]. apply wlp_ret. split_and!; try done.
      destruct W4 as [-> _]. simpl. apply Hnext. by left.
    + apply wlp_ret. split_and!; try done; apply Hok.
  - apply wlp_bindR. eapply wlp_mono; [apply (node_write membership); [done|done|]|].
    { by intros id [= ->]. }
    intros r st [W1 W2 W3 W4]. destruct r as [[]|]; [|done]. apply wlp_ret. split_and!; try done.
    destruct W4 as [-> _]. simpl. by apply Hnext.
Qed.

Lemma decide_vote_section clock term candidate addr li lt :
  section_ok (decide_vote clock term candidate addr li lt).
Proof.
  intros n Hs Hok. unfold decide_vote. apply wlp_bind, wlp_get. cbv zeta.
  destruct (negb (local_peer_is_active n)); [by apply wlp_ret, evolves_refl|].
  destruct (active_peer_sender_rejection_error _ _ _ _) eqn:Hsend; [by apply wlp_ret, evolves_refl|].
  destruct (sender_accepted _ _ _ _ _ Hok Hsend) as [Hc Hself].
  case_bool_decide as Hlt; [by apply wlp_ret, evolves_refl|].
  destruct (_ && _); [by apply wlp_ret, evolves_refl|].
  set (newer := bool_decide (rt_current_term (rn_runtime n) < term)).
  set (can_vote := newer || _).
  apply wlp_bind.
  apply (wlp_mono _ (fun r n' => exists st, n' = set_rn_log st n /\ log_kept (rn_log n) st /\
    hs_durable st /\ voter_ok (json_vote st) /\
    (r = RaftOk true -> can_vote = true) /\
    hs_vote (hard_state (ls_state st)) =
      match r with
      | RaftOk true => (term, Some candidate)
      | RaftOk false => if newer then (term, None) else rt_vote n
      | RaftErr _ => rt_vote n
      end)).
  { destruct can_vote eqn:Hcan.
    - apply wlp_on_log. eapply wlp_mono; [apply write_vote_spec; [done|done| |lia]|].
      + unfold can_vote in Hcan. apply orb_prop in Hcan as [Hn|Hv]; [by left|right].
        destruct (rt_voted_for _); [right|by left]. apply bool_decide_eq_true in Hv. by rewrite Hv.
      + intros r st (W1 & W2 & W3 & W4). by exists st.
    - unfold can_vote in Hcan. apply orb_false_elim in Hcan as [Hn _]. rewrite Hn. apply wlp_ret.
      exists (rn_log n). split_and!; [by destruct n|done|apply Hok|apply Hok|done|apply Hok]. }
  intros r n' (st & -> & W1 & W2 & W3 & Wc & W4). destruct r as [granted|err].
  2: { apply wlp_ret, calm_evolves; [done|]. by apply store_calm. }
  apply wlp_bind, wlp_modify, wlp_ret. cbv zeta.
  set (r := rn_runtime (set_rn_log st n)).
  assert (forall r', rt_current_term r' = (if newer then term else rt_current_term (rn_runtime n)) ->
    rt_voted_for r' = (if granted then Some candidate else if newer then None else rt_voted_for (rn_runtime n)) ->
    rt_role r' = (if newer then Follower else rt_role (rn_runtime n)) ->
    rt_membership r' = membership -> evolves n (set_rn_runtime r' (set_rn_log st n))) as Hgo.
  { intros r' E1 E2 E3 E4.
    assert (newer = false -> term = rt_current_term (rn_runtime n)) as Hsame.
    { unfold newer. intros Hn%bool_decide_eq_false. lia. }
    assert (newer = true -> rt_current_term (rn_runtime n) < term) as Hgt.
    { unfold newer. by intros Hn%bool_decide_eq_true. }
    apply advance_evolves; try done.
    - rewrite W4, E1, E2. destruct granted, newer; try done. by rewrite Hsame.
    - rewrite E1, E2. unfold vote_le, rt_vote. simpl. destruct newer; [left; auto|right]. split; [done|].
      destruct granted; [|by right]. specialize (Wc eq_refl). unfold can_vote in Wc. simpl in Wc.
      destruct (rt_voted_for _); [|by left]. apply bool_decide_eq_true in Wc as ->. by right.
    - rewrite E2. destruct granted; [by intros id [= <-]|]. destruct newer; [done|apply Hok].
    - rewrite E2, E3. destruct newer; [done|]. intros Hr. pose proof (no_candidate _ _ Hok Hr) as Hv.
      destruct granted; [|done]. specialize (Wc eq_refl). unfold can_vote in Wc. simpl in Wc.
      rewrite Hv in Wc. apply bool_decide_eq_true in Wc. by rewrite Wc in Hself.
    - rewrite E1, E3. by destruct newer. }
  apply Hgo; destruct newer, granted; simpl; try done; apply Hok.
Qed.

(** ** Candidates *)

(** The term, a [u64], is in its range. *)
Lemma start_candidacy_ok clock n :
  rt_current_term (rn_runtime n) <= u64_max -> ok n ->
  wlp (start_candidacy clock) (fun _ n' => evolves n n') n.
Proof.
  intros Hmax Hok. unfold start_candidacy. apply wlp_bind, wlp_get.
  destruct (negb (local_peer_is_active n)); [by apply wlp_ret, evolves_refl|]. cbv zeta.
  set (term := saturating_add64 _ 1). set (self := nc_node_id (rn_config n)).
  assert (rt_current_term (rn_runtime n) <= term) as Hle by (unfold term, saturating_add64; lia).
  assert (voter_ok (Some self)) as Hv.
  { intros id [= <-]. apply (contains_peer_id membership (local_configured_peer (rn_config n))), Hok. }
  apply wlp_bindR, wlp_on_log. eapply wlp_mono; [by apply (node_write membership)|].
  intros r st [W1 W2 W3 W4]. destruct r as [[]|].
  2: { apply calm_evolves; [done|]. by apply store_calm. }
  destruct W4 as [W4 [_ W5]]. simpl in W4, W5. injection W4 as Ht Hvote.
  assert (hs_voted_for (hard_state (ls_state st)) = Some self) as Hs'.
  { destruct W5 as [W5|[_ [W5|W5]]]; [lia|done|done]. }
  apply wlp_bind, wlp_modify, wlp_ret. apply advance_evolves; try done; [|..|apply Hok].
  - unfold hs_vote. simpl. by rewrite Ht, Hs'.
  - simpl. rewrite <-Hs', Hvote. apply (next_vote_le (rt_vote n)). done.
Qed.

(** Winning an election: the candidate has voted for itself. *)
Lemma become_leader_ok round votes n :
  ok n -> wlp (become_leader round votes)
    (fun elected n' => ok n' /\ rn_config n' = rn_config n /\ rt_vote n' = rt_vote n /\
       if elected then
         rt_role (rn_runtime n') = Leader /\ rt_role (rn_runtime n) = Candidate /\
         rt_current_term (rn_runtime n) = cr_term round /\ cr_membership round = membership /\
         quorum_met membership votes = true
       else n' = n) n.
Proof.
  intros Hok. pose proof Hok as [H1 H2 H3 H4 H5 H6 H7]. unfold become_leader.
  destruct (quorum_met _ _) eqn:Hq; [|by apply wlp_ret]. apply wlp_bind, wlp_get. cbv zeta.
  destruct (still_candidate round n) eqn:Hst; [|by apply wlp_ret].
  apply wlp_bind, wlp_modify, wlp_ret. unfold still_candidate in Hst.
  rewrite !andb_true_iff, !bool_decide_eq_true in Hst. destruct Hst as [[[S1 S2] S3] _].
  assert (cr_membership round = membership) as Hm by congruence.
  split_and!; try done; [|by rewrite Hm in Hq].
  constructor; try done. intros _. simpl. apply H5. by rewrite S2.
Qed.

Lemma observe_election_section clock peer expected term :
  section_ok (observe_higher_election_peer_term clock peer expected term).
Proof.
  intros n Hs Hok. unfold observe_higher_election_peer_term.
  case_bool_decide; [by apply wlp_ret, evolves_refl|]. apply wlp_bind, wlp_get.
  case_bool_decide; [by apply wlp_ret, evolves_refl|].
  destruct (negb _); [by apply wlp_ret, evolves_refl|].
  apply wlp_bind. eapply wlp_mono; [by apply step_down_section|]. intros ? n' He. by apply wlp_ret.
Qed.

(** The votes counted: those there were, and the peer's when it is granted in
    the expected term. *)
Lemma on_election_response_ok clock expected still votes peer answer n :
  static n -> ok n ->
  wlp (on_election_response clock expected still votes peer answer)
    (fun r n' => evolves n n' /\
       forall votes', r = Some votes' -> votes' = votes \/
         (answer = Some (expected, true) /\ votes' = {[peer_id peer]} ∪ votes)) n.
Proof.
  intros Hs Hok. unfold on_election_response. cbv zeta.
  assert (forall v, (v = votes \/ (answer = Some (expected, true) /\ v = {[peer_id peer]} ∪ votes)) ->
    wlp (n ← get; mret (if still n : bool then Some v else None))
      (fun r n' => evolves n n' /\ forall votes', r = Some votes' -> votes' = votes \/
         (answer = Some (expected, true) /\ votes' = {[peer_id peer]} ∪ votes)) n) as Hkeep.
  { intros v Hv. apply wlp_bind, wlp_get, wlp_ret. split; [by apply evolves_refl|].
    intros votes'. case_match; [|done]. by intros [= <-]. }
  destruct answer as [[peer_term granted]|]; [|by apply Hkeep; left].
  case_bool_decide.
  - apply wlp_bind. eapply wlp_mono; [by apply observe_election_section|].
    intros stepped n' He. apply wlp_ret. split; [done|]. intros votes'. destruct stepped; [done|].
    intros [= <-]. by left.
  - case_bool_decide; [by apply Hkeep; left|]. destruct granted; [|by apply Hkeep; left].
    apply Hkeep. right. split; [|done]. by assert (peer_term = expected) as -> by lia.
Qed.

(** ** Followers *)

Lemma enter_term_ok term n :
  ok n -> rt_current_term (rn_runtime n) < term ->
  wlp (enter_leader_term term)
    (fun r n' =>
       match r with
       | RaftOk _ => forall r', rt_current_term r' = term -> rt_voted_for r' = None ->
           rt_role r' = Follower -> rt_membership r' = membership -> evolves n (set_rn_runtime r' n')
       | RaftErr _ => evolves n n'
       end /\ rt_membership (rn_runtime n') = membership /\ node_log_kept n n' /\
       (r = RaftOk tt -> rt_current_term (rn_runtime n') = term /\ rt_voted_for (rn_runtime n') = None /\
          rt_leader_id (rn_runtime n') = None)) n.
Proof.
  intros Hok Hlt. unfold enter_leader_term. apply wlp_bind, wlp_get. cbv zeta.
  rewrite bool_decide_eq_true_2 by done. apply wlp_bindR, wlp_on_log.
  eapply wlp_mono; [apply (node_write membership); [done|simpl; lia|done]|].
  intros r st [W1 W2 W3 W4]. destruct r as [[]|].
  2: { split_and!; try done; [|apply Hok]. apply calm_evolves; [done|]. by apply store_calm. }
  destruct W4 as [W4 _]. simpl in W4. apply wlp_bind, wlp_modify, wlp_ret.
  split_and!; try done; [|apply Hok]. intros r' E1 E2 E3 E4.
  apply (advance_evolves membership n st r'); try done; rewrite ?E1, ?E2, ?E3; try done.
  - rewrite W4. unfold next_vote. simpl. by rewrite bool_decide_eq_false_2 by lia.
  - left. simpl. lia.
Qed.

Lemma enter_term_same term n :
  rt_current_term (rn_runtime n) = term -> enter_leader_term term n = Done (RaftOk tt) n.
Proof.
  intros Ht. unfold enter_leader_term, mbind, M_bind. simpl. rewrite bool_decide_eq_false_2 by lia. done.
Qed.

Lemma demote_evolves r n :
  ok n -> rt_current_term r = rt_current_term (rn_runtime n) ->
  rt_voted_for r = rt_voted_for (rn_runtime n) -> rt_role r = Follower -> rt_membership r = membership ->
  evolves n (set_rn_runtime r n).
Proof.
  intros Hok E1 E2 E3 E4.
  assert (set_rn_log (rn_log n) n = n) as Hn by by destruct n. rewrite <-Hn at 2.
  pose proof Hok as [H1 H2 H3 H4 H5 H6 H7].
  apply advance_evolves; try done; rewrite ?E1, ?E2, ?E3; done.
Qed.

(** What [follow_leader] and the acceptance of a snapshot's sender share: the
    node enters the leader's term, then follows it. *)
Lemma follow_ok {A} term leader_id (refuse : M RaftNode A) (fail : BrokerRaftError -> A)
    (f : RaftNode -> RaftRuntimeState -> RaftRuntimeState) (answer : RaftNode -> A) n :
  ok n -> ~ term < rt_current_term (rn_runtime n) ->
  keeps eq refuse ->
  (forall n r, rt_current_term (f n r) = rt_current_term r /\ rt_voted_for (f n r) = rt_voted_for r /\
     rt_role (f n r) = Follower /\ rt_membership (f n r) = rt_membership r) ->
  wlp (res ← enter_leader_term term;
       match res with
       | RaftErr err => mret (fail err)
       | RaftOk _ =>
           n ← get;
           if other_leader_known leader_id (rn_runtime n) then refuse
           else modify_runtime (f n) ;; mret (answer n)
       end)
    (fun _ n' => evolves n n' /\ node_log_kept n n') n.
Proof.
  intros Hok Hge Href Hf. apply wlp_bind.
  destruct (decide (rt_current_term (rn_runtime n) < term)) as [Hlt|Hnlt].
  - eapply wlp_mono; [by apply enter_term_ok|].
    intros [[]|err] n1 (He & Hm & Hk & Hr); [|by apply wlp_ret].
    destruct (Hr eq_refl) as (T1 & T2 & T3). apply wlp_bind, wlp_get.
    unfold other_leader_known. rewrite T3. apply wlp_bind, wlp_modify, wlp_ret.
    destruct (Hf n1 (rn_runtime n1)) as (F1 & F2 & F3 & F4). split; [|done].
    apply He; congruence.
  - assert (rt_current_term (rn_runtime n) = term) as Ht by lia.
    intros r n1. rewrite (enter_term_same term n Ht). intros [= <- <-].
    apply wlp_bind, wlp_get. destruct (other_leader_known _ _).
    + intros r n1 Hr. apply Href in Hr as <-. split; [by apply evolves_refl|done].
    + apply wlp_bind, wlp_modify, wlp_ret. split; [|done].
      destruct (Hf n (rn_runtime n)) as (F1 & F2 & F3 & F4).
      apply demote_evolves; try done. rewrite F4. apply Hok.
Qed.

Lemma keeps_refuse_append i : keeps eq (refuse_append i).
Proof. by intros n r n' [= _ <-]. Qed.
Lemma keeps_refuse_snapshot : keeps eq refuse_snapshot.
Proof. by intros n r n' [= _ <-]. Qed.

Lemma refuse_evolves {A} (m : M RaftNode A) n :
  keeps eq m -> ok n -> wlp m (fun _ n' => evolves n n' /\ node_log_kept n n') n.
Proof. intros Hm Hok r n' Hr. apply Hm in Hr as <-. split; [by apply evolves_refl|done]. Qed.

Lemma follow_leader_ok clock term leader_id addr n :
  ok n -> wlp (follow_leader clock term leader_id addr) (fun _ n' => evolves n n' /\ node_log_kept n n') n.
Proof.
  intros Hok. unfold follow_leader. apply wlp_bind, wlp_get. cbv zeta.
  pose proof (fun i => refuse_evolves _ n (keeps_refuse_append i) Hok) as Href.
  destruct (local_seen_voter_is_removed n); [by apply Href|].
  destruct (active_peer_sender_rejection_error _ _ _ _); [by apply Href|].
  case_bool_decide; [by apply Href|].
  apply (follow_ok term leader_id _ (fun err => inl (ErrorResponse _ (error_display err)))
    (fun n r => set_rt_election_deadline _ (set_rt_leader_id _ (set_rt_role Follower
      (set_rt_commit_index (Z.max (rt_commit_index (rn_runtime n)) (hs_commit_index (hard_state (rn_state n)))) r))))
    (fun n => inr (Z.max (rt_commit_index (rn_runtime n)) (hs_commit_index (hard_state (rn_state n))))));
    [done|done|apply keeps_refuse_append|done].
Qed.

Lemma prepare_append_section clock term leader_id addr :
  section_ok (prepare_append_entries clock term leader_id addr).
Proof.
  intros n Hs Hok. unfold prepare_append_entries. apply wlp_bind, wlp_get. cbv zeta. apply wlp_bind.
  eapply wlp_mono; [by apply follow_leader_ok|]. intros [resp|commit] n1 [He Hk]; [by apply wlp_ret|].
  apply wlp_bind, wlp_get. case_bool_decide; [|by apply wlp_ret]. apply wlp_bind.
  eapply wlp_mono; [apply (apply_compact_section clock false); [by eapply log_kept_static|apply He]|].
  intros r n2 He2. assert (evolves n n2) as Hn2 by by eapply evolves_trans.
  apply wlp_bind, wlp_get. destruct r as [[]|]; [|by apply wlp_ret].
  destruct (_ && _); [by apply wlp_ret|]. intros r n3 Hr. by apply keeps_refuse_append in Hr as <-.
Qed.

Lemma finish_append_section clock term leader_id addr report commit :
  section_ok (finish_append_entries_from_peer clock term leader_id addr report commit).
Proof.
  intros n Hs Hok. unfold finish_append_entries_from_peer. apply wlp_bind, wlp_get. cbv zeta.
  destruct (negb _); [by apply wlp_ret, evolves_refl|].
  destruct (negb _); [by apply wlp_ret, evolves_refl|]. apply wlp_bind.
  apply (wlp_mono _ (fun _ n' => calm n n')).
  { destruct (bool_decide _); [|by apply wlp_ret]. apply wlp_bindR, wlp_on_log.
    eapply wlp_mono; [by apply (write_same_calm membership)|]. intros [[]|] st Hc; [|done].
    apply wlp_bind, wlp_modify, wlp_ret. etrans; [exact Hc|]. by apply (runtime_calm _ (set_rt_commit_index _)). }
  intros r n1 Hc. pose proof (calm_evolves _ _ Hok Hc) as He. destruct r as [[]|]; [|by apply wlp_ret].
  apply wlp_bind. apply (wlp_mono _ (fun _ n' => evolves n n')).
  - destruct (_ || _); [|by apply wlp_ret].
    eapply wlp_mono; [apply apply_compact_section; [by eapply calm_static|apply He]|].
    intros ? n2 H2. by eapply evolves_trans.
  - intros [[]|] n2 H2; apply wlp_bind, wlp_get; by apply wlp_ret.
Qed.

Lemma accept_sender_ok clock term leader_id addr n :
  ok n -> wlp (accept_validated_install_snapshot_sender clock term leader_id addr)
    (fun _ n' => evolves n n') n.
Proof.
  intros Hok. unfold accept_validated_install_snapshot_sender. apply wlp_bind, wlp_get. cbv zeta.
  eapply (wlp_mono _ (fun _ n' => evolves n n' /\ node_log_kept n n')); [|by intros ? ? []].
  pose proof (refuse_evolves _ n keeps_refuse_snapshot Hok) as Href.
  destruct (local_seen_voter_is_removed n); [by apply Href|].
  destruct (active_peer_sender_rejection_error _ _ _ _); [by apply Href|].
  case_bool_decide; [by apply Href|].
  apply (follow_ok term leader_id _ (fun err => Some (ErrorResponse _ (error_display err)))
    (fun n r => set_rt_election_deadline (next_election_deadline (rn_config n) clock)
      (set_rt_leader_id _ (set_rt_role Follower r))) (fun _ => None));
    [done|done|apply keeps_refuse_snapshot|done].
Qed.

Lemma finish_installed_ok term leader_id addr index payload n :
  payload_static membership (nc_in_memory (rn_config n)) payload -> ok n ->
  wlp (finish_installed_snapshot_payload_from_peer term leader_id addr index payload)
    (fun _ n' => evolves n n') n.
Proof using valid.
  intros Hp Hok. unfold finish_installed_snapshot_payload_from_peer. apply wlp_bind, wlp_get.
  destruct (follows _ _ _ _ _); [|by apply wlp_ret, evolves_refl]. cbv zeta. apply wlp_bind.
  eapply wlp_mono; [by apply payload_calm|]. intros r n1 Hc. pose proof (calm_evolves _ _ Hok Hc).
  destruct r; [by apply wlp_ret|]. apply wlp_bind, wlp_get. by apply wlp_ret.
Qed.

(** ** Leaders *)

Lemma commit_leader_section clock index term compact m apply :
  section_ok (commit_leader_index clock index term compact m apply).
Proof.
  intros n Hs Hok. unfold commit_leader_index. apply wlp_bind, wlp_get. cbv zeta.
  case_bool_decide; [by apply wlp_ret, evolves_refl|].
  destruct (negb _); [by apply wlp_ret, evolves_refl|].
  assert (forall n1, calm n n1 -> wlp (if apply : bool then
      apply_committed_and_maybe_compact clock compact ;;? okR true else okR true)
    (fun _ n' => evolves n n') n1) as Happly.
  { intros n1 Hc. pose proof (calm_evolves _ _ Hok Hc) as He. destruct apply; [|by apply wlp_ret].
    apply wlp_bindR. eapply wlp_mono; [apply apply_compact_section; [by eapply calm_static|apply He]|].
    intros [[]|] n2 H2; [apply wlp_ret|]; by eapply evolves_trans. }
  case_bool_decide; [by apply Happly|].
  destruct (negb _); [by apply wlp_ret, evolves_refl|].
  apply wlp_bindR, wlp_on_log. eapply wlp_mono; [by apply (write_same_calm membership)|].
  intros [[]|] st Hc; [|by apply calm_evolves]. apply wlp_bind, wlp_modify, Happly.
  etrans; [exact Hc|]. by apply (runtime_calm _ (fun r => set_rt_commit_index _ r)).
Qed.

Lemma advance_commit_section clock : section_ok (advance_leader_commit_from_progress clock).
Proof.
  intros n Hs Hok. unfold advance_leader_commit_from_progress. apply wlp_bind, wlp_get.
  destruct (negb _); [by apply wlp_ret, evolves_refl|].
  destruct (first_committable _ _); [|by apply wlp_ret, evolves_refl].
  apply wlp_bindR. eapply wlp_mono; [by apply commit_leader_section|].
  intros [b|] n1 He; [by apply wlp_ret|done].
Qed.

Lemma keeps_progress id p : keeps (moves membership) (set_peer_progress id p).
Proof. apply keeps_calm_moves. by apply keeps_runtime_calm. Qed.

Lemma append_response_section clock peer term target sent response :
  section_ok (on_append_response clock peer term target sent response).
Proof.
  pose proof keeps_progress as Hp.
  assert (forall r, section_ok (observe_higher_replication_peer_term clock peer term r)) as Hobs.
  { intros r n Hs Hok. unfold observe_higher_replication_peer_term.
    case_bool_decide; [by apply wlp_ret, evolves_refl|]. apply wlp_bind, wlp_get.
    destruct (negb _); [by apply wlp_ret, evolves_refl|].
    destruct (negb _); [by apply wlp_ret, evolves_refl|].
    apply wlp_bind. eapply wlp_mono; [by apply step_down_section|]. intros ? n' He. by apply wlp_ret. }
  assert (forall A (m : M RaftNode A), keeps (moves membership) m -> section_ok m) as Hk by apply @keeps_section.
  intros n Hs Hok. unfold on_append_response.
  destruct response as [[| | | | |peer_term err]|]; try by apply wlp_ret, evolves_refl.
  - case_bool_decide.
    + apply wlp_bind. eapply wlp_mono; [by apply Hobs|]. intros ? n' He. by apply wlp_ret.
    + case_bool_decide; [by apply wlp_ret, evolves_refl|].
      case_match; (apply Hk; [|done|done]); unfold on_append_success, on_append_conflict; keeps_steps.
  - apply wlp_bind. apply (wlp_mono _ (fun _ n' => evolves n n')); [|intros; by apply wlp_ret].
    case_bool_decide; [|by apply wlp_ret, evolves_refl].
    apply wlp_bind. eapply wlp_mono; [by apply Hobs|]. intros ? n' He. by apply wlp_ret.
Qed.

Lemma proxy_term_section clock peer term confirmed :
  section_ok (observe_proxy_response_term clock peer term confirmed).
Proof.
  intros n Hs Hok. unfold observe_proxy_response_term. apply wlp_bind, wlp_get. cbv zeta.
  case_bool_decide; [by apply wlp_ret, evolves_refl|].
  case_bool_decide.
  - destruct (_ || _); [by apply wlp_ret, evolves_refl|].
    apply wlp_modify, demote_evolves; try done. apply Hok.
  - destruct (_ || _); [by apply wlp_ret, evolves_refl|]. by apply step_down_section.
Qed.

Lemma quorum_lost_section clock acks : section_ok (leader_quorum_lost clock acks).
Proof.
  intros n Hs Hok. unfold leader_quorum_lost. apply wlp_bind, wlp_get.
  destruct (quorum_met _ _); [by apply wlp_ret, evolves_refl|].
  case_bool_decide; [by apply step_down_section|by apply wlp_ret, evolves_refl].
Qed.

End sections.
