(* ===== verification/RaftRestart.v ===== *)
(** * The opening of a node

    [src/src/broker_raft.rs], [open_with_optional_in_memory_transport] from
    the opening of the log store on (5298-5571), with
    [validate_retained_log_context_on_open] (1870-2029),
    [clear_removed_vote_for_current_membership] (18924-18957) and the sidecar
    files (24198-24222).  The configuration has been validated and its data
    directory locked; temporary files, which a start removes, are left out. *)

From S2P Require Import Prelude Text Monad Protocol Queue BrokerTypes BrokerState Broker BrokerOps.
From S2P Require Import BrokerSnapshot RaftQuorum RaftQuorumFacts RaftGrant RaftCache RaftValidate.
From S2P Require Import RaftFiles RaftFilesFacts RaftLog RaftHardState RaftLogFacts RaftNode.
From S2P Require Import RaftApply RaftApplyFacts RaftNodeOps RaftFollower RaftFrames.
From S2P Require Import RaftVotes.
From stdpp Require Import options.
Import Membership.

(** What the opening reads of [BrokerRaftConfig], beside the node's part. *)
Record RaftOpenConfig : Type := mkRaftOpenConfig {
  oc_node : RaftNodeConfig;
  oc_peers : list RaftPeerConfig;
  oc_sync_log : bool;
  oc_sync_commit : bool;
  oc_broker : BrokerConfig;
  oc_client_response_cache_max_entries : nat;
}.

Section open.
Context `{LQ : LinkedQueueCrate} `{E : Env} `{D : RequestDigest} `{C : RaftCodec}.

(** ** The checks of the retained log *)

(** The loop of [validate_retained_log_context_on_open]; at [u64::MAX] the
    code's loop does not end. *)
Fixpoint open_context_loop {S} (fuel : nat) (allow : bool) (s : RaftLogState) (chunk_start : Z)
    (membership : RaftMembership) (request_fingerprints : gmap string string)
    : M S (RaftResult unit) :=
  match fuel with
  | O => out_of_fuel
  | S fuel =>
      if bool_decide (last_index s < chunk_start) then okR tt
      else
        let chunk_end := Z.min (last_index s)
          (saturating_sub64 (saturating_add64 chunk_start RAFT_CONTEXT_VALIDATION_CHUNK_ENTRIES) 1) in
        match entries_range_of (retained_log_entries s) (snapshot_index_of s) chunk_start chunk_end with
        | None => panic "slice index starts after its end"
        | Some (RaftErr err) => errR err
        | Some (RaftOk entries) =>
            if bool_decide (le_index <$> head entries <> Some chunk_start)
               || bool_decide (le_index <$> last entries <> Some chunk_end) then
              errR (EInvalidLog ("retained raft log is missing startup validation range "
                +:+ pretty chunk_start +:+ "..=" +:+ pretty chunk_end)%string)
            else
              membership ←? mret (map_err (fun err => EInvalidLog
                  ("retained raft log has invalid staged learner context: " +:+ error_display err)%string)
                (validate_staged_learner_entries_against_membership membership entries allow));
              request_fingerprints ←? mret (map_err (fun err => EInvalidLog
                  ("retained raft log has invalid request identity context: " +:+ error_display err)%string)
                (add_client_request_identity_entries request_fingerprints entries));
              open_context_loop fuel allow s (saturating_add64 chunk_end 1) membership
                request_fingerprints
        end
  end.

(** [validate_retained_log_context_on_open] *)
Definition validate_retained_log_context_on_open (allow : bool) (s : RaftLogState)
    (recovered_membership : RaftMembership) (fingerprints : gmap string string) (snapshot_index : Z)
    : M RaftLogStore (RaftResult unit) :=
  let start_index := Z.max (saturating_add64 snapshot_index 1) 1 in
  if bool_decide (last_index s < start_index) then okR tt
  else open_context_loop (S (Z.to_nat (last_index s + 1 - start_index))) allow s start_index
         recovered_membership fingerprints.

(** ** What is recovered from the files *)

(** [read_staged_learners] *)
Definition read_staged_learners (active_peers : list RaftPeerConfig) (allow : bool) (d : Disk)
    : RaftResult (list RaftPeerConfig) :=
  match d_learners d with
  | None => RaftOk []
  | Some learners => validate_staged_learner_peers_for_transport learners active_peers allow
  end.

(** [read_local_voter_seen] *)
Definition read_local_voter_seen (d : Disk) : bool := default false (d_local_voter_seen d).

Record RecoveredSnapshot : Type := mkRecoveredSnapshot {
  rs_membership : RaftMembership;
  rs_staged_learners : option (list RaftPeerConfig);
  rs_client_responses : list ClientResponseSnapshotEntry;
}.

(** The membership, the learners and the responses of the snapshot. *)
Definition recover_snapshot (allow : bool) (peers : list RaftPeerConfig)
    (snapshot_file : option RaftSnapshotFile) : RaftResult RecoveredSnapshot :=
  match snapshot_file with
  | None => RaftOk (mkRecoveredSnapshot (from_simple peers) None [])
  | Some snapshot_file =>
      let payload := sf_payload snapshot_file in
      _ ← broker_result (validate_raft_snapshot_payload payload);
      membership ← membership_from_snapshot_payload payload allow;
      let recovered_membership := default (from_simple peers) membership in
      learners ← staged_learners_from_snapshot_payload payload allow
                   (validation_peers recovered_membership);
      responses ← client_responses_from_snapshot_payload payload;
      RaftOk (mkRecoveredSnapshot recovered_membership learners responses)
  end.

(** The hard state a node starts with, from the one on disk and the end of
    the log. *)
Definition normalize_hard_state (hard_state : RaftHardState) (last_term snapshot_index : Z)
    : RaftHardState :=
  let current_term := Z.max (hs_current_term hard_state) last_term in
  mkRaftHardState current_term
    (if bool_decide (current_term <> hs_current_term hard_state) then None
     else hs_voted_for hard_state)
    (Z.max (hs_commit_index hard_state) snapshot_index).

Record Recovered : Type := mkRecovered {
  rc_snapshot_file : option RaftSnapshotFile;
  rc_membership : RaftMembership;
  rc_staged_learners : list RaftPeerConfig;
  rc_client_responses : list ClientResponseSnapshotEntry;
  rc_local_voter_seen : bool;
  rc_hard_state : RaftHardState;
}.

(** The opening, up to the construction of the node. *)
Definition recover (config : RaftOpenConfig) : M RaftLogStore (RaftResult Recovered) :=
  let allow := nc_in_memory (oc_node config) in
  st ← get;
  let hard_state := hard_state (ls_state st) in
  snapshot_file ←? latest_snapshot_file;
  recovered ←? mret (recover_snapshot allow (oc_peers config) snapshot_file);
  fingerprints ←? mret (validate_snapshot_client_response_entries (rs_client_responses recovered));
  st ← get;
  staged_learners ←? mret
    match rs_staged_learners recovered with
    | Some learners => RaftOk learners
    | None => read_staged_learners (validation_peers (rs_membership recovered)) allow (ls_disk st)
    end;
  let local_peer := local_configured_peer (oc_node config) in
  let configured_initial_voter := bool_decide (local_peer ∈ oc_peers config) in
  let recovered_local_voter := contains_peer (rs_membership recovered) local_peer in
  let durable_local_voter_seen := read_local_voter_seen (ls_disk st) in
  (if (configured_initial_voter || recovered_local_voter) && negb durable_local_voter_seen
   then on_disk write_local_voter_seen else okR tt) ;;?
  let snapshot_index := snapshot_index_of (ls_state st) in
  if bool_decide (last_index (ls_state st) < hs_commit_index hard_state) then
    errR (EInvalidLog ("durable commit index " +:+ pretty (hs_commit_index hard_state)
      +:+ " is ahead of available log/snapshot boundary " +:+ pretty (last_index (ls_state st)))%string)
  else
    let normalized := normalize_hard_state hard_state (last_term (ls_state st)) snapshot_index in
    (if bool_decide (normalized <> hard_state) then write_hard_state normalized else okR tt) ;;?
    validate_retained_log_context_on_open allow (ls_state st) (rs_membership recovered) fingerprints
      snapshot_index ;;?
    okR (mkRecovered snapshot_file (rs_membership recovered) staged_learners
           (rs_client_responses recovered)
           (durable_local_voter_seen || configured_initial_voter || recovered_local_voter) normalized).

(** ** The node *)

(** The node as it is constructed. *)
Definition opened_node (config : RaftOpenConfig) (clock : Clock) (rc : Recovered) (store : RaftLogStore)
    : RaftNode :=
  let hard_state := rc_hard_state rc in
  mkRaftNode (oc_node config) (Broker_new (oc_broker config) true)
    (mkCacheNode ClientResponseCacheState_default (mkCacheTelemetry 0 0 0)
       (oc_client_response_cache_max_entries config))
    store
    (mkRaftRuntimeState (hs_current_term hard_state) (hs_voted_for hard_state) Follower None
       (hs_commit_index hard_state)
       (Z.min (snapshot_index_of (ls_state store)) (hs_commit_index hard_state))
       (next_election_deadline (oc_node config) clock) ∅
       (foldl (fun m peer => <[peer_id peer := peer]> m) ∅ (rc_staged_learners rc))
       (rc_membership rc) (rc_local_voter_seen rc))
    (ck_now clock).

(** [BrokerRaft::clear_removed_vote_for_current_membership] *)
Definition clear_removed_vote_for_current_membership : M RaftNode (RaftResult unit) :=
  n ← get;
  let r := rn_runtime n in
  match rt_voted_for r with
  | None => okR tt
  | Some voted_for =>
      if contains_id (rt_membership r) voted_for then okR tt
      else
        on_log (write_hard_state_clearing_vote
          (mkRaftHardState (rt_current_term r) None (rt_commit_index r))) ;;?
        modify_runtime (fun r =>
          let active_ids : gset string := list_to_set (peer_id <$> active_peers (rt_membership r)) in
          if is_active_vote active_ids (rt_voted_for r) then r else set_rt_voted_for None r) ;;
        okR tt
  end.

(** The snapshot's part of the node's state. *)
Definition replay_snapshot (rc : Recovered) (snapshot_file : RaftSnapshotFile)
    : M RaftNode (RaftResult unit) :=
  let payload := sf_payload snapshot_file in
  n ← get;
  let allow := nc_in_memory (rn_config n) in
  res ← on_broker (install_raft_snapshot payload);
  mret (broker_result res) ;;?
  membership ←? mret (membership_from_snapshot_payload payload allow);
  match membership with
  | Some membership => apply_membership membership
  | None => okR tt
  end ;;?
  n ← get;
  learners ←? mret (staged_learners_from_snapshot_payload payload allow
                      (validation_peers (rt_membership (rn_runtime n))));
  match learners with
  | Some learners => apply_staged_learners learners
  | None => okR tt
  end ;;?
  on_cache (restore_client_response_cache (rc_client_responses rc)).

(** The replay of the snapshot and of the committed entries. *)
Definition replay (rc : Recovered) : M RaftNode (RaftResult unit) :=
  match rc_snapshot_file rc with
  | Some snapshot_file => replay_snapshot rc snapshot_file
  | None => okR tt
  end ;;?
  apply_committed ;;?
  clear_removed_vote_for_current_membership.

(** Run a computation of a component that holds the disk. *)
Definition enter {T A} (disk_of : T -> Disk) (t : T) (m : M T A) : M Disk (A * T) := fun _ =>
  match m t with
  | Done a t' => Done (a, t') (disk_of t')
  | Panicked msg => Panicked msg
  | OutOfFuel => OutOfFuel
  end.

(** [BrokerRaft::open_with_optional_in_memory_transport] *)
Definition open_node (config : RaftOpenConfig) (clock : Clock) : M Disk (RaftResult RaftNode) :=
  store ←? open_log_store (oc_sync_log config) (oc_sync_commit config)
             (nc_trailing_log_entries (oc_node config));
  '(rc, store) ← enter ls_disk store (recover config);
  match rc with
  | RaftErr err => errR err
  | RaftOk rc =>
      '(res, n) ← enter (fun n => ls_disk (rn_log n)) (opened_node config clock rc store) (replay rc);
      match res with
      | RaftErr err => errR err
      | RaftOk _ => okR n
      end
  end.

End open.

(** * Restarting a node

    With a fixed membership, a node that is opened from its files, whichever
    calls of the file system fail, has the term and the vote it had promised,
    or a later term; an opening that fails leaves them on the disk. *)

Section restart.
Context `{LQ : LinkedQueueCrate} `{E : Env} `{D : RequestDigest} `{C : RaftCodec}.
Context (membership : RaftMembership).
Context (valid : forall allow, validate_raft_membership_for_transport membership allow = RaftOk membership).

#[local] Abbreviation ok := (node_ok membership).
#[local] Abbreviation voter_ok := (voter_ok membership).
#[local] Abbreviation calm := (calm membership).

(** The configuration of a member. *)
Definition member_config (config : RaftOpenConfig) : Prop :=
  from_simple (oc_peers config) = membership /\
  contains_peer membership (local_configured_peer (oc_node config)) = true.

(** The vote a restart reads from a disk. *)
Definition disk_vote (d : Disk) : Z * option string :=
  hs_vote (read_hard_state_with_commit_slots d).1.

Definition disk_ok (d : Disk) : Prop := slots_wf d /\ voter_ok (hs_voted_for (json_hard_state d)).

Lemma disk_vote_json d : disk_vote d = hs_vote (json_hard_state d).
Proof.
  unfold disk_vote, read_hard_state_with_commit_slots, json_hard_state.
  by destruct (read_hard_state_commit_slots _ _) as [[slot|] g].
Qed.

Lemma hs_files_vote d d' : hs_files d d' -> disk_vote d' = disk_vote d /\ (disk_ok d -> disk_ok d').
Proof.
  intros [H1 H2]. rewrite !disk_vote_json. unfold disk_ok, slots_wf, json_hard_state. by rewrite H1, H2.
Qed.

Lemma hs_files_reboot fs d : hs_files d (set_d_faults fs (reboot d)).
Proof. done. Qed.

Lemma keeps_open_hs sl sc tr : keeps hs_files (open_log_store sl sc tr).
Proof.
  unfold open_log_store. pose proof keeps_read_log_hs. keeps_steps.
Qed.

Lemma wlp_enter {T A} (disk_of : T -> Disk) t (m : M T A) Q d :
  wlp m (fun a t' => Q (a, t') (disk_of t')) t -> wlp (enter disk_of t m) Q d.
Proof.
  intros Hm [a t'] d'. unfold enter. destruct (m t) as [b t2| |] eqn:Heq; intros [= <- <- <-].
  by apply Hm in Heq.
Qed.

(** *** What is recovered *)

(** A store whose disk is ahead of its memory, and whose votes are members. *)
Record store_ok (st : RaftLogStore) : Prop := {
  so_durable : hs_durable st;
  so_voter : voter_ok (hs_voted_for (hard_state (ls_state st)));
  so_disk_voter : voter_ok (json_vote st);
}.

Lemma store_ok_same st st' : hs_same st st' -> store_ok st -> store_ok st'.
Proof.
  intros Hs [H1 H2 H3]. pose proof Hs as (G1 & G2 & [G3 G4]). constructor; [by eapply hs_same_durable| |].
  - by rewrite G1.
  - unfold json_vote, json_hard_state in *. by rewrite G3.
Qed.

Lemma normalized_vote hs last snapshot :
  next_vote (hs_vote hs) (hs_current_term (normalize_hard_state hs last snapshot))
    (hs_voted_for (normalize_hard_state hs last snapshot)) = hs_vote (normalize_hard_state hs last snapshot).
Proof.
  unfold next_vote, normalize_hard_state, hs_vote. simpl. f_equal.
  repeat case_bool_decide; try done. by destruct (hs_voted_for hs).
Qed.

(** The hard state a node starts from is in memory and keeps what was read. *)
Lemma normalize_written st last snapshot :
  store_ok st ->
  let hs := normalize_hard_state (hard_state (ls_state st)) last snapshot in
  wlp (if bool_decide (hs <> hard_state (ls_state st)) then write_hard_state hs else okR tt)
    (fun r st' => store_ok st' /\ log_kept st st' /\
       vote_le (hs_vote (hard_state (ls_state st))) (hs_vote (hard_state (ls_state st'))) /\
       (r = RaftOk tt -> hs_vote (hard_state (ls_state st')) = hs_vote hs)) st.
Proof.
  intros [H1 H2 H3] hs. case_bool_decide as Hd.
  2: { apply wlp_ret. rewrite Hd. done. }
  assert (hs_current_term (hard_state (ls_state st)) <= hs_current_term hs) as Ht.
  { unfold hs, normalize_hard_state. simpl. lia. }
  assert (voter_ok (hs_voted_for hs)) as Hv.
  { unfold hs, normalize_hard_state. simpl. by case_bool_decide. }
  eapply wlp_mono; [by apply write_hard_state_spec|].
  intros r st' ((K1 & K2 & K3) & K4 & _).
  assert (voter_ok (json_vote st')) as Hj.
  { intros id Hid. destruct (K2 id Hid) as [K|[K|K]]; [by apply H3|by apply Hv|by apply H2]. }
  destruct r as [[]|].
  - unfold hs in K3. rewrite normalized_vote in K3. split_and!; [|done| |done].
    + constructor; [done| |done]. injection K3 as _ K3. by rewrite K3.
    + rewrite K3. unfold hs. rewrite <-normalized_vote. apply next_vote_le. done.
  - rewrite K3. split_and!; [|done|done|done]. constructor; [done|by rewrite K3|done].
Qed.

Lemma keeps_open_context fuel allow s i m fps :
  keeps (S := RaftLogStore) eq (open_context_loop fuel allow s i m fps).
Proof.
  revert i m fps. induction fuel as [|fuel IH]; intros i m fps; simpl; keeps_steps.
Qed.

Lemma recover_snapshot_membership allow peers snapshot_file recovered :
  from_simple peers = membership ->
  (forall sf, snapshot_file = Some sf -> payload_static membership allow (sf_payload sf)) ->
  recover_snapshot allow peers snapshot_file = RaftOk recovered -> rs_membership recovered = membership.
Proof.
  intros Hp Hs. unfold recover_snapshot, mbind, RaftResult_bind. rewrite Hp.
  destruct snapshot_file as [sf|]; [|by intros [= <-]]. specialize (Hs sf eq_refl).
  destruct (broker_result _); [|done].
  destruct Hs as [-> | ->]; (destruct (staged_learners_from_snapshot_payload _ _ _); [|done]);
    (destruct (client_responses_from_snapshot_payload _); [|done]); by intros [= <-].
Qed.

Lemma recover_ok config st :
  member_config config -> store_ok st -> store_static membership (nc_in_memory (oc_node config)) st ->
  wlp (recover config)
    (fun r st' => store_ok st' /\ store_static membership (nc_in_memory (oc_node config)) st' /\
       vote_le (hs_vote (hard_state (ls_state st))) (hs_vote (hard_state (ls_state st'))) /\
       forall rc, r = RaftOk rc ->
         hs_vote (rc_hard_state rc) = hs_vote (hard_state (ls_state st')) /\
         rc_membership rc = membership /\
         (forall sf, rc_snapshot_file rc = Some sf ->
            payload_static membership (nc_in_memory (oc_node config)) (sf_payload sf))) st.
Proof.
  intros [Hpeers Hlocal] Hok Hst. unfold recover. cbv zeta. apply wlp_bind, wlp_get, wlp_bindR.
  intros r st1 Hr. destruct (latest_snapshot_static _ _ _ _ _ Hst Hr) as [-> Hp].
  destruct r as [snapshot_file|]; [|done].
  apply wlp_bindR, wlp_ret. destruct (recover_snapshot _ _ _) as [recovered|] eqn:Hrec; [|done].
  apply wlp_bindR, wlp_ret. destruct (validate_snapshot_client_response_entries _) as [fps|]; [|done].
  apply wlp_bind, wlp_get, wlp_bindR, wlp_ret.
  match goal with |- match ?m with RaftOk _ => _ | RaftErr _ => _ end => destruct m as [learners|]; [|done] end.
  apply wlp_bindR. intros r2 st2 Hr2.
  assert (hs_same st st2 /\ log_kept st st2) as [Hs2 Hk2].
  { destruct (_ && _); [|by injection Hr2 as <- <-].
    split; [by apply keeps_on_disk_hs in Hr2; [|apply keeps_write_local_voter_seen]|].
    by apply keeps_sidecar_kept in Hr2. }
  pose proof (store_ok_same _ _ Hs2 Hok) as Hok2. pose proof Hs2 as (Heq2 & _ & _).
  assert (forall st', log_kept st st' -> store_static membership (nc_in_memory (oc_node config)) st') as Hstat.
  { intros st' (K1 & K2 & K3). destruct Hst as [S1 S2]. unfold store_static. by rewrite K1, K3. }
  destruct r2 as [[]|]; [|split_and!; [done|by apply Hstat|by rewrite Heq2|done]].
  destruct (bool_decide_reflect (last_index (ls_state st) < hs_commit_index (hard_state (ls_state st))));
    [apply wlp_ret; split_and!; [done|by apply Hstat|by rewrite Heq2|done]|].
  apply wlp_bindR. rewrite <-Heq2. eapply wlp_mono; [by apply normalize_written|].
  intros r3 st3 (N1 & N2 & N3 & N4).
  assert (log_kept st st3) as Hk3 by by etrans.
  destruct r3 as [[]|]; [|split_and!; [done|by apply Hstat|done|done]].
  apply wlp_bindR. intros r4 st4 Hr4.
  assert (st4 = st3) as ->.
  { unfold validate_retained_log_context_on_open in Hr4. case_bool_decide; [by injection Hr4 as <- <-|].
    by apply keeps_open_context in Hr4 as <-. }
  destruct r4 as [[]|]; [apply wlp_ret|]; (split_and!; [done|by apply Hstat|done|]); [|done].
  intros rc [= <-]. simpl. split_and!; [by rewrite N4| |by intros sf ->; apply Hp].
  eapply recover_snapshot_membership; [exact Hpeers| |exact Hrec]. intros sf ->. by apply Hp.
Qed.

(** *** The node *)

Lemma replay_calm rc n :
  (forall sf, rc_snapshot_file rc = Some sf ->
     payload_static membership (nc_in_memory (rn_config n)) (sf_payload sf)) ->
  static membership n -> ok n -> wlp (replay rc) (fun _ n' => calm n n') n.
Proof using valid.
  intros Hp Hs Hok. unfold replay. apply wlp_bindR. intros r1 n1 Hr1.
  assert (calm n n1) as Hc1.
  { destruct (rc_snapshot_file rc) as [sf|]; [|by injection Hr1 as <- <-]. specialize (Hp sf eq_refl).
    apply (wlp_bind _ _ (fun _ n' => calm n n')) in Hr1; [done|]. apply wlp_get. cbv zeta.
    apply wlp_bind. intros r2 n2 Hr2. apply (keeps_broker_calm membership) in Hr2.
    apply wlp_bindR, wlp_ret. destruct (broker_result _); [|done].
    apply wlp_bindR, wlp_ret.
    destruct (membership_from_snapshot_payload _ _) as [m|] eqn:Hm; [|done].
    assert (ok n2) as Hok2 by (apply Hr2; done).
    assert (rn_config n2 = rn_config n) as Hcfg by apply Hr2.
    apply wlp_bindR. intros r3 n3 Hr3.
    assert (calm n n3) as Hc3.
    { etrans; [exact Hr2|]. destruct m as [m|]; [|by injection Hr3 as <- <-].
      assert (m = membership) as -> by (destruct Hp as [Hp|Hp]; congruence).
      by eapply (apply_own_membership membership); [apply valid| |]. }
    destruct r3 as [[]|]; [|done]. apply wlp_bind, wlp_get, wlp_bindR, wlp_ret.
    destruct (staged_learners_from_snapshot_payload _ _ _) as [[ls|]|]; [| |done].
    - apply wlp_bindR. intros r4 n4 Hr4. apply (keeps_staged_learners_calm membership) in Hr4.
      destruct r4 as [[]|]; [|by etrans]. intros r5 n5 Hr5. apply (keeps_cache_calm membership) in Hr5.
      etrans; [exact Hc3|]. by etrans.
    - apply wlp_bindR, wlp_ret. intros r5 n5 Hr5. apply (keeps_cache_calm membership) in Hr5. by etrans. }
  destruct r1 as [[]|]; [|done].
  assert (static membership n1) as Hs1 by (by eapply log_kept_static, Hs; destruct Hc1).
  apply wlp_bindR. eapply wlp_mono; [by apply (apply_committed_calm membership)|].
  intros r2 n2 Hc2. assert (calm n n2) as Hc by by etrans. destruct r2 as [[]|]; [|done].
  assert (ok n2) as [H1 H2 H3 H4 H5 H6 H7] by (apply Hc; done).
  unfold clear_removed_vote_for_current_membership. apply wlp_bind, wlp_get. cbv zeta.
  destruct (rt_voted_for (rn_runtime n2)) as [v|] eqn:Hv; [|by apply wlp_ret].
  rewrite H3, (H6 v eq_refl). by apply wlp_ret.
Qed.

Lemma opened_ok config clock rc st :
  member_config config -> store_ok st -> hs_vote (rc_hard_state rc) = hs_vote (hard_state (ls_state st)) ->
  rc_membership rc = membership -> ok (opened_node config clock rc st).
Proof.
  intros [_ Hl] [H1 H2 H3] Hv Hm. pose proof Hv as [= Ht Hvote].
  constructor; simpl; try done. by rewrite Hvote.
Qed.

(** A restart: the node that opens, or the disk it leaves, keeps the term and
    the vote of the disk it starts from. *)
Lemma open_node_ok config clock fs d :
  member_config config -> disk_ok d ->
  (forall st d', open_log_store (oc_sync_log config) (oc_sync_commit config)
       (nc_trailing_log_entries (oc_node config)) (set_d_faults fs (reboot d)) = Done (RaftOk st) d' ->
     store_static membership (nc_in_memory (oc_node config)) st) ->
  wlp (open_node config clock)
    (fun r d' => disk_ok d' /\ vote_le (disk_vote d) (disk_vote d') /\
       forall n, r = RaftOk n -> ok n /\ rn_config n = oc_node config /\
         rt_role (rn_runtime n) <> Leader /\ vote_le (disk_vote d) (rt_vote n))
    (set_d_faults fs (reboot d)).
Proof using valid.
  intros Hcfg Hd Hstat. unfold open_node. apply wlp_bindR. intros r d1 Hr.
  destruct (hs_files_vote d d1) as [Hdv Hdok].
  { etrans; [apply (hs_files_reboot fs)|]. by apply keeps_open_hs in Hr. }
  destruct r as [st|]; [|split_and!; [auto|by rewrite Hdv|done]].
  pose proof (Hstat _ _ Hr) as Hst. apply open_hard_state in Hr as (Hdisk & Hsame & Hhs).
  assert (ls_disk st = d1) as Hd1 by done.
  assert (hs_vote (hard_state (ls_state st)) = disk_vote d) as Hv0.
  { change (disk_vote d) with (disk_vote (set_d_faults fs (reboot d))). unfold disk_vote. by rewrite <-Hhs. }
  assert (store_ok st) as Hok.
  { assert (hs_files (set_d_faults fs (reboot d)) d1) as [F1 F2] by by apply other_files_hs.
    assert (read_hard_state_with_commit_slots (ls_disk st) =
      read_hard_state_with_commit_slots (set_d_faults fs (reboot d))) as Hread.
    { unfold read_hard_state_with_commit_slots, read_hard_state_commit_slots. by rewrite Hd1, F1, F2. }
    destruct (Hdok Hd) as [Hwf Hjv]. constructor.
    - apply hs_durable_open; [by rewrite Hd1|]. by rewrite Hread.
    - rewrite disk_vote_json in Hv0. injection Hv0 as _ Hvote. rewrite Hvote. apply Hd.
    - unfold json_vote. by rewrite Hd1. }
  apply wlp_bind, wlp_enter. eapply wlp_mono; [by apply recover_ok|].
  intros rc st2 (Hok2 & Hst2 & Hle & Hrc). rewrite Hv0 in Hle.
  assert (forall st3, store_ok st3 -> disk_ok (ls_disk st3) /\
    vote_le (hs_vote (hard_state (ls_state st3))) (disk_vote (ls_disk st3))) as Hdisk3.
  { intros st3 [G1 G2 G3]. split; [split; [apply G1|done]|]. by apply hs_le_vote, hs_durable_read. }
  destruct rc as [rc|]; [|destruct (Hdisk3 _ Hok2); apply wlp_ret; split_and!; [done|by etrans|done]].
  destruct (Hrc rc eq_refl) as (Hv & Hm & Hp).
  pose proof (opened_ok config clock rc st2 Hcfg Hok2 Hv Hm) as Hopen.
  apply wlp_bind, wlp_enter. eapply wlp_mono; [by apply replay_calm|].
  intros r n [Hmv _]. destruct (Hmv Hopen) as [Hokn Hcn Hvn Hln].
  assert (vote_le (disk_vote d) (rt_vote n)) as Hfin.
  { etrans; [exact Hle|]. rewrite <-Hv. exact Hvn. }
  assert (store_ok (rn_log n)) as Hokl.
  { destruct Hokn as [G1 G2 G3 G4 G5 G6 G7]. constructor; [done| |done]. injection G2 as _ G2.
    unfold rn_state in G2. by rewrite G2. }
  destruct (Hdisk3 _ Hokl) as [Hdn Hvd].
  assert (vote_le (disk_vote d) (disk_vote (ls_disk (rn_log n)))) as Hfin2.
  { etrans; [exact Hfin|]. rewrite <-(no_synced _ _ Hokn). exact Hvd. }
  destruct r as [[]|]; apply wlp_ret; (split_and!; [done|done|]); [|done].
  intros n' [= <-]. split_and!; [done|done| |done].
  intros Hl. by destruct (Hln Hl).
Qed.

End restart.
