(* ===== verification/RaftFlaws.v ===== *)
(** * Where replicas of the broker can part

    Closed runs of the modelled code in which the replicated broker does not
    do what its documentation says: fencing tokens that go backwards on a key,
    and replicas that apply the same log and end with different lock tables. *)

From S2P Require Import Prelude Text Monad Protocol Queue BrokerTypes BrokerState Broker BrokerOps.
From S2P Require Import BrokerSpec BrokerFencing BrokerSim BrokerRefine BrokerRuns.
From S2P Require Import BrokerClients BrokerTheorems BrokerSnapshot BrokerRestore.
From S2P Require Import BrokerValidate BrokerSnapshotTheorems RaftQuorum RaftGrant RaftCache.
From S2P Require Import RaftCacheFacts RaftValidate RaftFiles RaftFilesFacts RaftLog RaftExamples.
From S2P Require Import RaftNode RaftApply RaftApplyFacts RaftNodeOps RaftFollower RaftRestart.
From stdpp Require Import options.

#[local] Existing Instance list_queue.
#[local] Existing Instance demo_value_codec.
#[local] Existing Instance demo_raft_codec.
#[local] Existing Instance demo_digest.

(** The broker of a node in environment [env] that starts from [w] and applies
    [commands] as the log's first entries. *)
Definition replica (env : Env) (w : World) (commands : list RaftCommand) : World :=
  default w (rn_broker <$> run_state (apply_committed (E := env)) (node_with w commands)).

Definition new_replica (env : Env) : World := @Broker_new list_queue env BrokerConfig_default true.

(** The lock uuids that hold [key] and the request uuids queued for it. *)
Definition holders_of (key : string) (w : World) : list string :=
  match locks (state w) !! key with
  | Some l => (map_to_list (exclusive_holders l)).*1
  | None => []
  end.
Definition queued_for (key : string) (w : World) : list string :=
  match locks (state w) !! key with
  | Some l => (LinkedQueue.iter (queue l)).*1
  | None => []
  end.

(** ** Fencing tokens of a queued composite request *)

(** A composite waits for ["a"]; ["b"] is locked and released in between; then
    ["a"] is released and the composite gets both keys. *)
Definition token_regression_log : list RaftCommand :=
  [ClientRequest 1 (lock_request "r1" "a" None) None;
   ClientRequest 2 (composite_request "r2" ["a"; "b"]) None;
   ClientRequest 3 (lock_request "r3" "b" None) None;
   ClientRequest 3 (unlock_request "r4" "b" (deterministic_lock_uuid 3)) None;
   ClientRequest 1 (unlock_request "r5" "a" (deterministic_lock_uuid 1)) None].

(** Tokens forced by Raft are not monotonic per key: the composite, queued
    at index 2, is granted ["b"] after the holder planned at index 3 and with
    a smaller token. *)
Theorem raft_tokens_regress :
  issued "b" (trace (replica demo_env (new_replica demo_env) token_regression_log)) =
    [4000000000000018; 4000000000000013].
Proof. vm_compute. reflexivity. Qed.

(** ** Dropping a client *)

(** Client 1 holds ["x"] and ["y"], client 9 holds ["z"]; client 2 waits for
    ["x"] and ["z"], client 3 for ["y"] and ["z"]; client 1 is dropped and
    client 9 releases ["z"]. *)
Definition drop_order_log : list RaftCommand :=
  [ClientRequest 1 (lock_request "r1" "x" None) None;
   ClientRequest 1 (lock_request "r2" "y" None) None;
   ClientRequest 9 (lock_request "r3" "z" None) None;
   ClientRequest 2 (composite_request "r4" ["x"; "z"]) None;
   ClientRequest 3 (composite_request "r5" ["y"; "z"]) None;
   DropClient 1;
   ClientRequest 9 (unlock_request "r6" "z" (deterministic_lock_uuid 3)) None].

(** Two replicas that apply the same log can disagree on who holds a lock:
    [drop_client] visits the freed keys in the order of a [HashSet], which
    decides the order in which the composite waiters queue for their next
    key. *)
Theorem drop_order_diverges :
  holders_of "z" (replica demo_env (new_replica demo_env) drop_order_log) =
    [deterministic_lock_uuid 5] /\
  holders_of "z" (replica reversed_env (new_replica reversed_env) drop_order_log) =
    [deterministic_lock_uuid 4].
Proof. split; vm_compute; reflexivity. Qed.

(** A lock that is to outlive its client, and the client's end. *)
Definition keep_lock_log : list RaftCommand :=
  [ClientRequest 1 (Request.Lock "r1" (Some "k") None None None None false 0 true None) None;
   DropClient 1].

(** The node the client is connected to has a handle for it. *)
Definition connected_replica (env : Env) : World :=
  default (new_replica env)
    (run_state (register_client_with_id 1) (new_replica env)).

(** A lock taken with [keep_locks_after_death] survives the replicated
    [DropClient] on the node its client is connected to and is released on
    every other replica. *)
Theorem keep_after_death_diverges :
  holders_of "k" (replica demo_env (connected_replica demo_env) keep_lock_log) =
    [deterministic_lock_uuid 1] /\
  holders_of "k" (replica demo_env (new_replica demo_env) keep_lock_log) = [].
Proof. split; vm_compute; reflexivity. Qed.

(** ** Evictions from the response cache *)

(** What the log makes every replica's cache do, up to a third request; the
    leader also hands the first response to its waiting caller before the
    third request is applied. *)
Definition follower_cache_ops : list CacheOp :=
  [OpBeginApply "r1" "f1"; OpObserve (ok_response "r1");
   OpBeginApply "r2" "f2"; OpObserve (ok_response "r2"); OpBeginApply "r3" "f3"].
Definition leader_cache_ops : list CacheOp :=
  [OpBeginApply "r1" "f1"; OpObserve (ok_response "r1");
   OpBeginApply "r2" "f2"; OpObserve (ok_response "r2");
   OpRemember "r1" "f1" (ok_response "r1"); OpBeginApply "r3" "f3"].

(** The answer of [begin_client_request_apply] after [ops]. *)
Definition begin_after (ops : list CacheOp) (id f : string) : option (RaftResult bool) :=
  match begin_client_request_apply id f (demo_cache 2 ops) with
  | Done r _ => Some r
  | _ => None
  end.

(** Whether a repeated request is applied is not decided by the log alone:
    returning a response to a waiting caller moves its entry to the back of
    the leader's eviction order, so at the cache limit leader and follower
    evict different requests; an evicted request proposed again is applied by
    the leader and skipped by the follower. *)
Theorem cache_eviction_diverges :
  begin_after leader_cache_ops "r2" "f2" = Some (RaftOk true) /\
  begin_after follower_cache_ops "r2" "f2" = Some (RaftOk false).
Proof. split; vm_compute; reflexivity. Qed.

(** * Where the protocol can fail

    Closed runs of the modelled handlers, on three nodes and their disks, in
    which a property Raft relies on is lost: a restart that forgets a vote and
    lets two leaders win the same term, and a late AppendEntries of a deposed
    leader that erases an entry the node has acknowledged to its successor. *)

#[local] Existing Instance list_queue.
#[local] Existing Instance demo_env.
#[local] Existing Instance demo_value_codec.
#[local] Existing Instance demo_raft_codec.
#[local] Existing Instance demo_digest.

(** ** Running nodes *)

Definition peer (id : string) : RaftPeerConfig := mkRaftPeerConfig id (id +:+ ".local:7001")%string.
Definition now_ms : Z := 1700000000000.
Definition clock_at (t : Z) : Clock := mkClock t (now_ms + t).

(** Nodes "a", "b" and "c" are the configured voters; entries are kept for a
    day before a snapshot is due. *)
Definition open_config (id : string) : RaftOpenConfig :=
  mkRaftOpenConfig
    (mkRaftNodeConfig id (peer_addr (peer id)) false 100 200
       86400000000000 0 0 86400000000000 1000)
    [peer "a"; peer "b"; peer "c"] true true BrokerConfig_default 8.

Definition empty_disk : Disk := mkDisk None None None None None None [] false.

Definition result_of {S A} (r : Res S A) : option (A * S) :=
  match r with Done a s => Some (a, s) | _ => None end.

(** A node opened from a disk, from an empty one, and after a crash. *)
Definition started (id : string) (d : Disk) : option RaftNode :=
  '(res, _) ← result_of (open_node (open_config id) (clock_at 0) d);
  match res with RaftOk n => Some n | RaftErr _ => None end.
Definition restarted (n : RaftNode) : option RaftNode :=
  started (nc_node_id (rn_config n)) (reboot (ls_disk (rn_log n))).

Definition append_request (term : Z) (leader : string) (entries : list RaftLogEntry) (commit : Z)
    : AppendEntriesFromPeer :=
  mkAppendEntriesFromPeer term leader (peer_addr (peer leader)) 0 0 entries commit.

(** A vote request of [candidate], and the candidate's count of the answer. *)
Definition request_vote (round : RaftCandidateRound) (candidate voter : RaftNode)
    : option (option (gset string) * RaftNode * RaftNode) :=
  let s := rn_state candidate in
  let config := rn_config candidate in
  '(answer, voter) ← result_of (handle_request_vote_from_peer (clock_at 500) (cr_term round)
      (nc_node_id config) (nc_advertise_addr config) (last_index s) (last_term s) voter);
  '(votes, candidate) ← result_of (on_vote_response (clock_at 500) round {[nc_node_id config]}
      (local_configured_peer (rn_config voter)) (Some answer) candidate);
  Some (votes, candidate, voter).

(** [candidate] runs for the next term and asks [voter]: whether it leads, and
    both nodes. *)
Definition run_election (candidate voter : RaftNode) : option (bool * RaftNode * RaftNode) :=
  '(res, candidate) ← result_of (begin_candidate_election (clock_at 500) candidate);
  match res with
  | RaftOk (Some round) =>
      '(votes, candidate, voter) ← request_vote round candidate voter;
      '(elected, candidate) ← result_of (become_leader round (default ∅ votes) candidate);
      Some (elected, candidate, voter)
  | _ => None
  end.

(** ** A restart that forgets a vote *)

(** Node "e" comes and goes, then "d" replaces "a". *)
Definition membership_log : list RaftLogEntry :=
  let abc := [peer "a"; peer "b"; peer "c"] in
  let abce := [peer "a"; peer "b"; peer "c"; peer "e"] in
  let bcd := [peer "b"; peer "c"; peer "d"] in
  [mkRaftLogEntry 1 1 now_ms (SetMembership (Joint abc abce));
   mkRaftLogEntry 2 1 now_ms (SetMembership (Simple abce));
   mkRaftLogEntry 3 1 now_ms (SetMembership (Joint abce bcd));
   mkRaftLogEntry 4 1 now_ms (SetMembership (Simple bcd))].

(** A node that has received and applied the log from its leader "a". *)
Definition follower (id : string) : option RaftNode :=
  n ← started id empty_disk;
  '(_, n) ← result_of (handle_append_entries_from_peer (clock_at 1)
                         (append_request 1 "a" membership_log 4) n);
  Some n.

(** "d" and then "c" run for term 2 and ask "b" for its vote; "b" restarts in
    between when [crash] is set. *)
Definition two_elections (crash : bool) : option (list (bool * RaftRole * Z)) :=
  b ← follower "b"; c ← follower "c"; d ← follower "d";
  '(d_elected, d, b) ← run_election d b;
  b ← (if crash then restarted b else Some b);
  '(c_elected, c, b) ← run_election c b;
  Some [(d_elected, rt_role (rn_runtime d), rt_current_term (rn_runtime d));
        (c_elected, rt_role (rn_runtime c), rt_current_term (rn_runtime c))].

(** C38: a restart can elect two leaders in one term.  When it opens, a node
    replays the memberships of its log from the oldest on, and
    [apply_membership] durably clears the vote of the current term when the
    peer voted for is not in the membership being replayed.  Here "b" votes for
    "d" in term 2, restarts, forgets that vote on the membership that had not
    yet "d", and votes for "c" in the same term; both win.  Without the restart
    "c" is refused. *)
Theorem restart_elects_two_leaders :
  two_elections true = Some [(true, Leader, 2); (true, Leader, 2)] /\
  two_elections false = Some [(true, Leader, 2); (false, Candidate, 2)].
Proof. split; vm_compute; reflexivity. Qed.

(** ** A late append *)

Definition noop_entry (index term : Z) : RaftLogEntry := mkRaftLogEntry index term now_ms Noop.

(** The terms of a node's log. *)
Definition terms_of (n : RaftNode) : list Z := le_term <$> rn_retained_log_entries n.

(** "a" is prepared to receive an entry from the leader "b" of term 2; before
    it is written, an entry of the leader "c" of term 3 is received,
    acknowledged; then the first request goes on. *)
Definition interleaved_appends : option (RaftRpcResponse * list Z * list Z) :=
  a ← started "a" empty_disk;
  let from_b := append_request 2 "b" [noop_entry 1 2] 0 in
  let from_c := append_request 3 "c" [noop_entry 1 3; noop_entry 2 3] 0 in
  '(prepared, a) ← result_of (prepare_append_entries (clock_at 1) 2 "b" (peer_addr (peer "b")) a);
  match prepared with
  | inr local_commit_index =>
      '(answer, a) ← result_of (handle_append_entries_from_peer (clock_at 2) from_c a);
      '(_, a') ← result_of (append_prepared (clock_at 3) from_b local_commit_index a);
      Some (answer, terms_of a, terms_of a')
  | inl _ => None
  end.

(** C39: an AppendEntries request whose term was checked before a newer leader's
    request arrived is still written after it: the acknowledged entries of
    term 3 are erased by the one of term 2.  The term is checked under the
    runtime's lock and the log is written under its own, with no check in
    between. *)
Theorem late_append_erases_acknowledged :
  interleaved_appends = Some (AppendEntriesResponse 3 true 2 None None, [3; 3], [2]).
Proof. vm_compute. reflexivity. Qed.
