(* ===== verification/RaftElectionSafety.v ===== *)
(** * Election safety

    A cluster of nodes with a fixed membership: the critical sections of their
    handlers interleave, vote answers are delayed, lost and repeated, calls of
    the file system fail, nodes crash and restart from what their disks hold.
    No two nodes ever lead the same term. *)

From S2P Require Import Prelude Text Monad Protocol Queue BrokerTypes BrokerState Broker BrokerOps.
From S2P Require Import BrokerSnapshot.
From S2P Require Import RaftQuorum RaftQuorumFacts RaftGrant RaftValidate RaftCache RaftFiles.
From S2P Require Import RaftFilesFacts RaftLog RaftHardState RaftLogFacts RaftNode.
From S2P Require Import RaftApply RaftApplyFacts RaftNodeOps RaftFollower RaftRestart RaftLeader.
From S2P Require Import RaftExamples RaftFlaws RaftFrames RaftVotes RaftElection.
From stdpp Require Import options.
Import Membership.

Section cluster.
Context `{LQ : LinkedQueueCrate} `{E : Env} `{D : RequestDigest} `{C : RaftCodec}.
Context (membership : RaftMembership) (config_of : string -> RaftOpenConfig).

(** ** Fixed membership, decided *)

Definition payload_staticb (allow : bool) (payload : Value) : bool :=
  match membership_from_snapshot_payload payload allow with
  | RaftOk None => true
  | RaftOk (Some m) => bool_decide (m = membership)
  | RaftErr _ => false
  end.

Definition store_staticb (allow : bool) (st : RaftLogStore) : bool :=
  forallb (fun e => negb (sets_membership (le_command e))) (retained_log_entries (ls_state st))
  && match d_snapshot (ls_disk st) with
     | Some sf => payload_staticb allow (sf_payload sf)
     | None => true
     end.

(** ** Nodes *)

(** A critical section of a node: what it runs under its locks. *)
Inductive CriticalSection : Type :=
| ApplyVisible
| ApplyCommitted (compact : bool)
| StepDown (term : Z) (leader_id : option string)
| DecideVote (term : Z) (candidate : RaftPeerConfig) (last_log_index last_log_term : Z)
| StartCandidacy
| ObserveElectionTerm (peer : RaftPeerConfig) (expected_term response_term : Z)
| FollowLeader (term : Z) (leader : RaftPeerConfig)
| AppendEntries (prev_log_index prev_log_term leader_term local_commit_index : Z)
    (entries : list RaftLogEntry)
| FinishAppend (term : Z) (leader : RaftPeerConfig) (report : RaftAppendReport) (leader_commit : Z)
| AcceptSnapshotSender (term : Z) (leader : RaftPeerConfig)
| InstallSnapshot (index term : Z) (sha256 : option string) (payload : Value)
| FinishInstalled (term : Z) (leader : RaftPeerConfig) (index : Z) (payload : Value)
| AppendLocal (term : Z) (commands : list RaftCommand) (require_fresh fresh : bool)
| PreparePeer (peer : RaftPeerConfig) (term : Z) (target : option Z)
| AppendResponse (peer : RaftPeerConfig) (term : Z) (target : option Z) (sent : SentBatch)
    (response : option RaftRpcResponse)
| AdvanceCommit
| CommitLeader (index term : Z) (compact : bool) (m : option RaftMembership) (apply : bool)
| ResetFanout (peers : list RaftPeerConfig) (term target : Z)
| QuorumLost (acks : gset string)
| ProxyTerm (peer : RaftPeerConfig) (term : Z) (confirmed : bool).

Definition run_section (clock : Clock) (c : CriticalSection) : M RaftNode unit :=
  match c with
  | ApplyVisible => apply_visible_durable_commit_index clock ;; mret tt
  | ApplyCommitted compact => apply_committed_and_maybe_compact clock compact ;; mret tt
  | StepDown term leader_id => step_down clock term leader_id
  | DecideVote term p i t => decide_vote clock term (peer_id p) (peer_addr p) i t ;; mret tt
  | StartCandidacy => start_candidacy clock ;; mret tt
  | ObserveElectionTerm p t t' => observe_higher_election_peer_term clock p t t' ;; mret tt
  | FollowLeader term p => follow_leader clock term (peer_id p) (peer_addr p) ;; mret tt
  | AppendEntries i t lt ci es => on_log (append_entries_from_leader i t lt ci es) ;; mret tt
  | FinishAppend term p report commit =>
      finish_append_entries_from_peer clock term (peer_id p) (peer_addr p) report commit ;; mret tt
  | AcceptSnapshotSender term p =>
      accept_validated_install_snapshot_sender clock term (peer_id p) (peer_addr p) ;; mret tt
  | InstallSnapshot i t sha payload =>
      on_log (install_snapshot_from_leader i t sha payload (ck_unix_ms clock)) ;; mret tt
  | FinishInstalled term p i payload =>
      finish_installed_snapshot_payload_from_peer term (peer_id p) (peer_addr p) i payload ;; mret tt
  | AppendLocal term commands rf fresh =>
      append_local_batch_as_leader clock term commands rf fresh ;; mret tt
  | PreparePeer p term target => prepare_peer_progress p term target ;; mret tt
  | AppendResponse p term target sent response =>
      on_append_response clock p term target sent response ;; mret tt
  | AdvanceCommit => advance_leader_commit_from_progress clock ;; mret tt
  | CommitLeader i t compact m apply => commit_leader_index clock i t compact m apply ;; mret tt
  | ResetFanout peers term target => reset_membership_fanout_progress peers term target
  | QuorumLost acks => leader_quorum_lost clock acks
  | ProxyTerm p term confirmed => observe_proxy_response_term clock p term confirmed
  end.

(** The runs that are considered: the log and the snapshots of the node, and
    the snapshot that is installed, keep the membership; terms are [u64]s. *)
Definition section_enabled (c : CriticalSection) (n : RaftNode) : bool :=
  store_staticb (nc_in_memory (rn_config n)) (rn_log n)
  && bool_decide (rt_current_term (rn_runtime n) <= u64_max)
  && match c with
     | FinishInstalled _ _ _ payload => payload_staticb (nc_in_memory (rn_config n)) payload
     | _ => true
     end.

(** ** The cluster *)

Inductive NodeState : Type :=
| Up (n : RaftNode)
| Down (d : Disk).

(** The nodes; the answers to vote requests that were sent (voter, candidate,
    answer); the votes counted so far in the rounds of [start_election]; and,
    for the statement, who has led which term. *)
Record Cluster : Type := mkCluster {
  cl_nodes : gmap string NodeState;
  cl_answers : list (string * string * RaftRpcResponse);
  cl_rounds : list (string * RaftCandidateRound * gset string);
  cl_led : list (string * Z);
}.

Definition set_node (i : string) (x : NodeState) (s : Cluster) : Cluster :=
  mkCluster (<[i := x]> (cl_nodes s)) (cl_answers s) (cl_rounds s) (cl_led s).
Definition set_rounds (x : list (string * RaftCandidateRound * gset string)) (s : Cluster) : Cluster :=
  mkCluster (cl_nodes s) (cl_answers s) x (cl_led s).

Definition up (s : Cluster) (i : string) : option RaftNode :=
  match cl_nodes s !! i with Some (Up n) => Some n | _ => None end.

Definition set_faults (fs : list Fault) (n : RaftNode) : RaftNode :=
  set_rn_log (set_ls_disk (set_d_faults fs (ls_disk (rn_log n))) (rn_log n)) n.

(** [Respond] ends a vote handler whose [decide_vote] returned [granted];
    [BeginRound] is the end of [begin_candidate_election]; [CountVote] is a
    turn of the loop of [start_election] for an answer, or for a request that
    failed; [Elect] is its end. *)
Inductive Action : Type :=
| Faults (i : string) (fs : list Fault)
| RunSection (i : string) (clock : Clock) (c : CriticalSection)
| Respond (i : string) (granted : bool) (response_term : Z) (candidate : RaftPeerConfig)
| BeginRound (i : string) (round : RaftCandidateRound)
| CountVote (clock : Clock) (k : nat) (peer : RaftPeerConfig) (answer : option nat)
| Elect (k : nat)
| Crash (i : string)
| Restart (i : string) (clock : Clock) (fs : list Fault).

Definition done_state {A} (r : Res RaftNode A) : option (A * RaftNode) :=
  match r with Done a n => Some (a, n) | _ => None end.

(** The answer of [peer] to node [i]; [None] when there is no such answer. *)
Definition answer_of (s : Cluster) (i : string) (peer : RaftPeerConfig) (a : nat) : option RaftRpcResponse :=
  '(voter, candidate, response) ← cl_answers s !! a;
  if bool_decide (voter = peer_id peer) && bool_decide (candidate = i) then Some response else None.

Definition count_vote (clock : Clock) (k : nat) (peer : RaftPeerConfig) (answer : option nat)
    (s : Cluster) : option Cluster :=
  '(i, round, votes) ← cl_rounds s !! k;
  n ← up s i;
  if negb (section_enabled ApplyVisible n) then None
  else
    '(res, n') ← done_state (on_vote_response clock round votes peer
                               (a ← answer; answer_of s i peer a) n);
    let s := set_node i (Up n') s in
    Some (match res with
          | Some votes' => set_rounds (<[k := (i, round, votes')]> (cl_rounds s)) s
          | None => set_rounds (delete k (cl_rounds s)) s
          end).

Definition elect (k : nat) (s : Cluster) : option Cluster :=
  '(i, round, votes) ← cl_rounds s !! k;
  n ← up s i;
  '(elected, n') ← done_state (become_leader round votes n);
  Some (mkCluster (<[i := Up n']> (cl_nodes s)) (cl_answers s) (delete k (cl_rounds s))
          (if elected : bool then (i, cr_term round) :: cl_led s else cl_led s)).

Definition restart (i : string) (clock : Clock) (fs : list Fault) (s : Cluster) : option Cluster :=
  match cl_nodes s !! i with
  | Some (Down d) =>
      let config := config_of i in
      let d := set_d_faults fs (reboot d) in
      let fixed := match open_log_store (oc_sync_log config) (oc_sync_commit config)
                           (nc_trailing_log_entries (oc_node config)) d with
                   | Done (RaftOk st) _ => store_staticb (nc_in_memory (oc_node config)) st
                   | _ => true
                   end in
      if (fixed : bool) then
        match open_node config clock d with
        | Done (RaftOk n) _ => Some (set_node i (Up n) s)
        | Done (RaftErr _) d' => Some (set_node i (Down d') s)
        | _ => None
        end
      else None
  | _ => None
  end.

Definition perform (a : Action) (s : Cluster) : option Cluster :=
  match a with
  | Faults i fs => n ← up s i; Some (set_node i (Up (set_faults fs n)) s)
  | RunSection i clock c =>
      n ← up s i;
      if section_enabled c n then
        '(_, n') ← done_state (run_section clock c n); Some (set_node i (Up n') s)
      else None
  | Respond i granted response_term candidate =>
      n ← up s i;
      Some (mkCluster (cl_nodes s)
              ((i, peer_id candidate, vote_response granted response_term candidate n) :: cl_answers s)
              (cl_rounds s) (cl_led s))
  | BeginRound i round =>
      n ← up s i;
      if still_candidate round n
      then Some (set_rounds ((i, round, {[nc_node_id (rn_config n)]}) :: cl_rounds s) s) else None
  | CountVote clock k peer answer => count_vote clock k peer answer s
  | Elect k => elect k s
  | Crash i =>
      n ← up s i;
      Some (set_rounds (filter (fun x => x.1.1 <> i) (cl_rounds s)) (set_node i (Down (ls_disk (rn_log n))) s))
  | Restart i clock fs => restart i clock fs s
  end.

Fixpoint run (actions : list Action) (s : Cluster) : option Cluster :=
  match actions with
  | [] => Some s
  | a :: actions => s' ← perform a s; run actions s'
  end.

(** Node [i] has led, or leads, term [t]. *)
Definition leads_term (s : Cluster) (i : string) (t : Z) : Prop :=
  (i, t) ∈ cl_led s \/
  exists n, up s i = Some n /\ rt_role (rn_runtime n) = Leader /\ rt_current_term (rn_runtime n) = t.

(** ** The invariant *)

Context (valid : forall allow, validate_raft_membership_for_transport membership allow = RaftOk membership).

Lemma payload_staticb_true allow payload :
  payload_staticb allow payload = true -> payload_static membership allow payload.
Proof.
  unfold payload_staticb, payload_static. destruct (membership_from_snapshot_payload _ _) as [[m|]|]; [|by auto|done].
  rewrite bool_decide_eq_true. intros ->. auto.
Qed.

Lemma store_staticb_true allow st : store_staticb allow st = true -> store_static membership allow st.
Proof.
  unfold store_staticb. rewrite andb_true_iff. intros [H1 H2]. split.
  - apply Is_true_eq_left, forallb_True in H1. eapply Forall_impl; [exact H1|]. intros e He. simpl in He. by destruct (sets_membership (le_command e)).
  - intros sf Hsf. rewrite Hsf in H2. by apply payload_staticb_true.
Qed.

Lemma section_evolves clock c n :
  section_enabled c n = true -> node_ok membership n ->
  wlp (run_section clock c) (fun _ n' => evolves membership n n') n.
Proof using valid.
  unfold section_enabled. rewrite !andb_true_iff, bool_decide_eq_true. intros [[Hs Ht] Hc] Hok.
  apply store_staticb_true in Hs.
  assert (forall A (m : M RaftNode A), wlp m (fun _ n' => evolves membership n n') n ->
    wlp (m ;; mret tt) (fun _ n' => evolves membership n n') n) as Hskip.
  { intros A m Hm. apply wlp_bind. eapply wlp_mono; [exact Hm|]. intros ? ? He. by apply wlp_ret. }
  destruct c; simpl; try apply Hskip.
  - by apply apply_visible_section.
  - by apply apply_compact_section.
  - by apply step_down_section.
  - by apply decide_vote_section.
  - by apply start_candidacy_ok.
  - by apply observe_election_section.
  - eapply wlp_mono; [by apply follow_leader_ok|]. by intros ? ? [].
  - apply keeps_section; [|done..]. apply keeps_log_moves, keeps_append_entries.
  - by apply finish_append_section.
  - by apply accept_sender_ok.
  - apply keeps_section; [|done..]. apply keeps_log_moves, keeps_install_snapshot.
  - apply finish_installed_ok; [done| |done]. by apply payload_staticb_true.
  - apply keeps_section; [|done..]. unfold append_local_batch_as_leader.
    pose proof (fun t l a => keeps_log_moves membership _ (keeps_append_batch t l a)). keeps_steps.
  - apply keeps_section; [|done..]. unfold prepare_peer_progress.
    pose proof (keeps_progress membership). keeps_steps.
  - by apply append_response_section.
  - by apply advance_commit_section.
  - by apply commit_leader_section.
  - apply keeps_section; [|done..]. unfold reset_membership_fanout_progress. keeps_steps.
    apply keeps_calm_moves. by apply keeps_runtime_calm.
  - by apply quorum_lost_section.
  - by apply proxy_term_section.
Qed.

Definition state_vote (x : NodeState) : Z * option string :=
  match x with Up n => rt_vote n | Down d => disk_vote d end.

Definition state_ok (i : string) (x : NodeState) : Prop :=
  match x with
  | Up n => node_ok membership n /\ rn_config n = oc_node (config_of i)
  | Down d => disk_ok membership d
  end /\ member_config membership (config_of i) /\ nc_node_id (oc_node (config_of i)) = i.

(** [h] says for whom each node has voted in each term. *)
Record cluster_ok (h : gmap (string * Z) string) (s : Cluster) : Prop := {
  co_nodes : map_Forall state_ok (cl_nodes s);
  co_history : forall v t c, h !! (v, t) = Some c ->
    exists x, cl_nodes s !! v = Some x /\ vote_le (t, Some c) (state_vote x);
  co_answers : Forall (fun '(v, c, response) =>
    forall t, response = RequestVoteResponse t true -> h !! (v, t) = Some c) (cl_answers s);
  co_rounds : Forall (fun '(i, round, votes) =>
    set_Forall (fun v => h !! (v, cr_term round) = Some i) votes) (cl_rounds s);
  co_led : Forall (fun '(i, t) => exists votes, quorum_met membership votes = true /\
    set_Forall (fun v => h !! (v, t) = Some i) votes) (cl_led s);
  co_leader : forall i n, up s i = Some n -> rt_role (rn_runtime n) = Leader ->
    (i, rt_current_term (rn_runtime n)) ∈ cl_led s;
}.

Lemma up_lookup s i n : up s i = Some n <-> cl_nodes s !! i = Some (Up n).
Proof. unfold up. destruct (cl_nodes s !! i) as [[]|]; split; congruence. Qed.

Lemma cluster_node_ok h s i n :
  cluster_ok h s -> up s i = Some n ->
  node_ok membership n /\ nc_node_id (rn_config n) = i /\ state_ok i (Up n).
Proof.
  intros Hc Hu%up_lookup. apply (co_nodes _ _ Hc) in Hu as Hs. simpl in *.
  destruct Hs as ((H1 & H2) & H3 & H4). split_and!; try done. by rewrite H2.
Qed.

(** A node that goes on from what it has promised. *)
Lemma cluster_set_node h s i x y :
  cluster_ok h s -> cl_nodes s !! i = Some x -> state_ok i y -> vote_le (state_vote x) (state_vote y) ->
  (forall n, y = Up n -> rt_role (rn_runtime n) = Leader -> exists n0, x = Up n0 /\
     rt_role (rn_runtime n0) = Leader /\ rt_current_term (rn_runtime n) = rt_current_term (rn_runtime n0)) ->
  cluster_ok h (set_node i y s).
Proof.
  intros [H1 H2 H3 H4 H5 H6] Hx Hy Hv Hl. constructor; simpl; try done.
  - by apply map_Forall_insert_2.
  - intros v t c (z & Hz & Hle)%H2. destruct (decide (v = i)) as [->|].
    + exists y. rewrite lookup_insert_eq. simplify_eq. split; [done|]. by etrans.
    + exists z. by rewrite lookup_insert_ne.
  - intros j n Hn Hr. apply up_lookup in Hn. simpl in Hn. destruct (decide (j = i)) as [->|].
    + rewrite lookup_insert_eq in Hn. injection Hn as ->.
      destruct (Hl n eq_refl Hr) as (n0 & -> & Hr0 & ->). apply H6; [|done]. by apply up_lookup.
    + rewrite lookup_insert_ne in Hn by done. apply H6; [|done]. by apply up_lookup.
Qed.

Lemma cluster_evolves h s i n n' :
  cluster_ok h s -> up s i = Some n -> evolves membership n n' -> cluster_ok h (set_node i (Up n') s).
Proof.
  intros Hc Hu [E1 E2 E3 E4]. destruct (cluster_node_ok _ _ _ _ Hc Hu) as (_ & _ & [[_ Hcfg] Hm]).
  eapply cluster_set_node; [done|by apply up_lookup| |done|].
  - split; [|done]. split; [done|congruence].
  - intros n0 [= <-] Hr. destruct (E4 Hr). eauto.
Qed.

(** A vote the node has is recorded. *)
Lemma cluster_record h s i n c :
  cluster_ok h s -> up s i = Some n -> rt_voted_for (rn_runtime n) = Some c ->
  exists h', h ⊆ h' /\ h' !! (i, rt_current_term (rn_runtime n)) = Some c /\ cluster_ok h' s.
Proof.
  intros [H1 H2 H3 H4 H5 H6] Hu Hc. set (t := rt_current_term (rn_runtime n)).
  assert (h ⊆ <[(i, t) := c]> h) as Hsub.
  { destruct (h !! (i, t)) as [c'|] eqn:Hh; [|by apply insert_subseteq].
    cut (c' = c); [intros ->; by rewrite insert_id|]. destruct (H2 _ _ _ Hh) as (x & Hx & Hle). apply up_lookup in Hu. simplify_eq. simpl in Hle.
    unfold rt_vote in Hle. fold t in Hle. rewrite Hc in Hle.
    destruct Hle as [Hle|[_ [Hle|Hle]]]; simpl in Hle; [lia|done|congruence]. }
  exists (<[(i, t) := c]> h). rewrite lookup_insert_eq. split_and!; [done|done|].
  assert (forall k c', h !! k = Some c' -> <[(i, t) := c]> h !! k = Some c') as Hmono.
  { intros k c' Hk. by eapply lookup_weaken. }
  constructor; simpl; try done.
  - intros v t' c' [[[= <- <-] <-]|[Hne Hv]]%lookup_insert_Some; [|by apply H2].
    exists (Up n). split; [by apply up_lookup|]. simpl. unfold rt_vote. by rewrite Hc.
  - eapply Forall_impl; [exact H3|]. intros [[v c'] r] Hr t' ->. auto.
  - eapply Forall_impl; [exact H4|]. intros [[v round] votes] Hr x Hx. auto.
  - eapply Forall_impl; [exact H5|]. intros [j t'] (votes & Hq & Hv). exists votes. split; [done|].
    intros x Hx. auto.
Qed.

Lemma cluster_rounds h s rounds :
  cluster_ok h s ->
  Forall (fun '(i, round, votes) => set_Forall (fun v => h !! (v, cr_term round) = Some i) votes) rounds ->
  cluster_ok h (set_rounds rounds s).
Proof. intros [H1 H2 H3 H4 H5 H6] Hr. by constructor. Qed.

(** ** The steps *)

Lemma done_state_spec {A} (r : Res RaftNode A) a n : done_state r = Some (a, n) -> r = Done a n.
Proof. destruct r; simpl; congruence. Qed.

Lemma set_faults_evolves fs n : node_ok membership n -> evolves membership n (set_faults fs n).
Proof. intros Hok. by apply (hs_same_moves membership). Qed.

Lemma crash_ok n : node_ok membership n ->
  disk_ok membership (ls_disk (rn_log n)) /\ vote_le (rt_vote n) (disk_vote (ls_disk (rn_log n))).
Proof.
  intros [H1 H2 H3 H4 H5 H6 H7]. split; [split; [apply H1|done]|].
  rewrite <-H2. by apply hs_le_vote, hs_durable_read.
Qed.

Lemma respond_ok h s i n granted response_term candidate :
  cluster_ok h s -> up s i = Some n ->
  exists h', cluster_ok h' (mkCluster (cl_nodes s)
    ((i, peer_id candidate, vote_response granted response_term candidate n) :: cl_answers s)
    (cl_rounds s) (cl_led s)).
Proof.
  intros Hc Hu.
  assert (exists h', cluster_ok h' s /\ forall t,
    vote_response granted response_term candidate n = RequestVoteResponse t true ->
    h' !! (i, t) = Some (peer_id candidate)) as (h' & [H1 H2 H3 H4 H5 H6] & Hans).
  { unfold vote_response. cbv zeta.
    destruct (_ && bool_decide (rt_voted_for _ = _)) eqn:Hb; [|exists h; split; [done|]; by intros t [=]].
    rewrite !andb_true_iff, !bool_decide_eq_true in Hb. destruct Hb as [[[[_ Ht] _] _] Hv].
    destruct (cluster_record _ _ _ _ _ Hc Hu Hv) as (h' & _ & Hh & Hc'). exists h'. split; [done|].
    intros t [= <-]. rewrite <-Ht. by rewrite Z.max_id. }
  exists h'. constructor; try done. by constructor.
Qed.

Lemma begin_round_ok h s i n round :
  cluster_ok h s -> up s i = Some n -> still_candidate round n = true ->
  exists h', cluster_ok h' (set_rounds ((i, round, {[nc_node_id (rn_config n)]}) :: cl_rounds s) s).
Proof.
  intros Hc Hu Hst. destruct (cluster_node_ok _ _ _ _ Hc Hu) as (Hok & Hid & _).
  unfold still_candidate in Hst. rewrite !andb_true_iff, !bool_decide_eq_true in Hst.
  destruct Hst as [[[Ht Hrole] _] _].
  assert (rt_voted_for (rn_runtime n) = Some i) as Hv.
  { rewrite <-Hid. apply Hok. by rewrite Hrole. }
  destruct (cluster_record _ _ _ _ _ Hc Hu Hv) as (h' & _ & Hh & Hc'). exists h'.
  apply cluster_rounds; [done|]. constructor; [|apply Hc'].
  rewrite Hid, <-Ht. intros v ->%elem_of_singleton. done.
Qed.

Lemma count_vote_ok h s s' clock k peer answer :
  cluster_ok h s -> count_vote clock k peer answer s = Some s' -> cluster_ok h s'.
Proof using valid.
  intros Hc. unfold count_vote.
  destruct (cl_rounds s !! k) as [[[i round] votes]|] eqn:Hk; [|done]. simpl.
  destruct (up s i) as [n|] eqn:Hu; [|done]. simpl.
  destruct (section_enabled _ _) eqn:Hen; [|done]. simpl.
  destruct (done_state _) as [[res n']|] eqn:Hd; [|done]. simpl. apply done_state_spec in Hd.
  destruct (cluster_node_ok _ _ _ _ Hc Hu) as (Hok & _ & _).
  unfold section_enabled in Hen. rewrite !andb_true_iff in Hen. destruct Hen as [[Hst _] _].
  apply store_staticb_true in Hst.
  apply (on_election_response_ok membership _ _ _ _ _ _ _ Hst Hok) in Hd as [He Hvotes].
  pose proof (cluster_evolves _ _ _ _ _ Hc Hu He) as Hc'.
  pose proof (co_rounds _ _ Hc) as Hr.
  intros [= <-].
  destruct res as [votes'|]; (apply cluster_rounds; [done|]); simpl; [|by apply Forall_delete].
  apply Forall_insert; [done|].
  pose proof (proj1 (Forall_lookup _ _) Hr _ _ Hk) as Hrk. simpl in Hrk.
  destruct (Hvotes votes' eq_refl) as [->|[Hans ->]]; [done|].
  intros v [->%elem_of_singleton|Hv]%elem_of_union; [|by apply Hrk].
  destruct answer as [a|]; [|done]. simpl in Hans. unfold answer_of in Hans.
  destruct (cl_answers s !! a) as [[[voter candidate] response]|] eqn:Ha; [|done]. simpl in Hans.
  pose proof (proj1 (Forall_lookup _ _) (co_answers _ _ Hc) _ _ Ha) as Hra. simpl in Hra.
  destruct (_ && _) eqn:Hb; [|done]. rewrite !andb_true_iff, !bool_decide_eq_true in Hb.
  destruct Hb as [-> ->]. destruct response; simplify_eq; by apply Hra.
Qed.

Lemma elect_ok h s s' k : cluster_ok h s -> elect k s = Some s' -> cluster_ok h s'.
Proof.
  intros Hc. unfold elect. destruct (cl_rounds s !! k) as [[[i round] votes]|] eqn:Hk; [|done]. simpl.
  destruct (up s i) as [n|] eqn:Hu; [|done]. simpl.
  destruct (done_state _) as [[elected n']|] eqn:Hd; [|done]. simpl. apply done_state_spec in Hd.
  destruct (cluster_node_ok _ _ _ _ Hc Hu) as (Hok & _ & [[_ Hcfg] Hm]).
  apply (become_leader_ok membership _ _ _ Hok) in Hd as (Hok' & Hcfg' & Hvote & Hel).
  assert (state_ok i (Up n')) as Hst by (split; [split; [done|congruence]|done]).
  pose proof Hc as [H1 H2 H3 H4 H5 H6].
  pose proof (proj1 (Forall_lookup _ _) H4 _ _ Hk) as Hrk. simpl in Hrk. apply up_lookup in Hu.
  intros [= <-]. constructor; simpl; try done.
  - by apply map_Forall_insert_2.
  - intros v t c (z & Hz & Hle)%H2. destruct (decide (v = i)) as [->|]; [|exists z; by rewrite lookup_insert_ne].
    exists (Up n'). rewrite lookup_insert_eq. assert (z = Up n) as -> by congruence. split; [done|].
    change (state_vote (Up n')) with (rt_vote n'). by rewrite Hvote.
  - by apply Forall_delete.
  - destruct elected; [|done]. constructor; [|done]. exists votes. split; [apply Hel|done].
  - intros j m Hj Hr. apply up_lookup in Hj. simpl in Hj. destruct (decide (j = i)) as [->|].
    + rewrite lookup_insert_eq in Hj. injection Hj as <-. destruct elected.
      * destruct Hel as (_ & _ & Ht & _). injection Hvote as Ht' _. rewrite Ht', Ht. by left.
      * subst n'. apply H6; [by apply up_lookup|done].
    + rewrite lookup_insert_ne in Hj by done. apply up_lookup in Hj. specialize (H6 _ _ Hj Hr).
      destruct elected; [by right|done].
Qed.

Lemma restart_ok h s s' i clock fs : cluster_ok h s -> restart i clock fs s = Some s' -> cluster_ok h s'.
Proof using valid.
  intros Hc. unfold restart. destruct (cl_nodes s !! i) as [[|d]|] eqn:Hi; [done| |done]. cbv zeta.
  destruct (co_nodes _ _ Hc _ _ Hi) as (Hd & Hm & Hid).
  destruct (match open_log_store _ _ _ _ with Done (RaftOk _) _ => _ | _ => _ end) eqn:Hfix; [|done].
  destruct (open_node _ _ _) as [r d'| |] eqn:Hopen; [|done..].
  apply (open_node_ok membership valid) in Hopen as (Hd' & Hle & Hn); [|done|done|].
  2: { intros st d2 Heq. rewrite Heq in Hfix. by apply store_staticb_true. }
  destruct r as [n|]; intros [= <-].
  - destruct (Hn n eq_refl) as (N1 & N2 & N3 & N4).
    eapply cluster_set_node; [done|done| |done|by intros ? [= <-]]. by split.
  - eapply cluster_set_node; [done|done| |done|done]. by split.
Qed.

Lemma perform_ok h s s' a : cluster_ok h s -> perform a s = Some s' -> exists h', cluster_ok h' s'.
Proof using valid.
  intros Hc. destruct a as [i fs|i clock c|i granted t p|i round|clock k p answer|k|i|i clock fs]; simpl.
  - destruct (up s i) as [n|] eqn:Hu; [|done]. intros [= <-]. exists h.
    eapply cluster_evolves; [done|done|]. apply set_faults_evolves. by eapply cluster_node_ok.
  - destruct (up s i) as [n|] eqn:Hu; [|done]. simpl. destruct (section_enabled c n) eqn:Hen; [|done].
    destruct (done_state _) as [[u n']|] eqn:Hd; [|done]. simpl. intros [= <-]. apply done_state_spec in Hd.
    exists h. eapply cluster_evolves; [done|done|]. eapply section_evolves; [done| |done].
    by eapply cluster_node_ok.
  - destruct (up s i) as [n|] eqn:Hu; [|done]. intros [= <-]. by eapply respond_ok.
  - destruct (up s i) as [n|] eqn:Hu; [|done]. simpl.
    destruct (still_candidate round n) eqn:Hst; [|done]. intros [= <-]. by eapply begin_round_ok.
  - intros Hs. exists h. by eapply count_vote_ok.
  - intros Hs. exists h. by eapply elect_ok.
  - destruct (up s i) as [n|] eqn:Hu; [|done]. intros [= <-]. exists h.
    destruct (cluster_node_ok _ _ _ _ Hc Hu) as (Hok & _ & [_ Hm]). destruct (crash_ok n Hok).
    apply cluster_rounds.
    2: { apply Forall_forall. intros x [_ Hx]%list_elem_of_filter.
         by apply (proj1 (Forall_forall _ _) (co_rounds _ _ Hc)). }
    eapply cluster_set_node; [done|by apply up_lookup|by split|done|done].
  - intros Hs. exists h. by eapply restart_ok.
Qed.

Lemma run_ok actions h s s' : cluster_ok h s -> run actions s = Some s' -> exists h', cluster_ok h' s'.
Proof using valid.
  revert h s. induction actions as [|a actions IH]; simpl; intros h s Hc; [intros [= <-]; by exists h|].
  destruct (perform a s) as [s1|] eqn:Hp; [|done]. simpl. intros Hr.
  destruct (perform_ok _ _ _ _ Hc Hp) as [h1 Hc1]. by eapply IH.
Qed.

Lemma cluster_leader_unique h s i j t :
  cluster_ok h s -> leads_term s i t -> leads_term s j t -> i = j.
Proof.
  intros Hc Hi Hj.
  assert (forall k, leads_term s k t -> exists votes, quorum_met membership votes = true /\
    set_Forall (fun v => h !! (v, t) = Some k) votes) as Hled.
  { intros k [Hk|(n & Hk & Hr & <-)]; [|pose proof (co_leader _ _ Hc _ _ Hk Hr) as Hin];
      by apply (proj1 (Forall_forall _ _) (co_led _ _ Hc) (k, _)). }
  destruct (Hled i Hi) as (a & Ha & Hva). destruct (Hled j Hj) as (b & Hb & Hvb).
  destruct (quorums_intersect membership a b Ha Hb) as (v & Hv1 & Hv2).
  specialize (Hva v Hv1). specialize (Hvb v Hv2). simpl in *. congruence.
Qed.

(** A cluster that starts: every node is down, and its disk has at most a vote
    for a member. *)
Definition cluster_start (disks : gmap string Disk) : Cluster :=
  mkCluster (Down <$> disks) [] [] [].

Definition start_ok (disks : gmap string Disk) : Prop :=
  forall i d, disks !! i = Some d ->
    disk_ok membership d /\ member_config membership (config_of i) /\ nc_node_id (oc_node (config_of i)) = i.

Lemma start_cluster_ok disks : start_ok disks -> cluster_ok ∅ (cluster_start disks).
Proof.
  intros Hs. constructor; simpl; try done.
  - intros i x Hx. rewrite lookup_fmap in Hx. destruct (disks !! i) as [d|] eqn:Hd; simplify_eq/=.
    by apply Hs.
  - intros i n Hu. apply up_lookup in Hu. simpl in Hu. rewrite lookup_fmap in Hu.
    by destruct (disks !! i).
Qed.

End cluster.

(** C3: election safety.  In a cluster with a fixed membership, however the
    critical sections of the nodes interleave, whichever calls of the file
    system fail, and whenever nodes crash and restart, two nodes that lead the
    same term are the same node. *)
Theorem one_leader_per_term `{LQ : LinkedQueueCrate} `{E : Env} `{D : RequestDigest} `{C : RaftCodec}
    membership config_of disks actions s i j t :
  (forall allow, validate_raft_membership_for_transport membership allow = RaftOk membership) ->
  start_ok membership config_of disks ->
  run membership config_of actions (cluster_start disks) = Some s ->
  leads_term s i t -> leads_term s j t -> i = j.
Proof.
  intros Hv Hs Hr. destruct (run_ok membership config_of Hv _ _ _ _ (start_cluster_ok _ _ _ Hs) Hr) as [h Hc].
  by eapply cluster_leader_unique.
Qed.

(** ** An election *)

Section demo.
#[local] Existing Instance list_queue.
#[local] Existing Instance demo_env.
#[local] Existing Instance demo_value_codec.
#[local] Existing Instance demo_raft_codec.
#[local] Existing Instance demo_digest.

Definition demo_members : RaftMembership := Simple [peer "a"; peer "b"; peer "c"].

Definition demo_disks : gmap string Disk :=
  list_to_map [("a", empty_disk); ("b", empty_disk); ("c", empty_disk)]%string.

(** "a" runs for term 1; "b" votes for it, crashes and restarts, and refuses
    "c", which runs for the same term; a sync of "c" fails on the way. *)
Definition demo_actions : list Action :=
  let round := mkRaftCandidateRound 1 demo_members in
  [Restart "a" (clock_at 0) []; Restart "b" (clock_at 0) []; Restart "c" (clock_at 0) [];
   RunSection "a" (clock_at 500) StartCandidacy; BeginRound "a" round;
   RunSection "b" (clock_at 500) (DecideVote 1 (peer "a") 0 0); Respond "b" true 1 (peer "a");
   Crash "b"; Restart "b" (clock_at 600) [];
   Faults "c" [Fails 0 "no space left on device"]; RunSection "c" (clock_at 700) StartCandidacy;
   RunSection "c" (clock_at 800) StartCandidacy; BeginRound "c" round;
   RunSection "b" (clock_at 800) (DecideVote 1 (peer "c") 0 0); Respond "b" true 1 (peer "c");
   CountVote (clock_at 900) 0 (peer "b") (Some 0); Elect 0;
   CountVote (clock_at 900) 0 (peer "b") (Some 1); Elect 0]%string%nat%Z.

Definition demo_run : option Cluster :=
  run demo_members open_config demo_actions (cluster_start demo_disks).

Lemma demo_start_ok : start_ok demo_members open_config demo_disks.
Proof.
  intros i d Hd. unfold demo_disks in Hd. simpl in Hd.
  repeat (apply lookup_insert_Some in Hd as [[<- <-]|[_ Hd]]; [split_and!; by vm_compute|]). done.
Qed.

Lemma one_leader_per_term_witness :
  exists s, demo_run = Some s /\ leads_term s "a" 1 /\ forall j, leads_term s j 1 -> "a"%string = j.
Proof.
  assert (cl_led <$> demo_run = Some [("a"%string, 1)]) as Hled by by vm_compute.
  destruct demo_run as [s|] eqn:Hrun; [|done]. injection Hled as Hled.
  assert (leads_term s "a" 1) as Ha by (left; rewrite Hled; by left).
  exists s. split; [done|]. split; [done|]. intros j.
  apply (one_leader_per_term demo_members open_config demo_disks demo_actions); [|apply demo_start_ok|done|done].
  by intros [|]; vm_compute.
Defined.

End demo.
