(* ===== verification/RaftLeaderFacts.v ===== *)
(** * The leader commits what a quorum holds

    The commit index the leader moves to is the greatest index of its own term
    that it knows a quorum to hold; what it believes a peer to hold was
    acknowledged by that peer; and a rejected batch makes it go back. *)

From S2P Require Import Prelude Text Monad Protocol Queue BrokerTypes BrokerState Broker BrokerOps.
From S2P Require Import BrokerSnapshot.
From S2P Require Import RaftQuorum RaftQuorumFacts RaftGrant RaftValidate RaftCache RaftFiles RaftLog.
From S2P Require Import RaftLogFacts RaftLogInv RaftExamples RaftNode RaftApply RaftNodeOps RaftLeader RaftFrames.
From stdpp Require Import options.
Import Membership.

Lemma list_least (l : list Z) : l <> [] -> exists c, c ∈ l /\ forall i, i ∈ l -> c <= i.
Proof.
  induction l as [|x l IH]; [done|]. intros _. destruct l as [|y l].
  - exists x. split; [by left|]. intros i ->%list_elem_of_singleton. lia.
  - destruct IH as (c & Hc & Hmin); [done|]. exists (Z.min x c). split.
    + destruct (Z.min_spec x c) as [[_ ->]|[_ ->]]; [by left|by right].
    + intros i [->|Hi]%elem_of_cons; [lia|]. specialize (Hmin i Hi). lia.
Qed.

(** ** What applying commands does to the runtime *)

Section frame.
Context `{LQ : LinkedQueueCrate} `{E : Env} `{D : RequestDigest} `{C : RaftCodec}.

(** A relation the updates of the runtime respect. *)
Context (R : relation RaftRuntimeState) {R_order : PreOrder R}.
Context (R_applied : forall i r, R r (set_rt_last_applied i r)).
Context (R_membership : forall config m i r, R r (adopt_membership config m i r)).
Context (R_learners : forall l a i r, R r (adopt_staged_learners l a i r)).

Definition runtime_rel (n n' : RaftNode) : Prop := R (rn_runtime n) (rn_runtime n').

#[local] Instance runtime_rel_preorder : PreOrder runtime_rel.
Proof using R_order. split; [by intros n; unfold runtime_rel|]. intros n1 n2 n3 H1 H2. unfold runtime_rel in *. by etrans. Qed.

Lemma keeps_rel_log {A} (m : M RaftLogStore A) : keeps runtime_rel (on_log m).
Proof using R_order. intros n a n'. unfold on_log, runtime_rel. by destruct (m _); intros [= <- <-]. Qed.

Lemma keeps_rel_broker {A} (m : M World A) : keeps runtime_rel (on_broker m).
Proof using R_order. intros n a n'. unfold on_broker, runtime_rel. by destruct (m _); intros [= <- <-]. Qed.

Lemma keeps_rel_cache {A} (m : M CacheNode A) : keeps runtime_rel (on_cache m).
Proof using R_order. intros n a n'. unfold on_cache, runtime_rel. by destruct (m _); intros [= <- <-]. Qed.

Lemma keeps_rel_runtime f : (forall r, R r (f r)) -> keeps runtime_rel (modify_runtime f).
Proof. intros Hf n a n' [= <- <-]. apply Hf. Qed.

#[local] Hint Resolve keeps_rel_log keeps_rel_broker keeps_rel_cache keeps_rel_runtime : keeps.

Lemma keeps_rel_apply command : keeps runtime_rel (apply_command command).
Proof using All.
  assert (forall l a, keeps runtime_rel (persist_staged_learners_for_active_peers l a)) as Hp.
  { intros. unfold persist_staged_learners_for_active_peers. keeps_steps. }
  unfold apply_command. destruct command; keeps_steps.
  - unfold apply_membership, restore_staged_learners_after_membership_preflight_failure. keeps_steps.
  - unfold apply_staged_learners. keeps_steps.
Qed.

Lemma keeps_rel_entries entries : keeps runtime_rel (apply_entries entries).
Proof using All.
  pose proof keeps_rel_apply.
  assert (forall i, keeps runtime_rel (modify (set_rn_last_applied i))) by (intros i n a n' [= <- <-]; apply R_applied).
  induction entries; simpl; keeps_steps.
Qed.

Lemma keeps_rel_compact clock compact : keeps runtime_rel (apply_committed_and_maybe_compact clock compact).
Proof using All.
  pose proof keeps_rel_entries.
  assert (forall i, keeps runtime_rel (modify (set_rn_last_applied i))) by (intros i n a n' [= <- <-]; apply R_applied).
  assert (forall fuel, keeps runtime_rel (apply_committed_loop fuel)) as Hloop.
  { assert (forall i j, keeps runtime_rel (entries_range i j)) by (intros; unfold entries_range; keeps_steps).
    induction fuel; simpl; keeps_steps. }
  assert (forall i, keeps runtime_rel (modify (set_rn_last_snapshot_at i))).
  { intros i n a n' [= <- <-]. unfold runtime_rel. done. }
  unfold apply_committed_and_maybe_compact, apply_committed, snapshot_and_compact_if_needed,
    take_snapshot_and_compact. keeps_steps.
Qed.

Lemma keeps_rel_step_down clock term leader_id :
  (forall r t v l i d, R r (set_rt_election_deadline d (set_rt_commit_index (Z.max (rt_commit_index r) i)
     (set_rt_leader_id l (set_rt_voted_for v (set_rt_role Follower (set_rt_term t r))))))) ->
  keeps runtime_rel (step_down clock term leader_id).
Proof using All.
  intros Hdown. pose proof keeps_rel_compact. unfold step_down. keeps_steps.
Qed.

End frame.

(** Applying commands leaves the commit index. *)
Definition commit_same : relation RaftRuntimeState := fun r r' => rt_commit_index r' = rt_commit_index r.

#[local] Instance commit_same_preorder : PreOrder commit_same.
Proof. split; [done|]. intros ???. unfold commit_same. congruence. Qed.

Lemma keeps_commit_compact `{LQ : LinkedQueueCrate} `{E : Env} `{D : RequestDigest} `{C : RaftCodec} clock compact :
  keeps (runtime_rel commit_same) (apply_committed_and_maybe_compact clock compact).
Proof.
  apply keeps_rel_compact; [apply _|done| |].
  - intros config m i r. unfold commit_same, adopt_membership. cbv zeta. repeat case_match; done.
  - done.
Qed.

(** ** The commit index *)

Section commit.
Context `{LQ : LinkedQueueCrate} `{E : Env} `{D : RequestDigest} `{C : RaftCodec}.

#[local] Abbreviation commit_of n := (rt_commit_index (rn_runtime n)).
#[local] Abbreviation term_of n := (rt_current_term (rn_runtime n)).

(** Who is known to hold the log through an index. *)
Definition holders (n : RaftNode) (index : Z) : gset string :=
  matched_ids_for_index (nc_node_id (rn_config n)) (last_index (rn_state n))
    (rt_leader_progress (rn_runtime n)) index.

(** An index the leader may commit: a quorum holds it, and it is of its term. *)
Definition committable (n : RaftNode) (index : Z) : Prop :=
  term_at_index (rn_state n) index = Some (term_of n) /\
  quorum_met (rt_membership (rn_runtime n)) (holders n index) = true.

Lemma elem_of_matched_pairs n id i :
  (id, i) ∈ matched_pairs n <->
  (id = nc_node_id (rn_config n) /\ i = last_index (rn_state n)) \/
  exists p, rt_leader_progress (rn_runtime n) !! id = Some p /\
    pp_match_index p = i /\ i <= last_index (rn_state n).
Proof.
  unfold matched_pairs. rewrite elem_of_cons, list_elem_of_omap, pair_eq.
  apply or_iff_compat_l. split.
  - intros ([k p] & Hin%elem_of_map_to_list & Hp). simpl in *. unfold trusted_peer_match_index in Hp.
    case_bool_decide; simplify_eq/=. eauto.
  - intros (p & Hp & <- & Hle). exists (id, p). rewrite elem_of_map_to_list. split; [done|]. simpl.
    unfold trusted_peer_match_index. by rewrite bool_decide_eq_true_2.
Qed.

Lemma elem_of_holders n i id :
  id ∈ holders n i <-> exists j, (id, j) ∈ matched_pairs n /\ i <= j.
Proof.
  unfold holders, matched_ids_for_index. setoid_rewrite elem_of_matched_pairs.
  rewrite elem_of_union, elem_of_dom. split.
  - intros [Hs|[p Hp]].
    + case_bool_decide; [|set_solver]. apply elem_of_singleton in Hs as ->. eauto.
    + apply map_lookup_filter_Some in Hp as [Hp Hm]. simpl in Hm. unfold has_matched, trusted_peer_match_index in Hm.
      destruct (bool_decide_reflect (pp_match_index p <= last_index (rn_state n))); [|done].
      apply bool_decide_eq_true in Hm. eauto 10.
  - intros (j & [[-> ->]|(p & Hp & <- & Hle)] & Hij).
    + left. rewrite bool_decide_eq_true_2 by done. set_solver.
    + right. exists p. apply map_lookup_filter_Some. split; [done|]. simpl.
      unfold has_matched, trusted_peer_match_index. by rewrite !bool_decide_eq_true_2.
Qed.

Lemma ack_ids_holders n i :
  list_to_set (filter (fun p => i <= p.2) (matched_pairs n)).*1 = holders n i.
Proof.
  apply set_eq. intros id. rewrite elem_of_holders, elem_of_list_to_set, list_elem_of_fmap. split.
  - intros ([k j] & -> & [Hle Hin]%list_elem_of_filter). simpl in *. eauto.
  - intros (j & Hin & Hle). exists (id, j). rewrite list_elem_of_filter. eauto.
Qed.

Lemma elem_of_candidates n i :
  i ∈ commit_candidates n <->
  commit_of n < i <= last_index (rn_state n) /\ exists id, (id, i) ∈ matched_pairs n.
Proof.
  unfold commit_candidates. rewrite merge_sort_Permutation, elem_of_remove_dups, list_elem_of_filter.
  rewrite list_elem_of_fmap. split.
  - intros (? & [id j] & -> & Hin). simpl in *. eauto.
  - intros (? & id & Hin). split; [done|]. by exists (id, i).
Qed.

Lemma candidates_sorted n : StronglySorted (flip Z.le) (commit_candidates n).
Proof.
  unfold commit_candidates. apply StronglySorted_merge_sort; [|intros x y; unfold flip; lia].
  intros x y z. unfold flip. lia.
Qed.

Lemma committable_check n c :
  (bool_decide (term_at_index (rn_state n) c = Some (term_of n))
     && quorum_met (rt_membership (rn_runtime n))
          (list_to_set (filter (fun p => c <= p.2) (matched_pairs n)).*1)) = true <-> committable n c.
Proof. rewrite ack_ids_holders, andb_true_iff, bool_decide_eq_true. done. Qed.

(** The loop finds the greatest candidate. *)
Lemma first_committable_spec n l :
  StronglySorted (flip Z.le) l ->
  match first_committable n l with
  | Some i => i ∈ l /\ committable n i /\ forall j, j ∈ l -> committable n j -> j <= i
  | None => forall j, j ∈ l -> ~ committable n j
  end.
Proof.
  induction 1 as [|c l Hs IH Hall]; simpl; [by intros j ?%not_elem_of_nil|].
  pose proof (committable_check n c) as Hc.
  destruct (bool_decide _ && _).
  - split_and!; [by left|by apply Hc|]. intros j [->|Hj]%elem_of_cons _; [lia|].
    by apply (proj1 (Forall_forall _ _) Hall) in Hj.
  - destruct (first_committable n l) as [i|].
    + destruct IH as (H1 & H2 & H3). split_and!; [by right|done|].
      intros j [->|Hj]%elem_of_cons Hcj; [by apply Hc in Hcj|auto].
    + intros j [->|Hj]%elem_of_cons Hcj; [by apply Hc in Hcj|by eapply IH].
Qed.

(** The least matched index from [j] on is held by the holders of [j]. *)
Lemma matched_above n j :
  j <= last_index (rn_state n) ->
  exists c, j <= c <= last_index (rn_state n) /\ (exists id, (id, c) ∈ matched_pairs n) /\
    holders n c = holders n j.
Proof.
  intros Hj. set (l := filter (fun i => j <= i) (matched_pairs n).*2).
  assert (last_index (rn_state n) ∈ l) as Hin.
  { apply list_elem_of_filter. split; [done|]. apply list_elem_of_fmap.
    eexists (_, _). split; [|apply elem_of_matched_pairs; by left]. done. }
  destruct (list_least l) as (c & Hc & Hmin); [by intros Hnil; rewrite Hnil in Hin; set_solver|].
  exists c. apply list_elem_of_filter in Hc as Hc'. destruct Hc' as [Hjc Hcin].
  split; [split; [done|by apply Hmin]|]. split.
  - apply list_elem_of_fmap in Hcin as ([id c'] & -> & Hp). eauto.
  - apply set_eq. intros id. rewrite !elem_of_holders. split; intros (i & Hi & Hle); exists i; split; try done; [lia|].
    apply Hmin, list_elem_of_filter. split; [done|]. apply list_elem_of_fmap. by exists (id, i).
Qed.

Context `{L : !RaftCodecLaws}.

(** Above the snapshot, terms do not decrease along the log. *)
Lemma term_at_sorted st i j t :
  log_ok st -> 0 <= snapshot_index_of (ls_state st) < i -> i <= j <= last_index (ls_state st) ->
  term_at_index (ls_state st) i = Some t ->
  exists t', term_at_index (ls_state st) j = Some t' /\ t <= t'.
Proof using L.
  intros Hok Hi Hj Ht. destruct (log_shape st Hok) as (first & Hc & Hf & Hl & Hs).
  destruct (log_at_retained st i Hok) as [e He]; [lia|].
  destruct (log_at_retained st j Hok) as [e' He']; [lia|]. unfold term_at_index in *.
  rewrite bool_decide_eq_false_2, term_by_index_log in * by (done || lia).
  rewrite He in Ht. rewrite He'. simplify_eq/=. eexists; split; [done|].
  destruct (entry_at_elem _ _ _ He) as [[k Hk]%list_elem_of_lookup Hie].
  destruct (entry_at_elem _ _ _ He') as [[k' Hk']%list_elem_of_lookup Hje].
  pose proof (contiguous_lookup _ _ _ _ Hc Hk). pose proof (contiguous_lookup _ _ _ _ Hc Hk').
  eapply (valid_terms _ k k'); [apply Hok|lia|done|done].
Qed.

(** What the commit index moves to. *)
Lemma commit_target n :
  log_ok (rn_log n) -> snapshot_index_of (rn_state n) <= commit_of n -> last_term (rn_state n) <= term_of n ->
  match first_committable n (commit_candidates n) with
  | Some i => commit_of n < i <= last_index (rn_state n) /\ committable n i /\
      forall j, j <= last_index (rn_state n) -> committable n j -> j <= i
  | None => forall j, commit_of n < j <= last_index (rn_state n) -> ~ committable n j
  end.
Proof using L.
  intros Hok Hsnap Hterm. pose proof (first_committable_spec n _ (candidates_sorted n)) as Hspec.
  assert (forall j, commit_of n < j <= last_index (rn_state n) -> committable n j ->
    exists c, j <= c /\ c ∈ commit_candidates n /\ committable n c) as Hup.
  { intros j Hj [Ht Hq]. destruct (matched_above n j) as (c & Hc & Hid & Hh); [lia|].
    exists c. split; [lia|]. split; [apply elem_of_candidates; split; [lia|done]|]. split; [|by rewrite Hh].
    pose proof (snapshot_index_nonneg _ Hok). unfold rn_state in *.
    destruct (term_at_sorted (rn_log n) j c (term_of n) Hok) as (t & Htc & Hle); [lia|lia|done|].
    destruct (term_at_sorted (rn_log n) c (last_index (ls_state (rn_log n))) t Hok) as (t' & Htl & Hle'); [lia|lia|done|].
    rewrite term_at_last in Htl by done. rewrite Htc. f_equal. injection Htl as <-. lia. }
  destruct (first_committable n _) as [i|].
  - destruct Hspec as (H1 & H2 & H3). pose proof H1 as [Hr _]%elem_of_candidates.
    split_and!; [lia|lia|done|]. intros j Hj Hcj. destruct (decide (commit_of n < j)); [|lia].
    destruct (Hup j) as (c & ? & ? & ?); [lia|done|]. specialize (H3 c). intuition lia.
  - intros j Hj Hcj. destruct (Hup j Hj Hcj) as (c & _ & Hc & Hcc). by apply (Hspec c).
Qed.

(** *** Moving the commit index *)

Lemma commit_leader_ok clock index n :
  rt_role (rn_runtime n) = Leader -> commit_of n < index -> committable n index ->
  wlp (commit_leader_index clock index (term_of n) false None true)
    (fun r n' => forall b, r = RaftOk b -> b = true /\ index <= rn_commit_index n') n.
Proof.
  intros Hrole Hi [Ht Hq]. unfold commit_leader_index. apply wlp_bind, wlp_get. cbv zeta.
  rewrite (bool_decide_eq_false_2 (term_at_index _ _ <> _)) by (intros Hne; by apply Hne).
  unfold leads. rewrite (bool_decide_eq_true_2 (_ = Leader)), bool_decide_eq_true_2 by done. cbn [negb andb].
  rewrite bool_decide_eq_false_2 by lia. fold (holders n index). simpl default. rewrite Hq. cbn [negb].
  apply wlp_bindR. intros r1 n1 H1%(keeps_rel_log commit_same). destruct r1 as [[]|]; [|done].
  apply wlp_bind, wlp_modify, wlp_bindR. intros r2 n2 H2%keeps_commit_compact.
  destruct r2 as [[]|]; [|done]. apply wlp_ret. intros b [= <-]. split; [done|].
  unfold runtime_rel, commit_same, rn_commit_index in *. rewrite H2. simpl. lia.
Qed.

End commit.

(** C5: the commit rule.  The index a leader moves its commit index to is of
    the leader's own term, a quorum of the membership is known to hold it, it
    is above the old commit index and within the log, and it is the greatest
    such index; when nothing is committed there is none. *)
Theorem leader_commits_greatest_quorum_index
    `{LQ : LinkedQueueCrate} `{E : Env} `{D : RequestDigest} `{C : RaftCodec} `{L : !RaftCodecLaws}
    clock n r n' :
  log_ok (rn_log n) ->
  snapshot_index_of (rn_state n) <= rn_commit_index n ->
  last_term (rn_state n) <= rt_current_term (rn_runtime n) ->
  rt_role (rn_runtime n) = Leader ->
  advance_leader_commit_from_progress clock n = Done (RaftOk r) n' ->
  match r with
  | Some i => committable n i /\ rn_commit_index n < i <= last_index (rn_state n) /\
      (forall j, j <= last_index (rn_state n) -> committable n j -> j <= i) /\ i <= rn_commit_index n'
  | None => forall j, rn_commit_index n < j <= last_index (rn_state n) -> ~ committable n j
  end.
Proof.
  intros Hok Hsnap Hterm Hrole Hrun. pose proof (commit_target n Hok Hsnap Hterm) as Ht.
  unfold advance_leader_commit_from_progress in Hrun. revert r n' Hrun.
  enough (wlp (advance_leader_commit_from_progress clock) (fun r n' => forall x, r = RaftOk x ->
    match x with
    | Some i => committable n i /\ rn_commit_index n < i <= last_index (rn_state n) /\
        (forall j, j <= last_index (rn_state n) -> committable n j -> j <= i) /\ i <= rn_commit_index n'
    | None => forall j, rn_commit_index n < j <= last_index (rn_state n) -> ~ committable n j
    end) n) as Hw by (intros r n' Hrun; by apply (Hw _ _ Hrun)).
  unfold advance_leader_commit_from_progress. apply wlp_bind, wlp_get.
  rewrite bool_decide_eq_true_2 by done. cbn [negb].
  destruct (first_committable n _) as [i|]; [|by apply wlp_ret; intros ? [= <-]].
  destruct Ht as (H1 & H2 & H3). apply wlp_bindR.
  eapply wlp_mono; [by apply commit_leader_ok; [done|lia|done]|]. intros [b|] n' Hb; [|done].
  destruct (Hb b eq_refl) as [-> Hle]. apply wlp_ret. intros ? [= <-]. done.
Qed.

(** ** A peer's progress *)

(** What is recorded of a peer was recorded before, up to the next index to
    send, or is a new record with nothing acknowledged. *)
Definition matches_kept : relation (gmap string RaftPeerProgress) := fun m m' =>
  forall id p', m' !! id = Some p' ->
    pp_match_index p' = 0 \/ exists p, m !! id = Some p /\ pp_match_index p' = pp_match_index p.

#[local] Instance matches_kept_preorder : PreOrder matches_kept.
Proof.
  split; [intros m id p'; eauto|]. intros m1 m2 m3 H1 H2 id p3 Hp3.
  destruct (H2 _ _ Hp3) as [|(p2 & Hp2 & E2)]; [by left|].
  destruct (H1 _ _ Hp2) as [|(p1 & Hp1 & E1)]; [left; congruence|]. right. exists p1. split; congruence.
Qed.

Lemma matches_kept_sub m m' : m' ⊆ m -> matches_kept m m'.
Proof. intros Hs id p Hp. right. exists p. split; [|done]. by eapply lookup_weaken. Qed.

Lemma delete_all_sub (ids : list string) (m : gmap string RaftPeerProgress) :
  foldl (fun m id => delete id m) m ids ⊆ m.
Proof.
  revert m. induction ids as [|id ids IH]; intros m; simpl; [done|].
  etrans; [apply IH|apply delete_subseteq].
Qed.

Lemma or_insert_kept i ids m :
  matches_kept m (foldl (or_insert_progress (mkRaftPeerProgress i 0)) m ids).
Proof.
  revert m. induction ids as [|id ids IH]; intros m; simpl; [done|]. etrans; [|apply IH].
  intros k p. unfold or_insert_progress. destruct (m !! id) eqn:Hm; [by eauto|].
  intros [[<- <-]|[_ Hk]]%lookup_insert_Some; [by left|by eauto].
Qed.

(** Applying commands and stepping down acknowledge nothing. *)
Definition progress_kept : relation RaftRuntimeState := fun r r' =>
  matches_kept (rt_leader_progress r) (rt_leader_progress r').

#[local] Instance progress_kept_preorder : PreOrder progress_kept.
Proof. split; [by intros r; unfold progress_kept|]. intros ???. unfold progress_kept. intros. by etrans. Qed.

Lemma adopt_membership_progress config m i r : progress_kept r (adopt_membership config m i r).
Proof.
  unfold progress_kept, adopt_membership. cbv zeta.
  set (kept := foldl (fun m id => delete id m) _ _).
  assert (matches_kept (rt_leader_progress r) kept) as Hk.
  { apply matches_kept_sub. etrans; [apply delete_all_sub|]. apply map_filter_subseteq. }
  assert (matches_kept (rt_leader_progress r) ∅) by apply matches_kept_sub, map_empty_subseteq.
  repeat case_match; simpl; try done; (etrans; [exact Hk|apply or_insert_kept]).
Qed.

Lemma adopt_learners_progress l a i r : progress_kept r (adopt_staged_learners l a i r).
Proof.
  unfold progress_kept, adopt_staged_learners. cbv zeta. set (kept := filter _ (foldl _ _ _)).
  assert (matches_kept (rt_leader_progress r) kept) as Hk.
  { apply matches_kept_sub. etrans; [apply map_filter_subseteq|apply delete_all_sub]. }
  case_match; simpl; [|done]. etrans; [exact Hk|apply or_insert_kept].
Qed.

Section progress.
Context `{LQ : LinkedQueueCrate} `{E : Env} `{D : RequestDigest} `{C : RaftCodec}.

#[local] Abbreviation progress_of n := (rt_leader_progress (rn_runtime n)).

Lemma keeps_progress_step_down clock term leader_id :
  keeps (runtime_rel progress_kept) (step_down clock term leader_id).
Proof.
  refine (keeps_rel_step_down progress_kept _ adopt_membership_progress adopt_learners_progress
            clock term leader_id _); intros; unfold progress_kept; simpl; reflexivity.
Qed.

(** The acknowledgement that raises a match index: a success in the leader's
    term, for entries that were sent. *)
Definition acknowledges (term : Z) (sent : SentBatch) (response : option RaftRpcResponse) (index : Z)
    : Prop :=
  exists match_index,
    response = Some (AppendEntriesResponse term true match_index None None) /\
    index = Z.min match_index (sb_sent_match_index sent).

(** Everything recorded was recorded before or is acknowledged. *)
Definition answered (peer : RaftPeerConfig) (term : Z) (sent : SentBatch)
    (response : option RaftRpcResponse) (n n' : RaftNode) : Prop :=
  forall id p', progress_of n' !! id = Some p' ->
    pp_match_index p' = 0 \/
    (exists p, progress_of n !! id = Some p /\ pp_match_index p' = pp_match_index p) \/
    (id = peer_id peer /\ leads term n = true /\ acknowledges term sent response (pp_match_index p')).

Lemma kept_answered peer term sent response n n' :
  runtime_rel progress_kept n n' -> answered peer term sent response n n'.
Proof. intros H id p' Hp. destruct (H id p' Hp); auto. Qed.

Lemma append_success_answered peer term target sent mi ci ct n :
  wlp (on_append_success peer term target sent mi ci ct)
    (fun _ n' => answered peer term sent (Some (AppendEntriesResponse term true mi ci ct)) n n') n.
Proof.
  assert (answered peer term sent (Some (AppendEntriesResponse term true mi ci ct)) n n) as Hrefl.
  { apply kept_answered. by unfold runtime_rel. }
  unfold on_append_success. cbv zeta. destruct (_ || _) eqn:Hc; [by apply wlp_ret|].
  apply orb_false_iff in Hc as [Hci%bool_decide_eq_false%dec_stable Hct%bool_decide_eq_false%dec_stable].
  destruct (_ || _); [by apply wlp_ret|]. apply wlp_bind, wlp_get.
  destruct (negb (leads term n) || _) eqn:Hl; [by apply wlp_ret|].
  apply orb_false_iff in Hl as [Hl%negb_false_iff _].
  destruct (match progress_of n !! _ with Some _ => _ | None => _ end); [by apply wlp_ret|].
  apply wlp_bind, wlp_modify, wlp_ret. intros id p'. simpl.
  intros [[<- <-]|[_ Hid]]%lookup_insert_Some; [|by eauto]. simpl.
  destruct (progress_of n !! peer_id peer) as [p|] eqn:Hp; simpl.
  - destruct (Z.max_spec (pp_match_index p) (Z.min mi (sb_sent_match_index sent))) as [[_ ->]|[_ ->]]; [|by eauto].
    right. right. split_and!; [done|done|]. exists mi. by subst.
  - destruct (Z.max_spec 0 (Z.min mi (sb_sent_match_index sent))) as [[_ ->]|[_ ->]]; [|by eauto].
    right. right. split_and!; [done|done|]. exists mi. by subst.
Qed.

Lemma append_conflict_kept peer term pt sent mi ci ct n :
  wlp (on_append_conflict peer term pt sent mi ci ct) (fun _ n' => runtime_rel progress_kept n n') n.
Proof.
  assert (runtime_rel progress_kept n n) as Hrefl by by unfold runtime_rel.
  unfold on_append_conflict. apply wlp_bind, wlp_get. cbv zeta.
  destruct (negb (leads term n) || _); [by apply wlp_ret|].
  destruct (bool_decide _ && bool_decide _); [by apply wlp_ret|].
  destruct (invalid_append_conflict_hint_reason _ _ _ _ _ _); [by apply wlp_ret|].
  destruct (match progress_of n !! _ with Some _ => _ | None => _ end); [by apply wlp_ret|].
  apply wlp_bind, wlp_modify, wlp_ret. intros id p'. simpl.
  intros [[<- <-]|[_ Hid]]%lookup_insert_Some; [|by eauto]. simpl.
  destruct (progress_of n !! peer_id peer) as [p|] eqn:Hp; simpl; eauto.
Qed.

Lemma observe_kept clock peer t t' n :
  wlp (observe_higher_replication_peer_term clock peer t t') (fun _ n' => runtime_rel progress_kept n n') n.
Proof.
  intros r n' Hr. revert Hr. generalize n r n'.
  change (keeps (runtime_rel progress_kept) (observe_higher_replication_peer_term clock peer t t')).
  pose proof keeps_progress_step_down. unfold observe_higher_replication_peer_term.
  pose proof (runtime_rel_preorder progress_kept). keeps_steps.
Qed.

End progress.

(** C24: what the leader believes a peer to hold was acknowledged.  After an
    answer to AppendEntries is handled, every match index is the one recorded
    before, or 0, or the one the peer that answered has acknowledged in the
    leader's current term, and that never exceeds what was sent to it. *)
Theorem match_index_is_acknowledged
    `{LQ : LinkedQueueCrate} `{E : Env} `{D : RequestDigest} `{C : RaftCodec}
    clock peer term target sent response n outcome n' :
  on_append_response clock peer term target sent response n = Done outcome n' ->
  answered peer term sent response n n'.
Proof.
  revert outcome n'. enough (wlp (on_append_response clock peer term target sent response)
    (fun _ n' => answered peer term sent response n n') n) as Hw by exact Hw.
  assert (answered peer term sent response n n) as Hrefl by (apply kept_answered; by unfold runtime_rel).
  assert (forall t, wlp (observe_higher_replication_peer_term clock peer term t ;; mret contacted_only)
    (fun _ n' => answered peer term sent response n n') n) as Hobs.
  { intros t. apply wlp_bind. eapply wlp_mono; [apply observe_kept|]. intros ? m Hm. apply wlp_ret.
    by apply kept_answered. }
  unfold on_append_response.
  destruct response as [[| |pt success mi ci ct| | |pt message]|]; try by apply wlp_ret.
  - destruct (bool_decide_reflect (term < pt)); [done|].
    destruct (bool_decide_reflect (pt < term)); [by apply wlp_ret|]. assert (pt = term) as -> by lia.
    destruct success; [apply append_success_answered|].
    eapply wlp_mono; [apply append_conflict_kept|]. intros ? m Hm. by apply kept_answered.
  - case_bool_decide; [|by apply wlp_bind, wlp_ret, wlp_ret]. apply wlp_bind, wlp_bind.
    eapply wlp_mono; [apply observe_kept|]. intros ? m Hm. apply wlp_ret, wlp_ret. by apply kept_answered.
Qed.

(** ** Going back after a conflict *)

Lemma repaired_bounds s p ct ci :
  0 <= pp_match_index p < pp_next_index p -> pp_match_index p < u64_max ->
  (ct = None -> forall i, ci = Some i -> i < pp_next_index p) ->
  let floor := Z.max (retained_replication_floor_next_index s) 1 in
  let repaired := repaired_progress
    match snapshot_fallback_next_index_after_conflict s ct ci with
    | Some next => next
    | None => next_index_after_conflict s ct ci (pp_next_index p)
    end p in
  pp_match_index repaired = pp_match_index p /\
  pp_match_index p < pp_next_index repaired <=
    Z.max (pp_next_index p - 1) (Z.max floor (pp_match_index p + 1)).
Proof.
  intros Hp Hmax Hhint floor repaired. split; [done|]. assert (1 <= floor) as Hfloor by lia.
  set (next := match snapshot_fallback_next_index_after_conflict s ct ci with Some _ => _ | None => _ end)
    in repaired.
  assert (next <= Z.max (pp_next_index p - 1) floor) as Hn.
  { unfold next, snapshot_fallback_next_index_after_conflict. fold floor.
    assert (next_index_after_conflict s ct ci (pp_next_index p) <= Z.max (pp_next_index p - 1) floor) as Hc.
    { unfold next_index_after_conflict. fold floor. cbv zeta.
      assert ((bool_decide (ct = None) && match ci with
        | Some index => bool_decide (pp_next_index p <= index) | None => false end) = false) as ->.
      { destruct ct as [t|]; [done|]. destruct ci as [i|]; [|done]. specialize (Hhint eq_refl i eq_refl).
        rewrite (bool_decide_eq_false_2 (_ <= i)) by lia. by rewrite andb_false_r. }
      etrans; [apply Z.le_min_r|]. etrans; [apply Z.le_min_l|]. unfold saturating_sub64. lia. }
    unfold saturating_sub64. cbv zeta. repeat case_match; simplify_eq; try done; clear -Hfloor; lia. }
  unfold repaired, repaired_progress. simpl. unfold saturating_add64. lia.
Qed.

(** A rejected batch makes the leader go back.  When a peer rejects a batch
    with a usable hint inside what was sent, the next index to send moves back
    by at least one unless it is already at the snapshot's end or just after
    what the peer is known to hold; it never falls to what is acknowledged, and
    the acknowledged index is kept.  So the repair of a diverging log ends. *)
Theorem rejected_batch_backs_off
    `{LQ : LinkedQueueCrate} `{E : Env} `{D : RequestDigest} `{C : RaftCodec}
    clock peer term target sent mi ci ct n p outcome n' :
  leads term n = true -> accepts_replication_peer (rn_runtime n) peer = true ->
  rt_leader_progress (rn_runtime n) !! peer_id peer = Some p ->
  sb_next_index sent = pp_next_index p ->
  0 <= pp_match_index p < pp_next_index p -> pp_match_index p < u64_max ->
  ci <> None \/ ct <> None ->
  invalid_append_conflict_hint_reason ct ci mi (saturating_sub64 (pp_next_index p) 1) (pp_next_index p) term
    = None ->
  (ct = None -> forall i, ci = Some i -> i < pp_next_index p) ->
  on_append_response clock peer term target sent
    (Some (AppendEntriesResponse term false mi ci ct)) n = Done outcome n' ->
  exists p', rt_leader_progress (rn_runtime n') !! peer_id peer = Some p' /\
    pp_match_index p' = pp_match_index p /\
    pp_match_index p < pp_next_index p' <= Z.max (pp_next_index p - 1)
      (Z.max (Z.max (retained_replication_floor_next_index (rn_state n)) 1) (pp_match_index p + 1)).
Proof.
  intros Hl Ha Hp Hs Hwf Hmax Hor Hreason Hhint. unfold on_append_response.
  rewrite (bool_decide_eq_false_2 (term < term)) by lia. unfold on_append_conflict. cbv zeta.
  rewrite Hs. unfold mbind, M_bind. simpl. rewrite Hl, Ha. cbn [negb orb].
  destruct (bool_decide (ci = None) && bool_decide (ct = None)) eqn:Hb.
  { rewrite andb_true_iff, !bool_decide_eq_true in Hb. destruct Hb as [-> ->]. naive_solver. }
  rewrite Hreason, Hp, (bool_decide_eq_false_2 (_ <> _)) by (intros Hne; by apply Hne). simpl.
  intros [= <- <-]. eexists. simpl. rewrite lookup_insert_eq. split; [done|].
  by apply repaired_bounds.
Qed.
