(* ===== verification/RaftWitnesses.v ===== *)
(** * The theorems on the log, the disk and the leader at concrete inputs

    Each lemma applies a theorem to a small log, disk or node, built by running
    the modelled code on the codec of [RaftExamples]. *)

From S2P Require Import Prelude Text Monad Protocol Queue BrokerTypes BrokerState Broker BrokerOps.
From S2P Require Import BrokerSnapshot.
From S2P Require Import RaftQuorum RaftGrant RaftValidate RaftCache RaftFiles RaftFilesFacts RaftLog.
From S2P Require Import RaftHardState RaftLogFacts RaftLogInv RaftLogAppend RaftLogSnapshot RaftExamples.
From S2P Require Import RaftLogRuns RaftNode RaftApply RaftNodeOps RaftFollower RaftRestart RaftLeader.
From S2P Require Import RaftFlaws RaftLeaderFacts.
From stdpp Require Import options.

#[local] Existing Instance list_queue.
#[local] Existing Instance demo_env.
#[local] Existing Instance demo_value_codec.
#[local] Existing Instance demo_raft_codec.
#[local] Existing Instance demo_raft_codec_laws.
#[local] Existing Instance demo_digest.

(** ** Stores *)

(** A store that holds [entries], with the caches rebuilt from them. *)
Definition store_of (entries : list RaftLogEntry) (hs : RaftHardState) : RaftLogStore :=
  let '(by_index, first_by_term, last_by_term) := term_indexes_from_entries entries in
  let '(i, t) := log_end entries None in
  mkRaftLogStore true true 1000
    (mkRaftLogState i t hs 0 None ∅ ∅ entries (serialized_log_entry_lens entries)
       by_index first_by_term last_by_term None)
    (mkDisk (Some (serialized entries)) (Some hs) None None None None [] false).

Definition demo_entries : list RaftLogEntry := [noop_entry 1 1; noop_entry 2 1; noop_entry 3 2].
Definition demo_hs : RaftHardState := mkRaftHardState 2 (Some "a"%string) 1.
Definition demo_store : RaftLogStore := store_of demo_entries demo_hs.

Lemma demo_store_ok : log_ok demo_store.
Proof.
  constructor; [change (Forall typed_entry demo_entries)|by intros|by vm_compute..].
  unfold demo_entries. repeat (apply Forall_cons; split; [unfold typed_entry, u64_max; simpl; lia|]).
  by apply Forall_nil.
Qed.

Lemma demo_store_sound : sound demo_store.
Proof. constructor; [apply demo_store_ok|done|done]. Qed.

Lemma demo_store_durable : hs_durable demo_store.
Proof. constructor; [done|done|by right; auto|by left]. Qed.

(** ** The log file *)

Lemma torn_newline_corrupts_log_witness :
  let d := mkDisk (Some (serialized [noop_entry 1 1] ++ entry_json (noop_entry 2 1))) None None None None
             None [] false in
  read_log_entries d = Done (RaftOk [noop_entry 1 1; noop_entry 2 1]) d /\
  exists d', append_serialized_log_entries (serialized [noop_entry 3 1]) 1 true d = Done (RaftOk tt) d' /\
    exists err, read_log_entries d' = Done (RaftErr err) d'.
Proof.
  intros d. apply (torn_newline_corrupts_log d [noop_entry 1 1] (noop_entry 2 1) (noop_entry 3 1) true);
    by vm_compute.
Defined.


(** ** The hard state *)

(** A vote of term 3 is written, the machine restarts. *)
Lemma hard_state_survives_crash_witness :
  exists st', star hs_step demo_store st' /\ hs_durable st' /\
    hs_le (hard_state (ls_state demo_store)) (hard_state (ls_state st')) /\
    hs_voted_for (hard_state (ls_state st')) = Some "b"%string.
Proof.
  destruct (write_hard_state (mkRaftHardState 3 (Some "b"%string) 2) demo_store) as [r st1| |] eqn:H1;
    [|by vm_compute in H1..].
  destruct (open_log_store true true 1000 (set_d_faults [] (reboot (ls_disk st1)))) as [[st2|] d2| |] eqn:H2.
  all: pose proof H1 as H3; vm_compute in H3; injection H3 as _ Hst1;
    pose proof H2 as H4; rewrite <-Hst1 in H4; vm_compute in H4; try done.
  injection H4 as Hst2 _.
  assert (star hs_step demo_store st2) as Hstar.
  { eapply star_cons; [by eapply hs_write|]. eapply star_cons; [by eapply hs_restart|]. constructor. }
  exists st2. split; [done|].
  destruct (hard_state_survives_crash demo_store st2 demo_store_durable Hstar) as [Hd Hle].
  split; [done|]. split; [done|]. by rewrite <-Hst2.
Defined.

(** ** The log store *)


Lemma reopen_roundtrip_witness :
  exists st' d', open_log_store true true 1000 (ls_disk demo_store) = Done (RaftOk st') d' /\
    reopened demo_store 1000 st'.
Proof. apply (reopen_roundtrip demo_store true true 1000); [apply demo_store_sound|lia]. Defined.

(** An entry is appended, a snapshot of the first two is written, and they are
    compacted. *)
Definition demo_ops : list LogOp :=
  [OpAppendBatch 2 [Noop] now_ms;
   OpWriteSnapshot 2 1 (raft_value_payload (Simple [peer "a"; peer "b"; peer "c"]) [] [] VMissing) now_ms;
   OpCompact 2].

Fixpoint run_ops (ops : list LogOp) (st : RaftLogStore) : option RaftLogStore :=
  match ops with
  | [] => Some st
  | op :: ops => match run_op op st with Done _ st => run_ops ops st | _ => None end
  end.

Lemma run_ops_star ops st st' :
  (forall st1 op, op ∈ ops -> last_index (ls_state st1) <= 10 -> op_ok st1 op) ->
  Forall (fun k => forall st1, run_ops (take k ops) st = Some st1 -> last_index (ls_state st1) <= 10)
    (seq 0 (length ops)) ->
  run_ops ops st = Some st' -> star log_step st st'.
Proof.
  revert st. induction ops as [|op ops IH]; intros st Hok Hall; simpl.
  - intros [= <-]. constructor.
  - simpl in Hall. apply Forall_cons in Hall as [H0 Hall].
    destruct (run_op op st) as [[] st1| |] eqn:Hr; [|done..]. intros Hst'.
    eapply star_cons; [exists op; split; [|done]; apply Hok; [by left|by apply H0]|].
    apply IH; [|clear -Hall Hr|done].
    + intros st2 op2 Hin. apply Hok. by right.
    + rewrite <-fmap_S_seq, Forall_fmap in Hall. eapply Forall_impl; [exact Hall|].
      intros k Hk st2 H2. apply (Hk st2). simpl. by rewrite Hr.
Qed.


Lemma age_scan_incremental_witness :
  let entries := [mkRaftLogEntry 1 1 10 Noop; mkRaftLogEntry 2 1 20 Noop; mkRaftLogEntry 3 1 30 Noop] in
  let cache := Some (mkRetainedAgeCompactionCache 100 15 3 (Some 1)) in
  let r := compact_through_for_retained_age_cached_incremental entries cache 125 100 3 in
  r.1 = (compact_through_for_retained_age_cached_incremental entries None 125 100 3).1 /\
  r.1 = Some 2 /\ age_cache_ok r.2 entries.
Proof.
  intros entries cache r.
  destruct (age_scan_incremental 1 entries cache 125 100 3) as [H1 H2].
  - by vm_compute.
  - intros c i [= <-] [= <-]. split; [exists (mkRaftLogEntry 1 1 10 Noop); split; [by left|done]|].
    intros e He Hle. unfold entries in He. rewrite !elem_of_cons in He.
    destruct He as [->|[->|[->|He]]]; simpl in *; [split; simpl; lia|lia|lia|by apply not_elem_of_nil in He].
  - split; [done|]. split; [by vm_compute|done].
Defined.

(** ** The leader *)

(** "a" leads term 2 with two entries of it; "b" has acknowledged the first. *)
Definition demo_leader_store : RaftLogStore :=
  store_of [noop_entry 1 1; noop_entry 2 2; noop_entry 3 2] demo_hs.

Definition demo_leader (progress : gmap string RaftPeerProgress) : option RaftNode :=
  n ← started "a" empty_disk;
  Some (set_rn_log demo_leader_store (set_rn_runtime
    (set_rt_leader_progress progress (set_rt_commit_index 1 (set_rt_last_applied 1
      (set_rt_role Leader (set_rt_voted_for (Some "a"%string) (set_rt_term 2 (rn_runtime n))))))) n)).

Definition demo_progress : gmap string RaftPeerProgress :=
  <["b"%string := mkRaftPeerProgress 3 2]> (<["c"%string := mkRaftPeerProgress 2 0]> ∅).

Lemma demo_leader_ok : log_ok demo_leader_store.
Proof.
  constructor; [change (Forall typed_entry [noop_entry 1 1; noop_entry 2 2; noop_entry 3 2])
               |by intros|by vm_compute..].
  repeat (apply Forall_cons; split; [unfold typed_entry, u64_max; simpl; lia|]). by apply Forall_nil.
Qed.

Lemma leader_commits_greatest_quorum_index_witness :
  exists n n', demo_leader demo_progress = Some n /\
    advance_leader_commit_from_progress (clock_at 1) n = Done (RaftOk (Some 2)) n' /\
    committable n 2 /\ rn_commit_index n < 2 <= last_index (rn_state n) /\
    (forall j, j <= last_index (rn_state n) -> committable n j -> j <= 2) /\ 2 <= rn_commit_index n'.
Proof.
  destruct (demo_leader demo_progress) as [n|] eqn:Hn; [|by vm_compute in Hn].
  assert (rn_log n = demo_leader_store /\ rn_commit_index n = 1 /\
    rt_current_term (rn_runtime n) = 2 /\ rt_role (rn_runtime n) = Leader) as (Hlog & Hci & Ht & Hrole).
  { unfold demo_leader in Hn. destruct (started _ _) as [n0|]; [|done]. simpl in Hn. by injection Hn as <-. }
  destruct (advance_leader_commit_from_progress (clock_at 1) n) as [r n'| |] eqn:Hr.
  all: pose proof Hn as Hn'; vm_compute in Hn'; injection Hn' as Hn';
    pose proof Hr as Hr'; rewrite <-Hn' in Hr'; vm_compute in Hr'; try done.
  injection Hr' as Hr1 _. exists n, n'. split; [done|]. rewrite <-Hr1 in *. split; [done|].
  apply (leader_commits_greatest_quorum_index (clock_at 1) n (Some 2) n').
  - rewrite Hlog. apply demo_leader_ok.
  - unfold rn_state. rewrite Hlog, Hci. by vm_compute.
  - unfold rn_state. rewrite Hlog, Ht. by vm_compute.
  - done.
  - done.
Defined.

(** "c" acknowledges the second of the two entries it was sent. *)
Lemma match_index_is_acknowledged_witness :
  exists n n' outcome, demo_leader demo_progress = Some n /\
    on_append_response (clock_at 1) (peer "c") 2 None (mkSentBatch 2 3 2)
      (Some (AppendEntriesResponse 2 true 3 None None)) n = Done outcome n' /\
    rt_leader_progress (rn_runtime n') !! "c"%string = Some (mkRaftPeerProgress 4 3) /\
    answered (peer "c") 2 (mkSentBatch 2 3 2) (Some (AppendEntriesResponse 2 true 3 None None)) n n'.
Proof.
  destruct (demo_leader demo_progress) as [n|] eqn:Hn; [|by vm_compute in Hn].
  destruct (on_append_response (clock_at 1) (peer "c") 2 None (mkSentBatch 2 3 2)
    (Some (AppendEntriesResponse 2 true 3 None None)) n) as [r n'| |] eqn:Hr.
  all: pose proof Hn as Hn'; vm_compute in Hn'; injection Hn' as Hn';
    pose proof Hr as Hr'; rewrite <-Hn' in Hr'; vm_compute in Hr'; try done.
  injection Hr' as _ Hr'. exists n, n', r. split; [done|]. split; [done|].
  split; [rewrite <-Hr'; by vm_compute|].
  by apply (match_index_is_acknowledged (clock_at 1) (peer "c") 2 None _ _ n r n').
Defined.

(** "c" rejects a batch that starts at index 3: its log has another term. *)
Lemma rejected_batch_backs_off_witness :
  let progress := <["c"%string := mkRaftPeerProgress 3 0]> ∅ in
  exists n n' outcome, demo_leader progress = Some n /\
    on_append_response (clock_at 1) (peer "c") 2 None (mkSentBatch 3 3 1)
      (Some (AppendEntriesResponse 2 false 0 (Some 1) (Some 1))) n = Done outcome n' /\
    exists p', rt_leader_progress (rn_runtime n') !! "c"%string = Some p' /\
      pp_match_index p' = 0 /\ 0 < pp_next_index p' <= 2.
Proof.
  intros progress.
  destruct (demo_leader progress) as [n|] eqn:Hn; [|by vm_compute in Hn].
  destruct (on_append_response (clock_at 1) (peer "c") 2 None (mkSentBatch 3 3 1)
    (Some (AppendEntriesResponse 2 false 0 (Some 1) (Some 1))) n) as [r n'| |] eqn:Hr.
  all: pose proof Hn as Hn'; vm_compute in Hn'; injection Hn' as Hn';
    pose proof Hr as Hr'; rewrite <-Hn' in Hr'; vm_compute in Hr'; try done.
  exists n, n', r. split; [done|]. split; [done|].
  destruct (rejected_batch_backs_off (clock_at 1) (peer "c") 2 None (mkSentBatch 3 3 1) 0 (Some 1) (Some 1)
    n (mkRaftPeerProgress 3 0) r n') as (p' & Hp' & Hm & Hle).
  all: try (rewrite <-Hn'; by vm_compute); try done.
  - by left.
  - exists p'. split; [done|]. split; [done|]. rewrite <-Hn' in Hle. vm_compute in Hle. vm_compute. tauto.
Defined.
