(* ===== verification/RaftConfig.v ===== *)
(** * The configuration of a Raft node

    [src/src/broker_raft.rs]: [BrokerRaftConfig] (100-462) with its defaults and
    its validation, the limit on frames it checks (21972-22017) and the first
    lines of the opening of a node (5273-5286).  Durations are in nanoseconds. *)

From S2P Require Import Prelude Text Monad Protocol BrokerTypes RaftQuorum RaftGrant RaftValidate Server.
From stdpp Require Import options.

(** [Duration::from_secs] *)
Definition duration_from_secs (s : Z) : Z := s * 1000000000.

Definition DEFAULT_MAX_INBOUND_RPC_CONNECTIONS : Z := 1024.
Definition DEFAULT_INBOUND_RPC_IDLE_TIMEOUT_MS : Z := 30000.
Definition DEFAULT_APPEND_ENTRIES_MAX_ENTRIES : Z := 256.
Definition DEFAULT_APPEND_ENTRIES_MAX_BYTES : Z := 1024 * 1024.
Definition DEFAULT_APPEND_ENTRIES_MAX_INLINE_BATCHES : Z := 64.
Definition DEFAULT_TARGET_QUORUM_EXTRA_FANOUT : Z := 0.
Definition DEFAULT_INSTALL_SNAPSHOT_CHUNK_BYTES : Z := 1024 * 1024.
Definition DEFAULT_INSTALL_SNAPSHOT_MAX_STAGED_BYTES : Z := 128 * 1024 * 1024.
Definition DEFAULT_INSTALL_SNAPSHOT_MAX_STAGED_TRANSFERS : Z := 4.
Definition DEFAULT_INSTALL_SNAPSHOT_STALE_TRANSFER : Z := duration_from_secs (30 * 60).
Definition DEFAULT_PROXY_RETRY_BUDGET : Z := duration_from_secs 2.
Definition DEFAULT_CLIENT_BATCH_MAX_ENTRIES : Z := 32.
Definition DEFAULT_CLIENT_PIPELINE_MAX_BATCHES : Z := 4.
Definition DEFAULT_CLIENT_BATCH_MAX_PENDING : Z := 8192.
Definition DEFAULT_CLIENT_BATCH_MAX_DELAY : Z := duration_from_millis 1.
Definition DEFAULT_CLIENT_RESPONSE_CACHE_MAX_ENTRIES : Z := 8192.
Definition DEFAULT_TRAILING_LOG_ENTRIES : Z := 10000.

Record BrokerRaftConfig : Type := mkBrokerRaftConfig {
  brc_broker : BrokerConfig;
  brc_enabled : bool;
  brc_node_id : string;
  brc_bind_addr : option SocketAddr;
  brc_advertise_addr : option string;
  brc_data_dir : string;
  brc_data_dir_lock : bool;
  brc_heartbeat_interval : Z;
  brc_election_timeout_min : Z;
  brc_election_timeout_max : Z;
  brc_snapshot_interval : Z;
  brc_snapshot_max_log_entries : Z;
  brc_snapshot_max_log_bytes : Z;
  brc_snapshot_max_log_age : Z;
  brc_trailing_log_entries : Z;
  brc_append_entries_max_entries : Z;
  brc_append_entries_max_bytes : Z;
  brc_append_entries_max_inline_batches : Z;
  brc_target_quorum_extra_fanout : Z;
  brc_install_snapshot_chunk_bytes : Z;
  brc_install_snapshot_max_staged_bytes : Z;
  brc_install_snapshot_max_staged_transfers : Z;
  brc_install_snapshot_stale_transfer_after : Z;
  brc_client_batch_max_entries : Z;
  brc_client_pipeline_max_batches : Z;
  brc_client_batch_max_pending : Z;
  brc_client_batch_max_delay : Z;
  brc_client_response_cache_max_entries : Z;
  brc_proxy_retry_budget : Z;
  brc_sync_log : bool;
  brc_sync_commit : bool;
  brc_peer_token : option string;
  brc_max_inbound_rpc_connections : Z;
  brc_inbound_rpc_idle_timeout : Z;
  brc_peers : list RaftPeerConfig;
}.

(** [impl Default for BrokerRaftConfig] *)
Definition BrokerRaftConfig_default : BrokerRaftConfig := {|
  brc_broker := BrokerConfig_default;
  brc_enabled := false;
  brc_node_id := "node-1"%string;
  brc_bind_addr := Some (SocketV4 [127; 0; 0; 1] 7980);
  brc_advertise_addr := None;
  brc_data_dir := "./data/raft/node-1"%string;
  brc_data_dir_lock := true;
  brc_heartbeat_interval := duration_from_millis 100;
  brc_election_timeout_min := duration_from_millis 800;
  brc_election_timeout_max := duration_from_millis 1600;
  brc_snapshot_interval := duration_from_secs (30 * 60);
  brc_snapshot_max_log_entries := 100000;
  brc_snapshot_max_log_bytes := 64 * 1024 * 1024;
  brc_snapshot_max_log_age := duration_from_secs (30 * 60);
  brc_trailing_log_entries := DEFAULT_TRAILING_LOG_ENTRIES;
  brc_append_entries_max_entries := DEFAULT_APPEND_ENTRIES_MAX_ENTRIES;
  brc_append_entries_max_bytes := DEFAULT_APPEND_ENTRIES_MAX_BYTES;
  brc_append_entries_max_inline_batches := DEFAULT_APPEND_ENTRIES_MAX_INLINE_BATCHES;
  brc_target_quorum_extra_fanout := DEFAULT_TARGET_QUORUM_EXTRA_FANOUT;
  brc_install_snapshot_chunk_bytes := DEFAULT_INSTALL_SNAPSHOT_CHUNK_BYTES;
  brc_install_snapshot_max_staged_bytes := DEFAULT_INSTALL_SNAPSHOT_MAX_STAGED_BYTES;
  brc_install_snapshot_max_staged_transfers := DEFAULT_INSTALL_SNAPSHOT_MAX_STAGED_TRANSFERS;
  brc_install_snapshot_stale_transfer_after := DEFAULT_INSTALL_SNAPSHOT_STALE_TRANSFER;
  brc_client_batch_max_entries := DEFAULT_CLIENT_BATCH_MAX_ENTRIES;
  brc_client_pipeline_max_batches := DEFAULT_CLIENT_PIPELINE_MAX_BATCHES;
  brc_client_batch_max_pending := DEFAULT_CLIENT_BATCH_MAX_PENDING;
  brc_client_batch_max_delay := DEFAULT_CLIENT_BATCH_MAX_DELAY;
  brc_client_response_cache_max_entries := DEFAULT_CLIENT_RESPONSE_CACHE_MAX_ENTRIES;
  brc_proxy_retry_budget := DEFAULT_PROXY_RETRY_BUDGET;
  brc_sync_log := true;
  brc_sync_commit := true;
  brc_peer_token := None;
  brc_max_inbound_rpc_connections := DEFAULT_MAX_INBOUND_RPC_CONNECTIONS;
  brc_inbound_rpc_idle_timeout := duration_from_millis DEFAULT_INBOUND_RPC_IDLE_TIMEOUT_MS;
  brc_peers := [];
|}.

(** [BrokerRaftConfig::cluster_size], [BrokerRaftConfig::quorum_size] *)
Definition config_cluster_size (c : BrokerRaftConfig) : nat := length (brc_peers c).
Definition config_quorum_size (c : BrokerRaftConfig) : nat := quorum_for (config_cluster_size c).

(** [configured_local_raft_advertise_addr] *)
Definition configured_local_raft_advertise_addr (c : BrokerRaftConfig) : string :=
  match brc_advertise_addr c with
  | Some addr => addr
  | None => default EmptyString (socket_addr_display <$> brc_bind_addr c)
  end.

(** [should_warn_missing_peer_rpc_token] *)
Definition should_warn_missing_peer_rpc_token (c : BrokerRaftConfig) (allow_memory_peer_addrs : bool) : bool :=
  brc_enabled c && negb allow_memory_peer_addrs && bool_decide (brc_peer_token c = None)
  && bool_decide (1 < length (brc_peers c))%nat.

(** The length of the smallest message of a kind, for a token, a node id and an
    address: [serde_json] writes it, which is not part of the sources. *)
Class RaftFrameSizes : Type := {
  minimum_frame_len : string -> option string -> string -> string -> RaftResult Z;
}.

(** The kinds of messages, in the order they are looked at. *)
Definition frame_kinds : list string :=
  ["preVote"; "requestVote"; "appendEntries"; "installSnapshot"; "proxyRequest"; "preVoteResponse";
   "requestVoteResponse"; "appendEntriesResponse"; "installSnapshotResponse"; "proxyResponse";
   "errorResponse"]%string.

(** The observations, from the largest so far. *)
Fixpoint observe_frames `{RaftFrameSizes} (peer_token : option string) (node_id node_addr : string)
    (largest : Z * string) (kinds : list string) : RaftResult (Z * string) :=
  match kinds with
  | [] => RaftOk largest
  | kind :: kinds =>
      bytes ← minimum_frame_len kind peer_token node_id node_addr;
      observe_frames peer_token node_id node_addr
        (if bool_decide (largest.1 < bytes) then (bytes, kind) else largest) kinds
  end.

(** [raft_rpc_minimum_required_frame_bytes] *)
Definition raft_rpc_minimum_required_frame_bytes `{RaftFrameSizes} (peer_token : option string)
    (node_id node_addr : string) : RaftResult (Z * string) :=
  observe_frames peer_token node_id node_addr (0, "unknown"%string) frame_kinds.

(** [return Err(BrokerRaftError::InvalidConfig(message))] unless the condition
    holds. *)
Definition require (condition : bool) (message : string) : RaftResult unit :=
  if condition then RaftOk tt else RaftErr (EInvalidConfig message).

(** [parse_raft_rpc_max_frame_bytes_env] *)
Definition parse_raft_rpc_max_frame_bytes_env (env : Environment) : RaftResult (option Z) :=
  match env "LMX_RAFT_MAX_FRAME_BYTES" with
  | None => RaftOk None
  | Some value =>
      let trimmed := trim value in
      if bool_decide (trimmed = EmptyString) then RaftOk None
      else
        match parse_unsigned u64_max trimmed with
        | None =>
            RaftErr (EInvalidConfig
              ("LMX_RAFT_MAX_FRAME_BYTES must be a positive unsigned integer; got `" +:+ value +:+ "`")%string)
        | Some frame_bytes =>
            if bool_decide (frame_bytes = 0)
            then RaftErr (EInvalidConfig "LMX_RAFT_MAX_FRAME_BYTES must be greater than 0")
            else RaftOk (Some frame_bytes)
        end
  end.

Section validation.
Context `{FS : RaftFrameSizes}.

(** [validate_raft_rpc_max_frame_bytes_env] *)
Definition validate_raft_rpc_max_frame_bytes_env (env : Environment) (c : BrokerRaftConfig)
    (node_id : string) : RaftResult unit :=
  frame_bytes ← parse_raft_rpc_max_frame_bytes_env env;
  match frame_bytes with
  | None => RaftOk tt
  | Some max_frame_bytes =>
      let local_addr := configured_local_raft_advertise_addr c in
      '(required_bytes, required_kind) ←
        raft_rpc_minimum_required_frame_bytes (brc_peer_token c) node_id local_addr;
      require (bool_decide (required_bytes <= max_frame_bytes))
        ("LMX_RAFT_MAX_FRAME_BYTES=" +:+ pretty max_frame_bytes +:+ " is too small for the minimum "
           +:+ required_kind +:+ " Raft RPC frame for node `" +:+ node_id +:+ "` at `" +:+ local_addr
           +:+ "` (" +:+ pretty required_bytes +:+ " bytes); increase LMX_RAFT_MAX_FRAME_BYTES or shorten raft.node_id, raft.advertise_addr, or raft.peer_token")
  end.

(** The checks of the local node against the peers. *)
Definition validate_local_peer (c : BrokerRaftConfig) (node_id : string) (peers : list RaftPeerConfig)
    : RaftResult unit :=
  let local_addr := configured_local_raft_advertise_addr c in
  match list_find (fun p => peer_id p = node_id) peers with
  | Some (_, local_peer) =>
      require (bool_decide (peer_addr local_peer = local_addr))
        ("raft local voter `" +:+ node_id +:+ "` advertises `" +:+ local_addr
           +:+ "` but raft.peers lists `" +:+ peer_addr local_peer
           +:+ "`; set raft.advertise_addr to the peer address or update raft.peers")
  | None =>
      match list_find (fun p => raft_client_id_prefix (peer_id p) = raft_client_id_prefix node_id) peers with
      | Some (_, peer) =>
          RaftErr (EInvalidConfig
            ("raft.node_id `" +:+ node_id +:+ "` derives the same client-id prefix as raft peer `"
               +:+ peer_id peer +:+ "`; rename one node id")%string)
      | None => RaftOk tt
      end
  end.

(** The checks of the timers and the limits. *)
Definition validate_timing_and_limits (c : BrokerRaftConfig) : RaftResult unit :=
  let positive (value : Z) (name : string) :=
    require (negb (bool_decide (value = 0))) ("raft." +:+ name +:+ " must be greater than 0") in
  require (bool_decide (brc_election_timeout_min c < brc_election_timeout_max c))
    "raft.election_timeout_min_ms must be less than raft.election_timeout_max_ms" ;;
  positive (brc_heartbeat_interval c) "heartbeat_interval_ms" ;;
  require (bool_decide (brc_heartbeat_interval c < brc_election_timeout_min c))
    "raft.heartbeat_interval_ms must be less than raft.election_timeout_min_ms" ;;
  positive (brc_snapshot_interval c) "snapshot_interval_ms" ;;
  positive (brc_append_entries_max_entries c) "append_entries_max_entries" ;;
  positive (brc_append_entries_max_bytes c) "append_entries_max_bytes" ;;
  positive (brc_append_entries_max_inline_batches c) "append_entries_max_inline_batches" ;;
  positive (brc_install_snapshot_chunk_bytes c) "install_snapshot_chunk_bytes" ;;
  positive (brc_install_snapshot_max_staged_bytes c) "install_snapshot_max_staged_bytes" ;;
  positive (brc_install_snapshot_max_staged_transfers c) "install_snapshot_max_staged_transfers" ;;
  positive (brc_install_snapshot_stale_transfer_after c) "install_snapshot_stale_transfer_ms" ;;
  positive (brc_client_batch_max_entries c) "client_batch_max_entries" ;;
  positive (brc_client_pipeline_max_batches c) "client_pipeline_max_batches" ;;
  positive (brc_client_batch_max_pending c) "client_batch_max_pending" ;;
  positive (brc_client_response_cache_max_entries c) "client_response_cache_max_entries" ;;
  positive (brc_proxy_retry_budget c) "proxy_retry_budget_ms" ;;
  positive (brc_max_inbound_rpc_connections c) "max_inbound_rpc_connections" ;;
  positive (brc_inbound_rpc_idle_timeout c) "inbound_rpc_idle_timeout_ms".

(** The checks of [node_id], the addresses and the token. *)
Definition validate_identity (c : BrokerRaftConfig) (node_id : string) (allow_memory_peer_addrs : bool)
    : RaftResult unit :=
  require (negb (bool_decide (node_id = EmptyString)))
    "raft.node_id cannot be empty when Raft is enabled" ;;
  match validate_raft_node_id node_id with
  | Some message =>
      RaftErr (EInvalidConfig ("raft.node_id `" +:+ brc_node_id c +:+ "` is invalid: " +:+ message)%string)
  | None => RaftOk tt
  end ;;
  require (negb (bool_decide (brc_bind_addr c = None))) "raft.bind_addr is required when Raft is enabled" ;;
  match brc_advertise_addr c with
  | None => RaftOk tt
  | Some addr =>
      require (negb (bool_decide (trim addr = EmptyString)))
        "raft.advertise_addr must not be empty or whitespace-only when configured" ;;
      match validate_raft_peer_addr_for_transport addr allow_memory_peer_addrs with
      | Some message =>
          RaftErr (EInvalidConfig ("raft.advertise_addr has invalid addr `" +:+ addr +:+ "`: " +:+ message)%string)
      | None => RaftOk tt
      end
  end ;;
  match brc_peer_token c with
  | Some token =>
      require (negb (bool_decide (trim token = EmptyString)))
        "raft.peer_token must not be empty or whitespace-only when configured"
  | None => RaftOk tt
  end.

(** [BrokerRaftConfig::validate_for_peer_transport] *)
Definition validate_for_peer_transport (env : Environment) (c : BrokerRaftConfig)
    (allow_memory_peer_addrs : bool) : RaftResult unit :=
  if negb (brc_enabled c) then RaftOk tt
  else
    let node_id := trim (brc_node_id c) in
    validate_identity c node_id allow_memory_peer_addrs ;;
    peers ← validate_membership_peers_for_transport (brc_peers c) allow_memory_peer_addrs;
    validate_local_peer c node_id peers ;;
    require (bool_decide (length peers = length (brc_peers c)))
      "raft.peers must not contain duplicate peer IDs" ;;
    validate_timing_and_limits c ;;
    validate_raft_rpc_max_frame_bytes_env env c node_id.

(** [BrokerRaftConfig::validate] *)
Definition validate_config (env : Environment) (c : BrokerRaftConfig) : RaftResult unit :=
  validate_for_peer_transport env c false.

End validation.
