(* ===== verification/RaftTransfer.v ===== *)
(** * The staging of a snapshot a follower receives

    [src/src/broker_raft.rs]: InstallSnapshot on the receiving side.  The leader
    sends the JSON of a snapshot in chunks; a follower appends them to a file
    of its data directory, verifies the checksum of the complete file and
    installs it (13314-13829, 19373-20083, 23653-23763, 25096-25127,
    25810-25897, 4369-4407).

    The state is a node beside its unfinished transfers and the part files of
    its data directory, named relative to it.  Every call that reaches the file
    system takes the next fault of the script of the node's disk, as in
    [RaftFiles], so a machine that stops stops for both.  A handler runs as one
    step and reads the clock once; telemetry and log lines are left out. *)

From S2P Require Import Prelude Text Monad Protocol Queue BrokerTypes BrokerState Broker BrokerOps.
From S2P Require Import BrokerSnapshot.
From S2P Require Import RaftQuorum RaftGrant RaftValidate RaftCache RaftFiles RaftLog RaftNode.
From S2P Require Import RaftApply RaftNodeOps RaftFollower RaftConfig.
From stdpp Require Import options.
Import Membership.

Definition SNAPSHOT_PART_FILE_PREFIX : string := "raft-install-snapshot-".
Definition SNAPSHOT_PART_FILE_SUFFIX : string := ".json.part".

(** What the transfer uses of [sha2], [base64] and [serde_json], which are not
    part of the sources: the digest, the standard alphabet with padding (the
    decoder returns the text of its error on the left), the parser and the
    serializer of a payload. *)
Class PayloadCodec `{SC : SnapshotCodec} : Type := {
  sha256_digest : bytes -> bytes;
  base64_encode : bytes -> string;
  base64_decode : string -> string + bytes;
  payload_of_slice : bytes -> RaftResult Value;
  payload_to_vec : Value -> bytes;
}.

(** Their documented behaviour: a digest has 32 bytes; what is encoded decodes
    to the same bytes, and has four characters for each three bytes begun. *)
Class PayloadCodecLaws `{PC : PayloadCodec} : Prop := {
  sha256_digest_len b : length (sha256_digest b) = 32%nat;
  sha256_digest_bytes b : Forall (fun x => 0 <= x < 256) (sha256_digest b);
  base64_roundtrip b : Forall (fun x => 0 <= x < 256) b -> base64_decode (base64_encode b) = inr b;
  base64_encode_len b : String.length (base64_encode b) = (4 * ((length b + 2) / 3))%nat;
}.

(** ** Names and requests *)

Definition hex_char (digit : Z) : Ascii.ascii :=
  Ascii.ascii_of_N (Z.to_N (if bool_decide (digit < 10) then 48 + digit else 87 + digit)).

(** [hex_encode] *)
Fixpoint hex_encode (b : bytes) : string :=
  match b with
  | [] => EmptyString
  | byte :: b =>
      String (hex_char (Z.shiftr byte 4)) (String (hex_char (Z.land byte 15)) (hex_encode b))
  end.

Definition is_ascii_hexdigit (b : Z) : bool :=
  bool_decide (48 <= b <= 57) || bool_decide (65 <= b <= 70) || bool_decide (97 <= b <= 102).

(** [sha256_hex_format_is_valid] *)
Definition sha256_hex_format_is_valid (checksum : string) : bool :=
  bool_decide (String.length checksum = 64%nat) && forallb is_ascii_hexdigit (bytes_of checksum).

(** [malformed_install_snapshot_request_reason] *)
Definition malformed_install_snapshot_request_reason (term last_included_index last_included_term : Z)
    (payload_sha256 : option string) : option string :=
  if bool_decide (term = 0) then Some "term must be >= 1"%string
  else if bool_decide (last_included_index = 0) then Some "lastIncludedIndex must be >= 1"%string
  else if bool_decide (last_included_term = 0) then Some "lastIncludedTerm must be >= 1"%string
  else if bool_decide (term < last_included_term)
  then Some "lastIncludedTerm cannot exceed request term"%string
  else
    match payload_sha256 with
    | None => Some "payload checksum is required"%string
    | Some checksum =>
        if sha256_hex_format_is_valid checksum then None
        else Some "payload checksum must be 64 hex characters"%string
    end.

(** [snapshot_transfer_key] *)
Definition snapshot_transfer_key (leader_id : string) (last_included_index last_included_term : Z)
    (payload_sha256 : string) : string :=
  (leader_id +:+ ":" +:+ pretty last_included_index +:+ ":" +:+ pretty last_included_term
     +:+ ":" +:+ payload_sha256)%string.

(** [str::ends_with] *)
Definition ends_with (suffix s : string) : bool :=
  bool_decide (reverse (take (length (bytes_of suffix)) (reverse (bytes_of s))) = bytes_of suffix).

(** [is_snapshot_part_file_name] *)
Definition is_snapshot_part_file_name (name : string) : bool :=
  match strip_prefix SNAPSHOT_PART_FILE_PREFIX name with
  | Some _ => ends_with SNAPSHOT_PART_FILE_SUFFIX name
  | None => false
  end.

(** [orphaned_snapshot_part_sweep_interval_ms] *)
Definition orphaned_snapshot_part_sweep_interval_ms (stale_after_ms : Z) : Z :=
  Z.max (stale_after_ms / 2) 1000.

Record PendingSnapshotTransfer : Type := mkPendingSnapshotTransfer {
  pt_leader_id : string;
  pt_last_included_index : Z;
  pt_last_included_term : Z;
  pt_payload_sha256 : string;
  pt_path : string;
  pt_bytes_written : Z;
  pt_updated_at_ms : Z;
}.

Definition set_pt_updated_at_ms (now_ms : Z) (p : PendingSnapshotTransfer) : PendingSnapshotTransfer :=
  mkPendingSnapshotTransfer (pt_leader_id p) (pt_last_included_index p) (pt_last_included_term p)
    (pt_payload_sha256 p) (pt_path p) (pt_bytes_written p) now_ms.

Definition add_pt_bytes_written (len now_ms : Z) (p : PendingSnapshotTransfer)
    : PendingSnapshotTransfer :=
  mkPendingSnapshotTransfer (pt_leader_id p) (pt_last_included_index p) (pt_last_included_term p)
    (pt_payload_sha256 p) (pt_path p) (saturating_add64 (pt_bytes_written p) len) now_ms.

(** What a name of the data directory can stand for; a file's time of
    modification is [None] before the epoch. *)
Inductive PartEntry : Type :=
| PartFile (content : bytes) (modified_ms : option Z)
| PartSymlink
| PartDirectory.

Record InstallSnapshotFromPeer : Type := mkInstallSnapshotFromPeer {
  is_term : Z;
  is_leader_id : string;
  is_leader_addr : string;
  is_last_included_index : Z;
  is_last_included_term : Z;
  is_payload_sha256 : option string;
  is_offset : Z;
  is_done : bool;
  is_data : string;
}.

Record SnapshotChunkFromLeader : Type := mkSnapshotChunkFromLeader {
  sk_leader_id : string;
  sk_last_included_index : Z;
  sk_last_included_term : Z;
  sk_payload_sha256 : string;
  sk_offset : Z;
  sk_done : bool;
  sk_chunk : bytes;
}.

Section transfer.
Context `{LQ : LinkedQueueCrate} `{E : Env} `{D : RequestDigest} `{C : RaftCodec} `{PC : !PayloadCodec}.

(** ** The state *)

Record TransferNode : Type := mkTransferNode {
  tn_node : RaftNode;
  tn_config : BrokerRaftConfig;
  tn_transfers : gmap string PendingSnapshotTransfer;
  tn_parts : gmap string PartEntry;
  tn_last_orphan_snapshot_part_sweep_ms : Z;
}.

Definition set_tn_node (x : RaftNode) (n : TransferNode) : TransferNode :=
  mkTransferNode x (tn_config n) (tn_transfers n) (tn_parts n) (tn_last_orphan_snapshot_part_sweep_ms n).
Definition set_tn_transfers (x : gmap string PendingSnapshotTransfer) (n : TransferNode) : TransferNode :=
  mkTransferNode (tn_node n) (tn_config n) x (tn_parts n) (tn_last_orphan_snapshot_part_sweep_ms n).
Definition set_tn_parts (x : gmap string PartEntry) (n : TransferNode) : TransferNode :=
  mkTransferNode (tn_node n) (tn_config n) (tn_transfers n) x (tn_last_orphan_snapshot_part_sweep_ms n).
Definition set_tn_last_sweep (x : Z) (n : TransferNode) : TransferNode :=
  mkTransferNode (tn_node n) (tn_config n) (tn_transfers n) (tn_parts n) x.

Definition tn_disk (n : TransferNode) : Disk := ls_disk (rn_log (tn_node n)).
Definition tn_term (n : TransferNode) : Z := rt_current_term (rn_runtime (tn_node n)).

Definition set_tn_disk (d : Disk) (n : TransferNode) : TransferNode :=
  set_tn_node (set_rn_log (set_ls_disk d (rn_log (tn_node n))) (tn_node n)) n.

(** Run an operation of the node. *)
Definition on_node {A} (m : M RaftNode A) : M TransferNode A := fun n =>
  match m (tn_node n) with
  | Done a x => Done a (set_tn_node x n)
  | Panicked msg => Panicked msg
  | OutOfFuel => OutOfFuel
  end.

Definition modify_transfers
    (f : gmap string PendingSnapshotTransfer -> gmap string PendingSnapshotTransfer) : M TransferNode unit :=
  modify (fun n => set_tn_transfers (f (tn_transfers n)) n).

(** ** The part files *)

(** One call on the part files, with the next fault of the disk's script:
    [effect k] is its effect cut after [k] units. *)
Definition part_call (effect : nat -> gmap string PartEntry -> gmap string PartEntry)
    (effect_all : gmap string PartEntry -> gmap string PartEntry) : M TransferNode (RaftResult unit) :=
  fun n =>
  let d := tn_disk n in
  if d_frozen d then Done (RaftErr (EIo "the process has stopped")) n
  else
    match d_faults d with
    | [] => Done (RaftOk tt) (set_tn_parts (effect_all (tn_parts n)) n)
    | fault :: faults =>
        let d := set_d_faults faults d in
        match fault with
        | NoFault => Done (RaftOk tt) (set_tn_parts (effect_all (tn_parts n)) (set_tn_disk d n))
        | Fails k message =>
            Done (RaftErr (EIo message)) (set_tn_parts (effect k (tn_parts n)) (set_tn_disk d n))
        | Crashes k =>
            Done (RaftErr (EIo "the process has stopped"))
              (set_tn_parts (effect k (tn_parts n)) (set_tn_disk (freeze d) n))
        end
    end.

(** A call that changes no content. *)
Definition part_gate : M TransferNode (RaftResult unit) := part_call (fun _ p => p) (fun p => p).

(** A call that happens or does not. *)
Definition part_atomic (f : gmap string PartEntry -> gmap string PartEntry)
    : M TransferNode (RaftResult unit) :=
  part_call (fun k p => if bool_decide (k = 0%nat) then p else f p) f.

(** [fs::remove_file]; [false] when there is no such file. *)
Definition remove_file (path : string) : M TransferNode (RaftResult bool) :=
  n ← get;
  match tn_parts n !! path with
  | None => okR false
  | Some PartDirectory => errR (EIo "Is a directory (os error 21)")
  | Some _ => part_atomic (delete path) ;;? okR true
  end.

(** [File::write_all] at the end of a part file. *)
Definition append_part (path : string) (body : bytes) (now_ms : Z) (p : gmap string PartEntry)
    : gmap string PartEntry :=
  match p !! path with
  | Some (PartFile content _) => <[path := PartFile (content ++ body) (Some now_ms)]> p
  | _ => p
  end.

Definition write_part (path : string) (body : bytes) (now_ms : Z) : M TransferNode (RaftResult unit) :=
  part_call (fun k => append_part path (take k body) now_ms) (append_part path body now_ms).

(** [open_snapshot_part_file] with the check of [snapshot_part_file_metadata]:
    the content of the file opened. *)
Definition open_snapshot_part_file (path : string) (create : bool) (now_ms : Z)
    : M TransferNode (RaftResult bytes) :=
  n ← get;
  match tn_parts n !! path with
  | Some PartSymlink =>
      errR (EInvalidLog ("raft InstallSnapshot part path " +:+ path
        +:+ " is a symlink; remove it manually after confirming no Raft writer is active")%string)
  | Some PartDirectory =>
      errR (EInvalidLog ("raft InstallSnapshot part path " +:+ path +:+ " is not a regular file")%string)
  | Some (PartFile content _) => part_gate ;;? okR content
  | None =>
      if create then part_atomic (insert path (PartFile [] (Some now_ms))) ;;? okR []
      else errR (EIo "No such file or directory (os error 2)")
  end.

(** [read_snapshot_part_file] *)
Definition read_snapshot_part_file (path : string) : M TransferNode (RaftResult bytes) :=
  content ←? open_snapshot_part_file path false 0;
  part_gate ;;?
  okR content.

(** [sha256_hex] *)
Definition sha256_hex (b : bytes) : string := hex_encode (sha256_digest b).

(** [read_verified_snapshot_payload_file] *)
Definition read_verified_snapshot_payload_file (index : Z) (path : string) (expected : option string)
    : M TransferNode (RaftResult Value) :=
  match expected with
  | None => errR (ESnapshotChecksumMissing index)
  | Some expected =>
      b ←? read_snapshot_part_file path;
      let actual := sha256_hex b in
      if eq_ignore_ascii_case actual expected then mret (payload_of_slice b)
      else errR (ESnapshotChecksumMismatch index expected actual)
  end.

(** [staged_snapshot_chunk_matches] *)
Definition staged_snapshot_chunk_matches (path : string) (offset : Z) (chunk : bytes)
    : M TransferNode (RaftResult bool) :=
  let end_ := offset + Z.of_nat (length chunk) in
  if bool_decide (u64_max < end_) then errR (ERpc "snapshot duplicate chunk range overflowed")
  else
    content ←? open_snapshot_part_file path false 0;
    part_gate ;;?
    if bool_decide (Z.of_nat (length content) < end_) then
      errR (ERpc ("snapshot transfer file length mismatch while verifying duplicate chunk; expected at least "
        +:+ pretty end_ +:+ " bytes actual=" +:+ pretty (length content))%string)
    else
      part_gate ;;?
      part_gate ;;?
      okR (bool_decide (take (length chunk) (drop (Z.to_nat offset) content) = chunk)).

(** [remove_snapshot_transfer_file], and [remove_consumed_snapshot_transfer_file],
    whose result nobody uses: an error is only recorded. *)
Definition remove_snapshot_transfer_file (path : string) : M TransferNode bool :=
  res ← remove_file path;
  match res with
  | RaftOk true => part_gate ;; mret true
  | RaftOk false | RaftErr _ => mret false
  end.

(** [snapshot_transfer_path] *)
Definition snapshot_transfer_path (key : string) : string :=
  (SNAPSHOT_PART_FILE_PREFIX +:+ sha256_hex (bytes_of key) +:+ SNAPSHOT_PART_FILE_SUFFIX)%string.

(** ** Dropping transfers *)

(** Remove a transfer and its file, when there is one. *)
Definition drop_transfer (key : string) : M TransferNode unit :=
  n ← get;
  match tn_transfers n !! key with
  | None => mret tt
  | Some pending =>
      modify_transfers (delete key) ;;
      remove_snapshot_transfer_file (pt_path pending) ;;
      mret tt
  end.

(** [discard_snapshot_transfer] *)
Definition discard_snapshot_transfer (leader_id : string) (last_included_index last_included_term : Z)
    (payload_sha256 : string) : M TransferNode unit :=
  drop_transfer (snapshot_transfer_key leader_id last_included_index last_included_term payload_sha256).

(** Remove the files of a list of paths; how many were removed. *)
Definition remove_transfer_files (paths : list string) : M TransferNode nat :=
  for_fold paths 0%nat (fun removed path =>
    gone ← remove_snapshot_transfer_file path;
    mret (if gone : bool then S removed else removed)).

Definition transfer_is (stale : PendingSnapshotTransfer -> bool)
    (transfers : gmap string PendingSnapshotTransfer) (key : string) : bool :=
  match transfers !! key with Some pending => stale pending | None => false end.

(** Drop the transfers that satisfy a predicate, in the order of their keys,
    then remove their files. *)
Definition drop_transfers (stale : PendingSnapshotTransfer -> bool) : M TransferNode nat :=
  n ← get;
  let transfers := tn_transfers n in
  let stale_keys := filter (transfer_is stale transfers) (sort_keys (map_to_list transfers).*1) in
  modify_transfers (fun m => foldl (fun m key => delete key m) m stale_keys) ;;
  remove_transfer_files (omap (fun key => pt_path <$> transfers !! key) stale_keys).

(** [discard_snapshot_transfers_from_other_leaders] *)
Definition discard_snapshot_transfers_from_other_leaders (leader_id : string) : M TransferNode nat :=
  drop_transfers (fun pending => negb (bool_decide (pt_leader_id pending = leader_id))).

(** [discard_superseded_snapshot_transfers_from_leader] *)
Definition discard_superseded_snapshot_transfers_from_leader (leader_id : string)
    (last_included_index last_included_term : Z) (payload_sha256 : string) : M TransferNode nat :=
  let expected_checksum := to_ascii_lowercase payload_sha256 in
  drop_transfers (fun pending =>
    let same_index := bool_decide (pt_last_included_index pending = last_included_index) in
    let same_term := bool_decide (pt_last_included_term pending = last_included_term) in
    let same_checksum := eq_ignore_ascii_case (pt_payload_sha256 pending) expected_checksum in
    if negb (bool_decide (pt_leader_id pending = leader_id)) then false
    else if same_index && same_term && same_checksum then false
    else bool_decide (pt_last_included_index pending < last_included_index)
         || (same_index && (negb same_term || negb same_checksum))).

(** [should_sweep_orphaned_snapshot_part_files] *)
Definition should_sweep_orphaned_snapshot_part_files (now_ms stale_after_ms : Z) : M TransferNode bool :=
  n ← get;
  let last := tn_last_orphan_snapshot_part_sweep_ms n in
  if bool_decide (last = 0)
     || bool_decide (orphaned_snapshot_part_sweep_interval_ms stale_after_ms
                     <= saturating_sub64 now_ms last)
  then modify (set_tn_last_sweep now_ms) ;; mret true
  else mret false.

(** The loop of [cleanup_orphaned_stale_snapshot_part_files] on one name:
    reading the entry, its type or its time can fail, which skips it. *)
Definition sweep_orphan (now_ms stale_after_ms : Z) (tracked_paths : gset string) (removed : nat)
    (name : string) : M TransferNode nat :=
  res ← part_gate;
  match res with
  | RaftErr _ => mret removed
  | RaftOk _ =>
      if negb (is_snapshot_part_file_name name) then mret removed
      else if bool_decide (name ∈ tracked_paths) then mret removed
      else
        n ← get;
        res ← part_gate;
        match res, tn_parts n !! name with
        | RaftOk _, Some (PartFile _ modified_ms) =>
            res ← part_gate;
            match res, modified_ms with
            | RaftOk _, Some modified_ms =>
                if bool_decide (saturating_sub64 now_ms modified_ms < stale_after_ms) then mret removed
                else
                  gone ← remove_snapshot_transfer_file name;
                  mret (if gone : bool then S removed else removed)
            | _, _ => mret removed
            end
        | _, _ => mret removed
        end
  end.

(** [cleanup_orphaned_stale_snapshot_part_files] *)
Definition cleanup_orphaned_stale_snapshot_part_files (now_ms stale_after_ms : Z)
    (tracked_paths : gset string) : M TransferNode nat :=
  res ← part_gate;
  match res with
  | RaftErr _ => mret 0%nat
  | RaftOk _ =>
      n ← get;
      for_fold (map_to_list (tn_parts n)).*1 0%nat (sweep_orphan now_ms stale_after_ms tracked_paths)
  end.

(** [cleanup_stale_snapshot_transfers] *)
Definition cleanup_stale_snapshot_transfers (now_ms : Z) : M TransferNode nat :=
  n ← get;
  let stale_after_ms := duration_ms_u64 (brc_install_snapshot_stale_transfer_after (tn_config n)) in
  removed ← drop_transfers (fun pending =>
    bool_decide (stale_after_ms <= saturating_sub64 now_ms (pt_updated_at_ms pending)));
  n ← get;
  let tracked_paths : gset string := list_to_set (pt_path <$> (map_to_list (tn_transfers n)).*2) in
  sweep ← should_sweep_orphaned_snapshot_part_files now_ms stale_after_ms;
  if sweep : bool then
    orphans ← cleanup_orphaned_stale_snapshot_part_files now_ms stale_after_ms tracked_paths;
    mret (removed + orphans)%nat
  else mret removed.

(** The loop of [cleanup_orphaned_snapshot_part_files] on one name. *)
Definition remove_orphan (removed : nat) (name : string) : M TransferNode nat :=
  res ← part_gate;
  match res with
  | RaftErr _ => mret removed
  | RaftOk _ =>
      if negb (is_snapshot_part_file_name name) then mret removed
      else
        n ← get;
        res ← part_gate;
        match res, tn_parts n !! name with
        | RaftOk _, Some (PartFile _ _) =>
            res ← remove_file name;
            mret (match res with RaftOk true => S removed | _ => removed end)
        | _, _ => mret removed
        end
  end.

(** [cleanup_orphaned_snapshot_part_files], on opening the store. *)
Definition cleanup_orphaned_snapshot_part_files : M TransferNode (RaftResult nat) :=
  part_gate ;;?
  n ← get;
  removed ← for_fold (map_to_list (tn_parts n)).*1 0%nat remove_orphan;
  (if bool_decide (0 < removed)%nat then part_gate ;; mret tt else mret tt) ;;
  okR removed.

(** ** Staging a chunk *)

(** A chunk of a range already written is acknowledged when its bytes are the
    staged ones, and ends the transfer otherwise. *)
Definition check_duplicate_chunk (key : string) (pending : PendingSnapshotTransfer)
    (request : SnapshotChunkFromLeader) (now_ms : Z) : M TransferNode (RaftResult (option string)) :=
  res ← staged_snapshot_chunk_matches (pt_path pending) (sk_offset request) (sk_chunk request);
  match res with
  | RaftOk true => modify_transfers (alter (set_pt_updated_at_ms now_ms) key) ;; okR None
  | RaftOk false =>
      drop_transfer key ;;
      errR (ERpc ("snapshot duplicate chunk mismatch for index "
        +:+ pretty (sk_last_included_index request) +:+ "; offset=" +:+ pretty (sk_offset request)
        +:+ " len=" +:+ pretty (length (sk_chunk request)))%string)
  | RaftErr err => drop_transfer key ;; errR err
  end.

Definition transfer_limit_error (last_included_index max_staged_transfers : Z) : string :=
  ("snapshot transfer for index " +:+ pretty last_included_index
     +:+ " would exceed active transfer limit " +:+ pretty max_staged_transfers)%string.

Definition byte_limit_error (last_included_index next_bytes max_staged_bytes : Z) : string :=
  ("snapshot transfer for index " +:+ pretty last_included_index +:+ " would stage "
     +:+ pretty next_bytes +:+ " bytes, exceeding configured limit " +:+ pretty max_staged_bytes)%string.

(** A chunk at offset 0 starts its transfer again: what is left of an earlier
    one is removed. *)
Definition start_transfer (key : string) (request : SnapshotChunkFromLeader) (now_ms : Z)
    : M TransferNode (RaftResult unit) :=
  let path := snapshot_transfer_path key in
  n ← get;
  (match tn_transfers n !! key with
   | Some _ => drop_transfer key
   | None => remove_snapshot_transfer_file path ;; mret tt
   end) ;;
  n ← get;
  let max_staged_transfers := brc_install_snapshot_max_staged_transfers (tn_config n) in
  if bool_decide (tn_transfers n !! key = None)
     && bool_decide (max_staged_transfers <= Z.of_nat (size (tn_transfers n))) then
    errR (ERpc (transfer_limit_error (sk_last_included_index request) max_staged_transfers))
  else
    modify_transfers (insert key (mkPendingSnapshotTransfer (sk_leader_id request)
      (sk_last_included_index request) (sk_last_included_term request)
      (to_ascii_lowercase (sk_payload_sha256 request)) path 0 now_ms)) ;;
    okR tt.

(** The closure of [stage_snapshot_chunk] that writes the chunk. *)
Definition write_staged_chunk (path : string) (expected_offset : Z) (request : SnapshotChunkFromLeader)
    (now_ms : Z) : M TransferNode (RaftResult unit) :=
  content ←? open_snapshot_part_file path true now_ms;
  part_gate ;;?
  if bool_decide (Z.of_nat (length content) <> expected_offset) then
    errR (ERpc ("snapshot transfer file length mismatch for index "
      +:+ pretty (sk_last_included_index request) +:+ "; expected=" +:+ pretty expected_offset
      +:+ " actual=" +:+ pretty (length content))%string)
  else
    part_gate ;;?
    write_part path (sk_chunk request) now_ms ;;?
    if sk_done request then part_gate else okR tt.

(** The second half of [stage_snapshot_chunk], after a transfer has been
    started when the chunk is the first one. *)
Definition append_staged_chunk (key : string) (request : SnapshotChunkFromLeader) (now_ms : Z)
    : M TransferNode (RaftResult (option string)) :=
  n ← get;
  let offset := sk_offset request in
  let chunk_len := Z.of_nat (length (sk_chunk request)) in
  let index := sk_last_included_index request in
  match tn_transfers n !! key with
  | None =>
      errR (ERpc ("snapshot chunk for index " +:+ pretty index +:+ " started at offset "
        +:+ pretty offset +:+ " without offset 0")%string)
  | Some pending =>
      let expected_offset := pt_bytes_written pending in
      let next_bytes := saturating_add64 expected_offset chunk_len in
      let max_staged_bytes := brc_install_snapshot_max_staged_bytes (tn_config n) in
      if bool_decide (offset < expected_offset)
         && bool_decide (saturating_add64 offset chunk_len <= expected_offset)
         && negb (sk_done request)
      then check_duplicate_chunk key pending request now_ms
      else if bool_decide (expected_offset <> offset) then
        drop_transfer key ;;
        errR (ERpc ("snapshot chunk offset mismatch for index " +:+ pretty index +:+ "; expected="
          +:+ pretty expected_offset +:+ " got=" +:+ pretty offset)%string)
      else if bool_decide (max_staged_bytes < next_bytes) then
        drop_transfer key ;;
        errR (ERpc (byte_limit_error index next_bytes max_staged_bytes))
      else
        res ← write_staged_chunk (pt_path pending) expected_offset request now_ms;
        match res with
        | RaftErr err => drop_transfer key ;; errR err
        | RaftOk _ =>
            if sk_done request then modify_transfers (delete key) ;; okR (Some (pt_path pending))
            else modify_transfers (alter (add_pt_bytes_written chunk_len now_ms) key) ;; okR None
        end
  end.

(** [stage_snapshot_chunk]: the path of the complete file after the last
    chunk. *)
Definition stage_snapshot_chunk (now_ms : Z) (request : SnapshotChunkFromLeader)
    : M TransferNode (RaftResult (option string)) :=
  cleanup_stale_snapshot_transfers now_ms ;;
  n ← get;
  let key := snapshot_transfer_key (sk_leader_id request) (sk_last_included_index request)
               (sk_last_included_term request) (sk_payload_sha256 request) in
  let restart := start_transfer key request now_ms ;;? append_staged_chunk key request now_ms in
  if bool_decide (sk_offset request = 0) then
    match tn_transfers n !! key with
    | Some pending =>
        if bool_decide (Z.of_nat (length (sk_chunk request)) <= pt_bytes_written pending)
           && negb (sk_done request)
        then check_duplicate_chunk key pending request now_ms
        else restart
    | None => restart
    end
  else append_staged_chunk key request now_ms.

(** ** The request *)

Definition error_response (error : string) : M TransferNode RaftRpcResponse :=
  n ← get; mret (ErrorResponse (tn_term n) error).

(** [RaftLogStore::refresh_latest_snapshot_request_identity_caches] *)
Definition refresh_latest_snapshot_request_identity_caches (expected : RaftSnapshotMetadata)
    : M RaftLogStore (RaftResult unit) :=
  let index := sm_last_included_index expected in
  snapshot ←? on_disk read_snapshot_file;
  match snapshot with
  | None =>
      errR (EInvalidLog ("latest snapshot metadata at index " +:+ pretty index
        +:+ " has no snapshot file")%string)
  | Some snapshot =>
      if bool_decide (sf_metadata snapshot <> expected) then
        errR (EInvalidLog ("latest snapshot metadata changed while refreshing request identity caches at index "
          +:+ pretty index)%string)
      else
        responses ←? check (client_responses_from_snapshot_payload (sf_payload snapshot));
        fps ←? check (validate_snapshot_client_response_entries responses);
        st ← get;
        if bool_decide (latest_snapshot (ls_state st) <> Some expected) then
          errR (EInvalidLog ("in-memory latest snapshot metadata changed while refreshing request identity caches at index "
            +:+ pretty index)%string)
        else
          check (validate_snapshot_client_responses_against_retained_suffix (ls_state st) index fps) ;;?
          adopt_snapshot_context (Some expected) fps
  end.

(** [accept_validated_install_snapshot_sender] with its last block: the
    transfers of other leaders are dropped when the leader is a new one. *)
Definition accept_install_snapshot_sender (clock : Clock) (request : InstallSnapshotFromPeer)
    : M TransferNode (option RaftRpcResponse) :=
  n ← get;
  let r := rn_runtime (tn_node n) in
  let discard_other_leaders :=
    bool_decide (rt_current_term r < is_term request)
    || bool_decide (rt_leader_id r <> Some (is_leader_id request)) in
  refused ← on_node (accept_validated_install_snapshot_sender clock (is_term request)
              (is_leader_id request) (is_leader_addr request));
  match refused with
  | Some response => mret (Some response)
  | None =>
      (if discard_other_leaders
       then discard_snapshot_transfers_from_other_leaders (is_leader_id request) ;; mret tt
       else mret tt) ;;
      mret None
  end.

(** The branch for a snapshot the node has, or a newer one. *)
Definition answer_existing_snapshot (request : InstallSnapshotFromPeer) (expected_checksum : string)
    (snapshot : RaftSnapshotMetadata) : M TransferNode RaftRpcResponse :=
  let discard := discard_snapshot_transfer (is_leader_id request) (is_last_included_index request)
                   (is_last_included_term request) expected_checksum in
  let index := sm_last_included_index snapshot in
  res ← (if bool_decide (index = is_last_included_index request) then
           on_node (on_log (validate_existing_snapshot_matches_install snapshot
                              (is_last_included_term request) expected_checksum)) ;;?
           on_node (on_log (refresh_latest_snapshot_request_identity_caches snapshot))
         else okR tt);
  discard ;;
  match res with
  | RaftErr err => error_response (error_display err)
  | RaftOk _ =>
      n ← get;
      let r := rn_runtime (tn_node n) in
      if bool_decide (rt_commit_index r < index) || bool_decide (rt_last_applied r < index) then
        res ← on_node (on_log latest_snapshot_file);
        match res with
        | RaftErr err => error_response (error_display err)
        | RaftOk (Some snapshot_file) =>
            let metadata := sf_metadata snapshot_file in
            if bool_decide (sm_last_included_index metadata = index)
               && bool_decide (sm_last_included_term metadata = sm_last_included_term snapshot)
            then on_node (finish_installed_snapshot_payload_from_peer (is_term request)
                   (is_leader_id request) (is_leader_addr request)
                   (sm_last_included_index metadata) (sf_payload snapshot_file))
            else error_response "local snapshot metadata changed while handling InstallSnapshot"
        | RaftOk None =>
            error_response "local snapshot metadata changed while handling InstallSnapshot"
        end
      else mret (InstallSnapshotResponse (tn_term n) true index)
  end.

(** The branch for a complete file.  The checks of the payload change nothing
    and the file is removed whatever they say, so it is removed before them. *)
Definition install_staged_payload (clock : Clock) (request : InstallSnapshotFromPeer)
    (expected_checksum : string) (current_snapshot_index : Z) (payload_path : string)
    : M TransferNode RaftRpcResponse :=
  res ← read_verified_snapshot_payload_file (is_last_included_index request) payload_path
          (Some expected_checksum);
  remove_snapshot_transfer_file payload_path ;;
  match res with
  | RaftErr err => error_response (error_display err)
  | RaftOk payload =>
      on_node (install_verified_snapshot clock (is_term request) (is_leader_id request)
        (is_leader_addr request) (is_last_included_index request) (is_last_included_term request)
        expected_checksum payload current_snapshot_index)
  end.

(** The checks before the first chunk of a transfer; the error to answer. *)
Definition admit_transfer (now_ms : Z) (request : InstallSnapshotFromPeer) (expected_checksum : string)
    : M TransferNode (option string) :=
  let key := snapshot_transfer_key (is_leader_id request) (is_last_included_index request)
               (is_last_included_term request) expected_checksum in
  cleanup_stale_snapshot_transfers now_ms ;;
  discard_superseded_snapshot_transfers_from_leader (is_leader_id request)
    (is_last_included_index request) (is_last_included_term request) expected_checksum ;;
  n ← get;
  let active_transfers := match tn_transfers n !! key with
                          | Some _ => 0
                          | None => Z.of_nat (size (tn_transfers n))
                          end in
  let max_staged_transfers := brc_install_snapshot_max_staged_transfers (tn_config n) in
  mret (if bool_decide (max_staged_transfers <= active_transfers)
        then Some (transfer_limit_error (is_last_included_index request) max_staged_transfers)
        else None).

(** The branch for a snapshot newer than the node's. *)
Definition receive_snapshot_chunk (clock : Clock) (request : InstallSnapshotFromPeer)
    (expected_checksum : string) (current_snapshot_index : Z) (chunk : bytes)
    : M TransferNode RaftRpcResponse :=
  n ← get;
  let index := is_last_included_index request in
  let staged_next_bytes := saturating_add64 (is_offset request) (Z.of_nat (length chunk)) in
  let max_staged_bytes := brc_install_snapshot_max_staged_bytes (tn_config n) in
  if bool_decide (max_staged_bytes < staged_next_bytes) then
    discard_snapshot_transfer (is_leader_id request) index (is_last_included_term request)
      expected_checksum ;;
    error_response (byte_limit_error index staged_next_bytes max_staged_bytes)
  else
    over_limit ← (if bool_decide (is_offset request = 0)
                  then admit_transfer (ck_unix_ms clock) request expected_checksum
                  else mret None);
    match over_limit with
    | Some error => error_response error
    | None =>
        res ← stage_snapshot_chunk (ck_unix_ms clock)
                (mkSnapshotChunkFromLeader (is_leader_id request) index (is_last_included_term request)
                   expected_checksum (is_offset request) (is_done request) chunk);
        match res with
        | RaftErr err => error_response (error_display err)
        | RaftOk None =>
            n ← get;
            mret (InstallSnapshotResponse (tn_term n) true current_snapshot_index)
        | RaftOk (Some payload_path) =>
            install_staged_payload clock request expected_checksum current_snapshot_index payload_path
        end
    end.

(** [handle_install_snapshot_from_peer] once the chunk is decoded. *)
Definition handle_snapshot_chunk (clock : Clock) (request : InstallSnapshotFromPeer)
    (expected_checksum : string) (chunk : bytes) : M TransferNode RaftRpcResponse :=
  let discard := discard_snapshot_transfer (is_leader_id request) (is_last_included_index request)
                   (is_last_included_term request) expected_checksum in
  n ← get;
  let limit := brc_install_snapshot_chunk_bytes (tn_config n) in
  if bool_decide (chunk = []) then
    discard ;; error_response "malformed InstallSnapshot request: empty snapshot chunk"
  else if bool_decide (limit < Z.of_nat (length chunk)) then
    discard ;;
    error_response ("InstallSnapshot chunk has " +:+ pretty (length chunk)
      +:+ " decoded bytes, exceeding configured limit " +:+ pretty limit)%string
  else
    refused ← accept_install_snapshot_sender clock request;
    match refused with
    | Some response => discard ;; mret response
    | None =>
        n ← get;
        match latest_snapshot (rn_state (tn_node n)) with
        | Some snapshot =>
            let current_snapshot_index := sm_last_included_index snapshot in
            if bool_decide (is_last_included_index request <= current_snapshot_index)
            then answer_existing_snapshot request expected_checksum snapshot
            else receive_snapshot_chunk clock request expected_checksum current_snapshot_index chunk
        | None => receive_snapshot_chunk clock request expected_checksum 0 chunk
        end
    end.

(** [BrokerRaft::handle_install_snapshot_from_peer] *)
Definition handle_install_snapshot_from_peer (clock : Clock) (request : InstallSnapshotFromPeer)
    : M TransferNode RaftRpcResponse :=
  match malformed_install_snapshot_request_reason (is_term request) (is_last_included_index request)
          (is_last_included_term request) (is_payload_sha256 request) with
  | Some reason => error_response ("malformed InstallSnapshot request: " +:+ reason)%string
  | None =>
      match is_payload_sha256 request with
      | None => error_response "malformed InstallSnapshot request: payload checksum is required"
      | Some checksum =>
          let expected_checksum := to_ascii_lowercase checksum in
          let discard := discard_snapshot_transfer (is_leader_id request)
                           (is_last_included_index request) (is_last_included_term request)
                           expected_checksum in
          res ← on_node (apply_visible_durable_commit_index clock);
          match res with
          | RaftErr err => error_response (error_display err)
          | RaftOk _ =>
              refused ← on_node (precheck_install_snapshot_sender (is_term request)
                          (is_leader_id request) (is_leader_addr request));
              match refused with
              | Some response => discard ;; mret response
              | None =>
                  match base64_decode (is_data request) with
                  | inl err =>
                      discard ;;
                      error_response (error_display (ERpc ("invalid snapshot chunk encoding: " +:+ err)%string))
                  | inr chunk => handle_snapshot_chunk clock request expected_checksum chunk
                  end
              end
          end
      end
  end.

(** One round of [maintenance_loop]. *)
Definition maintenance_round (clock : Clock) : M TransferNode unit :=
  cleanup_stale_snapshot_transfers (ck_unix_ms clock) ;;
  on_node (snapshot_and_compact_if_needed clock) ;;
  mret tt.

End transfer.
