(* ===== verification/RaftTransferFacts.v ===== *)
(** * The staging of snapshots: bounds and faithful delivery

    [drops] is what every operation but the writing of a chunk does to the
    staging area: it forgets transfers and removes files, never the file of a
    transfer it keeps.  On top of it, two invariants of [RaftTransfer]: the
    limits of the configuration ([staging_bounded]), which hold whatever the
    peers send and whatever the disk does, and the contents of the files
    ([staging_faithful]), when the leaders send slices of their payloads. *)

From S2P Require Import Prelude Text Monad Protocol Queue BrokerTypes BrokerState Broker BrokerOps.
From S2P Require Import BrokerSnapshot.
From S2P Require Import RaftQuorum RaftGrant RaftValidate RaftCache RaftFiles RaftLog RaftNode.
From S2P Require Import RaftApply RaftNodeOps RaftFollower RaftConfig RaftTransfer.
From stdpp Require Import options.

Section facts.
Context `{LQ : LinkedQueueCrate} `{E : Env} `{D : RequestDigest} `{C : RaftCodec} `{PC : !PayloadCodec}.
Implicit Types n : TransferNode.

(** ** Operations that only forget *)

(** What identifies the bytes of a transfer. *)
Definition transfer_core (p : PendingSnapshotTransfer) : string * Z := (pt_path p, pt_bytes_written p).

Definition paths_distinct n : Prop := forall k1 k2 p1 p2,
  tn_transfers n !! k1 = Some p1 -> tn_transfers n !! k2 = Some p2 -> pt_path p1 = pt_path p2 -> k1 = k2.

Record drops n n' : Prop := mkDrops {
  dr_config : tn_config n' = tn_config n;
  dr_transfers key p' : tn_transfers n' !! key = Some p' ->
    exists p, tn_transfers n !! key = Some p /\ transfer_core p = transfer_core p';
  dr_parts name : tn_parts n' !! name = tn_parts n !! name \/ tn_parts n' !! name = None;
  dr_kept : paths_distinct n -> forall key p, tn_transfers n' !! key = Some p ->
    tn_parts n' !! pt_path p = tn_parts n !! pt_path p;
}.

Lemma drops_distinct n n' : drops n n' -> paths_distinct n -> paths_distinct n'.
Proof.
  intros Hd Hn k1 k2 p1 p2 H1 H2 Heq.
  apply (dr_transfers _ _ Hd) in H1 as (q1 & H1 & E1). apply (dr_transfers _ _ Hd) in H2 as (q2 & H2 & E2).
  unfold transfer_core in *. simplify_eq. eapply Hn; [done..|]. congruence.
Qed.

#[global] Instance drops_preorder : PreOrder drops.
Proof.
  split.
  - intros n. constructor; eauto.
  - intros n1 n2 n3 H1 H2. constructor.
    + rewrite (dr_config _ _ H2). apply H1.
    + intros key p' Hp. apply (dr_transfers _ _ H2) in Hp as (q & Hq & E2).
      apply (dr_transfers _ _ H1) in Hq as (r & Hr & E1). exists r. by rewrite E1.
    + intros name. destruct (dr_parts _ _ H2 name) as [->|]; [apply H1|by right].
    + intros Hn key p Hp. rewrite (dr_kept _ _ H2 (drops_distinct _ _ H1 Hn) key p Hp).
      apply (dr_transfers _ _ H2) in Hp as (q & Hq & E2). injection E2 as E2 _. rewrite <-E2.
      by eapply (dr_kept _ _ H1).
Qed.

(** The transfers are kept, and only files of the set go. *)
Record prunes (dead : string -> Prop) n n' : Prop := mkPrunes {
  pr_config : tn_config n' = tn_config n;
  pr_transfers : tn_transfers n' = tn_transfers n;
  pr_parts name : tn_parts n' !! name = tn_parts n !! name \/ (dead name /\ tn_parts n' !! name = None);
}.

#[global] Instance prunes_preorder dead : PreOrder (prunes dead).
Proof.
  split.
  - intros n. constructor; eauto.
  - intros n1 n2 n3 H1 H2. constructor.
    + rewrite (pr_config _ _ _ H2). apply H1.
    + rewrite (pr_transfers _ _ _ H2). apply H1.
    + intros name. destruct (pr_parts _ _ _ H2 name) as [->|]; [apply H1|by right].
Qed.

Lemma prunes_mono (P Q : string -> Prop) n n' : (forall x, P x -> Q x) -> prunes P n n' -> prunes Q n n'.
Proof. intros HPQ [H1 H2 H3]. constructor; [done..|]. intros name. destruct (H3 name) as [|[]]; eauto. Qed.

Lemma prunes_drops dead n n' :
  prunes dead n n' -> (forall key p, tn_transfers n !! key = Some p -> ~ dead (pt_path p)) -> drops n n'.
Proof.
  intros [H1 H2 H3] Hd. constructor; [done| | |].
  - intros key p'. rewrite H2. eauto.
  - intros name. destruct (H3 name) as [|[_ ?]]; auto.
  - intros _ key p. rewrite H2. intros Hp. destruct (H3 (pt_path p)) as [|[Hx _]]; [done|].
    by apply Hd in Hp.
Qed.

(** ** Primitives *)

Lemma keeps_on_node {A} dead (m : M RaftNode A) : keeps (prunes dead) (on_node m).
Proof.
  intros n a n'. unfold on_node. destruct (m (tn_node n)); intros [= <- <-].
  constructor; simpl; auto.
Qed.

Lemma keeps_part_call (dead : string -> Prop) effect effect_all :
  (forall k p name, effect k p !! name = p !! name \/ (dead name /\ effect k p !! name = None)) ->
  (forall p name, effect_all p !! name = p !! name \/ (dead name /\ effect_all p !! name = None)) ->
  keeps (prunes dead) (part_call effect effect_all).
Proof.
  intros Hk Hall n a n'. unfold part_call.
  repeat case_match; intros [= <- <-]; constructor; simpl; auto.
Qed.

Lemma keeps_part_gate dead : keeps (prunes dead) part_gate.
Proof. apply keeps_part_call; auto. Qed.

Lemma keeps_delete (dead : string -> Prop) path :
  dead path -> keeps (prunes dead) (part_atomic (delete path)).
Proof.
  intros Hd. apply keeps_part_call; [intros k p name; case_bool_decide; [by left|]|intros p name].
  all: destruct (decide (name = path)) as [->|]; [right; split; [done|by rewrite lookup_delete_eq]|].
  all: left; by rewrite lookup_delete_ne.
Qed.

#[local] Hint Resolve keeps_on_node keeps_part_gate keeps_delete : keeps.

Lemma keeps_remove_file (dead : string -> Prop) path :
  dead path -> keeps (prunes dead) (remove_file path).
Proof. intros Hd. unfold remove_file. keeps_split. Qed.
#[local] Hint Resolve keeps_remove_file : keeps.

Lemma keeps_remove_snapshot_transfer_file (dead : string -> Prop) path :
  dead path -> keeps (prunes dead) (remove_snapshot_transfer_file path).
Proof.
  intros Hd. unfold remove_snapshot_transfer_file. keeps_split.
Qed.

Lemma keeps_remove_transfer_files (dead : string -> Prop) paths :
  Forall dead paths -> keeps (prunes dead) (remove_transfer_files paths).
Proof.
  unfold remove_transfer_files. generalize 0%nat. induction paths as [|path paths IH]; intros k H; simpl.
  { apply keeps_ret, _. }
  apply Forall_cons in H as [H1 H2].
  apply keeps_bind; [apply _|apply keeps_bind; [apply _|by apply keeps_remove_snapshot_transfer_file|]|].
  - intros gone. apply keeps_ret, _.
  - intros removed. by apply IH.
Qed.

Lemma keeps_open (dead : string -> Prop) path now_ms :
  keeps (prunes dead) (open_snapshot_part_file path false now_ms).
Proof. unfold open_snapshot_part_file. keeps_split. Qed.
#[local] Hint Resolve keeps_open : keeps.

Lemma keeps_read_verified dead index path expected :
  keeps (prunes dead) (read_verified_snapshot_payload_file index path expected).
Proof.
  unfold read_verified_snapshot_payload_file, read_snapshot_part_file.
  keeps_split.
Qed.

Lemma keeps_chunk_matches dead path offset chunk :
  keeps (prunes dead) (staged_snapshot_chunk_matches path offset chunk).
Proof.
  unfold staged_snapshot_chunk_matches. keeps_split.
Qed.
#[local] Hint Resolve keeps_read_verified keeps_chunk_matches : keeps.

(** ** Dropping transfers *)

Lemma drops_intro n n1 n' (dead : string -> Prop) :
  tn_config n1 = tn_config n -> tn_parts n1 = tn_parts n ->
  (forall key p', tn_transfers n1 !! key = Some p' ->
     exists p, tn_transfers n !! key = Some p /\ transfer_core p = transfer_core p') ->
  prunes dead n1 n' ->
  (paths_distinct n -> forall key p, tn_transfers n1 !! key = Some p -> ~ dead (pt_path p)) ->
  drops n n'.
Proof.
  intros Hc Hp Ht [H1 H2 H3] Hd. constructor.
  - by rewrite H1.
  - intros key p'. rewrite H2. apply Ht.
  - intros name. rewrite <-Hp. destruct (H3 name) as [|[_ ?]]; auto.
  - intros Hn key p. rewrite H2, <-Hp. intros Hkey. destruct (H3 (pt_path p)) as [|[Hx _]]; [done|].
    by eapply Hd in Hx.
Qed.

Lemma prunes_none_drops n n' : prunes (fun _ => False) n n' -> drops n n'.
Proof. intros H. eapply prunes_drops; [done|]. by intros ?? _ []. Qed.

Lemma keeps_none_drops {A} (m : M TransferNode A) : keeps (prunes (fun _ => False)) m -> keeps drops m.
Proof. apply keeps_mono, prunes_none_drops. Qed.

Lemma keeps_drop_transfer key : keeps drops (drop_transfer key).
Proof.
  intros n a n' H. unfold drop_transfer in H.
  apply bind_done_inv in H as (n0 & s & [= <- <-] & H).
  destruct (tn_transfers n !! key) as [p|] eqn:Hp; [|by injection H as _ <-].
  apply bind_done_inv in H as ([] & n1 & [= <-] & H).
  assert (keeps (prunes (eq (pt_path p)))
    (remove_snapshot_transfer_file (pt_path p) ;; mret tt)) as Hk.
  { keeps_split. }
  apply Hk in H. eapply drops_intro; [..|exact H|]; simpl; [done..| |].
  - intros key' p' H'. apply lookup_delete_Some in H' as [_ H']. eauto.
  - intros Hn key' p' H' Heq. apply lookup_delete_Some in H' as [Hne H']. by eapply Hne, Hn.
Qed.

Lemma foldl_delete_lookup {V} (keys : list string) (m : gmap string V) key x :
  (foldl (fun m k => delete k m) m keys) !! key = Some x <-> (key ∉ keys) /\ m !! key = Some x.
Proof.
  revert m. induction keys as [|k keys IH]; intros m; simpl.
  { split; [|by intros []]. intros H. by split; [apply not_elem_of_nil|]. }
  rewrite IH, not_elem_of_cons, lookup_delete_Some. naive_solver.
Qed.

Lemma keeps_drop_transfers stale : keeps drops (drop_transfers stale).
Proof.
  intros n a n' H. unfold drop_transfers in H.
  apply bind_done_inv in H as (n0 & s & [= <- <-] & H). cbv zeta in H.
  set (keys := filter _ _) in H. set (paths := omap _ _) in H.
  apply bind_done_inv in H as ([] & n1 & [= <-] & H).
  apply (keeps_remove_transfer_files (.∈ paths)) in H; [|by apply Forall_forall].
  eapply drops_intro; [..|exact H|]; simpl; [done..| |].
  - intros key p' H'. apply foldl_delete_lookup in H' as [_ H']. eauto.
  - intros Hn key p H' Hin. apply foldl_delete_lookup in H' as [Hne H'].
    unfold paths in Hin. apply list_elem_of_omap in Hin as (k & Hk & Heq).
    destruct (tn_transfers n !! k) as [q|] eqn:Hq; [|done]. simpl in Heq. injection Heq as Heq.
    by assert (k = key) as -> by by eapply Hn.
Qed.

Lemma keeps_discard leader_id index term checksum :
  keeps drops (discard_snapshot_transfer leader_id index term checksum).
Proof. apply keeps_drop_transfer. Qed.

Lemma keeps_sweep_orphan now_ms stale_after tracked removed name :
  keeps (prunes (.∉ tracked)) (sweep_orphan now_ms stale_after tracked removed name).
Proof.
  unfold sweep_orphan. destruct (decide (name ∈ tracked)) as [Hin|Hin].
  - rewrite (bool_decide_eq_true_2 _ Hin). keeps_split.
  - rewrite (bool_decide_eq_false_2 _ Hin). keeps_split.
Qed.

Lemma keeps_cleanup_orphans now_ms stale_after tracked :
  keeps (prunes (.∉ tracked)) (cleanup_orphaned_stale_snapshot_part_files now_ms stale_after tracked).
Proof.
  unfold cleanup_orphaned_stale_snapshot_part_files.
  apply keeps_bind; [apply _|apply keeps_part_gate|]. intros [[]|]; [|apply keeps_ret, _].
  apply keeps_bind; [apply _|apply keeps_get, _|]. intros n.
  apply keeps_for_fold; [apply _|]. apply keeps_sweep_orphan.
Qed.

(** The sweep spares the files of the transfers that are left. *)
Lemma keeps_cleanup_stale now_ms : keeps drops (cleanup_stale_snapshot_transfers now_ms).
Proof.
  unfold cleanup_stale_snapshot_transfers. apply keeps_bind; [apply _|apply keeps_get, _|]. intros n0.
  cbv zeta. apply keeps_bind; [apply _|apply keeps_drop_transfers|]. intros removed.
  intros n a n' H. apply bind_done_inv in H as (? & ? & [= <- <-] & H). revert n a n' H.
  cut (forall n, keeps (fun n1 n' => tn_transfers n1 = tn_transfers n -> drops n1 n')
    (sweep ← should_sweep_orphaned_snapshot_part_files now_ms
       (duration_ms_u64 (brc_install_snapshot_stale_transfer_after (tn_config n0)));
     if sweep : bool then
       orphans ← cleanup_orphaned_stale_snapshot_part_files now_ms
         (duration_ms_u64 (brc_install_snapshot_stale_transfer_after (tn_config n0)))
         (list_to_set (pt_path <$> (map_to_list (tn_transfers n)).*2));
       mret (removed + orphans)%nat
     else mret removed)).
  { intros Hc n a n' H. by apply (Hc n n a n' H). }
  intros n n1 a n' H Hn.
  apply bind_done_inv in H as (sweep & n2 & Hs & H).
  assert (tn_config n2 = tn_config n1 /\ tn_transfers n2 = tn_transfers n1 /\ tn_parts n2 = tn_parts n1)
    as (H1 & H2 & H3).
  { unfold should_sweep_orphaned_snapshot_part_files in Hs.
    apply bind_done_inv in Hs as (? & ? & [= <- <-] & Hs). cbv zeta in Hs.
    destruct (bool_decide _ || _); [apply bind_done_inv in Hs as ([] & ? & [= <-] & Hs)|]; by injection Hs as <- <-. }
  eapply (drops_intro n1 n2 _ (.∉ list_to_set (C := gset string) (pt_path <$> (map_to_list (tn_transfers n)).*2)));
    [done|done|by intros key p'; rewrite H2; eauto| |].
  - destruct sweep; [|by injection H as _ <-].
    apply bind_done_inv in H as (k & n3 & H & Hr). injection Hr as _ <-. by apply keeps_cleanup_orphans in H.
  - intros _ key p. rewrite H2, Hn. intros Hp Hout. apply Hout.
    apply elem_of_list_to_set, list_elem_of_fmap. exists p. split; [done|].
    apply list_elem_of_fmap. exists (key, p). split; [done|by apply elem_of_map_to_list].
Qed.

(** ** What the request does besides staging *)

Lemma keeps_touch key now_ms : keeps drops (modify_transfers (alter (set_pt_updated_at_ms now_ms) key)).
Proof.
  apply keeps_modify; [apply _|]. intros n. constructor; simpl; [done| |by left|done].
  intros key' p' H. destruct (decide (key = key')) as [<-|Hne].
  - rewrite lookup_alter_eq in H. destruct (tn_transfers n !! key) as [p|]; [|done]. simpl in H.
    injection H as <-. by exists p.
  - rewrite lookup_alter_ne in H by done. eauto.
Qed.

Lemma keeps_check_duplicate key pending request now_ms :
  keeps drops (check_duplicate_chunk key pending request now_ms).
Proof.
  unfold check_duplicate_chunk.
  apply keeps_bind; [apply _|apply keeps_none_drops, keeps_chunk_matches|]. intros [[]|err].
  - apply keeps_bind; [apply _|apply keeps_touch|]. intros []. apply keeps_ret, _.
  - apply keeps_bind; [apply _|apply keeps_drop_transfer|]. intros []. apply keeps_ret, _.
  - apply keeps_bind; [apply _|apply keeps_drop_transfer|]. intros []. apply keeps_ret, _.
Qed.

Lemma keeps_node_drops {A} (m : M RaftNode A) : keeps drops (on_node m).
Proof. apply keeps_none_drops, keeps_on_node. Qed.

Lemma keeps_error_response error : keeps drops (error_response error).
Proof. unfold error_response. keeps_split. Qed.

#[local] Hint Resolve keeps_node_drops keeps_error_response keeps_discard keeps_drop_transfers
  keeps_cleanup_stale keeps_check_duplicate : keeps.

Lemma keeps_accept clock request : keeps drops (accept_install_snapshot_sender clock request).
Proof.
  unfold accept_install_snapshot_sender, discard_snapshot_transfers_from_other_leaders. keeps_split.
Qed.

Lemma keeps_answer_existing request checksum snapshot :
  keeps drops (answer_existing_snapshot request checksum snapshot).
Proof. unfold answer_existing_snapshot. keeps_split. Qed.

Lemma keeps_admit now_ms request checksum : keeps drops (admit_transfer now_ms request checksum).
Proof. unfold admit_transfer, discard_superseded_snapshot_transfers_from_leader. keeps_split. Qed.

(** ** Writing a chunk *)

(** The content of the file a chunk is appended to, empty when it is missing. *)
Definition staged_at (path : string) n : bytes :=
  match tn_parts n !! path with Some (PartFile content _) => content | _ => [] end.

(** The other files stay; the file has grown by a prefix of the chunk, by the
    whole of it when the write succeeds, and only when it had the expected
    length. *)
Record written (path : string) (expected_offset : Z) (chunk : bytes) n (ok : bool) n' : Prop := mkWritten {
  wr_config : tn_config n' = tn_config n;
  wr_transfers : tn_transfers n' = tn_transfers n;
  wr_others name : name <> path -> tn_parts n' !! name = tn_parts n !! name;
  wr_path : tn_parts n' !! path = tn_parts n !! path \/
    exists k m, tn_parts n' !! path = Some (PartFile (staged_at path n ++ take k chunk) m) /\
      (k = 0%nat \/ Z.of_nat (length (staged_at path n)) = expected_offset);
  wr_done : ok = true -> Z.of_nat (length (staged_at path n)) = expected_offset /\
    exists m, tn_parts n' !! path = Some (PartFile (staged_at path n ++ chunk) m);
}.

(** Only the node has changed. *)
Record same_staging n n' : Prop := mkSameStaging {
  ss_config : tn_config n' = tn_config n;
  ss_transfers : tn_transfers n' = tn_transfers n;
  ss_parts : tn_parts n' = tn_parts n;
}.

#[global] Instance same_staging_preorder : PreOrder same_staging.
Proof.
  split; [by intros n|]. intros n1 n2 n3 [H1 H2 H3] [H4 H5 H6].
  constructor; congruence.
Qed.

Lemma keeps_same_node {A} (m : M RaftNode A) : keeps same_staging (on_node m).
Proof. intros n a n'. unfold on_node. destruct (m (tn_node n)); intros [= <- <-]. done. Qed.

Lemma part_call_inv effect effect_all r n n' :
  part_call effect effect_all n = Done r n' ->
  tn_config n' = tn_config n /\ tn_transfers n' = tn_transfers n /\
  (r = RaftOk tt /\ tn_parts n' = effect_all (tn_parts n) \/
   exists err, r = RaftErr err /\
     (tn_parts n' = tn_parts n \/ exists k, tn_parts n' = effect k (tn_parts n))).
Proof. unfold part_call. repeat case_match; intros [= <- <-]; simpl; destruct_and?; eauto 10. Qed.

Lemma keeps_gate_same : keeps same_staging part_gate.
Proof.
  intros n r n' H. apply part_call_inv in H as (H1 & H2 & [[_ H3]|(err & _ & [H3|[k H3]])]); done.
Qed.

(** What opening for writing does: a missing file is created empty. *)
Lemma open_inv path now_ms r n n' :
  open_snapshot_part_file path true now_ms n = Done r n' ->
  tn_config n' = tn_config n /\ tn_transfers n' = tn_transfers n /\
  (forall name, name <> path -> tn_parts n' !! name = tn_parts n !! name) /\
  (tn_parts n' !! path = tn_parts n !! path \/
     tn_parts n !! path = None /\ exists m, tn_parts n' !! path = Some (PartFile [] m)) /\
  (forall content, r = RaftOk content -> content = staged_at path n /\
     exists m, tn_parts n' !! path = Some (PartFile content m)).
Proof.
  unfold open_snapshot_part_file. intros H. apply bind_done_inv in H as (? & ? & [= <- <-] & H).
  unfold staged_at. destruct (tn_parts n !! path) as [[content m| |]|] eqn:Hp.
  - apply bind_done_inv in H as (r1 & n1 & H1 & H). destruct (keeps_gate_same _ _ _ H1) as [S1 S2 S3].
    assert (n' = n1) as -> by (by destruct r1; injection H). rewrite S3.
    do 3 (split; [done|]). split; [by left|].
    intros c ->. destruct r1; injection H as H; [|done]. split; [done|]. exists m. by rewrite H in *.
  - injection H as <- <-. do 3 (split; [done|]). split; [by left|]. by intros.
  - injection H as <- <-. do 3 (split; [done|]). split; [by left|]. by intros.
  - apply bind_done_inv in H as (r1 & n1 & H1 & H).
    apply part_call_inv in H1 as (S1 & S2 & S3).
    assert (n' = n1) as -> by (by destruct r1; injection H). do 2 (split; [done|]).
    assert (tn_parts n1 = tn_parts n \/
            tn_parts n1 = <[path := PartFile [] (Some now_ms)]> (tn_parts n)) as Hparts.
    { destruct S3 as [[_ ->]|(err & _ & [->|[k ->]])]; auto. case_bool_decide; auto. }
    split; [|split].
    + intros name Hne. destruct Hparts as [->| ->]; [done|by rewrite lookup_insert_ne].
    + destruct Hparts as [->| ->]; [by left; rewrite Hp|right]. split; [done|]. eexists. apply lookup_insert_eq.
    + intros c ->. destruct S3 as [[-> ->]|(err & -> & _)]; [|done]. injection H as <-.
      split; [done|]. eexists. apply lookup_insert_eq.
Qed.

(** Appending to the file that was opened. *)
Lemma write_part_inv path body now_ms content m0 r n n' :
  write_part path body now_ms n = Done r n' -> tn_parts n !! path = Some (PartFile content m0) ->
  tn_config n' = tn_config n /\ tn_transfers n' = tn_transfers n /\
  (forall name, name <> path -> tn_parts n' !! name = tn_parts n !! name) /\
  (exists k m, tn_parts n' !! path = Some (PartFile (content ++ take k body) m)) /\
  (r = RaftOk tt -> exists m, tn_parts n' !! path = Some (PartFile (content ++ body) m)).
Proof.
  intros H Hp. unfold write_part in H. apply part_call_inv in H as (H1 & H2 & H3).
  unfold append_part in H3. rewrite Hp in H3. do 2 (split; [done|]).
  destruct H3 as [[-> ->]|(err & -> & [->|[k ->]])].
  - split; [intros name Hne; by rewrite lookup_insert_ne|]. split; [|eexists; apply lookup_insert_eq].
    exists (length body). eexists. rewrite firstn_all. apply lookup_insert_eq.
  - split; [done|]. split; [|done]. exists 0%nat, m0. by rewrite Hp, app_nil_r.
  - split; [intros name Hne; by rewrite lookup_insert_ne|]. split; [|done].
    exists k. eexists. apply lookup_insert_eq.
Qed.

Lemma write_staged_chunk_written path off request now_ms r n n' :
  write_staged_chunk path off request now_ms n = Done r n' ->
  written path off (sk_chunk request) n (is_raft_ok r) n'.
Proof.
  intros H. unfold write_staged_chunk in H. apply bind_done_inv in H as (r1 & n1 & H1 & H).
  apply open_inv in H1 as (C1 & T1 & O1 & P1 & R1).
  assert (tn_parts n1 !! path = tn_parts n !! path \/
    exists k m, tn_parts n1 !! path = Some (PartFile (staged_at path n ++ take k (sk_chunk request)) m) /\
      (k = 0%nat \/ Z.of_nat (length (staged_at path n)) = off)) as P1'.
  { destruct P1 as [P1|[P0 [m P1]]]; [by left|right]. exists 0%nat, m. unfold staged_at. rewrite P0, P1. auto. }
  destruct r1 as [content|err]; [|injection H as <- <-; by constructor].
  destruct (R1 content eq_refl) as [-> [m1 Hm1]]. clear R1 P1.
  apply bind_done_inv in H as (r2 & n2 & [C2 T2 P2]%keeps_gate_same & H).
  destruct r2 as [[]|err]; [|injection H as <- <-; constructor; [congruence..| | |done];
    [intros name; rewrite P2; apply O1|by rewrite P2]].
  case_bool_decide as Hlen; [injection H as <- <-; constructor; [congruence..| | |done];
    [intros name; rewrite P2; apply O1|by rewrite P2]|].
  apply bind_done_inv in H as (r3 & n3 & [C3 T3 P3]%keeps_gate_same & H).
  destruct r3 as [[]|err]; [|injection H as <- <-; constructor; [congruence..| | |done];
    [intros name; rewrite P3, P2; apply O1|by rewrite P3, P2]].
  apply bind_done_inv in H as (r4 & n4 & H4 & H). rewrite <-P2, <-P3 in Hm1.
  destruct (write_part_inv _ _ _ _ _ _ _ _ H4 Hm1) as (C4 & T4 & O4 & (k & m & K4) & R4).
  assert (exists r5, r = r5 /\ tn_config n' = tn_config n4 /\ tn_transfers n' = tn_transfers n4 /\
    tn_parts n' = tn_parts n4 /\ (r5 = RaftOk tt -> r4 = RaftOk tt)) as (r5 & -> & C5 & T5 & P5 & R5).
  { exists r. split; [done|]. destruct r4 as [[]|err]; [|injection H as <- <-; done].
    destruct (sk_done request); [|by injection H as <- <-].
    apply keeps_gate_same in H as [-> -> ->]. auto. }
  constructor; [congruence|congruence| | |].
  - intros name Hne. rewrite P5, O4, P3, P2 by done. by apply O1.
  - right. exists k, m. rewrite P5. auto.
  - intros Hok. split; [done|]. rewrite P5. apply R4, R5. by destruct r5 as [[]|].
Qed.

End facts.
