(* ===== verification/RaftStaging.v ===== *)
(** * Limits and contents of the staging area

    The two invariants of the staging area of [RaftTransfer], over every
    interleaving of InstallSnapshot requests, maintenance rounds and changes of
    the rest of the node, on a disk on which any call can fail, write short or
    stop the machine. *)

From S2P Require Import Prelude Text Monad Protocol Queue BrokerTypes BrokerState Broker BrokerOps.
From S2P Require Import BrokerSnapshot.
From S2P Require Import RaftQuorum RaftGrant RaftValidate RaftCache RaftFiles RaftLog RaftNode.
From S2P Require Import RaftApply RaftNodeOps RaftFollower RaftConfig RaftTransfer RaftTransferFacts.
From stdpp Require Import options.

Section staging.
Context `{LQ : LinkedQueueCrate} `{E : Env} `{D : RequestDigest} `{C : RaftCodec} `{PC : !PayloadCodec}.
Implicit Types n : TransferNode.

(** ** A request keeps what staging its chunk keeps *)

Section request.
Variable I : TransferNode -> Prop.
Variable request : InstallSnapshotFromPeer.

Definition chunk_of (checksum : string) (chunk : bytes) : SnapshotChunkFromLeader :=
  mkSnapshotChunkFromLeader (is_leader_id request) (is_last_included_index request)
    (is_last_included_term request) checksum (is_offset request) (is_done request) chunk.

(** The invariant after a chunk; a complete file can be removed. *)
Definition after_chunk (r : RaftResult (option string)) n : Prop :=
  match r with
  | RaftOk (Some path) => forall n', prunes (eq path) n n' -> I n'
  | _ => I n
  end.

Hypothesis I_drops : forall n n', drops n n' -> I n -> I n'.
Hypothesis I_stage : forall now_ms checksum chunk n, is_payload_sha256 request = Some checksum ->
  base64_decode (is_data request) = inr chunk -> I n ->
  wlp (stage_snapshot_chunk now_ms (chunk_of (to_ascii_lowercase checksum) chunk)) after_chunk n.

Lemma wlp_drops {A} (m : M TransferNode A) n : keeps drops m -> I n -> wlp m (fun _ => I) n.
Proof using I_drops. intros Hm HI a n' H. eapply I_drops; [by eapply Hm|done]. Qed.

Lemma wlp_drops_bind {A B} (m : M TransferNode A) (f : A -> M TransferNode B) Q n :
  keeps drops m -> I n -> (forall a n', I n' -> wlp (f a) Q n') -> wlp (m ≫= f) Q n.
Proof using I_drops.
  intros Hm HI Hf. apply wlp_bind. eapply wlp_mono; [by apply wlp_drops|]. intros a n' HI'. by apply Hf.
Qed.

Lemma wlp_install_staged clock checksum current path n :
  (forall n', prunes (eq path) n n' -> I n') ->
  wlp (install_staged_payload clock request checksum current path) (fun _ => I) n.
Proof using I_drops.
  intros HI r n'. unfold install_staged_payload. intros H.
  apply bind_done_inv in H as (r1 & n1 & H1 & H).
  apply (keeps_read_verified (eq path)) in H1.
  apply bind_done_inv in H as (r2 & n2 & H2 & H).
  apply (keeps_remove_snapshot_transfer_file (eq path)) in H2; [|done].
  assert (I n2) as HI2 by (apply HI; by etrans). eapply I_drops; [|exact HI2].
  destruct r1; [by eapply keeps_node_drops|by eapply keeps_error_response].
Qed.

Lemma wlp_receive clock checksum current chunk n :
  is_payload_sha256 request = Some checksum -> base64_decode (is_data request) = inr chunk -> I n ->
  wlp (receive_snapshot_chunk clock request (to_ascii_lowercase checksum) current chunk) (fun _ => I) n.
Proof using I_drops I_stage.
  intros Hc Hd HI. unfold receive_snapshot_chunk. apply wlp_bind, wlp_get. cbv zeta. case_bool_decide.
  { apply wlp_drops_bind; [apply keeps_discard|done|]. intros _ n1 HI1. by apply wlp_drops; [apply keeps_error_response|]. }
  apply wlp_drops_bind; [case_bool_decide; [apply keeps_admit|apply keeps_ret, _]|done|].
  intros [err|] n1 HI1; [by apply wlp_drops; [apply keeps_error_response|]|].
  apply wlp_bind. eapply wlp_mono; [by apply I_stage|]. intros [[path|]|err] n2 HI2; simpl in HI2.
  - by apply wlp_install_staged.
  - by apply wlp_bind, wlp_get, wlp_ret.
  - by apply wlp_drops; [apply keeps_error_response|].
Qed.

Lemma wlp_handle clock n :
  I n -> wlp (handle_install_snapshot_from_peer clock request) (fun _ => I) n.
Proof using I_drops I_stage.
  intros HI. pose proof wlp_receive as Hreceive. unfold handle_install_snapshot_from_peer.
  assert (forall err n1, I n1 -> wlp (error_response err) (fun _ => I) n1) as Herr.
  { intros. by apply wlp_drops; [apply keeps_error_response|]. }
  case_match; [by apply Herr|]. destruct (is_payload_sha256 request) as [checksum|] eqn:Hc; [|by apply Herr].
  cbv zeta. apply wlp_drops_bind; [apply keeps_node_drops|done|]. intros [_|err] n1 HI1; [|by apply Herr].
  apply wlp_drops_bind; [apply keeps_node_drops|done|]. intros [response|] n2 HI2.
  { apply wlp_drops_bind; [apply keeps_discard|done|]. intros _ n3 HI3. by apply wlp_ret. }
  destruct (base64_decode (is_data request)) as [err|chunk] eqn:Hd.
  { apply wlp_drops_bind; [apply keeps_discard|done|]. intros _ n3 HI3. by apply Herr. }
  unfold handle_snapshot_chunk. cbv zeta. apply wlp_bind, wlp_get.
  do 2 (case_bool_decide;
    [apply wlp_drops_bind; [apply keeps_discard|done|]; intros _ n3 HI3; by apply Herr|]).
  apply wlp_drops_bind; [apply keeps_accept|done|]. intros [response|] n3 HI3.
  { apply wlp_drops_bind; [apply keeps_discard|done|]. intros _ n4 HI4. by apply wlp_ret. }
  apply wlp_bind, wlp_get. case_match; [case_bool_decide|]; [|by apply Hreceive..].
  by apply wlp_drops; [apply keeps_answer_existing|].
Qed.

End request.

(** ** Runs of the staging area *)

(** A request, a maintenance round, or anything the rest of the node does,
    faults of its disk included. *)
Inductive staging_step (admissible : InstallSnapshotFromPeer -> Prop) n : TransferNode -> Prop :=
| staging_request clock request response n' :
    admissible request ->
    handle_install_snapshot_from_peer clock request n = Done response n' ->
    staging_step admissible n n'
| staging_maintenance clock n' :
    maintenance_round clock n = Done tt n' -> staging_step admissible n n'
| staging_node x : staging_step admissible n (set_tn_node x n).

Lemma keeps_maintenance clock : keeps drops (maintenance_round clock).
Proof.
  unfold maintenance_round. apply keeps_bind; [apply _|apply keeps_cleanup_stale|]. intros _.
  apply keeps_bind; [apply _|apply keeps_node_drops|]. intros _. apply keeps_ret, _.
Qed.

Lemma set_node_drops x n : drops n (set_tn_node x n).
Proof. constructor; simpl; eauto. Qed.

Lemma staging_run (I : TransferNode -> Prop) admissible n n' :
  (forall n n', drops n n' -> I n -> I n') ->
  (forall request, admissible request -> forall now_ms checksum chunk n,
     is_payload_sha256 request = Some checksum -> base64_decode (is_data request) = inr chunk -> I n ->
     wlp (stage_snapshot_chunk now_ms (chunk_of request (to_ascii_lowercase checksum) chunk))
       (after_chunk I) n) ->
  star (staging_step admissible) n n' -> I n -> I n'.
Proof.
  intros Hd Hs. apply star_inv. intros n1 n2 HI [clock request response n3 Ha H|clock n3 H|x].
  - by eapply (wlp_handle I request Hd (Hs request Ha) clock) in H.
  - eapply Hd; [by eapply keeps_maintenance|done].
  - eapply Hd; [apply set_node_drops|done].
Qed.

(** ** Bounds *)

Definition max_staged_bytes n : Z := brc_install_snapshot_max_staged_bytes (tn_config n).
Definition max_staged_transfers n : Z := brc_install_snapshot_max_staged_transfers (tn_config n).

Record bounded n : Prop := mkBounded {
  bd_config : 0 <= max_staged_bytes n < u64_max /\ 0 <= max_staged_transfers n;
  bd_count : Z.of_nat (size (tn_transfers n)) <= max_staged_transfers n;
  bd_written key p : tn_transfers n !! key = Some p -> 0 <= pt_bytes_written p <= max_staged_bytes n;
  bd_files name content m : tn_parts n !! name = Some (PartFile content m) ->
    Z.of_nat (length content) <= max_staged_bytes n;
}.

Lemma bounded_files n n' :
  tn_config n' = tn_config n -> tn_transfers n' = tn_transfers n ->
  (forall name content m, tn_parts n' !! name = Some (PartFile content m) ->
     Z.of_nat (length content) <= max_staged_bytes n) ->
  bounded n -> bounded n'.
Proof.
  intros Hc Ht Hf [H1 H2 H3 H4]. unfold max_staged_bytes, max_staged_transfers in *.
  constructor; unfold max_staged_bytes, max_staged_transfers; rewrite ?Hc, ?Ht; eauto.
Qed.

Lemma bounded_prunes dead n n' : prunes dead n n' -> bounded n -> bounded n'.
Proof.
  intros [H1 H2 H3] Hb. apply (bounded_files n n'); [done..| |done]. intros name content m H.
  destruct (H3 name) as [Heq|[_ Heq]]; rewrite Heq in H; [by eapply bd_files in H|done].
Qed.

Lemma bounded_drops n n' : drops n n' -> bounded n -> bounded n'.
Proof.
  intros [H1 H2 H3 _] [B1 B2 B3 B4]. unfold max_staged_bytes, max_staged_transfers in *.
  constructor; unfold max_staged_bytes, max_staged_transfers; rewrite ?H1; [done| | |].
  - assert (dom (tn_transfers n') ⊆ dom (tn_transfers n)) as Hsub.
    { intros key Hk. apply elem_of_dom in Hk as [p Hp]. apply H2 in Hp as (q & Hq & _).
      by eapply elem_of_dom_2. }
    apply subseteq_size in Hsub. rewrite !size_dom in Hsub. lia.
  - intros key p Hp. apply H2 in Hp as (q & Hq & Heq). injection Heq as _ <-. by eapply B3.
  - intros name content m H. destruct (H3 name) as [Heq|Heq]; rewrite Heq in H; [by eapply B4|done].
Qed.

Lemma bounded_after r n : bounded n -> after_chunk bounded r n.
Proof. intros Hb. destruct r as [[path|]|]; simpl; [|done..]. intros n' H. by eapply bounded_prunes. Qed.

Lemma bounded_written path off chunk ok n n' :
  written path off chunk n ok n' -> off + Z.of_nat (length chunk) <= max_staged_bytes n ->
  bounded n -> bounded n'.
Proof.
  intros [H1 H2 H3 H4 _] Hle Hb. apply (bounded_files n n'); [done..| |done]. intros name content m H.
  destruct (decide (name = path)) as [->|Hne]; [|rewrite H3 in H by done; by eapply bd_files in H].
  destruct H4 as [Heq|(k & m' & Heq & Hk)]; rewrite Heq in H; [by eapply bd_files in H|].
  injection H as <- _. rewrite length_app, length_take.
  assert (Z.of_nat (length (staged_at path n)) <= max_staged_bytes n) as Hs.
  { unfold staged_at. repeat case_match; try (simpl; apply Hb). by eapply bd_files. }
  destruct Hk as [->|Hk]; simpl; lia.
Qed.

Lemma bounded_start key request now_ms n :
  bounded n -> wlp (start_transfer key request now_ms) (fun _ => bounded) n.
Proof.
  intros Hb. unfold start_transfer. cbv zeta. apply wlp_bind, wlp_get.
  apply wlp_bind. apply (wlp_mono _ (fun _ => bounded)).
  { intros [] n' H. case_match; [by eapply bounded_drops; [eapply keeps_drop_transfer|]|].
    apply bind_done_inv in H as (b & n1 & H & Hr). injection Hr as <-.
    eapply bounded_prunes; [by eapply (keeps_remove_snapshot_transfer_file (fun _ => True))|done]. }
  intros _ n1 Hb1. apply wlp_bind, wlp_get. case_bool_decide as Hk; simpl.
  - case_bool_decide as Hsize; [by apply wlp_ret|]. apply wlp_bind, wlp_modify, wlp_ret.
    destruct Hb1 as [B1 B2 B3 B4]. constructor; simpl; [done| | |done].
    + unfold max_staged_transfers in *. rewrite map_size_insert_None by done. simpl. lia.
    + intros key' p. rewrite lookup_insert_Some. intros [[_ <-]|[_ H]]; [|by eapply B3].
      unfold max_staged_bytes in *. simpl. lia.
  - apply wlp_bind, wlp_modify, wlp_ret.
    destruct Hb1 as [B1 B2 B3 B4]. constructor; simpl; [done| | |done].
    + unfold max_staged_transfers in *. destruct (tn_transfers n1 !! key) as [p|] eqn:Hp; [|done].
      rewrite map_size_insert_Some by done. simpl. lia.
    + intros key' p. rewrite lookup_insert_Some. intros [[_ <-]|[_ H]]; [|by eapply B3].
      unfold max_staged_bytes in *. simpl. lia.
Qed.

Lemma bounded_append key request now_ms n :
  bounded n -> wlp (append_staged_chunk key request now_ms) (after_chunk bounded) n.
Proof.
  intros Hb. unfold append_staged_chunk. apply wlp_bind, wlp_get. cbv zeta.
  assert (forall A (m : M TransferNode A) err n1, keeps drops m -> bounded n1 ->
    wlp (m ;; errR err) (after_chunk bounded) n1) as Hdrop.
  { intros A m err n1 Hm Hb1. apply (wlp_drops_bind bounded); [apply bounded_drops|done..|].
    intros _ n2 Hb2. by apply wlp_ret. }
  destruct (tn_transfers n !! key) as [p|] eqn:Hp; [|by apply wlp_ret].
  destruct (_ && _ && _); [|case_bool_decide as Hoff; [by apply Hdrop, Hb; apply keeps_drop_transfer|]].
  { eapply wlp_mono; [by apply (wlp_drops bounded bounded_drops); [apply keeps_check_duplicate|]|].
    intros r n1. apply bounded_after. }
  case_bool_decide as Hmax; [by apply Hdrop, Hb; apply keeps_drop_transfer|].
  assert (pt_bytes_written p + Z.of_nat (length (sk_chunk request)) <= max_staged_bytes n) as Hle.
  { destruct Hb as [[B1 _] _ B3 _]. apply B3 in Hp. unfold saturating_add64, max_staged_bytes in *. lia. }
  apply wlp_bind. intros r n1 H%write_staged_chunk_written.
  assert (bounded n1) as Hb1 by by eapply bounded_written.
  destruct r as [[]|err]; [|by apply Hdrop; [apply keeps_drop_transfer|]].
  destruct (sk_done request); apply wlp_bind, wlp_modify, wlp_ret.
  - apply bounded_after. eapply bounded_drops; [|exact Hb1]. constructor; simpl; [done| |by left|done].
    intros key' p' H'. apply lookup_delete_Some in H' as [_ H']. eauto.
  - destruct Hb1 as [B1 B2 B3 B4]. constructor; simpl; [done| | |done].
    + unfold max_staged_transfers in *. simpl. by rewrite <-size_dom, dom_alter, size_dom.
    + intros key' p' H'. apply lookup_alter_Some in H' as [(<- & q & Hq & ->)|[_ H']]; [|by eapply B3].
      rewrite (wr_transfers _ _ _ _ _ _ H), Hp in Hq. injection Hq as <-.
      pose proof (bd_written _ Hb _ _ Hp). unfold saturating_add64, max_staged_bytes in *. simpl.
      rewrite (wr_config _ _ _ _ _ _ H). unfold saturating_add64. lia.
Qed.

Lemma bounded_stage request now_ms n :
  bounded n -> wlp (stage_snapshot_chunk now_ms request) (after_chunk bounded) n.
Proof.
  intros Hb. unfold stage_snapshot_chunk. apply (wlp_drops_bind bounded bounded_drops); [apply keeps_cleanup_stale|done|].
  intros _ n1 Hb1. apply wlp_bind, wlp_get. cbv zeta.
  set (key := snapshot_transfer_key _ _ _ _).
  assert (wlp (start_transfer key request now_ms ;;? append_staged_chunk key request now_ms)
    (after_chunk bounded) n1) as Hrestart.
  { apply wlp_bindR. eapply wlp_mono; [by apply bounded_start|]. intros [_|err] n2 Hb2; [|done].
    by apply bounded_append. }
  case_bool_decide; [|by apply bounded_append]. case_match; [case_match|]; [|done..].
  eapply wlp_mono; [by apply (wlp_drops bounded bounded_drops); [apply keeps_check_duplicate|]|].
  intros r n2. apply bounded_after.
Qed.

(** The bytes of the files of the unfinished transfers. *)
Definition staged_bytes n : Z :=
  foldr Z.add 0 ((fun kp : string * PendingSnapshotTransfer =>
    Z.of_nat (length (staged_at (pt_path kp.2) n))) <$> map_to_list (tn_transfers n)).

Lemma staged_bytes_le n : bounded n -> staged_bytes n <= max_staged_transfers n * max_staged_bytes n.
Proof.
  intros Hb. unfold staged_bytes. pose proof (bd_count _ Hb) as Hc. pose proof (bd_config _ Hb) as [Hm _].
  assert (forall l : list (string * PendingSnapshotTransfer),
    foldr Z.add 0 ((fun kp => Z.of_nat (length (staged_at (pt_path kp.2) n))) <$> l)
    <= Z.of_nat (length l) * max_staged_bytes n) as Hl.
  { induction l as [|kp l IH]; [done|]. csimpl.
    assert (Z.of_nat (length (staged_at (pt_path kp.2) n)) <= max_staged_bytes n); [|lia].
    unfold staged_at. repeat case_match; try (simpl; lia). by eapply bd_files. }
  specialize (Hl (map_to_list (tn_transfers n))). rewrite length_map_to_list in Hl. nia.
Qed.

(** C27: The staging area stays within its limits: whatever InstallSnapshot
    requests arrive, from any peer, in any order and with any contents, mixed
    with maintenance rounds, other work of the node and failures of the disk,
    there are at most [install_snapshot_max_staged_transfers] unfinished
    transfers, no staged file is longer than [install_snapshot_max_staged_bytes],
    and the unfinished transfers hold at most the product of the two. *)
Theorem staging_within_limits n n' :
  0 <= max_staged_bytes n < u64_max -> 0 <= max_staged_transfers n ->
  tn_transfers n = ∅ ->
  (forall name content m, tn_parts n !! name = Some (PartFile content m) ->
     Z.of_nat (length content) <= max_staged_bytes n) ->
  star (staging_step (fun _ => True)) n n' ->
  Z.of_nat (size (tn_transfers n')) <= max_staged_transfers n' /\
  (forall name content m, tn_parts n' !! name = Some (PartFile content m) ->
     Z.of_nat (length content) <= max_staged_bytes n') /\
  staged_bytes n' <= max_staged_transfers n' * max_staged_bytes n'.
Proof.
  intros Hb Ht H0 Hf Hrun.
  assert (bounded n') as Hn'.
  { eapply (staging_run bounded (fun _ => True)); [apply bounded_drops| |exact Hrun|].
    - intros request _ now_ms checksum chunk n1 _ _. apply bounded_stage.
    - constructor; [done|by rewrite H0|by rewrite H0|done]. }
  split; [apply Hn'|]. split; [apply Hn'|by apply staged_bytes_le].
Qed.

(** ** Contents *)

(** The payloads the leaders send, by transfer. *)
Section contents.
Variable payloads : gmap string bytes.

(** No two of their names have the same digest. *)
Definition names_distinct : Prop := forall k1 k2, is_Some (payloads !! k1) -> is_Some (payloads !! k2) ->
  snapshot_transfer_path k1 = snapshot_transfer_path k2 -> k1 = k2.

(** A slice of a payload, marked as the last one when it is. *)
Definition slice_of (payload : bytes) (offset : Z) (done : bool) (chunk : bytes) : Prop :=
  0 <= offset /\ offset + Z.of_nat (length chunk) <= Z.of_nat (length payload) /\
  chunk = take (length chunk) (drop (Z.to_nat offset) payload) /\
  done = bool_decide (offset + Z.of_nat (length chunk) = Z.of_nat (length payload)).

(** A chunk that is a slice of the payload of its transfer. *)
Definition honest_chunk (request : SnapshotChunkFromLeader) : Prop :=
  exists payload,
    payloads !! snapshot_transfer_key (sk_leader_id request) (sk_last_included_index request)
                  (sk_last_included_term request) (sk_payload_sha256 request) = Some payload /\
    Z.of_nat (length payload) <= u64_max /\
    slice_of payload (sk_offset request) (sk_done request) (sk_chunk request).

(** A request that carries one, or that is refused before its chunk is
    staged. *)
Definition honest_request (request : InstallSnapshotFromPeer) : Prop :=
  forall checksum chunk, is_payload_sha256 request = Some checksum ->
    base64_decode (is_data request) = inr chunk ->
    honest_chunk (chunk_of request (to_ascii_lowercase checksum) chunk).

(** A transfer, with the prefix of its payload in its file. *)
Definition delivered (key : string) (p : PendingSnapshotTransfer) n : Prop :=
  pt_path p = snapshot_transfer_path key /\
  exists payload m, payloads !! key = Some payload /\
    0 <= pt_bytes_written p <= Z.of_nat (length payload) /\
    tn_parts n !! pt_path p = Some (PartFile (take (Z.to_nat (pt_bytes_written p)) payload) m).

(** Every transfer, those in [except] apart. *)
Definition faithful_but (except : string -> Prop) n : Prop := forall key p,
  tn_transfers n !! key = Some p -> ~ except key -> delivered key p n.

Abbreviation faithful := (faithful_but (fun _ => False)).

Hypothesis distinct : names_distinct.

Lemma faithful_distinct n : faithful n -> paths_distinct n.
Proof using distinct.
  intros Hf k1 k2 p1 p2 H1 H2 Heq.
  destruct (Hf _ _ H1 id) as (E1 & P1 & m1 & Q1 & _). destruct (Hf _ _ H2 id) as (E2 & P2 & m2 & Q2 & _).
  apply distinct; [by eexists..|congruence].
Qed.

Lemma faithful_drops n n' : drops n n' -> faithful n -> faithful n'.
Proof using distinct.
  intros Hd Hf key p' Hp' _. pose proof (dr_kept _ _ Hd (faithful_distinct _ Hf) key p' Hp') as Hk.
  apply (dr_transfers _ _ Hd) in Hp' as (p & Hp & Heq). injection Heq as E1 E2.
  destruct (Hf _ _ Hp id) as (Hpath & payload & m & H1 & H2 & H3).
  split; [by rewrite <-E1|]. exists payload, m. rewrite <-E2. split; [done|]. split; [done|].
  by rewrite Hk, <-E1.
Qed.

(** Files of transfers of other names are not touched. *)
Lemma delivered_other key key' p n n' :
  is_Some (payloads !! key) -> key' <> key ->
  (forall name, name <> snapshot_transfer_path key -> tn_parts n' !! name = tn_parts n !! name) ->
  delivered key' p n -> delivered key' p n'.
Proof using distinct.
  intros Hkey Hne Hparts (Hpath & payload & m & H1 & H2 & H3). split; [done|]. exists payload, m.
  split; [done|]. split; [done|]. rewrite Hparts; [done|]. rewrite Hpath. intros Heq. apply Hne.
  by apply distinct; [eexists| |].
Qed.

(** Dropping a transfer whose file is in any state. *)
Lemma drop_faithful key n :
  is_Some (payloads !! key) ->
  (forall p, tn_transfers n !! key = Some p -> pt_path p = snapshot_transfer_path key) ->
  faithful_but (eq key) n -> wlp (drop_transfer key) (fun _ n' => faithful n' /\ tn_transfers n' !! key = None) n.
Proof using distinct.
  intros Hkey Hpath Hf [] n' H. unfold drop_transfer in H.
  apply bind_done_inv in H as (? & ? & [= <- <-] & H).
  destruct (tn_transfers n !! key) as [p|] eqn:Hp.
  - apply bind_done_inv in H as ([] & n1 & [= <-] & H).
    assert (keeps (prunes (eq (snapshot_transfer_path key)))
      (remove_snapshot_transfer_file (pt_path p) ;; mret tt)) as Hk.
    { apply keeps_bind; [apply _| |intros; apply keeps_ret, _].
      apply keeps_remove_snapshot_transfer_file. symmetry. by apply Hpath. }
    apply Hk in H as [H1 H2 H3]. simpl in *. split; [|by rewrite H2, lookup_delete_eq].
    intros key' p' Hp' _. rewrite H2 in Hp'. apply lookup_delete_Some in Hp' as [Hne Hp'].
    eapply (delivered_other key key' p' n); [done|done| |by apply Hf].
    intros name Hname. destruct (H3 name) as [|[Hx _]]; [done|by subst].
  - injection H as <-. split; [|done]. intros key' p' Hp' _. apply Hf; [done|]. intros <-. by rewrite Hp in Hp'.
Qed.

Lemma slice_extends payload offset done chunk :
  slice_of payload offset done chunk ->
  take (Z.to_nat offset) payload ++ chunk = take (Z.to_nat (offset + Z.of_nat (length chunk))) payload.
Proof.
  intros (H0 & H1 & H2 & _). rewrite H2 at 1. rewrite Z2Nat.inj_add, Nat2Z.id by lia.
  by rewrite take_take_drop.
Qed.

Lemma faithful_but_none key n :
  tn_transfers n !! key = None -> faithful_but (eq key) n -> faithful n.
Proof. intros Hn Hf key' p Hp _. apply Hf; [done|]. intros <-. by rewrite Hn in Hp. Qed.

(** The outcome of a chunk: a complete file holds the payload. *)
Definition chunk_outcome (key : string) (payload : bytes) (r : RaftResult (option string)) n : Prop :=
  faithful n /\
  forall path, r = RaftOk (Some path) -> path = snapshot_transfer_path key /\
    tn_transfers n !! key = None /\ exists m, tn_parts n !! path = Some (PartFile payload m).

Lemma outcome_drop key payload err n :
  is_Some (payloads !! key) ->
  (forall p, tn_transfers n !! key = Some p -> pt_path p = snapshot_transfer_path key) ->
  faithful_but (eq key) n -> wlp (drop_transfer key ;; errR err) (chunk_outcome key payload) n.
Proof using distinct.
  intros Hkey Hpath Hf. apply wlp_bind. eapply wlp_mono; [by apply drop_faithful|].
  intros _ n' [H _]. apply wlp_ret. by split.
Qed.

Lemma outcome_duplicate key payload pending request now_ms n :
  faithful n -> wlp (check_duplicate_chunk key pending request now_ms) (chunk_outcome key payload) n.
Proof using distinct.
  intros Hf r n' H. split; [eapply faithful_drops; [by eapply keeps_check_duplicate|done]|].
  unfold check_duplicate_chunk in H. apply bind_done_inv in H as ([[]|err] & n1 & _ & H);
    apply bind_done_inv in H as ([] & n2 & _ & H); by injection H as <- _.
Qed.

(** What a chunk that continues its transfer finds. *)
Definition transfer_ready (key : string) (payload : bytes) n : Prop :=
  faithful_but (eq key) n /\
  forall p, tn_transfers n !! key = Some p -> pt_path p = snapshot_transfer_path key /\
    0 <= pt_bytes_written p <= Z.of_nat (length payload) /\
    (pt_bytes_written p <> 0 -> delivered key p n).

Lemma faithful_ready key payload n :
  payloads !! key = Some payload -> faithful n -> transfer_ready key payload n.
Proof using distinct.
  intros Hkey Hf. split; [intros key' p Hp _; exact (Hf _ _ Hp id)|]. intros p Hp.
  pose proof (Hf _ _ Hp id) as Hd. destruct Hd as (Hpath & payload' & m & H1 & H2 & H3).
  simplify_eq. split; [done|]. split; [done|]. intros _. split; [done|]. eauto.
Qed.

Lemma outcome_write key payload p request now_ms n :
  payloads !! key = Some payload -> Z.of_nat (length payload) <= u64_max ->
  slice_of payload (sk_offset request) (sk_done request) (sk_chunk request) ->
  tn_transfers n !! key = Some p -> pt_bytes_written p = sk_offset request ->
  transfer_ready key payload n ->
  wlp (res ← write_staged_chunk (pt_path p) (pt_bytes_written p) request now_ms;
       match res with
       | RaftErr err => drop_transfer key ;; errR err
       | RaftOk _ =>
           if sk_done request then modify_transfers (delete key) ;; okR (Some (pt_path p))
           else modify_transfers (alter (add_pt_bytes_written (Z.of_nat (length (sk_chunk request))) now_ms) key) ;;
                okR None
       end) (chunk_outcome key payload) n.
Proof using distinct.
  intros Hkey Hlen Hslice Hp Hoff [Hbut Hready]. destruct (Hready p Hp) as (Hpath & Hle & Hfile).
  apply wlp_bind. intros r n1 [H1 H2 H3 _ H5]%write_staged_chunk_written. rewrite Hpath in *.
  assert (faithful_but (eq key) n1) as Hbut1.
  { intros key' p' Hp' Hne. rewrite H2 in Hp'.
    eapply (delivered_other key key' p' n); [by eexists|by intros ->|done|by apply Hbut]. }
  destruct r as [[]|err].
  2:{ apply outcome_drop; [by eexists| |done]. intros q. rewrite H2, Hp. by intros [= <-]. }
  destruct (H5 eq_refl) as [Hlen1 [m Hm]].
  assert (staged_at (snapshot_transfer_path key) n = take (Z.to_nat (pt_bytes_written p)) payload) as Hst.
  { destruct (decide (pt_bytes_written p = 0)) as [H0|H0].
    - rewrite H0 in Hlen1 |- *. by destruct (staged_at _ n).
    - destruct (Hfile H0) as (_ & payload' & m' & Q1 & _ & Q3). simplify_eq.
      unfold staged_at. by rewrite <-Hpath, Q3. }
  rewrite Hst, Hoff, (slice_extends _ _ _ _ Hslice) in Hm.
  destruct Hslice as (S1 & S2 & S3 & S4). case_bool_decide as Hend; rewrite S4; simpl.
  - apply wlp_bind, wlp_modify, wlp_ret. rewrite Hend, Nat2Z.id, firstn_all in Hm. split.
    + intros key' p' Hp' _. simpl in Hp'. apply lookup_delete_Some in Hp' as [Hne Hp']. by apply Hbut1.
    + intros path [= <-]. split; [done|]. split; [apply lookup_delete_eq|]. by exists m.
  - apply wlp_bind, wlp_modify, wlp_ret. split; [|done]. intros key' p' Hp' _. simpl in Hp'.
    apply lookup_alter_Some in Hp' as [(<- & q & Hq & ->)|[Hne Hp']]; [|by apply Hbut1].
    rewrite H2, Hp in Hq. injection Hq as <-. split; [done|]. exists payload, m. split; [done|]. simpl.
    unfold saturating_add64. rewrite Hoff, Z.min_l by lia. split; [lia|]. by rewrite Hpath.
Qed.

Lemma outcome_append key payload request now_ms n :
  payloads !! key = Some payload -> Z.of_nat (length payload) <= u64_max ->
  slice_of payload (sk_offset request) (sk_done request) (sk_chunk request) ->
  transfer_ready key payload n ->
  wlp (append_staged_chunk key request now_ms) (chunk_outcome key payload) n.
Proof using distinct.
  intros Hkey Hlen Hslice Hready. unfold append_staged_chunk. apply wlp_bind, wlp_get. cbv zeta.
  destruct (tn_transfers n !! key) as [p|] eqn:Hp.
  2:{ apply wlp_ret. split; [|done]. by eapply faithful_but_none, Hready. }
  destruct Hready as [Hbut Hready]. destruct (Hready p Hp) as (Hpath & Hle & Hfile).
  assert (forall q, tn_transfers n !! key = Some q -> pt_path q = snapshot_transfer_path key) as Hq.
  { intros q. rewrite Hp. by intros [= <-]. }
  destruct (bool_decide (_ < _)) eqn:Hlt; simpl.
  - apply bool_decide_eq_true in Hlt. destruct (_ && _).
    + apply outcome_duplicate. intros key' p' Hp' _. destruct (decide (key = key')) as [<-|Hne].
      * rewrite Hp in Hp'. injection Hp' as <-. apply Hfile. destruct Hslice as (? & _). lia.
      * by apply Hbut.
    + rewrite bool_decide_eq_true_2 by lia. by apply outcome_drop.
  - clear Hlt. case_bool_decide; [by apply outcome_drop|]. case_bool_decide; [by apply outcome_drop|].
    apply outcome_write; [done..|]. split; [done|]. intros q Hq'. rewrite Hp in Hq'.
    by injection Hq' as <-.
Qed.

Lemma outcome_start key payload request now_ms n :
  payloads !! key = Some payload -> faithful n ->
  wlp (start_transfer key request now_ms)
    (fun r n' => match r with RaftOk _ => transfer_ready key payload n' | RaftErr _ => faithful n' end) n.
Proof using distinct.
  intros Hkey Hf. unfold start_transfer. cbv zeta. apply wlp_bind, wlp_get.
  apply wlp_bind. apply (wlp_mono _ (fun _ n1 => faithful n1 /\ tn_transfers n1 !! key = None)).
  - destruct (tn_transfers n !! key) as [p|] eqn:Hp.
    + apply drop_faithful; [by eexists| |by intros key' p' Hp' _; exact (Hf _ _ Hp' id)].
      intros q Hq. by destruct (Hf _ _ Hq id).
    + intros [] n1 H. apply bind_done_inv in H as (b & n2 & H & Hr). injection Hr as <-.
      apply (keeps_remove_snapshot_transfer_file (eq (snapshot_transfer_path key))) in H as [H1 H2 H3]; [|done].
      split; [|by rewrite H2]. intros key' p' Hp' _. rewrite H2 in Hp'.
      eapply (delivered_other key key' p' n); [by eexists|by intros ->; rewrite Hp in Hp'| |exact (Hf _ _ Hp' id)].
      intros name Hne. destruct (H3 name) as [|[Hx _]]; [done|by subst].
  - intros _ n1 [Hf1 Hnone]. apply wlp_bind, wlp_get. destruct (_ && _); [by apply wlp_ret|].
    apply wlp_bind, wlp_modify, wlp_ret. split; simpl.
    + intros key' p' Hp' Hne. simpl in Hp'. rewrite lookup_insert_ne in Hp' by done.
      exact (Hf1 _ _ Hp' id).
    + intros p Hp. rewrite lookup_insert_eq in Hp. injection Hp as <-. simpl.
      split; [done|]. split; [lia|done].
Qed.

Lemma outcome_stage request payload now_ms n :
  let key := snapshot_transfer_key (sk_leader_id request) (sk_last_included_index request)
               (sk_last_included_term request) (sk_payload_sha256 request) in
  payloads !! key = Some payload -> Z.of_nat (length payload) <= u64_max ->
  slice_of payload (sk_offset request) (sk_done request) (sk_chunk request) ->
  faithful n -> wlp (stage_snapshot_chunk now_ms request) (chunk_outcome key payload) n.
Proof using distinct.
  intros key Hkey Hlen Hslice Hf. unfold stage_snapshot_chunk.
  apply (wlp_drops_bind _ faithful_drops); [apply keeps_cleanup_stale|done|].
  intros _ n1 Hf1. apply wlp_bind, wlp_get. cbv zeta. fold key.
  assert (wlp (start_transfer key request now_ms ;;? append_staged_chunk key request now_ms)
    (chunk_outcome key payload) n1) as Hrestart.
  { apply wlp_bindR. eapply wlp_mono; [by eapply outcome_start|]. intros [_|err] n2 H2; [|by split].
    by apply outcome_append. }
  case_bool_decide; [|by apply outcome_append, faithful_ready].
  case_match; [case_match|]; [|done..]. by apply outcome_duplicate.
Qed.

End contents.

(** What is installed from a complete file is what the file holds. *)
Lemma install_reads_file clock request checksum current path payload m response n n' :
  tn_parts n !! path = Some (PartFile payload m) ->
  install_staged_payload clock request checksum current path n = Done response n' ->
  (exists term error, response = ErrorResponse term error) \/
  exists v n1, payload_of_slice payload = RaftOk v /\
    eq_ignore_ascii_case (sha256_hex payload) checksum = true /\
    on_node (install_verified_snapshot clock (is_term request) (is_leader_id request)
      (is_leader_addr request) (is_last_included_index request) (is_last_included_term request)
      checksum v current) n1 = Done response n'.
Proof.
  intros Hp H. unfold install_staged_payload in H. apply bind_done_inv in H as (r & n1 & Hr & H).
  apply bind_done_inv in H as (b & n2 & _ & H).
  destruct r as [v|err].
  2:{ left. apply bind_done_inv in H as (? & ? & _ & H). injection H as <- _. eauto. }
  right. exists v, n2. unfold read_verified_snapshot_payload_file, read_snapshot_part_file in Hr.
  apply bind_done_inv in Hr as (r1 & n3 & Hr1 & Hr). destruct r1 as [content|err]; [|done].
  apply bind_done_inv in Hr1 as (r2 & n4 & Hr2 & Hr1). destruct r2 as [content2|err]; [|done].
  apply bind_done_inv in Hr1 as (r3 & n5 & _ & Hr1). destruct r3 as [[]|err]; [|done].
  injection Hr1 as -> _. cbv zeta in Hr. destruct (eq_ignore_ascii_case _ _) eqn:Hsum; [|done].
  injection Hr as Hv _. unfold open_snapshot_part_file in Hr2.
  apply bind_done_inv in Hr2 as (? & ? & [= <- <-] & Hr2). rewrite Hp in Hr2.
  apply bind_done_inv in Hr2 as ([[]|err] & n6 & _ & Hr2); [|done]. injection Hr2 as <- _. auto.
Qed.

(** C10: What is installed is what the leader sent: over any run in which the
    chunks are slices of the payloads of their transfers, but may be lost,
    repeated, reordered, interleaved with those of other leaders and snapshots,
    or hit by failures of the disk, a transfer that completes has exactly its
    payload in its file, and installing it either answers an error or installs
    the value that payload parses to, with the announced checksum. *)
Theorem complete_file_is_payload (payloads : gmap string bytes) n n1 now_ms request payload path n2 :
  names_distinct payloads -> tn_transfers n = ∅ ->
  star (staging_step (honest_request payloads)) n n1 ->
  payloads !! snapshot_transfer_key (sk_leader_id request) (sk_last_included_index request)
                (sk_last_included_term request) (sk_payload_sha256 request) = Some payload ->
  Z.of_nat (length payload) <= u64_max ->
  slice_of payload (sk_offset request) (sk_done request) (sk_chunk request) ->
  stage_snapshot_chunk now_ms request n1 = Done (RaftOk (Some path)) n2 ->
  (exists m, tn_parts n2 !! path = Some (PartFile payload m)) /\
  forall clock install checksum current response n3,
    install_staged_payload clock install checksum current path n2 = Done response n3 ->
    (exists term error, response = ErrorResponse term error) \/
    exists v n', payload_of_slice payload = RaftOk v /\
      eq_ignore_ascii_case (sha256_hex payload) checksum = true /\
      on_node (install_verified_snapshot clock (is_term install) (is_leader_id install)
        (is_leader_addr install) (is_last_included_index install) (is_last_included_term install)
        checksum v current) n' = Done response n3.
Proof.
  intros Hdist H0 Hrun Hkey Hlen Hslice Hstage.
  assert (faithful_but payloads (fun _ => False) n1) as Hf.
  { eapply (staging_run _ (honest_request payloads)); [by apply faithful_drops| |exact Hrun|].
    - intros req Hreq now checksum chunk s Hsum Hdec Hs.
      destruct (Hreq checksum chunk Hsum Hdec) as (P & HP & HPlen & HPs).
      eapply wlp_mono; [by apply (outcome_stage payloads Hdist _ P)|].
      intros [[q|]|err] s' [Hs' Hq]; simpl; [|done..]. destruct (Hq q eq_refl) as (-> & Hnone & _).
      intros s'' Hpr. eapply faithful_drops; [done|eapply prunes_drops; [done|]|done].
      intros key p Hp Heq. destruct (Hs' _ _ Hp id) as (Hpath & P' & m & HP' & _).
      rewrite Hpath in Heq. apply Hdist in Heq as <-; [|by eexists..]. by rewrite Hnone in Hp.
    - intros key p. by rewrite H0. }
  apply (outcome_stage payloads Hdist request payload now_ms n1 Hkey Hlen Hslice Hf) in Hstage as [_ Hq].
  destruct (Hq path eq_refl) as (_ & _ & m & Hm). split; [by exists m|].
  intros. by eapply install_reads_file.
Qed.

End staging.
