(* ===== verification/RaftStream.v ===== *)
(** * Streaming a snapshot to a peer

    [src/src/broker_raft.rs], InstallSnapshot on the sending side: a leader
    reads its latest snapshot (17412-17461, 23490-23516), cuts its JSON into
    chunks whose frames fit the frame limit (22586-22883) and sends them one by
    one, stopping as the peer's answers and its own leadership say
    (17515-18256, 5766-5781, 17274-17344, 25246-25255).

    What happens while an answer is awaited is the link's: it may change the
    leader's node as well as the peer.  The cache of the prepared payload, which
    holds what the file holds, telemetry and log lines are left out; building a
    frame on another thread is building it. *)

From S2P Require Import Prelude Text Monad Protocol Queue BrokerTypes BrokerState Broker.
From S2P Require Import BrokerOps BrokerSnapshot RaftQuorum RaftGrant RaftCache RaftValidate.
From S2P Require Import RaftFiles RaftLog RaftNode RaftApply RaftNodeOps RaftFollower RaftLeader.
From S2P Require Import RaftConfig RaftTransfer.
From stdpp Require Import options.

(** ** Frames *)

Record InstallSnapshotFrameMeta : Type := mkInstallSnapshotFrameMeta {
  fm_auth_token : option string;
  fm_term : Z;
  fm_leader_id : string;
  fm_leader_addr : string;
  fm_last_included_index : Z;
  fm_last_included_term : Z;
  fm_payload_sha256 : string;
}.

Record InstallSnapshotFrameView : Type := mkInstallSnapshotFrameView {
  fv_meta : InstallSnapshotFrameMeta;
  fv_offset : Z;
  fv_done : bool;
  fv_data : string;
}.

Record InstallSnapshotChunkFrame : Type := mkInstallSnapshotChunkFrame {
  cf_view : InstallSnapshotFrameView;
  cf_body : bytes;
  cf_raw_len : Z;
  cf_frame_len : Z;
  cf_frame_clamped : bool;
  cf_done : bool;
}.

(** [serde_json::to_vec] of a frame, which is not part of the sources. *)
Class SnapshotFrameCodec : Type := {
  snapshot_frame_json : InstallSnapshotFrameView -> bytes;
}.

(** Its documented behaviour: a JSON string of characters that need no escape,
    such as those of base64, is written as it is, between quotes. *)
Class SnapshotFrameCodecLaws `{SC : SnapshotCodec} `{!PayloadCodec} `{FC : SnapshotFrameCodec} : Prop := {
  snapshot_frame_len meta offset done b :
    length (snapshot_frame_json (mkInstallSnapshotFrameView meta offset done (base64_encode b)))
    = (length (snapshot_frame_json (mkInstallSnapshotFrameView meta offset done EmptyString))
       + String.length (base64_encode b))%nat;
}.

(** [base64_padded_len], of a [usize]. *)
Definition base64_padded_len (raw_len : Z) : Z :=
  if bool_decide (u64_max < raw_len + 2) then u64_max else saturating_mul64 ((raw_len + 2) / 3) 4.

(** [max_base64_raw_len_for_encoded_budget] *)
Definition max_base64_raw_len_for_encoded_budget (encoded_budget : Z) : Z :=
  saturating_mul64 (encoded_budget / 4) 3.

Record InstallSnapshotFrameSizer : Type := mkInstallSnapshotFrameSizer {
  fz_offset : Z;
  fz_payload_len : Z;
  fz_empty_done_frame_len : Z;
  fz_empty_not_done_frame_len : Z;
}.

(** [InstallSnapshotFrameSizer::frame_len] *)
Definition sizer_frame_len (sizer : InstallSnapshotFrameSizer) (raw_len : Z) : Z :=
  let end_ := Z.min (saturating_add64 (fz_offset sizer) raw_len) (fz_payload_len sizer) in
  let raw_len := saturating_sub64 end_ (fz_offset sizer) in
  let fixed_len := if bool_decide (fz_payload_len sizer <= end_) then fz_empty_done_frame_len sizer
                   else fz_empty_not_done_frame_len sizer in
  saturating_add64 fixed_len (base64_padded_len raw_len).

(** [install_snapshot_largest_fitting_raw_chunk] *)
Definition install_snapshot_largest_fitting_raw_chunk (sizer : InstallSnapshotFrameSizer)
    (requested frame_budget : Z) : option (Z * Z) :=
  let frame_budget := Z.max frame_budget 1 in
  let remaining := saturating_sub64 (fz_payload_len sizer) (fz_offset sizer) in
  let requested := Z.min requested remaining in
  if bool_decide (requested = 0) then
    let frame_len := sizer_frame_len sizer 0 in
    if bool_decide (frame_len <= frame_budget) then Some (0, frame_len) else None
  else
    let requested_frame_len := sizer_frame_len sizer requested in
    if bool_decide (requested_frame_len <= frame_budget) then Some (requested, requested_frame_len)
    else
      let max_non_final_raw_len := saturating_sub64 remaining 1 in
      let candidate :=
        Z.min (Z.min (max_base64_raw_len_for_encoded_budget
                        (saturating_sub64 frame_budget (fz_empty_not_done_frame_len sizer)))
                 requested) max_non_final_raw_len in
      if bool_decide (candidate = 0) then None
      else
        let frame_len := sizer_frame_len sizer candidate in
        if bool_decide (frame_len <= frame_budget) then Some (candidate, frame_len) else None.

(** [set frame_clamped] *)
Definition clamped (frame : InstallSnapshotChunkFrame) : InstallSnapshotChunkFrame :=
  mkInstallSnapshotChunkFrame (cf_view frame) (cf_body frame) (cf_raw_len frame) (cf_frame_len frame)
    true (cf_done frame).

Definition offset_error (offset payload_len : Z) : BrokerRaftError :=
  ERpc ("InstallSnapshot offset " +:+ pretty offset +:+ " is beyond payload length "
    +:+ pretty payload_len)%string.

Section frames.
Context `{SC : SnapshotCodec} `{PC : !PayloadCodec} `{FC : SnapshotFrameCodec}.

(** [install_snapshot_empty_data_frame_len] *)
Definition install_snapshot_empty_data_frame_len (meta : InstallSnapshotFrameMeta) (offset : Z)
    (done : bool) : Z :=
  Z.of_nat (length (snapshot_frame_json (mkInstallSnapshotFrameView meta offset done EmptyString))).

(** [InstallSnapshotFrameSizer::new] *)
Definition sizer_new (meta : InstallSnapshotFrameMeta) (offset payload_len : Z)
    : InstallSnapshotFrameSizer :=
  mkInstallSnapshotFrameSizer offset payload_len
    (install_snapshot_empty_data_frame_len meta offset true)
    (install_snapshot_empty_data_frame_len meta offset false).

(** [install_snapshot_chunk_frame_with_len] *)
Definition install_snapshot_chunk_frame_with_len (meta : InstallSnapshotFrameMeta)
    (payload_bytes : bytes) (offset raw_len frame_len : Z) : RaftResult InstallSnapshotChunkFrame :=
  let payload_len := Z.of_nat (length payload_bytes) in
  if bool_decide (payload_len < offset) then RaftErr (offset_error offset payload_len)
  else
    let end_ := Z.min (saturating_add64 offset raw_len) payload_len in
    let done := bool_decide (payload_len <= end_) in
    let data := base64_encode (take (Z.to_nat (end_ - offset)) (drop (Z.to_nat offset) payload_bytes)) in
    let view := mkInstallSnapshotFrameView meta offset done data in
    let body := snapshot_frame_json view in
    if bool_decide (Z.of_nat (length body) <> frame_len) then
      RaftErr (EFrameSizeEstimateMismatch "installSnapshot" (Z.to_nat frame_len) (length body))
    else RaftOk (mkInstallSnapshotChunkFrame view body (saturating_sub64 end_ offset) frame_len false done).

(** [build_bounded_install_snapshot_rpc] *)
Definition build_bounded_install_snapshot_rpc (meta : InstallSnapshotFrameMeta) (payload_bytes : bytes)
    (offset configured_chunk_bytes max_frame_bytes : Z) : RaftResult InstallSnapshotChunkFrame :=
  let payload_len := Z.of_nat (length payload_bytes) in
  if bool_decide (payload_len < offset) then RaftErr (offset_error offset payload_len)
  else
    let frame_budget := Z.max max_frame_bytes 1 in
    let sizer := sizer_new meta offset payload_len in
    let remaining := saturating_sub64 payload_len offset in
    let requested := if bool_decide (payload_bytes = []) then 0
                     else Z.min (Z.max configured_chunk_bytes 1) remaining in
    let requested_frame_len := sizer_frame_len sizer requested in
    if bool_decide (requested_frame_len <= frame_budget) then
      install_snapshot_chunk_frame_with_len meta payload_bytes offset requested requested_frame_len
    else if bool_decide (requested = 0) then
      RaftErr (ERpc ("empty InstallSnapshot RPC frame has " +:+ pretty requested_frame_len
        +:+ " bytes, exceeding configured max frame bytes " +:+ pretty frame_budget)%string)
    else
      match install_snapshot_largest_fitting_raw_chunk sizer requested frame_budget with
      | None =>
          RaftErr (ERpc ("single-byte InstallSnapshot RPC frame has " +:+ pretty (sizer_frame_len sizer 1)
            +:+ " bytes, exceeding configured max frame bytes " +:+ pretty frame_budget)%string)
      | Some (best_raw_len, best_frame_len) =>
          frame ← install_snapshot_chunk_frame_with_len meta payload_bytes offset best_raw_len
                    best_frame_len;
          RaftOk (clamped frame)
      end.

End frames.

(** The request a follower reads from a frame. *)
Definition frame_request (view : InstallSnapshotFrameView) : InstallSnapshotFromPeer :=
  let meta := fv_meta view in
  mkInstallSnapshotFromPeer (fm_term meta) (fm_leader_id meta) (fm_leader_addr meta)
    (fm_last_included_index meta) (fm_last_included_term meta) (Some (fm_payload_sha256 meta))
    (fv_offset view) (fv_done view) (fv_data view).

(** ** The source *)

Section stream.
Context `{LQ : LinkedQueueCrate} `{E : Env} `{D : RequestDigest} `{C : RaftCodec} `{PC : !PayloadCodec}.
Context `{FC : SnapshotFrameCodec}.

Record PreparedInstallSnapshot : Type := mkPreparedInstallSnapshot {
  pi_metadata : RaftSnapshotMetadata;
  pi_payload_sha256 : string;
  pi_payload_bytes : bytes;
}.

(** [prepare_install_snapshot_source], with [latest_snapshot_payload_file]; the
    shared source turns an error into its text. *)
Definition prepare_install_snapshot_source
    : M RaftLogStore (RaftResult (option PreparedInstallSnapshot)) :=
  res ← latest_snapshot_file;
  match res with
  | RaftErr err => errR (ERpc (error_display err))
  | RaftOk None => okR None
  | RaftOk (Some snapshot) =>
      let payload_bytes := payload_to_vec (sf_payload snapshot) in
      okR (Some (mkPreparedInstallSnapshot (sf_metadata snapshot) (sha256_hex payload_bytes)
             payload_bytes))
  end.

(** [prepared_install_snapshot_matches] *)
Definition prepared_install_snapshot_matches (prepared : PreparedInstallSnapshot)
    (metadata : RaftSnapshotMetadata) (expected_checksum : string) : bool :=
  bool_decide (sm_last_included_index (pi_metadata prepared) = sm_last_included_index metadata)
  && bool_decide (sm_last_included_term (pi_metadata prepared) = sm_last_included_term metadata)
  && eq_ignore_ascii_case (pi_payload_sha256 prepared) expected_checksum.

(** [prepared_install_snapshot_is_current] *)
Definition prepared_install_snapshot_is_current (snapshot : PreparedInstallSnapshot) (n : RaftNode)
    : bool :=
  match latest_snapshot (rn_state n) with
  | None => false
  | Some metadata =>
      match sm_payload_sha256 metadata with
      | Some checksum => prepared_install_snapshot_matches snapshot metadata checksum
      | None =>
          bool_decide (sm_last_included_index (pi_metadata snapshot) = sm_last_included_index metadata)
          && bool_decide (sm_last_included_term (pi_metadata snapshot) = sm_last_included_term metadata)
      end
  end.

(** ** Progress *)

(** [replication_peer_config_gate_in_term] = [Accepted] *)
Definition replication_peer_accepted (peer : RaftPeerConfig) (term : Z) (n : RaftNode) : bool :=
  leads term n && accepts_replication_peer (rn_runtime n) peer.

(** [peer_match_index_at_least_for_peer_in_term_with_local_tail] *)
Definition peer_match_index_at_least (peer : RaftPeerConfig) (target_index term local_last_index : Z)
    (n : RaftNode) : bool :=
  replication_peer_accepted peer term n
  && match rt_leader_progress (rn_runtime n) !! peer_id peer with
     | Some progress =>
         match trusted_peer_match_index progress local_last_index with
         | Some match_index => bool_decide (target_index <= match_index)
         | None => false
         end
     | None => false
     end.

Definition target_matched (peer : RaftPeerConfig) (target_index : option Z) (term local_last_index : Z)
    (n : RaftNode) : bool :=
  match target_index with
  | Some target => peer_match_index_at_least peer target term local_last_index n
  | None => false
  end.

(** [reset_untrusted_peer_progress_for_local_tail] *)
Definition reset_untrusted_peer_progress_for_local_tail (peer : RaftPeerConfig) (term : Z)
    : M RaftNode bool :=
  n ← get;
  if negb (replication_peer_accepted peer term n) then mret false
  else
    match rt_leader_progress (rn_runtime n) !! peer_id peer with
    | None => mret false
    | Some progress =>
        if bool_decide (pp_match_index progress <= last_index (rn_state n)) then mret false
        else
          set_peer_progress (peer_id peer) (mkRaftPeerProgress
            (Z.max (retained_replication_floor_next_index (rn_state n)) 1) 0) ;;
          mret true
    end.

(** The progress after the acknowledgement of a snapshot. *)
Definition snapshot_acknowledged (acknowledged_index local_last_index fallback_next_index : Z)
    (progress : RaftPeerProgress) : RaftPeerProgress :=
  let progress := if bool_decide (local_last_index < pp_match_index progress)
                  then mkRaftPeerProgress fallback_next_index 0 else progress in
  let previous_match_index := pp_match_index progress in
  let match_index := Z.max previous_match_index acknowledged_index in
  mkRaftPeerProgress
    (if bool_decide (previous_match_index < match_index) then saturating_add64 match_index 1
     else Z.max (pp_next_index progress) (saturating_add64 match_index 1)) match_index.

(** What an answer decides: the outcome to return, or going on with whether a
    quorum member has been contacted. *)
Abbreviation Decision_ := (RaftPeerReplicationOutcome + bool)%type.

(** The branch of an acknowledged snapshot. *)
Definition on_snapshot_installed (peer : RaftPeerConfig) (target_index : option Z)
    (last_included_index : Z) (progress_changed : bool) : M RaftNode RaftPeerReplicationOutcome :=
  n ← get;
  let before := default (mkRaftPeerProgress (saturating_add64 last_included_index 1) 0)
                  (rt_leader_progress (rn_runtime n) !! peer_id peer) in
  let progress := snapshot_acknowledged last_included_index (last_index (rn_state n))
                    (Z.max (retained_replication_floor_next_index (rn_state n)) 1) before in
  set_peer_progress (peer_id peer) progress ;;
  mret (mkRaftPeerReplicationOutcome true true
          match target_index with
          | Some target => bool_decide (target <= pp_match_index progress)
          | None => true
          end (progress_changed || bool_decide (progress <> before))).

(** The answer to a chunk. *)
Definition on_install_snapshot_response (clock : Clock) (peer : RaftPeerConfig) (term : Z)
    (target_index : option Z) (last_included_index : Z) (chunk_done quorum_contacted progress_changed : bool)
    (response : RaftResult RaftRpcResponse) : M RaftNode Decision_ :=
  let return_ quorum_contacted :=
    mret (inl (mkRaftPeerReplicationOutcome true quorum_contacted false progress_changed)) in
  match response with
  | RaftOk (InstallSnapshotResponse peer_term success installed_index) =>
      if bool_decide (term < peer_term) then
        observe_higher_replication_peer_term clock peer term peer_term ;; return_ false
      else if bool_decide (peer_term < term) then return_ quorum_contacted
      else
        n ← get;
        if negb (replication_peer_accepted peer term n) then return_ quorum_contacted
        else if negb success then
          if bool_decide (last_included_index <= installed_index) then return_ quorum_contacted
          else return_ true
        else if negb chunk_done && bool_decide (last_included_index <= installed_index)
        then mret (inr quorum_contacted)
        else if bool_decide (last_included_index <= installed_index) then
          outcome ← on_snapshot_installed peer target_index last_included_index progress_changed;
          mret (inl outcome)
        else if chunk_done then return_ quorum_contacted
        else mret (inr true)
  | RaftOk (ErrorResponse peer_term _) =>
      (if bool_decide (term < peer_term)
       then observe_higher_replication_peer_term clock peer term peer_term ;; mret tt else mret tt) ;;
      return_ quorum_contacted
  | RaftOk _ | RaftErr _ => return_ quorum_contacted
  end.

(** ** The stream *)

Section link.
Context {W : Type}.

(** The connection to the peer: whether it is busy, and sending a frame, which
    answers nothing when it is busy after all. *)
Record SnapshotLink : Type := mkSnapshotLink {
  link_busy : M (RaftNode * W) bool;
  link_send : InstallSnapshotChunkFrame -> M (RaftNode * W) (RaftResult (option RaftRpcResponse));
}.

Definition on_leader {A} (m : M RaftNode A) : M (RaftNode * W) A := fun s =>
  match m s.1 with
  | Done a x => Done a (x, s.2)
  | Panicked msg => Panicked msg
  | OutOfFuel => OutOfFuel
  end.

Variable link : SnapshotLink.
Variable clock : Clock.
Variable skip_busy : bool.
Variable peer : RaftPeerConfig.
Variable term : Z.
Variable target_index : option Z.

(** The loop of [install_snapshot_to_peer_with_source_and_policy]. *)
Fixpoint install_snapshot_loop (fuel : nat) (snapshot : PreparedInstallSnapshot)
    (meta : InstallSnapshotFrameMeta) (configured_chunk_size max_frame_bytes local_tail_bound : Z)
    (contacted quorum_contacted progress_changed : bool) (offset : Z)
    : M (RaftNode * W) (RaftResult RaftPeerReplicationOutcome) :=
  match fuel with
  | O => out_of_fuel
  | S fuel =>
      let return_ contacted target_reached :=
        okR (mkRaftPeerReplicationOutcome contacted quorum_contacted target_reached progress_changed) in
      s ← get;
      if negb (replication_peer_accepted peer term s.1) then return_ contacted false
      else if target_matched peer target_index term local_tail_bound s.1 then return_ contacted true
      else if negb (prepared_install_snapshot_is_current snapshot s.1) then return_ contacted false
      else
        busy ← (if skip_busy then link_busy link else mret false);
        if busy : bool then return_ contacted false
        else
          match build_bounded_install_snapshot_rpc meta (pi_payload_bytes snapshot) offset
                  configured_chunk_size max_frame_bytes with
          | RaftErr err => errR err
          | RaftOk chunk =>
              s ← get;
              if negb (replication_peer_accepted peer term s.1) then return_ contacted false
              else
                let answered response :=
                  decision ← on_leader (on_install_snapshot_response clock peer term target_index
                    (sm_last_included_index (pi_metadata snapshot)) (cf_done chunk) quorum_contacted
                    progress_changed response);
                  match decision with
                  | inl outcome => okR outcome
                  | inr quorum_contacted =>
                      if cf_done chunk || bool_decide (pi_payload_bytes snapshot = []) then
                        okR (mkRaftPeerReplicationOutcome true quorum_contacted false progress_changed)
                      else
                        install_snapshot_loop fuel snapshot meta configured_chunk_size max_frame_bytes
                          local_tail_bound true quorum_contacted progress_changed
                          (saturating_add64 offset (cf_raw_len chunk))
                  end in
                response ← link_send link chunk;
                match response with
                | RaftOk None => return_ true false
                | RaftOk (Some response) => answered (RaftOk response)
                | RaftErr err => answered (RaftErr err)
                end
          end
  end.

(** [install_snapshot_to_peer_with_source_and_policy]; each round sends at
    least one byte, so the loop has a round for each byte. *)
Definition install_snapshot_to_peer (config : BrokerRaftConfig) (max_frame_bytes : Z)
    : M (RaftNode * W) (RaftResult RaftPeerReplicationOutcome) :=
  s ← get;
  if negb (replication_peer_accepted peer term s.1) then okR no_outcome
  else
    progress_changed ← on_leader (reset_untrusted_peer_progress_for_local_tail peer term);
    s ← get;
    let local_tail_bound := last_index (rn_state s.1) in
    if target_matched peer target_index term local_tail_bound s.1
    then okR (mkRaftPeerReplicationOutcome false false true progress_changed)
    else
      busy ← (if skip_busy then link_busy link else mret false);
      if busy : bool then okR (mkRaftPeerReplicationOutcome false false false progress_changed)
      else
        snapshot ←? on_leader (on_log prepare_install_snapshot_source);
        match snapshot with
        | None => okR (mkRaftPeerReplicationOutcome false false false progress_changed)
        | Some snapshot =>
            s ← get;
            let leader_peer := local_configured_peer (rn_config s.1) in
            let metadata := pi_metadata snapshot in
            install_snapshot_loop (S (length (pi_payload_bytes snapshot))) snapshot
              (mkInstallSnapshotFrameMeta (brc_peer_token config) term (peer_id leader_peer)
                 (peer_addr leader_peer) (sm_last_included_index metadata)
                 (sm_last_included_term metadata) (pi_payload_sha256 snapshot))
              (Z.max (brc_install_snapshot_chunk_bytes config) 1) max_frame_bytes local_tail_bound
              false false progress_changed 0
        end.

End link.
End stream.

(** * The chunks of a snapshot

    The frame [build_bounded_install_snapshot_rpc] builds carries the longest
    slice whose frame fits the limit, and its size is the one computed in
    advance. *)

(** ** Sizes *)

Lemma padded_len_exact raw_len :
  0 <= raw_len -> base64_padded_len raw_len < u64_max ->
  base64_padded_len raw_len = 4 * ((raw_len + 2) / 3).
Proof.
  intros H0. unfold base64_padded_len, saturating_mul64. case_bool_decide; lia.
Qed.

Lemma padded_len_mono a b : 0 <= a <= b -> base64_padded_len a <= base64_padded_len b.
Proof.
  intros Hab. assert ((a + 2) / 3 <= (b + 2) / 3) by (apply Z.div_le_mono; lia).
  unfold base64_padded_len, saturating_mul64. repeat case_bool_decide; try lia.
Qed.

(** The longest slice whose text fits in [budget] characters. *)
Lemma max_raw_len_spec budget raw_len :
  0 <= budget < u64_max -> 1 <= raw_len ->
  base64_padded_len raw_len <= budget <-> raw_len <= max_base64_raw_len_for_encoded_budget budget.
Proof.
  intros Hb Hr. unfold max_base64_raw_len_for_encoded_budget, saturating_mul64.
  assert (budget / 4 * 3 <= u64_max) by (pose proof (Z.mul_div_le budget 4); lia).
  rewrite Z.min_l by lia. split.
  - intros Hle. rewrite padded_len_exact in Hle by lia.
    assert ((raw_len + 2) / 3 <= budget / 4) by (apply Z.div_le_lower_bound; lia).
    pose proof (Z.mul_succ_div_gt (raw_len + 2) 3). lia.
  - intros Hle. assert ((raw_len + 2) / 3 <= budget / 4) by (apply Z.lt_succ_r, Z.div_lt_upper_bound; lia).
    pose proof (Z.mul_div_le budget 4).
    unfold base64_padded_len, saturating_mul64. case_bool_decide; lia.
Qed.

Section sizer.
Variable sizer : InstallSnapshotFrameSizer.
Abbreviation remaining := (fz_payload_len sizer - fz_offset sizer).
Hypothesis sizer_ok :
  0 <= fz_offset sizer /\ 0 < remaining /\ fz_payload_len sizer <= u64_max /\
  0 <= fz_empty_done_frame_len sizer /\ 0 <= fz_empty_not_done_frame_len sizer.

Lemma frame_len_non_final raw_len :
  0 <= raw_len < remaining ->
  sizer_frame_len sizer raw_len
  = saturating_add64 (fz_empty_not_done_frame_len sizer) (base64_padded_len raw_len).
Proof using sizer_ok.
  intros Hr. unfold sizer_frame_len, saturating_sub64, saturating_add64.
  rewrite bool_decide_eq_false_2 by lia. do 2 f_equal. f_equal. lia.
Qed.

Lemma frame_len_final raw_len :
  remaining <= raw_len ->
  sizer_frame_len sizer raw_len
  = saturating_add64 (fz_empty_done_frame_len sizer) (base64_padded_len remaining).
Proof using sizer_ok.
  intros Hr. unfold sizer_frame_len, saturating_sub64, saturating_add64.
  rewrite bool_decide_eq_true_2 by lia. do 2 f_equal. f_equal. lia.
Qed.

(** A slice that is not the last one fits exactly up to the computed length. *)
Lemma non_final_fits budget raw_len :
  1 <= budget < u64_max -> 1 <= raw_len < remaining ->
  sizer_frame_len sizer raw_len <= budget <->
  raw_len <= max_base64_raw_len_for_encoded_budget
               (saturating_sub64 budget (fz_empty_not_done_frame_len sizer)).
Proof using sizer_ok.
  intros Hb Hr. rewrite frame_len_non_final by lia. unfold saturating_sub64, saturating_add64.
  rewrite <-max_raw_len_spec by lia.
  assert (4 <= base64_padded_len raw_len).
  { transitivity (base64_padded_len 1); [by vm_compute|]. apply padded_len_mono. lia. }
  lia.
Qed.

(** The reference: the greatest length that fits, if one does. *)
Definition greatest_fitting (requested budget : Z) (result : option (Z * Z)) : Prop :=
  match result with
  | Some (raw_len, frame_len) =>
      1 <= raw_len <= requested /\ frame_len = sizer_frame_len sizer raw_len /\ frame_len <= budget /\
      forall r, raw_len < r <= requested -> budget < sizer_frame_len sizer r
  | None => forall r, 1 <= r <= requested -> budget < sizer_frame_len sizer r
  end.

Lemma largest_fitting_greatest requested budget :
  1 <= requested <= remaining -> 1 <= budget < u64_max ->
  greatest_fitting requested budget (install_snapshot_largest_fitting_raw_chunk sizer requested budget).
Proof using sizer_ok.
  intros Hreq Hb. unfold install_snapshot_largest_fitting_raw_chunk.
  replace (saturating_sub64 (fz_payload_len sizer) (fz_offset sizer)) with remaining
    by (unfold saturating_sub64; lia).
  rewrite (Z.max_l budget), (Z.min_l requested) by lia. cbv zeta.
  rewrite (bool_decide_eq_false_2 (requested = 0)) by lia.
  destruct (decide (sizer_frame_len sizer requested <= budget)) as [Hfit|Hfit].
  { rewrite bool_decide_eq_true_2 by done. simpl. split; [lia|]. split; [done|]. split; [done|lia]. }
  rewrite (bool_decide_eq_false_2 (_ <= _)) by done.
  set (most := max_base64_raw_len_for_encoded_budget _). unfold saturating_sub64.
  assert (0 <= most) as Hmost.
  { unfold most, max_base64_raw_len_for_encoded_budget, saturating_mul64, saturating_sub64.
    assert (0 <= Z.max (budget - fz_empty_not_done_frame_len sizer) 0 / 4) by (apply Z.div_pos; lia). lia. }
  assert (forall r, 1 <= r < remaining -> sizer_frame_len sizer r <= budget <-> r <= most) as Hiff.
  { intros r Hr. by apply non_final_fits. }
  set (candidate := Z.min (Z.min most requested) (Z.max (remaining - 1) 0)).
  assert (forall r, candidate < r <= requested -> budget < sizer_frame_len sizer r) as Hmax.
  { intros r Hr. apply Z.lt_nge. intros Hle. destruct (decide (r = requested)) as [->|Hne]; [done|].
    apply Hiff in Hle; lia. }
  case_bool_decide as Hc; simpl; [intros r Hr; apply Hmax; lia|].
  rewrite bool_decide_eq_true_2; simpl.
  - split; [lia|]. split; [done|]. split; [apply Hiff; lia|done].
  - apply Hiff; lia.
Qed.

End sizer.

(** ** Frames *)

Section frames.
Context `{SC : SnapshotCodec} `{PC : !PayloadCodec} `{FC : SnapshotFrameCodec}.
Context `{C : !RaftCodec} `{PL : !PayloadCodecLaws} `{FL : !SnapshotFrameCodecLaws}.

(** The bytes of the payload from [offset], [raw_len] of them. *)
Definition slice (payload : bytes) (offset raw_len : Z) : bytes :=
  take (Z.to_nat raw_len) (drop (Z.to_nat offset) payload).

Lemma slice_length payload offset raw_len :
  0 <= offset -> 0 <= raw_len -> offset + raw_len <= Z.of_nat (length payload) ->
  Z.of_nat (length (slice payload offset raw_len)) = raw_len.
Proof. intros. unfold slice. rewrite length_take, length_drop. lia. Qed.

Lemma encoded_len b :
  Z.of_nat (String.length (base64_encode b)) = 4 * ((Z.of_nat (length b) + 2) / 3).
Proof using PL.
  rewrite base64_encode_len. rewrite Nat2Z.inj_mul, Nat2Z.inj_div, Nat2Z.inj_add. done.
Qed.

(** The frame for a slice. *)
Definition slice_frame (meta : InstallSnapshotFrameMeta) (payload : bytes) (offset raw_len : Z)
    (is_clamped : bool) : InstallSnapshotChunkFrame :=
  let done := bool_decide (Z.of_nat (length payload) <= offset + raw_len) in
  let view := mkInstallSnapshotFrameView meta offset done (base64_encode (slice payload offset raw_len)) in
  mkInstallSnapshotChunkFrame view (snapshot_frame_json view) raw_len
    (Z.of_nat (length (snapshot_frame_json view))) is_clamped done.

(** The size computed in advance is the size of the frame. *)
Lemma chunk_frame_exact meta payload offset raw_len :
  0 <= offset -> 0 <= raw_len -> offset + raw_len <= Z.of_nat (length payload) <= u64_max ->
  sizer_frame_len (sizer_new meta offset (Z.of_nat (length payload))) raw_len < u64_max ->
  install_snapshot_chunk_frame_with_len meta payload offset raw_len
    (sizer_frame_len (sizer_new meta offset (Z.of_nat (length payload))) raw_len)
  = RaftOk (slice_frame meta payload offset raw_len false) /\
  cf_frame_len (slice_frame meta payload offset raw_len false)
  = sizer_frame_len (sizer_new meta offset (Z.of_nat (length payload))) raw_len.
Proof using PL FL.
  intros H0 H1 H2 Hlt. set (done := bool_decide (Z.of_nat (length payload) <= offset + raw_len)).
  assert (sizer_frame_len (sizer_new meta offset (Z.of_nat (length payload))) raw_len
    = Z.of_nat (length (snapshot_frame_json (mkInstallSnapshotFrameView meta offset done
        (base64_encode (slice payload offset raw_len)))))) as Heq.
  { rewrite snapshot_frame_len, Nat2Z.inj_add, encoded_len, slice_length by lia.
    revert Hlt. unfold sizer_frame_len, sizer_new, saturating_add64, saturating_sub64. simpl.
    rewrite (Z.min_l (offset + raw_len) u64_max), (Z.min_l (offset + raw_len)) by lia.
    replace (Z.max (offset + raw_len - offset) 0) with raw_len by lia. fold done.
    unfold install_snapshot_empty_data_frame_len. intros Hlt.
    assert (0 <= base64_padded_len raw_len) as Hp.
    { etrans; [|by apply (padded_len_mono 0)]. by vm_compute. }
    rewrite <-padded_len_exact by (destruct done; lia). destruct done; lia. }
  unfold install_snapshot_chunk_frame_with_len. rewrite bool_decide_eq_false_2 by lia. cbv zeta.
  unfold saturating_add64, saturating_sub64. rewrite (Z.min_l (offset + raw_len) u64_max), (Z.min_l (offset + raw_len)) by lia.
  replace (offset + raw_len - offset) with raw_len by lia. rewrite (Z.max_l raw_len) by lia.
  fold done. fold (slice payload offset raw_len).
  rewrite Heq. rewrite bool_decide_eq_false_2 by (intros []; done). by unfold slice_frame.
Qed.

(** What [build_bounded_install_snapshot_rpc] builds inside the payload. *)
Lemma build_bounded_largest meta payload offset chunk_bytes max_frame_bytes :
  0 <= offset < Z.of_nat (length payload) -> Z.of_nat (length payload) <= u64_max ->
  max_frame_bytes < u64_max ->
  let sizer := sizer_new meta offset (Z.of_nat (length payload)) in
  let budget := Z.max max_frame_bytes 1 in
  let requested := Z.min (Z.max chunk_bytes 1) (Z.of_nat (length payload) - offset) in
  match build_bounded_install_snapshot_rpc meta payload offset chunk_bytes max_frame_bytes with
  | RaftOk frame =>
      exists raw_len is_clamped, 1 <= raw_len <= requested /\
        frame = slice_frame meta payload offset raw_len is_clamped /\
        cf_frame_len frame = sizer_frame_len sizer raw_len /\
        Z.of_nat (length (cf_body frame)) <= budget /\
        forall r, raw_len < r <= requested -> budget < sizer_frame_len sizer r
  | RaftErr _ => forall r, 1 <= r <= requested -> budget < sizer_frame_len sizer r
  end.
Proof using PL FL.
  intros Ho Hlen Hmax sizer budget requested. pose proof u64_max_eq. unfold build_bounded_install_snapshot_rpc.
  rewrite bool_decide_eq_false_2 by lia. cbv zeta. fold sizer budget.
  rewrite (bool_decide_eq_false_2 (payload = [])) by (intros ->; simpl in *; lia).
  replace (saturating_sub64 (Z.of_nat (length payload)) offset) with (Z.of_nat (length payload) - offset)
    by (unfold saturating_sub64; lia).
  fold requested. assert (1 <= requested) as Hr by (unfold requested; lia).
  assert (forall raw_len, 1 <= raw_len <= requested -> sizer_frame_len sizer raw_len <= budget ->
    install_snapshot_chunk_frame_with_len meta payload offset raw_len (sizer_frame_len sizer raw_len)
      = RaftOk (slice_frame meta payload offset raw_len false) /\
    Z.of_nat (length (cf_body (slice_frame meta payload offset raw_len false)))
      = sizer_frame_len sizer raw_len) as Hexact.
  { intros raw_len Hraw Hfit. apply chunk_frame_exact; subst sizer; unfold requested, budget in *; lia. }
  case_bool_decide as Hfit.
  { destruct (Hexact requested) as [-> Hbody]; [lia|done|]. exists requested, false.
    split; [lia|]. split; [done|]. split; [done|]. split; [lia|]. lia. }
  rewrite (bool_decide_eq_false_2 (requested = 0)) by lia.
  assert (greatest_fitting sizer requested budget
    (install_snapshot_largest_fitting_raw_chunk sizer requested budget)) as Hg.
  { apply largest_fitting_greatest; unfold sizer, sizer_new, install_snapshot_empty_data_frame_len,
      requested, budget; simpl; lia. }
  destruct (install_snapshot_largest_fitting_raw_chunk sizer requested budget) as [[raw_len frame_len]|].
  - destruct Hg as (H1 & -> & H3 & H4).
    destruct (Hexact raw_len) as [-> Hbody]; [lia|done|]. simpl.
    exists raw_len, true. split; [lia|]. split; [done|]. split; [done|]. split; [|done].
    unfold clamped, slice_frame in *. simpl in *. lia.
  - done.
Qed.

(** C31: The leader sends as much as a frame can carry: for an offset inside the
    payload the frame built holds the slice at that offset of the greatest
    length, up to the configured chunk size and the end of the payload, whose
    frame fits the limit; its size is the one computed before serializing it,
    so the estimate never fails; it is marked as the last one exactly when it
    reaches the end; and no frame is built only when one byte does not fit. *)
Theorem snapshot_frame_is_largest meta payload offset chunk_bytes max_frame_bytes :
  0 <= offset < Z.of_nat (length payload) -> Z.of_nat (length payload) <= u64_max ->
  max_frame_bytes < u64_max ->
  let sizer := sizer_new meta offset (Z.of_nat (length payload)) in
  let budget := Z.max max_frame_bytes 1 in
  let requested := Z.min (Z.max chunk_bytes 1) (Z.of_nat (length payload) - offset) in
  match build_bounded_install_snapshot_rpc meta payload offset chunk_bytes max_frame_bytes with
  | RaftOk frame =>
      exists raw_len is_clamped, 1 <= raw_len <= requested /\
        frame = slice_frame meta payload offset raw_len is_clamped /\
        cf_frame_len frame = sizer_frame_len sizer raw_len /\
        Z.of_nat (length (cf_body frame)) <= budget /\
        forall r, raw_len < r <= requested -> budget < sizer_frame_len sizer r
  | RaftErr _ => forall r, 1 <= r <= requested -> budget < sizer_frame_len sizer r
  end.
Proof using PL FL. apply build_bounded_largest. Qed.

End frames.
