(* ===== verification/RaftStreamLive.v ===== *)
(** * Receiving a payload, step by step

    What [RaftTransfer] does with the chunks of one payload, in order, on a
    disk without faults, from the writing of a file up to the handler of the
    request: each chunk is appended and acknowledged, and the last one leads to
    the installation of the payload. *)

From S2P Require Import Prelude Text Monad Protocol Queue BrokerTypes BrokerState Broker BrokerOps.
From S2P Require Import BrokerSnapshot.
From S2P Require Import RaftQuorum RaftGrant RaftValidate RaftCache RaftFiles RaftLog RaftNode.
From S2P Require Import RaftApply RaftNodeOps RaftFollower RaftLeader RaftConfig RaftTransfer RaftStream.
From S2P Require Import RaftTransferFacts.
From stdpp Require Import options.

Section live.
Context `{LQ : LinkedQueueCrate} `{E : Env} `{D : RequestDigest} `{C : RaftCodec} `{PC : !PayloadCodec}.
Implicit Types f : TransferNode.

(** ** A disk without faults *)

Definition quiet f : Prop := d_faults (tn_disk f) = [] /\ d_frozen (tn_disk f) = false.

(** The node is not touched while the disk has no faults. *)
Definition node_kept f f' : Prop := quiet f -> tn_node f' = tn_node f.

#[local] Instance node_kept_preorder : PreOrder node_kept.
Proof.
  split; [by intros f _|]. intros f1 f2 f3 H1 H2 Hq. rewrite H2; [by apply H1|].
  unfold quiet, tn_disk in *. by rewrite H1.
Qed.

Lemma part_call_quiet effect effect_all f :
  quiet f -> part_call effect effect_all f = Done (RaftOk tt) (set_tn_parts (effect_all (tn_parts f)) f).
Proof. intros [H1 H2]. unfold part_call. by rewrite H2, H1. Qed.

Lemma part_gate_quiet f : quiet f -> part_gate f = Done (RaftOk tt) f.
Proof. intros H. unfold part_gate. rewrite part_call_quiet by done. by destruct f. Qed.

Lemma keeps_call_node effect effect_all : keeps node_kept (part_call effect effect_all).
Proof. intros f r f' H Hq. rewrite part_call_quiet in H by done. by injection H as _ <-. Qed.

Lemma returns_part_call effect effect_all : returns (part_call effect effect_all).
Proof. intros f. unfold part_call. repeat case_match; by eexists _, _. Qed.

Lemma returns_for_fold {S A B} (xs : list A) (acc : B) (body : B -> A -> M S B) :
  (forall b x, returns (body b x)) -> returns (for_fold xs acc body).
Proof.
  intros Hb. revert acc. induction xs as [|x xs IH]; intros acc; simpl; [apply returns_ret|].
  apply returns_bind; [apply Hb|]. intros b. apply IH.
Qed.

#[local] Hint Resolve keeps_call_node : keeps.
#[local] Hint Resolve returns_part_call returns_for_fold : returns.

Lemma keeps_gate_node : keeps node_kept part_gate.
Proof. apply keeps_call_node. Qed.
Lemma returns_gate : returns part_gate.
Proof. apply returns_part_call. Qed.
#[local] Hint Resolve keeps_gate_node : keeps.
#[local] Hint Resolve returns_gate : returns.

Lemma keeps_remove_node path : keeps node_kept (remove_snapshot_transfer_file path).
Proof. unfold remove_snapshot_transfer_file, remove_file, part_atomic. keeps_split. Qed.

Lemma returns_remove path : returns (remove_snapshot_transfer_file path).
Proof. unfold remove_snapshot_transfer_file, remove_file, part_atomic. returns_split. Qed.
#[local] Hint Resolve keeps_remove_node : keeps.
#[local] Hint Resolve returns_remove : returns.

Lemma keeps_cleanup_node now_ms : keeps node_kept (cleanup_stale_snapshot_transfers now_ms).
Proof.
  unfold cleanup_stale_snapshot_transfers, drop_transfers, remove_transfer_files, modify_transfers,
    should_sweep_orphaned_snapshot_part_files, cleanup_orphaned_stale_snapshot_part_files, sweep_orphan.
  keeps_split; apply keeps_modify; try apply _; by intros f Hq.
Qed.

Lemma returns_cleanup now_ms : returns (cleanup_stale_snapshot_transfers now_ms).
Proof.
  unfold cleanup_stale_snapshot_transfers, drop_transfers, remove_transfer_files, modify_transfers,
    should_sweep_orphaned_snapshot_part_files, cleanup_orphaned_stale_snapshot_part_files, sweep_orphan.
  repeat (returns_split; apply returns_for_fold; returns_split).
Qed.

Lemma set_transfers_same f : set_tn_transfers (tn_transfers f) f = f.
Proof. by destruct f. Qed.

Lemma drop_transfers_none stale f :
  (forall key p, tn_transfers f !! key = Some p -> stale p = false) ->
  drop_transfers stale f = Done 0%nat f.
Proof.
  intros Hs. unfold drop_transfers. rewrite (bind_done _ _ _ _ _ (eq_refl : get f = Done f f)). cbv zeta.
  assert (filter (transfer_is stale (tn_transfers f)) (sort_keys (map_to_list (tn_transfers f)).*1) = [])
    as ->.
  { apply filter_none. intros key _. unfold transfer_is.
    destruct (tn_transfers f !! key) as [p|] eqn:Hp; [|by intros []]. rewrite (Hs _ _ Hp). by intros []. }
  simpl. unfold modify_transfers. erewrite bind_done; [|done]. simpl. by rewrite set_transfers_same.
Qed.

(** Nothing is stale: the transfers stay, and the files of the tracked ones. *)
Lemma cleanup_quiet now_ms f :
  quiet f ->
  (forall key p, tn_transfers f !! key = Some p ->
     saturating_sub64 now_ms (pt_updated_at_ms p)
     < duration_ms_u64 (brc_install_snapshot_stale_transfer_after (tn_config f))) ->
  exists k f', cleanup_stale_snapshot_transfers now_ms f = Done k f' /\ drops f f' /\
    tn_node f' = tn_node f /\ tn_transfers f' = tn_transfers f.
Proof.
  intros Hq Hfresh. destruct (returns_cleanup now_ms f) as (k & f' & H). exists k, f'.
  split; [done|]. split; [by eapply keeps_cleanup_stale|]. split; [by eapply keeps_cleanup_node|].
  unfold cleanup_stale_snapshot_transfers in H.
  rewrite (bind_done _ _ _ _ _ (eq_refl : get f = Done f f)) in H. cbv zeta in H.
  erewrite bind_done in H; [|apply drop_transfers_none; intros key p Hp; apply bool_decide_eq_false_2;
    apply Hfresh in Hp; lia].
  assert (forall A (m : M TransferNode A), keeps (prunes (fun _ => True)) m -> forall a g g',
    m g = Done a g' -> tn_transfers g' = tn_transfers g) as Hkeep.
  { intros A m Hm a g g' Hg. by apply Hm in Hg as [_ -> _]. }
  eapply Hkeep in H; [exact H|]. clear. apply keeps_bind; [apply _|apply keeps_get, _|]. intros g.
  apply keeps_bind; [apply _| |].
  - unfold should_sweep_orphaned_snapshot_part_files. keeps_split. apply keeps_modify; [apply _|].
    intros h. constructor; simpl; auto.
  - intros []; [|apply keeps_ret, _]. apply keeps_bind; [apply _| |intros; apply keeps_ret, _].
    eapply keeps_mono; [|apply keeps_cleanup_orphans]. intros h h'. by apply prunes_mono.
Qed.

(** ** Staging without faults *)

Lemma get_bind {S B} (k : S -> M S B) s : (get ≫= k) s = k s s.
Proof. done. Qed.

(** The file a chunk is appended to holds [content]. *)
Definition holds (path : string) (content : bytes) f : Prop :=
  (tn_parts f !! path = None /\ content = []) \/
  exists m, tn_parts f !! path = Some (PartFile content m).

Lemma quiet_parts parts f : quiet f -> quiet (set_tn_parts parts f).
Proof. done. Qed.

Lemma open_quiet path content now_ms f :
  quiet f -> holds path content f ->
  exists f', open_snapshot_part_file path true now_ms f = Done (RaftOk content) f' /\ quiet f' /\
    (exists m, tn_parts f' !! path = Some (PartFile content m)) /\
    (forall x, <[path := x]> (tn_parts f') = <[path := x]> (tn_parts f)) /\
    forall parts, set_tn_parts parts f' = set_tn_parts parts f.
Proof.
  intros Hq [[Hp ->]|[m Hp]]; unfold open_snapshot_part_file, part_atomic; rewrite get_bind, Hp.
  - eexists. split; [by rewrite (bindR_ok _ _ _ _ _ (part_call_quiet _ _ _ Hq))|].
    split; [done|]. split; [eexists; apply lookup_insert_eq|]. split; [|done].
    intros x. apply insert_insert_eq.
  - exists f. split; [by rewrite (bindR_ok _ _ _ _ _ (part_gate_quiet _ Hq))|]. eauto.
Qed.

Lemma write_quiet path content request now_ms f :
  quiet f -> holds path content f ->
  write_staged_chunk path (Z.of_nat (length content)) request now_ms f
  = Done (RaftOk tt) (set_tn_parts
      (<[path := PartFile (content ++ sk_chunk request) (Some now_ms)]> (tn_parts f)) f).
Proof.
  intros Hq Hh. destruct (open_quiet path content now_ms f Hq Hh) as (f1 & H1 & Hq1 & (m & Hm) & Hi & Hs).
  unfold write_staged_chunk. rewrite (bindR_ok _ _ _ _ _ H1), (bindR_ok _ _ _ _ _ (part_gate_quiet _ Hq1)).
  rewrite bool_decide_eq_false_2 by (intros []; done).
  rewrite (bindR_ok _ _ _ _ _ (part_gate_quiet _ Hq1)).
  unfold write_part. rewrite (bindR_ok _ _ _ _ _ (part_call_quiet _ _ _ Hq1)).
  unfold append_part. rewrite Hm, Hi, Hs. destruct (sk_done request); [|done].
  by rewrite part_gate_quiet.
Qed.

(** The state after a chunk has been written. *)
Definition chunk_written (path : string) (content : bytes) (now_ms : Z) f : TransferNode :=
  set_tn_parts (<[path := PartFile content (Some now_ms)]> (tn_parts f)) f.

Lemma append_chunk_quiet key p content request now_ms f :
  quiet f -> tn_transfers f !! key = Some p -> holds (pt_path p) content f ->
  pt_bytes_written p = Z.of_nat (length content) -> sk_offset request = Z.of_nat (length content) ->
  Z.of_nat (length content + length (sk_chunk request)) <= brc_install_snapshot_max_staged_bytes (tn_config f) ->
  append_staged_chunk key request now_ms f =
  let f1 := chunk_written (pt_path p) (content ++ sk_chunk request) now_ms f in
  if sk_done request then Done (RaftOk (Some (pt_path p))) (set_tn_transfers (delete key (tn_transfers f)) f1)
  else Done (RaftOk None) (set_tn_transfers
    (alter (add_pt_bytes_written (Z.of_nat (length (sk_chunk request))) now_ms) key (tn_transfers f)) f1).
Proof.
  intros Hq Hp Hh Hbw Hoff Hmax. unfold append_staged_chunk. rewrite get_bind, Hp. cbv zeta.
  rewrite Hoff, Hbw. rewrite bool_decide_eq_false_2 by lia. simpl.
  rewrite bool_decide_eq_false_2 by (intros []; done).
  rewrite bool_decide_eq_false_2 by (unfold saturating_add64; lia).
  rewrite (bind_done _ _ _ _ _ (write_quiet _ _ request now_ms _ Hq Hh)).
  by destruct (sk_done request).
Qed.

(** ** Receiving a payload *)

Section receive.
Variable config : BrokerRaftConfig.
Variable node : RaftNode.
Variable clock : Clock.
Variables (term : Z) (leader_id leader_addr : string).
Variables (index index_term : Z) (checksum : string) (payload : bytes).
Abbreviation now_ms := (ck_unix_ms clock).
Abbreviation key := (snapshot_transfer_key leader_id index index_term checksum).
Abbreviation path := (snapshot_transfer_path key).
Abbreviation len := (length payload).

(** The follower has room for the payload, a sequence of bytes, and a transfer
    is not stale at once. *)
Record room : Prop := mkRoom {
  rm_disk : d_faults (ls_disk (rn_log node)) = [] /\ d_frozen (ls_disk (rn_log node)) = false;
  rm_octets : Forall (fun x => 0 <= x < 256) payload;
  rm_bytes : Z.of_nat len <= brc_install_snapshot_max_staged_bytes config;
  rm_u64 : Z.of_nat len <= u64_max;
  rm_transfers : 1 <= brc_install_snapshot_max_staged_transfers config;
  rm_stale : 0 < duration_ms_u64 (brc_install_snapshot_stale_transfer_after config);
}.
Hypothesis has_room : room.

(** The first [k] bytes have been received. *)
Record receiving (k : nat) f : Prop := mkReceiving {
  rc_node : tn_node f = node;
  rc_config : tn_config f = config;
  rc_first : k = 0%nat -> tn_transfers f = ∅ /\ tn_parts f !! path = None;
  rc_next : k <> 0%nat -> exists p m, tn_transfers f = {[ key := p ]} /\
    transfer_core p = (path, Z.of_nat k) /\ pt_updated_at_ms p = now_ms /\
    tn_parts f !! path = Some (PartFile (take k payload) m);
}.

Lemma receiving_quiet k f : receiving k f -> quiet f.
Proof using has_room. intros [H _ _ _]. unfold quiet, tn_disk. rewrite H. apply has_room. Qed.

Lemma receiving_distinct k f : receiving k f -> paths_distinct f.
Proof.
  intros [_ _ H0 H1] k1 k2 p1 p2. destruct (decide (k = 0%nat)) as [->|Hk].
  - destruct (H0 eq_refl) as [-> _]. by rewrite lookup_empty.
  - destruct (H1 Hk) as (p & m & -> & _). rewrite !lookup_singleton_Some. by intros [<- _] [<- _].
Qed.

Lemma receiving_drops k f f' :
  receiving k f -> drops f f' -> tn_node f' = tn_node f -> tn_transfers f' = tn_transfers f ->
  receiving k f'.
Proof.
  intros Hr Hd Hn Ht. pose proof (receiving_distinct k f Hr) as Hdist. destruct Hr as [R1 R2 R3 R4].
  constructor; [by rewrite Hn|by rewrite (dr_config _ _ Hd)| |]; rewrite Ht.
  - intros Hk. destruct (R3 Hk) as [H1 H2]. split; [done|]. destruct (dr_parts _ _ Hd path); congruence.
  - intros Hk. destruct (R4 Hk) as (p & m & H1 & H2 & H3 & H4). exists p, m. split; [done|].
    split; [done|]. split; [done|]. injection H2 as H2 _. rewrite <-H2, <-H4, <-H2.
    apply (dr_kept _ _ Hd Hdist key). rewrite Ht, H1. apply lookup_singleton_eq.
Qed.

Lemma receiving_cleanup k f :
  receiving k f -> exists r f', cleanup_stale_snapshot_transfers now_ms f = Done r f' /\ receiving k f'.
Proof using has_room.
  intros Hr. destruct (cleanup_quiet now_ms f) as (r & f' & H & Hd & Hn & Ht).
  - by eapply receiving_quiet.
  - destruct Hr as [R1 R2 R3 R4]. rewrite R2. intros key' p. destruct (decide (k = 0%nat)) as [->|Hk].
    + destruct (R3 eq_refl) as [-> _]. by rewrite lookup_empty.
    + destruct (R4 Hk) as (q & m & -> & _ & Hq & _). rewrite lookup_singleton_Some. intros [_ <-].
      rewrite Hq. unfold saturating_sub64. pose proof (rm_stale has_room). lia.
  - exists r, f'. split; [done|]. by eapply receiving_drops.
Qed.

(** A chunk of the payload after its first [k] bytes. *)
Definition next_chunk (k : nat) (chunk : bytes) : SnapshotChunkFromLeader :=
  mkSnapshotChunkFromLeader leader_id index index_term checksum (Z.of_nat k)
    (bool_decide (k + length chunk = len)%nat) chunk.

Definition is_next (k : nat) (chunk : bytes) : Prop :=
  chunk <> [] /\ (k + length chunk <= len)%nat /\ chunk = take (length chunk) (drop k payload).

(** After the chunk: the transfer goes on, or is complete. *)
Definition after_next (k : nat) (chunk : bytes) f : Prop :=
  if bool_decide (k + length chunk = len)%nat then
    tn_node f = node /\ tn_config f = config /\ tn_transfers f = ∅ /\
    exists m, tn_parts f !! path = Some (PartFile payload m)
  else receiving (k + length chunk) f.

Lemma append_receiving k chunk p m f :
  is_next k chunk -> tn_node f = node -> tn_config f = config ->
  tn_transfers f = {[ key := p ]} -> transfer_core p = (path, Z.of_nat k) ->
  holds path (take k payload) f -> (m = now_ms) ->
  exists f', append_staged_chunk key (next_chunk k chunk) m f
      = Done (RaftOk (if bool_decide (k + length chunk = len)%nat then Some path else None)) f' /\
    after_next k chunk f'.
Proof using has_room.
  intros (H1 & H2 & H3) Hn Hc Ht Hcore Hh ->. injection Hcore as Hpath Hbw.
  assert (length (take k payload) = k) as Hlen by (rewrite length_take; lia).
  pose proof (rm_bytes has_room). pose proof (rm_u64 has_room).
  assert (take k payload ++ chunk = take (k + length chunk) payload) as Happ.
  { rewrite H3 at 1. by rewrite take_take_drop. }
  rewrite (append_chunk_quiet key p (take k payload)); simpl.
  - rewrite Hpath, Ht, Happ. unfold after_next. case_bool_decide as Hdone.
    + eexists. split; [done|]. simpl. rewrite delete_singleton_eq, Hdone, firstn_all.
      split; [done|]. split; [done|]. split; [done|]. eexists. apply lookup_insert_eq.
    + eexists. split; [done|]. constructor; simpl; [done|done| |].
      * destruct chunk; simpl in *; [done|lia].
      * intros _. eexists _, _. split; [by rewrite alter_singleton_eq|]. unfold transfer_core. simpl.
        split; [|split; [done|apply lookup_insert_eq]].
        rewrite Hpath, Hbw. unfold saturating_add64. f_equal. lia.
  - unfold quiet, tn_disk. rewrite Hn. apply has_room.
  - by rewrite Ht, lookup_singleton_eq.
  - by rewrite Hpath.
  - by rewrite Hbw, Hlen.
  - by rewrite Hlen.
  - rewrite Hc, Hlen. lia.
Qed.

Lemma remove_absent name f :
  tn_parts f !! name = None -> remove_snapshot_transfer_file name f = Done false f.
Proof.
  intros H. unfold remove_snapshot_transfer_file, remove_file.
  rewrite (bind_done _ _ _ (RaftOk false) f); [done|]. by rewrite get_bind, H.
Qed.

Lemma start_receiving request f :
  receiving 0 f ->
  exists p, start_transfer key request now_ms f = Done (RaftOk tt) (set_tn_transfers {[ key := p ]} f) /\
    transfer_core p = (path, 0).
Proof using has_room.
  intros [R1 R2 R3 _]. destruct (R3 eq_refl) as [Ht Hp]. eexists.
  unfold start_transfer. rewrite get_bind, Ht, lookup_empty.
  erewrite bind_done; [|by erewrite bind_done; [|by apply remove_absent]].
  rewrite get_bind, Ht, lookup_empty, map_size_empty, R2. pose proof (rm_transfers has_room).
  rewrite bool_decide_eq_true_2 by done. rewrite bool_decide_eq_false_2 by lia. simpl.
  unfold modify_transfers. erewrite bind_done; [|done]. rewrite Ht.
  by rewrite insert_empty.
Qed.

Lemma stage_receiving k chunk f :
  is_next k chunk -> receiving k f ->
  exists f', stage_snapshot_chunk now_ms (next_chunk k chunk) f
      = Done (RaftOk (if bool_decide (k + length chunk = len)%nat then Some path else None)) f' /\
    after_next k chunk f'.
Proof using has_room.
  intros Hnext Hr. destruct (receiving_cleanup k f Hr) as (r & f1 & H1 & Hr1).
  unfold stage_snapshot_chunk. rewrite (bind_done _ _ _ _ _ H1), get_bind. simpl. clear H1 Hr f.
  destruct (decide (k = 0%nat)) as [->|Hk].
  - destruct (start_receiving (next_chunk 0 chunk) f1 Hr1) as (p & Hstart & Hcore).
    destruct Hr1 as [R1 R2 R3 _]. destruct (R3 eq_refl) as [Ht Hp].
    rewrite bool_decide_eq_true_2, Ht, lookup_empty by done. rewrite (bindR_ok _ _ _ _ _ Hstart).
    eapply append_receiving; [done..|by left|done].
  - destruct Hr1 as [R1 R2 _ R4]. destruct (R4 Hk) as (p & m & Ht & Hcore & _ & Hp).
    rewrite bool_decide_eq_false_2 by lia.
    eapply append_receiving; [done..| |done]. right. by exists m.
Qed.

(** ** The chunk's request *)

Definition next_request (k : nat) (chunk : bytes) (sum : string) : InstallSnapshotFromPeer :=
  mkInstallSnapshotFromPeer term leader_id leader_addr index index_term (Some sum) (Z.of_nat k)
    (bool_decide (k + length chunk = len)%nat) (base64_encode chunk).

Lemma admit_receiving k chunk sum f :
  k = 0%nat -> receiving k f ->
  exists f', admit_transfer now_ms (next_request k chunk sum) checksum f = Done None f' /\ receiving k f'.
Proof using has_room.
  intros -> Hr. destruct (receiving_cleanup 0 f Hr) as (r & f1 & H1 & Hr1). exists f1. split; [|done].
  pose proof (rm_transfers has_room).
  unfold admit_transfer. rewrite (bind_done _ _ _ _ _ H1). destruct Hr1 as [R1 R2 R3 _].
  destruct (R3 eq_refl) as [Ht Hp].
  unfold discard_superseded_snapshot_transfers_from_leader. erewrite bind_done; [|apply drop_transfers_none].
  - rewrite get_bind. simpl. rewrite Ht, lookup_empty, map_size_empty, R2.
    by rewrite bool_decide_eq_false_2 by lia.
  - rewrite Ht. intros key' p. by rewrite lookup_empty.
Qed.

(** The installation of a complete file. *)
Lemma install_receiving sum cur k chunk value f :
  sum = checksum -> eq_ignore_ascii_case (sha256_hex payload) checksum = true ->
  payload_of_slice payload = RaftOk value ->
  tn_node f = node -> (exists m, tn_parts f !! path = Some (PartFile payload m)) ->
  install_staged_payload clock (next_request k chunk sum) checksum cur path f
  = on_node (install_verified_snapshot clock term leader_id leader_addr index index_term checksum value cur)
      (set_tn_parts (delete path (tn_parts f)) f).
Proof using has_room.
  intros -> Hsum Hval Hn [m Hm]. assert (quiet f) as Hq.
  { unfold quiet, tn_disk. rewrite Hn. apply has_room. }
  unfold install_staged_payload, read_verified_snapshot_payload_file, read_snapshot_part_file,
    open_snapshot_part_file. erewrite bind_done; last first.
  { erewrite bindR_ok; last first.
    { erewrite bindR_ok; [by rewrite (bindR_ok _ _ _ _ _ (part_gate_quiet _ Hq))|].
      rewrite get_bind, Hm. by rewrite (bindR_ok _ _ _ _ _ (part_gate_quiet _ Hq)). }
    cbv zeta. rewrite Hsum. by rewrite Hval. }
  rewrite (bind_done _ _ _ true (set_tn_parts (delete path (tn_parts f)) f)); [done|].
  unfold remove_snapshot_transfer_file, remove_file, part_atomic.
  rewrite (bind_done _ _ _ (RaftOk true) (set_tn_parts (delete path (tn_parts f)) f)); last first.
  { rewrite get_bind, Hm. by rewrite (bindR_ok _ _ _ _ _ (part_call_quiet _ _ _ Hq)). }
  by rewrite (bind_done _ _ _ _ _ (part_gate_quiet _ (quiet_parts _ _ Hq))).
Qed.

(** What a chunk of a newer snapshot leads to: the next state and an
    acknowledgement, or the installation of the payload. *)
Definition received (cur : Z) (value : Value) (k : nat) (chunk : bytes)
    (outcome : Res TransferNode RaftRpcResponse) : Prop :=
  if bool_decide (k + length chunk = len)%nat then
    exists f', outcome = on_node (install_verified_snapshot clock term leader_id leader_addr index
                           index_term checksum value cur) f' /\
      tn_node f' = node /\ tn_transfers f' = ∅ /\ tn_parts f' !! path = None
  else
    exists f', outcome = Done (InstallSnapshotResponse (rt_current_term (rn_runtime node)) true cur) f' /\
      receiving (k + length chunk) f'.

Lemma receive_receiving cur k chunk value f :
  eq_ignore_ascii_case (sha256_hex payload) checksum = true ->
  payload_of_slice payload = RaftOk value -> is_next k chunk -> receiving k f ->
  received cur value k chunk
    (receive_snapshot_chunk clock (next_request k chunk checksum) checksum cur chunk f).
Proof using has_room.
  intros Hsum Hval Hnext Hr. pose proof (rm_bytes has_room). pose proof (rm_u64 has_room).
  assert (k + length chunk <= len)%nat as Hle by apply Hnext.
  assert (exists f1, (if bool_decide (Z.of_nat k = 0)
      then admit_transfer now_ms (next_request k chunk checksum) checksum else mret None) f = Done None f1 /\
    receiving k f1) as (f1 & Hadmit & Hr1).
  { case_bool_decide; [apply admit_receiving; [lia|done]|by exists f]. }
  unfold receive_snapshot_chunk. rewrite get_bind. simpl. rewrite (rc_config _ _ Hr).
  rewrite bool_decide_eq_false_2 by (unfold saturating_add64; lia).
  rewrite (bind_done _ _ _ _ _ Hadmit). clear Hadmit Hr f.
  destruct (stage_receiving k chunk f1 Hnext Hr1) as (f2 & H2 & Ha).
  rewrite (bind_done _ _ _ _ _ H2). unfold received, after_next in *. case_bool_decide.
  - destruct Ha as (Hn & _ & Ht & Hp). eexists. split; [by apply install_receiving|]. simpl.
    split; [done|]. split; [done|]. apply lookup_delete_eq.
  - exists f2. split; [|done]. rewrite get_bind. unfold tn_term. by rewrite (rc_node _ _ Ha).
Qed.

(** ** The follower *)

(** The follower follows the leader in its term, has applied what it knows to
    be committed, and its snapshot is older. *)
Record attached (n : RaftNode) : Prop := mkAttached {
  at_follows : follows "snapshot leader" term leader_id leader_addr n = true;
  at_voter : local_seen_voter_is_removed n = false;
  at_commit : hs_commit_index (hard_state (rn_state n)) <= rn_commit_index n <= rn_last_applied n;
  at_snapshot s : latest_snapshot (rn_state n) = Some s ->
    sm_last_included_index s <= rn_last_applied n /\ sm_last_included_index s < index;
}.

(** It has heard from the leader. *)
Definition heard (n : RaftNode) : RaftNode :=
  set_rn_runtime (set_rt_election_deadline (next_election_deadline (rn_config n) clock) (rn_runtime n)) n.

Lemma attached_heard n : attached n -> attached (heard n).
Proof. by intros [H1 H2 H3 H4]. Qed.

Lemma attached_inv n : attached n ->
  rt_current_term (rn_runtime n) = term /\ rt_role (rn_runtime n) = Follower /\
  rt_leader_id (rn_runtime n) = Some leader_id /\
  active_peer_sender_rejection_error "snapshot leader" leader_id leader_addr n = None.
Proof.
  intros [H _ _ _]. unfold follows in H. rewrite !andb_true_iff, !bool_decide_eq_true in H.
  destruct H as [[[? ?] ?] ?]. by destruct (active_peer_sender_rejection_error _ _ _ _).
Qed.

Lemma apply_visible_attached n : attached n -> apply_visible_durable_commit_index clock n = Done (RaftOk tt) n.
Proof.
  intros [_ _ H3 H4]. unfold apply_visible_durable_commit_index. rewrite get_bind.
  case_bool_decide; [done|].
  assert (match latest_snapshot (rn_state n) with
    | Some snapshot => bool_decide (sm_last_included_index snapshot <= hs_commit_index (hard_state (rn_state n)))
        && bool_decide (rn_last_applied n < sm_last_included_index snapshot) = false
    | None => True end) as Hs.
  { destruct (latest_snapshot (rn_state n)) as [s|]; [|done]. destruct (H4 s eq_refl).
    rewrite (bool_decide_eq_false_2 (rn_last_applied n < _)) by lia. apply andb_false_r. }
  rewrite (bindR_ok _ _ _ tt n).
  2: { destruct (latest_snapshot (rn_state n)); [by rewrite Hs|done]. }
  rewrite (bind_done _ _ _ tt n).
  - rewrite get_bind. by rewrite bool_decide_eq_false_2 by lia.
  - unfold modify_runtime, modify. simpl. f_equal. destruct n as [? ? ? ? r ?]. unfold set_rn_runtime, rn_commit_index in *.
    simpl in *. f_equal. rewrite Z.max_l by lia. by destruct r.
Qed.

Lemma precheck_attached n :
  attached n -> precheck_install_snapshot_sender term leader_id leader_addr n = Done None n.
Proof.
  intros Ha. pose proof (at_voter _ Ha) as Hv. apply attached_inv in Ha as (H1 & H2 & H3 & H4).
  unfold precheck_install_snapshot_sender. rewrite get_bind, Hv, H4, H1. unfold other_leader_known.
  rewrite H3. rewrite (bool_decide_eq_false_2 (term < term)) by lia.
  by rewrite !bool_decide_eq_true_2 by done.
Qed.

Lemma accept_attached n :
  attached n ->
  accept_validated_install_snapshot_sender clock term leader_id leader_addr n = Done None (heard n).
Proof.
  intros Ha. pose proof (at_voter _ Ha) as Hv. apply attached_inv in Ha as (H1 & H2 & H3 & H4).
  unfold accept_validated_install_snapshot_sender. rewrite get_bind, Hv, H4, H1.
  rewrite bool_decide_eq_false_2 by lia. rewrite (bind_done _ _ _ (RaftOk tt) n).
  2: { unfold enter_leader_term. rewrite get_bind, H1. by rewrite bool_decide_eq_false_2 by lia. }
  rewrite get_bind. unfold other_leader_known. rewrite H3. rewrite bool_decide_eq_true_2 by done. simpl.
  unfold modify_runtime, modify, heard. rewrite (bind_done _ _ _ tt (heard n)); [done|].
  unfold heard, set_rt_election_deadline, set_rt_leader_id, set_rt_role. simpl. by rewrite H2, H3.
Qed.

(** The follower between two chunks. *)
Record awaiting (k : nat) f : Prop := mkAwaiting {
  aw_attached : attached (tn_node f);
  aw_heard : heard (tn_node f) = node;
  aw_receiving : receiving k (set_tn_node node f);
}.

Lemma on_node_done {A} (m : M RaftNode A) f a n' :
  m (tn_node f) = Done a n' -> on_node m f = Done a (set_tn_node n' f).
Proof. intros H. unfold on_node. by rewrite H. Qed.

Lemma set_node_same f : set_tn_node (tn_node f) f = f.
Proof. by destruct f. Qed.

Lemma accept_awaiting k chunk f :
  awaiting k f ->
  accept_install_snapshot_sender clock (next_request k chunk checksum) f = Done None (set_tn_node node f).
Proof.
  intros [Ha Hh _]. unfold accept_install_snapshot_sender. rewrite get_bind. simpl.
  destruct (attached_inv _ Ha) as (H1 & _ & H3 & _).
  rewrite (bind_done _ _ _ None (set_tn_node node f)).
  - rewrite bool_decide_eq_false_2 by lia. rewrite bool_decide_eq_false_2 by (intros []; done). done.
  - apply on_node_done. rewrite <-Hh. by apply accept_attached.
Qed.

Hypothesis header_ok :
  1 <= index_term <= term /\ 1 <= index /\ sha256_hex_format_is_valid checksum = true /\
  to_ascii_lowercase checksum = checksum.
Context `{PL : !PayloadCodecLaws}.

Lemma handle_awaiting k chunk value f :
  eq_ignore_ascii_case (sha256_hex payload) checksum = true ->
  payload_of_slice payload = RaftOk value -> is_next k chunk ->
  Z.of_nat (length chunk) <= brc_install_snapshot_chunk_bytes config -> awaiting k f ->
  received (snapshot_index_of (rn_state node)) value k chunk
    (handle_install_snapshot_from_peer clock (next_request k chunk checksum) f).
Proof using has_room header_ok PL.
  intros Hsum Hval Hnext Hlimit Haw. destruct header_ok as (Ht & Hi & Hfmt & Hlow).
  assert (awaiting k f) as [Ha Hh Hr] by done.
  unfold handle_install_snapshot_from_peer, malformed_install_snapshot_request_reason. simpl.
  rewrite !(bool_decide_eq_false_2 (_ = 0)) by lia. rewrite bool_decide_eq_false_2 by lia.
  rewrite Hfmt, Hlow.
  rewrite (bind_done _ _ _ (RaftOk tt) f).
  2: { erewrite on_node_done by (by apply apply_visible_attached). by rewrite set_node_same. }
  rewrite (bind_done _ _ _ None f).
  2: { erewrite on_node_done by (by apply precheck_attached). by rewrite set_node_same. }
  rewrite base64_roundtrip.
  2: { destruct Hnext as (_ & _ & ->). by apply Forall_take, Forall_drop, (rm_octets has_room). }
  unfold handle_snapshot_chunk. rewrite get_bind.
  rewrite bool_decide_eq_false_2 by apply Hnext.
  rewrite bool_decide_eq_false_2 by (rewrite (rc_config _ _ Hr : tn_config f = config); lia).
  rewrite (bind_done _ _ _ _ _ (accept_awaiting k chunk f Haw)), get_bind. simpl.
  unfold snapshot_index_of. assert (attached node) as Hn by (rewrite <-Hh; by apply attached_heard).
  destruct (latest_snapshot (rn_state node)) as [s|] eqn:Hs; simpl; [|by apply receive_receiving].
  apply (at_snapshot _ Hn) in Hs as [_ Hs]. rewrite bool_decide_eq_false_2 by lia.
  by apply receive_receiving.
Qed.

Lemma receiving_awaiting k f : attached node -> heard node = node -> receiving k f -> awaiting k f.
Proof.
  intros Hn Hh Hr. assert (tn_node f = node) as Hf by apply Hr. constructor; rewrite ?Hf; [done..|].
  by rewrite <-Hf, set_node_same.
Qed.

Lemma heard_heard n : heard (heard n) = heard n.
Proof. done. Qed.

End receive.

End live.
