(* ===== verification/RaftStreamRun.v ===== *)
(** * A snapshot reaches a follower

    The sender of [RaftStream] connected to the receiver of [RaftTransfer]: a
    leader that streams its snapshot to a follower that follows it and has room
    for it gets it installed, with at most one round for each byte. *)

From S2P Require Import Prelude Text Monad Protocol Queue BrokerTypes BrokerState Broker BrokerOps.
From S2P Require Import BrokerSnapshot.
From S2P Require Import RaftQuorum RaftGrant RaftValidate RaftCache RaftFiles RaftLog RaftNode.
From S2P Require Import RaftApply RaftNodeOps RaftFollower RaftLeader RaftConfig RaftTransfer RaftStream.
From S2P Require Import RaftLogSnapshot RaftTransferFacts RaftStreamLive.
From stdpp Require Import options.

(** ** Checksums *)

Lemma hex_char_ok digit :
  0 <= digit < 16 ->
  is_ascii_hexdigit (byte_of (hex_char digit)) = true /\
  Ascii.ascii_of_N (Z.to_N (ascii_lower (byte_of (hex_char digit)))) = hex_char digit.
Proof.
  intros H. assert (digit ∈ seqZ 0 16) as Hin by (apply elem_of_seqZ; lia).
  assert (Forall (fun d => is_ascii_hexdigit (byte_of (hex_char d)) = true /\
    Ascii.ascii_of_N (Z.to_N (ascii_lower (byte_of (hex_char d)))) = hex_char d) (seqZ 0 16)) as Hall.
  { repeat constructor. }
  by rewrite Forall_forall in Hall; apply Hall.
Qed.

Lemma hex_digits byte : 0 <= byte < 256 -> 0 <= Z.shiftr byte 4 < 16 /\ 0 <= Z.land byte 15 < 16.
Proof.
  intros H. rewrite Z.shiftr_div_pow2 by lia. change 15 with (Z.ones 4). rewrite Z.land_ones by lia.
  change (2 ^ 4) with 16. split; [|apply Z.mod_pos_bound; lia].
  split; [apply Z.div_pos; lia|apply Z.div_lt_upper_bound; lia].
Qed.

Lemma hex_encode_ok b :
  Forall (fun x => 0 <= x < 256) b ->
  String.length (hex_encode b) = (2 * length b)%nat /\
  forallb is_ascii_hexdigit (bytes_of (hex_encode b)) = true /\
  to_ascii_lowercase (hex_encode b) = hex_encode b.
Proof.
  induction 1 as [|x b Hx _ (H1 & H2 & H3)]; [done|]. apply hex_digits in Hx as [Ha Hb].
  apply hex_char_ok in Ha as [A1 A2]. apply hex_char_ok in Hb as [B1 B2]. unfold byte_of in *.
  simpl. rewrite H1, A2, B2, H3. split; [lia|]. split; [|done].
  unfold bytes_of in *. simpl. by rewrite A1, B1, H2.
Qed.

(** ** The connection *)

Section run.
Context `{LQ : LinkedQueueCrate} `{E : Env} `{D : RequestDigest} `{C : RaftCodec} `{PC : !PayloadCodec}.
Context `{FC : SnapshotFrameCodec} `{PL : !PayloadCodecLaws} `{FL : !SnapshotFrameCodecLaws}.

Lemma sha256_hex_ok b :
  sha256_hex_format_is_valid (sha256_hex b) = true /\ to_ascii_lowercase (sha256_hex b) = sha256_hex b.
Proof using PL.
  destruct (hex_encode_ok (sha256_digest b) (sha256_digest_bytes b)) as (H1 & H2 & H3).
  unfold sha256_hex_format_is_valid, sha256_hex. rewrite H2, H3. split; [|done].
  by rewrite H1, sha256_digest_len.
Qed.

(** A connection on which each frame is handled and answered; nothing else
    happens meanwhile. *)
Definition direct_link (clock : Clock) : SnapshotLink (W := TransferNode) :=
  mkSnapshotLink (mret false) (fun frame s =>
    match handle_install_snapshot_from_peer clock (frame_request (cf_view frame)) s.2 with
    | Done response f => Done (RaftOk (Some response)) (s.1, f)
    | Panicked msg => Panicked msg
    | OutOfFuel => OutOfFuel
    end).

Variable clock : Clock.
Variable skip_busy : bool.
Variable peer : RaftPeerConfig.
Variable term : Z.
Variable target_index : option Z.
Variable leader : RaftNode.
Variable snapshot : PreparedInstallSnapshot.
Variable meta : InstallSnapshotFrameMeta.
Variables chunk_size max_frame_bytes bound : Z.
Variables (config : BrokerRaftConfig) (start installed : RaftNode) (value : Value) (acknowledged : Z).
Abbreviation node := (heard clock start).
Abbreviation payload := (pi_payload_bytes snapshot).
Abbreviation len := (Z.of_nat (length payload)).
Abbreviation index := (sm_last_included_index (pi_metadata snapshot)).
Abbreviation index_term := (sm_last_included_term (pi_metadata snapshot)).
Abbreviation key := (snapshot_transfer_key (fm_leader_id meta) index index_term (sha256_hex payload)).

(** Each byte of the payload can be sent. *)
Definition frames_fit : Prop := forall offset, 0 <= offset < len ->
  sizer_frame_len (sizer_new meta offset len) 1 <= Z.max max_frame_bytes 1.

(** The leader goes on sending. *)
Record sending : Prop := mkSending {
  sd_accepted : replication_peer_accepted peer term leader = true;
  sd_behind : target_matched peer target_index term bound leader = false;
  sd_current : prepared_install_snapshot_is_current snapshot leader = true;
  sd_term : 1 <= index_term <= term;
  sd_index : 1 <= index;
  sd_meta : fm_term meta = term /\ fm_last_included_index meta = index /\
    fm_last_included_term meta = index_term /\ fm_payload_sha256 meta = sha256_hex payload;
  sd_frames : frames_fit;
  sd_frame_limit : max_frame_bytes < u64_max;
  sd_chunk_size : 1 <= chunk_size <= brc_install_snapshot_chunk_bytes config;
}.
Hypothesis is_sending : sending.

Abbreviation follower_attached := (attached term (fm_leader_id meta) (fm_leader_addr meta) index).
Abbreviation follower_awaiting := (awaiting config node clock term (fm_leader_id meta) (fm_leader_addr meta)
  index index_term (sha256_hex payload) payload).

(** The follower takes the payload. *)
Record taking : Prop := mkTaking {
  tk_room : room config start payload;
  tk_attached : follower_attached start;
  tk_value : payload_of_slice payload = RaftOk value;
  tk_installs : install_verified_snapshot clock term (fm_leader_id meta) (fm_leader_addr meta) index index_term
      (sha256_hex payload) value (snapshot_index_of (rn_state node)) node
    = Done (InstallSnapshotResponse term true acknowledged) installed;
  tk_acknowledged : index <= acknowledged;
}.
Hypothesis is_taking : taking.

Lemma node_room : room config node payload.
Proof using is_taking. by destruct (tk_room is_taking). Qed.

(** The bytes sent at [k], with the request the follower reads. *)
Lemma frame_at k :
  (k < length payload)%nat ->
  exists chunk frame, build_bounded_install_snapshot_rpc meta payload (Z.of_nat k) chunk_size max_frame_bytes
      = RaftOk frame /\
    is_next payload k chunk /\ Z.of_nat (length chunk) <= brc_install_snapshot_chunk_bytes config /\
    frame_request (cf_view frame)
    = next_request term (fm_leader_id meta) (fm_leader_addr meta) index index_term payload k chunk
        (sha256_hex payload) /\
    cf_raw_len frame = Z.of_nat (length chunk) /\
    cf_done frame = bool_decide (k + length chunk = length payload)%nat.
Proof using PL FL is_sending is_taking.
  intros Hk. destruct is_sending as [_ _ _ _ _ (M1 & M2 & M3 & M4) Hfit Hlim Hcs].
  pose proof (rm_u64 _ _ _ (tk_room is_taking)) as Hu64.
  pose proof (build_bounded_largest meta payload (Z.of_nat k) chunk_size max_frame_bytes) as Hb.
  specialize (Hb ltac:(lia) Hu64 Hlim). cbv zeta in Hb.
  destruct (build_bounded_install_snapshot_rpc _ _ _ _ _) as [frame|err].
  - destruct Hb as (raw_len & is_clamped & Hr & -> & _). exists (slice payload (Z.of_nat k) raw_len). eexists.
    split; [done|].
    assert (Z.of_nat (length (slice payload (Z.of_nat k) raw_len)) = raw_len) as Hlen
      by (apply slice_length; lia).
    unfold is_next, next_request, frame_request, slice_frame. simpl. rewrite M1, M2, M3, M4.
    split; [|split; [lia|split; [|split; [done|]]]].
    + split; [intros He; rewrite He in Hlen; simpl in Hlen; lia|]. split; [lia|].
      replace (length (slice payload (Z.of_nat k) raw_len)) with (Z.to_nat raw_len) by lia.
      unfold slice. by rewrite Nat2Z.id.
    + f_equal. apply bool_decide_ext. lia.
    + apply bool_decide_ext. lia.
  - specialize (Hb 1 ltac:(lia)). pose proof (Hfit (Z.of_nat k) ltac:(lia)). lia.
Qed.

(** What the stream ends with. *)
Definition streamed (progress_changed : bool)
    (outcome : Res (RaftNode * TransferNode) (RaftResult RaftPeerReplicationOutcome)) : Prop :=
  exists result leader' f',
    outcome = Done (RaftOk result) (leader', f') /\
    on_snapshot_installed peer target_index index progress_changed leader = Done result leader' /\
    tn_node f' = installed /\ tn_transfers f' = ∅ /\ tn_parts f' !! snapshot_transfer_path key = None.

Lemma snapshot_installed_run progress_changed l :
  exists result l', on_snapshot_installed peer target_index index progress_changed l = Done result l' /\
    po_contacted result = true /\ po_quorum_contacted result = true /\
    (forall target, target_index = Some target -> target <= index -> po_target_reached result = true) /\
    exists progress, rt_leader_progress (rn_runtime l') !! peer_id peer = Some progress /\
      index <= pp_match_index progress.
Proof.
  unfold on_snapshot_installed. rewrite get_bind. eexists _, _.
  split; [by unfold set_peer_progress, modify_runtime; erewrite bind_done by reflexivity|].
  simpl. split; [done|]. split; [done|]. split.
  - intros target -> Ht. apply bool_decide_eq_true_2. unfold snapshot_acknowledged. simpl. lia.
  - eexists. split; [apply lookup_insert_eq|]. unfold snapshot_acknowledged. simpl. lia.
Qed.

Lemma response_more clock' quorum_contacted progress_changed cur :
  cur < index ->
  on_install_snapshot_response clock' peer term target_index index false quorum_contacted progress_changed
    (RaftOk (InstallSnapshotResponse term true cur)) leader = Done (inr true) leader.
Proof using is_sending.
  intros Hcur. unfold on_install_snapshot_response. rewrite !(bool_decide_eq_false_2 (term < term)) by lia.
  rewrite get_bind, (sd_accepted is_sending). simpl. by rewrite bool_decide_eq_false_2 by lia.
Qed.

Lemma response_done clock' quorum_contacted progress_changed :
  exists result leader',
    on_snapshot_installed peer target_index index progress_changed leader = Done result leader' /\
    on_install_snapshot_response clock' peer term target_index index true quorum_contacted progress_changed
      (RaftOk (InstallSnapshotResponse term true acknowledged)) leader = Done (inl result) leader'.
Proof using is_sending is_taking.
  destruct (snapshot_installed_run progress_changed leader) as (result & leader' & H & _).
  exists result, leader'. split; [done|]. pose proof (tk_acknowledged is_taking).
  unfold on_install_snapshot_response. rewrite !(bool_decide_eq_false_2 (term < term)) by lia.
  rewrite get_bind, (sd_accepted is_sending). simpl.
  rewrite bool_decide_eq_true_2 by lia. by rewrite (bind_done _ _ _ _ _ H).
Qed.

#[local] Arguments on_install_snapshot_response : simpl never.

Lemma loop_streams fuel contacted quorum_contacted progress_changed k f :
  (k < length payload)%nat -> (length payload - k < fuel)%nat -> follower_awaiting k f ->
  streamed progress_changed
    (install_snapshot_loop (direct_link clock) clock skip_busy peer term target_index fuel snapshot meta
       chunk_size max_frame_bytes bound contacted quorum_contacted progress_changed (Z.of_nat k) (leader, f)).
Proof using PL FL is_sending is_taking.
  revert contacted quorum_contacted k f. induction fuel as [|fuel IH]; [lia|].
  intros contacted quorum_contacted k f Hk Hfuel Haw. simpl. rewrite get_bind. simpl.
  rewrite (sd_accepted is_sending), (sd_behind is_sending), (sd_current is_sending). simpl.
  rewrite (bind_done _ _ _ false (leader, f)) by (by destruct skip_busy).
  destruct (frame_at k Hk) as (chunk & frame & -> & Hnext & Hlimit & Hreq & Hraw & Hdone).
  rewrite get_bind. simpl. rewrite (sd_accepted is_sending). simpl.
  pose proof (handle_awaiting config node clock term (fm_leader_id meta) (fm_leader_addr meta) index index_term
    (sha256_hex payload) payload node_room) as Hh.
  destruct (sha256_hex_ok payload) as [Hfmt Hlow].
  specialize (Hh (conj (sd_term is_sending) (conj (sd_index is_sending) (conj Hfmt Hlow))) _ k chunk value f
    (eq_ignore_ascii_case_refl _) (tk_value is_taking) Hnext Hlimit Haw).
  unfold received in Hh. pose proof Hnext as (Hne & Hle & _).
  destruct (attached_inv _ _ _ _ _ (attached_heard clock _ _ _ _ _ (tk_attached is_taking))) as (Hterm & _).
  rewrite Hraw, Hdone. case_bool_decide as Hd.
  - destruct Hh as (f1 & Hh & Hn & Ht & Hp). unfold on_node in Hh.
    rewrite Hn, (tk_installs is_taking) in Hh.
    rewrite (bind_done _ _ _ (RaftOk (Some (InstallSnapshotResponse term true acknowledged)))
      (leader, set_tn_node installed f1)) by (simpl; by rewrite Hreq, Hh).
    destruct (response_done clock quorum_contacted progress_changed) as (result & leader' & Hr1 & Hr2).
    unfold streamed. exists result, leader', (set_tn_node installed f1). split; [|done].
    rewrite (bind_done _ _ _ (inl result) (leader', set_tn_node installed f1)); [done|].
    unfold on_leader. cbn [fst snd]. by rewrite Hr2.
  - destruct Hh as (f1 & Hh & Hr). rewrite Hterm in Hh.
    rewrite (bind_done _ _ _ (RaftOk (Some (InstallSnapshotResponse term true
      (snapshot_index_of (rn_state node))))) (leader, f1)) by (simpl; by rewrite Hreq, Hh).
    assert (snapshot_index_of (rn_state node) < index) as Hcur.
    { unfold snapshot_index_of. destruct (latest_snapshot (rn_state node)) as [s|] eqn:Hs; simpl.
      - apply (at_snapshot _ _ _ _ _ (tk_attached is_taking)) in Hs. lia.
      - pose proof (sd_index is_sending). lia. }
    rewrite (bind_done _ _ _ (inr true) (leader, f1)).
    2: { unfold on_leader. cbn [fst snd]. by rewrite response_more. }
    rewrite (bool_decide_eq_false_2 (payload = [])) by (intros He; rewrite He in Hk; simpl in Hk; lia). simpl.
    pose proof (rm_u64 _ _ _ (tk_room is_taking)).
    replace (saturating_add64 (Z.of_nat k) (Z.of_nat (length chunk))) with (Z.of_nat (k + length chunk))
      by (unfold saturating_add64; lia).
    apply IH; [lia| |apply receiving_awaiting; [apply attached_heard, is_taking|done|done]].
    destruct chunk; [done|simpl in *; lia].
Qed.

End run.

(** ** The whole transfer *)

Section whole.
Context `{LQ : LinkedQueueCrate} `{E : Env} `{D : RequestDigest} `{C : RaftCodec} `{PC : !PayloadCodec}.
Context `{FC : SnapshotFrameCodec} `{PL : !PayloadCodecLaws} `{FL : !SnapshotFrameCodecLaws}.

(** What the leader sends of a snapshot file. *)
Definition prepared_from (file : RaftSnapshotFile) : PreparedInstallSnapshot :=
  let payload := payload_to_vec (sf_payload file) in
  mkPreparedInstallSnapshot (sf_metadata file) (sha256_hex payload) payload.

Definition meta_from (config : BrokerRaftConfig) (leader : RaftNode) (term : Z) (file : RaftSnapshotFile)
    : InstallSnapshotFrameMeta :=
  let self := local_configured_peer (rn_config leader) in
  mkInstallSnapshotFrameMeta (brc_peer_token config) term (peer_id self) (peer_addr self)
    (sm_last_included_index (sf_metadata file)) (sm_last_included_term (sf_metadata file))
    (sha256_hex (payload_to_vec (sf_payload file))).

Definition transfer_key_of (leader : RaftNode) (file : RaftSnapshotFile) : string :=
  snapshot_transfer_key (peer_id (local_configured_peer (rn_config leader)))
    (sm_last_included_index (sf_metadata file)) (sm_last_included_term (sf_metadata file))
    (sha256_hex (payload_to_vec (sf_payload file))).

Lemma prepare_from_file leader file :
  on_log latest_snapshot_file leader = Done (RaftOk (Some file)) leader ->
  on_log prepare_install_snapshot_source leader = Done (RaftOk (Some (prepared_from file))) leader.
Proof.
  unfold on_log. destruct (latest_snapshot_file (rn_log leader)) as [a l| |] eqn:H; [|done..].
  intros [= -> Hl]. unfold prepare_install_snapshot_source. rewrite (bind_done _ _ _ _ _ H). simpl.
  by rewrite Hl.
Qed.


End whole.
