(* ===== verification/RaftProtocol.v ===== *)
(** * The protocol guard of the peer RPCs

    [src/src/broker_raft.rs], 21326-21592: before a frame from a peer is decoded,
    the bytes of its line are scanned for the member [minProtocolVersion] of
    the outermost object, without parsing the rest, and a frame that asks for a
    newer protocol is refused.  A position in the line is the bytes that
    follow it. *)

From S2P Require Import Prelude Text RaftGrant.
From stdpp Require Import options.

Definition RAFT_RPC_PROTOCOL_VERSION : Z := 1.
Definition RAFT_RPC_MIN_PROTOCOL_VERSION_FIELD : string := "minProtocolVersion".

Definition QUOTE : Z := 34.
Definition COMMA : Z := 44.
Definition OPEN_BRACE : Z := 123.
Definition CLOSE_BRACE : Z := 125.

(** [serde_json::from_slice::<String>], which is not part of the sources, on
    the bytes of a string with its quotes; a string is its bytes. *)
Class JsonStrings : Type := {
  json_string_of_slice : bytes -> option bytes;
}.

(** ** Scanning *)

Definition is_json_ws (b : Z) : bool :=
  bool_decide (b = 32) || bool_decide (b = 10) || bool_decide (b = 13) || bool_decide (b = 9).

Definition is_ascii_digit (b : Z) : bool := bool_decide (48 <= b <= 57).

Definition is_open (b : Z) : bool := bool_decide (b = OPEN_BRACE) || bool_decide (b = OPEN_BRACKET).
Definition is_close (b : Z) : bool := bool_decide (b = CLOSE_BRACE) || bool_decide (b = CLOSE_BRACKET).

Definition is_exponent (b : Z) : bool :=
  bool_decide (b = 46) || bool_decide (b = 101) || bool_decide (b = 69).

Definition is_number_byte (b : Z) : bool :=
  is_ascii_digit b || is_exponent b || bool_decide (b = 43) || bool_decide (b = 45).

(** [skip_json_ws] *)
Definition skip_json_ws (s : bytes) : bytes := drop_while is_json_ws s.

Section scan.
Context `{JS : JsonStrings}.

(** The loop of [parse_json_object_key], after the opening quote; [raw] is what
    has been passed.  The bytes between two quotes of a [str] are a [str]. *)
Fixpoint object_key_loop (escaped saw_escape : bool) (raw s : bytes) : option (bytes * bytes) :=
  match s with
  | [] => None
  | byte :: s =>
      if escaped then object_key_loop false saw_escape (raw ++ [byte]) s
      else if bool_decide (byte = BACKSLASH) then object_key_loop true true (raw ++ [byte]) s
      else if bool_decide (byte = QUOTE) then
        match (if saw_escape then json_string_of_slice (QUOTE :: raw ++ [QUOTE]) else Some raw) with
        | Some key => Some (key, s)
        | None => None
        end
      else object_key_loop false saw_escape (raw ++ [byte]) s
  end.

(** [parse_json_object_key] *)
Definition parse_json_object_key (s : bytes) : option (bytes * bytes) :=
  match s with
  | byte :: s => if bool_decide (byte = QUOTE) then object_key_loop false false [] s else None
  | [] => None
  end.

(** [raft_rpc_protocol_version_not_u64] *)
Definition raft_rpc_protocol_version_not_u64 (field : string) : BrokerRaftError :=
  ERpc ("raft RPC " +:+ field +:+ " must be an unsigned integer")%string.

Fixpoint take_digits (s : bytes) : bytes * bytes :=
  match s with
  | byte :: s' =>
      if is_ascii_digit byte then let '(digits, rest) := take_digits s' in (byte :: digits, rest)
      else ([], s)
  | [] => ([], [])
  end.

(** [parse_json_u64_field_value]; the tests of the first byte before the one for
    a digit are cases of it. *)
Definition parse_json_u64_field_value (field : string) (s : bytes) : RaftResult Z :=
  let error := RaftErr (raft_rpc_protocol_version_not_u64 field) in
  let s := skip_json_ws s in
  match s with
  | [] => error
  | first :: _ =>
      if negb (is_ascii_digit first) then error
      else
        let '(digits, rest) := take_digits s in
        if match rest with byte :: _ => is_exponent byte | [] => false end then error
        else
          match parse_digits u64_max 0 digits with
          | None => error
          | Some number =>
              match skip_json_ws rest with
              | byte :: _ =>
                  if bool_decide (byte = COMMA) || bool_decide (byte = CLOSE_BRACE)
                  then RaftOk number else error
              | [] => RaftOk number
              end
          end
  end.

(** The loop of [skip_json_container]. *)
Fixpoint container_loop (depth : nat) (in_string escaped : bool) (s : bytes) : option bytes :=
  match s with
  | [] => None
  | byte :: s =>
      if in_string then
        if escaped then container_loop depth true false s
        else if bool_decide (byte = BACKSLASH) then container_loop depth true true s
        else if bool_decide (byte = QUOTE) then container_loop depth false false s
        else container_loop depth true false s
      else if bool_decide (byte = QUOTE) then container_loop depth true escaped s
      else if is_open byte then container_loop (S depth) false escaped s
      else if is_close byte then
        match depth with
        | O => None
        | S O => Some s
        | S depth => container_loop depth false escaped s
        end
      else container_loop depth false escaped s
  end.

(** [skip_json_container] *)
Definition skip_json_container (s : bytes) : option bytes :=
  match s with
  | open_ :: _ => if is_open open_ then container_loop 0 false false s else None
  | [] => None
  end.

Definition skip_literal (literal : string) (s : bytes) : option bytes :=
  let len := String.length literal in
  if bool_decide (take len s = bytes_of literal) then Some (drop len s) else None.

(** [skip_json_value]: what follows the value. *)
Definition skip_json_value (s : bytes) : option bytes :=
  let s := skip_json_ws s in
  match s with
  | [] => None
  | first :: rest =>
      if bool_decide (first = QUOTE) then snd <$> parse_json_object_key s
      else if is_open first then skip_json_container s
      else if bool_decide (first = 45) || is_ascii_digit first then Some (drop_while is_number_byte rest)
      else if bool_decide (first = 116) then skip_literal "true" s
      else if bool_decide (first = 102) then skip_literal "false" s
      else if bool_decide (first = 110) then skip_literal "null" s
      else None
  end.

(** The loop of [top_level_raft_rpc_min_protocol_version], after the brace. *)
Fixpoint members_loop (fuel : nat) (field : string) (s : bytes) : option (RaftResult (option Z)) :=
  match fuel with
  | O => None
  | S fuel =>
      let none := Some (RaftOk None) in
      match skip_json_ws s with
      | [] => none
      | byte :: s' =>
          if bool_decide (byte = CLOSE_BRACE) then none
          else
            let s := if bool_decide (byte = COMMA) then skip_json_ws s' else byte :: s' in
            match parse_json_object_key s with
            | None => none
            | Some (key, s) =>
                match skip_json_ws s with
                | [] => none
                | byte :: s =>
                    if negb (bool_decide (byte = COLON)) then none
                    else
                      let s := skip_json_ws s in
                      if bool_decide (key = bytes_of field) then
                        Some (match parse_json_u64_field_value field s with
                              | RaftOk version => RaftOk (Some version)
                              | RaftErr err => RaftErr err
                              end)
                      else
                        match skip_json_value s with
                        | None => none
                        | Some s =>
                            match skip_json_ws s with
                            | byte :: _ =>
                                if bool_decide (byte = COMMA) then members_loop fuel field (skip_json_ws s)
                                else none
                            | [] => none
                            end
                        end
                end
            end
      end
  end.

(** [top_level_raft_rpc_min_protocol_version]; each round passes at least a key,
    so a round for each byte is enough ([members_loop_total]). *)
Definition top_level_raft_rpc_min_protocol_version (line field : string) : RaftResult (option Z) :=
  match bytes_of (trim line) with
  | byte :: s =>
      if bool_decide (byte = OPEN_BRACE) then default (RaftOk None) (members_loop (S (length s)) field s)
      else RaftOk None
  | [] => RaftOk None
  end.

(** [validate_raft_rpc_protocol_minimum_counted] *)
Definition validate_raft_rpc_protocol_minimum (line : string) : RaftResult unit :=
  match top_level_raft_rpc_min_protocol_version line RAFT_RPC_MIN_PROTOCOL_VERSION_FIELD with
  | RaftErr err => RaftErr err
  | RaftOk None => RaftOk tt
  | RaftOk (Some min_protocol_version) =>
      if bool_decide (min_protocol_version <= RAFT_RPC_PROTOCOL_VERSION) then RaftOk tt
      else RaftErr (ERpc ("raft RPC peer requires protocol version " +:+ pretty min_protocol_version
             +:+ ", but this binary supports " +:+ pretty RAFT_RPC_PROTOCOL_VERSION)%string)
  end.

End scan.

(** * The protocol guard against a JSON grammar

    The scanner of [RaftProtocol] sees in the text of a JSON object what a full
    parse of it would see: the first member of the outermost object with the
    field's name, whatever precedes it. *)

(** ** The grammar *)

Definition ws (w : bytes) : Prop := Forall (fun b => is_json_ws b = true) w.

Inductive string_body : bytes -> Prop :=
| body_nil : string_body []
| body_byte b raw : b <> QUOTE -> b <> BACKSLASH -> string_body raw -> string_body (b :: raw)
| body_escape b raw : string_body raw -> string_body (BACKSLASH :: b :: raw).

Definition has_escape (raw : bytes) : bool := existsb (fun b => bool_decide (b = BACKSLASH)) raw.

Definition string_text (raw : bytes) : bytes := QUOTE :: raw ++ [QUOTE].

(** At least the numbers of JSON. *)
Inductive number_text : bytes -> Prop :=
| number_intro b s : b = 45 \/ is_ascii_digit b = true -> Forall (fun x => is_number_byte x = true) s ->
    number_text (b :: s).

Inductive literal_text : bytes -> Prop :=
| literal_true : literal_text (bytes_of "true")
| literal_false : literal_text (bytes_of "false")
| literal_null : literal_text (bytes_of "null").

Section grammar.
Context `{JS : JsonStrings}.

(** What a string stands for. *)
Definition string_value (raw : bytes) : option bytes :=
  if has_escape raw then json_string_of_slice (string_text raw) else Some raw.

Definition json_string (raw : bytes) : Prop := string_body raw /\ is_Some (string_value raw).

Inductive json_value : bytes -> Prop :=
| value_literal v : literal_text v -> json_value v
| value_number v : number_text v -> json_value v
| value_string raw : json_string raw -> json_value (string_text raw)
| value_array es : json_elements es -> json_value (OPEN_BRACKET :: es ++ [CLOSE_BRACKET])
| value_object ms : json_members ms -> json_value (OPEN_BRACE :: ms ++ [CLOSE_BRACE])
with json_elements : bytes -> Prop :=
| elements_none w : ws w -> json_elements w
| elements_one w1 v w2 : ws w1 -> json_value v -> ws w2 -> json_elements (w1 ++ v ++ w2)
| elements_more w1 v w2 es : ws w1 -> json_value v -> ws w2 -> json_elements es ->
    json_elements (w1 ++ v ++ w2 ++ COMMA :: es)
with json_members : bytes -> Prop :=
| members_none w : ws w -> json_members w
| members_one w1 raw w2 w3 v w4 : ws w1 -> json_string raw -> ws w2 -> ws w3 -> json_value v -> ws w4 ->
    json_members (w1 ++ string_text raw ++ w2 ++ COLON :: w3 ++ v ++ w4)
| members_more w1 raw w2 w3 v w4 ms : ws w1 -> json_string raw -> ws w2 -> ws w3 -> json_value v -> ws w4 ->
    json_members ms ->
    json_members (w1 ++ string_text raw ++ w2 ++ COLON :: w3 ++ v ++ w4 ++ COMMA :: ms).

Scheme json_value_mind := Induction for json_value Sort Prop
  with json_elements_mind := Induction for json_elements Sort Prop
  with json_members_mind := Induction for json_members Sort Prop.
Combined Scheme json_mutind from json_value_mind, json_elements_mind, json_members_mind.

(** A member of the outermost object with the whitespace around its parts. *)
Record Member : Type := mkMember {
  mb_before : bytes;
  mb_raw : bytes;
  mb_after_key : bytes;
  mb_before_value : bytes;
  mb_value : bytes;
  mb_after : bytes;
}.

Record member_ok (m : Member) : Prop := mkMemberOk {
  mo_before : ws (mb_before m);
  mo_key : json_string (mb_raw m);
  mo_after_key : ws (mb_after_key m);
  mo_before_value : ws (mb_before_value m);
  mo_value : json_value (mb_value m);
  mo_after : ws (mb_after m);
}.

Definition member_text (m : Member) : bytes :=
  mb_before m ++ string_text (mb_raw m) ++ mb_after_key m ++ COLON :: mb_before_value m ++ mb_value m
    ++ mb_after m.

(** The members after the first one follow a comma each. *)
Fixpoint more_text (ms : list Member) (s : bytes) : bytes :=
  match ms with
  | [] => s
  | m :: ms => COMMA :: member_text m ++ more_text ms s
  end.

(** The text of an object, without whitespace around it. *)
Definition object_text (ms : list Member) : bytes :=
  OPEN_BRACE :: match ms with
                | [] => [CLOSE_BRACE]
                | m :: ms => member_text m ++ more_text ms [CLOSE_BRACE]
                end.

(** ** The reference *)

(** The unsigned integer a value is. *)
Definition version_of (field : string) (v : bytes) : RaftResult (option Z) :=
  match (if forallb is_ascii_digit v then parse_digits u64_max 0 v else None) with
  | Some n => RaftOk (Some n)
  | None => RaftErr (raft_rpc_protocol_version_not_u64 field)
  end.

(** The version an object asks for: the value of the first member of the
    name. *)
Fixpoint required_version (field : string) (ms : list Member) : RaftResult (option Z) :=
  match ms with
  | [] => RaftOk None
  | m :: ms =>
      if bool_decide (string_value (mb_raw m) = Some (bytes_of field)) then version_of field (mb_value m)
      else required_version field ms
  end.

(** ** Whitespace, strings, values *)

Lemma drop_while_app {A} (p : A -> bool) l s :
  Forall (fun x => p x = true) l -> drop_while p (l ++ s) = drop_while p s.
Proof. induction 1 as [|x l Hx _ IH]; simpl; [done|]. by rewrite Hx. Qed.

Lemma skip_ws_app w s : ws w -> skip_json_ws (w ++ s) = skip_json_ws s.
Proof. apply drop_while_app. Qed.

Lemma skip_ws_cons b s : is_json_ws b = false -> skip_json_ws (b :: s) = b :: s.
Proof. intros H. unfold skip_json_ws. simpl. by rewrite H. Qed.

Lemma key_loop_body raw saw pre s :
  string_body raw ->
  object_key_loop false saw pre (raw ++ QUOTE :: s)
  = match (if saw || has_escape raw then json_string_of_slice (QUOTE :: (pre ++ raw) ++ [QUOTE])
           else Some (pre ++ raw)) with
    | Some key => Some (key, s)
    | None => None
    end.
Proof.
  intros H. revert saw pre. induction H as [|b raw Hq Hb _ IH|b raw _ IH]; intros saw pre; simpl.
  - by rewrite app_nil_r, orb_false_r.
  - rewrite !bool_decide_eq_false_2 by done. rewrite IH. simpl. by rewrite <-!app_assoc.
  - rewrite IH. rewrite orb_true_r. simpl. by rewrite <-!app_assoc.
Qed.

Lemma parse_key_text raw s :
  string_body raw ->
  parse_json_object_key (string_text raw ++ s) = (fun key => (key, s)) <$> string_value raw.
Proof.
  intros H. unfold string_text. simpl. rewrite <-app_assoc. simpl.
  rewrite key_loop_body by done. simpl. unfold string_value. fold (string_text raw).
  by destruct (has_escape raw).
Qed.

(** ** Containers *)

Definition plain (b : Z) : Prop := b <> QUOTE /\ is_open b = false /\ is_close b = false.

Lemma container_plain w depth s :
  Forall plain w -> container_loop depth false false (w ++ s) = container_loop depth false false s.
Proof.
  induction 1 as [|b w (H1 & H2 & H3) _ IH]; simpl; [done|].
  by rewrite bool_decide_eq_false_2, H2, H3 by done.
Qed.

Lemma container_string raw depth s :
  string_body raw ->
  container_loop depth false false (string_text raw ++ s) = container_loop depth false false s.
Proof.
  intros H. unfold string_text. simpl. rewrite <-app_assoc. simpl.
  induction H as [|b raw Hq Hb _ IH|b raw _ IH]; simpl; [done| |done].
  by rewrite !bool_decide_eq_false_2 by done.
Qed.

Lemma byte_plain b : is_json_ws b = true \/ is_number_byte b = true \/ b = COMMA \/ b = COLON -> plain b.
Proof.
  unfold plain, is_open, is_close, is_json_ws, is_number_byte, is_exponent, is_ascii_digit, QUOTE, OPEN_BRACE,
    OPEN_BRACKET, CLOSE_BRACE, CLOSE_BRACKET, COMMA, COLON.
  rewrite !orb_true_iff, !orb_false_iff, !bool_decide_eq_true, !bool_decide_eq_false. lia.
Qed.

Lemma ws_plain w : ws w -> Forall plain w.
Proof. intros H. eapply Forall_impl; [done|]. intros b Hb. apply byte_plain. auto. Qed.

Lemma number_plain v : number_text v -> Forall plain v.
Proof.
  destruct 1 as [b v Hb Hv]. constructor.
  - apply byte_plain. right. left. unfold is_number_byte. destruct Hb as [->| ->]; [|done]. done.
  - eapply Forall_impl; [done|]. intros x Hx. apply byte_plain. auto.
Qed.

Lemma literal_plain v : literal_text v -> Forall plain v.
Proof. by destruct 1; repeat constructor. Qed.

Lemma container_skips :
  (forall v, json_value v -> forall depth s,
     container_loop (S depth) false false (v ++ s) = container_loop (S depth) false false s) /\
  (forall es, json_elements es -> forall depth s,
     container_loop (S depth) false false (es ++ s) = container_loop (S depth) false false s) /\
  (forall ms, json_members ms -> forall depth s,
     container_loop (S depth) false false (ms ++ s) = container_loop (S depth) false false s).
Proof.
  assert (forall b depth s, b = COMMA \/ b = COLON ->
    container_loop depth false false (b :: s) = container_loop depth false false s) as Hsep.
  { intros b depth s Hb. apply (container_plain [b]). repeat constructor; apply byte_plain; auto. }
  apply json_mutind.
  - intros v H depth s. by apply container_plain, literal_plain.
  - intros v H depth s. by apply container_plain, number_plain.
  - intros raw [H _] depth s. by apply container_string.
  - intros es _ IH depth s. rewrite <-app_comm_cons, <-app_assoc. simpl. by rewrite IH.
  - intros ms _ IH depth s. rewrite <-app_comm_cons, <-app_assoc. simpl. by rewrite IH.
  - intros w Hw depth s. by apply container_plain, ws_plain.
  - intros w1 v w2 H1 _ IH H2 depth s. rewrite <-!app_assoc.
    by rewrite container_plain, IH, container_plain by (by apply ws_plain).
  - intros w1 v w2 es H1 _ IH H2 _ IHes depth s. rewrite <-!app_assoc, <-app_comm_cons.
    rewrite container_plain, IH, container_plain by (by apply ws_plain). rewrite Hsep by auto. apply IHes.
  - intros w Hw depth s. by apply container_plain, ws_plain.
  - intros w1 raw w2 w3 v w4 H1 [Hk _] H2 H3 _ IH H4 depth s. rewrite <-!app_assoc, <-app_comm_cons, <-!app_assoc.
    rewrite container_plain, container_string, container_plain by (done || by apply ws_plain).
    rewrite Hsep by auto. by rewrite container_plain, IH, container_plain by (by apply ws_plain).
  - intros w1 raw w2 w3 v w4 ms H1 [Hk _] H2 H3 _ IH H4 _ IHms depth s.
    rewrite <-!app_assoc, <-app_comm_cons, <-!app_assoc, <-app_comm_cons.
    rewrite container_plain, container_string, container_plain by (done || by apply ws_plain).
    rewrite Hsep by auto. rewrite container_plain, IH, container_plain by (by apply ws_plain).
    rewrite Hsep by auto. apply IHms.
Qed.

(** ** Values *)

(** The text after a value does not continue it. *)
Definition stops (s : bytes) : Prop :=
  match s with b :: _ => is_number_byte b = false | [] => True end.

Lemma value_first v : json_value v -> exists b v', v = b :: v' /\ is_json_ws b = false.
Proof.
  destruct 1 as [v Hv|v Hv|raw _|es _|ms _]; try by eexists _, _.
  - destruct Hv; by eexists _, _.
  - destruct Hv as [b v Hb _]. exists b, v. split; [done|]. revert Hb.
    unfold is_ascii_digit, is_json_ws. rewrite !orb_false_iff, bool_decide_eq_true, !bool_decide_eq_false. lia.
Qed.

Lemma skip_value v s :
  json_value v -> stops s -> skip_json_value (v ++ s) = Some s.
Proof.
  intros Hv Hs. unfold skip_json_value. destruct (value_first v Hv) as (b & v' & -> & Hb).
  simpl. rewrite skip_ws_cons by done. inversion Hv as [? Hl|? Hn|raw [Hbody Hstr] Heq|es Hes Heq|ms Hms Heq]; subst.
  - inversion Hl; subst; simpl; unfold skip_literal; simpl; by rewrite take_0 || done.
  - inversion Hn as [? ? Hd Hnum]; subst.
    assert ((bool_decide (b = 45) || is_ascii_digit b) = true) as Hdig.
    { destruct Hd as [->| ->]; [done|apply orb_true_r]. }
    assert (bool_decide (b = QUOTE) = false /\ is_open b = false) as [-> ->].
    { pose proof (number_plain _ Hn) as Hp. apply Forall_cons in Hp as [(H1 & H2 & _) _].
      by rewrite bool_decide_eq_false_2. }
    rewrite Hdig. rewrite drop_while_app by done. destruct s as [|x s]; [done|]. simpl in *. by rewrite Hs.
  - rewrite bool_decide_eq_true_2 by done.
    change (QUOTE :: (raw ++ [QUOTE]) ++ s) with (string_text raw ++ s).
    rewrite parse_key_text by done. destruct Hstr as [key Hkey]. by rewrite Hkey.
  - simpl. rewrite <-app_assoc. by rewrite (proj1 (proj2 container_skips)).
  - simpl. rewrite <-app_assoc. by rewrite (proj2 (proj2 container_skips)).
Qed.

(** ** The version *)

Lemma take_digits_app ds rest :
  Forall (fun b => is_ascii_digit b = true) ds ->
  match rest with b :: _ => is_ascii_digit b = false | [] => True end ->
  take_digits (ds ++ rest) = (ds, rest).
Proof.
  intros Hds Hrest. induction Hds as [|b ds Hb _ IH]; simpl.
  - destruct rest as [|b rest]; simpl; [done|]. by rewrite Hrest.
  - by rewrite Hb, IH.
Qed.

Lemma first_non_digit v :
  forallb is_ascii_digit v = false ->
  exists ds x v', v = ds ++ x :: v' /\ Forall (fun b => is_ascii_digit b = true) ds /\ is_ascii_digit x = false.
Proof.
  induction v as [|b v IH]; simpl; [done|]. destruct (is_ascii_digit b) eqn:Hb; simpl.
  - intros H. destruct (IH H) as (ds & x & v' & -> & H1 & H2). exists (b :: ds), x, v'. by repeat constructor.
  - intros _. by exists [], b, v.
Qed.

(** What follows a member's value. *)
Definition ends_member (t : bytes) : Prop :=
  exists w c s, t = w ++ c :: s /\ ws w /\ (c = COMMA \/ c = CLOSE_BRACE).

Lemma ends_member_stops t : ends_member t -> stops t.
Proof.
  intros (w & c & s & -> & Hw & Hc). destruct Hw as [|b w Hb _]; simpl.
  - by destruct Hc as [->| ->].
  - revert Hb. unfold is_json_ws, is_number_byte, is_exponent, is_ascii_digit.
    rewrite !orb_true_iff, !orb_false_iff, !bool_decide_eq_true, !bool_decide_eq_false. lia.
Qed.

Lemma number_byte_split b :
  is_number_byte b = true -> is_ascii_digit b = false -> is_exponent b = false ->
  is_json_ws b = false /\ b <> COMMA /\ b <> CLOSE_BRACE.
Proof.
  unfold is_number_byte, is_exponent, is_ascii_digit, is_json_ws, COMMA, CLOSE_BRACE.
  rewrite !orb_true_iff, !orb_false_iff, !bool_decide_eq_true, !bool_decide_eq_false. lia.
Qed.

Lemma parse_version_digits field v t :
  v <> [] -> forallb is_ascii_digit v = true -> ends_member t ->
  match parse_json_u64_field_value field (v ++ t) with RaftOk n => RaftOk (Some n) | RaftErr e => RaftErr e end
  = version_of field v.
Proof.
  intros Hne Hv Ht. unfold version_of. rewrite Hv. pose proof (ends_member_stops t Ht) as Hstop.
  assert (Forall (fun b => is_ascii_digit b = true) v) as Hall.
  { by apply Forall_forall; intros x Hx; eapply forallb_forall in Hv; [|by apply list_elem_of_In]. }
  unfold parse_json_u64_field_value. destruct v as [|b v]; [done|]. cbn [app forallb] in *.
  assert (is_ascii_digit b = true) as Hb by (by apply andb_true_iff in Hv as [? _]).
  rewrite skip_ws_cons.
  2: { revert Hb. unfold is_ascii_digit, is_json_ws. rewrite !orb_false_iff, bool_decide_eq_true, !bool_decide_eq_false. lia. }
  rewrite Hb. simpl negb. cbv iota. change (b :: v ++ t) with ((b :: v) ++ t).
  assert (match t with x :: _ => is_ascii_digit x = false /\ is_exponent x = false | [] => True end) as Hhead.
  { destruct t as [|x t]; [done|]. simpl in Hstop. unfold is_number_byte in Hstop. rewrite !orb_false_iff in Hstop. tauto. }
  rewrite take_digits_app; [|done|destruct t; [done|apply Hhead]].
  assert (match t with x :: _ => is_exponent x | [] => false end = false) as ->
    by (destruct t; [done|apply Hhead]).
  destruct (parse_digits u64_max 0 (b :: v)) as [n|]; [|done].
  destruct Ht as (w & c & s & -> & Hw & Hc). rewrite skip_ws_app by done.
  by destruct Hc as [->| ->].
Qed.

Lemma parse_version_other field v t :
  json_value v -> forallb is_ascii_digit v = false ->
  parse_json_u64_field_value field (v ++ t) = RaftErr (raft_rpc_protocol_version_not_u64 field).
Proof.
  intros Hv Hd. unfold parse_json_u64_field_value. destruct (value_first v Hv) as (b & v' & -> & Hb). simpl.
  rewrite skip_ws_cons by done. destruct (is_ascii_digit b) eqn:Hdig; simpl; [|done].
  cbn [forallb] in Hd. rewrite Hdig in Hd. apply first_non_digit in Hd as (ds & x & v2 & -> & Hds & Hx).
  assert (is_number_byte x = true) as Hnum.
  { inversion Hv as [? Hl|? Hn|raw _ Heq|es _ Heq|ms _ Heq]; subst; try done; [by inversion Hl; subst|].
    inversion Hn as [? ? _ Hall]; subst. by apply Forall_app in Hall as [_ [Hall _]%Forall_cons]. }
  rewrite <-app_assoc, <-app_comm_cons. rewrite take_digits_app, Hdig by done. cbv beta iota.
  destruct (is_exponent x) eqn:Hexp; [done|].
  destruct (parse_digits u64_max 0 (b :: ds)); [|done].
  destruct (number_byte_split x Hnum Hx Hexp) as (H1 & H2 & H3).
  rewrite skip_ws_cons by done. by rewrite !bool_decide_eq_false_2 by done.
Qed.

Lemma parse_version field v t :
  json_value v -> ends_member t ->
  match parse_json_u64_field_value field (v ++ t) with RaftOk n => RaftOk (Some n) | RaftErr e => RaftErr e end
  = version_of field v.
Proof.
  intros Hv Ht. destruct (forallb is_ascii_digit v) eqn:Hd.
  - apply parse_version_digits; [|done..]. by destruct (value_first v Hv) as (b & v' & -> & _).
  - rewrite parse_version_other by done. unfold version_of. by rewrite Hd.
Qed.

(** ** The whole line *)

(** One round of the loop, on a member followed by a comma or the brace. *)
Lemma member_round fuel field comma m c s :
  member_ok m -> c = COMMA \/ c = CLOSE_BRACE ->
  members_loop (S fuel) field ((if comma : bool then [COMMA] else []) ++ member_text m ++ c :: s)
  = if bool_decide (string_value (mb_raw m) = Some (bytes_of field))
    then Some (version_of field (mb_value m))
    else if bool_decide (c = COMMA) then members_loop fuel field (c :: s) else Some (RaftOk None).
Proof.
  intros [M1 [Mb [key Mk]] M3 M4 M5 M6] Hc.
  assert (ends_member (mb_after m ++ c :: s)) as Hend by (by eexists _, _, _).
  assert (is_json_ws c = false) as Hcw by (by destruct Hc as [->| ->]).
  unfold member_text. rewrite <-!app_assoc, <-app_comm_cons, <-!app_assoc.
  set (rest := mb_after_key m ++ _).
  assert (forall s, skip_json_ws (string_text (mb_raw m) ++ s) = string_text (mb_raw m) ++ s) as Hq
    by (intros; by apply skip_ws_cons).
  transitivity (match parse_json_object_key (string_text (mb_raw m) ++ rest) with
    | None => Some (RaftOk None)
    | Some (key, s) => match skip_json_ws s with
      | [] => Some (RaftOk None)
      | byte :: s => if negb (bool_decide (byte = COLON)) then Some (RaftOk None) else
          let s := skip_json_ws s in
          if bool_decide (key = bytes_of field) then
            Some (match parse_json_u64_field_value field s with
                  | RaftOk version => RaftOk (Some version) | RaftErr err => RaftErr err end)
          else match skip_json_value s with
            | None => Some (RaftOk None)
            | Some s => match skip_json_ws s with
              | byte :: _ => if bool_decide (byte = COMMA) then members_loop fuel field (skip_json_ws s)
                             else Some (RaftOk None)
              | [] => Some (RaftOk None)
              end
            end
      end
    end).
  { destruct comma; cbn [app members_loop].
    - rewrite skip_ws_cons by done. cbv beta iota.
      rewrite (bool_decide_eq_false_2 (COMMA = CLOSE_BRACE)), (bool_decide_eq_true_2 (COMMA = COMMA)) by done.
      by rewrite skip_ws_app, Hq by done.
    - by rewrite skip_ws_app, Hq by done. }
  rewrite parse_key_text, Mk by done. cbn [fmap option_fmap option_map]. unfold rest.
  rewrite skip_ws_app, skip_ws_cons by done. rewrite bool_decide_eq_true_2 by done. cbn [negb].
  assert (skip_json_ws (mb_before_value m ++ mb_value m ++ mb_after m ++ c :: s)
    = mb_value m ++ mb_after m ++ c :: s) as ->.
  { rewrite skip_ws_app by done. destruct (value_first _ M5) as (b & v' & -> & Hb). by apply skip_ws_cons. }
  cbv zeta. rewrite parse_version by done. rewrite skip_value by (done || by apply ends_member_stops).
  rewrite skip_ws_app, skip_ws_cons by done.
  destruct (decide (key = bytes_of field)) as [->|Hne].
  - by rewrite !bool_decide_eq_true_2 by done.
  - by rewrite (bool_decide_eq_false_2 (key = _)), (bool_decide_eq_false_2 (Some key = _)) by congruence.
Qed.

Lemma more_exact field ms fuel :
  Forall member_ok ms -> (length ms < fuel)%nat ->
  members_loop fuel field (more_text ms [CLOSE_BRACE]) = Some (required_version field ms).
Proof.
  intros H. revert fuel. induction H as [|m ms Hm _ IH]; intros [|fuel] Hf; simpl in Hf; try lia; [done|].
  cbn [more_text required_version].
  destruct ms as [|m2 ms].
  - etransitivity; [apply (member_round fuel field true m CLOSE_BRACE []); auto|]. simpl. by case_match.
  - etransitivity; [apply (member_round fuel field true m COMMA); auto|].
    rewrite (bool_decide_eq_true_2 (COMMA = COMMA)) by done. case_match; [done|]. apply (IH fuel). lia.
Qed.

Lemma object_exact field ms fuel s :
  Forall member_ok ms -> object_text ms = OPEN_BRACE :: s -> (length ms < fuel)%nat ->
  members_loop fuel field s = Some (required_version field ms).
Proof.
  unfold object_text. intros H [= <-] Hf. destruct H as [|m ms Hm Hms]; [by destruct fuel; [simpl in Hf; lia|]|].
  destruct fuel as [|fuel]; simpl in Hf; [lia|]. cbn [required_version].
  pose proof (more_exact field ms fuel Hms ltac:(lia)) as Hmore.
  destruct ms as [|m2 ms]; cbn [more_text] in *.
  - etransitivity; [apply (member_round fuel field false m CLOSE_BRACE []); auto|]. simpl. by case_match.
  - etransitivity; [apply (member_round fuel field false m COMMA); auto|].
    rewrite (bool_decide_eq_true_2 (COMMA = COMMA)) by done. by case_match.
Qed.

Lemma members_length ms : (length ms < length (object_text ms))%nat.
Proof.
  assert (forall ms, length ms < length (more_text ms [CLOSE_BRACE]))%nat as Hmore.
  { clear ms. intros ms. induction ms as [|m ms IH]; simpl; [lia|]. rewrite length_app. lia. }
  destruct ms as [|m ms]; simpl; [lia|]. unfold member_text. rewrite !length_app. simpl. specialize (Hmore ms). lia.
Qed.

(** The rounds are enough for any line. *)
Lemma drop_while_length {A} (p : A -> bool) l : (length (drop_while p l) <= length l)%nat.
Proof. induction l as [|x l IH]; simpl; [lia|]. case_match; simpl; lia. Qed.

Lemma key_loop_length escaped saw raw s key s' :
  object_key_loop escaped saw raw s = Some (key, s') -> (length s' < length s)%nat.
Proof.
  revert escaped saw raw. induction s as [|b s IH]; intros escaped saw raw; simpl; [done|].
  repeat case_match; intros H'; simplify_eq; try (apply IH in H'); lia.
Qed.

Lemma parse_key_length s key s' : parse_json_object_key s = Some (key, s') -> (length s' < length s)%nat.
Proof.
  destruct s as [|b s]; simpl; [done|]. case_match; [|done]. intros H'%key_loop_length. lia.
Qed.

Lemma container_length depth in_string escaped s s' :
  container_loop depth in_string escaped s = Some s' -> (length s' < length s)%nat.
Proof.
  revert depth in_string escaped. induction s as [|b s IH]; intros depth in_string escaped; simpl; [done|].
  repeat case_match; intros H'; simplify_eq; try (apply IH in H'); lia.
Qed.

Lemma skip_value_length s s' : skip_json_value s = Some s' -> (length s' <= length s)%nat.
Proof.
  unfold skip_json_value. pose proof (drop_while_length is_json_ws s) as Hlen. fold (skip_json_ws s) in Hlen.
  destruct (skip_json_ws s) as [|b r] eqn:Hs; [done|]. cbn [length] in Hlen. case_bool_decide.
  { destruct (parse_json_object_key (b :: r)) as [[key s1]|] eqn:Hk; [|done]. intros [= <-].
    apply parse_key_length in Hk. cbn [length] in Hk. lia. }
  destruct (is_open b) eqn:Ho.
  { unfold skip_json_container. rewrite Ho. intros H'%container_length. cbn [length] in H'. lia. }
  assert (forall literal, skip_literal literal (b :: r) = Some s' -> length s' <= length s)%nat as Hlit.
  { unfold skip_literal. intros literal. destruct (bool_decide _); [|done]. intros [= <-]. rewrite length_drop. simpl. lia. }
  destruct (bool_decide (b = 45) || is_ascii_digit b);
    [intros [= <-]; pose proof (drop_while_length is_number_byte r); lia|].
  repeat (case_bool_decide; [by apply Hlit|]). done.
Qed.

Lemma members_loop_total fuel field s : (length s < fuel)%nat -> is_Some (members_loop fuel field s).
Proof.
  revert s. induction fuel as [|fuel IH]; intros s Hs; [lia|]. simpl.
  pose proof (drop_while_length is_json_ws s) as H1. fold (skip_json_ws s) in H1.
  destruct (skip_json_ws s) as [|b r]; [done|]. cbn [length] in H1. case_match; [done|].
  set (t := if bool_decide (b = COMMA) then _ else _).
  assert (length t <= length s)%nat as H2.
  { unfold t. case_match; [|simpl; lia]. pose proof (drop_while_length is_json_ws r).
    unfold skip_json_ws. lia. }
  destruct (parse_json_object_key t) as [[key u]|] eqn:Hk; [|done]. apply parse_key_length in Hk.
  pose proof (drop_while_length is_json_ws u) as H3. fold (skip_json_ws u) in H3.
  destruct (skip_json_ws u) as [|b2 u2]; [done|]. cbn [length] in H3. case_match; [done|].
  case_match; [done|]. destruct (skip_json_value (skip_json_ws u2)) as [v|] eqn:Hv; [|done].
  apply skip_value_length in Hv. pose proof (drop_while_length is_json_ws u2) as H5.
  fold (skip_json_ws u2) in H5. pose proof (drop_while_length is_json_ws v) as H6. fold (skip_json_ws v) in H6.
  destruct (skip_json_ws v) as [|b3 v2]; [done|]. case_match; [|done]. apply IH. simpl in *. lia.
Qed.

Lemma top_level_exact line field ms :
  bytes_of (trim line) = object_text ms -> Forall member_ok ms ->
  top_level_raft_rpc_min_protocol_version line field = required_version field ms.
Proof.
  intros Hline Hms. unfold top_level_raft_rpc_min_protocol_version. rewrite Hline.
  pose proof (members_length ms) as Hlen. destruct (object_text ms) as [|b s] eqn:Htext; [done|].
  assert (b = OPEN_BRACE) as -> by (unfold object_text in Htext; by simplify_eq).
  rewrite bool_decide_eq_true_2 by done. by rewrite (object_exact field ms) by (done || simpl in Hlen; lia).
Qed.

(** C30: The protocol guard sees what a parser would: on a line that is a JSON
    object, however it is spaced and whatever its members contain, the scan
    finds the first member of the outermost object named like the field (an
    escaped spelling of the name included, a nested or quoted one not) and
    returns its value when it is an unsigned 64-bit integer, an error when it
    is anything else, and nothing when there is no such member. *)
Theorem protocol_scan_exact line field ms :
  bytes_of (trim line) = object_text ms -> Forall member_ok ms ->
  top_level_raft_rpc_min_protocol_version line field = required_version field ms.
Proof. apply top_level_exact. Qed.

End grammar.
