(* ===== verification/RaftRpc.v ===== *)
(** * The RPCs between the nodes: messages, frames, tokens

    [src/src/broker_raft.rs]: the messages (2184-2334, 21233-21310), the peer
    token (11876-11882, 21654-21665), the framing of a stream (22952-23007)
    and the frames with their protocol member (21326-21340, 21593-21652).  The
    answers are [RaftRpcResponse] of [RaftNodeOps].  Telemetry counters and log
    lines are left out. *)

From S2P Require Import Prelude Text Monad Protocol Queue BrokerTypes BrokerState Broker BrokerOps.
From S2P Require Import Wire BrokerSnapshot RaftQuorum RaftGrant RaftCache RaftValidate.
From S2P Require Import RaftFiles RaftLog RaftNode RaftApply RaftNodeOps RaftProtocol.
From stdpp Require Import options.

(** ** Messages *)

Inductive RaftRpc : Type :=
| PreVoteRpc (auth_token : option string) (term : Z) (candidate_id candidate_addr : string)
    (last_log_index last_log_term : Z)
| RequestVoteRpc (auth_token : option string) (term : Z) (candidate_id candidate_addr : string)
    (last_log_index last_log_term : Z)
| AppendEntriesRpc (auth_token : option string) (term : Z) (leader_id leader_addr : string)
    (prev_log_index prev_log_term : Z) (entries : list RaftLogEntry) (leader_commit : Z)
| InstallSnapshotRpc (auth_token : option string) (term : Z) (leader_id leader_addr : string)
    (last_included_index last_included_term : Z) (payload_sha256 : option string) (offset : Z)
    (done : bool) (data : string)
| ProxyRequestRpc (auth_token : option string) (proxy_node_id proxy_node_addr : string)
    (request : Request.t) (request_uuid : string) (wait_ms : Z) (is_acquire : bool).

Inductive RaftRpcRequestKind : Type :=
| PreVoteKind | RequestVoteKind | AppendEntriesKind | InstallSnapshotKind | ProxyRequestKind.

(** [RaftRpcRequestKind::as_str] *)
Definition kind_as_str (kind : RaftRpcRequestKind) : string :=
  match kind with
  | PreVoteKind => "preVote"
  | RequestVoteKind => "requestVote"
  | AppendEntriesKind => "appendEntries"
  | InstallSnapshotKind => "installSnapshot"
  | ProxyRequestKind => "proxyRequest"
  end.

(** [RaftRpcRequestKind::matches_response] *)
Definition matches_response (kind : RaftRpcRequestKind) (response : RaftRpcResponse) : bool :=
  match kind, response with
  | _, ErrorResponse _ _
  | PreVoteKind, PreVoteResponse _ _
  | RequestVoteKind, RequestVoteResponse _ _
  | AppendEntriesKind, AppendEntriesResponse _ _ _ _ _
  | InstallSnapshotKind, InstallSnapshotResponse _ _ _
  | ProxyRequestKind, ProxyResponse _ _ _ _ _ => true
  | _, _ => false
  end.

(** [raft_rpc_request_kind] *)
Definition raft_rpc_request_kind (rpc : RaftRpc) : RaftRpcRequestKind :=
  match rpc with
  | PreVoteRpc _ _ _ _ _ _ => PreVoteKind
  | RequestVoteRpc _ _ _ _ _ _ => RequestVoteKind
  | AppendEntriesRpc _ _ _ _ _ _ _ _ => AppendEntriesKind
  | InstallSnapshotRpc _ _ _ _ _ _ _ _ _ _ => InstallSnapshotKind
  | ProxyRequestRpc _ _ _ _ _ _ _ => ProxyRequestKind
  end.

(** [raft_rpc_response_kind] *)
Definition raft_rpc_response_kind (response : RaftRpcResponse) : string :=
  match response with
  | PreVoteResponse _ _ => "preVote"
  | RequestVoteResponse _ _ => "requestVote"
  | AppendEntriesResponse _ _ _ _ _ => "appendEntries"
  | InstallSnapshotResponse _ _ _ => "installSnapshot"
  | ProxyResponse _ _ _ _ _ => "proxyResponse"
  | ErrorResponse _ _ => "error"
  end.

(** [validate_raft_rpc_response_kind] *)
Definition validate_raft_rpc_response_kind (kind : RaftRpcRequestKind) (response : RaftRpcResponse)
    : RaftResult RaftRpcResponse :=
  if matches_response kind response then RaftOk response
  else RaftErr (ERpc ("raft RPC response type mismatch: request=" +:+ kind_as_str kind
         +:+ " response=" +:+ raft_rpc_response_kind response)%string).

(** ** The peer token *)

(** [peer_rpc_auth_token] *)
Definition peer_rpc_auth_token (rpc : RaftRpc) : option string :=
  match rpc with
  | PreVoteRpc auth_token _ _ _ _ _
  | RequestVoteRpc auth_token _ _ _ _ _
  | AppendEntriesRpc auth_token _ _ _ _ _ _ _
  | InstallSnapshotRpc auth_token _ _ _ _ _ _ _ _ _
  | ProxyRequestRpc auth_token _ _ _ _ _ _ => auth_token
  end.

(** [with_peer_auth] *)
Definition with_peer_auth (rpc : RaftRpc) (token : option string) : RaftRpc :=
  match rpc with
  | PreVoteRpc _ a b c d e => PreVoteRpc token a b c d e
  | RequestVoteRpc _ a b c d e => RequestVoteRpc token a b c d e
  | AppendEntriesRpc _ a b c d e f g => AppendEntriesRpc token a b c d e f g
  | InstallSnapshotRpc _ a b c d e f g h i => InstallSnapshotRpc token a b c d e f g h i
  | ProxyRequestRpc _ a b c d e f => ProxyRequestRpc token a b c d e f
  end.

(** [constant_time_eq], on bytes and lengths *)
Definition constant_time_eq (actual expected : string) : bool :=
  let actual := bytes_of actual in
  let expected := bytes_of expected in
  let diff := foldl (fun diff idx =>
      Z.lor diff (Z.lxor (default 0 (actual !! idx)) (default 0 (expected !! idx))))
    (Z.lxor (Z.of_nat (length actual)) (Z.of_nat (length expected)))
    (seq 0 (length actual `max` length expected)) in
  bool_decide (diff = 0).

(** [BrokerRaft::peer_rpc_authorized] *)
Definition peer_rpc_authorized (peer_token : option string) (rpc : RaftRpc) : bool :=
  match peer_token with
  | None => true
  | Some expected =>
      match peer_rpc_auth_token rpc with
      | Some actual => constant_time_eq actual expected
      | None => false
      end
  end.

(** ** Reading a frame *)

(** The errors of [read_raft_frame_bounded]: the end of the stream, a frame
    over the limit, bytes that are no [str], an error of the stream. *)
Inductive RaftFrameError : Type :=
| FrameUnexpectedEof
| FrameTooLarge (max_bytes : Z)
| FrameNotUtf8
| FrameIo (err : IoError).

(** The loop, up to the end of the line or of the stream. *)
Fixpoint read_raft_frame_loop (fuel : nat) (max_bytes : Z) (buf : bytes)
    : M Reader (RaftFrameError + bytes) :=
  match fuel with
  | O => out_of_fuel
  | S fuel =>
      res ← fill_buf;
      match res with
      | inl err => mret (inl (FrameIo err))
      | inr [] => mret (if bool_decide (buf = []) then inl FrameUnexpectedEof else inr buf)
      | inr chunk =>
          match newline_position chunk with
          | Some idx =>
              let n := (idx + 1)%nat in
              if bool_decide (max_bytes < Z.of_nat (length buf + idx)) then
                consume n ;; mret (inl (FrameTooLarge max_bytes))
              else consume n ;; mret (inr (buf ++ take n chunk))
          | None =>
              let n := length chunk in
              if bool_decide (max_bytes < Z.of_nat (length buf + n)) then
                consume n ;; mret (inl (FrameTooLarge max_bytes))
              else consume n ;; read_raft_frame_loop fuel max_bytes (buf ++ chunk)
          end
      end
  end.

(** [Vec::ends_with] of one byte, and [pop] *)
Definition pop_byte (b : Z) (buf : bytes) : option bytes :=
  match reverse buf with
  | x :: rest => if bool_decide (x = b) then Some (reverse rest) else None
  | [] => None
  end.

(** The newline is cut off, with a carriage return before it. *)
Definition strip_line_end (buf : bytes) : bytes :=
  match pop_byte NEWLINE buf with
  | Some buf => default buf (pop_byte CARRIAGE_RETURN buf)
  | None => buf
  end.

(** [read_raft_frame_bounded]; the iterations are one for the buffer, one for
    every arrival, one for the end. *)
Definition read_raft_frame_bounded (max_bytes : Z) : M Reader (RaftFrameError + string) :=
  r ← get;
  res ← read_raft_frame_loop (2 + length (rd_arrivals r)) max_bytes [];
  mret (match res with
        | inl err => inl err
        | inr buf =>
            let line := strip_line_end buf in
            if utf8_valid line then inr (string_of_bytes line) else inl FrameNotUtf8
        end).

(** ** Frames *)

(** [serde_json] for the messages, which is not part of the sources: the
    members of a message as an object, the text of an object, and a message
    from its text. *)
Class RpcCodec : Type := {
  rpc_to_value : RaftRpc -> gmap string bytes;
  rpc_response_to_value : RaftRpcResponse -> gmap string bytes;
  object_to_vec : gmap string bytes -> bytes;
  rpc_of_str : string -> string + RaftRpc;
  rpc_response_of_str : string -> string + RaftRpcResponse;
}.

(** [insert_raft_rpc_protocol_field] *)
Definition insert_raft_rpc_protocol_field (value : gmap string bytes) : gmap string bytes :=
  <[RAFT_RPC_MIN_PROTOCOL_VERSION_FIELD := bytes_of (pretty RAFT_RPC_PROTOCOL_VERSION)]> value.

Section frames.
Context `{PCd : RpcCodec} `{JS : JsonStrings}.

(** [serialize_raft_rpc_value_with_protocol] *)
Definition serialize_with_protocol (value : gmap string bytes) : bytes :=
  object_to_vec (insert_raft_rpc_protocol_field value).

Definition over_frame_limit (what : string) (len max_frame_bytes : Z) : BrokerRaftError :=
  ERpc ("raft RPC " +:+ what +:+ " frame has " +:+ pretty len
    +:+ " bytes, exceeding configured max frame bytes " +:+ pretty max_frame_bytes)%string.

Definition bounded_body (what : string) (max_frame_bytes : Z) (body : bytes) : RaftResult bytes :=
  if bool_decide (max_frame_bytes < Z.of_nat (length body))
  then RaftErr (over_frame_limit what (Z.of_nat (length body)) max_frame_bytes)
  else RaftOk body.

(** [serialize_raft_rpc_frame_bounded] *)
Definition serialize_raft_rpc_frame_bounded (rpc : RaftRpc) (max_frame_bytes : Z) : RaftResult bytes :=
  bounded_body (kind_as_str (raft_rpc_request_kind rpc)) max_frame_bytes
    (serialize_with_protocol (rpc_to_value rpc)).

(** [serialize_raft_rpc_response_frame_bounded] *)
Definition serialize_raft_rpc_response_frame_bounded (response : RaftRpcResponse) (max_frame_bytes : Z)
    : RaftResult bytes :=
  bounded_body ("response " +:+ raft_rpc_response_kind response) max_frame_bytes
    (serialize_with_protocol (rpc_response_to_value response)).

(** [deserialize_raft_rpc_frame_counted] *)
Definition deserialize_raft_rpc_frame (line : string) : RaftResult RaftRpc :=
  _ ← validate_raft_rpc_protocol_minimum line;
  match rpc_of_str (trim line) with inr rpc => RaftOk rpc | inl err => RaftErr (EJson err) end.

(** [deserialize_raft_rpc_response_frame_counted] *)
Definition deserialize_raft_rpc_response_frame (line : string) : RaftResult RaftRpcResponse :=
  _ ← validate_raft_rpc_protocol_minimum line;
  match rpc_response_of_str (trim line) with inr response => RaftOk response | inl err => RaftErr (EJson err) end.

(** [is_raft_rpc_protocol_rejection] *)
Definition is_raft_rpc_protocol_rejection (err : BrokerRaftError) : bool :=
  match err with
  | ERpc message =>
      match strip_prefix "raft RPC peer requires protocol version" message with
      | Some _ => true
      | None => contains_str RAFT_RPC_MIN_PROTOCOL_VERSION_FIELD message
      end
  | _ => false
  end.

(** The object of a message. *)
Definition message_value (value : gmap string bytes) : Prop :=
  (exists rpc, value = rpc_to_value rpc) \/ (exists response, value = rpc_response_to_value response).

(** The documented behaviour of [serde_json]: the object of a message is written
    as its members, in some order, each with a JSON value; on one line, control
    characters being escaped; a message is decoded from what it is encoded to,
    members it does not know being ignored. *)
Class RpcCodecLaws : Prop := {
  message_members value : message_value value ->
    exists ms, serialize_with_protocol value = object_text ms /\ Forall member_ok ms /\
      (fun m => (string_value (mb_raw m), mb_value m)) <$> ms
      ≡ₚ (fun p => (Some (bytes_of p.1), p.2)) <$> map_to_list (insert_raft_rpc_protocol_field value);
  message_is_line value : message_value value ->
    Forall (fun b => 0 <= b < 256 /\ is_line_end b = false) (serialize_with_protocol value) /\
    utf8_valid (serialize_with_protocol value) = true;
  rpc_roundtrip rpc : rpc_of_str (string_of_bytes (serialize_with_protocol (rpc_to_value rpc))) = inr rpc;
  rpc_response_roundtrip response :
    rpc_response_of_str (string_of_bytes (serialize_with_protocol (rpc_response_to_value response)))
    = inr response;
}.

End frames.

(** * The frames between the nodes

    What a node writes as a frame is what another reads, however the bytes
    arrive; the token comparison is equality. *)

(** ** Tokens *)

Lemma diff_zero (f : nat -> Z) (l : list nat) init :
  foldl (fun diff idx => Z.lor diff (f idx)) init l = 0 <-> init = 0 /\ forall idx, idx ∈ l -> f idx = 0.
Proof.
  revert init. induction l as [|i l IH]; intros init; simpl.
  - split; [by intros ->; split; [|intros ? []%elem_of_nil]|by intros [-> _]].
  - rewrite IH, Z.lor_eq_0_iff. split.
    + intros [[-> Hi] Hl]. split; [done|]. intros idx [->|H]%elem_of_cons; auto.
    + intros [-> H]. split; [split; [done|]|]; intros; apply H; set_solver.
Qed.

(** The comparison of the peer token does not stop at the first difference and
    still is equality of the tokens. *)
Lemma constant_time_eq_exact actual expected :
  constant_time_eq actual expected = bool_decide (actual = expected).
Proof.
  unfold constant_time_eq. apply bool_decide_ext. rewrite diff_zero, Z.lxor_eq_0_iff.
  split; [|intros ->; split; [done|by intros; apply Z.lxor_eq_0_iff]].
  intros [Hlen Hall]. apply bytes_of_inj. apply list_eq. intros i.
  destruct (decide (i < length (bytes_of actual))%nat) as [Hi|Hi].
  - assert (i ∈ seq 0 (length (bytes_of actual) `max` length (bytes_of expected))) as Hin
      by (apply elem_of_seq; lia).
    specialize (Hall i Hin). rewrite Z.lxor_eq_0_iff in Hall.
    destruct (lookup_lt_is_Some_2 (bytes_of actual) i) as [a Ha]; [done|].
    destruct (lookup_lt_is_Some_2 (bytes_of expected) i) as [b Hb]; [lia|].
    rewrite Ha, Hb in *. simpl in Hall. by rewrite Hall.
  - rewrite !lookup_ge_None_2 by lia. done.
Qed.

(** ** Reading a frame *)

Lemma read_raft_frame_loop_spec max_bytes fuel buf line after r :
  newline_position buf = None -> newline_position line = None ->
  Z.of_nat (length (buf ++ line)) <= max_bytes -> (contents r).1 = line ++ NEWLINE :: after ->
  (S (length (rd_arrivals r)) + (if bool_decide (rd_buffer r = []) then 0 else 1) <= fuel)%nat ->
  wp (read_raft_frame_loop fuel max_bytes buf)
    (fun res r' => res = inr (buf ++ line ++ [NEWLINE]) /\ contents r' = (after, (contents r).2)) r.
Proof.
  revert buf line r. induction fuel as [|fuel IH]; intros buf line r Hb Hl Hmax Hc Hf; [lia|]. simpl.
  apply wp_bind, wp_done. pose proof (fill_buf_contents r) as Hfill.
  destruct (fill_buf r) as [[err|chunk] r1| |]; try done; (eexists _, _; split; [reflexivity|]).
  - destruct Hfill as [[rest Hr] _]. rewrite Hr in Hc. by destruct line.
  - destruct chunk as [|x chunk]; [destruct Hfill as [Hr ->]; rewrite Hr in Hc; by destruct line|].
    rename chunk into ch. assert (x :: ch <> []) as Hne by done. remember (x :: ch) as chunk eqn:Hch. clear Hch x ch.
    destruct Hfill as (Hbuf & Hcont & Hle & Hdec). destruct chunk as [|x ch]; [done|]. clear Hne.
    destruct (contents_buffer r1) as [s Hs]. rewrite Hbuf, Hcont, Hc in Hs.
    rewrite length_app in Hmax.
    destruct (newline_position (x :: ch)) as [idx|] eqn:Hidx.
    + assert (idx = length line /\ take (idx + 1) (x :: ch) = line ++ [NEWLINE] /\
        drop (idx + 1) (line ++ NEWLINE :: after) = after) as (-> & Htake & Hdrop).
      { assert (newline_position (line ++ NEWLINE :: after) = Some idx) as Hp
          by (by rewrite Hs, newline_position_app, Hidx).
        rewrite newline_position_app, Hl in Hp. simpl in Hp. injection Hp as Hp. rewrite Nat.add_0_r in Hp. subst idx.
        apply newline_position_lt in Hidx. split; [done|]. rewrite Nat.add_1_r. split.
        - rewrite <-(take_app_le _ s) by done. rewrite <-Hs, take_app_ge by lia.
          by replace (S (length line) - length line)%nat with 1%nat by lia.
        - rewrite drop_app_ge by lia. by replace (S (length line) - length line)%nat with 1%nat by lia. }
      rewrite bool_decide_false by lia. unfold consume. apply wp_bind, wp_modify, wp_ret.
      rewrite Htake. split; [done|]. rewrite contents_consume; [by rewrite Hcont, Hc, Hdrop|].
      rewrite Hbuf. apply newline_position_lt in Hidx. lia.
    + assert (exists line', line = (x :: ch) ++ line' /\ s = line' ++ NEWLINE :: after) as (line' & -> & ->).
      { apply app_eq_inv in Hs as [(k & -> & ->)|(k & Hk & Hk2)]; [by exists k|].
        destruct k as [|y k]; simpl in Hk2; [exists []; rewrite app_nil_r in *; by subst|].
        injection Hk2 as <- ->. rewrite Hk, newline_position_app, Hl in Hidx. by simpl in Hidx. }
      rewrite length_app in Hmax. rewrite newline_position_app, Hidx in Hl.
      rewrite bool_decide_false by lia. unfold consume. apply wp_bind, wp_modify.
      assert (contents (mkReader (drop (length (x :: ch)) (rd_buffer r1)) (rd_arrivals r1))
        = (line' ++ NEWLINE :: after, (contents r).2)) as Hc1.
      { rewrite contents_consume by by rewrite Hbuf. rewrite Hcont, Hc, <-app_assoc. by rewrite drop_app_length. }
      eapply wp_mono; [apply (IH (buf ++ x :: ch) line')|].
      * by rewrite newline_position_app, Hb, Hidx.
      * by apply fmap_None in Hl.
      * rewrite !length_app. lia.
      * by rewrite Hc1.
      * cbn [rd_buffer rd_arrivals]. rewrite Hbuf, drop_all, bool_decide_true by done.
        destruct (bool_decide_reflect (rd_buffer r = [])) as [He|]; [specialize (Hdec He)|]; lia.
      * intros res r2. rewrite Hc1. cbn [snd]. rewrite <-!app_assoc. done.
Qed.

(** ** Lines *)

Lemma string_of_bytes_app a b : string_of_bytes (a ++ b) = (string_of_bytes a +:+ string_of_bytes b)%string.
Proof. induction a as [|x a IH]; [done|]. simpl. by rewrite IH. Qed.

Lemma split_chars_concat s : s = ((split_chars s).1 +:+ concat_chars (split_chars s).2)%string.
Proof.
  induction s as [|c s IH]; [done|]. simpl. destruct (split_chars s) as [cont rest]. simpl in IH.
  case_bool_decide; simpl.
  - by rewrite IH at 1.
  - change (String c s = (String c cont +:+ concat_chars rest)%string). by rewrite IH at 1.
Qed.

Lemma split_chars_snoc t c :
  ~ 128 <= byte_of c < 192 ->
  split_chars (t +:+ String c EmptyString) = ((split_chars t).1, (split_chars t).2 ++ [String c EmptyString]).
Proof.
  intros Hc. induction t as [|a t IH].
  - change (split_chars (String c EmptyString) = (EmptyString, [String c EmptyString])). simpl.
    by rewrite bool_decide_eq_false_2.
  - change (split_chars (String a (t +:+ String c EmptyString))
      = ((split_chars (String a t)).1, (split_chars (String a t)).2 ++ [String c EmptyString])).
    simpl. rewrite IH. destruct (split_chars t) as [cont rest]. simpl. by case_bool_decide.
Qed.

Lemma split_chars_cons c s cont rest :
  split_chars s = (cont, rest) -> ~ 128 <= byte_of c < 192 ->
  split_chars (String c s) = (EmptyString, String c cont :: rest).
Proof. intros H Hc. simpl. rewrite H. by rewrite bool_decide_eq_false_2. Qed.

(** The text of an object has no blanks at its ends. *)
Lemma trim_object b mid :
  0 <= b < 128 ->
  trim (string_of_bytes (OPEN_BRACE :: b :: mid ++ [CLOSE_BRACE]))
  = string_of_bytes (OPEN_BRACE :: b :: mid ++ [CLOSE_BRACE]).
Proof.
  intros Hb. set (s := string_of_bytes _).
  assert (byte_of (Ascii.ascii_of_N (Z.to_N b)) = b) as Hbyte.
  { unfold byte_of. rewrite Ascii.N_ascii_embedding by lia. lia. }
  assert (exists rest, split_chars s = (EmptyString, "{"%string :: rest ++ ["}"%string])) as [rest Hsplit].
  { unfold s. cbn [string_of_bytes]. rewrite string_of_bytes_app. cbn [string_of_bytes].
    set (c := Ascii.ascii_of_N (Z.to_N b)). set (m := string_of_bytes mid).
    destruct (split_chars m) as [cont rest] eqn:Hm. exists (String c cont :: rest).
    apply split_chars_cons; [|by intros [[] _]].
    change (String c (m +:+ String (Ascii.ascii_of_N (Z.to_N CLOSE_BRACE)) EmptyString))
      with (String c m +:+ String (Ascii.ascii_of_N (Z.to_N CLOSE_BRACE)) EmptyString)%string.
    rewrite split_chars_snoc by (by intros [[] _]).
    by rewrite (split_chars_cons c m cont rest) by (done || fold c in Hbyte; lia). }
  unfold trim, chars. rewrite Hsplit. cbn [snd drop_while].
  replace (is_whitespace "{") with false by reflexivity.
  rewrite reverse_cons, reverse_app. cbn [reverse]. change (reverse ["}"%string]) with ["}"%string].
  cbn [app drop_while]. replace (is_whitespace "}") with false by reflexivity.
  rewrite reverse_cons, reverse_app, reverse_involutive. change (reverse ["{"%string]) with ["{"%string].
  rewrite (split_chars_concat s), Hsplit. cbn [fst snd]. done.
Qed.

Section texts.
Context `{JS : JsonStrings}.

Lemma more_text_end ms : exists s, more_text ms [CLOSE_BRACE] = s ++ [CLOSE_BRACE].
Proof.
  induction ms as [|m ms [s Hs]]; simpl; [by exists []|]. exists (COMMA :: member_text m ++ s).
  by rewrite Hs, app_comm_cons, app_assoc.
Qed.

Lemma object_text_shape ms :
  Forall member_ok ms -> ms <> [] ->
  exists b mid, object_text ms = OPEN_BRACE :: b :: mid ++ [CLOSE_BRACE] /\ 0 <= b < 128.
Proof.
  intros H Hne. destruct H as [|m ms Hm _]; [done|]. destruct (more_text_end ms) as [s Hs].
  unfold object_text. rewrite Hs. unfold member_text.
  destruct Hm as [H1 _ _ _ _ _]. destruct (mb_before m) as [|b w].
  - exists QUOTE. eexists. split; [|by vm_compute]. cbn [app string_text]. by rewrite app_assoc.
  - exists b. eexists. split; [by cbn [app]; rewrite app_assoc|].
    apply Forall_cons in H1 as [H1 _]. revert H1. unfold is_json_ws.
    rewrite !orb_true_iff, !bool_decide_eq_true. lia.
Qed.

Lemma required_unique field v ms :
  (exists m, m ∈ ms /\ string_value (mb_raw m) = Some (bytes_of field)) ->
  (forall m, m ∈ ms -> string_value (mb_raw m) = Some (bytes_of field) -> mb_value m = v) ->
  required_version field ms = version_of field v.
Proof.
  induction ms as [|m ms IH]; intros (m0 & Hin & Hm0) Hall; [by apply elem_of_nil in Hin|]. simpl.
  case_bool_decide as Hm.
  - rewrite (Hall m); [done|set_solver|done].
  - apply IH; [|intros; apply Hall; set_solver]. apply elem_of_cons in Hin as [->|Hin]; [done|eauto].
Qed.

Lemma required_of_map field v value ms :
  (fun m => (string_value (mb_raw m), mb_value m)) <$> ms
  ≡ₚ (fun p => (Some (bytes_of p.1), p.2)) <$> map_to_list value ->
  value !! field = Some v -> required_version field ms = version_of field v.
Proof.
  intros Hp Hv. apply required_unique.
  - assert ((Some (bytes_of field), v) ∈ (fun m => (string_value (mb_raw m), mb_value m)) <$> ms) as Hin.
    { rewrite Hp. apply list_elem_of_fmap. exists (field, v). split; [done|]. by apply elem_of_map_to_list. }
    apply list_elem_of_fmap in Hin as (m & Heq & Hm). exists m. split; [done|]. by simplify_eq.
  - intros m Hm Hname.
    assert ((string_value (mb_raw m), mb_value m) ∈ (fun p => (Some (bytes_of p.1), p.2)) <$> map_to_list value)
      as Hin.
    { rewrite <-Hp. apply list_elem_of_fmap. by exists m. }
    apply list_elem_of_fmap in Hin as ([k w] & Heq & Hk). simpl in Heq. apply elem_of_map_to_list in Hk.
    rewrite Hname in Heq. injection Heq as Hk' ->. apply bytes_of_inj in Hk' as ->. congruence.
Qed.

End texts.

Section frames.
Context `{PCd : RpcCodec} `{JS : JsonStrings} `{PLw : !RpcCodecLaws}.

(** What is serialized is a line the guard lets pass. *)
Lemma serialized_line value :
  message_value value ->
  let body := serialize_with_protocol value in
  validate_raft_rpc_protocol_minimum (string_of_bytes body) = RaftOk tt /\
  trim (string_of_bytes body) = string_of_bytes body /\
  utf8_valid body = true /\ Forall (fun b => 0 <= b < 256 /\ is_line_end b = false) body.
Proof using PLw.
  intros Hv body. destruct (message_members value Hv) as (ms & Hms & Hok & Hp).
  destruct (message_is_line value Hv) as [Hline Hutf].
  assert (ms <> []) as Hne.
  { intros ->. simpl in Hp. apply Permutation_nil_l in Hp. symmetry in Hp. apply fmap_nil_inv in Hp.
    apply map_to_list_empty_iff in Hp. exact (insert_non_empty _ _ _ Hp). }
  destruct (object_text_shape ms Hok Hne) as (b & mid & Hshape & Hb).
  assert (trim (string_of_bytes body) = string_of_bytes body) as Htrim.
  { unfold body. rewrite Hms, Hshape. by apply trim_object. }
  split; [|done]. unfold validate_raft_rpc_protocol_minimum.
  rewrite (top_level_exact _ _ ms).
  - erewrite required_of_map; [|done|by apply lookup_insert_eq]. done.
  - rewrite Htrim, bytes_of_string_of_bytes; [done|]. eapply Forall_impl; [exact Hline|]. by intros x [? _].
  - done.
Qed.

Lemma strip_line body : Forall (fun b => is_line_end b = false) body -> strip_line_end (body ++ [NEWLINE]) = body.
Proof.
  intros H. unfold strip_line_end, pop_byte. rewrite reverse_app. simpl. rewrite reverse_involutive.
  destruct (reverse body) as [|x l] eqn:Hr; [done|].
  assert (x ∈ body) as Hx by (rewrite <-elem_of_reverse, Hr; left).
  rewrite Forall_forall in H. apply H in Hx. unfold is_line_end in Hx. rewrite orb_false_iff in Hx.
  destruct Hx as [_ ->]. done.
Qed.

(** A bounded body followed by a newline is read as its line. *)
Lemma read_serialized value body what max_frame_bytes after rest r :
  message_value value ->
  bounded_body what max_frame_bytes (serialize_with_protocol value) = RaftOk body ->
  contents r = (frame_bytes body ++ after, rest) ->
  exists r', read_raft_frame_bounded max_frame_bytes r = Done (inr (string_of_bytes body)) r' /\
    contents r' = (after, rest) /\ body = serialize_with_protocol value.
Proof using PLw.
  intros Hv Hbody Hc. destruct (serialized_line value Hv) as (_ & _ & Hutf & Hline).
  unfold bounded_body in Hbody. case_bool_decide as Hlen; [done|]. injection Hbody as <-.
  set (body := serialize_with_protocol value) in *.
  assert (newline_position body = None) as Hnl.
  { apply newline_position_None. intros Hin. rewrite Forall_forall in Hline. by apply Hline in Hin as [_ ?]. }
  unfold frame_bytes in Hc. rewrite <-app_assoc in Hc.
  pose proof (read_raft_frame_loop_spec max_frame_bytes (2 + length (rd_arrivals r)) [] body after r) as Hread.
  specialize (Hread eq_refl Hnl ltac:(simpl; lia) ltac:(by rewrite Hc) ltac:(case_bool_decide; lia)).
  apply wp_done in Hread as (res & r' & Hread & -> & Hc'). exists r'.
  unfold read_raft_frame_bounded. rewrite (bind_done _ _ _ _ _ (eq_refl : get r = Done r r)).
  rewrite (bind_done _ _ _ _ _ Hread). cbn [app].
  rewrite strip_line by (eapply Forall_impl; [exact Hline|by intros x [_ ?]]). rewrite Hutf.
  rewrite Hc', Hc. done.
Qed.

Lemma rpc_message rpc : message_value (rpc_to_value rpc).
Proof. left. by exists rpc. Qed.

Lemma response_message response : message_value (rpc_response_to_value response).
Proof. right. by exists response. Qed.

(** A frame is read back as its message. *)
Lemma rpc_frame_read rpc max_frame_bytes body after rest r :
  serialize_raft_rpc_frame_bounded rpc max_frame_bytes = RaftOk body ->
  contents r = (frame_bytes body ++ after, rest) ->
  exists line r', read_raft_frame_bounded max_frame_bytes r = Done (inr line) r' /\
    contents r' = (after, rest) /\ deserialize_raft_rpc_frame line = RaftOk rpc.
Proof using PLw.
  intros Hbody Hc. destruct (read_serialized _ _ _ _ _ _ _ (rpc_message rpc) Hbody Hc) as (r' & H1 & H2 & ->).
  eexists _, r'. split; [exact H1|]. split; [done|].
  destruct (serialized_line _ (rpc_message rpc)) as (Hval & Htrim & _).
  unfold deserialize_raft_rpc_frame. rewrite Hval. simpl. by rewrite Htrim, rpc_roundtrip.
Qed.

Lemma rpc_response_frame_read response max_frame_bytes body after rest r :
  serialize_raft_rpc_response_frame_bounded response max_frame_bytes = RaftOk body ->
  contents r = (frame_bytes body ++ after, rest) ->
  exists line r', read_raft_frame_bounded max_frame_bytes r = Done (inr line) r' /\
    contents r' = (after, rest) /\ deserialize_raft_rpc_response_frame line = RaftOk response.
Proof using PLw.
  intros Hbody Hc.
  destruct (read_serialized _ _ _ _ _ _ _ (response_message response) Hbody Hc) as (r' & H1 & H2 & ->).
  eexists _, r'. split; [exact H1|]. split; [done|].
  destruct (serialized_line _ (response_message response)) as (Hval & Htrim & _).
  unfold deserialize_raft_rpc_response_frame. rewrite Hval. simpl. by rewrite Htrim, rpc_response_roundtrip.
Qed.

End frames.
