(* ===== verification/RaftConnection.v ===== *)
(** * Calls on a pooled connection

    [src/src/broker_raft.rs], 21722-21946: a node keeps one connection to each
    peer and reuses it for its calls, so an answer that comes late, to a call
    that has timed out or was cancelled, must not be taken for the answer to a
    later one.  A stream is the peer's address and the answers it has sent that
    have not been read; a peer answers the frames of a stream in order
    ([handle_rpc_stream]).  The sizes and bytes of frames are those of [RaftRpc]. *)

From S2P Require Import Prelude Text Monad Protocol Queue BrokerTypes BrokerState Broker BrokerOps.
From S2P Require Import Wire BrokerSnapshot RaftQuorum RaftGrant RaftCache RaftValidate RaftFiles.
From S2P Require Import RaftLog RaftNode RaftApply RaftNodeOps RaftProtocol.
From S2P Require Import RaftRpc.
From stdpp Require Import options.

(** [RaftRpcConnection]; the reader is the stream's number. *)
Record RaftRpcConnection : Type := mkRaftRpcConnection {
  cn_addr : string;
  cn_reader : option nat;
}.

(** [RaftRpcConnection::default] *)
Definition connection_default : RaftRpcConnection := mkRaftRpcConnection EmptyString None.

Inductive RaftRpcTimeoutPolicy : Type := WithFloor | Strict.

(** What becomes of [TcpStream::connect]. *)
Inductive ConnectFate : Type :=
| Connects
| ConnectFails (err : string)
| ConnectTimesOut
| ConnectCancelled.

(** What becomes of writing a frame and reading its answer; [written] tells
    whether the frame was on its way when it went wrong. *)
Inductive ExchangeFate : Type :=
| Answered
| ExchangeFails (written : bool) (err : string)
| ExchangeTimesOut (written : bool)
| ExchangeCancelled (written : bool).

(** The connection, the streams that were opened, and what is to happen: the
    answers of the clock to "is the budget used up", of connecting, of the
    exchanges. *)
Record Calls : Type := mkCalls {
  ca_connection : RaftRpcConnection;
  ca_streams : gmap nat (string * list string);
  ca_expired : list bool;
  ca_connects : list ConnectFate;
  ca_exchanges : list ExchangeFate;
}.

Definition set_ca_connection (c : RaftRpcConnection) (s : Calls) : Calls :=
  mkCalls c (ca_streams s) (ca_expired s) (ca_connects s) (ca_exchanges s).
Definition set_ca_streams (x : gmap nat (string * list string)) (s : Calls) : Calls :=
  mkCalls (ca_connection s) x (ca_expired s) (ca_connects s) (ca_exchanges s).
Definition set_ca_expired (l : list bool) (s : Calls) : Calls :=
  mkCalls (ca_connection s) (ca_streams s) l (ca_connects s) (ca_exchanges s).
Definition set_ca_connects (l : list ConnectFate) (s : Calls) : Calls :=
  mkCalls (ca_connection s) (ca_streams s) (ca_expired s) l (ca_exchanges s).
Definition set_ca_exchanges (l : list ExchangeFate) (s : Calls) : Calls :=
  mkCalls (ca_connection s) (ca_streams s) (ca_expired s) (ca_connects s) l.

Definition next_expired : M Calls bool := fun s =>
  match ca_expired s with
  | e :: l => Done e (set_ca_expired l s)
  | [] => Done false s
  end.
Definition next_connect : M Calls ConnectFate := fun s =>
  match ca_connects s with
  | f :: l => Done f (set_ca_connects l s)
  | [] => Done Connects s
  end.
Definition next_exchange : M Calls ExchangeFate := fun s =>
  match ca_exchanges s with
  | f :: l => Done f (set_ca_exchanges l s)
  | [] => Done Answered s
  end.

(** A future awaited under [tokio::time::timeout]. *)
Inductive Awaited (A : Type) : Type :=
| Finished (a : A)
| Elapsed
| Cancelled.
Arguments Finished {A}.
Arguments Elapsed {A}.
Arguments Cancelled {A}.

(** [tokio::time::error::Elapsed] *)
Definition ELAPSED : string := "deadline has elapsed".

(** [RaftRpcConnection::reset] *)
Definition reset : M Calls unit :=
  modify (fun s => set_ca_connection (mkRaftRpcConnection (cn_addr (ca_connection s)) None) s).

(** [RaftRpcConnection::connect] *)
Definition connect (addr : string) : M Calls (Awaited (RaftResult unit)) :=
  fate ← next_connect;
  match fate with
  | Connects =>
      s ← get;
      let id := fresh (dom (ca_streams s)) in
      modify (fun s => set_ca_connection (mkRaftRpcConnection addr (Some id))
                         (set_ca_streams (<[id := (addr, [])]> (ca_streams s)) s)) ;;
      mret (Finished (RaftOk tt))
  | ConnectFails err => mret (Finished (RaftErr (EIo err)))
  | ConnectTimesOut => mret Elapsed
  | ConnectCancelled => mret Cancelled
  end.

Section calls.
Context `{PCd : RpcCodec} `{JS : JsonStrings}.

(** The peer at an address: the line it answers a frame with. *)
Variable answer : string -> bytes -> string.

(** A frame on its way: the peer's answer will be on the stream. *)
Definition write_frame (id : nat) (body : bytes) : M Calls unit :=
  modify (fun s => set_ca_streams (alter (fun p => (p.1, p.2 ++ [answer p.1 body])) id (ca_streams s)) s).

(** The next answer on the stream. *)
Definition read_line (id : nat) : M Calls (option string) := fun s =>
  match ca_streams s !! id with
  | Some (addr, line :: lines) => Done (Some line) (set_ca_streams (<[id := (addr, lines)]> (ca_streams s)) s)
  | _ => Done None s
  end.

(** [RaftRpcConnection::call_connected] *)
Definition call_connected (body : bytes) : M Calls (Awaited (RaftResult RaftRpcResponse)) :=
  s ← get;
  match cn_reader (ca_connection s) with
  | None => mret (Finished (RaftErr (ERpc "raft RPC connection is not open")))
  | Some id =>
      fate ← next_exchange;
      let goes_wrong (written : bool) result :=
        (if written then write_frame id body else mret tt) ;; mret result in
      match fate with
      | Answered =>
          write_frame id body ;;
          line ← read_line id;
          mret (Finished match line with
                | Some line => deserialize_raft_rpc_response_frame line
                | None => RaftErr (EIo "raft RPC frame ended before any bytes were read")
                end)
      | ExchangeFails written err => goes_wrong written (Finished (RaftErr (EIo err)))
      | ExchangeTimesOut written => goes_wrong written Elapsed
      | ExchangeCancelled written => goes_wrong written Cancelled
      end
  end.

(** [strict_rpc_timeout_budget_expired] *)
Definition strict_rpc_timeout_budget_expired (kind : RaftRpcRequestKind) : BrokerRaftError :=
  ERpc ("raft RPC " +:+ kind_as_str kind +:+ " strict timeout budget expired")%string.

(** Whether the deadline of a strict call has passed. *)
Definition budget_used (policy : RaftRpcTimeoutPolicy) : M Calls bool :=
  match policy with Strict => next_expired | WithFloor => mret false end.

(** The first half of an attempt: the connection is opened unless it is open to
    the address. *)
Definition ensure_connected (addr : string) : M Calls (Awaited (RaftResult unit)) :=
  s ← get;
  let c := ca_connection s in
  if bool_decide (cn_reader c = None) || negb (bool_decide (cn_addr c = addr)) then
    reset ;;
    res ← connect addr;
    match res with
    | Elapsed => reset ;; mret (Finished (RaftErr (ERpc ELAPSED)))
    | _ => mret res
    end
  else mret (Finished (RaftOk tt)).

(** The second half: the exchange, whose failures drop the connection. *)
Definition exchange_frame (kind : RaftRpcRequestKind) (body : bytes)
    : M Calls (Awaited (RaftResult RaftRpcResponse)) :=
  result ← call_connected body;
  match result with
  | Finished (RaftOk response) =>
      if matches_response kind response then mret (Finished (RaftOk response))
      else reset ;; mret (Finished (validate_raft_rpc_response_kind kind response))
  | Finished (RaftErr err) => reset ;; mret (Finished (RaftErr err))
  | Elapsed => reset ;; mret (Finished (RaftErr (ERpc ELAPSED)))
  | Cancelled => mret Cancelled
  end.

(** The attempts of [RaftRpcConnection::call_with_body]; [Cancelled] when the
    caller has dropped the call. *)
Fixpoint attempts_loop (attempts : nat) (policy : RaftRpcTimeoutPolicy) (addr : string)
    (kind : RaftRpcRequestKind) (body : bytes) (last_error : option BrokerRaftError)
    : M Calls (Awaited (RaftResult RaftRpcResponse)) :=
  let gives_up last_error :=
    mret (Finished (RaftErr (default (ERpc "raft RPC failed") last_error))) in
  match attempts with
  | O => gives_up last_error
  | S attempts =>
      expired ← budget_used policy;
      if expired : bool then gives_up (Some (strict_rpc_timeout_budget_expired kind))
      else
        opened ← ensure_connected addr;
        match opened with
        | Cancelled | Elapsed => mret Cancelled
        | Finished (RaftErr err) => attempts_loop attempts policy addr kind body (Some err)
        | Finished (RaftOk _) =>
            expired ← budget_used policy;
            if expired : bool then gives_up (Some (strict_rpc_timeout_budget_expired kind))
            else
              result ← exchange_frame kind body;
              match result with
              | Cancelled | Elapsed => mret Cancelled
              | Finished (RaftOk response) => mret (Finished (RaftOk response))
              | Finished (RaftErr err) => attempts_loop attempts policy addr kind body (Some err)
              end
        end
  end.

(** [RaftRpcConnection::call_with_body] *)
Definition call_with_body (policy : RaftRpcTimeoutPolicy) (addr : string) (kind : RaftRpcRequestKind)
    (body : bytes) (max_frame_bytes : Z) : M Calls (Awaited (RaftResult RaftRpcResponse)) :=
  if bool_decide (max_frame_bytes < Z.of_nat (length body)) then
    mret (Finished (RaftErr (over_frame_limit (kind_as_str kind) (Z.of_nat (length body)) max_frame_bytes)))
  else attempts_loop 2 policy addr kind body None.

(** [RaftRpcConnectionCall]: the connection is reset when the call is dropped
    before it is complete. *)
Definition connection_call (policy : RaftRpcTimeoutPolicy) (addr : string) (kind : RaftRpcRequestKind)
    (body : bytes) (max_frame_bytes : Z) : M Calls (option (RaftResult RaftRpcResponse)) :=
  res ← call_with_body policy addr kind body max_frame_bytes;
  match res with
  | Finished result => mret (Some result)
  | Cancelled | Elapsed => reset ;; mret None
  end.

End calls.

(** * A call gets its own answer *)

Section facts.
Context `{PCd : RpcCodec} `{JS : JsonStrings}.
Variable answer : string -> bytes -> string.
Implicit Types s : Calls.

(** No answer is outstanding on the open connection. *)
Definition idle s : Prop :=
  match cn_reader (ca_connection s) with
  | Some id => ca_streams s !! id = Some (cn_addr (ca_connection s), [])
  | None => True
  end.

Definition open_to (addr : string) s : Prop :=
  exists id, ca_connection s = mkRaftRpcConnection addr (Some id) /\ ca_streams s !! id = Some (addr, []).

Lemma open_idle addr s : open_to addr s -> idle s.
Proof. intros (id & Hc & Hs). unfold idle. by rewrite Hc. Qed.

Lemma wp_reset (Q : unit -> Calls -> Prop) s :
  Q tt (set_ca_connection (mkRaftRpcConnection (cn_addr (ca_connection s)) None) s) -> wp reset Q s.
Proof. intros H. by apply wp_modify. Qed.

Lemma wp_budget policy (Q : bool -> Calls -> Prop) s :
  (forall b l, Q b (set_ca_expired l s)) -> (forall b, Q b s) -> wp (budget_used policy) Q s.
Proof.
  intros H1 H2. destruct policy; [by apply wp_ret|]. apply wp_done. unfold budget_used, next_expired.
  destruct (ca_expired s); eauto.
Qed.

Lemma wp_ensure_connected addr s :
  idle s ->
  wp (ensure_connected addr) (fun res s' =>
    match res with
    | Finished (RaftOk _) => open_to addr s'
    | Finished (RaftErr _) => idle s'
    | Cancelled => True
    | Elapsed => False
    end) s.
Proof.
  intros Hidle. unfold ensure_connected. apply wp_bind, wp_get. case_match eqn:Hc.
  - apply wp_bind, wp_reset. apply wp_bind. unfold connect. apply wp_bind, wp_done. unfold next_connect.
    set (s1 := set_ca_connection _ s).
    assert (forall l, idle (set_ca_connects l s1)) as Hidle1 by done.
    assert (exists fate s2, (match ca_connects s1 with
      | f :: l => Done f (set_ca_connects l s1) | [] => Done Connects s1 end : Res Calls ConnectFate) = Done fate s2 /\
      idle s2) as (fate & s2 & -> & Hidle2).
    { destruct (ca_connects s1) as [|f l]; eexists _, _; (split; [done|]); [done|apply Hidle1]. }
    eexists _, _. split; [done|]. destruct fate.
    + apply wp_bind, wp_get, wp_bind, wp_modify. apply wp_ret, wp_ret. eexists. split; [done|].
      apply lookup_insert_eq.
    + by apply wp_ret, wp_ret.
    + apply wp_ret, wp_bind, wp_reset, wp_ret. done.
    + by apply wp_ret, wp_ret.
  - apply wp_ret. apply orb_false_iff in Hc as [H1 H2]. apply bool_decide_eq_false in H1.
    apply negb_false_iff, bool_decide_eq_true in H2. unfold idle in Hidle.
    destruct (ca_connection s) as [a [id|]] eqn:Heq; simpl in *; [|done]. subst a. by exists id.
Qed.

(** The exchange: the answer that is read is the one to the frame. *)
Lemma wp_exchange addr kind body s :
  open_to addr s ->
  wp (exchange_frame answer kind body) (fun res s' =>
    match res with
    | Finished (RaftOk response) =>
        idle s' /\ deserialize_raft_rpc_response_frame (answer addr body) = RaftOk response /\
        matches_response kind response = true
    | Finished (RaftErr _) => idle s'
    | Cancelled => True
    | Elapsed => False
    end) s.
Proof.
  intros (id & Hc & Hs). unfold exchange_frame, call_connected. apply wp_bind, wp_bind, wp_get. rewrite Hc.
  cbn [cn_reader]. apply wp_bind, wp_done.
  assert (exists fate s1, next_exchange s = Done fate s1 /\ ca_connection s1 = ca_connection s /\
    ca_streams s1 = ca_streams s) as (fate & s1 & -> & Hc1 & Hs1).
  { unfold next_exchange. destruct (ca_exchanges s); by eexists _, _. }
  rewrite Hc in Hc1. rewrite Hs in Hs1 || rewrite <-Hs1 in Hs. eexists _, _. split; [done|]. destruct fate as [|w err|w|w].
  - apply wp_bind, wp_modify, wp_bind, wp_done. unfold read_line. simpl. rewrite lookup_alter_eq, Hs. simpl.
    eexists _, _. split; [done|]. apply wp_ret.
    destruct (deserialize_raft_rpc_response_frame (answer addr body)) as [response|err] eqn:Hd.
    + destruct (matches_response kind response) eqn:Hm.
      * apply wp_ret. split; [|done]. unfold idle. simpl. rewrite Hc1. simpl. apply lookup_insert_eq.
      * apply wp_bind, wp_reset, wp_ret. unfold validate_raft_rpc_response_kind. by rewrite Hm.
    + apply wp_bind, wp_reset, wp_ret. done.
  - apply wp_bind. destruct w; [apply wp_modify|apply wp_ret]; apply wp_ret, wp_bind, wp_reset, wp_ret; done.
  - apply wp_bind. destruct w; [apply wp_modify|apply wp_ret]; apply wp_ret, wp_bind, wp_reset, wp_ret; done.
  - apply wp_bind. destruct w; [apply wp_modify|apply wp_ret]; by apply wp_ret, wp_ret.
Qed.

Definition own_answer (addr : string) (kind : RaftRpcRequestKind) (body : bytes)
    (result : RaftResult RaftRpcResponse) : Prop :=
  forall response, result = RaftOk response ->
    deserialize_raft_rpc_response_frame (answer addr body) = RaftOk response /\
    matches_response kind response = true.

Lemma wp_attempts attempts policy addr kind body last_error s :
  idle s ->
  wp (attempts_loop answer attempts policy addr kind body last_error) (fun res s' =>
    match res with
    | Finished result => idle s' /\ own_answer addr kind body result
    | _ => True
    end) s.
Proof.
  revert last_error s. induction attempts as [|attempts IH]; intros last_error s Hs; simpl; [by apply wp_ret|].
  assert (forall s1, idle s1 -> wp (opened ← ensure_connected addr;
    match opened with
    | Cancelled | Elapsed => mret Cancelled
    | Finished (RaftErr err) => attempts_loop answer attempts policy addr kind body (Some err)
    | Finished (RaftOk _) =>
        expired ← budget_used policy;
        if expired : bool then
          mret (Finished (RaftErr (default (ERpc "raft RPC failed") (Some (strict_rpc_timeout_budget_expired kind)))))
        else
          result ← exchange_frame answer kind body;
          match result with
          | Cancelled | Elapsed => mret Cancelled
          | Finished (RaftOk response) => mret (Finished (RaftOk response))
          | Finished (RaftErr err) => attempts_loop answer attempts policy addr kind body (Some err)
          end
    end) (fun res s' => match res with
                         | Finished result => idle s' /\ own_answer addr kind body result
                         | _ => True end) s1) as Hgo.
  { intros s1 H1. apply wp_bind. eapply wp_mono; [by apply wp_ensure_connected|].
    intros [[u|err]| |] s2 H2; [|by apply IH|done|by apply wp_ret].
    assert (forall s3, open_to addr s3 -> wp (exchange_frame answer kind body) (fun res s' =>
      wp (match res with
          | Cancelled | Elapsed => mret Cancelled
          | Finished (RaftOk response) => mret (Finished (RaftOk response))
          | Finished (RaftErr err) => attempts_loop answer attempts policy addr kind body (Some err)
          end) (fun res s' => match res with
                         | Finished result => idle s' /\ own_answer addr kind body result
                         | _ => True end) s') s3) as Hex.
    { intros s3 H3. eapply wp_mono; [by apply wp_exchange|].
      intros [[response|err]| |] s4 H4; [|by apply IH|done|by apply wp_ret].
      apply wp_ret. destruct H4 as (H5 & H6 & H7). split; [done|]. by intros ? [= <-]. }
    apply wp_bind. apply wp_budget; intros [] *.
    - apply wp_ret. split; [|done]. by eapply open_idle.
    - by apply wp_bind, Hex.
    - apply wp_ret. split; [|done]. by eapply open_idle.
    - by apply wp_bind, Hex. }
  apply wp_bind. apply wp_budget; intros [] *; try (by apply wp_ret); by apply Hgo.
Qed.

Lemma wp_connection_call policy addr kind body max_frame_bytes s :
  idle s ->
  wp (connection_call answer policy addr kind body max_frame_bytes)
    (fun res s' => idle s' /\ forall result, res = Some result -> own_answer addr kind body result) s.
Proof.
  intros Hs. unfold connection_call, call_with_body. apply wp_bind. case_bool_decide.
  - apply wp_ret, wp_ret. split; [done|]. by intros ? [= <-].
  - eapply wp_mono; [by apply wp_attempts|]. intros [result| |] s1 H1.
    + destruct H1 as [H1 H2]. apply wp_ret. split; [done|]. by intros ? [= <-].
    + by apply wp_bind, wp_reset, wp_ret.
    + by apply wp_bind, wp_reset, wp_ret.
Qed.

(** ** Histories *)

(** One call of the connection's owner, whatever becomes of it. *)
Definition call_step s s' : Prop :=
  exists policy addr kind body max_frame_bytes res,
    connection_call answer policy addr kind body max_frame_bytes s = Done res s'.

(** A node that has just started, before anything of the network's future. *)
Definition calls_start (expired : list bool) (connects : list ConnectFate) (exchanges : list ExchangeFate)
    : Calls := mkCalls connection_default ∅ expired connects exchanges.

Lemma idle_reachable expired connects exchanges s :
  star call_step (calls_start expired connects exchanges) s -> idle s.
Proof.
  intros H. eapply (star_inv call_step idle); [|exact H|done]. intros s1 s2 Hs1 (policy & addr & kind & body & max & res & Hcall).
  pose proof (wp_connection_call policy addr kind body max s1 Hs1) as Hw.
  apply wp_done in Hw as (a & s' & Hcall' & [Hi _]). congruence.
Qed.

(** C23: A call on a pooled connection gets its own answer: after any sequence
    of calls that were answered, failed, timed out before or after their frame
    was written, or were cancelled, a further call returns, and when it returns
    a response it is the one its peer gave to this very frame, and of the kind
    of the request: no late answer to an earlier call is ever taken for it. *)
Theorem rpc_answer_is_own expired connects exchanges s policy addr kind body max_frame_bytes :
  star call_step (calls_start expired connects exchanges) s ->
  exists res s', connection_call answer policy addr kind body max_frame_bytes s = Done res s' /\
    forall response, res = Some (RaftOk response) ->
      deserialize_raft_rpc_response_frame (answer addr body) = RaftOk response /\
      matches_response kind response = true.
Proof.
  intros H%idle_reachable. pose proof (wp_connection_call policy addr kind body max_frame_bytes s H) as Hw.
  apply wp_done in Hw as (res & s' & Hcall & _ & Hown). exists res, s'. split; [done|].
  intros response ->. by apply (Hown (RaftOk response)).
Qed.

End facts.
