(* ===== verification/RaftPipeline.v ===== *)
(** * The queue of client requests at a leader

    [src/src/broker_raft.rs]: the requests of clients wait in a bounded queue
    (8725-8791) from which one driver task takes batches, proposes them to the
    log and answers them (8793-9131, 3020-3163); a request whose client has
    gone is dropped.  The queue is behind a mutex: what is done under one lock
    is one step, and tasks interleave between steps.  What the log makes of a
    batch ([append_replicate_commit_apply_client_batch], whose parts are in
    [RaftLeader]) is the step's label: any result.  The delay that lets a batch
    fill up and its wake-up only decide when a step happens; telemetry is left
    out. *)

From S2P Require Import Prelude Text Monad Protocol Queue BrokerTypes BrokerState Broker.
From S2P Require Import BrokerOps RaftQuorum RaftGrant RaftCache RaftValidate RaftConfig.
From stdpp Require Import options.

(** ** Data *)

(** [PendingClientRequest]; the ticket stands for the channel of its result. *)
Record PendingClientRequest : Type := mkPendingClientRequest {
  pr_client_id : ClientId;
  pr_request : Request.t;
  pr_request_id : option string;
  pr_request_fingerprint : option string;
  pr_ticket : nat;
}.

Inductive ClientRequestBatchError : Type :=
| BatchNotLeader (leader_id leader_addr : option string)
| BatchQuorumUnavailable (index : Z) (votes quorum : nat)
| BatchClientProposalUncertain (index : Z) (votes quorum : nat)
| BatchOther (error : string).

(** [ClientRequestBatchError::from_broker_error] *)
Definition from_broker_error (err : BrokerRaftError) : ClientRequestBatchError :=
  match err with
  | ENotLeader leader_id leader_addr => BatchNotLeader leader_id leader_addr
  | EQuorumUnavailable index votes quorum => BatchQuorumUnavailable index votes quorum
  | EClientProposalUncertain index votes quorum => BatchClientProposalUncertain index votes quorum
  | other => BatchOther (error_display other)
  end.

(** [ClientRequestBatchError::into_broker_error] *)
Definition into_broker_error (err : ClientRequestBatchError) : BrokerRaftError :=
  match err with
  | BatchNotLeader leader_id leader_addr => ENotLeader leader_id leader_addr
  | BatchQuorumUnavailable index votes quorum => EQuorumUnavailable index votes quorum
  | BatchClientProposalUncertain index votes quorum => EClientProposalUncertain index votes quorum
  | BatchOther error => ERpc error
  end.

(** Where a driver task is: at the head of its loop, with requests it has taken
    from the queue, with a batch that is being committed. *)
Inductive DriverPhase : Type :=
| AtTop
| Taken (pipeline : list PendingClientRequest)
| Committing (pipeline : list PendingClientRequest).

(** [ClientRequestBatchState] with the response cache; the channels: their
    number, those whose receiver is gone, the results sent; the requests that
    were dropped, those that were proposed, in order; the driver tasks. *)
Record Pipeline : Type := mkPipeline {
  pl_pending : list PendingClientRequest;
  pl_driver_active : bool;
  pl_cache : CacheNode;
  pl_tickets : nat;
  pl_closed : gset nat;
  pl_sent : list (nat * (ClientRequestBatchError + Z));
  pl_pruned : list nat;
  pl_proposed : list nat;
  pl_drivers : list DriverPhase;
}.

Definition set_pl_pending (l : list PendingClientRequest) (s : Pipeline) : Pipeline :=
  mkPipeline l (pl_driver_active s) (pl_cache s) (pl_tickets s) (pl_closed s) (pl_sent s) (pl_pruned s)
    (pl_proposed s) (pl_drivers s).
Definition set_pl_cache (c : CacheNode) (s : Pipeline) : Pipeline :=
  mkPipeline (pl_pending s) (pl_driver_active s) c (pl_tickets s) (pl_closed s) (pl_sent s) (pl_pruned s)
    (pl_proposed s) (pl_drivers s).
Definition add_pl_ticket (s : Pipeline) : Pipeline :=
  mkPipeline (pl_pending s) (pl_driver_active s) (pl_cache s) (S (pl_tickets s)) (pl_closed s) (pl_sent s)
    (pl_pruned s) (pl_proposed s) (pl_drivers s).
Definition add_pl_closed (ticket : nat) (s : Pipeline) : Pipeline :=
  mkPipeline (pl_pending s) (pl_driver_active s) (pl_cache s) (pl_tickets s) ({[ticket]} ∪ pl_closed s)
    (pl_sent s) (pl_pruned s) (pl_proposed s) (pl_drivers s).
Definition add_pl_sent (ticket : nat) (result : ClientRequestBatchError + Z) (s : Pipeline) : Pipeline :=
  mkPipeline (pl_pending s) (pl_driver_active s) (pl_cache s) (pl_tickets s) (pl_closed s)
    (pl_sent s ++ [(ticket, result)]) (pl_pruned s) (pl_proposed s) (pl_drivers s).
Definition add_pl_pruned (ticket : nat) (s : Pipeline) : Pipeline :=
  mkPipeline (pl_pending s) (pl_driver_active s) (pl_cache s) (pl_tickets s) (pl_closed s) (pl_sent s)
    (pl_pruned s ++ [ticket]) (pl_proposed s) (pl_drivers s).
Definition add_pl_proposed (tickets : list nat) (s : Pipeline) : Pipeline :=
  mkPipeline (pl_pending s) (pl_driver_active s) (pl_cache s) (pl_tickets s) (pl_closed s) (pl_sent s)
    (pl_pruned s) (pl_proposed s ++ tickets) (pl_drivers s).
Definition set_pl_drivers (active : bool) (drivers : list DriverPhase) (s : Pipeline) : Pipeline :=
  mkPipeline (pl_pending s) active (pl_cache s) (pl_tickets s) (pl_closed s) (pl_sent s) (pl_pruned s)
    (pl_proposed s) drivers.

Section pipeline.
Variable config : BrokerRaftConfig.

(** ** Requests whose client has gone *)

(** The reservation of a request that will not be applied is released. *)
Definition release_identity (p : PendingClientRequest) : M Pipeline unit := fun s =>
  match pr_request_id p, pr_request_fingerprint p with
  | Some request_id, Some request_fingerprint =>
      match release_unapplied_client_request_id request_id request_fingerprint (pl_cache s) with
      | Done _ c => Done tt (set_pl_cache c s)
      | Panicked msg => Panicked msg
      | OutOfFuel => OutOfFuel
      end
  | _, _ => Done tt s
  end.

(** The [retain] of the two pruning functions: what is kept. *)
Fixpoint prune_cancelled (l : list PendingClientRequest) : M Pipeline (list PendingClientRequest) :=
  match l with
  | [] => mret []
  | p :: l =>
      s ← get;
      if bool_decide (pr_ticket p ∈ pl_closed s) then
        release_identity p ;;
        modify (add_pl_pruned (pr_ticket p)) ;;
        prune_cancelled l
      else
        kept ← prune_cancelled l;
        mret (p :: kept)
  end.

(** [prune_cancelled_client_request_queue_locked] *)
Definition prune_cancelled_client_request_queue : M Pipeline unit :=
  s ← get;
  kept ← prune_cancelled (pl_pending s);
  modify (set_pl_pending kept).

(** [client_request_pipeline_capacity] *)
Definition client_request_pipeline_capacity : nat :=
  Z.to_nat (Z.max (saturating_mul64 (Z.max (brc_client_batch_max_entries config) 1)
                     (Z.max (brc_client_pipeline_max_batches config) 1)) 1).

(** ** Queueing *)

Definition max_pending : nat := Z.to_nat (Z.max (brc_client_batch_max_pending config) 1).

(** The first part of [enqueue_client_request], under the lock: the request
    waits for its result on the channel, or the queue is full; a driver is
    started when there is none. *)
Definition enqueue_client_request (client_id : ClientId) (request : Request.t)
    (request_id request_fingerprint : option string) : M Pipeline (RaftResult nat) :=
  prune_cancelled_client_request_queue ;;
  s ← get;
  if bool_decide (max_pending <= length (pl_pending s))%nat then
    mret (RaftErr (EClientQueueFull (length (pl_pending s)) max_pending))
  else
    let ticket := pl_tickets s in
    modify add_pl_ticket ;;
    modify (set_pl_pending (pl_pending s ++
      [mkPendingClientRequest client_id request request_id request_fingerprint ticket])) ;;
    modify (fun s => if pl_driver_active s then s else set_pl_drivers true (pl_drivers s ++ [AtTop]) s) ;;
    mret (RaftOk ticket).

(** [take_client_request_pipeline] *)
Definition take_client_request_pipeline : M Pipeline (list PendingClientRequest) :=
  prune_cancelled_client_request_queue ;;
  s ← get;
  modify (set_pl_pending (drop client_request_pipeline_capacity (pl_pending s))) ;;
  mret (take client_request_pipeline_capacity (pl_pending s)).

(** [refill_client_request_pipeline] *)
Definition refill_client_request_pipeline (pipeline : list PendingClientRequest)
    : M Pipeline (list PendingClientRequest) :=
  if bool_decide (client_request_pipeline_capacity <= length pipeline)%nat then mret pipeline
  else
    prune_cancelled_client_request_queue ;;
    s ← get;
    let n := (client_request_pipeline_capacity - length pipeline)%nat in
    modify (set_pl_pending (drop n (pl_pending s))) ;;
    mret (pipeline ++ take n (pl_pending s)).

(** The command that is proposed for a request. *)
Definition pending_command (p : PendingClientRequest) : RaftCommand :=
  match pr_request_id p, pr_request_fingerprint p with
  | Some request_id, Some request_fingerprint =>
      ClientRequestWithIdentity (pr_client_id p) (pr_request p) None request_id request_fingerprint
  | _, _ => ClientRequest (pr_client_id p) (pr_request p) None
  end.

(** ** Answering *)

(** [finish_client_request_batch_success] *)
Fixpoint answer_indexes (mismatch_error : ClientRequestBatchError) (pipeline : list PendingClientRequest)
    (indexes : list Z) : M Pipeline unit :=
  match pipeline, indexes with
  | [], _ => mret tt
  | p :: pipeline, index :: indexes =>
      modify (add_pl_sent (pr_ticket p) (inr index)) ;; answer_indexes mismatch_error pipeline indexes
  | p :: pipeline, [] =>
      release_identity p ;;
      modify (add_pl_sent (pr_ticket p) (inl mismatch_error)) ;;
      answer_indexes mismatch_error pipeline []
  end.

Definition finish_client_request_batch_success (pipeline : list PendingClientRequest) (indexes : list Z)
    : M Pipeline unit :=
  answer_indexes (BatchOther ("raft client request batch returned " +:+ pretty (length indexes)
    +:+ " commit indexes for " +:+ pretty (length pipeline) +:+ " requests")%string) pipeline indexes.

Definition finish_batch (pipeline : list PendingClientRequest) (result : RaftResult (list Z))
    : M Pipeline unit :=
  match result with
  | RaftOk indexes => finish_client_request_batch_success pipeline indexes
  | RaftErr err =>
      for_each pipeline (fun p => modify (add_pl_sent (pr_ticket p) (inl (from_broker_error err))))
  end.

(** ** The driver *)

(** One step of [drive_client_request_batches] in a phase; [None] when the task
    ends.  [result] is what the log makes of the batch. *)
Definition driver_step (phase : DriverPhase) (result : RaftResult (list Z)) : M Pipeline (option DriverPhase) :=
  match phase with
  | AtTop =>
      pipeline ← take_client_request_pipeline;
      pipeline ← prune_cancelled pipeline;
      mret (Some (Taken pipeline))
  | Taken [] =>
      s ← get;
      if bool_decide (pl_pending s = []) then mret None else mret (Some AtTop)
  | Taken pipeline =>
      pipeline ← refill_client_request_pipeline pipeline;
      pipeline ← prune_cancelled pipeline;
      if bool_decide (pipeline = []) then mret (Some AtTop)
      else
        modify (add_pl_proposed (pr_ticket <$> pipeline)) ;;
        mret (Some (Committing pipeline))
  | Committing pipeline => finish_batch pipeline result ;; mret (Some AtTop)
  end.

(** The [i]th driver task takes a step. *)
Definition drive (i : nat) (result : RaftResult (list Z)) : M Pipeline unit :=
  s ← get;
  match pl_drivers s !! i with
  | None => mret tt
  | Some phase =>
      next ← driver_step phase result;
      modify (fun s =>
        match next with
        | Some phase => set_pl_drivers (pl_driver_active s) (<[i := phase]> (pl_drivers s)) s
        | None => set_pl_drivers false (delete i (pl_drivers s)) s
        end)
  end.

(** ** The tasks together *)

Inductive PipelineEvent : Type :=
| Enqueue (client_id : ClientId) (request : Request.t) (request_id request_fingerprint : option string)
| Cancel (ticket : nat)
| Prune
| Drive (i : nat) (result : RaftResult (list Z)).

Definition pipeline_event (e : PipelineEvent) : M Pipeline unit :=
  match e with
  | Enqueue client_id request request_id request_fingerprint =>
      enqueue_client_request client_id request request_id request_fingerprint ;; mret tt
  | Cancel ticket => modify (add_pl_closed ticket)
  | Prune => prune_cancelled_client_request_queue
  | Drive i result => drive i result
  end.

Definition pipeline_step (s s' : Pipeline) : Prop := exists e, pipeline_event e s = Done tt s'.

Definition pipeline_start (cache : CacheNode) : Pipeline := mkPipeline [] false cache 0 ∅ [] [] [] [].

End pipeline.

(** * Each queued request is answered once, in order

    The invariant of the queue of [RaftPipeline] under any interleaving of its
    tasks. *)

Abbreviation tickets l := (pr_ticket <$> l).

(** The requests a driver holds; those it has not proposed yet. *)
Definition phase_requests (phase : DriverPhase) : list PendingClientRequest :=
  match phase with AtTop => [] | Taken p | Committing p => p end.

Definition unproposed (phase : DriverPhase) : list PendingClientRequest :=
  match phase with Taken p => p | _ => [] end.

Lemma perm_move {A} (a b c g o : list A) : a ++ b ++ c ++ g ++ o ≡ₚ (a ++ g) ++ b ++ c ++ o.
Proof.
  rewrite <-app_assoc. apply Permutation_app_head. rewrite !app_assoc. apply Permutation_app_tail.
  rewrite <-(app_assoc g). apply Permutation_app_comm.
Qed.

Section facts.
Variable config : BrokerRaftConfig.
Implicit Types s : Pipeline.
Abbreviation capacity := (client_request_pipeline_capacity config).

(** ** Runs of the operations *)

Definition is_gone s (p : PendingClientRequest) : Prop := pr_ticket p ∈ pl_closed s.
#[local] Instance is_gone_dec s p : Decision (is_gone s p).
Proof. unfold is_gone. apply _. Defined.

(** Only the cache has changed, and requests were dropped. *)
Definition dropped (gone : list nat) (c : CacheNode) s : Pipeline :=
  mkPipeline (pl_pending s) (pl_driver_active s) c (pl_tickets s) (pl_closed s) (pl_sent s)
    (pl_pruned s ++ gone) (pl_proposed s) (pl_drivers s).

Lemma release_run p s : exists c, release_identity p s = Done tt (set_pl_cache c s).
Proof.
  unfold release_identity, release_unapplied_client_request_id.
  destruct (pr_request_id p), (pr_request_fingerprint p); try (exists (pl_cache s); by destruct s).
  rewrite (bind_done _ _ _ _ _ (eq_refl : gets node_cache (pl_cache s) = Done _ _)).
  match goal with |- context [if ?b then _ else _] => destruct b end; [by eexists|].
  exists (pl_cache s). by destruct s.
Qed.

Lemma prune_run l s : exists c,
  prune_cancelled l s
  = Done (filter (fun p => ~ is_gone s p) l) (dropped (tickets (filter (is_gone s) l)) c s).
Proof.
  revert s. induction l as [|p l IH]; intros s.
  { exists (pl_cache s). simpl. destruct s. unfold dropped. simpl. by rewrite app_nil_r. }
  simpl. rewrite (bind_done _ _ _ _ _ (eq_refl : get s = Done s s)). case_bool_decide as Hp.
  - destruct (release_run p s) as [c1 H1]. rewrite (bind_done _ _ _ _ _ H1).
    rewrite (bind_done _ _ _ tt (add_pl_pruned (pr_ticket p) (set_pl_cache c1 s))) by done.
    destruct (IH (add_pl_pruned (pr_ticket p) (set_pl_cache c1 s))) as [c2 H2]. exists c2. rewrite H2.
    rewrite !filter_cons. rewrite decide_False by (by intros []). rewrite decide_True by done.
    f_equal. unfold dropped. simpl. by rewrite <-app_assoc.
  - destruct (IH s) as [c H]. exists c. rewrite (bind_done _ _ _ _ _ H).
    rewrite !filter_cons. by rewrite decide_True, decide_False by done.
Qed.

Lemma prune_queue_run s : exists c,
  prune_cancelled_client_request_queue s
  = Done tt (set_pl_pending (filter (fun p => ~ is_gone s p) (pl_pending s))
      (dropped (tickets (filter (is_gone s) (pl_pending s))) c s)).
Proof.
  destruct (prune_run (pl_pending s) s) as [c H]. exists c. unfold prune_cancelled_client_request_queue.
  rewrite (bind_done _ _ _ _ _ (eq_refl : get s = Done s s)). by rewrite (bind_done _ _ _ _ _ H).
Qed.

(** ** The invariant *)

(** The requests while a driver holds [held], of which [unprop] are not
    proposed: the bounds; every request is in exactly one place; what was
    proposed, what is held and what waits is in the order of arrival; only
    requests whose client has gone were dropped. *)
Record core (held unprop : list PendingClientRequest) s : Prop := mkCore {
  co_pending : (length (pl_pending s) <= max_pending config)%nat;
  co_held : (length held <= capacity)%nat;
  co_tickets : seq 0 (pl_tickets s)
    ≡ₚ pl_pruned s ++ (pl_sent s).*1 ++ tickets held ++ tickets (pl_pending s);
  co_order : pl_proposed s ++ tickets unprop ++ tickets (pl_pending s) `sublist_of` seq 0 (pl_tickets s);
  co_pruned : Forall (fun t => t ∈ pl_closed s) (pl_pruned s);
}.

(** There is one driver, or none and no request waits. *)
Definition pipeline_ok s : Prop :=
  match pl_drivers s with
  | [] => pl_driver_active s = false /\ pl_pending s = [] /\ core [] [] s
  | [phase] => pl_driver_active s = true /\ core (phase_requests phase) (unproposed phase) s
  | _ => False
  end.

Lemma tickets_split s l : tickets l ≡ₚ tickets (filter (is_gone s) l) ++ tickets (filter (fun p => ~ is_gone s p) l).
Proof.
  induction l as [|p l IH]; [done|]. rewrite !filter_cons. destruct (decide (is_gone s p)).
  - rewrite decide_False by (by intros []). simpl. by constructor.
  - rewrite decide_True by done. simpl. rewrite IH. apply Permutation_middle.
Qed.

Lemma tickets_open_sublist s l : tickets (filter (fun p => ~ is_gone s p) l) `sublist_of` tickets l.
Proof. apply fmap_sublist, sublist_filter. Qed.

Lemma gone_closed s l : Forall (fun t => t ∈ pl_closed s) (tickets (filter (is_gone s) l)).
Proof. apply Forall_fmap, Forall_forall. by intros p [Hp _]%list_elem_of_filter. Qed.

Definition same_tasks s s' : Prop :=
  pl_drivers s' = pl_drivers s /\ pl_driver_active s' = pl_driver_active s.

Lemma core_prune_queue held unprop s s' :
  core held unprop s -> prune_cancelled_client_request_queue s = Done tt s' ->
  core held unprop s' /\ same_tasks s s' /\ (pl_pending s = [] -> pl_pending s' = []).
Proof.
  intros [H1 H2 H3 H4 H5] Hrun. destruct (prune_queue_run s) as [c Hc]. rewrite Hc in Hrun.
  injection Hrun as <-. split; [|split; [done|by simpl; intros ->]]. constructor; simpl.
  - pose proof (length_filter (fun p => ~ is_gone s p) (pl_pending s)). lia.
  - done.
  - rewrite H3, (tickets_split s (pl_pending s)). apply perm_move.
  - etrans; [|exact H4]. apply sublist_app; [done|]. apply sublist_app; [done|]. apply tickets_open_sublist.
  - apply Forall_app. split; [done|apply gone_closed].
Qed.

Lemma core_prune_held l s kept s' :
  core l l s -> prune_cancelled l s = Done kept s' -> core kept kept s' /\ same_tasks s s'.
Proof.
  intros [H1 H2 H3 H4 H5] Hrun. destruct (prune_run l s) as [c Hc]. rewrite Hc in Hrun.
  injection Hrun as <- <-. split; [|done]. constructor; simpl.
  - done.
  - pose proof (length_filter (fun p => ~ is_gone s p) l). lia.
  - rewrite H3, (tickets_split s l). rewrite <-!app_assoc. apply Permutation_app_head.
    rewrite (app_assoc (pl_sent s).*1), (app_assoc (tickets (filter (is_gone s) l)) (pl_sent s).*1).
    apply Permutation_app_tail, Permutation_app_comm.
  - etrans; [|exact H4]. apply sublist_app; [done|]. apply sublist_app; [apply tickets_open_sublist|done].
  - apply Forall_app. split; [done|apply gone_closed].
Qed.

(** Requests go from the head of the queue to the end of what is held. *)
Lemma core_move n held s :
  (length held + n <= capacity)%nat -> core held held s ->
  core (held ++ take n (pl_pending s)) (held ++ take n (pl_pending s)) (set_pl_pending (drop n (pl_pending s)) s).
Proof.
  intros Hn [H1 H2 H3 H4 H5]. constructor; simpl.
  - rewrite length_drop. lia.
  - rewrite length_app, length_take. lia.
  - rewrite H3. rewrite <-(take_drop n (pl_pending s)) at 1. by rewrite !fmap_app, <-!app_assoc.
  - rewrite <-(take_drop n (pl_pending s)), !fmap_app in H4. by rewrite fmap_app, <-!app_assoc.
  - done.
Qed.

Lemma core_take s p s' :
  core [] [] s -> take_client_request_pipeline config s = Done p s' -> core p p s' /\ same_tasks s s'.
Proof.
  intros Hs. unfold take_client_request_pipeline. intros Hrun.
  apply bind_done_inv in Hrun as ([] & s1 & Hp & Hrun).
  destruct (core_prune_queue [] [] s s1 Hs Hp) as (H1 & Ht & _).
  injection Hrun as <- <-. split; [|done]. apply (core_move capacity [] s1); [simpl; lia|done].
Qed.

Lemma core_refill p s p' s' :
  core p p s -> refill_client_request_pipeline config p s = Done p' s' -> core p' p' s' /\ same_tasks s s'.
Proof.
  intros Hs. unfold refill_client_request_pipeline. case_bool_decide as Hlen; [by intros [= <- <-]|].
  intros Hrun. apply bind_done_inv in Hrun as ([] & s1 & Hp & Hrun).
  destruct (core_prune_queue p p s s1 Hs Hp) as (H1 & Ht & _).
  injection Hrun as <- <-. split; [|done]. apply core_move; [lia|done].
Qed.

Lemma core_propose p s : core p p s -> core p [] (add_pl_proposed (tickets p) s).
Proof. intros [H1 H2 H3 H4 H5]. constructor; simpl; [done..| |done]. by rewrite <-app_assoc. Qed.

(** ** Answering *)

(** Only the cache has changed, and results were sent. *)
Definition answered (results : list (nat * (ClientRequestBatchError + Z))) (c : CacheNode) s : Pipeline :=
  mkPipeline (pl_pending s) (pl_driver_active s) c (pl_tickets s) (pl_closed s) (pl_sent s ++ results)
    (pl_pruned s) (pl_proposed s) (pl_drivers s).

Lemma answer_indexes_run err p indexes s : exists results c,
  answer_indexes err p indexes s = Done tt (answered results c s) /\ results.*1 = tickets p.
Proof.
  revert indexes s. induction p as [|x p IH]; intros indexes s; simpl.
  { exists [], (pl_cache s). split; [|done]. destruct s. unfold answered. simpl. by rewrite app_nil_r. }
  destruct indexes as [|index indexes].
  - destruct (release_run x s) as [c1 H1]. rewrite (bind_done _ _ _ _ _ H1).
    set (s1 := add_pl_sent (pr_ticket x) (inl err) (set_pl_cache c1 s)).
    rewrite (bind_done _ _ _ tt s1) by done. destruct (IH [] s1) as (results & c & H & Hr).
    exists ((pr_ticket x, inl err) :: results), c. rewrite H. split; [|by rewrite fmap_cons, Hr].
    unfold answered. simpl. by rewrite <-app_assoc.
  - set (s1 := add_pl_sent (pr_ticket x) (inr index) s). rewrite (bind_done _ _ _ tt s1) by done.
    destruct (IH indexes s1) as (results & c & H & Hr).
    exists ((pr_ticket x, inr index) :: results), c. rewrite H. split; [|by rewrite fmap_cons, Hr].
    unfold answered. simpl. by rewrite <-app_assoc.
Qed.

Lemma answer_error_run err p s : exists results,
  for_each p (fun x => modify (add_pl_sent (pr_ticket x) (inl err))) s = Done tt (answered results (pl_cache s) s) /\
  results.*1 = tickets p.
Proof.
  revert s. induction p as [|x p IH]; intros s; simpl.
  { exists []. split; [|done]. destruct s. unfold answered. simpl. by rewrite app_nil_r. }
  set (s1 := add_pl_sent (pr_ticket x) (inl err) s). rewrite (bind_done _ _ _ tt s1) by done.
  destruct (IH s1) as (results & H & Hr). exists ((pr_ticket x, inl err) :: results). rewrite H.
  split; [|by rewrite fmap_cons, Hr]. unfold answered. simpl. by rewrite <-app_assoc.
Qed.

Lemma finish_run p result s : exists results c,
  finish_batch p result s = Done tt (answered results c s) /\ results.*1 = tickets p.
Proof.
  destruct result as [indexes|err]; [apply answer_indexes_run|].
  destruct (answer_error_run (from_broker_error err) p s) as (results & H). by exists results, (pl_cache s).
Qed.

Lemma core_finish p results c s :
  results.*1 = tickets p -> core p [] s -> core [] [] (answered results c s).
Proof.
  intros Hr [H1 H2 H3 H4 H5]. constructor; simpl; [done|lia| |done|done].
  rewrite H3, fmap_app, Hr. by rewrite <-!app_assoc.
Qed.

(** ** The events *)

Lemma core_tasks held unprop active drivers s :
  core held unprop s -> core held unprop (set_pl_drivers active drivers s).
Proof. by intros [H1 H2 H3 H4 H5]. Qed.

Lemma core_enqueue held unprop client_id request request_id fingerprint s :
  (length (pl_pending s) < max_pending config)%nat -> core held unprop s ->
  core held unprop (set_pl_pending (pl_pending s ++
    [mkPendingClientRequest client_id request request_id fingerprint (pl_tickets s)]) (add_pl_ticket s)).
Proof.
  intros Hlen [H1 H2 H3 H4 H5].
  constructor; cbn [pl_pending pl_tickets pl_sent pl_pruned pl_proposed pl_closed set_pl_pending add_pl_ticket];
    [rewrite length_app; simpl; lia|done| | |done].
  - rewrite seq_S, fmap_app, H3. simpl. by rewrite <-!app_assoc.
  - rewrite seq_S, fmap_app, !app_assoc. apply sublist_app; [by rewrite <-app_assoc|done].
Qed.

Lemma ok_enqueue client_id request request_id fingerprint s r s' :
  pipeline_ok s ->
  enqueue_client_request config client_id request request_id fingerprint s = Done r s' -> pipeline_ok s'.
Proof.
  intros Hs Hrun. unfold enqueue_client_request in Hrun.
  apply bind_done_inv in Hrun as ([] & s1 & Hp & Hrun).
  assert (pipeline_ok s1) as Hs1.
  { unfold pipeline_ok in *. destruct (pl_drivers s) as [|phase [|]] eqn:Hd; [| |done].
    - destruct Hs as (Ha & Hpend & Hc). destruct (core_prune_queue _ _ _ _ Hc Hp) as (Hc1 & [-> ->] & Hempty).
      rewrite Hd. auto.
    - destruct Hs as [Ha Hc]. destruct (core_prune_queue _ _ _ _ Hc Hp) as (Hc1 & [-> ->] & _). by rewrite Hd. }
  clear Hs Hp. rewrite (bind_done _ _ _ _ _ (eq_refl : get s1 = Done s1 s1)) in Hrun.
  case_bool_decide as Hfull; [by injection Hrun as _ <-|]. injection Hrun as _ <-.
  unfold pipeline_ok in *. simpl. destruct (pl_drivers s1) as [|phase [|]] eqn:Hd; [| |done].
  - destruct Hs1 as (-> & Hpend & Hc). simpl. split; [done|].
    apply core_tasks. apply core_enqueue; [lia|done].
  - destruct Hs1 as [Ha Hc]. rewrite Ha. simpl. rewrite Hd. split; [done|]. apply core_enqueue; [lia|done].
Qed.

(** The phase after a driver's step, and what is then held. *)
Definition ok_after (next : option DriverPhase) s : Prop :=
  match next with
  | Some phase => core (phase_requests phase) (unproposed phase) s
  | None => pl_pending s = [] /\ core [] [] s
  end.

Lemma ok_driver_step phase result s next s' :
  core (phase_requests phase) (unproposed phase) s ->
  driver_step config phase result s = Done next s' -> ok_after next s' /\ same_tasks s s'.
Proof.
  intros Hs Hrun. destruct phase as [|[|x p]|p]; cbn [driver_step phase_requests unproposed] in *.
  - apply bind_done_inv in Hrun as (p & s1 & H1 & Hrun). destruct (core_take _ _ _ Hs H1) as [Hc1 Ht1].
    apply bind_done_inv in Hrun as (p' & s2 & H2 & Hrun). destruct (core_prune_held _ _ _ _ Hc1 H2) as [Hc2 Ht2].
    injection Hrun as <- <-. split; [done|]. destruct Ht1, Ht2. split; congruence.
  - rewrite (bind_done _ _ _ _ _ (eq_refl : get s = Done s s)) in Hrun.
    case_bool_decide; injection Hrun as <- <-; done.
  - apply bind_done_inv in Hrun as (p1 & s1 & H1 & Hrun). destruct (core_refill _ _ _ _ Hs H1) as [Hc1 Ht1].
    apply bind_done_inv in Hrun as (p2 & s2 & H2 & Hrun). destruct (core_prune_held _ _ _ _ Hc1 H2) as [Hc2 Ht2].
    assert (same_tasks s s2) as Ht by (destruct Ht1, Ht2; split; congruence).
    case_bool_decide as Hp; injection Hrun as <- <-; [by subst p2|]. split; [|done]. by apply core_propose.
  - destruct (finish_run p result s) as (results & c & H1 & Hr). rewrite (bind_done _ _ _ _ _ H1) in Hrun.
    injection Hrun as <- <-. split; [|done]. by eapply core_finish.
Qed.

Lemma ok_drive i result s s' : pipeline_ok s -> drive config i result s = Done tt s' -> pipeline_ok s'.
Proof.
  intros Hs Hrun. unfold drive in Hrun. rewrite (bind_done _ _ _ _ _ (eq_refl : get s = Done s s)) in Hrun.
  unfold pipeline_ok in *.
  destruct (pl_drivers s) as [|phase [|]] eqn:Hd; [| |done].
  { rewrite lookup_nil in Hrun. injection Hrun as <-. by rewrite Hd. }
  destruct i as [|i]; [|change ([phase] !! S i) with (@None DriverPhase) in Hrun; injection Hrun as <-; by rewrite Hd].
  change ([phase] !! 0%nat) with (Some phase) in Hrun. apply bind_done_inv in Hrun as (next & s1 & Hstep & Hrun). destruct Hs as [Ha Hc].
  destruct (ok_driver_step _ _ _ _ _ Hc Hstep) as [Hok [Hd1 Ha1]]. injection Hrun as <-.
  rewrite Hd1, Hd, Ha1, Ha. destruct next as [phase'|]; simpl.
  - split; [done|]. by apply core_tasks.
  - destruct Hok as [Hp Hok]. split; [done|]. split; [done|]. by apply core_tasks.
Qed.

Lemma ok_event e s s' : pipeline_ok s -> pipeline_event config e s = Done tt s' -> pipeline_ok s'.
Proof.
  intros Hs. destruct e as [client_id request request_id fingerprint|ticket| |i result]; simpl.
  - intros Hrun. apply bind_done_inv in Hrun as (r & s1 & H1 & Hrun). injection Hrun as <-. by eapply ok_enqueue.
  - intros [= <-]. unfold pipeline_ok in *. simpl. destruct (pl_drivers s) as [|phase [|]]; [| |done].
    + destruct Hs as (? & ? & [H1 H2 H3 H4 H5]). split; [done|]. split; [done|]. constructor; simpl; try done.
      eapply Forall_impl; [done|]. set_solver.
    + destruct Hs as (? & [H1 H2 H3 H4 H5]). split; [done|]. constructor; simpl; try done.
      eapply Forall_impl; [done|]. set_solver.
  - intros Hp. unfold pipeline_ok in *. destruct (pl_drivers s) as [|phase [|]] eqn:Hd; [| |done].
    + destruct Hs as (Ha & Hpend & Hc). destruct (core_prune_queue _ _ _ _ Hc Hp) as (Hc1 & [-> ->] & Hempty).
      rewrite Hd. auto.
    + destruct Hs as [Ha Hc]. destruct (core_prune_queue _ _ _ _ Hc Hp) as (Hc1 & [-> ->] & _). by rewrite Hd.
  - by apply ok_drive.
Qed.

Lemma ok_start cache : pipeline_ok (pipeline_start cache).
Proof. split; [done|]. split; [done|]. constructor; simpl; try done; lia. Qed.

Lemma ok_reachable cache s : star (pipeline_step config) (pipeline_start cache) s -> pipeline_ok s.
Proof.
  intros H. eapply (star_inv (pipeline_step config) pipeline_ok); [|exact H|apply ok_start].
  intros s1 s2 Hs1 [e He]. by eapply ok_event.
Qed.

(** C16: Under any interleaving of clients that queue and cancel requests with the
    driver tasks, whatever the log makes of the batches: one driver runs, or
    none and no request waits, so none is stranded; the queue and the batches
    keep their limits; every request that was queued is waiting, held by the
    driver, answered, or was dropped after its client had gone, and only one of
    these, so it is never answered twice; and the requests are proposed to the
    log in the order in which they were queued. *)
Theorem queued_requests_accounted cache s :
  star (pipeline_step config) (pipeline_start cache) s ->
  length (pl_drivers s) = (if pl_driver_active s then 1 else 0)%nat /\
  (pl_pending s <> [] -> pl_driver_active s = true) /\
  (length (pl_pending s) <= max_pending config)%nat /\
  Forall (fun phase => length (phase_requests phase) <= capacity)%nat (pl_drivers s) /\
  seq 0 (pl_tickets s)
    ≡ₚ pl_pruned s ++ (pl_sent s).*1 ++ tickets (concat (phase_requests <$> pl_drivers s)) ++ tickets (pl_pending s) /\
  Forall (fun t => t ∈ pl_closed s) (pl_pruned s) /\
  pl_proposed s ++ tickets (concat (unproposed <$> pl_drivers s)) ++ tickets (pl_pending s)
    `sublist_of` seq 0 (pl_tickets s).
Proof.
  intros H%ok_reachable. unfold pipeline_ok in H. destruct (pl_drivers s) as [|phase [|]]; [| |done].
  - destruct H as (-> & Hp & [H1 H2 H3 H4 H5]). split_and!; try done.
  - destruct H as (-> & [H1 H2 H3 H4 H5]). simpl. rewrite !app_nil_r. split_and!; try done. by repeat constructor.
Qed.

(** ** Progress *)

(** Nothing is cancelled, queued or answered. *)
Definition same_clients s s' : Prop :=
  pl_closed s' = pl_closed s /\ pl_tickets s' = pl_tickets s /\ pl_sent s' = pl_sent s.

#[local] Instance same_clients_preorder : PreOrder same_clients.
Proof. split; [by intros s|]. intros s1 s2 s3 (? & ? & ?) (? & ? & ?). split_and!; congruence. Qed.

Lemma capacity_positive : (1 <= capacity)%nat.
Proof. unfold client_request_pipeline_capacity. lia. Qed.

Lemma prune_held_pending l s kept s' :
  prune_cancelled l s = Done kept s' -> pl_pending s' = pl_pending s /\ same_clients s s'.
Proof. intros H. destruct (prune_run l s) as [c Hc]. rewrite Hc in H. by injection H as <- <-. Qed.

Lemma take_pending s p s' :
  take_client_request_pipeline config s = Done p s' ->
  pl_pending s' = drop capacity (filter (fun q => ~ is_gone s q) (pl_pending s)) /\ same_clients s s'.
Proof.
  intros H. unfold take_client_request_pipeline in H. destruct (prune_queue_run s) as [c Hc].
  rewrite (bind_done _ _ _ _ _ Hc) in H. by injection H as <- <-.
Qed.

Lemma refill_pending p s p' s' :
  refill_client_request_pipeline config p s = Done p' s' ->
  (length (pl_pending s') <= length (pl_pending s))%nat /\ same_clients s s'.
Proof.
  unfold refill_client_request_pipeline. case_bool_decide; [by intros [= <- <-]|]. intros H'.
  destruct (prune_queue_run s) as [c Hc]. rewrite (bind_done _ _ _ _ _ Hc) in H'. injection H' as <- <-.
  split; [|done]. simpl. rewrite length_drop.
  pose proof (length_filter (fun q => ~ is_gone s q) (pl_pending s)). lia.
Qed.

Definition rank (phase : DriverPhase) : nat :=
  match phase with AtTop => 0%nat | Committing _ => 1%nat | Taken _ => 2%nat end.

(** The request waits for its answer, and its client with it. *)
Definition waits (t : nat) s : Prop :=
  (t < pl_tickets s)%nat /\ (t ∉ pl_closed s) /\ t ∉ (pl_sent s).*1.

Lemma waits_where t held unprop s :
  core held unprop s -> waits t s -> t ∈ tickets held \/ t ∈ tickets (pl_pending s).
Proof.
  intros [_ _ H3 _ H5] (Ht & Hc & Hs). assert (t ∈ seq 0 (pl_tickets s)) as Hin by (apply elem_of_seq; lia).
  rewrite H3, !elem_of_app in Hin. rewrite Forall_forall in H5. destruct Hin as [Hp|[?|?]]; [|done|done].
  by apply H5 in Hp.
Qed.

Lemma open_waiting t s :
  t ∉ pl_closed s -> t ∈ tickets (pl_pending s) ->
  (1 <= length (filter (fun q => ~ is_gone s q) (pl_pending s)))%nat.
Proof.
  intros Hc (q & -> & Hq)%list_elem_of_fmap.
  assert (q ∈ filter (fun q => ~ is_gone s q) (pl_pending s)) as Hin by (by apply list_elem_of_filter).
  destruct (filter _ _); [by apply elem_of_nil in Hin|simpl; lia].
Qed.

Lemma driver_progress phase result s next s' t :
  core (phase_requests phase) (unproposed phase) s -> waits t s ->
  driver_step config phase result s = Done next s' ->
  pl_closed s' = pl_closed s /\ pl_tickets s' = pl_tickets s /\
  (t ∈ (pl_sent s').*1 \/
   (pl_sent s' = pl_sent s \/ t ∉ (pl_sent s').*1) /\
   (exists phase', next = Some phase' /\
     (3 * length (pl_pending s') + rank phase' < 3 * length (pl_pending s) + rank phase)%nat)).
Proof.
  intros Hs Hw Hrun. pose proof (waits_where _ _ _ _ Hs Hw) as Hwhere. destruct Hw as (Ht & Hc & Hsent).
  destruct phase as [|[|x p]|p]; cbn [driver_step phase_requests unproposed] in *.
  - destruct Hwhere as [Hin|Hin]; [by apply elem_of_nil in Hin|].
    apply bind_done_inv in Hrun as (p & s1 & H1 & Hrun). apply take_pending in H1 as [H1 Hc1].
    apply bind_done_inv in Hrun as (p' & s2 & H2 & Hrun). apply prune_held_pending in H2 as [H2 Hc2].
    injection Hrun as <- <-. assert (same_clients s s2) as (-> & -> & ->) by (by etrans).
    split; [done|]. split; [done|]. right. split; [by left|]. eexists. split; [done|].
    rewrite H2, H1, length_drop. pose proof (open_waiting t s Hc Hin). pose proof capacity_positive.
    pose proof (length_filter (fun q => ~ is_gone s q) (pl_pending s)). simpl. lia.
  - destruct Hwhere as [Hin|Hin]; [by apply elem_of_nil in Hin|].
    rewrite (bind_done _ _ _ _ _ (eq_refl : get s = Done s s)) in Hrun. case_bool_decide as Hp.
    + rewrite Hp in Hin. by apply elem_of_nil in Hin.
    + injection Hrun as <- <-. split; [done|]. split; [done|]. right. split; [by left|]. eexists. split; [done|]. simpl. lia.
  - apply bind_done_inv in Hrun as (p1 & s1 & H1 & Hrun). apply refill_pending in H1 as [H1 Hc1].
    apply bind_done_inv in Hrun as (p2 & s2 & H2 & Hrun). apply prune_held_pending in H2 as [H2 Hc2].
    assert (same_clients s s2) as (E1 & E2 & E3) by (by etrans).
    case_bool_decide; injection Hrun as <- <-; (split; [done|]); (split; [done|]); right;
      (split; [by left|]); eexists; (split; [done|]); simpl; rewrite H2; lia.
  - destruct (finish_run p result s) as (results & c & H1 & Hr). rewrite (bind_done _ _ _ _ _ H1) in Hrun.
    injection Hrun as <- <-. simpl. split; [done|]. split; [done|]. rewrite fmap_app, Hr, elem_of_app.
    destruct (decide (t ∈ tickets p)) as [Hin|Hin]; [by left; right|]. right. split; [right; tauto|].
    eexists. split; [done|]. simpl. lia.
Qed.

Definition measure s : nat :=
  match pl_drivers s with [phase] => (3 * length (pl_pending s) + rank phase)%nat | _ => 0%nat end.

Lemma driver_step_returns phase result s : exists next s', driver_step config phase result s = Done next s'.
Proof.
  assert (forall s, exists p s', take_client_request_pipeline config s = Done p s') as Htake.
  { intros s1. destruct (prune_queue_run s1) as [c Hc]. unfold take_client_request_pipeline.
    rewrite (bind_done _ _ _ _ _ Hc). by eexists _, _. }
  assert (forall p s, exists p' s', refill_client_request_pipeline config p s = Done p' s') as Hrefill.
  { intros p s1. unfold refill_client_request_pipeline. case_bool_decide; [by eexists _, _|].
    destruct (prune_queue_run s1) as [c Hc]. rewrite (bind_done _ _ _ _ _ Hc). by eexists _, _. }
  assert (forall p s, exists p' s', prune_cancelled p s = Done p' s') as Hprune.
  { intros p s1. destruct (prune_run p s1) as [c Hc]. eauto. }
  destruct phase as [|[|x p]|p]; cbn [driver_step].
  - destruct (Htake s) as (p & s1 & H1). rewrite (bind_done _ _ _ _ _ H1).
    destruct (Hprune p s1) as (p' & s2 & H2). rewrite (bind_done _ _ _ _ _ H2). by eexists _, _.
  - rewrite (bind_done _ _ _ _ _ (eq_refl : get s = Done s s)). case_bool_decide; by eexists _, _.
  - destruct (Hrefill (x :: p) s) as (p1 & s1 & H1). rewrite (bind_done _ _ _ _ _ H1).
    destruct (Hprune p1 s1) as (p2 & s2 & H2). rewrite (bind_done _ _ _ _ _ H2).
    case_bool_decide; by eexists _, _.
  - destruct (finish_run p result s) as (results & c & H1 & Hr). rewrite (bind_done _ _ _ _ _ H1). by eexists _, _.
Qed.

Lemma drive_progress result s t :
  pipeline_ok s -> waits t s ->
  exists s', drive config 0 result s = Done tt s' /\ pipeline_ok s' /\
    (t ∈ (pl_sent s').*1 \/ (waits t s' /\ (measure s' < measure s)%nat)).
Proof.
  intros Hs Hw. assert (exists s', drive config 0 result s = Done tt s') as [s' Hrun].
  { unfold drive. rewrite (bind_done _ _ _ _ _ (eq_refl : get s = Done s s)).
    destruct (pl_drivers s !! 0%nat) as [phase|]; [|by eexists].
    destruct (driver_step_returns phase result s) as (next & s1 & H1). rewrite (bind_done _ _ _ _ _ H1).
    by eexists. }
  exists s'. split; [done|]. split; [by eapply ok_drive|].
  unfold pipeline_ok in Hs. unfold measure. destruct (pl_drivers s) as [|phase [|]] eqn:Hd; [| |done].
  { destruct Hs as (_ & Hp & Hc). destruct (waits_where _ _ _ _ Hc Hw) as [Hin|Hin];
      [|rewrite Hp in Hin]; by apply elem_of_nil in Hin. }
  destruct Hs as [Ha Hc]. unfold drive in Hrun.
  rewrite (bind_done _ _ _ _ _ (eq_refl : get s = Done s s)), Hd in Hrun.
  change ([phase] !! 0%nat) with (Some phase) in Hrun.
  apply bind_done_inv in Hrun as (next & s1 & Hstep & Hrun).
  destruct (ok_driver_step _ _ _ _ _ Hc Hstep) as [_ [Hd1 _]].
  destruct (driver_progress _ _ _ _ _ _ Hc Hw Hstep) as (E1 & E2 & Hgo). injection Hrun as <-.
  destruct Hgo as [Hsent|[Hkeep (phase' & -> & Hlt)]]; [left; by destruct next|]. right. simpl.
  rewrite Hd1, Hd. simpl. split; [|done]. destruct Hw as (W1 & W2 & W3).
  split; simpl; [by rewrite E2|]. split; [by rewrite E1|]. by destruct Hkeep as [->|].
Qed.


End facts.
