(* ===== verification/RaftProxy.v ===== *)
(** * Forwarding a client's request to the leader

    [src/src/broker_raft.rs]: a follower that a client has asked forwards the
    request to the leader it knows of, follows the hints of the nodes that
    answer that they do not lead, and tries again within a budget (10796-11243,
    5934-6009, 23252-23428).  Time, the calls and the waits are the link's, in
    whose course the node may change.  Telemetry and log lines are left out. *)

From S2P Require Import Prelude Text Monad Protocol Queue BrokerTypes BrokerState Broker.
From S2P Require Import BrokerOps Wire BrokerSnapshot RaftQuorum RaftGrant RaftCache RaftValidate.
From S2P Require Import RaftFiles RaftLog RaftNode RaftApply RaftNodeOps RaftLeader.
From S2P Require Import RaftProtocol RaftRpc.
From stdpp Require Import options.
Import Membership.

(** ** Answers *)

(** [proxy_error_is_terminal] *)
Definition proxy_error_is_terminal (error : string) : bool :=
  contains_str "was reused with a different request payload" error
  || contains_str "unsupported raft client request" error
  || contains_str "raft proxy sender" error
  || contains_str "raft ephemeral request uuid must not be empty" error.

(** [proxy_error_is_not_leader] *)
Definition proxy_error_is_not_leader (error : string) : bool :=
  contains_str "raft node is not leader" error.

(** [proxy_client_response_matches_request] *)
Definition proxy_client_response_matches_request (request : Request.t) (response : Response.t) : bool :=
  match request, response with
  | _, Response.Error _ _ => true
  | Request.Version _ _, Response.Version _ _ _ _ => true
  | Request.Auth _ _, Response.Auth _ _ _ => true
  | Request.Lock _ None (Some (_ :: _)) _ _ _ _ _ _ _, Response.CompositeLock _ _ _ _ _ _ => true
  | Request.Lock _ (Some _) None _ _ _ _ _ _ _, Response.Lock _ _ _ _ _ _ _ _ => true
  | Request.Unlock _ (Some _) None _ _, Response.Unlock _ _ _ _ _ => true
  | Request.Unlock _ None (Some _) _ _, Response.Unlock _ _ _ _ _ => true
  | Request.RegisterRead _ _, Response.RegisterReadResult _ _ _ _ _ _ _ => true
  | Request.RegisterWrite _ _, Response.RegisterWriteResult _ _ _ _ _ _ _ => true
  | Request.EndRead _ _, Response.EndReadResult _ _ _ => true
  | Request.EndWrite _ _, Response.EndWriteResult _ _ _ _ => true
  | Request.LockInfo _ _, Response.LockInfo _ _ _ _ _ _ _ => true
  | Request.Ls _, Response.LsResult _ _ => true
  | Request.Heartbeat _, Response.Ok _ => true
  | _, _ => false
  end.

(** [proxy_request_key_set] *)
Definition proxy_request_key_set (request : Request.t) : option (gset string) :=
  match request with
  | Request.Lock _ (Some key) None _ _ _ _ _ _ _
  | Request.Unlock _ (Some key) None _ _
  | Request.RegisterRead _ key | Request.RegisterWrite _ key
  | Request.EndRead _ key | Request.EndWrite _ key
  | Request.LockInfo _ key => Some {[ key ]}
  | Request.Lock _ None (Some keys) _ _ _ _ _ _ _
  | Request.Unlock _ None (Some keys) _ _ => Some (list_to_set keys)
  | _ => None
  end.

(** [proxy_response_key_set] *)
Definition proxy_response_key_set (response : Response.t) : option (gset string) :=
  match response with
  | Response.Lock _ key _ _ _ _ _ _
  | Response.RegisterReadResult _ key _ _ _ _ _
  | Response.RegisterWriteResult _ key _ _ _ _ _
  | Response.EndReadResult _ key _
  | Response.EndWriteResult _ key _ _
  | Response.LockInfo _ key _ _ _ _ _ => Some {[ key ]}
  | Response.CompositeLock _ keys _ _ _ _
  | Response.Unlock _ keys _ _ _ => Some (list_to_set keys)
  | _ => None
  end.

(** [proxy_response_kind_label] *)
Definition proxy_response_kind_label (response : Response.t) : string :=
  match response with
  | Response.Version _ _ _ _ => "version"
  | Response.Auth _ _ _ => "auth"
  | Response.Lock _ _ _ _ _ _ _ _ => "lock"
  | Response.CompositeLock _ _ _ _ _ _ => "compositeLock"
  | Response.Unlock _ _ _ _ _ => "unlock"
  | Response.RegisterReadResult _ _ _ _ _ _ _ => "registerReadResult"
  | Response.RegisterWriteResult _ _ _ _ _ _ _ => "registerWriteResult"
  | Response.EndReadResult _ _ _ => "endReadResult"
  | Response.EndWriteResult _ _ _ _ => "endWriteResult"
  | Response.LockInfo _ _ _ _ _ _ _ => "lockInfo"
  | Response.LsResult _ _ => "lsResult"
  | Response.Reelection _ _ => "reelection"
  | Response.Error _ _ => "error"
  | Response.Ok _ => "ok"
  end.

(** The [Debug] form of a [BTreeSet<String>]. *)
Definition debug_set (keys : gset string) : string :=
  let quoted key := String quote_char (escape_debug key +:+ String quote_char EmptyString) in
  ("{" +:+ join ", " (quoted <$> sort_keys (elements keys)) +:+ "}")%string.

(** [invalid_proxy_client_response_reason] *)
Definition invalid_proxy_client_response_reason (request : Request.t) (request_uuid : string)
    (response : Response.t) : option string :=
  let uuid := Response.correlation_uuid response in
  if bool_decide (uuid <> request_uuid) then
    Some ("proxied response correlation uuid mismatch: expected `" +:+ request_uuid +:+ "` got `"
            +:+ uuid +:+ "`")%string
  else if negb (proxy_client_response_matches_request request response) then
    Some ("proxied response kind `" +:+ proxy_response_kind_label response
            +:+ "` does not match request kind `" +:+ proxy_request_kind_label request +:+ "`")%string
  else
    match proxy_request_key_set request, proxy_response_key_set response with
    | Some expected, Some actual =>
        if bool_decide (expected <> actual) then
          Some ("proxied response key set mismatch: expected " +:+ debug_set expected +:+ " got "
                  +:+ debug_set actual)%string
        else None
    | _, _ => None
    end.

Definition debug_option_u64 (o : option Z) : string :=
  match o with None => "None" | Some x => ("Some(" +:+ pretty x +:+ ")")%string end.

Definition debug_bool (b : bool) : string := if b then "true" else "false".

(** The [Debug] form of the answers that are not for a proxied request. *)
Definition rpc_response_debug (response : RaftRpcResponse) : string :=
  match response with
  | PreVoteResponse term granted =>
      "PreVote { term: " +:+ pretty term +:+ ", vote_granted: " +:+ debug_bool granted +:+ " }"
  | RequestVoteResponse term granted =>
      "RequestVote { term: " +:+ pretty term +:+ ", vote_granted: " +:+ debug_bool granted +:+ " }"
  | AppendEntriesResponse term success match_index conflict_index conflict_term =>
      "AppendEntries { term: " +:+ pretty term +:+ ", success: " +:+ debug_bool success
        +:+ ", match_index: " +:+ pretty match_index +:+ ", conflict_index: "
        +:+ debug_option_u64 conflict_index +:+ ", conflict_term: " +:+ debug_option_u64 conflict_term +:+ " }"
  | InstallSnapshotResponse term success last_included_index =>
      "InstallSnapshot { term: " +:+ pretty term +:+ ", success: " +:+ debug_bool success
        +:+ ", last_included_index: " +:+ pretty last_included_index +:+ " }"
  | ProxyResponse _ _ _ _ _ | ErrorResponse _ _ => EmptyString
  end%string.

(** ** Peers *)

Definition PROXY_RETRY_INTERVAL : Z := duration_from_millis 100.

Inductive ProxyForwardOutcome : Type :=
| Proxied (response : option Response.t)
| BecameLeader.

Inductive ProxyCandidateResponseGate : Type := GateAccepted | GateBecameLeader | GateRemoved.

Record ProxyLeaderAdmission : Type := mkProxyLeaderAdmission {
  pa_term : Z;
  pa_is_leader : bool;
  pa_leader_id : option string;
  pa_leader_addr : option string;
}.

Section proxy.
Context `{LQ : LinkedQueueCrate} `{E : Env} `{D : RequestDigest} `{C : RaftCodec}.

(** [BrokerRaft::is_leader] *)
Definition is_leader (n : RaftNode) : bool := bool_decide (rt_role (rn_runtime n) = Leader).

Definition leader_addr (n : RaftNode) : option string := peer_addr <$> (leader_peer_hint (rn_runtime n)).2.

(** [BrokerRaft::proxy_leader_admission] *)
Definition proxy_leader_admission (n : RaftNode) : ProxyLeaderAdmission :=
  mkProxyLeaderAdmission (rt_current_term (rn_runtime n)) (is_leader n) (rt_leader_id (rn_runtime n))
    (leader_addr n).

(** [BrokerRaft::proxy_candidate_peers] *)
Definition proxy_candidate_peers (preferred : option RaftPeerConfig) (attempts : Z) (n : RaftNode)
    : list RaftPeerConfig :=
  let node_id := nc_node_id (rn_config n) in
  let peers := filter (fun peer => peer_id peer <> node_id) (active_peers (rt_membership (rn_runtime n))) in
  let peers := if bool_decide (1 < length peers)%nat
               then rotate_left peers (Z.to_nat (attempts mod Z.of_nat (length peers))) else peers in
  match preferred with
  | Some preferred =>
      if bool_decide (peer_id preferred = node_id) then peers
      else match list_find (fun peer => peer_id peer = peer_id preferred) peers with
           | Some (index, found) => found :: take index peers ++ drop (S index) peers
           | None => peers
           end
  | None => peers
  end.

(** [BrokerRaft::proxy_redirect_peer] *)
Definition proxy_redirect_peer (leader_id leader_addr : option string) (reject_peer_id : string)
    (n : RaftNode) : option RaftPeerConfig :=
  let node_id := nc_node_id (rn_config n) in
  let peers := active_peers (rt_membership (rn_runtime n)) in
  match leader_id with
  | Some leader_id =>
      if bool_decide (leader_id = node_id) || bool_decide (leader_id = reject_peer_id) then None
      else snd <$> list_find (fun peer => peer_id peer = leader_id /\
                                (leader_addr = None \/ leader_addr = Some (peer_addr peer))) peers
  | None =>
      addr ← leader_addr;
      snd <$> list_find (fun peer => peer_id peer <> node_id /\ peer_id peer <> reject_peer_id /\
                           peer_addr peer = addr) peers
  end.

(** [BrokerRaft::proxy_candidate_response_gate] *)
Definition proxy_candidate_response_gate (candidate_peer : RaftPeerConfig) (n : RaftNode)
    : ProxyCandidateResponseGate :=
  if is_leader n then GateBecameLeader
  else if accepts_active_peer (rn_runtime n) candidate_peer then GateAccepted else GateRemoved.

Section link.
Context {W : Type}.

(** What surrounds the forwarding: the monotonic clock, a call with a strict
    timeout, and waiting, which tells whether the node shuts down. *)
Record ProxyLink : Type := mkProxyLink {
  pk_now : M (RaftNode * W) Z;
  pk_send : RaftPeerConfig -> RaftRpc -> Z -> M (RaftNode * W) (RaftResult RaftRpcResponse);
  pk_sleep : Z -> M (RaftNode * W) bool;
}.

Definition on_follower {A} (m : M RaftNode A) : M (RaftNode * W) A := fun s =>
  match m s.1 with
  | Done a x => Done a (x, s.2)
  | Panicked msg => Panicked msg
  | OutOfFuel => OutOfFuel
  end.

Variable link : ProxyLink.
Variable clock : Clock.
Variable request : Request.t.
Variable request_uuid : string.
Variable wait : Z.
Variable is_acquire : bool.

(** What trying the candidates leads to: a result, or another round, with the
    last error and perhaps the peer to go on with. *)
Inductive CandidatesOutcome : Type :=
| ProxyReturns (result : RaftResult ProxyForwardOutcome)
| ProxyRetries (last_retry_error : option string) (fast_redirect_peer : option RaftPeerConfig) (attempts : Z).

(** The deadline has not passed; what is left. *)
Definition remaining_until (deadline : Z) : M (RaftNode * W) Z :=
  now ← pk_now link; mret (Z.max (deadline - now) 0).

Definition proxy_rpc (n : RaftNode) : RaftRpc :=
  let proxy_peer := local_configured_peer (rn_config n) in
  ProxyRequestRpc None (peer_id proxy_peer) (peer_addr proxy_peer) request request_uuid
    (duration_ms_u64 wait) is_acquire.

(** What an answer says: a result; an error after which the next candidate is
    tried, the round ends, or the peer that is named is tried. *)
Inductive ProxyAnswer : Type :=
| AnswerReturns (result : RaftResult ProxyForwardOutcome)
| AnswerNext (error : string)
| AnswerBreak (error : string)
| AnswerRedirect (error : string) (peer : RaftPeerConfig).

(** The body of the loop after a response: the gate and the [match]. *)
Definition on_proxy_response (candidate_peer : RaftPeerConfig) (response : RaftRpcResponse)
    : M RaftNode ProxyAnswer :=
  n ← get;
  match proxy_candidate_response_gate candidate_peer n with
  | GateBecameLeader => mret (AnswerReturns (RaftOk BecameLeader))
  | GateRemoved => mret (AnswerNext "proxy response came from removed or replaced peer")
  | GateAccepted =>
      match response with
      | ProxyResponse peer_term response None _ _ =>
          match (r ← response; invalid_proxy_client_response_reason request request_uuid r) with
          | Some reason =>
              observe_proxy_response_term clock candidate_peer peer_term false ;;
              mret (AnswerReturns (RaftErr (ERpc reason)))
          | None =>
              observe_proxy_response_term clock candidate_peer peer_term true ;;
              mret (AnswerReturns (RaftOk (Proxied response)))
          end
      | ProxyResponse peer_term _ (Some error) leader_id leader_addr =>
          observe_proxy_response_term clock candidate_peer peer_term false ;;
          if proxy_error_is_terminal error then mret (AnswerReturns (RaftErr (ERpc error)))
          else if proxy_error_is_not_leader error then
            n ← get;
            match proxy_redirect_peer leader_id leader_addr (peer_id candidate_peer) n with
            | Some redirect_peer => mret (AnswerRedirect error redirect_peer)
            | None => mret (AnswerNext error)
            end
          else mret (AnswerBreak error)
      | ErrorResponse peer_term error =>
          observe_proxy_response_term clock candidate_peer peer_term false ;;
          if proxy_error_is_terminal error then mret (AnswerReturns (RaftErr (ERpc error)))
          else if proxy_error_is_not_leader error then mret (AnswerNext error)
          else mret (AnswerBreak error)
      | other =>
          mret (AnswerReturns (RaftErr (ERpc ("unexpected proxy response: " +:+ rpc_response_debug other))))
      end
  end.

(** The [for] over the candidates. *)
Fixpoint try_candidates (deadline : Z) (candidates : list RaftPeerConfig) (last_retry_error : option string)
    (attempts : Z) : M (RaftNode * W) CandidatesOutcome :=
  match candidates with
  | [] => mret (ProxyRetries last_retry_error None attempts)
  | candidate_peer :: candidates =>
      remaining ← remaining_until deadline;
      if bool_decide (remaining = 0) then mret (ProxyRetries last_retry_error None attempts)
      else
        let attempts := saturating_add64 attempts 1 in
        s ← get;
        response ← pk_send link candidate_peer (proxy_rpc s.1) remaining;
        match response with
        | RaftErr err => try_candidates deadline candidates (Some (error_display err)) attempts
        | RaftOk response =>
            answer ← on_follower (on_proxy_response candidate_peer response);
            match answer with
            | AnswerReturns result => mret (ProxyReturns result)
            | AnswerNext error => try_candidates deadline candidates (Some error) attempts
            | AnswerBreak error => mret (ProxyRetries (Some error) None attempts)
            | AnswerRedirect error peer => mret (ProxyRetries (Some error) (Some peer) attempts)
            end
        end
  end.

(** [sleep_before_proxy_retry]: whether to go on. *)
Definition sleep_before_proxy_retry (deadline : Z) : M (RaftNode * W) bool :=
  remaining ← remaining_until deadline;
  if bool_decide (remaining = 0) then mret false
  else
    shutdown ← pk_sleep link (Z.min PROXY_RETRY_INTERVAL remaining);
    mret (negb shutdown).

(** The error when the budget is used up. *)
Definition proxy_gives_up (leader_id : option string) (redirect_cycle_detected : bool)
    (last_retry_error : option string) (n : RaftNode) : BrokerRaftError :=
  let not_leader := ENotLeader (match rt_leader_id (rn_runtime n) with Some id => Some id | None => leader_id end)
                      (leader_addr n) in
  if redirect_cycle_detected then not_leader
  else match last_retry_error with
       | Some error => if proxy_error_is_not_leader error then not_leader else ERpc error
       | None => not_leader
       end.

(** The loop of [proxy_ephemeral_request_to_leader]. *)
Fixpoint proxy_loop (fuel : nat) (deadline attempts : Z) (redirected_leader_peer : option RaftPeerConfig)
    (redirect_chain : gset string) (redirect_cycle_detected : bool)
    : M (RaftNode * W) (RaftResult ProxyForwardOutcome) :=
  match fuel with
  | O => out_of_fuel
  | S fuel =>
      s ← get;
      if is_leader s.1 then okR BecameLeader
      else
        let '(leader_id, leader_peer) := leader_peer_hint (rn_runtime s.1) in
        if bool_decide (leader_id = Some (nc_node_id (rn_config s.1))) then errR (ENotLeader leader_id None)
        else
          let preferred_peer := match redirected_leader_peer with Some p => Some p | None => leader_peer end in
          let candidate_peers := proxy_candidate_peers preferred_peer attempts s.1 in
          if bool_decide (candidate_peers = []) then
            again ← sleep_before_proxy_retry deadline;
            if again : bool
            then proxy_loop fuel deadline attempts redirected_leader_peer redirect_chain redirect_cycle_detected
            else errR (ENotLeader leader_id None)
          else
            outcome ← try_candidates deadline candidate_peers None attempts;
            match outcome with
            | ProxyReturns result => mret result
            | ProxyRetries last_retry_error fast_redirect_peer attempts =>
                let back_off redirect_cycle_detected :=
                  again ← sleep_before_proxy_retry deadline;
                  if again : bool
                  then proxy_loop fuel deadline attempts redirected_leader_peer ∅ redirect_cycle_detected
                  else
                    s ← get;
                    errR (proxy_gives_up leader_id redirect_cycle_detected last_retry_error s.1) in
                match fast_redirect_peer with
                | Some redirect_peer =>
                    if bool_decide (peer_id redirect_peer ∈ redirect_chain) then back_off true
                    else proxy_loop fuel deadline attempts (Some redirect_peer)
                           ({[ peer_id redirect_peer ]} ∪ redirect_chain) redirect_cycle_detected
                | None => back_off redirect_cycle_detected
                end
            end
  end.

(** [proxy_ephemeral_request_to_leader], with the rounds it may take; the
    deadline of a wait of ages that overflows an [Instant] is not modelled. *)
Definition proxy_ephemeral_request_to_leader (fuel : nat) (proxy_retry_budget : Z)
    : M (RaftNode * W) (RaftResult ProxyForwardOutcome) :=
  let retry_budget := Z.max wait proxy_retry_budget in
  now ← pk_now link;
  proxy_loop fuel (now + retry_budget) 0 None ∅ false.

End link.
End proxy.

(** * Forwarding ends, with an answer to the request

    [src/src/broker_raft.rs]: a follower that forwards a request gives up when
    its budget is used, however the peers answer: between two waits it follows
    a hint to each peer once, and a wait takes time.  What it returns to the
    client answers the client's request. *)

(** ** The follower *)

Section follower.
Context `{LQ : LinkedQueueCrate} `{E : Env} `{D : RequestDigest} `{C : RaftCodec}.

(** The follower has applied what it knows to be committed, and its voters are
    among those named by [ids]. *)
Record follower_ok (ids : gset string) (n : RaftNode) : Prop := mkFollowerOk {
  fo_applied : rn_commit_index n <= rn_last_applied n;
  fo_durable : hs_commit_index (hard_state (rn_state n)) <= rn_commit_index n;
  fo_peers : forall peer, peer ∈ active_peers (rt_membership (rn_runtime n)) -> peer_id peer ∈ ids;
}.

Lemma next_hard_state_commit current state policy next :
  next_hard_state current state policy = RaftOk next ->
  hs_commit_index next = Z.max (hs_commit_index state) (hs_commit_index current).
Proof.
  unfold next_hard_state. cbv zeta. intros H.
  repeat (case_match; simpl in *; simplify_eq; try done).
Qed.

(** Writing the hard state commits no more than is asked for. *)
Lemma write_hard_state_bounded state policy st c :
  hs_commit_index state <= c -> hs_commit_index (hard_state (ls_state st)) <= c ->
  wp (write_hard_state_with_vote_policy state policy)
    (fun _ st' => hs_commit_index (hard_state (ls_state st')) <= c) st.
Proof.
  intros Hs Hst. destruct (returns_write_hard_state state policy st) as (r & st' & Hrun).
  apply wp_done. exists r, st'. split; [done|]. revert Hrun. unfold write_hard_state_with_vote_policy.
  rewrite (bind_done _ _ _ _ _ (eq_refl : get st = Done st st)). cbv zeta. unfold bindR at 1.
  rewrite (bind_done _ _ _ _ _ (eq_refl : check _ st = Done _ st)).
  destruct (next_hard_state _ state policy) as [next|err] eqn:Hnext; [|by intros [= <- <-]].
  pose proof (next_hard_state_commit _ _ _ _ Hnext) as Hc.
  assert (hs_commit_index next <= c) by lia.
  assert (forall (m : M Disk (RaftResult unit)) f r' st'',
    (forall s, hs_commit_index (hard_state (f s)) <= c) ->
    (on_disk m ;;? modify_state f ;; okR tt) st = Done r' st'' ->
    hs_commit_index (hard_state (ls_state st'')) <= c) as Hwrite.
  { intros m f r' st'' Hf. unfold bindR, on_disk, mbind, M_bind.
    destruct (m (ls_disk st)) as [[[]|] d| |]; intros [= <- <-]; simpl; [apply Hf|done]. }
  repeat case_match; try (by intros [= <- <-]); apply Hwrite; by intros.
Qed.

Lemma step_down_ok ids clock term leader_id n :
  follower_ok ids n ->
  wp (step_down clock term leader_id) (fun _ n' => follower_ok ids n') n.
Proof.
  intros [Ha Hd Hp]. unfold step_down. apply wp_bind, wp_get. cbv zeta.
  case_bool_decide; [|by apply wp_ret].
  set (state := mkRaftHardState _ _ _).
  pose proof (write_hard_state_bounded state PreserveSameTermVote (rn_log n) (rn_commit_index n)
    ltac:(done) Hd) as Hw.
  apply wp_done in Hw as (r & st & Hw & Hc).
  assert (on_log (write_hard_state state) n = Done r (set_rn_log st n)) as Hrun.
  { unfold on_log, write_hard_state. by rewrite Hw. }
  apply wp_bind, wp_done. exists r, (set_rn_log st n). split; [done|]. destruct r as [[]|]; [|by split].
  apply wp_bind, wp_get. cbv zeta. apply wp_bind, wp_modify. apply wp_bind, wp_get.
  assert (Z.max (rt_commit_index (rn_runtime n)) (hs_commit_index (hard_state (ls_state st)))
          = rt_commit_index (rn_runtime n)) as Hmax by (unfold rn_commit_index in *; lia).
  rewrite bool_decide_eq_false_2.
  - apply wp_ret. split; [unfold rn_commit_index, rn_last_applied, rn_state in *; simpl; lia..|done].
  - unfold rn_commit_index, rn_last_applied, rn_state in *. simpl. lia.
Qed.

Lemma observe_proxy_ok ids clock peer term confirmed n :
  follower_ok ids n ->
  wp (observe_proxy_response_term clock peer term confirmed) (fun _ n' => follower_ok ids n') n.
Proof.
  intros Hok. unfold observe_proxy_response_term. apply wp_bind, wp_get. cbv zeta.
  case_bool_decide; [by apply wp_ret|].
  case_bool_decide; (destruct (_ || _); [by apply wp_ret|]); [|by apply step_down_ok].
  destruct Hok. by apply wp_modify.
Qed.

End follower.

(** ** Answers *)

(** The response is for the request: it has the request's uuid, it is of a kind
    the request may have, and it is about the request's keys. *)
Definition answers (request : Request.t) (request_uuid : string) (response : Response.t) : Prop :=
  Response.correlation_uuid response = request_uuid /\
  proxy_client_response_matches_request request response = true /\
  forall keys keys', proxy_request_key_set request = Some keys ->
    proxy_response_key_set response = Some keys' -> keys' = keys.

Lemma invalid_reason_none request request_uuid response :
  invalid_proxy_client_response_reason request request_uuid response = None ->
  answers request request_uuid response.
Proof.
  unfold invalid_proxy_client_response_reason, answers. cbv zeta.
  case_bool_decide; [done|]. destruct (proxy_client_response_matches_request _ _); [|done]. simpl.
  intros Hkeys. split_and!; [done|done|].
  intros keys keys' Hk Hk'. rewrite Hk, Hk' in Hkeys. by case_bool_decide.
Qed.

Section link.
Context `{LQ : LinkedQueueCrate} `{E : Env} `{D : RequestDigest} `{C : RaftCodec}.
Context {W : Type} (time : W -> Z) (ids : gset string).
Context (clock : Clock) (request : Request.t) (request_uuid : string) (wait : Z) (is_acquire : bool).

(** What surrounds the forwarding: reading the clock changes nothing, calls
    return, a wait lasts for what it is asked for unless the node shuts down,
    and meanwhile the follower stays caught up and within its peers. *)
Record proxy_link_ok (link : ProxyLink (W := W)) : Prop := mkProxyLinkOk {
  lk_now : forall s, pk_now link s = Done (time s.2) s;
  lk_send : forall peer rpc timeout s, follower_ok ids s.1 ->
    wp (pk_send link peer rpc timeout) (fun _ s' => follower_ok ids s'.1 /\ time s.2 <= time s'.2) s;
  lk_sleep : forall delay s, 0 <= delay -> follower_ok ids s.1 ->
    wp (pk_sleep link delay) (fun shutdown s' => follower_ok ids s'.1 /\ time s.2 <= time s'.2 /\
      (shutdown = false -> time s.2 + delay <= time s'.2)) s;
}.

(** What the forwarding returns: an answer to the request, or that the node
    leads by now, or an error. *)
Definition forward_ok (result : RaftResult ProxyForwardOutcome) (n : RaftNode) : Prop :=
  match result with
  | RaftOk (Proxied (Some response)) => answers request request_uuid response
  | RaftOk (Proxied None) => True
  | RaftOk BecameLeader => is_leader n = true
  | RaftErr _ => True
  end.

Definition answer_ok (answer : ProxyAnswer) (n : RaftNode) : Prop :=
  match answer with
  | AnswerReturns result => forward_ok result n
  | AnswerRedirect _ peer => peer_id peer ∈ ids
  | AnswerNext _ | AnswerBreak _ => True
  end.

Lemma redirect_peer_known leader_id addr reject n peer :
  follower_ok ids n -> proxy_redirect_peer leader_id addr reject n = Some peer -> peer_id peer ∈ ids.
Proof.
  intros Hok H. apply (fo_peers _ _ Hok). unfold proxy_redirect_peer in H. cbv zeta in H.
  destruct leader_id as [id|].
  - destruct (_ || _); [done|]. apply fmap_Some in H as ([i p] & Hf & ->).
    apply list_find_Some in Hf as (Hf & _). by apply list_elem_of_lookup_2 in Hf.
  - destruct addr as [a|]; [|done]. apply fmap_Some in H as ([i p] & Hf & ->).
    apply list_find_Some in Hf as (Hf & _). by apply list_elem_of_lookup_2 in Hf.
Qed.

Lemma on_proxy_response_ok candidate response n :
  follower_ok ids n ->
  wp (on_proxy_response clock request request_uuid candidate response)
    (fun answer n' => follower_ok ids n' /\ answer_ok answer n') n.
Proof.
  intros Hok. unfold on_proxy_response. apply wp_bind, wp_get.
  unfold proxy_candidate_response_gate. destruct (is_leader n) eqn:Hl; [by apply wp_ret|].
  destruct (accepts_active_peer _ _); [|by apply wp_ret].
  destruct response as [ | | | |term response error leader_id addr|term error]; try by apply wp_ret.
  - destruct error as [error|].
    + apply wp_bind. eapply wp_mono; [by apply observe_proxy_ok|]. intros ? n' Hok'. cbv beta.
      destruct (proxy_error_is_terminal error); [by apply wp_ret|].
      destruct (proxy_error_is_not_leader error); [|by apply wp_ret].
      apply wp_bind, wp_get. destruct (proxy_redirect_peer _ _ _ _) eqn:Hr; apply wp_ret; [|done].
      split; [done|]. exact (redirect_peer_known _ _ _ _ _ Hok' Hr).
    + destruct (r ← response; _) eqn:Hinv;
        (apply wp_bind; eapply wp_mono; [by apply observe_proxy_ok|]; intros ? n' Hok'; apply wp_ret; split; [done|]);
        [done|]. destruct response as [r|]; [|done]. by apply invalid_reason_none.
  - apply wp_bind. eapply wp_mono; [by apply observe_proxy_ok|]. intros ? n' Hok'. cbv beta.
    destruct (proxy_error_is_terminal error); [by apply wp_ret|].
    destruct (proxy_error_is_not_leader error); by apply wp_ret.
Qed.

(** ** The rounds *)

(** The waits that fit between a time and the deadline. *)
Definition rounds (deadline now : Z) : nat :=
  Z.to_nat ((Z.max (deadline - now) 0 + PROXY_RETRY_INTERVAL - 1) / PROXY_RETRY_INTERVAL).

Lemma interval_eq : PROXY_RETRY_INTERVAL = 100000000.
Proof. done. Qed.

Lemma rounds_later deadline now now' : now <= now' -> (rounds deadline now' <= rounds deadline now)%nat.
Proof.
  intros H. unfold rounds. rewrite interval_eq.
  apply Z2Nat.inj_le; [apply Z.div_pos; lia..|apply Z.div_le_mono; lia].
Qed.

Lemma rounds_waited deadline now now' :
  Z.max (deadline - now) 0 <> 0 ->
  now + Z.min PROXY_RETRY_INTERVAL (Z.max (deadline - now) 0) <= now' ->
  (rounds deadline now' < rounds deadline now)%nat.
Proof.
  intros Hx H. unfold rounds. rewrite interval_eq in *.
  apply Z2Nat.inj_lt; [apply Z.div_pos; lia..|].
  Z.to_euclidean_division_equations. lia.
Qed.

Context (link : ProxyLink (W := W)) (link_ok : proxy_link_ok link).

Lemma remaining_ok deadline Q s :
  Q (Z.max (deadline - time s.2) 0) s -> wp (remaining_until link deadline) Q s.
Proof using link_ok.
  intros HQ. unfold remaining_until. apply wp_bind, wp_done.
  exists (time s.2), s. split; [apply (lk_now _ link_ok)|by apply wp_ret].
Qed.

Lemma sleep_ok deadline s :
  follower_ok ids s.1 ->
  wp (sleep_before_proxy_retry link deadline) (fun again s' => follower_ok ids s'.1 /\
    (again = true -> (rounds deadline (time s'.2) < rounds deadline (time s.2))%nat)) s.
Proof using link_ok.
  intros Hok. unfold sleep_before_proxy_retry. apply wp_bind, remaining_ok.
  case_bool_decide; [by apply wp_ret|].
  apply wp_bind. eapply wp_mono; [apply (lk_sleep _ link_ok); [rewrite interval_eq; lia|done]|].
  intros shutdown s' (Hok' & _ & Hslept). apply wp_ret. split; [done|].
  destruct shutdown; [done|]. intros _. by apply rounds_waited, Hslept.
Qed.

Definition tried (since : Z) (outcome : CandidatesOutcome) (s : RaftNode * W) : Prop :=
  follower_ok ids s.1 /\ since <= time s.2 /\
  match outcome with
  | ProxyReturns result => forward_ok result s.1
  | ProxyRetries _ (Some peer) _ => peer_id peer ∈ ids
  | ProxyRetries _ None _ => True
  end.

(** The candidates give a result, or a peer to go on with while there is time. *)
Lemma candidates_ok deadline candidates s last attempts :
  follower_ok ids s.1 ->
  wp (try_candidates link clock request request_uuid wait is_acquire deadline candidates last attempts)
    (fun outcome => tried (time s.2) outcome) s.
Proof using link_ok.
  revert s last attempts. induction candidates as [|candidate candidates IH]; intros s last attempts Hok; simpl.
  { by apply wp_ret. }
  apply wp_bind, remaining_ok. case_bool_decide; [by apply wp_ret|].
  cbv zeta. apply wp_bind, wp_get. apply wp_bind.
  eapply wp_mono; [by apply (lk_send _ link_ok)|]. intros response s1 [Hok1 Ht1].
  assert (forall last attempts s2, follower_ok ids s2.1 -> s2.2 = s1.2 ->
    wp (try_candidates link clock request request_uuid wait is_acquire deadline candidates last attempts)
    (fun outcome => tried (time s.2) outcome) s2) as Hnext.
  { intros last' attempts' s2 Hok2 Hs2. eapply wp_mono; [by apply IH|].
    intros outcome s' (H1 & H2 & H3). rewrite Hs2 in H2. split_and!; [done|lia|done]. }
  destruct response as [response|err]; [|by apply Hnext].
  apply wp_bind. destruct s1 as [n1 w1]. simpl in *.
  pose proof (on_proxy_response_ok candidate response n1 Hok1) as Hr.
  apply wp_done in Hr as (answer & n2 & Hr & Hok2 & Ha).
  apply wp_done. exists answer, (n2, w1). unfold on_follower. simpl. rewrite Hr. split; [done|].
  destruct answer; [by apply wp_ret|by apply Hnext|by apply wp_ret|by apply wp_ret].
Qed.

(** Enough rounds: within a chain of hints the chain grows, and a wait that ends
    the chain uses up time. *)
Lemma loop_ok fuel deadline attempts redirected chain cycle s :
  follower_ok ids s.1 -> chain ⊆ ids ->
  (rounds deadline (time s.2) * S (size ids) + (size ids - size chain) < fuel)%nat ->
  wp (proxy_loop link clock request request_uuid wait is_acquire fuel deadline attempts redirected chain cycle)
    (fun result s' => follower_ok ids s'.1 /\ forward_ok result s'.1) s.
Proof using link_ok.
  revert attempts redirected chain cycle s.
  induction fuel as [|fuel IH]; intros attempts redirected chain cycle s Hok Hchain Hfuel; [lia|]. cbn [proxy_loop].
  apply wp_bind, wp_get. destruct (is_leader s.1) eqn:Hleads; [by apply wp_ret|].
  destruct (leader_peer_hint _) as [leader_id leader_peer].
  case_bool_decide; [by apply wp_ret|]. cbv zeta.
  assert (forall attempts redirected chain' cycle result s1, chain' ⊆ ids -> follower_ok ids s1.1 ->
    time s.2 <= time s1.2 -> (forall n, forward_ok (result n) n) ->
    wp (again ← sleep_before_proxy_retry link deadline;
        if again : bool
        then proxy_loop link clock request request_uuid wait is_acquire fuel deadline attempts redirected chain' cycle
        else s ← get; mret (result s.1))
      (fun result s' => follower_ok ids s'.1 /\ forward_ok result s'.1) s1) as Hback.
  { intros attempts' redirected' chain' cycle' result s1 Hc Hok1 Ht Hres.
    pose proof (rounds_later deadline _ _ Ht). apply wp_bind. eapply wp_mono; [by apply sleep_ok|].
    intros [|] s2 [Hok2 Hr]; [|apply wp_bind, wp_get; by apply wp_ret].
    specialize (Hr eq_refl). apply IH; [done|done|]. nia. }
  case_bool_decide.
  { by apply (Hback attempts redirected chain cycle (fun _ => RaftErr (ENotLeader leader_id None))). }
  apply wp_bind. eapply wp_mono; [by apply candidates_ok|].
  intros [result|last [peer|] attempts'] s1 (Hok1 & Ht & Hp); [by apply wp_ret| |].
  - case_bool_decide as Hin.
    + by apply (Hback attempts' redirected ∅ true (fun n => RaftErr (proxy_gives_up leader_id true last n))).
    + pose proof (rounds_later deadline _ _ Ht). apply IH; [done|set_solver|].
      rewrite size_union, size_singleton by set_solver.
      assert (size ({[peer_id peer]} ∪ chain) <= size ids)%nat as Hs by (apply subseteq_size; set_solver).
      rewrite size_union, size_singleton in Hs by set_solver. nia.
  - by apply (Hback attempts' redirected ∅ cycle (fun n => RaftErr (proxy_gives_up leader_id cycle last n))).
Qed.

End link.

(** C14: Forwarding a request to the leader always ends, however the peers
    answer: with the interval between retries, the rounds are at most one more
    than the waits that fit into the budget, times one more than the number of
    peers, even when peers name each other as the leader.  What the client is
    then told from another node has the uuid of its request, a kind its request
    may have and the keys of its request; and the request is handed to the node
    itself only when it leads. *)
Theorem proxy_ends `{LQ : LinkedQueueCrate} `{E : Env} `{D : RequestDigest} `{C : RaftCodec}
    {W : Type} (time : W -> Z) (ids : gset string) (link : ProxyLink (W := W)) (clock : Clock)
    (request : Request.t) (request_uuid : string) (wait : Z) (is_acquire : bool)
    (budget : Z) (fuel : nat) (n : RaftNode) (w : W) :
  proxy_link_ok time ids link -> follower_ok ids n ->
  (S (rounds (Z.max wait budget) 0) * S (size ids) <= fuel)%nat ->
  exists result n' w',
    proxy_ephemeral_request_to_leader link clock request request_uuid wait is_acquire fuel budget (n, w)
      = Done result (n', w') /\
    forward_ok request request_uuid result n'.
Proof.
  intros Hlink Hok Hfuel.
  assert (wp (proxy_ephemeral_request_to_leader link clock request request_uuid wait is_acquire fuel budget)
    (fun result s' => follower_ok ids s'.1 /\ forward_ok request request_uuid result s'.1) (n, w)) as H.
  { unfold proxy_ephemeral_request_to_leader. cbv zeta. apply wp_bind, wp_done.
    exists (time w), (n, w). split; [apply (lk_now _ _ _ Hlink)|].
    eapply loop_ok; [done|done|set_solver|]. rewrite size_empty. simpl.
    replace (rounds (time w + Z.max wait budget) (time w)) with (rounds (Z.max wait budget) 0); [lia|].
    unfold rounds. do 3 f_equal. lia. }
  apply wp_done in H as (result & [n' w'] & Hrun & _ & Hres). by exists result, n', w'.
Qed.
