(* ===== verification/RaftEphemeral.v ===== *)
(** * A client's request at a node

    [src/src/broker_raft.rs]: what a node does with a request that comes over
    HTTP, gRPC or from another node (11245-11457): it checks the request, hands
    it to the leader when it does not lead, answers a repeated request from the
    cache, and otherwise proposes it and waits for its response; a client's
    request over a stream (8693-8723) and its end (9159-9165); and whether the
    node leads and has heard from a quorum lately (5860-5917).

    The queue of requests ([RaftPipeline]) and the commit of a command
    ([RaftLeader]) are the link's, as is what other tasks do while a step
    waits; the node may change in their course. *)

From S2P Require Import Prelude Text Monad Protocol Queue BrokerTypes BrokerState Broker.
From S2P Require Import BrokerOps Wire Server Http BrokerSnapshot RaftQuorum RaftGrant RaftCache.
From S2P Require Import RaftValidate RaftFiles RaftLog RaftNode RaftApply RaftNodeOps RaftLeader.
From S2P Require Import RaftConfig RaftProtocol RaftRpc RaftProxy.
From stdpp Require Import options.
Import Membership.

(** [EphemeralProxyMode] *)
Inductive EphemeralProxyMode : Type := AllowFollowerProxy | LocalLeaderOnly.

(** [BrokerRaftError::preserves_client_request_reservation] *)
Definition preserves_client_request_reservation (err : BrokerRaftError) : bool :=
  match err with EClientProposalUncertain _ _ _ => true | _ => false end.

(** [client_response_unavailable] *)
Definition client_response_unavailable (request_id : string) : BrokerRaftError :=
  ERpc ("raft request id `" +:+ request_id +:+ "` is already in flight or applied but its response is not yet available; retry the same request id")%string.

(** [wait_for_response] on the messages that arrive until it stops waiting. *)
Definition wait_for_response (request_uuid : string) (keep_polling_until_definitive : bool)
    (messages : list Response.t) : option Response.t :=
  wait_result (wait_for request_uuid keep_polling_until_definitive None messages).

Section ephemeral.
Context `{LQ : LinkedQueueCrate} `{E : Env} `{D : RequestDigest} `{C : RaftCodec}.

(** [local_client_request_rejection_reason] *)
Definition local_client_request_rejection_reason (n : RaftNode) : option string :=
  let local_id := nc_node_id (rn_config n) in
  let membership := rt_membership (rn_runtime n) in
  if local_seen_voter_is_removed n then Some "removed-voter"
  else if contains_id membership local_id && negb (local_peer_is_active n) then Some "replaced-address"
  else
    match membership with
    | Joint old_peers new_peers =>
        let in_peers peers := existsb (fun peer => bool_decide (peer_id peer = local_id)) peers in
        if in_peers old_peers && negb (in_peers new_peers) then Some "joint-old-only" else None
    | Simple _ => None
    end.

(** [proxy_sender_rejection_error] *)
Definition proxy_sender_rejection_error (proxy_node_id proxy_node_addr : string) (n : RaftNode)
    : option string :=
  if bool_decide (proxy_node_id = EmptyString) then Some "raft proxy sender is missing proxy node id"
  else if bool_decide (proxy_node_addr = EmptyString) then
    Some ("raft proxy sender `" +:+ proxy_node_id +:+ "` is missing proxy node addr")
  else if bool_decide (proxy_node_id = nc_node_id (rn_config n)) then
    Some ("raft proxy sender `" +:+ proxy_node_id +:+ "` is the local leader")
  else if accepts_active_peer (rn_runtime n) (mkRaftPeerConfig proxy_node_id proxy_node_addr) then None
  else Some (if contains_id (rt_membership (rn_runtime n)) proxy_node_id
             then "raft proxy sender `" +:+ proxy_node_id +:+ "` at `" +:+ proxy_node_addr
                    +:+ "` is not active at that address in current membership"
             else "raft proxy sender `" +:+ proxy_node_id +:+ "` is not active in current membership").

Definition not_leader_error (n : RaftNode) : BrokerRaftError :=
  ENotLeader (rt_leader_id (rn_runtime n)) (leader_addr n).

Section link.
Context {W : Type}.

(** What surrounds a request: forwarding; whether the node shuts down; how long
    ago the leader heard from a quorum; the counter of client ids; the queue
    of requests, until the request's result; the commit of one command; and
    what happens while the response is awaited, which ends with the shutdown
    or else. *)
Record EphemeralLink : Type := mkEphemeralLink {
  el_proxy : ProxyLink (W := W);
  el_is_shutdown : M (RaftNode * W) bool;
  el_quorum_age : M (RaftNode * W) Z;
  el_next_client_sequence : M (RaftNode * W) Z;
  el_enqueue_client_request :
    ClientId -> Request.t -> option string -> option string -> M (RaftNode * W) (RaftResult Z);
  el_append_replicate_commit_apply : RaftCommand -> M (RaftNode * W) (RaftResult Z);
  el_awaiting_response : Z -> M (RaftNode * W) bool;
}.

Variable link : EphemeralLink.
Variable config : BrokerRaftConfig.
Variable clock : Clock.

(** ** Leading with a quorum *)

Definition self_is_quorum (n : RaftNode) : bool :=
  quorum_met (rt_membership (rn_runtime n)) {[ nc_node_id (rn_config n) ]}.

(** [BrokerRaft::is_leader_ready] *)
Definition is_leader_ready : M (RaftNode * W) bool :=
  s ← get;
  if negb (is_leader s.1) || negb (local_peer_is_active s.1) then mret false
  else if local_peer_is_active s.1 && self_is_quorum s.1 then mret true
  else age ← el_quorum_age link; mret (bool_decide (age < brc_election_timeout_min config)).

(** [ensure_leader_ready_after_visible_commit_applied] *)
Definition ensure_leader_ready_after_visible_commit_applied : M (RaftNode * W) (RaftResult unit) :=
  ready ← is_leader_ready;
  if ready : bool then okR tt
  else
    s ← get;
    should_step_down ←
      (if is_leader s.1 then
         if negb (local_peer_is_active s.1) then mret true
         else if negb (self_is_quorum s.1) then
           age ← el_quorum_age link; mret (bool_decide (brc_election_timeout_min config <= age))
         else mret false
       else mret false);
    (if should_step_down : bool
     then on_follower (n ← get; step_down clock (rt_current_term (rn_runtime n)) None)
     else mret tt) ;;
    s ← get;
    errR (not_leader_error s.1).

(** [ensure_leader_ready_async] *)
Definition ensure_leader_ready_async : M (RaftNode * W) (RaftResult unit) :=
  on_follower (apply_visible_durable_commit_index clock) ;;?
  ensure_leader_ready_after_visible_commit_applied.

(** ** Requests over a stream *)

(** [BrokerRaft::handle_request] *)
Definition raft_handle_request (client : ClientId) (request : Request.t) : M (RaftNode * W) (RaftResult Z) :=
  match ensure_replicable_raft_client_request request with
  | RaftErr err => errR err
  | RaftOk _ =>
      on_follower (apply_visible_durable_commit_index clock) ;;?
      s ← get;
      match local_client_request_rejection_reason s.1 with
      | Some _ => errR (not_leader_error s.1)
      | None =>
          ensure_leader_ready_after_visible_commit_applied ;;?
          el_enqueue_client_request link client request None None
      end
  end.

(** [BrokerRaft::drop_client], in the serialized commit lane *)
Definition raft_drop_client (client : ClientId) : M (RaftNode * W) (RaftResult Z) :=
  ensure_leader_ready_async ;;?
  el_append_replicate_commit_apply link (DropClient client).

(** ** Single requests *)

(** [next_raft_client_id] *)
Definition next_raft_client_id : M (RaftNode * W) ClientId :=
  sequence ← el_next_client_sequence link;
  s ← get;
  mret (raft_client_id_for_node (nc_node_id (rn_config s.1)) sequence).

(** [BrokerRaft::register_client] *)
Definition raft_register_client : M (RaftNode * W) ClientId :=
  client_id ← next_raft_client_id;
  on_follower (on_broker (register_client_with_id client_id)).

(** [prepare_cached_client_response] *)
Definition prepare_cached_client_response (response : Response.t) : M (RaftNode * W) unit :=
  match granted_lock_uuid response with
  | Some lock_uuid => on_follower (on_broker (detach_lock_owner lock_uuid))
  | None => mret tt
  end.

(** What a lookup in the cache gives; [missing] when there is nothing. *)
Definition on_cached_lookup (request_uuid : string) (lookup : CachedClientResponseLookup)
    (missing : M (RaftNode * W) (RaftResult (option Response.t)))
    : M (RaftNode * W) (RaftResult (option Response.t)) :=
  match lookup with
  | Completed response =>
      prepare_cached_client_response response ;;
      okR (Some response)
  | AppliedWithoutResponse | Pending => errR (client_response_unavailable request_uuid)
  | Missing => missing
  end.

(** From the result of the wait on: the grant is detached from its client,
    the client is dropped, the response is remembered. *)
Definition finish_ephemeral (client_id : ClientId) (request_uuid request_fingerprint : string)
    (is_acquire fail_fast_acquire : bool) (outcome : option Response.t)
    : M (RaftNode * W) (RaftResult (option Response.t)) :=
  let drop_local := on_follower (on_broker (drop_client client_id)) in
  match outcome ≫= granted_lock_uuid with
  | Some lock_uuid =>
      on_follower (on_broker (detach_lock_from_client client_id lock_uuid)) ;;
      drop_local
  | None =>
      if is_acquire then
        shutdown ← (if fail_fast_acquire then mret true else el_is_shutdown link);
        if shutdown : bool then drop_local
        else
          dropped ← raft_drop_client client_id;
          match dropped with
          | RaftErr _ => drop_local
          | RaftOk _ => mret tt
          end
      else drop_local
  end ;;
  if is_acquire && fail_fast_acquire && bool_decide (outcome = None)
  then errR (client_response_unavailable request_uuid)
  else
    match outcome with
    | Some response =>
        on_follower (on_cache (remember_client_response request_uuid request_fingerprint response)) ;;
        okR (Some response)
    | None => okR None
    end.

(** The request is reserved: it is proposed for a fresh client, whose response
    is awaited. *)
Definition propose_ephemeral (request : Request.t) (request_uuid request_fingerprint : string) (wait : Z)
    (is_acquire : bool) : M (RaftNode * W) (RaftResult (option Response.t)) :=
  let fail_fast_acquire := request_is_fail_fast_acquire request in
  let response_wait := if fail_fast_acquire then Z.max wait (brc_proxy_retry_budget config) else wait in
  client_id ← raft_register_client;
  s0 ← get;
  result ← el_enqueue_client_request link client_id request (Some request_uuid) (Some request_fingerprint);
  match result with
  | RaftErr err =>
      (if preserves_client_request_reservation err then mret tt
       else on_follower (on_cache (release_unapplied_client_request_id request_uuid request_fingerprint))) ;;
      on_follower (on_broker (drop_client client_id)) ;;
      errR err
  | RaftOk _ =>
      shutdown ← el_is_shutdown link;
      shutdown ← (if shutdown : bool then mret true else el_awaiting_response link response_wait);
      if shutdown : bool then
        on_follower (on_broker (drop_client client_id)) ;;
        errR (ERpc "raft node is shutting down")
      else
        s ← get;
        let outcome := wait_for_response request_uuid (is_acquire && negb fail_fast_acquire)
          (deliveries client_id (drop (length (trace (rn_broker s0.1))) (trace (rn_broker s.1)))) in
        finish_ephemeral client_id request_uuid request_fingerprint is_acquire fail_fast_acquire outcome
  end.

(** From the leader's check on. *)
Definition run_on_leader (request : Request.t) (request_uuid : string) (wait : Z) (is_acquire : bool)
    : M (RaftNode * W) (RaftResult (option Response.t)) :=
  ensure_leader_ready_after_visible_commit_applied ;;?
  let request_fingerprint := request_fingerprint request in
  lookup ←? on_follower (on_cache (cached_client_response request_uuid request_fingerprint));
  on_cached_lookup request_uuid lookup (
    reserved ←? on_follower (on_cache (reserve_client_request_id request_uuid request_fingerprint));
    if reserved : bool then propose_ephemeral request request_uuid request_fingerprint wait is_acquire
    else
      lookup ←? on_follower (on_cache (cached_client_response request_uuid request_fingerprint));
      on_cached_lookup request_uuid lookup (okR None)).

(** [run_ephemeral_with_proxy_mode]; [fuel] bounds the rounds of forwarding. *)
Definition run_ephemeral_with_proxy_mode (fuel : nat) (request : Request.t) (request_uuid : string)
    (wait : Z) (is_acquire : bool) (proxy_mode : EphemeralProxyMode)
    : M (RaftNode * W) (RaftResult (option Response.t)) :=
  shutdown ← el_is_shutdown link;
  if shutdown : bool then errR (ERpc "raft node is shutting down")
  else if bool_decide (trim request_uuid = EmptyString) then
    errR (ERpc "raft ephemeral request uuid must not be empty")
  else
    let request := request_for_ephemeral_wait request wait is_acquire in
    match ensure_supported_raft_client_request request with
    | RaftErr err => errR err
    | RaftOk _ =>
        on_follower (apply_visible_durable_commit_index clock) ;;?
        shutdown ← el_is_shutdown link;
        if shutdown : bool then errR (ERpc "raft node is shutting down")
        else
          s ← get;
          match local_client_request_rejection_reason s.1 with
          | Some _ => errR (not_leader_error s.1)
          | None =>
              if is_leader s.1 then run_on_leader request request_uuid wait is_acquire
              else
                match proxy_mode with
                | AllowFollowerProxy =>
                    forwarded ←? proxy_ephemeral_request_to_leader (el_proxy link) clock request request_uuid
                                   wait is_acquire fuel (brc_proxy_retry_budget config);
                    match forwarded with
                    | Proxied response => okR response
                    | BecameLeader => run_on_leader request request_uuid wait is_acquire
                    end
                | LocalLeaderOnly => errR (not_leader_error s.1)
                end
          end
    end.

(** [BrokerRaft::run_ephemeral] *)
Definition raft_run_ephemeral (fuel : nat) (request : Request.t) (request_uuid : string) (wait : Z)
    (is_acquire : bool) : M (RaftNode * W) (RaftResult (option Response.t)) :=
  run_ephemeral_with_proxy_mode fuel request request_uuid wait is_acquire AllowFollowerProxy.

(** [run_ephemeral_on_local_leader], which never forwards *)
Definition run_ephemeral_on_local_leader (request : Request.t) (request_uuid : string) (wait : Z)
    (is_acquire : bool) : M (RaftNode * W) (RaftResult (option Response.t)) :=
  run_ephemeral_with_proxy_mode 0 request request_uuid wait is_acquire LocalLeaderOnly.

End link.
End ephemeral.

(** * A repeated request is answered, not proposed again

    [src/src/broker_raft.rs]: a client that did not hear the answer to a request
    sends it again under the same id.  A leader that has the answer gives it; one
    that is at work on the request says so; and an id under which another
    request came is refused.  In none of these cases is anything proposed. *)

Section facts.
Context `{LQ : LinkedQueueCrate} `{E : Env} `{D : RequestDigest} `{C : RaftCodec}.

(** Detaching the owner of a lock tells nobody anything. *)
Lemma detach_owner_quiet u w : wp (detach_lock_owner u) (fun _ w' => trace w' = trace w) w.
Proof.
  unfold detach_lock_owner. apply wp_bind, wp_gets. cbv zeta. apply wp_bind, wp_modify.
  apply wp_bind, wp_done. eexists _, _. split; [done|].
  apply wp_for_each_inv; [done|]. intros c w' _ Hw.
  case_bool_decide; [by apply wp_ret|].
  apply wp_bind, wp_modify. apply wp_bind, wp_gets.
  repeat case_match; by apply wp_ret || apply wp_modify.
Qed.

Context {W : Type}.

Lemma on_follower_done {A} (m : M RaftNode A) n (w : W) a n' :
  m n = Done a n' -> on_follower m (n, w) = Done a (n', w).
Proof. intros H. unfold on_follower. simpl. by rewrite H. Qed.

Lemma on_cache_done {A} (m : M CacheNode A) n a c :
  m (rn_cache n) = Done a c -> on_cache m n = Done a (set_rn_cache c n).
Proof. intros H. unfold on_cache. by rewrite H. Qed.

Lemma prepare_quiet response n (w : W) :
  exists b, prepare_cached_client_response response (n, w) = Done tt (set_rn_broker b n, w).
Proof.
  unfold prepare_cached_client_response. destruct (granted_lock_uuid response) as [u|].
  - pose proof (detach_owner_quiet u (rn_broker n)) as H. apply wp_done in H as ([] & b & Hrun & Ht).
    exists b. apply on_follower_done. unfold on_broker. rewrite Hrun. unfold observed_since.
    rewrite Ht, drop_all. simpl. f_equal. by destruct n as [? ? []].
  - exists (rn_broker n). by destruct n.
Qed.

(** ** A leader that takes requests *)

Context (link : EphemeralLink (W := W)) (config : BrokerRaftConfig) (clock : Clock).

(** The node leads, has applied what is committed, and hears from a quorum or is
    one; it is neither shutting down nor being removed. *)
Record takes_requests (n : RaftNode) (w : W) : Prop := mkTakesRequests {
  tr_running : el_is_shutdown link (n, w) = Done false (n, w);
  tr_applied : apply_visible_durable_commit_index clock n = Done (RaftOk tt) n;
  tr_member : local_client_request_rejection_reason n = None;
  tr_leads : is_leader n = true;
  tr_active : local_peer_is_active n = true;
  tr_quorum : self_is_quorum n = true \/
    exists age, el_quorum_age link (n, w) = Done age (n, w) /\ age < brc_election_timeout_min config;
}.

Lemma ready_done n w :
  takes_requests n w ->
  ensure_leader_ready_after_visible_commit_applied link config clock (n, w) = Done (RaftOk tt) (n, w).
Proof.
  intros [_ _ _ Hl Ha Hq]. unfold ensure_leader_ready_after_visible_commit_applied.
  rewrite (bind_done _ _ _ true (n, w)); [done|]. unfold is_leader_ready.
  rewrite (bind_done _ _ _ _ _ (eq_refl : get (n, w) = Done (n, w) (n, w))). simpl. rewrite Hl, Ha. simpl.
  destruct Hq as [->|(age & Hage & Hlt)]; [done|]. destruct (self_is_quorum n); [done|].
  rewrite (bind_done _ _ _ _ _ Hage). by rewrite bool_decide_eq_true_2.
Qed.

(** Up to the leader's part. *)
Lemma leads_request fuel request request_uuid wait is_acquire mode n w :
  takes_requests n w -> trim request_uuid <> EmptyString ->
  ensure_supported_raft_client_request (request_for_ephemeral_wait request wait is_acquire) = RaftOk tt ->
  run_ephemeral_with_proxy_mode link config clock fuel request request_uuid wait is_acquire mode (n, w)
  = run_on_leader link config clock (request_for_ephemeral_wait request wait is_acquire) request_uuid wait
      is_acquire (n, w).
Proof.
  intros [Hs Ha Hm Hl _ _] Hid Hok. unfold run_ephemeral_with_proxy_mode.
  rewrite (bind_done _ _ _ _ _ Hs). rewrite bool_decide_eq_false_2 by done. cbv zeta. rewrite Hok.
  unfold bindR at 1. rewrite (bind_done _ _ _ _ _ (on_follower_done _ _ _ _ _ Ha)).
  rewrite (bind_done _ _ _ _ _ Hs).
  rewrite (bind_done _ _ _ _ _ (eq_refl : get (n, w) = Done (n, w) (n, w))). simpl. by rewrite Hm, Hl.
Qed.

(** What the client of a request that is known is told. *)
Definition known_answer (request_uuid fingerprint : string) (cached : CachedClientResponse)
    : RaftResult (option Response.t) :=
  if bool_decide (cr_request_fingerprint cached <> fingerprint)
  then RaftErr (EIdempotencyKeyConflict request_uuid)
  else match cr_response cached with
       | Some response => RaftOk (Some response)
       | None => RaftErr (client_response_unavailable request_uuid)
       end.

Lemma known_on_leader request request_uuid wait is_acquire n w cached :
  takes_requests n w ->
  cache_entries (node_cache (rn_cache n)) !! request_uuid = Some cached ->
  exists n', run_on_leader link config clock request request_uuid wait is_acquire (n, w)
      = Done (known_answer request_uuid (request_fingerprint request) cached) (n', w) /\
    rn_log n' = rn_log n /\ rn_runtime n' = rn_runtime n /\
    node_cache (rn_cache n') = node_cache (rn_cache n).
Proof.
  intros Hr Hc. unfold run_on_leader, bindR at 1. rewrite (bind_done _ _ _ _ _ (ready_done _ _ Hr)). cbv zeta.
  assert (exists lookup t,
    on_cache (cached_client_response request_uuid (request_fingerprint request)) n
      = Done lookup (set_rn_cache (with_telemetry t (rn_cache n)) n) /\
    match lookup with
    | RaftErr err => known_answer request_uuid (request_fingerprint request) cached = RaftErr err
    | RaftOk (Completed response) =>
        known_answer request_uuid (request_fingerprint request) cached = RaftOk (Some response)
    | RaftOk Missing => False
    | RaftOk _ => known_answer request_uuid (request_fingerprint request) cached
                  = RaftErr (client_response_unavailable request_uuid)
    end) as (lookup & t & Hrun & Hlookup).
  { unfold known_answer. destruct (bool_decide _) eqn:Hf.
    - eexists _, _. split; [apply on_cache_done|].
      + unfold cached_client_response, gets, mbind, M_bind. rewrite Hc, Hf. reflexivity.
      + done.
    - destruct (cr_response cached) as [r|] eqn:Hresp.
      + eexists _, _. split; [apply on_cache_done|].
        * unfold cached_client_response, gets, mbind, M_bind. rewrite Hc, Hf, Hresp. reflexivity.
        * done.
      + eexists _, _. split; [apply on_cache_done|].
        * unfold cached_client_response, gets, mbind, M_bind. rewrite Hc, Hf, Hresp. reflexivity.
        * by destruct (cr_applied cached). }
  unfold bindR at 1. rewrite (bind_done _ _ _ _ _ (on_follower_done _ _ _ _ _ Hrun)).
  destruct lookup as [[| | |response]|err]; try done; rewrite Hlookup; try (by eexists).
  cbn [on_cached_lookup].
  destruct (prepare_quiet response (set_rn_cache (with_telemetry t (rn_cache n)) n) w) as (b & Hb).
  rewrite (bind_done _ _ _ _ _ Hb). by eexists.
Qed.

End facts.

(** C17: A request whose id a leader knows is never proposed again, whatever the
    queue and the log would do with it.  When the id came with another request
    it is refused as a conflict; when the answer is known it is given; otherwise
    the client is told to retry under the same id.  The log, the leader's state
    and the cache stay as they are, and nothing is put into the queue. *)
Theorem repeated_request_not_proposed `{LQ : LinkedQueueCrate} `{E : Env} `{D : RequestDigest}
    `{C : RaftCodec} {W : Type} (link : EphemeralLink (W := W)) (config : BrokerRaftConfig) (clock : Clock)
    (fuel : nat) (request : Request.t) (request_uuid : string) (wait : Z) (is_acquire : bool)
    (mode : EphemeralProxyMode) (n : RaftNode) (w : W) (cached : CachedClientResponse) :
  takes_requests link config clock n w ->
  trim request_uuid <> EmptyString ->
  ensure_supported_raft_client_request (request_for_ephemeral_wait request wait is_acquire) = RaftOk tt ->
  cache_entries (node_cache (rn_cache n)) !! request_uuid = Some cached ->
  exists n',
    run_ephemeral_with_proxy_mode link config clock fuel request request_uuid wait is_acquire mode (n, w)
      = Done (known_answer request_uuid
                (request_fingerprint (request_for_ephemeral_wait request wait is_acquire)) cached) (n', w) /\
    rn_log n' = rn_log n /\ rn_runtime n' = rn_runtime n /\
    node_cache (rn_cache n') = node_cache (rn_cache n).
Proof. intros Hr Hid Hok Hc. rewrite leads_request by done. by apply known_on_leader. Qed.
