(* ===== verification/RaftDispatch.v ===== *)
(** * A node's answers to the RPCs of its peers

    [src/src/broker_raft.rs]: [handle_rpc] (11662-11874) checks the token and
    hands a message to its handler; [handle_rpc_stream] (11535-11660) reads
    messages from a connection and writes the answers to it.

    The handlers run on the blocking pool; a panic there, which the source turns
    into an error response, is a panic here.  What other tasks do to a proxied
    request's node while it waits is its link's; the staged snapshots are not
    touched meanwhile.  Telemetry and log lines are left out. *)

From S2P Require Import Prelude Text Monad Protocol Queue BrokerTypes BrokerState Broker.
From S2P Require Import BrokerOps Wire BrokerSnapshot RaftQuorum RaftGrant RaftCache.
From S2P Require Import RaftValidate RaftFiles RaftLog RaftNode RaftApply RaftNodeOps RaftFollower.
From S2P Require Import RaftLeader RaftConfig RaftTransfer RaftProtocol RaftRpc.
From S2P Require Import RaftProxy RaftEphemeral.
From stdpp Require Import options.
Import Membership.

Section dispatch.
Context `{LQ : LinkedQueueCrate} `{E : Env} `{D : RequestDigest} `{C : RaftCodec} `{PC : !PayloadCodec}.
Context {W : Type}.

Definition on_transfer_node {A} (m : M TransferNode A) : M (TransferNode * W) A := fun s =>
  match m s.1 with
  | Done a n => Done a (n, s.2)
  | Panicked msg => Panicked msg
  | OutOfFuel => OutOfFuel
  end.

Definition on_request_node {A} (m : M (RaftNode * W) A) : M (TransferNode * W) A := fun s =>
  match m (tn_node s.1, s.2) with
  | Done a s' => Done a (set_tn_node s'.1 s.1, s'.2)
  | Panicked msg => Panicked msg
  | OutOfFuel => OutOfFuel
  end.

Variable link : EphemeralLink (W := W).
Variable clock : Clock.

(** The arm of [handle_rpc] for a client's request from another node. *)
Definition handle_proxy_request (proxy_node_id proxy_node_addr : string) (request : Request.t)
    (request_uuid : string) (wait_ms : Z) (is_acquire : bool) : M (TransferNode * W) RaftRpcResponse :=
  s ← get;
  let n := tn_node s.1 in
  let admission := proxy_leader_admission n in
  if negb (pa_is_leader admission) then
    mret (ProxyResponse (pa_term admission) None
            (Some (error_display (ENotLeader (pa_leader_id admission) (pa_leader_addr admission))))
            (pa_leader_id admission) (pa_leader_addr admission))
  else
    match proxy_sender_rejection_error proxy_node_id proxy_node_addr n with
    | Some error => mret (ProxyResponse (pa_term admission) None (Some error) None None)
    | None =>
        result ← on_request_node (run_ephemeral_on_local_leader link (tn_config s.1) clock request
                   request_uuid (duration_from_millis wait_ms) is_acquire);
        s ← get;
        let term := rt_current_term (rn_runtime (tn_node s.1)) in
        match result with
        | RaftOk response => mret (ProxyResponse term response None None None)
        | RaftErr err =>
            let '(leader_id, leader_addr) :=
              match err with ENotLeader leader_id leader_addr => (leader_id, leader_addr) | _ => (None, None) end in
            mret (ProxyResponse term None (Some (error_display err)) leader_id leader_addr)
        end
    end.

(** [BrokerRaft::handle_rpc] *)
Definition handle_rpc (rpc : RaftRpc) : M (TransferNode * W) RaftRpcResponse :=
  s ← get;
  if negb (peer_rpc_authorized (brc_peer_token (tn_config s.1)) rpc)
  then mret (ErrorResponse (tn_term s.1) "unauthorized raft RPC")
  else
    match rpc with
    | PreVoteRpc _ term candidate_id candidate_addr last_log_index last_log_term =>
        on_transfer_node (on_node (handle_pre_vote_from_peer clock term candidate_id candidate_addr
                                     last_log_index last_log_term))
    | RequestVoteRpc _ term candidate_id candidate_addr last_log_index last_log_term =>
        on_transfer_node (on_node (handle_request_vote_from_peer clock term candidate_id candidate_addr
                                     last_log_index last_log_term))
    | AppendEntriesRpc _ term leader_id leader_addr prev_log_index prev_log_term entries leader_commit =>
        on_transfer_node (on_node (handle_append_entries_from_peer clock
          (mkAppendEntriesFromPeer term leader_id leader_addr prev_log_index prev_log_term entries
             leader_commit)))
    | InstallSnapshotRpc _ term leader_id leader_addr last_included_index last_included_term payload_sha256
        offset done data =>
        on_transfer_node (handle_install_snapshot_from_peer clock
          (mkInstallSnapshotFromPeer term leader_id leader_addr last_included_index last_included_term
             payload_sha256 offset done data))
    | ProxyRequestRpc _ proxy_node_id proxy_node_addr request request_uuid wait_ms is_acquire =>
        handle_proxy_request proxy_node_id proxy_node_addr request request_uuid wait_ms is_acquire
    end.

(** ** A connection *)

Context `{PCd : RpcCodec} `{JS : JsonStrings}.

(** The body of the loop of [handle_rpc_stream] on the line that was read: the
    answer that is written, and whether the loop goes on. *)
Definition answer_frame (max_frame_bytes : Z) (line : string) : M (TransferNode * W) (RaftResult (bytes * bool)) :=
  let frame response again :=
    match serialize_raft_rpc_response_frame_bounded response max_frame_bytes with
    | RaftOk body => okR (body ++ [NEWLINE], again)
    | RaftErr err => errR err
    end in
  match deserialize_raft_rpc_frame line with
  | RaftOk rpc =>
      response ← handle_rpc rpc;
      frame response true
  | RaftErr err =>
      if is_raft_rpc_protocol_rejection err then
        s ← get;
        frame (ErrorResponse (tn_term s.1) (error_display err)) false
      else errR err
  end.

(** How the loop ends: with the stream, a shutdown or a long silence; with a
    frame that cannot be read; with one that cannot be answered. *)
Inductive StreamEnd : Type :=
| StreamClosed
| StreamUnreadable (err : RaftFrameError)
| StreamFailed (err : BrokerRaftError).

(** [handle_rpc_stream]: [interrupted] tells before each message whether the
    node shuts down or the connection stays silent for too long; the bytes
    written are the result. *)
Fixpoint handle_rpc_stream (fuel : nat) (max_frame_bytes : Z) (interrupted : M (TransferNode * W) bool)
    (written : bytes) (reader : Reader) : M (TransferNode * W) (StreamEnd * bytes) :=
  match fuel with
  | O => out_of_fuel
  | S fuel =>
      stop ← interrupted;
      if stop : bool then mret (StreamClosed, written)
      else
        match read_raft_frame_bounded max_frame_bytes reader with
        | Panicked msg => panic msg
        | OutOfFuel => out_of_fuel
        | Done (inl FrameUnexpectedEof) _ => mret (StreamClosed, written)
        | Done (inl err) _ => mret (StreamUnreadable err, written)
        | Done (inr line) reader =>
            answer ← answer_frame max_frame_bytes line;
            match answer with
            | RaftErr err => mret (StreamFailed err, written)
            | RaftOk (body, again) =>
                if again : bool
                then handle_rpc_stream fuel max_frame_bytes interrupted (written ++ body) reader
                else mret (StreamClosed, written ++ body)
            end
        end
  end.

End dispatch.

(** * An RPC is answered in kind, and only to peers

    What a node sends to another arrives as it was sent, is answered by the
    handler of its kind, and the answer passes the checks of the sender; without
    the cluster's token nothing happens. *)

(** ** Results of a kind *)

(** Every result has the property. *)
Definition gives {S A} (P : A -> Prop) (m : M S A) : Prop := forall s a s', m s = Done a s' -> P a.

Section gives.
Context {S : Type}.

Lemma gives_ret {A} (P : A -> Prop) (a : A) : P a -> gives (S := S) P (mret a).
Proof. by intros H s a' s' [= <- _]. Qed.

Lemma gives_bind {A B} (Q : A -> Prop) (P : B -> Prop) (m : M S A) (f : A -> M S B) :
  gives Q m -> (forall a, Q a -> gives P (f a)) -> gives P (m ≫= f).
Proof.
  intros Hm Hf s b s' H. apply bind_done_inv in H as (a & s1 & H1 & H2).
  eapply Hf; [by eapply Hm|exact H2].
Qed.

Lemma gives_any {A} (m : M S A) : gives (fun _ => True) m.
Proof. by intros s a s' _. Qed.

Lemma gives_seq {A B} (P : B -> Prop) (m : M S A) (f : A -> M S B) :
  (forall a, gives P (f a)) -> gives P (m ≫= f).
Proof. intros Hf. eapply gives_bind; [apply gives_any|]. intros a _. apply Hf. Qed.

End gives.

Lemma gives_on_node `{LQ : LinkedQueueCrate} `{E : Env} `{D : RequestDigest} `{C : RaftCodec} {A} (P : A -> Prop) m :
  gives P m -> gives P (on_node m).
Proof. intros Hm n a n'. unfold on_node. destruct (m _) eqn:Hd; [|done..]. intros [= <- _]. by eapply Hm. Qed.

Create HintDb gives.
#[export] Hint Resolve gives_ret gives_any gives_on_node : gives.

(** The body of a handler: binds, branches, results. *)
Ltac gives_split :=
  repeat first
    [ progress intros
    | progress cbv zeta
    | apply gives_ret; done
    | solve [eauto with gives]
    | apply gives_seq
    | case_match ].

(** ** The handlers *)

Section handlers.
Context `{LQ : LinkedQueueCrate} `{E : Env} `{D : RequestDigest} `{C : RaftCodec} `{PC : !PayloadCodec}.
Variable clock : Clock.

Definition in_kind (kind : RaftRpcRequestKind) (response : RaftRpcResponse) : Prop :=
  matches_response kind response = true.

(** An early response is in kind. *)
Definition early_in_kind {A} (kind : RaftRpcRequestKind) (early : RaftRpcResponse + A) : Prop :=
  match early with inl response => in_kind kind response | inr _ => True end.

Definition refusal_in_kind (kind : RaftRpcRequestKind) (refusal : option RaftRpcResponse) : Prop :=
  match refusal with Some response => in_kind kind response | None => True end.

Lemma gives_pre_vote term id addr li lt :
  gives (in_kind PreVoteKind) (handle_pre_vote_from_peer clock term id addr li lt).
Proof. unfold handle_pre_vote_from_peer. gives_split. Qed.

Lemma gives_request_vote term id addr li lt :
  gives (in_kind RequestVoteKind) (handle_request_vote_from_peer clock term id addr li lt).
Proof.
  assert (gives (early_in_kind RequestVoteKind) (decide_vote clock term id addr li lt)).
  { unfold decide_vote. gives_split. }
  unfold handle_request_vote_from_peer. case_match; [gives_split|].
  apply gives_seq. intros res. apply gives_seq. intros n. case_match; [|gives_split]. cbv zeta.
  eapply gives_bind; [done|]. intros [response|[]] Hr; [by apply gives_ret|]. gives_split.
Qed.

Lemma gives_append_entries request :
  gives (in_kind AppendEntriesKind) (handle_append_entries_from_peer clock request).
Proof.
  assert (forall i, gives (early_in_kind AppendEntriesKind) (refuse_append i)) by (unfold refuse_append; gives_split).
  assert (forall a b c, gives (early_in_kind AppendEntriesKind) (follow_leader clock a b c))
    by (unfold follow_leader; gives_split).
  assert (forall a b c, gives (early_in_kind AppendEntriesKind) (prepare_append_entries clock a b c)).
  { intros. unfold prepare_append_entries. apply gives_seq. intros n. cbv zeta.
    eapply gives_bind; [done|]. intros [response|commit] Hr; [by apply gives_ret|]. gives_split. }
  assert (forall a b c d e, gives (in_kind AppendEntriesKind) (finish_append_entries_from_peer clock a b c d e))
    by (unfold finish_append_entries_from_peer; gives_split).
  unfold handle_append_entries_from_peer. case_match; [|gives_split].
  eapply gives_bind; [done|]. intros [response|commit] Hr; [by apply gives_ret|].
  unfold append_prepared. gives_split.
Qed.

Lemma gives_install_snapshot request :
  gives (in_kind InstallSnapshotKind) (handle_install_snapshot_from_peer clock request).
Proof.
  assert (forall err, gives (in_kind InstallSnapshotKind) (error_response err)) by (unfold error_response; gives_split).
  assert (gives (refusal_in_kind InstallSnapshotKind) refuse_snapshot) by (unfold refuse_snapshot; gives_split).
  assert (forall a b c, gives (refusal_in_kind InstallSnapshotKind) (precheck_install_snapshot_sender a b c))
    by (unfold precheck_install_snapshot_sender; gives_split).
  assert (forall a b c, gives (refusal_in_kind InstallSnapshotKind) (accept_validated_install_snapshot_sender clock a b c))
    by (unfold accept_validated_install_snapshot_sender; gives_split).
  assert (gives (refusal_in_kind InstallSnapshotKind) (accept_install_snapshot_sender clock request)).
  { unfold accept_install_snapshot_sender. apply gives_seq. intros n. cbv zeta.
    eapply gives_bind; [by apply gives_on_node|]. intros [response|] Hr; [by apply gives_ret|]. gives_split. }
  assert (forall a b c d e, gives (in_kind InstallSnapshotKind) (finish_installed_snapshot_payload_from_peer a b c d e))
    by (unfold finish_installed_snapshot_payload_from_peer; gives_split).
  assert (forall a b c d e f g h, gives (in_kind InstallSnapshotKind) (install_verified_snapshot clock a b c d e f g h))
    by (unfold install_verified_snapshot; gives_split).
  assert (forall a b c, gives (in_kind InstallSnapshotKind) (receive_snapshot_chunk clock request a b c))
    by (unfold receive_snapshot_chunk, install_staged_payload; gives_split).
  assert (forall a b, gives (in_kind InstallSnapshotKind) (answer_existing_snapshot request a b))
    by (unfold answer_existing_snapshot; gives_split).
  assert (forall a b, gives (in_kind InstallSnapshotKind) (handle_snapshot_chunk clock request a b)).
  { intros. unfold handle_snapshot_chunk. cbv zeta. apply gives_seq. intros n. do 2 (case_match; [gives_split|]).
    eapply gives_bind; [done|]. intros [response|] Hr; gives_split. }
  unfold handle_install_snapshot_from_peer. case_match; [gives_split|]. case_match; [|gives_split]. cbv zeta.
  apply gives_seq. intros res. case_match; [|gives_split].
  eapply gives_bind; [by apply gives_on_node|]. intros [response|] Hr; gives_split.
Qed.

End handlers.

(** ** RPCs *)

Section rpcs.
Context `{LQ : LinkedQueueCrate} `{E : Env} `{D : RequestDigest} `{C : RaftCodec} `{PC : !PayloadCodec}.
Context {W : Type} (link : EphemeralLink (W := W)) (clock : Clock).

Lemma gives_on_transfer_node {A} (P : A -> Prop) m : gives P m -> gives P (on_transfer_node (W := W) m).
Proof. intros Hm s a s'. unfold on_transfer_node. destruct (m _) eqn:Hd; [|done..]. intros [= <- _]. by eapply Hm. Qed.

Lemma gives_handle_rpc rpc : gives (in_kind (raft_rpc_request_kind rpc)) (handle_rpc link clock rpc).
Proof.
  unfold handle_rpc. apply gives_seq. intros s. case_match; [by apply gives_ret; destruct rpc|].
  destruct rpc; simpl.
  - apply gives_on_transfer_node, gives_on_node, gives_pre_vote.
  - apply gives_on_transfer_node, gives_on_node, gives_request_vote.
  - apply gives_on_transfer_node, gives_on_node, gives_append_entries.
  - apply gives_on_transfer_node, gives_install_snapshot.
  - unfold handle_proxy_request. gives_split.
Qed.

Lemma token_exact token rpc :
  peer_rpc_authorized (Some token) rpc = true <-> peer_rpc_auth_token rpc = Some token.
Proof.
  unfold peer_rpc_authorized. destruct (peer_rpc_auth_token rpc) as [actual|]; [|done].
  rewrite constant_time_eq_exact, bool_decide_eq_true. naive_solver.
Qed.

Lemma authorized_by_peer token rpc : peer_rpc_authorized token (with_peer_auth rpc token) = true.
Proof. destruct token as [token|]; [|done]. apply token_exact. by destruct rpc. Qed.

End rpcs.

(** C32: In a cluster with a token, a message that does not carry exactly this
    token, and so any message without one, is answered with an error and leaves
    the node as it is: its term, its vote, its log, its locks and its staged
    snapshots. *)
Theorem unauthorized_rpc_refused `{LQ : LinkedQueueCrate} `{E : Env} `{D : RequestDigest} `{C : RaftCodec}
    `{PC : !PayloadCodec} {W : Type} (link : EphemeralLink (W := W)) (clock : Clock) (token : string)
    (rpc : RaftRpc) (n : TransferNode) (w : W) :
  brc_peer_token (tn_config n) = Some token -> peer_rpc_auth_token rpc <> Some token ->
  handle_rpc link clock rpc (n, w) = Done (ErrorResponse (tn_term n) "unauthorized raft RPC") (n, w).
Proof.
  intros Ht Hrpc. unfold handle_rpc.
  rewrite (bind_done _ _ _ _ _ (eq_refl : get (n, w) = Done (n, w) (n, w))). simpl. rewrite Ht.
  destruct (peer_rpc_authorized (Some token) rpc) eqn:Ha; [|done]. by apply token_exact in Ha.
Qed.

(** C13: An RPC arrives and its answer comes back: the frame a node writes for a
    message, with the cluster's token, is read by its peer as this message,
    however the bytes are cut into packets, and the peer lets it in and answers
    it with the response of its handler; the frame of the response is read by
    the sender as this response, which has the kind the sender expects. *)
Theorem rpc_exchange `{LQ : LinkedQueueCrate} `{E : Env} `{D : RequestDigest} `{C : RaftCodec}
    `{PC : !PayloadCodec} `{PCd : RpcCodec} `{JS : JsonStrings} `{PLw : !RpcCodecLaws} {W : Type}
    (link : EphemeralLink (W := W)) (clock : Clock) (rpc : RaftRpc) (max_frame_bytes : Z)
    (n n' : TransferNode) (w w' : W) (body response_body : bytes) (response : RaftRpcResponse)
    (peer_reader reader : Reader) after rest after' rest' :
  let sent := with_peer_auth rpc (brc_peer_token (tn_config n)) in
  serialize_raft_rpc_frame_bounded sent max_frame_bytes = RaftOk body ->
  contents peer_reader = (frame_bytes body ++ after, rest) ->
  handle_rpc link clock sent (n, w) = Done response (n', w') ->
  serialize_raft_rpc_response_frame_bounded response max_frame_bytes = RaftOk response_body ->
  contents reader = (frame_bytes response_body ++ after', rest') ->
  peer_rpc_authorized (brc_peer_token (tn_config n)) sent = true /\
  (exists line peer_reader',
    read_raft_frame_bounded max_frame_bytes peer_reader = Done (inr line) peer_reader' /\
    contents peer_reader' = (after, rest) /\
    answer_frame link clock max_frame_bytes line (n, w) = Done (RaftOk (frame_bytes response_body, true)) (n', w')) /\
  (exists line reader',
    read_raft_frame_bounded max_frame_bytes reader = Done (inr line) reader' /\
    contents reader' = (after', rest') /\
    deserialize_raft_rpc_response_frame line = RaftOk response /\
    validate_raft_rpc_response_kind (raft_rpc_request_kind rpc) response = RaftOk response).
Proof.
  intros sent Hbody Hc Hrun Hresp Hc'.
  destruct (rpc_frame_read _ _ _ _ _ _ Hbody Hc) as (line & r1 & H1 & H2 & H3).
  destruct (rpc_response_frame_read _ _ _ _ _ _ Hresp Hc') as (line' & r2 & H4 & H5 & H6).
  split; [apply authorized_by_peer|]. split.
  - exists line, r1. split_and!; [done|done|]. unfold answer_frame. rewrite H3.
    rewrite (bind_done _ _ _ _ _ Hrun). by rewrite Hresp.
  - exists line', r2. split_and!; [done|done|done|]. unfold validate_raft_rpc_response_kind.
    pose proof (gives_handle_rpc link clock sent _ _ _ Hrun) as Hk. unfold in_kind in Hk.
    assert (raft_rpc_request_kind sent = raft_rpc_request_kind rpc) as Heq by (by destruct rpc).
    rewrite Heq in Hk. by rewrite Hk.
Qed.
