(* ===== verification/Config.v ===== *)
(** * Loading the configuration: [src/src/config.rs]

    The TOML file gives defaults and the environment wins (lines 1-507); the
    file system and the TOML parser are parameters.  A [PathBuf] is its text. *)

From S2P Require Import Prelude Text Monad Protocol Queue BrokerTypes BrokerState Broker.
From S2P Require Import RaftQuorum RaftGrant RaftValidate Wire Server RaftConfig.
From stdpp Require Import options.

Definition CONFIG_PATH_ENV : string := "LMX_CONFIG".
Definition DEFAULT_CONFIG_PATHS : list string :=
  ["lmx.toml"; "/etc/dd-rust-network-mutex/lmx.toml"]%string.

Inductive ConfigError : Type :=
| ConfigRead (path : string) (source : IoError)
| ConfigParse (path source : string)
| InvalidSocketAddr (value from : string)
| InvalidBoolEnv (key value : string)
| InvalidIntegerEnv (key value : string)
| ConfigRaft (err : BrokerRaftError).

(** [Result<A, ConfigError>] *)
Definition ConfigResult (A : Type) : Type := ConfigError + A.

#[global] Instance ConfigResult_ret : MRet ConfigResult := fun A a => inr a.
#[global] Instance ConfigResult_bind : MBind ConfigResult := fun A B f m =>
  match m with inl err => inl err | inr a => f a end.

(** ** The file *)

Record ServerFileConfig : Type := mkServerFileConfig {
  svf_bind_host : option string;
  svf_tcp_port : option Z;
  svf_http_port : option Z;
  svf_disable_tcp : option bool;
  svf_disable_http : option bool;
  svf_uds_path : option string;
  svf_auth_token : option string;
  svf_status_port : option Z;
  svf_tcp_nodelay : option bool;
  svf_tcp_quickack : option bool;
  svf_tls_cert : option string;
  svf_tls_key : option string;
}.

Record BrokerFileConfig : Type := mkBrokerFileConfig {
  bkf_default_ttl_ms : option Z;
  bkf_max_lock_holders : option Z;
  bkf_max_concurrency_cap : option Z;
  bkf_ttl_sweep_interval_ms : option Z;
  bkf_idle_key_grace_ms : option Z;
}.

Record RaftFileConfig : Type := mkRaftFileConfig {
  rff_enabled : option bool;
  rff_node_id : option string;
  rff_bind_addr : option string;
  rff_advertise_addr : option string;
  rff_data_dir : option string;
  rff_data_dir_lock : option bool;
  rff_heartbeat_interval_ms : option Z;
  rff_election_timeout_min_ms : option Z;
  rff_election_timeout_max_ms : option Z;
  rff_snapshot_interval_ms : option Z;
  rff_snapshot_max_log_entries : option Z;
  rff_snapshot_max_log_bytes : option Z;
  rff_snapshot_max_log_age_ms : option Z;
  rff_trailing_log_entries : option Z;
  rff_append_entries_max_entries : option Z;
  rff_append_entries_max_bytes : option Z;
  rff_append_entries_max_inline_batches : option Z;
  rff_target_quorum_extra_fanout : option Z;
  rff_install_snapshot_chunk_bytes : option Z;
  rff_install_snapshot_max_staged_bytes : option Z;
  rff_install_snapshot_max_staged_transfers : option Z;
  rff_install_snapshot_stale_transfer_ms : option Z;
  rff_client_batch_max_entries : option Z;
  rff_client_pipeline_max_batches : option Z;
  rff_client_batch_max_pending : option Z;
  rff_client_batch_max_delay_ms : option Z;
  rff_client_response_cache_max_entries : option Z;
  rff_proxy_retry_budget_ms : option Z;
  rff_sync_log : option bool;
  rff_sync_commit : option bool;
  rff_peer_token : option string;
  rff_max_inbound_rpc_connections : option Z;
  rff_inbound_rpc_idle_timeout_ms : option Z;
  rff_peers : list RaftPeerConfig;
}.

Record ConfigFile : Type := mkConfigFile {
  cff_server : ServerFileConfig;
  cff_broker : BrokerFileConfig;
  cff_raft : RaftFileConfig;
}.

(** [ConfigFile::default] *)
Definition ConfigFile_default : ConfigFile := {|
  cff_server := mkServerFileConfig None None None None None None None None None None None None;
  cff_broker := mkBrokerFileConfig None None None None None;
  cff_raft := mkRaftFileConfig None None None None None None None None None None None None None None
    None None None None None None None None None None None None None None None None None None None [];
|}.

(** ** The environment *)

(** [Option::or] *)
Definition or_else {A} (a b : option A) : option A := match a with Some _ => a | None => b end.

(** [non_empty] *)
Definition non_empty (value : option string) : option string :=
  value ← value; if bool_decide (trim value = EmptyString) then None else Some (trim value).

(** [env_string], [env_path] *)
Definition env_string (env : Environment) (key : string) : option string := non_empty (env key).
Definition env_path (env : Environment) (key : string) : option string := env_string env key.

(** [env_parse] for the unsigned type of greatest value [max_value]: a value
    that does not parse is as good as none. *)
Definition env_parse (env : Environment) (key : string) (max_value : Z) : option Z :=
  env_string env key ≫= parse_unsigned max_value.

(** [parse_integer_env_value] *)
Definition parse_integer_env_value (key value : string) (max_value : Z) : ConfigResult Z :=
  match parse_unsigned max_value (trim value) with
  | Some n => mret n
  | None => inl (InvalidIntegerEnv key value)
  end.

(** [env_parse_strict] *)
Definition env_parse_strict (env : Environment) (key : string) (max_value : Z) : ConfigResult (option Z) :=
  match env_string env key with
  | Some value => n ← parse_integer_env_value key value max_value; mret (Some n)
  | None => mret None
  end.

(** [str::to_ascii_lowercase], on the bytes. *)
Definition lower_bytes (s : string) : bytes := ascii_lower <$> bytes_of s.

(** [parse_bool_env_value] *)
Definition parse_bool_env_value (key value : string) : ConfigResult bool :=
  let word_is (word : string) := bool_decide (lower_bytes (trim value) = bytes_of word) in
  if word_is "1" || word_is "true" || word_is "yes" || word_is "on" then mret true
  else if word_is "0" || word_is "false" || word_is "no" || word_is "off" then mret false
  else inl (InvalidBoolEnv key value).

(** [env_bool] *)
Definition env_bool (env : Environment) (key : string) : ConfigResult (option bool) :=
  match env_string env key with
  | Some value => b ← parse_bool_env_value key value; mret (Some b)
  | None => mret None
  end.

(** [parse_addr] *)
Definition parse_addr (value source : string) : ConfigResult SocketAddr :=
  match parse_socket_addr value with
  | Some addr => mret addr
  | None => inl (InvalidSocketAddr value source)
  end.

(** The three forms of a setting: [env_bool(key)?.or(file).unwrap_or(fallback)],
    the same with [env_parse_strict], and that in milliseconds. *)
Definition bool_setting (env : Environment) (key : string) (file : option bool) (fallback : bool)
    : ConfigResult bool :=
  b ← env_bool env key; mret (default fallback (or_else b file)).

Definition count_setting (env : Environment) (key : string) (file : option Z) (fallback : Z)
    : ConfigResult Z :=
  n ← env_parse_strict env key u64_max; mret (default fallback (or_else n file)).

Definition ms_setting (env : Environment) (key : string) (file : option Z) (fallback : Z)
    : ConfigResult Z :=
  n ← env_parse_strict env key u64_max;
  mret (duration_from_millis (default (as_u64 (duration_as_millis fallback)) (or_else n file))).

(** ** Building *)

(** [build_broker_config] *)
Definition build_broker_config (env : Environment) (file : BrokerFileConfig) : BrokerConfig := {|
  cfg_default_ttl := duration_from_millis
    (default 4000 (or_else (env_parse env "LMX_DEFAULT_TTL_MS" u64_max) (bkf_default_ttl_ms file)));
  cfg_max_lock_holders := Z.max 1
    (default 1 (or_else (env_parse env "LMX_MAX_LOCK_HOLDERS" u32_max) (bkf_max_lock_holders file)));
  cfg_ttl_sweep_interval := duration_from_millis
    (default 10 (or_else (env_parse env "LMX_TTL_SWEEP_INTERVAL_MS" u64_max)
                   (bkf_ttl_sweep_interval_ms file)));
  cfg_max_concurrency_cap := Z.max 1
    (default DEFAULT_MAX_CONCURRENCY_CAP
       (or_else (env_parse env "LMX_MAX_CONCURRENCY_CAP" u32_max) (bkf_max_concurrency_cap file)));
  cfg_idle_key_grace := duration_from_millis
    (default 60000 (or_else (env_parse env "LMX_IDLE_KEY_GRACE_MS" u64_max) (bkf_idle_key_grace_ms file)));
|}.

Record TlsConfig : Type := mkTlsConfig {
  tls_cert_path : string;
  tls_key_path : string;
}.

Record ServerConfig : Type := mkServerConfig {
  svc_tcp_bind : option SocketAddr;
  svc_uds_path : option string;
  svc_http_bind : option SocketAddr;
  svc_auth_token : option string;
  svc_broker : BrokerConfig;
  svc_tcp_nodelay : bool;
  svc_tcp_quickack : bool;
  svc_status_bind : option SocketAddr;
  svc_tls : option TlsConfig;
}.

(** [build_tls_config] *)
Definition build_tls_config (env : Environment) (file : ServerFileConfig) : option TlsConfig :=
  match or_else (env_path env "LMX_TLS_CERT") (svf_tls_cert file),
        or_else (env_path env "LMX_TLS_KEY") (svf_tls_key file) with
  | Some cert_path, Some key_path => Some (mkTlsConfig cert_path key_path)
  | _, _ => None
  end.

(** [parse_addr(&format!({host}:{port}), ..)] *)
Definition bind_on (host : string) (port : Z) (source : string) : ConfigResult SocketAddr :=
  parse_addr (host +:+ ":" +:+ pretty port)%string source.

(** [build_server_config] *)
Definition build_server_config (env : Environment) (file : ServerFileConfig) (broker : BrokerConfig)
    : ConfigResult ServerConfig :=
  let bind_host := default "0.0.0.0"%string
    (or_else (env_string env "LMX_BIND_HOST") (non_empty (svf_bind_host file))) in
  let tcp_port := default 6970 (or_else (env_parse env "LMX_TCP_PORT" u16_max) (svf_tcp_port file)) in
  let http_port := default 6971 (or_else (env_parse env "LMX_HTTP_PORT" u16_max) (svf_http_port file)) in
  disable_tcp ← bool_setting env "LMX_DISABLE_TCP" (svf_disable_tcp file) false;
  disable_http ← bool_setting env "LMX_DISABLE_HTTP" (svf_disable_http file) false;
  tcp_bind ← (if disable_tcp : bool then mret None
              else addr ← bind_on bind_host tcp_port "server.bind_host/server.tcp_port"; mret (Some addr));
  http_bind ← (if disable_http : bool then mret None
               else addr ← bind_on bind_host http_port "server.bind_host/server.http_port"; mret (Some addr));
  status_bind ← match or_else (env_parse env "LMX_STATUS_PORT" u16_max) (svf_status_port file) with
                | Some port =>
                    addr ← bind_on bind_host port "server.bind_host/server.status_port"; mret (Some addr)
                | None => mret None
                end;
  tcp_nodelay ← bool_setting env "LMX_TCP_NODELAY" (svf_tcp_nodelay file) true;
  tcp_quickack ← bool_setting env "LMX_TCP_QUICKACK" (svf_tcp_quickack file) true;
  mret {|
    svc_tcp_bind := tcp_bind;
    svc_uds_path := or_else (env_path env "LMX_UDS_PATH") (svf_uds_path file);
    svc_http_bind := http_bind;
    svc_auth_token := or_else (or_else (env_string env "ALL_DOGS") (env_string env "LMX_AUTH_TOKEN"))
                        (non_empty (svf_auth_token file));
    svc_broker := broker;
    svc_tcp_nodelay := tcp_nodelay;
    svc_tcp_quickack := tcp_quickack;
    svc_status_bind := status_bind;
    svc_tls := build_tls_config env file;
  |}.

(** [build_raft_config] *)
Definition build_raft_config (env : Environment) (file : RaftFileConfig) : ConfigResult BrokerRaftConfig :=
  let cfg := BrokerRaftConfig_default in
  enabled ← bool_setting env "LMX_RAFT_ENABLED" (rff_enabled file) (brc_enabled cfg);
  let node_id := default (brc_node_id cfg)
    (or_else (env_string env "LMX_RAFT_NODE_ID") (non_empty (rff_node_id file))) in
  bind_addr ← match or_else (env_string env "LMX_RAFT_BIND_ADDR") (non_empty (rff_bind_addr file)) with
              | Some addr => addr ← parse_addr addr "raft.bind_addr"; mret (Some addr)
              | None => mret (brc_bind_addr cfg)
              end;
  let advertise_addr := or_else (or_else (env_string env "LMX_RAFT_ADVERTISE_ADDR")
    (non_empty (rff_advertise_addr file))) (brc_advertise_addr cfg) in
  let data_dir := default (brc_data_dir cfg)
    (or_else (env_path env "LMX_RAFT_DATA_DIR") (rff_data_dir file)) in
  data_dir_lock ← bool_setting env "LMX_RAFT_DATA_DIR_LOCK" (rff_data_dir_lock file) (brc_data_dir_lock cfg);
  heartbeat_interval ←
    ms_setting env "LMX_RAFT_HEARTBEAT_INTERVAL_MS"
      (rff_heartbeat_interval_ms file) (brc_heartbeat_interval cfg);
  election_timeout_min ←
    ms_setting env "LMX_RAFT_ELECTION_TIMEOUT_MIN_MS"
      (rff_election_timeout_min_ms file) (brc_election_timeout_min cfg);
  election_timeout_max ←
    ms_setting env "LMX_RAFT_ELECTION_TIMEOUT_MAX_MS"
      (rff_election_timeout_max_ms file) (brc_election_timeout_max cfg);
  snapshot_interval ←
    ms_setting env "LMX_RAFT_SNAPSHOT_INTERVAL_MS"
      (rff_snapshot_interval_ms file) (brc_snapshot_interval cfg);
  snapshot_max_log_entries ←
    count_setting env "LMX_RAFT_SNAPSHOT_MAX_LOG_ENTRIES"
      (rff_snapshot_max_log_entries file) (brc_snapshot_max_log_entries cfg);
  snapshot_max_log_bytes ←
    count_setting env "LMX_RAFT_SNAPSHOT_MAX_LOG_BYTES"
      (rff_snapshot_max_log_bytes file) (brc_snapshot_max_log_bytes cfg);
  snapshot_max_log_age ←
    ms_setting env "LMX_RAFT_SNAPSHOT_MAX_LOG_AGE_MS"
      (rff_snapshot_max_log_age_ms file) (brc_snapshot_max_log_age cfg);
  trailing_log_entries ←
    count_setting env "LMX_RAFT_TRAILING_LOG_ENTRIES"
      (rff_trailing_log_entries file) (brc_trailing_log_entries cfg);
  append_entries_max_entries ←
    count_setting env "LMX_RAFT_APPEND_ENTRIES_MAX_ENTRIES"
      (rff_append_entries_max_entries file) (brc_append_entries_max_entries cfg);
  append_entries_max_bytes ←
    count_setting env "LMX_RAFT_APPEND_ENTRIES_MAX_BYTES"
      (rff_append_entries_max_bytes file) (brc_append_entries_max_bytes cfg);
  append_entries_max_inline_batches ←
    count_setting env "LMX_RAFT_APPEND_ENTRIES_MAX_INLINE_BATCHES"
      (rff_append_entries_max_inline_batches file) (brc_append_entries_max_inline_batches cfg);
  target_quorum_extra_fanout ←
    count_setting env "LMX_RAFT_TARGET_QUORUM_EXTRA_FANOUT"
      (rff_target_quorum_extra_fanout file) (brc_target_quorum_extra_fanout cfg);
  install_snapshot_chunk_bytes ←
    count_setting env "LMX_RAFT_INSTALL_SNAPSHOT_CHUNK_BYTES"
      (rff_install_snapshot_chunk_bytes file) (brc_install_snapshot_chunk_bytes cfg);
  install_snapshot_max_staged_bytes ←
    count_setting env "LMX_RAFT_INSTALL_SNAPSHOT_MAX_STAGED_BYTES"
      (rff_install_snapshot_max_staged_bytes file) (brc_install_snapshot_max_staged_bytes cfg);
  install_snapshot_max_staged_transfers ←
    count_setting env "LMX_RAFT_INSTALL_SNAPSHOT_MAX_STAGED_TRANSFERS"
      (rff_install_snapshot_max_staged_transfers file) (brc_install_snapshot_max_staged_transfers cfg);
  install_snapshot_stale_transfer_after ←
    ms_setting env "LMX_RAFT_INSTALL_SNAPSHOT_STALE_TRANSFER_MS"
      (rff_install_snapshot_stale_transfer_ms file) (brc_install_snapshot_stale_transfer_after cfg);
  client_batch_max_entries ←
    count_setting env "LMX_RAFT_CLIENT_BATCH_MAX_ENTRIES"
      (rff_client_batch_max_entries file) (brc_client_batch_max_entries cfg);
  client_pipeline_max_batches ←
    count_setting env "LMX_RAFT_CLIENT_PIPELINE_MAX_BATCHES"
      (rff_client_pipeline_max_batches file) (brc_client_pipeline_max_batches cfg);
  client_batch_max_pending ←
    count_setting env "LMX_RAFT_CLIENT_BATCH_MAX_PENDING"
      (rff_client_batch_max_pending file) (brc_client_batch_max_pending cfg);
  client_batch_max_delay ←
    ms_setting env "LMX_RAFT_CLIENT_BATCH_MAX_DELAY_MS"
      (rff_client_batch_max_delay_ms file) (brc_client_batch_max_delay cfg);
  client_response_cache_max_entries ←
    count_setting env "LMX_RAFT_CLIENT_RESPONSE_CACHE_MAX_ENTRIES"
      (rff_client_response_cache_max_entries file) (brc_client_response_cache_max_entries cfg);
  proxy_retry_budget ←
    ms_setting env "LMX_RAFT_PROXY_RETRY_BUDGET_MS"
      (rff_proxy_retry_budget_ms file) (brc_proxy_retry_budget cfg);
  sync_log ← bool_setting env "LMX_RAFT_SYNC_LOG" (rff_sync_log file) (brc_sync_log cfg);
  sync_commit ← bool_setting env "LMX_RAFT_SYNC_COMMIT" (rff_sync_commit file) (brc_sync_commit cfg);
  let peer_token := or_else (env_string env "LMX_RAFT_PEER_TOKEN") (non_empty (rff_peer_token file)) in
  max_inbound_rpc_connections ←
    count_setting env "LMX_RAFT_MAX_INBOUND_RPC_CONNECTIONS"
      (rff_max_inbound_rpc_connections file) (brc_max_inbound_rpc_connections cfg);
  inbound_rpc_idle_timeout ←
    ms_setting env "LMX_RAFT_INBOUND_RPC_IDLE_TIMEOUT_MS"
      (rff_inbound_rpc_idle_timeout_ms file) (brc_inbound_rpc_idle_timeout cfg);
  mret {|
    brc_broker := brc_broker cfg;
    brc_enabled := enabled;
    brc_node_id := node_id;
    brc_bind_addr := bind_addr;
    brc_advertise_addr := advertise_addr;
    brc_data_dir := data_dir;
    brc_data_dir_lock := data_dir_lock;
    brc_heartbeat_interval := heartbeat_interval;
    brc_election_timeout_min := election_timeout_min;
    brc_election_timeout_max := election_timeout_max;
    brc_snapshot_interval := snapshot_interval;
    brc_snapshot_max_log_entries := snapshot_max_log_entries;
    brc_snapshot_max_log_bytes := snapshot_max_log_bytes;
    brc_snapshot_max_log_age := snapshot_max_log_age;
    brc_trailing_log_entries := trailing_log_entries;
    brc_append_entries_max_entries := append_entries_max_entries;
    brc_append_entries_max_bytes := append_entries_max_bytes;
    brc_append_entries_max_inline_batches := append_entries_max_inline_batches;
    brc_target_quorum_extra_fanout := target_quorum_extra_fanout;
    brc_install_snapshot_chunk_bytes := install_snapshot_chunk_bytes;
    brc_install_snapshot_max_staged_bytes := install_snapshot_max_staged_bytes;
    brc_install_snapshot_max_staged_transfers := install_snapshot_max_staged_transfers;
    brc_install_snapshot_stale_transfer_after := install_snapshot_stale_transfer_after;
    brc_client_batch_max_entries := client_batch_max_entries;
    brc_client_pipeline_max_batches := client_pipeline_max_batches;
    brc_client_batch_max_pending := client_batch_max_pending;
    brc_client_batch_max_delay := client_batch_max_delay;
    brc_client_response_cache_max_entries := client_response_cache_max_entries;
    brc_proxy_retry_budget := proxy_retry_budget;
    brc_sync_log := sync_log;
    brc_sync_commit := sync_commit;
    brc_peer_token := peer_token;
    brc_max_inbound_rpc_connections := max_inbound_rpc_connections;
    brc_inbound_rpc_idle_timeout := inbound_rpc_idle_timeout;
    brc_peers := rff_peers file;
  |}.

(** [raft.broker = broker] *)
Definition set_raft_broker (broker : BrokerConfig) (c : BrokerRaftConfig) : BrokerRaftConfig := {|
  brc_broker := broker;
  brc_enabled := brc_enabled c;
  brc_node_id := brc_node_id c;
  brc_bind_addr := brc_bind_addr c;
  brc_advertise_addr := brc_advertise_addr c;
  brc_data_dir := brc_data_dir c;
  brc_data_dir_lock := brc_data_dir_lock c;
  brc_heartbeat_interval := brc_heartbeat_interval c;
  brc_election_timeout_min := brc_election_timeout_min c;
  brc_election_timeout_max := brc_election_timeout_max c;
  brc_snapshot_interval := brc_snapshot_interval c;
  brc_snapshot_max_log_entries := brc_snapshot_max_log_entries c;
  brc_snapshot_max_log_bytes := brc_snapshot_max_log_bytes c;
  brc_snapshot_max_log_age := brc_snapshot_max_log_age c;
  brc_trailing_log_entries := brc_trailing_log_entries c;
  brc_append_entries_max_entries := brc_append_entries_max_entries c;
  brc_append_entries_max_bytes := brc_append_entries_max_bytes c;
  brc_append_entries_max_inline_batches := brc_append_entries_max_inline_batches c;
  brc_target_quorum_extra_fanout := brc_target_quorum_extra_fanout c;
  brc_install_snapshot_chunk_bytes := brc_install_snapshot_chunk_bytes c;
  brc_install_snapshot_max_staged_bytes := brc_install_snapshot_max_staged_bytes c;
  brc_install_snapshot_max_staged_transfers := brc_install_snapshot_max_staged_transfers c;
  brc_install_snapshot_stale_transfer_after := brc_install_snapshot_stale_transfer_after c;
  brc_client_batch_max_entries := brc_client_batch_max_entries c;
  brc_client_pipeline_max_batches := brc_client_pipeline_max_batches c;
  brc_client_batch_max_pending := brc_client_batch_max_pending c;
  brc_client_batch_max_delay := brc_client_batch_max_delay c;
  brc_client_response_cache_max_entries := brc_client_response_cache_max_entries c;
  brc_proxy_retry_budget := brc_proxy_retry_budget c;
  brc_sync_log := brc_sync_log c;
  brc_sync_commit := brc_sync_commit c;
  brc_peer_token := brc_peer_token c;
  brc_max_inbound_rpc_connections := brc_max_inbound_rpc_connections c;
  brc_inbound_rpc_idle_timeout := brc_inbound_rpc_idle_timeout c;
  brc_peers := brc_peers c;
|}.

Record RuntimeConfig : Type := mkRuntimeConfig {
  rtc_server : ServerConfig;
  rtc_raft : BrokerRaftConfig;
  rtc_source_path : option string;
}.

Section loading.
Context `{FS : RaftFrameSizes}.

(** [build_runtime_config] *)
Definition build_runtime_config (env : Environment) (file : ConfigFile) (source_path : option string)
    : ConfigResult RuntimeConfig :=
  let broker := build_broker_config env (cff_broker file) in
  server ← build_server_config env (cff_server file) broker;
  raft ← build_raft_config env (cff_raft file);
  let raft := set_raft_broker broker raft in
  match validate_config env raft with
  | RaftErr err => inl (ConfigRaft err)
  | RaftOk _ => mret (mkRuntimeConfig server raft source_path)
  end.

(** The file system and [toml::from_str]. *)
Context (exists_path : string -> bool).
Context (read_to_string : string -> IoError + string).
Context (toml_from_str : string -> string + ConfigFile).

(** [read_config_file] *)
Definition read_config_file (path : string) : ConfigResult ConfigFile :=
  match read_to_string path with
  | inl source => inl (ConfigRead path source)
  | inr text =>
      match toml_from_str text with
      | inl source => inl (ConfigParse path source)
      | inr file => mret file
      end
  end.

(** The loop of [load_config_file] over the default paths. *)
Fixpoint load_first (candidates : list string) : ConfigResult (ConfigFile * option string) :=
  match candidates with
  | [] => mret (ConfigFile_default, None)
  | path :: candidates =>
      if exists_path path then file ← read_config_file path; mret (file, Some path)
      else load_first candidates
  end.

(** [load_config_file] *)
Definition load_config_file (explicit_path : option string) : ConfigResult (ConfigFile * option string) :=
  match explicit_path with
  | Some path => file ← read_config_file path; mret (file, Some path)
  | None => load_first DEFAULT_CONFIG_PATHS
  end.

(** [load_runtime_config] *)
Definition load_runtime_config (env : Environment) : ConfigResult RuntimeConfig :=
  '(file, source_path) ← load_config_file (env_string env CONFIG_PATH_ENV);
  build_runtime_config env file source_path.

End loading.
