(* ===== verification/ConfigFacts.v ===== *)
(** * What a loaded configuration satisfies

    Every value fits its type; an enabled Raft configuration is sound; a cluster
    whose nodes load such configurations elects one leader per term. *)

From S2P Require Import Prelude Text Monad Protocol Queue BrokerTypes BrokerState Broker.
From S2P Require Import BrokerOps BrokerSpec BrokerFencing BrokerSim BrokerRefine.
From S2P Require Import BrokerRuns BrokerClients BrokerTheorems Wire Server.
From S2P Require Import RaftQuorum RaftQuorumFacts RaftGrant RaftCache RaftValidate.
From S2P Require Import RaftFiles RaftLog RaftExamples RaftNode RaftRestart RaftVotes.
From S2P Require Import RaftElection RaftElectionSafety RaftConfig Config.
From stdpp Require Import options.
Import Membership.

(** ** Addresses *)

Lemma read_digits_ok radix s ds rest :
  0 < radix -> read_digits radix s = (ds, rest) -> Forall (fun d => 0 <= d) ds.
Proof.
  intros Hr. revert ds. induction s as [|b s IH]; intros ds; simpl; [by intros [= <- <-]|].
  destruct (to_digit radix b) as [d|] eqn:Hd; [|by intros [= <- _]].
  destruct (read_digits radix s) as [ds' rest']. intros [= <- ->]. constructor; [|by apply IH].
  unfold to_digit in Hd. repeat case_bool_decide; simplify_eq; lia.
Qed.

Lemma digits_value_nonneg radix ds : 0 <= radix -> Forall (fun d => 0 <= d) ds -> 0 <= digits_value radix ds.
Proof.
  intros Hr Hds. unfold digits_value.
  assert (forall acc, 0 <= acc -> 0 <= foldl (fun acc d => acc * radix + d) acc ds) as H; [|by apply H].
  induction Hds as [|d ds Hd _ IH]; intros acc Hacc; simpl; [done|]. apply IH. nia.
Qed.

Lemma read_number_ok radix md az mx s n rest :
  0 < radix -> read_number radix md az mx s = Some (n, rest) -> 0 <= n <= mx.
Proof.
  intros Hr. unfold read_number. destruct (read_digits radix s) as [ds rest'] eqn:Hd.
  destruct (_ || _) eqn:Hb; [done|]. intros [= <- _]. rewrite !orb_false_iff in Hb.
  destruct Hb as [_ Hb%bool_decide_eq_false]. split; [|lia].
  apply digits_value_nonneg; [lia|]. by eapply read_digits_ok.
Qed.

Lemma read_separator_some {A} sep i (inner : Parser A) s a rest :
  read_separator sep i inner s = Some (a, rest) -> exists s', inner s' = Some (a, rest).
Proof.
  unfold read_separator. case_bool_decide; [eauto|]. rewrite bind_Some. intros ([[] s'] & _ & Hi). eauto.
Qed.

Lemma read_octets_ok n i s os rest :
  read_octets n i s = Some (os, rest) -> length os = n /\ Forall (fun o => 0 <= o <= 255) os.
Proof.
  revert i s os. induction n as [|n IH]; intros i s os; simpl; [by intros [= <- _]|].
  rewrite bind_Some. intros ([o s1] & H1 & H2). apply bind_Some in H2 as ([os' s2] & H2 & [= <- <-]).
  apply read_separator_some in H1 as [s' H1]. apply read_number_ok in H1; [|lia].
  apply IH in H2 as [<- Hos]. by split; [|constructor].
Qed.

Lemma read_groups_ok n i s gs v4 rest :
  read_groups n i s = (gs, v4, rest) -> (length gs <= n)%nat /\ Forall (fun g => 0 <= g <= u16_max) gs.
Proof.
  revert i s gs v4. induction n as [|n IH]; intros i s gs v4; simpl; [by intros [= <- _ _]|].
  assert (match read_separator COLON i (read_number 16 (Some 4%nat) true u16_max) s with
          | Some (g, s0) => let '(gs, b, s1) := read_groups n (S i) s0 in (g :: gs, b, s1)
          | None => ([], false, s)
          end = (gs, v4, rest) -> (length gs <= S n)%nat /\ Forall (fun g => 0 <= g <= u16_max) gs) as Hg.
  { destruct (read_separator _ _ _ s) as [[g s0]|] eqn:Hs; [|intros [= <- _ _]; split; [simpl; lia|done]].
    destruct (read_groups n (S i) s0) as [[gs' b] s1] eqn:Hr. intros [= <- <- <-].
    apply read_separator_some in Hs as [s' Hs]. apply read_number_ok in Hs; [|lia].
    apply IH in Hr as [Hl Hf]. split; [simpl; lia|by constructor]. }
  case_bool_decide as Hn; [exact Hg|].
  destruct (read_separator COLON i read_ipv4_addr s) as [[os s0]|] eqn:Hv; [|exact Hg].
  destruct os as [|o1 [|o2 [|o3 [|o4 [|]]]]]; try exact Hg. intros [= <- _ _].
  apply read_separator_some in Hv as [s' Hv]. apply read_octets_ok in Hv as [_ Hv].
  rewrite !Forall_cons in Hv. destruct Hv as (? & ? & ? & ? & _).
  split; [simpl; lia|]. rewrite !Forall_cons. unfold u16_max. split_and!; try done; lia.
Qed.

Lemma read_ipv6_ok s gs rest :
  read_ipv6_addr s = Some (gs, rest) -> length gs = 8%nat /\ Forall (fun g => 0 <= g <= u16_max) gs.
Proof.
  unfold read_ipv6_addr. destruct (read_groups 8 0 s) as [[hd v4] s1] eqn:H1.
  apply read_groups_ok in H1 as [Hl Hf]. case_bool_decide as H8; [by intros [= <- _]|].
  destruct v4; [done|]. rewrite bind_Some. intros ([[] s2] & _ & H2).
  apply bind_Some in H2 as ([[] s3] & _ & H3).
  destruct (read_groups (8 - (length hd + 1)) 0 s3) as [[tl b] s4] eqn:Ht. injection H3 as <- _.
  apply read_groups_ok in Ht as [Hl' Hf']. rewrite !length_app, length_replicate.
  split; [lia|]. rewrite !Forall_app. split_and!; [done| |done].
  apply Forall_replicate. unfold u16_max. lia.
Qed.

Lemma read_port_ok s p rest : read_port s = Some (p, rest) -> 0 <= p <= u16_max.
Proof.
  unfold read_port. rewrite bind_Some. intros ([[] s'] & _ & H). apply read_number_ok in H; [done|lia].
Qed.

Lemma parse_socket_addr_typed s addr : parse_socket_addr s = Some addr -> addr_typed addr.
Proof.
  unfold parse_socket_addr. destruct (read_socket_addr_v4 (bytes_of s)) as [[a r]|] eqn:H4.
  - destruct r; [|done]. intros [= <-]. unfold read_socket_addr_v4 in H4.
    apply bind_Some in H4 as ([ip s1] & H1 & H4). apply bind_Some in H4 as ([p s2] & H2 & [= <- _]).
    apply read_octets_ok in H1 as [? ?]. by apply read_port_ok in H2.
  - destruct (read_socket_addr_v6 (bytes_of s)) as [[a r]|] eqn:H6; [|done]. destruct r; [|done].
    intros [= <-]. unfold read_socket_addr_v6 in H6. apply bind_Some in H6 as ([[] s1] & _ & H6).
    apply bind_Some in H6 as ([ip s2] & Hip & H6).
    destruct (default (0, s2) (read_scope_id s2)) as [scope s3] eqn:Hsc.
    apply bind_Some in H6 as ([[] s4] & _ & H6). apply bind_Some in H6 as ([p s5] & Hp & [= <- _]).
    apply read_ipv6_ok in Hip as [? ?]. apply read_port_ok in Hp.
    split; [done|]. split; [done|]. split; [done|]. destruct (read_scope_id s2) as [[sc s']|] eqn:Hs; simpl in Hsc; injection Hsc as <- _.
    + unfold read_scope_id in Hs. apply bind_Some in Hs as ([[] s6] & _ & Hs).
      apply read_number_ok in Hs; [exact Hs|lia].
    + unfold u32_range, u32_max. lia.
Qed.

(** ** Types *)

Definition in_u64 (z : Z) : Prop := 0 <= z <= u64_max.
Definition in_u16 (z : Z) : Prop := 0 <= z <= u16_max.

(** A [Duration] of whole milliseconds. *)
Definition in_ms (d : Z) : Prop := exists ms, in_u64 ms /\ d = duration_from_millis ms.

(** What holds of the value, if there is one. *)
Definition if_some {A} (P : A -> Prop) (o : option A) : Prop := forall a, o = Some a -> P a.

(** The values of the file are of their types: what [serde] decodes. *)
Definition broker_file_typed (f : BrokerFileConfig) : Prop :=
  Forall (if_some in_u64) [bkf_default_ttl_ms f; bkf_ttl_sweep_interval_ms f; bkf_idle_key_grace_ms f] /\
  Forall (if_some u32_range) [bkf_max_lock_holders f; bkf_max_concurrency_cap f].

Definition server_file_typed (f : ServerFileConfig) : Prop :=
  Forall (if_some in_u16) [svf_tcp_port f; svf_http_port f; svf_status_port f].

Definition raft_file_typed (f : RaftFileConfig) : Prop :=
  Forall (if_some in_u64)
    [rff_heartbeat_interval_ms f; rff_election_timeout_min_ms f; rff_election_timeout_max_ms f;
     rff_snapshot_interval_ms f; rff_snapshot_max_log_entries f; rff_snapshot_max_log_bytes f;
     rff_snapshot_max_log_age_ms f; rff_trailing_log_entries f; rff_append_entries_max_entries f;
     rff_append_entries_max_bytes f; rff_append_entries_max_inline_batches f;
     rff_target_quorum_extra_fanout f; rff_install_snapshot_chunk_bytes f;
     rff_install_snapshot_max_staged_bytes f; rff_install_snapshot_max_staged_transfers f;
     rff_install_snapshot_stale_transfer_ms f; rff_client_batch_max_entries f;
     rff_client_pipeline_max_batches f; rff_client_batch_max_pending f; rff_client_batch_max_delay_ms f;
     rff_client_response_cache_max_entries f; rff_proxy_retry_budget_ms f;
     rff_max_inbound_rpc_connections f; rff_inbound_rpc_idle_timeout_ms f].

Definition file_typed (f : ConfigFile) : Prop :=
  broker_file_typed (cff_broker f) /\ server_file_typed (cff_server f) /\ raft_file_typed (cff_raft f).

(** The counts and the durations of a Raft configuration. *)
Definition raft_counts (c : BrokerRaftConfig) : list Z :=
  [brc_snapshot_max_log_entries c; brc_snapshot_max_log_bytes c; brc_trailing_log_entries c;
   brc_append_entries_max_entries c; brc_append_entries_max_bytes c;
   brc_append_entries_max_inline_batches c; brc_target_quorum_extra_fanout c;
   brc_install_snapshot_chunk_bytes c; brc_install_snapshot_max_staged_bytes c;
   brc_install_snapshot_max_staged_transfers c; brc_client_batch_max_entries c;
   brc_client_pipeline_max_batches c; brc_client_batch_max_pending c;
   brc_client_response_cache_max_entries c; brc_max_inbound_rpc_connections c].

Definition raft_durations (c : BrokerRaftConfig) : list Z :=
  [brc_heartbeat_interval c; brc_election_timeout_min c; brc_election_timeout_max c;
   brc_snapshot_interval c; brc_snapshot_max_log_age c; brc_install_snapshot_stale_transfer_after c;
   brc_client_batch_max_delay c; brc_proxy_retry_budget c; brc_inbound_rpc_idle_timeout c].

Definition raft_config_typed (c : BrokerRaftConfig) : Prop :=
  Forall in_u64 (raft_counts c) /\ Forall in_ms (raft_durations c) /\
  if_some addr_typed (brc_bind_addr c).

Definition broker_config_typed (c : BrokerConfig) : Prop :=
  Forall in_ms [cfg_default_ttl c; cfg_ttl_sweep_interval c; cfg_idle_key_grace c] /\
  Forall (fun n => 1 <= n <= u32_max) [cfg_max_lock_holders c; cfg_max_concurrency_cap c].

Definition server_config_typed (c : ServerConfig) : Prop :=
  Forall (if_some addr_typed) [svc_tcp_bind c; svc_http_bind c; svc_status_bind c].

(** ** Settings *)

Lemma config_bind_ok {A B} (m : ConfigResult A) (f : A -> ConfigResult B) b :
  m ≫= f = inr b -> exists a, m = inr a /\ f a = inr b.
Proof. destruct m; unfold mbind, ConfigResult_bind; [done|]. eauto. Qed.

Lemma env_parse_typed env key mx n : 0 <= mx -> env_parse env key mx = Some n -> 0 <= n <= mx.
Proof. unfold env_parse. rewrite bind_Some. intros Hm (v & _ & H). by eapply parse_unsigned_range. Qed.

Lemma env_parse_strict_typed env key o : env_parse_strict env key u64_max = inr o -> if_some in_u64 o.
Proof.
  unfold env_parse_strict, parse_integer_env_value. destruct (env_string env key); [|by intros [= <-] ?].
  destruct (parse_unsigned _ _) as [n|] eqn:Hp; [|done]. intros [= <-] ? [= <-].
  eapply parse_unsigned_range; [|exact Hp]. rewrite u64_max_eq. lia.
Qed.

Lemma or_else_typed {A} (P : A -> Prop) a b d :
  if_some P a -> if_some P b -> P d -> P (default d (or_else a b)).
Proof. intros Ha Hb Hd. destruct a; simpl; [by apply Ha|]. destruct b; simpl; [by apply Hb|done]. Qed.

Lemma count_setting_typed env key file d n :
  count_setting env key file d = inr n -> if_some in_u64 file -> in_u64 d -> in_u64 n.
Proof.
  unfold count_setting. intros (o & Ho & [= <-])%config_bind_ok Hf Hd.
  apply or_else_typed; try done. by eapply env_parse_strict_typed.
Qed.

Lemma ms_setting_typed env key file d n :
  ms_setting env key file d = inr n -> if_some in_u64 file -> in_ms n.
Proof.
  unfold ms_setting. intros (o & Ho & [= <-])%config_bind_ok Hf. eexists. split; [|done].
  apply or_else_typed; [by eapply env_parse_strict_typed|done|].
  unfold in_u64, as_u64. rewrite u64_max_eq. pose proof (Z.mod_pos_bound (duration_as_millis d) (2 ^ 64)). lia.
Qed.

Lemma parse_addr_typed value source addr : parse_addr value source = inr addr -> addr_typed addr.
Proof.
  unfold parse_addr. destruct (parse_socket_addr value) eqn:Hp; [|done]. intros [= <-].
  by eapply parse_socket_addr_typed.
Qed.

Lemma bind_on_typed host port source (o : option SocketAddr) :
  (addr ← bind_on host port source; mret (Some addr)) = inr o -> if_some addr_typed o.
Proof. intros (addr & Ha & [= <-])%config_bind_ok a [= <-]. by eapply parse_addr_typed. Qed.

Ltac config_steps H := repeat (apply config_bind_ok in H as (? & ? & H)).

(** ** Building *)

Lemma build_broker_config_typed env file :
  broker_file_typed file -> broker_config_typed (build_broker_config env file).
Proof.
  unfold broker_file_typed. rewrite !Forall_cons. intros [(H1 & H2 & H3 & _) (H4 & H5 & _)].
  assert (forall key d (o : option Z), if_some in_u64 o -> in_u64 d ->
    in_ms (duration_from_millis (default d (or_else (env_parse env key u64_max) o)))) as Hms.
  { intros key d o Ho Hd. eexists. split; [|done]. apply or_else_typed; [|done..].
    intros n Hn. eapply env_parse_typed; [|exact Hn]. rewrite u64_max_eq. lia. }
  assert (forall key d (o : option Z), if_some u32_range o -> u32_range d ->
    1 <= Z.max 1 (default d (or_else (env_parse env key u32_max) o)) <= u32_max) as Hmax.
  { intros key d o Ho Hd. assert (u32_range (default d (or_else (env_parse env key u32_max) o))) as Hr.
    - apply or_else_typed; [|done..]. intros n Hn. eapply env_parse_typed; [|exact Hn]. unfold u32_max. lia.
    - unfold u32_range, u32_max in *. lia. }
  unfold in_u64, u32_range in *. split; repeat constructor; simpl; first [apply Hms|apply Hmax]; try done.
Qed.

Lemma build_server_config_typed env file broker c :
  build_server_config env file broker = inr c -> server_config_typed c /\ svc_broker c = broker.
Proof.
  unfold build_server_config. cbv zeta. intros H. config_steps H. injection H as <-. split; [|done].
  unfold server_config_typed. simpl. rewrite !Forall_cons.
  repeat match goal with H : (if ?b then _ else _) = _ |- _ => destruct b end;
  repeat match goal with H : match ?b with Some _ => _ | None => _ end = _ |- _ => destruct b end;
  split_and!; try (by constructor);
  solve [match goal with H : mret None = inr ?o |- if_some _ ?o => injection H as <-; by intros ? end
        |by eapply bind_on_typed].
Qed.

Lemma build_raft_config_typed env file c :
  raft_file_typed file -> build_raft_config env file = inr c -> raft_config_typed c.
Proof.
  unfold raft_file_typed. rewrite !Forall_cons. intros Hf H. destruct_and! Hf.
  unfold build_raft_config in H. cbv zeta in H. config_steps H. injection H as <-.
  split; [|split]; simpl.
  - repeat constructor; eapply count_setting_typed; try done; by vm_compute.
  - repeat constructor; by eapply ms_setting_typed.
  - match goal with H : match ?b with Some _ => _ | None => _ end = inr ?o |- if_some _ ?o =>
      destruct b; [apply config_bind_ok in H as (addr & Haddr & H)|]; injection H as <- end.
    + intros a Ha. injection Ha as <-. by eapply parse_addr_typed.
    + intros a Ha. injection Ha as <-. unfold addr_typed, u16_max.
      split; [done|]. split; [repeat constructor; lia|lia].
Qed.

(** ** What the validation of a Raft configuration accepts *)

(** The limits that must not be zero. *)
Definition positive_limits (c : BrokerRaftConfig) : list Z :=
  [brc_snapshot_interval c; brc_append_entries_max_entries c; brc_append_entries_max_bytes c;
   brc_append_entries_max_inline_batches c; brc_install_snapshot_chunk_bytes c;
   brc_install_snapshot_max_staged_bytes c; brc_install_snapshot_max_staged_transfers c;
   brc_install_snapshot_stale_transfer_after c; brc_client_batch_max_entries c;
   brc_client_pipeline_max_batches c; brc_client_batch_max_pending c;
   brc_client_response_cache_max_entries c; brc_proxy_retry_budget c;
   brc_max_inbound_rpc_connections c; brc_inbound_rpc_idle_timeout c].

Section soundness.
Context `{FS : RaftFrameSizes}.

(** The smallest messages fit the limit on frames. *)
Definition frames_fit (env : Environment) (c : BrokerRaftConfig) : Prop :=
  match parse_raft_rpc_max_frame_bytes_env env with
  | RaftErr _ => False
  | RaftOk None => True
  | RaftOk (Some limit) => forall kind, kind ∈ frame_kinds ->
      exists n, minimum_frame_len kind (brc_peer_token c) (trim (brc_node_id c))
        (configured_local_raft_advertise_addr c) = RaftOk n /\ n <= limit
  end.

Record raft_config_sound (env : Environment) (c : BrokerRaftConfig) (allow : bool) : Prop := {
  rs_node_id : validate_raft_node_id (trim (brc_node_id c)) = None;
  rs_bind_addr : brc_bind_addr c <> None;
  rs_advertise_addr : if_some (fun addr => trim addr <> EmptyString /\
    validate_raft_peer_addr_for_transport addr allow = None) (brc_advertise_addr c);
  rs_peer_token : if_some (fun token => trim token <> EmptyString) (brc_peer_token c);
  rs_peers : acceptable allow (trim_peer <$> brc_peers c);
  (** The node is listed at the address it advertises, or not at all, and then
      no peer has its client-id prefix. *)
  rs_local_addr : forall p, p ∈ trim_peer <$> brc_peers c -> peer_id p = trim (brc_node_id c) ->
    peer_addr p = configured_local_raft_advertise_addr c;
  rs_local_prefix : forall p, p ∈ trim_peer <$> brc_peers c ->
    raft_client_id_prefix (peer_id p) = raft_client_id_prefix (trim (brc_node_id c)) ->
    exists q, q ∈ trim_peer <$> brc_peers c /\ peer_id q = trim (brc_node_id c);
  rs_heartbeat : brc_heartbeat_interval c <> 0;
  rs_timers : brc_heartbeat_interval c < brc_election_timeout_min c < brc_election_timeout_max c;
  rs_limits : Forall (fun n => n <> 0) (positive_limits c);
  rs_frames : frames_fit env c;
}.

Lemma require_ok b message : require b message = RaftOk tt <-> b = true.
Proof. by destruct b. Qed.

Lemma seq_ok {A} (m : RaftResult unit) (k : RaftResult A) a :
  (m ;; k) = RaftOk a <-> m = RaftOk tt /\ k = RaftOk a.
Proof. rewrite raft_bind_ok. split; [intros ([] & ? & ?)|intros [? ?]]; eauto. Qed.

Lemma observe_frames_ok token id addr kinds largest bytes kind :
  observe_frames token id addr largest kinds = RaftOk (bytes, kind) ->
  largest.1 <= bytes /\ (forall k, k ∈ kinds -> exists n, minimum_frame_len k token id addr = RaftOk n /\ n <= bytes).
Proof.
  revert largest. induction kinds as [|k kinds IH]; intros largest; simpl.
  { intros [= ->]. simpl. split; [lia|]. by intros k []%elem_of_nil. }
  rewrite raft_bind_ok. intros (n & Hn & H). apply IH in H as [H1 H2].
  assert (largest.1 <= bytes /\ n <= bytes) as [H3 H4].
  { revert H1. case_bool_decide; simpl; lia. }
  split; [done|]. intros k' [->|Hk]%elem_of_cons; eauto.
Qed.

Lemma observe_frames_fit token id addr kinds largest limit :
  largest.1 <= limit ->
  (forall k, k ∈ kinds -> exists n, minimum_frame_len k token id addr = RaftOk n /\ n <= limit) ->
  exists bytes kind, observe_frames token id addr largest kinds = RaftOk (bytes, kind) /\ bytes <= limit.
Proof.
  revert largest. induction kinds as [|k kinds IH]; intros largest Hl Hk; simpl.
  { destruct largest as [b k]. by exists b, k. }
  destruct (Hk k) as (n & -> & Hn); [left|].
  apply IH; [case_bool_decide; simpl; lia|]. intros k' Hk'. apply Hk. by right.
Qed.

Lemma frames_fit_ok env c :
  validate_raft_rpc_max_frame_bytes_env env c (trim (brc_node_id c)) = RaftOk tt <-> frames_fit env c.
Proof.
  unfold validate_raft_rpc_max_frame_bytes_env, frames_fit.
  destruct (parse_raft_rpc_max_frame_bytes_env env) as [[limit|]|err] eqn:Hp; [|done..].
  change (RaftOk (Some limit) ≫= ?f) with (f (Some limit)). cbv beta iota zeta.
  assert (0 <= limit) as Hlimit.
  { unfold parse_raft_rpc_max_frame_bytes_env in Hp. repeat case_match; simplify_eq.
    match goal with H : parse_unsigned _ _ = Some _ |- _ => apply parse_unsigned_range in H end;
      rewrite ?u64_max_eq; lia. }
  rewrite raft_bind_ok. unfold raft_rpc_minimum_required_frame_bytes. split.
  - intros ([bytes kind] & Ho & Hr). apply require_ok, bool_decide_eq_true in Hr.
    apply observe_frames_ok in Ho as [_ Hk]. intros k Hin. destruct (Hk k Hin) as (n & Hn & Hle).
    exists n. split; [done|lia].
  - intros Hk. destruct (observe_frames_fit (brc_peer_token c) (trim (brc_node_id c))
      (configured_local_raft_advertise_addr c) frame_kinds (0, "unknown"%string) limit) as (b & k & Ho & Hle); [done..|].
    exists (b, k). split; [done|]. apply require_ok. by apply bool_decide_eq_true.
Qed.

Lemma message_ok (o : option string) (f : string -> BrokerRaftError) :
  match o with Some message => RaftErr (f message) | None => RaftOk tt end = RaftOk tt <-> o = None.
Proof. by destruct o. Qed.

Lemma identity_ok c node_id allow :
  validate_identity c node_id allow = RaftOk tt <->
  validate_raft_node_id node_id = None /\ brc_bind_addr c <> None /\
  if_some (fun addr => trim addr <> EmptyString /\ validate_raft_peer_addr_for_transport addr allow = None)
    (brc_advertise_addr c) /\
  if_some (fun token => trim token <> EmptyString) (brc_peer_token c).
Proof.
  unfold validate_identity. rewrite !seq_ok, !require_ok, !negb_true_iff, !bool_decide_eq_false.
  rewrite message_ok.
  assert (match brc_advertise_addr c with
          | Some addr => require (negb (bool_decide (trim addr = EmptyString)))
              "raft.advertise_addr must not be empty or whitespace-only when configured" ;;
              match validate_raft_peer_addr_for_transport addr allow with
              | Some message => RaftErr (EInvalidConfig
                  ("raft.advertise_addr has invalid addr `" +:+ addr +:+ "`: " +:+ message)%string)
              | None => RaftOk tt
              end
          | None => RaftOk tt
          end = RaftOk tt <->
    if_some (fun addr => trim addr <> EmptyString /\ validate_raft_peer_addr_for_transport addr allow = None)
      (brc_advertise_addr c)) as ->.
  { destruct (brc_advertise_addr c) as [addr|]; [|split; [by intros _ ?|done]].
    rewrite seq_ok, require_ok, negb_true_iff, bool_decide_eq_false, message_ok.
    split; [by intros ? ? [= <-]|intros H; by apply H]. }
  assert (match brc_peer_token c with
          | Some token => require (negb (bool_decide (trim token = EmptyString)))
              "raft.peer_token must not be empty or whitespace-only when configured"
          | None => RaftOk tt
          end = RaftOk tt <-> if_some (fun token => trim token <> EmptyString) (brc_peer_token c)) as ->.
  { destruct (brc_peer_token c) as [token|]; [|split; [by intros _ ?|done]].
    rewrite require_ok, negb_true_iff, bool_decide_eq_false.
    split; [by intros ? ? [= <-]|intros H; by apply H]. }
  split; [tauto|]. intros (H1 & H). split; [by apply node_id_not_empty|tauto].
Qed.

Lemma timing_ok c :
  validate_timing_and_limits c = RaftOk tt <->
  brc_heartbeat_interval c <> 0 /\
  brc_heartbeat_interval c < brc_election_timeout_min c < brc_election_timeout_max c /\
  Forall (fun n => n <> 0) (positive_limits c).
Proof.
  unfold validate_timing_and_limits, positive_limits. cbv zeta. split.
  - intros H. repeat (apply seq_ok in H as [?Hr%require_ok H]). apply require_ok in H.
    rewrite ?negb_true_iff, ?bool_decide_eq_true, ?bool_decide_eq_false in *.
    split; [done|]. split; [done|]. repeat constructor; done.
  - intros (H1 & [H2 H3] & H). repeat apply Forall_cons in H as [?Hl H].
    repeat (apply seq_ok; split); apply require_ok;
      rewrite ?negb_true_iff, ?bool_decide_eq_true, ?bool_decide_eq_false; done.
Qed.

Lemma local_peer_ok c node_id peers :
  NoDup (peer_id <$> peers) ->
  validate_local_peer c node_id peers = RaftOk tt <->
  (forall p, p ∈ peers -> peer_id p = node_id -> peer_addr p = configured_local_raft_advertise_addr c) /\
  (forall p, p ∈ peers -> raft_client_id_prefix (peer_id p) = raft_client_id_prefix node_id ->
     exists q, q ∈ peers /\ peer_id q = node_id).
Proof.
  intros Hnd. unfold validate_local_peer. cbv zeta.
  destruct (list_find (fun p => peer_id p = node_id) peers) as [[i local]|] eqn:Hf.
  - apply list_find_Some in Hf as (Hl & Hid & _). apply list_elem_of_lookup_2 in Hl.
    rewrite require_ok, bool_decide_eq_true. split; [|intros [H _]; by apply H].
    intros Ha. split; [|eauto]. intros p Hp Hpid. rewrite <-Ha. f_equal.
    apply list_elem_of_lookup in Hp as [j Hj]. apply list_elem_of_lookup in Hl as [k Hk].
    assert (j = k) as ->; [|congruence].
    eapply (NoDup_lookup (peer_id <$> peers)); [done|rewrite list_lookup_fmap, Hj; simpl; by rewrite Hpid|].
    rewrite list_lookup_fmap, Hk. simpl. by rewrite Hid.
  - apply list_find_None in Hf. rewrite Forall_forall in Hf.
    destruct (list_find _ peers) as [[i p]|] eqn:Hf'.
    + apply list_find_Some in Hf' as (Hl & Hp & _). apply list_elem_of_lookup_2 in Hl.
      split; [done|]. intros [_ H]. destruct (H p Hl Hp) as (q & Hq & Hqid). by destruct (Hf q Hq).
    + apply list_find_None in Hf'. rewrite Forall_forall in Hf'. split; [|done]. intros _.
      split; [intros p Hp ?; by destruct (Hf p Hp)|]. intros p Hp ?. by destruct (Hf' p Hp).
Qed.

Lemma validation_ok env c allow :
  brc_enabled c = true -> validate_for_peer_transport env c allow = RaftOk tt <-> raft_config_sound env c allow.
Proof.
  intros He. unfold validate_for_peer_transport. rewrite He. cbn [negb]. cbv zeta.
  rewrite seq_ok, identity_ok, raft_bind_ok.
  assert (forall peers, acceptable allow (trim_peer <$> brc_peers c) ->
    peers = normalize_peers (trim_peer <$> brc_peers c) ->
    (validate_local_peer c (trim (brc_node_id c)) peers ;;
     require (bool_decide (length peers = length (brc_peers c)))
       "raft.peers must not contain duplicate peer IDs" ;;
     validate_timing_and_limits c ;;
     validate_raft_rpc_max_frame_bytes_env env c (trim (brc_node_id c))) = RaftOk tt <->
    validate_local_peer c (trim (brc_node_id c)) (trim_peer <$> brc_peers c) = RaftOk tt /\
    validate_timing_and_limits c = RaftOk tt /\ frames_fit env c) as Hrest.
  { intros peers (_ & _ & Hd) ->. pose proof (dp_ids _ Hd) as Hnd. pose proof (normalize_perm _ Hnd) as Hp.
    rewrite !seq_ok, require_ok, bool_decide_eq_true, frames_fit_ok.
    rewrite !local_peer_ok by (done || by rewrite Hp). setoid_rewrite Hp.
    pose proof (length_fmap trim_peer (brc_peers c)). tauto. }
  split.
  - intros [(H1 & H2 & H3 & H4) (peers & Hv & Hr)]. apply membership_peers_ok in Hv as [Ha Hn].
    apply (Hrest peers Ha Hn) in Hr as (Hl & Ht & Hf).
    apply local_peer_ok in Hl as [Hl1 Hl2]; [|by destruct Ha as (_ & _ & [])].
    apply timing_ok in Ht as (Ht1 & Ht2 & Ht3). by split.
  - intros [H1 H2 H3 H4 H5 H6 H7 H8 H9 H10 H11]. split; [done|].
    exists (normalize_peers (trim_peer <$> brc_peers c)). split; [by apply membership_peers_ok|].
    apply Hrest; [done..|]. split_and!; [|by apply timing_ok|done].
    apply local_peer_ok; [by destruct H5 as (_ & _ & [])|done].
Qed.

(** C34: the validation of an enabled Raft configuration accepts exactly the sound
    ones: a valid id, addresses and token; at least three distinct, well formed
    peers with distinct client-id prefixes; the node listed at the address it
    advertises, or not at all; the heartbeat below the election timeouts, which
    are in order; no zero limit; and room for the smallest messages. *)
Theorem raft_validation_exact env c allow :
  brc_enabled c = true -> validate_for_peer_transport env c allow = RaftOk tt <-> raft_config_sound env c allow.
Proof. apply validation_ok. Qed.

End soundness.

(** ** The whole configuration *)

Section loaded.
Context `{LQ : LinkedQueueCrate} `{E : Env} `{FS : RaftFrameSizes}.

(** C33: What loads is well typed and sound.  Every count, duration, address and
    limit of a configuration built from a file of its types and any environment
    fits its Rust type; the server and Raft share one broker configuration,
    which satisfies what the theorems about the broker ask of it; and an
    enabled Raft configuration is sound. *)
Theorem runtime_config_typed env file source c :
  file_typed file -> build_runtime_config env file source = inr c ->
  server_config_typed (rtc_server c) /\ raft_config_typed (rtc_raft c) /\
  broker_config_typed (brc_broker (rtc_raft c)) /\
  svc_broker (rtc_server c) = brc_broker (rtc_raft c) /\
  config_ok (unforced u32_max) (svc_broker (rtc_server c)) /\
  (brc_enabled (rtc_raft c) = true -> raft_config_sound env (rtc_raft c) false).
Proof.
  intros (Hb & Hs & Hr) H. unfold build_runtime_config in H. cbv zeta in H.
  apply config_bind_ok in H as (server & Hserver & H). apply config_bind_ok in H as (raft & Hraft & H).
  destruct (validate_config env _) as [[]|err] eqn:Hv; [|done]. injection H as <-. cbn [rtc_server rtc_raft].
  apply build_server_config_typed in Hserver as [Hst Hsb].
  pose proof (build_broker_config_typed env _ Hb) as Hbt.
  apply build_raft_config_typed in Hraft; [|done]. split_and!; try done.
  - destruct Hbt as [_ Hbt]. rewrite !Forall_cons in Hbt. destruct Hbt as (H1 & H2 & _).
    rewrite Hsb. split; [apply H2|apply H1].
  - intros He. by apply validation_ok.
Qed.

End loaded.

(** ** Variables that do not parse *)

Definition raft_integer_vars : list string :=
  ["LMX_RAFT_HEARTBEAT_INTERVAL_MS"; "LMX_RAFT_ELECTION_TIMEOUT_MIN_MS"; "LMX_RAFT_ELECTION_TIMEOUT_MAX_MS";
   "LMX_RAFT_SNAPSHOT_INTERVAL_MS"; "LMX_RAFT_SNAPSHOT_MAX_LOG_ENTRIES"; "LMX_RAFT_SNAPSHOT_MAX_LOG_BYTES";
   "LMX_RAFT_SNAPSHOT_MAX_LOG_AGE_MS"; "LMX_RAFT_TRAILING_LOG_ENTRIES";
   "LMX_RAFT_APPEND_ENTRIES_MAX_ENTRIES"; "LMX_RAFT_APPEND_ENTRIES_MAX_BYTES";
   "LMX_RAFT_APPEND_ENTRIES_MAX_INLINE_BATCHES"; "LMX_RAFT_TARGET_QUORUM_EXTRA_FANOUT";
   "LMX_RAFT_INSTALL_SNAPSHOT_CHUNK_BYTES"; "LMX_RAFT_INSTALL_SNAPSHOT_MAX_STAGED_BYTES";
   "LMX_RAFT_INSTALL_SNAPSHOT_MAX_STAGED_TRANSFERS"; "LMX_RAFT_INSTALL_SNAPSHOT_STALE_TRANSFER_MS";
   "LMX_RAFT_CLIENT_BATCH_MAX_ENTRIES"; "LMX_RAFT_CLIENT_PIPELINE_MAX_BATCHES";
   "LMX_RAFT_CLIENT_BATCH_MAX_PENDING"; "LMX_RAFT_CLIENT_BATCH_MAX_DELAY_MS";
   "LMX_RAFT_CLIENT_RESPONSE_CACHE_MAX_ENTRIES"; "LMX_RAFT_PROXY_RETRY_BUDGET_MS";
   "LMX_RAFT_MAX_INBOUND_RPC_CONNECTIONS"; "LMX_RAFT_INBOUND_RPC_IDLE_TIMEOUT_MS"]%string.

Lemma count_setting_parses env key file d n value :
  count_setting env key file d = inr n -> env_string env key = Some value ->
  is_Some (parse_unsigned u64_max (trim value)).
Proof.
  unfold count_setting, env_parse_strict, parse_integer_env_value. intros H Hv. rewrite Hv in H.
  by destruct (parse_unsigned _ _).
Qed.

Lemma ms_setting_parses env key file d n value :
  ms_setting env key file d = inr n -> env_string env key = Some value ->
  is_Some (parse_unsigned u64_max (trim value)).
Proof.
  unfold ms_setting, env_parse_strict, parse_integer_env_value. intros H Hv. rewrite Hv in H.
  by destruct (parse_unsigned _ _).
Qed.

(** A number that does not parse stops the start: when a variable that sets a
    count or a duration of Raft is set to something that is not a [u64], no
    configuration is built, whatever the file and the other variables say. *)
Theorem bad_raft_number_refused `{FS : RaftFrameSizes} env file source key value :
  key ∈ raft_integer_vars -> env_string env key = Some value -> parse_unsigned u64_max (trim value) = None ->
  exists err, build_runtime_config env file source = inl err.
Proof.
  intros Hkey Hv Hp. destruct (build_runtime_config env file source) as [err|c] eqn:H; [by exists err|exfalso].
  unfold build_runtime_config in H. cbv zeta in H. apply config_bind_ok in H as (server & _ & H).
  apply config_bind_ok in H as (raft & Hraft & _). unfold build_raft_config in Hraft. cbv zeta in Hraft.
  config_steps Hraft. clear Hraft. enough (is_Some (parse_unsigned u64_max (trim value))) as [n Hn] by congruence.
  unfold raft_integer_vars in Hkey. repeat apply elem_of_cons in Hkey as [->|Hkey];
    try (by apply elem_of_nil in Hkey);
    solve [eapply ms_setting_parses; [|exact Hv]; eassumption|eapply count_setting_parses; [|exact Hv]; eassumption].
Qed.

(** * A configured cluster elects one leader per term

    How the opening of a node prepares its configuration (broker_raft.rs
    5273-5286), and the safety of elections in a cluster whose nodes are started
    from configurations that list the same peers. *)

Section opening.
Context `{FS : RaftFrameSizes}.

(** [config.node_id = ...], [config.peers = ...] *)
Definition set_identity (node_id : string) (peers : list RaftPeerConfig) (c : BrokerRaftConfig)
    : BrokerRaftConfig :=
  mkBrokerRaftConfig (brc_broker c) (brc_enabled c) node_id (brc_bind_addr c) (brc_advertise_addr c)
    (brc_data_dir c) (brc_data_dir_lock c) (brc_heartbeat_interval c) (brc_election_timeout_min c)
    (brc_election_timeout_max c) (brc_snapshot_interval c) (brc_snapshot_max_log_entries c)
    (brc_snapshot_max_log_bytes c) (brc_snapshot_max_log_age c) (brc_trailing_log_entries c)
    (brc_append_entries_max_entries c) (brc_append_entries_max_bytes c)
    (brc_append_entries_max_inline_batches c) (brc_target_quorum_extra_fanout c)
    (brc_install_snapshot_chunk_bytes c) (brc_install_snapshot_max_staged_bytes c)
    (brc_install_snapshot_max_staged_transfers c) (brc_install_snapshot_stale_transfer_after c)
    (brc_client_batch_max_entries c) (brc_client_pipeline_max_batches c) (brc_client_batch_max_pending c)
    (brc_client_batch_max_delay c) (brc_client_response_cache_max_entries c) (brc_proxy_retry_budget c)
    (brc_sync_log c) (brc_sync_commit c) (brc_peer_token c) (brc_max_inbound_rpc_connections c)
    (brc_inbound_rpc_idle_timeout c) peers.

(** The part of a configuration the node's state machine reads. *)
Definition node_config (c : BrokerRaftConfig) (in_memory : bool) : RaftNodeConfig :=
  mkRaftNodeConfig (brc_node_id c) (configured_local_raft_advertise_addr c) in_memory
    (brc_election_timeout_min c) (brc_election_timeout_max c) (brc_snapshot_interval c)
    (brc_snapshot_max_log_entries c) (brc_snapshot_max_log_bytes c) (brc_snapshot_max_log_age c)
    (brc_trailing_log_entries c).

(** The first lines of [open_with_optional_in_memory_transport]. *)
Definition open_raft_config (env : Environment) (c : BrokerRaftConfig) (in_memory : bool)
    : RaftResult RaftOpenConfig :=
  peers ← (if brc_enabled c || negb (bool_decide (brc_peers c = []))
           then validate_membership_peers_for_transport (brc_peers c) in_memory
           else RaftOk (brc_peers c));
  let c := set_identity (trim (brc_node_id c)) peers c in
  validate_for_peer_transport env c in_memory ;;
  RaftOk (mkRaftOpenConfig (node_config c in_memory) peers (brc_sync_log c) (brc_sync_commit c)
            (brc_broker c) (Z.to_nat (brc_client_response_cache_max_entries c))).

(** A configuration that loaded opens, with its peers trimmed and in order. *)
Lemma open_raft_config_ok env c in_memory oc :
  brc_enabled c = true -> open_raft_config env c in_memory = RaftOk oc ->
  acceptable in_memory (trim_peer <$> brc_peers c) /\
  oc_peers oc = normalize_peers (trim_peer <$> brc_peers c) /\
  nc_node_id (oc_node oc) = trim (brc_node_id c) /\
  nc_advertise_addr (oc_node oc) = configured_local_raft_advertise_addr c /\
  (forall p, p ∈ trim_peer <$> brc_peers c -> peer_id p = trim (brc_node_id c) ->
     peer_addr p = configured_local_raft_advertise_addr c).
Proof.
  intros He Ho. unfold open_raft_config in Ho. rewrite He in Ho. cbn [orb] in Ho.
  apply raft_bind_ok in Ho as (peers & Hp & Ho). apply seq_ok in Ho as [Hv [= <-]].
  assert (brc_enabled (set_identity (trim (brc_node_id c)) peers c) = true) as He' by done.
  apply (validation_ok _ _ _ He') in Hv as [_ _ _ _ _ Hl _ _ _ _ _]. simpl in Hl.
  apply membership_peers_ok in Hp as [Ha ->]. pose proof Ha as (_ & _ & Hd). pose proof (dp_ids _ Hd) as Hnd.
  simpl. split_and!; try done.
  rewrite trim_normalized, trim_trim in Hl by done. intros p Hin. apply Hl. by rewrite normalize_perm.
Qed.

End opening.

(** The cluster's membership. *)
Definition configured_membership (peers : list RaftPeerConfig) : RaftMembership :=
  Simple (normalize_peers (trim_peer <$> peers)).

Lemma configured_membership_valid peers :
  acceptable false (trim_peer <$> peers) ->
  forall allow, validate_raft_membership_for_transport (configured_membership peers) allow =
    RaftOk (configured_membership peers).
Proof.
  intros Ha allow. unfold configured_membership. simpl.
  assert (validate_membership_peers_for_transport peers false =
    RaftOk (normalize_peers (trim_peer <$> peers))) as Hv by by apply membership_peers_ok.
  rewrite (membership_peers_stable false allow peers _ Hv); [done|]. destruct allow; auto.
Qed.

Section cluster.
Context `{LQ : LinkedQueueCrate} `{E : Env} `{D : RequestDigest} `{C : RaftCodec} `{FS : RaftFrameSizes}.

(** A node of the cluster: it is enabled, lists the cluster's peers and itself
    among them, and its configuration opens. *)
Record configured_node (env : Environment) (peers : list RaftPeerConfig) (id : string)
    (c : BrokerRaftConfig) (oc : RaftOpenConfig) : Prop := {
  cn_enabled : brc_enabled c = true;
  cn_id : trim (brc_node_id c) = id;
  cn_peers : brc_peers c = peers;
  cn_listed : id ∈ peer_id <$> (trim_peer <$> peers);
  cn_opens : open_raft_config env c false = RaftOk oc;
}.

Lemma configured_member env peers id c oc :
  configured_node env peers id c oc ->
  acceptable false (trim_peer <$> peers) /\
  member_config (configured_membership peers) oc /\ nc_node_id (oc_node oc) = id.
Proof.
  intros [He Hid <- Hl Ho]. destruct (open_raft_config_ok _ _ _ _ He Ho) as (Ha & Hp & Hn & Hadv & Hloc).
  split_and!; [done| |congruence]. pose proof Ha as (_ & _ & Hd). pose proof (dp_ids _ Hd) as Hnd.
  split.
  - rewrite Hp. unfold from_simple, configured_membership. by rewrite normalize_idemp.
  - unfold contains_peer. apply existsb_exists. apply list_elem_of_fmap in Hl as (p & Hpid & Hin).
    exists p. rewrite <-list_elem_of_In. split.
    + unfold active_peers, configured_membership. by rewrite normalize_idemp, normalize_perm.
    + unfold local_configured_peer. simpl. rewrite Hn, Hadv, Hid, Hpid, (Hloc p Hin) by congruence.
      by rewrite !bool_decide_eq_true_2.
Qed.


End cluster.
