(* ===== verification/WireWitnesses.v ===== *)
(** * A wire codec, and the theorems about the network at concrete inputs

    The codec writes a message as the binary digits of its number, which is one
    line; it satisfies the laws of [Wire.v], so the theorems that assume them
    say something. *)

From S2P Require Import Prelude Text Monad Protocol Queue BrokerTypes BrokerState Broker BrokerOps.
From S2P Require Import BrokerSpec BrokerFencing BrokerSim BrokerRefine.
From S2P Require Import BrokerRuns BrokerClients BrokerTheorems BrokerAnswers BrokerGrants.
From S2P Require Import Wire Server ServerFacts Client Http.
From S2P Require Import RaftQuorum RaftGrant RaftLog RaftExamples.
From stdpp Require Import options.

(** ** Numbering the responses *)

Definition response_sum (r : Response.t) :=
  match r with
  | Response.Version u v ok e => inl (0%nat, u, v, ok, e)
  | Response.Auth u ok e => inl (1%nat, u, u, ok, e)
  | Response.Reelection u k => inl (2%nat, u, k, false, None)
  | Response.Error u e => inl (3%nat, u, e, false, None)
  | Response.Ok u => inl (4%nat, u, u, false, None)
  | Response.Lock u k a n l t rc e => inr (inl (u, k, a, n, l, t, (rc, e)))
  | Response.CompositeLock u ks a l ts e => inr (inr (inl (u, ks, a, l, ts, e)))
  | Response.Unlock u ks b n e => inr (inr (inr (inl (u, ks, b, n, e))))
  | Response.RegisterReadResult u k n w g l t => inr (inr (inr (inr (inl (true, u, k, n, w, g, (l, t))))))
  | Response.RegisterWriteResult u k n w g l t => inr (inr (inr (inr (inl (false, u, k, n, w, g, (l, t))))))
  | Response.EndReadResult u k n => inr (inr (inr (inr (inr (inl (u, k, n, None))))))
  | Response.EndWriteResult u k n w => inr (inr (inr (inr (inr (inl (u, k, n, Some w))))))
  | Response.LockInfo u k b hs n rc w => inr (inr (inr (inr (inr (inr (inl (u, k, b, hs, n, rc, w)))))))
  | Response.LsResult u ks => inr (inr (inr (inr (inr (inr (inr (u, ks)))))))
  end.

Definition sum_response (s : (nat * string * string * bool * option string) + (_ + (_ + (_ + (_ + (_ + (_ + _)))))))
    : option Response.t :=
  match s with
  | inl (0%nat, u, v, ok, e) => Some (Response.Version u v ok e)
  | inl (1%nat, u, _, ok, e) => Some (Response.Auth u ok e)
  | inl (2%nat, u, k, _, _) => Some (Response.Reelection u k)
  | inl (3%nat, u, e, _, _) => Some (Response.Error u e)
  | inl (_, u, _, _, _) => Some (Response.Ok u)
  | inr (inl (u, k, a, n, l, t, (rc, e))) => Some (Response.Lock u k a n l t rc e)
  | inr (inr (inl (u, ks, a, l, ts, e))) => Some (Response.CompositeLock u ks a l ts e)
  | inr (inr (inr (inl (u, ks, b, n, e)))) => Some (Response.Unlock u ks b n e)
  | inr (inr (inr (inr (inl (true, u, k, n, w, g, (l, t)))))) => Some (Response.RegisterReadResult u k n w g l t)
  | inr (inr (inr (inr (inl (false, u, k, n, w, g, (l, t)))))) => Some (Response.RegisterWriteResult u k n w g l t)
  | inr (inr (inr (inr (inr (inl (u, k, n, None)))))) => Some (Response.EndReadResult u k n)
  | inr (inr (inr (inr (inr (inl (u, k, n, Some w)))))) => Some (Response.EndWriteResult u k n w)
  | inr (inr (inr (inr (inr (inr (inl (u, k, b, hs, n, rc, w))))))) => Some (Response.LockInfo u k b hs n rc w)
  | inr (inr (inr (inr (inr (inr (inr (u, ks))))))) => Some (Response.LsResult u ks)
  end.

#[global] Instance Response_eq_dec : EqDecision Response.t.
Proof. solve_decision. Defined.
#[global] Instance Response_countable : Countable Response.t.
Proof. refine (inj_countable response_sum sum_response _). by intros []. Defined.

(** ** The codec *)

Definition typed_request (r : Request.t) : bool :=
  match r with
  | Request.Lock _ _ _ _ _ (Some m) _ _ _ _ => bool_decide (0 <= m <= u32_max)
  | _ => true
  end.

Definition demo_request_of_json (b : bytes) : string + Request.t :=
  match of_bits b ≫= decode with
  | Some r => if typed_request r then inr r else inl "out of range"%string
  | None => inl "not a message"%string
  end.

#[global] Instance demo_wire_codec : WireCodec := {|
  request_to_json r := inr (bits (encode r));
  request_of_json := demo_request_of_json;
  response_to_json r := inr (bits (encode r));
  response_of_json b := match of_bits b ≫= decode with Some r => inr r | None => inl "not a message"%string end;
  response_debug r := "response"%string;
|}.

Lemma bits_line p : is_line (bits p).
Proof.
  split; [by destruct p|]. apply Forall_forall. intros x [->|[->| ->]]%bits_in; done.
Qed.

Lemma typed_request_spec r : typed_request r = true <-> request_typed r.
Proof.
  destruct r as [| |u k ks p t [m|] f rc d wt|u k ks l f| | | | | | |]; simpl; try done.
  unfold u32_range. rewrite bool_decide_eq_true. split; [by intros H ? [= <-]|auto].
Qed.

#[global] Instance demo_wire_codec_laws : WireCodecLaws.
Proof.
  split.
  - intros r Hr. exists (bits (encode r)). split; [done|]. split; [|apply bits_line].
    simpl. unfold demo_request_of_json. rewrite of_bits_bits. simpl. rewrite decode_encode.
    by apply typed_request_spec in Hr as ->.
  - intros b r. simpl. unfold demo_request_of_json. destruct (of_bits b ≫= decode) as [r'|]; [|done].
    destruct (typed_request r') eqn:Ht; [|done]. intros [= <-]. by apply typed_request_spec.
  - intros r. exists (bits (encode r)). split; [done|]. split; [|apply bits_line].
    simpl. rewrite of_bits_bits. simpl. by rewrite decode_encode.
Qed.

(** ** Witnesses *)

Section witnesses.
#[local] Existing Instance list_queue.
#[local] Existing Instance demo_env.

Definition demo_settings : ServerSettings :=
  mkServerSettings (Some "secret"%string)
    (fun name => if bool_decide (name = "LMX_MAX_CONNECTIONS"%string) then Some "1"%string else None).

Definition demo_request : Request.t := lock_request "r1" "a" None.

(** The frames of a connection, the first cut in two. *)
Definition demo_arrivals : list Arrival :=
  match frame_bytes (bits (encode (Request.Auth "r0" "secret"))) ++
        frame_bytes (bits (encode demo_request)) with
  | b0 :: b1 :: b2 :: bs => [Arrived b0 [b1]; Arrived b2 bs]
  | _ => []
  end.

(** A connection authenticates and locks "a"; a second one is refused. *)
Definition demo_events : list ServerEvent :=
  [Accept 0 demo_arrivals; Accept 1 []; Iterate 0 false; Iterate 0 false; Refused 1; Sweep 5].

Definition demo_server : option Server :=
  serve demo_settings demo_events (server_start BrokerConfig_default).

Definition demo_holders (s : Server) : list ClientId :=
  match locks (state (sv_world s)) !! "a"%string with
  | Some l => (fun h => eh_client h.2) <$> map_to_list (exclusive_holders l)
  | None => []
  end.

Lemma demo_server_some : (fun s => (demo_holders s, size (sv_conns s))) <$> demo_server = Some ([1], 1%nat).
Proof. vm_compute. reflexivity. Qed.


Lemma connections_within_cap_witness :
  exists s, demo_server = Some s /\ Z.of_nat (slots (sv_conns s)) <= 1.
Proof.
  destruct demo_server as [s|] eqn:Hs; [|pose proof demo_server_some as H; rewrite Hs in H; discriminate].
  exists s. split; [reflexivity|].
  apply (connections_within_cap BrokerConfig_default demo_settings demo_events s);
    [vm_compute; reflexivity|exact Hs].
Defined.

(** A lock request on a connection that has not authenticated. *)
Definition demo_stream : StreamState :=
  mkStreamState (Broker_new BrokerConfig_default false) (mkStreamMetrics 0 0 0 0 0)
    (mkReader [] [match frame_bytes (bits (encode demo_request)) with
                  | b :: bs => Arrived b bs
                  | [] => ReadFails (mkIoError OtherErrorKind EmptyString)
                  end]).

Lemma unauthenticated_leaves_broker_witness :
  exists s', stream_iteration (Some "secret"%string) 100000 false 1 false false demo_stream = Done StreamBreak s' /\
    untouched (ss_world demo_stream) (ss_world s').
Proof.
  destruct (stream_iteration (Some "secret"%string) 100000 false 1 false false demo_stream) as [next s'| |] eqn:Hd.
  2, 3: exfalso; revert Hd; vm_compute; discriminate.
  assert (next = StreamBreak) as ->.
  { apply (f_equal (fun r => match r with Done n _ => n | _ => StreamBreak end)) in Hd.
    rewrite <-Hd. vm_compute. reflexivity. }
  exists s'. split; [reflexivity|].
  apply (unauthenticated_leaves_broker "secret" 100000 false 1 false demo_stream StreamBreak s' Hd).
Defined.

(** The client's side of an exchange: it has just started and writes the request. *)
Definition demo_client : option (nat * ClientState) :=
  match begin_call demo_request WriteDone (client_start []) with
  | Done (inr ch) cs => Some (ch, cs)
  | _ => None
  end.

Definition demo_reader (written : bytes) : Reader :=
  match written with
  | b0 :: b1 :: bs => mkReader [b0] (match bs with b2 :: bs => [Arrived b1 []; Arrived b2 bs] | [] => [Arrived b1 []] end)
  | _ => mkReader written []
  end.

Lemma demo_reader_contents written : contents (demo_reader written) = (written, []).
Proof.
  destruct written as [|b0 [|b1 [|b2 bs]]]; try reflexivity.
  unfold contents. simpl. by rewrite app_nil_r.
Qed.

Definition demo_connected : option World := run_state (run [OpRegisterClient]) (Broker_new BrokerConfig_default false).

Lemma demo_connected_reachable w :
  demo_connected = Some w -> reachable (any_seed 1) BrokerConfig_default w.
Proof.
  intros Hw. split; [by vm_compute|]. exists false, [OpRegisterClient].
  split; [by repeat constructor|]. split; [done|]. unfold demo_connected, run_state in Hw.
  destruct (run _ _) as [[] w'| |] eqn:Hr; try done. by simplify_eq.
Qed.


(** A lock over HTTP. *)
Definition demo_call : HttpCall := PostLock (mkAcquireRequest None (Some "a"%string) None None None None).


Lemma http_grant_outlives_request_witness :
  exists r w' u, run_ephemeral demo_request "r1" true nobody_else (Broker_new BrokerConfig_default false) =
      Done (Some r) w' /\ holds w' (HoldExclusive, "a"%string, u).
Proof.
  destruct (run_ephemeral demo_request "r1" true nobody_else (Broker_new BrokerConfig_default false))
    as [[r|] w'| |] eqn:Hd.
  2, 3, 4: exfalso; revert Hd; vm_compute; discriminate.
  assert (exists u, announces r = Some (HoldExclusive, "a"%string, u)) as [u Hu].
  { apply (f_equal (fun x => match x with Done (Some r) _ => announces r | _ => None end)) in Hd as Ha.
    simpl in Ha. rewrite <-Ha. vm_compute. eexists. reflexivity. }
  exists r, w', u. split; [reflexivity|].
  apply (http_grant_outlives_request demo_request "r1" true (Broker_new BrokerConfig_default false) r
    (HoldExclusive, "a"%string, u) w' Hd Hu).
Defined.

End witnesses.
