(* ===== verification/ConfigWitnesses.v ===== *)
(** * The theorems about configurations at concrete inputs

    Three nodes share a file that lists them; the environment gives each its
    name and address. *)

From S2P Require Import Prelude Text Monad Protocol Queue BrokerTypes BrokerState Broker BrokerOps.
From S2P Require Import BrokerSpec BrokerFencing BrokerSim BrokerRefine BrokerRuns BrokerClients.
From S2P Require Import BrokerTheorems.
From S2P Require Import RaftQuorum RaftQuorumFacts RaftGrant RaftCache RaftValidate.
From S2P Require Import RaftFiles RaftLog RaftExamples RaftNode RaftNodeOps RaftRestart RaftFlaws.
From S2P Require Import RaftVotes RaftElection RaftElectionSafety.
From S2P Require Import Wire Server RaftConfig Config ConfigFacts.
From stdpp Require Import options.

Section witnesses.
#[local] Existing Instance list_queue.
#[local] Existing Instance demo_env.
#[local] Existing Instance demo_value_codec.
#[local] Existing Instance demo_raft_codec.
#[local] Existing Instance demo_digest.

(** Every message takes a hundred bytes, and one for each byte of the id. *)
#[local] Instance demo_frame_sizes : RaftFrameSizes := {|
  minimum_frame_len kind token id addr := RaftOk (100 + Z.of_nat (String.length id));
|}.

Definition demo_file : ConfigFile :=
  let raft := cff_raft ConfigFile_default in
  mkConfigFile (cff_server ConfigFile_default) (cff_broker ConfigFile_default)
    (mkRaftFileConfig (Some true) None None None None None (Some 50) None None None None None None None
       None None None None None None None None None None None None None None None None None None None
       [peer "a"; peer "b"; mkRaftPeerConfig " c" "c.local:7001 "]).

Definition demo_environment (id : string) : Environment := fun key =>
  if bool_decide (key = "LMX_RAFT_NODE_ID"%string) then Some id
  else if bool_decide (key = "LMX_RAFT_ADVERTISE_ADDR"%string) then Some (peer_addr (peer id))
  else if bool_decide (key = "LMX_RAFT_MAX_FRAME_BYTES"%string) then Some "4096"%string
  else None.

Definition demo_config (id : string) : BrokerRaftConfig :=
  match build_runtime_config (demo_environment id) demo_file None with
  | inr c => rtc_raft c
  | inl _ => BrokerRaftConfig_default
  end.

Lemma demo_file_typed : file_typed demo_file.
Proof.
  split; [|split]; [split| |]; repeat apply Forall_cons_2; try apply Forall_nil_2;
    intros n Hn; try discriminate.
  injection Hn as <-. unfold in_u64. rewrite u64_max_eq. lia.
Qed.

Lemma runtime_config_typed_witness :
  exists c, build_runtime_config (demo_environment "a") demo_file None = inr c /\
    brc_heartbeat_interval (rtc_raft c) = 50000000 /\ raft_config_sound (demo_environment "a") (rtc_raft c) false.
Proof.
  destruct (build_runtime_config (demo_environment "a") demo_file None) as [err|c] eqn:Hc.
  { exfalso. revert Hc. vm_compute. discriminate. }
  exists c. split; [reflexivity|].
  apply (f_equal (fun r => match r with
    | inr c => (brc_heartbeat_interval (rtc_raft c), brc_enabled (rtc_raft c)) | inl _ => (0, false) end)) in Hc as Hv.
  vm_compute in Hv. injection Hv as Hh He. split; [symmetry; exact Hh|].
  apply (runtime_config_typed (demo_environment "a") demo_file None c demo_file_typed Hc). symmetry. exact He.
Defined.

Lemma raft_validation_exact_witness : raft_config_sound (demo_environment "b") (demo_config "b") false.
Proof.
  apply (raft_validation_exact (demo_environment "b") (demo_config "b") false); vm_compute; reflexivity.
Defined.

Lemma bad_raft_number_refused_witness :
  exists err, build_runtime_config (fun key =>
    if bool_decide (key = "LMX_RAFT_TRAILING_LOG_ENTRIES"%string) then Some "-1"%string else None)
    demo_file None = inl err.
Proof.
  apply (bad_raft_number_refused _ demo_file None "LMX_RAFT_TRAILING_LOG_ENTRIES" "-1");
    [|vm_compute; reflexivity|vm_compute; reflexivity].
  unfold raft_integer_vars. repeat first [left; reflexivity|right].
Defined.

(** ** An election in the configured cluster *)

Definition demo_opened (id : string) : RaftOpenConfig :=
  match open_raft_config (demo_environment id) (demo_config id) false with
  | RaftOk oc => oc
  | RaftErr _ => open_config id
  end.

Definition demo_cluster : RaftMembership := configured_membership (brc_peers (demo_config "a")).

(** "a" runs for term 1 and "b" votes for it. *)
Definition demo_election : list Action :=
  let round := mkRaftCandidateRound 1 demo_cluster in
  [Restart "a" (clock_at 0) []; Restart "b" (clock_at 0) []; Restart "c" (clock_at 0) [];
   RunSection "a" (clock_at 5000000000) StartCandidacy; BeginRound "a" round;
   RunSection "b" (clock_at 5000000000) (DecideVote 1 (peer "a") 0 0); Respond "b" true 1 (peer "a");
   CountVote (clock_at 5000000001) 0 (peer "b") (Some 0); Elect 0]%string%nat%Z.

Lemma demo_nodes_configured id d :
  demo_disks !! id = Some d ->
  configured_node (demo_environment id) (brc_peers (demo_config "a")) id (demo_config id) (demo_opened id) /\
  disk_ok demo_cluster d.
Proof.
  intros Hd. unfold demo_disks in Hd. simpl in Hd.
  repeat (apply lookup_insert_Some in Hd as [[<- <-]|[_ Hd]];
    [split; [split; vm_compute; try reflexivity; repeat first [left; reflexivity|right]|by vm_compute]|]). done.
Qed.


End witnesses.
