(* ===== verification/RaftRpcWitnesses.v ===== *)
(** * A payload codec, and the theorems about snapshot transfers at concrete inputs

    The codec's digest is constant, a group of three bytes is encoded as itself
    and a letter that tells its length, and every payload parses as the one of
    the example; this satisfies the laws of [RaftTransfer] and [RaftStream]. *)

From S2P Require Import Prelude Text Monad Protocol Queue BrokerTypes BrokerState Broker.
From S2P Require Import BrokerOps BrokerTheorems Wire Server Http BrokerSnapshot.
From S2P Require Import RaftQuorum RaftGrant RaftCache RaftValidate RaftFiles RaftFilesFacts RaftLog.
From S2P Require Import RaftExamples RaftNode RaftApply RaftNodeOps RaftFollower RaftRestart RaftLeader.
From S2P Require Import RaftFlaws RaftWitnesses RaftConfig RaftTransfer RaftTransferFacts.
From S2P Require Import RaftStaging RaftStream RaftStreamLive RaftStreamRun.
From S2P Require Import RaftProtocol RaftRpc RaftConnection.
From S2P Require Import RaftPipeline RaftProxy.
From S2P Require Import RaftEphemeral RaftDispatch.
From S2P Require Import WireWitnesses.
From stdpp Require Import options.

#[local] Existing Instance list_queue.
#[local] Existing Instance demo_env.
#[local] Existing Instance demo_value_codec.
#[local] Existing Instance demo_digest.

(** ** The codec *)

Definition demo_sha256 (b : bytes) : bytes := replicate 32 171.

(** A snapshot's checksum is the one of its bytes. *)
#[local] Instance stream_raft_codec : RaftCodec :=
  @Build_RaftCodec demo_value_codec demo_entry_json demo_entry_of_json (fun _ => 200%nat)
    demo_checksum (fun _ => hex_encode (demo_sha256 [])) raft_value_responses raft_value_membership
    raft_value_learners (fun _ m ls rs b _ => raft_value_payload m ls rs b).

Definition char_of (x : Z) : Ascii.ascii := Ascii.ascii_of_N (Z.to_N (x mod 256)).

Fixpoint demo_base64 (b : bytes) : string :=
  match b with
  | [] => EmptyString
  | [x] => String (char_of x) (String (char_of 65) (String (char_of 65) (String (char_of 49) EmptyString)))
  | [x; y] => String (char_of x) (String (char_of y) (String (char_of 65) (String (char_of 50) EmptyString)))
  | x :: y :: z :: b => String (char_of x) (String (char_of y) (String (char_of z) (String (char_of 51) (demo_base64 b))))
  end.

Fixpoint demo_of_base64 (s : string) : string + bytes :=
  match s with
  | EmptyString => inr []
  | String x (String y (String z (String n s))) =>
      match demo_of_base64 s with
      | inl err => inl err
      | inr b =>
          if Ascii.eqb n (char_of 49) then inr (byte_of x :: b)
          else if Ascii.eqb n (char_of 50) then inr (byte_of x :: byte_of y :: b)
          else inr (byte_of x :: byte_of y :: byte_of z :: b)
      end
  | _ => inl "length"%string
  end.

(** ** A leader with a snapshot, and a follower without *)

Definition opened (id : string) : option RaftNode :=
  '(res, _) ← result_of (open_node (open_config id) (clock_at 0) empty_disk);
  match res with RaftOk n => Some n | RaftErr _ => None end.

Definition snapshot_leader : option RaftNode :=
  n ← opened "a";
  let n := set_rn_log demo_leader_store (set_rn_runtime
    (set_rt_leader_id (Some "a"%string) (set_rt_commit_index 2 (set_rt_last_applied 2
      (set_rt_role Leader (set_rt_voted_for (Some "a"%string) (set_rt_term 2 (rn_runtime n))))))) n) in
  '(_, n) ← result_of (take_snapshot_and_compact (clock_at 5) 2 2 2 n);
  Some n.

Definition snapshot_follower : option RaftNode :=
  n ← opened "b";
  Some (set_rn_runtime (set_rt_leader_id (Some "a"%string) (set_rt_term 2 (rn_runtime n))) n).

(** What an evaluation that succeeds gives. *)
Ltac result_of_some o :=
  let x := eval vm_compute in o in match x with Some ?a => exact a end.

Definition leader_node : RaftNode := ltac:(result_of_some snapshot_leader).
Definition follower_node : RaftNode := ltac:(result_of_some snapshot_follower).

Definition snapshot_file : option RaftSnapshotFile :=
  '(res, _) ← result_of (on_log latest_snapshot_file leader_node);
  match res with RaftOk file => file | RaftErr _ => None end.

Definition leader_file : RaftSnapshotFile := ltac:(result_of_some snapshot_file).

(** ** The payload *)

#[local] Instance demo_payload_codec : PayloadCodec := {|
  sha256_digest := demo_sha256;
  base64_encode := demo_base64;
  base64_decode := demo_of_base64;
  payload_of_slice _ := RaftOk (sf_payload leader_file);
  payload_to_vec _ := bytes_of "{10 bytes}";
|}.

Lemma byte_char x : 0 <= x < 256 -> byte_of (char_of x) = x.
Proof. intros Hx. unfold byte_of, char_of. rewrite Z.mod_small, Ascii.N_ascii_embedding by lia. lia. Qed.

(** Groups of three. *)
Lemma by_threes (P : bytes -> Prop) :
  P [] -> (forall x, P [x]) -> (forall x y, P [x; y]) -> (forall x y z b, P b -> P (x :: y :: z :: b)) ->
  forall b, P b.
Proof.
  intros H0 H1 H2 H3. enough (forall b, P b /\ (forall x, P (x :: b)) /\ forall x y, P (x :: y :: b)) by (intros b; apply H).
  induction b as [|x b (IH1 & IH2 & IH3)]; [auto|]. auto.
Qed.

#[local] Instance demo_payload_codec_laws : PayloadCodecLaws.
Proof.
  split.
  - done.
  - intros b. simpl. unfold demo_sha256. apply Forall_replicate. lia.
  - induction b as [|x|x y|x y z b IH] using by_threes; intros Hb; simpl; [done|..].
    + apply Forall_cons in Hb as [Hx _]. by rewrite byte_char.
    + apply Forall_cons in Hb as [Hx Hb]. apply Forall_cons in Hb as [Hy _]. by rewrite !byte_char.
    + apply Forall_cons in Hb as [Hx Hb]. apply Forall_cons in Hb as [Hy Hb]. apply Forall_cons in Hb as [Hz Hb].
      change (demo_of_base64 (demo_base64 b)) with (base64_decode (base64_encode b)).
      rewrite IH by done. by rewrite !byte_char.
  - induction b as [|x|x y|x y z b IH] using by_threes; [done..|].
    change (4 + String.length (base64_encode b) = 4 * ((3 + length b + 2) / 3))%nat. rewrite IH.
    replace (3 + length b + 2)%nat with (1 * 3 + (length b + 2))%nat by lia.
    rewrite Nat.div_add_l by lia. lia.
Qed.

#[local] Instance demo_frame_codec : SnapshotFrameCodec := {|
  snapshot_frame_json view := replicate 5 0 ++ bytes_of (fv_data view);
|}.

#[local] Instance demo_frame_codec_laws : SnapshotFrameCodecLaws.
Proof.
  split. intros meta offset d b. simpl. do 5 f_equal. induction (demo_base64 b) as [|c s IH]; [done|]. simpl. by rewrite IH.
Qed.

(** ** Sending *)

Definition demo_meta : InstallSnapshotFrameMeta := meta_from BrokerRaftConfig_default leader_node 2 leader_file.
Definition demo_payload : bytes := payload_to_vec (sf_payload leader_file).

(** A frame of nine bytes carries three bytes of the payload. *)
Lemma snapshot_frame_is_largest_witness :
  exists frame, build_bounded_install_snapshot_rpc demo_meta demo_payload 3 100 9 = RaftOk frame /\
    exists raw_len is_clamped, 1 <= raw_len <= 7 /\
      frame = slice_frame demo_meta demo_payload 3 raw_len is_clamped /\
      Z.of_nat (length (cf_body frame)) <= 9 /\
      forall r, raw_len < r <= 7 -> 9 < sizer_frame_len (sizer_new demo_meta 3 10) r.
Proof.
  pose proof (snapshot_frame_is_largest demo_meta demo_payload 3 100 9) as H.
  assert (exists frame, build_bounded_install_snapshot_rpc demo_meta demo_payload 3 100 9 = RaftOk frame)
    as [frame Hf] by (eexists; vm_compute; reflexivity).
  rewrite Hf in H. destruct H as (raw_len & is_clamped & H1 & H2 & _ & H4 & H5).
  - split; [lia|vm_compute; reflexivity].
  - vm_compute. discriminate.
  - vm_compute. reflexivity.
  - exists frame. split; [exact Hf|]. exists raw_len, is_clamped. split_and!; try assumption; apply H1.
Defined.

Definition demo_follower : TransferNode := mkTransferNode follower_node BrokerRaftConfig_default ∅ ∅ 0.

Definition demo_installed : option (RaftRpcResponse * RaftNode) :=
  result_of (install_verified_snapshot (clock_at 7) 2 (fm_leader_id demo_meta) (fm_leader_addr demo_meta) 2 2
    (sha256_hex demo_payload) (sf_payload leader_file)
    (snapshot_index_of (rn_state (heard (clock_at 7) follower_node))) (heard (clock_at 7) follower_node)).

Definition installed_node : RaftNode := ltac:(result_of_some (snd <$> demo_installed)).

Lemma demo_sending :
  sending (peer "b") 2 (Some 3) leader_node (prepared_from leader_file) demo_meta
    (Z.max (brc_install_snapshot_chunk_bytes BrokerRaftConfig_default) 1) 9 (last_index (rn_state leader_node))
    (tn_config demo_follower).
Proof.
  constructor.
  1, 2, 3: vm_compute; reflexivity.
  - vm_compute. split; discriminate.
  - vm_compute. discriminate.
  - split_and!; vm_compute; reflexivity.
  - intros offset Ho.
    assert (offset ∈ seqZ 0 10) as Hin by (apply elem_of_seqZ; change (0 <= offset < 10) in Ho; lia).
    change (seqZ 0 10) with [0; 1; 2; 3; 4; 5; 6; 7; 8; 9] in Hin.
    rewrite !elem_of_cons, elem_of_nil in Hin.
    repeat destruct Hin as [->|Hin]; [vm_compute; discriminate..|done].
  - vm_compute. reflexivity.
  - vm_compute. split; discriminate.
Qed.

Lemma demo_taking :
  taking (clock_at 7) 2 (prepared_from leader_file) demo_meta (tn_config demo_follower) (tn_node demo_follower)
    installed_node (sf_payload leader_file) 2.
Proof.
  constructor.
  - constructor; [split; reflexivity| |vm_compute; discriminate..|vm_compute; reflexivity].
    change (Forall (fun x => 0 <= x < 256) (bytes_of "{10 bytes}")). 
    repeat (apply Forall_cons; split; [vm_compute; split; [discriminate|reflexivity]|]). apply Forall_nil_2.
  - constructor; [vm_compute; reflexivity|vm_compute; reflexivity|vm_compute; split; discriminate|].
    intros s Hs. vm_compute in Hs. discriminate.
  - reflexivity.
  - vm_compute. reflexivity.
  - reflexivity.
Qed.


(** ** Receiving *)

(** The first four bytes of the payload, and the rest. *)
Definition first_chunk : InstallSnapshotFromPeer :=
  mkInstallSnapshotFromPeer 2 "a" (peer_addr (peer "a")) 2 2 (Some (sha256_hex demo_payload)) 0 false
    (base64_encode (take 4 demo_payload)).

Definition last_chunk : SnapshotChunkFromLeader :=
  mkSnapshotChunkFromLeader "a" 2 2 (sha256_hex demo_payload) 4 true (drop 4 demo_payload).

Definition after_first : TransferNode :=
  ltac:(result_of_some (snd <$> result_of (handle_install_snapshot_from_peer (clock_at 7) first_chunk demo_follower))).

Lemma first_step admissible :
  admissible first_chunk -> star (staging_step admissible) demo_follower after_first.
Proof.
  intros Ha. apply star_one.
  destruct (handle_install_snapshot_from_peer (clock_at 7) first_chunk demo_follower) as [r n'| |] eqn:Hd.
  2, 3: exfalso; revert Hd; vm_compute; discriminate.
  assert (n' = after_first) as <-; [|by eapply staging_request].
  apply (f_equal (fun x => match x with Done _ n => n | _ => demo_follower end)) in Hd.
  rewrite <-Hd. vm_compute. reflexivity.
Qed.

Lemma staging_within_limits_witness :
  size (tn_transfers after_first) = 1%nat /\
  Z.of_nat (size (tn_transfers after_first)) <= max_staged_transfers after_first /\
  staged_bytes after_first <= max_staged_transfers after_first * max_staged_bytes after_first.
Proof.
  split; [vm_compute; reflexivity|].
  destruct (staging_within_limits demo_follower after_first) as (H1 & _ & H2).
  - vm_compute. split; [discriminate|reflexivity].
  - vm_compute. discriminate.
  - reflexivity.
  - intros name content m H. simpl in H. rewrite lookup_empty in H. discriminate.
  - apply first_step. exact I.
  - split; [exact H1|exact H2].
Defined.

Definition demo_key : string := snapshot_transfer_key "a" 2 2 (sha256_hex demo_payload).
Definition demo_payloads : gmap string bytes := {[ demo_key := demo_payload ]}.

Definition after_last : RaftResult (option string) * TransferNode :=
  ltac:(result_of_some (result_of (stage_snapshot_chunk (now_ms + 8) last_chunk after_first))).

Lemma first_honest : honest_request demo_payloads first_chunk.
Proof.
  intros checksum chunk [= <-] Hd. assert (chunk = take 4 demo_payload) as ->.
  { revert Hd. change (base64_decode (is_data first_chunk)) with (inr (A := string) (take 4 demo_payload)).
    by intros [= <-]. }
  exists demo_payload. split; [vm_compute; reflexivity|]. split; [vm_compute; discriminate|].
  split_and!; [done|vm_compute; discriminate|reflexivity|reflexivity].
Qed.

Lemma complete_file_is_payload_witness :
  exists path m, after_last.1 = RaftOk (Some path) /\ tn_parts after_last.2 !! path = Some (PartFile demo_payload m).
Proof.
  destruct (complete_file_is_payload demo_payloads demo_follower after_first (now_ms + 8) last_chunk demo_payload
    (snapshot_transfer_path demo_key) after_last.2) as ((m & Hm) & _).
  - intros k1 k2 H1 H2 _. unfold demo_payloads in *.
    apply lookup_singleton_is_Some in H1 as <-. by apply lookup_singleton_is_Some in H2 as <-.
  - reflexivity.
  - apply first_step, first_honest.
  - vm_compute. reflexivity.
  - vm_compute. discriminate.
  - split_and!; [vm_compute; discriminate|vm_compute; discriminate|reflexivity|reflexivity].
  - vm_compute. reflexivity.
  - exists (snapshot_transfer_path demo_key), m. split; [vm_compute; reflexivity|exact Hm].
Defined.

(** * A codec for the RPCs, and the theorems about them at concrete inputs

    The codec writes a message as an object with one member, a string of the
    binary digits of the message's number, beside the protocol's member; it
    satisfies the laws of [RaftRpc]. *)

(** ** Numbering the messages *)

#[global] Instance RaftRpc_eq_dec : EqDecision RaftRpc.
Proof. solve_decision. Defined.

#[global] Instance RaftRpc_countable : Countable RaftRpc.
Proof.
  refine (inj_countable'
    (fun rpc => match rpc with
      | PreVoteRpc k t i a li lt => inl (true, k, t, i, a, li, lt)
      | RequestVoteRpc k t i a li lt => inl (false, k, t, i, a, li, lt)
      | AppendEntriesRpc k t i a pi pt es c => inr (inl (k, t, i, a, pi, pt, es, c))
      | InstallSnapshotRpc k t i a li lt sha o d b => inr (inr (inl (k, t, i, a, li, lt, sha, (o, d, b))))
      | ProxyRequestRpc k i a r u w q => inr (inr (inr (k, i, a, r, u, w, q)))
      end)
    (fun x => match x with
      | inl (true, k, t, i, a, li, lt) => PreVoteRpc k t i a li lt
      | inl (false, k, t, i, a, li, lt) => RequestVoteRpc k t i a li lt
      | inr (inl (k, t, i, a, pi, pt, es, c)) => AppendEntriesRpc k t i a pi pt es c
      | inr (inr (inl (k, t, i, a, li, lt, sha, (o, d, b)))) => InstallSnapshotRpc k t i a li lt sha o d b
      | inr (inr (inr (k, i, a, r, u, w, q))) => ProxyRequestRpc k i a r u w q
      end) _).
  by intros [].
Defined.

#[global] Instance RaftRpcResponse_eq_dec : EqDecision RaftRpcResponse.
Proof. solve_decision. Defined.

#[global] Instance RaftRpcResponse_countable : Countable RaftRpcResponse.
Proof.
  refine (inj_countable'
    (fun r => match r with
      | PreVoteResponse t v => inl (true, t, v)
      | RequestVoteResponse t v => inl (false, t, v)
      | AppendEntriesResponse t s m ci ct => inr (inl (t, s, m, ci, ct))
      | InstallSnapshotResponse t s i => inr (inr (inl (t, s, i)))
      | ProxyResponse t r e i a => inr (inr (inr (inl (t, r, e, i, a))))
      | ErrorResponse t e => inr (inr (inr (inr (t, e))))
      end)
    (fun x => match x with
      | inl (true, t, v) => PreVoteResponse t v
      | inl (false, t, v) => RequestVoteResponse t v
      | inr (inl (t, s, m, ci, ct)) => AppendEntriesResponse t s m ci ct
      | inr (inr (inl (t, s, i))) => InstallSnapshotResponse t s i
      | inr (inr (inr (inl (t, r, e, i, a)))) => ProxyResponse t r e i a
      | inr (inr (inr (inr (t, e)))) => ErrorResponse t e
      end) _).
  by intros [].
Defined.

(** ** The codec *)

(** Strings have no escapes. *)
#[global] Instance demo_json_strings : JsonStrings := {| json_string_of_slice _ := None |}.

Definition demo_member (p : string * bytes) : Member := mkMember [] (bytes_of p.1) [] [] p.2 [].

Definition demo_object (p : positive) : gmap string bytes := {["body"%string := string_text (bits p)]}.

(** What comes before the digits. *)
Definition demo_prefix : bytes :=
  OPEN_BRACE :: string_text (bytes_of RAFT_RPC_MIN_PROTOCOL_VERSION_FIELD) ++ COLON :: 49 :: COMMA
    :: string_text (bytes_of "body") ++ [COLON; QUOTE].

Definition demo_message_of {A} `{Countable A} (s : string) : string + A :=
  let b := bytes_of s in
  match of_bits (take (length b - (length demo_prefix + 2)) (drop (length demo_prefix) b)) ≫= decode with
  | Some a => inr a
  | None => inl "not a message"%string
  end.

#[global] Instance demo_rpc_codec : RpcCodec := {|
  rpc_to_value rpc := demo_object (encode rpc);
  rpc_response_to_value response := demo_object (encode response);
  object_to_vec value := object_text (demo_member <$> map_to_list value);
  rpc_of_str := demo_message_of;
  rpc_response_of_str := demo_message_of;
|}.

Lemma demo_members p :
  map_to_list (insert_raft_rpc_protocol_field (demo_object p)) =
  [(RAFT_RPC_MIN_PROTOCOL_VERSION_FIELD, [49]); ("body"%string, string_text (bits p))].
Proof. unfold demo_object. generalize (string_text (bits p)). intros v. vm_compute. reflexivity. Qed.

Lemma demo_text p : serialize_with_protocol (demo_object p) = demo_prefix ++ bits p ++ [QUOTE; CLOSE_BRACE].
Proof.
  unfold serialize_with_protocol. simpl object_to_vec. rewrite demo_members. unfold string_text.
  generalize (bits p). intros b. unfold object_text, demo_member, more_text, member_text. simpl. rewrite ?app_nil_r, <-?app_assoc. reflexivity.
Qed.

Lemma utf8_ascii b : Forall (fun x => 0 <= x < 128) b -> utf8_valid b = true.
Proof.
  induction 1 as [|x b Hx _ IH]; [done|]. simpl. unfold in_range at 1. by rewrite bool_decide_eq_true_2 by lia.
Qed.

Lemma demo_text_bytes p : Forall (fun b => 0 <= b < 128 /\ is_line_end b = false) (serialize_with_protocol (demo_object p)).
Proof.
  rewrite demo_text. apply Forall_app. split.
  - unfold demo_prefix. simpl.
    repeat (apply Forall_cons; split; [split; [vm_compute; split; [discriminate|reflexivity]|reflexivity]|]).
    constructor.
  - apply Forall_app. split; [|repeat constructor; done].
    apply Forall_forall. intros x [->|[->| ->]]%bits_in; split; (done || lia).
Qed.

Lemma demo_message_decodes {A} `{Countable A} (a : A) :
  demo_message_of (string_of_bytes (serialize_with_protocol (demo_object (encode a)))) = inr a.
Proof.
  unfold demo_message_of. rewrite bytes_of_string_of_bytes.
  2: { eapply Forall_impl; [apply demo_text_bytes|]. intros x [? _]. lia. }
  rewrite demo_text, !length_app. simpl (length [QUOTE; CLOSE_BRACE]).
  rewrite drop_app_length, Nat.sub_add_distr.
  replace (length demo_prefix + (length (bits (encode a)) + 2) - length demo_prefix - 2)%nat
    with (length (bits (encode a))) by lia.
  rewrite take_app_length, of_bits_bits. simpl. by rewrite decode_encode.
Qed.

(** Without quotes and escapes a string is itself. *)
Lemma plain_string raw : Forall (fun b => b <> QUOTE /\ b <> BACKSLASH) raw -> json_string raw.
Proof.
  intros H. assert (string_body raw /\ has_escape raw = false) as [H1 H2].
  { induction H as [|x l [Hx1 Hx2] _ [IH1 IH2]]; [by split; [constructor|]|]. split; [by constructor|].
    simpl. rewrite IH2. by rewrite bool_decide_eq_false_2. }
  split; [done|]. unfold string_value. rewrite H2. by eexists.
Qed.

Lemma demo_bits_string p : json_string (bits p).
Proof. apply plain_string, Forall_forall. by intros x [->|[->| ->]]%bits_in. Qed.

Lemma demo_member_ok k v : json_string (bytes_of k) -> json_value v -> member_ok (demo_member (k, v)).
Proof. intros Hk Hv. split; simpl; first [done | apply Forall_nil_2]. Qed.

#[global] Instance demo_rpc_codec_laws : RpcCodecLaws.
Proof.
  assert (forall value, message_value value -> exists p, value = demo_object p) as Hm.
  { intros value [[? ->]|[? ->]]; by eexists. }
  split.
  - intros value [p ->]%Hm. exists (demo_member <$> map_to_list (insert_raft_rpc_protocol_field (demo_object p))).
    split; [done|]. rewrite demo_members. split.
    + apply Forall_cons; split; [|apply Forall_cons; split; [|apply Forall_nil_2]]; apply demo_member_ok.
      * apply plain_string. repeat (apply Forall_cons; split; [split; discriminate|]). apply Forall_nil_2.
      * apply value_number, (number_intro 49 []); [by right|constructor].
      * apply plain_string. repeat (apply Forall_cons; split; [split; discriminate|]). apply Forall_nil_2.
      * apply value_string, demo_bits_string.
    + simpl. done.
  - intros value [p ->]%Hm. split.
    + eapply Forall_impl; [apply demo_text_bytes|]. intros x [? ?]. split; [lia|done].
    + apply utf8_ascii. eapply Forall_impl; [apply demo_text_bytes|]. by intros x [? _].
  - intros rpc. apply demo_message_decodes.
  - intros response. apply demo_message_decodes.
Qed.

(** ** The protocol guard *)

(** An object in an array asks for version 9, the outermost one for version 2. *)
Definition scanned : list Member :=
  let field := bytes_of "minProtocolVersion" in
  [mkMember [32] (bytes_of "entries") [] [32]
     (OPEN_BRACKET :: (OPEN_BRACE :: ([] ++ string_text field ++ [] ++ COLON :: [] ++ [57] ++ []) ++ [CLOSE_BRACE])
        ++ [CLOSE_BRACKET]) [];
   mkMember [] field [] [] [50] [10]].

Lemma scanned_ok : Forall member_ok scanned.
Proof.
  assert (json_string (bytes_of "minProtocolVersion")) as Hf
    by (apply plain_string; repeat (apply Forall_cons; split; [split; discriminate|]); apply Forall_nil_2).
  assert (forall b, is_ascii_digit b = true -> json_value [b]) as Hd.
  { intros b Hb. apply value_number, number_intro; [by right|constructor]. }
  apply Forall_cons. split; [|apply Forall_cons; split; [|apply Forall_nil_2]].
  - split; cbn [mb_before mb_raw mb_after_key mb_before_value mb_value mb_after].
    + by repeat constructor.
    + apply plain_string. repeat (apply Forall_cons; split; [split; discriminate|]). apply Forall_nil_2.
    + apply Forall_nil_2.
    + by repeat constructor.
    + apply (value_array ([] ++ (OPEN_BRACE :: ([] ++ string_text (bytes_of "minProtocolVersion")
        ++ [] ++ COLON :: [] ++ [57] ++ []) ++ [CLOSE_BRACE]) ++ [])), elements_one;
        [apply Forall_nil_2| |apply Forall_nil_2].
      apply value_object, members_one; try apply Forall_nil_2; [done|by apply Hd].
    + apply Forall_nil_2.
  - split; cbn [mb_before mb_raw mb_after_key mb_before_value mb_value mb_after]; try apply Forall_nil_2.
    + done.
    + by apply Hd.
    + by repeat constructor.
Qed.

Lemma protocol_scan_exact_witness :
  top_level_raft_rpc_min_protocol_version (string_of_bytes (object_text scanned)) "minProtocolVersion"
  = RaftOk (Some 2).
Proof.
  rewrite (protocol_scan_exact _ _ scanned); [vm_compute; reflexivity|vm_compute; reflexivity|apply scanned_ok].
Defined.

(** ** Pooled connections *)

(** A peer whose answer tells the length of the frame it answers. *)
Definition demo_answer (addr : string) (body : bytes) : string :=
  string_of_bytes (serialize_with_protocol (rpc_response_to_value
    (PreVoteResponse (Z.of_nat (length body)) true))).

Definition demo_calls : Calls := calls_start [] [] [ExchangeTimesOut true; ExchangeTimesOut true].

(** A call whose frame was written and which timed out. *)
Definition timed_out : Calls :=
  ltac:(result_of_some (snd <$> result_of (connection_call demo_answer Strict "b" PreVoteKind [1; 2] 1000 demo_calls))).

Lemma rpc_answer_is_own_witness :
  exists s', connection_call demo_answer Strict "b" PreVoteKind [1; 2; 3] 1000 timed_out
      = Done (Some (RaftOk (PreVoteResponse 3 true))) s'.
Proof.
  destruct (rpc_answer_is_own demo_answer [] [] [ExchangeTimesOut true; ExchangeTimesOut true] timed_out
    Strict "b" PreVoteKind [1; 2; 3] 1000) as (res & s' & Hrun & Hres).
  - apply star_one. exists Strict, "b"%string, PreVoteKind, [1; 2], 1000.
    eexists. vm_compute. reflexivity.
  - exists s'. rewrite Hrun. f_equal.
    apply (f_equal (fun x => match x with Done r _ => r | _ => None end)) in Hrun. rewrite <-Hrun. vm_compute. reflexivity.
Defined.

(** ** The queue *)

Definition demo_cache_node : CacheNode := mkCacheNode ClientResponseCacheState_default (mkCacheTelemetry 0 0 0) 8.

Definition demo_lock (uuid : string) : Request.t := lock_request uuid "a" None.

(** Two requests are queued, the first client leaves, the driver starts. *)
Definition demo_queue_events : list PipelineEvent :=
  [Enqueue 1 (demo_lock "r1") None None; Enqueue 2 (demo_lock "r2") None None; Cancel 0; Drive 0 (RaftOk [])].

Definition demo_pipeline : Pipeline :=
  ltac:(result_of_some (snd <$> result_of (for_each demo_queue_events (pipeline_event BrokerRaftConfig_default)
    (pipeline_start demo_cache_node)))).

Lemma events_star config events s s' :
  for_each events (pipeline_event config) s = Done tt s' -> star (pipeline_step config) s s'.
Proof.
  revert s. induction events as [|e events IH]; intros s; simpl; [intros [= <-]; constructor|].
  intros H. apply bind_done_inv in H as ([] & s1 & H1 & H2). econstructor; [by exists e|by apply IH].
Qed.

Lemma demo_pipeline_reachable :
  star (pipeline_step BrokerRaftConfig_default) (pipeline_start demo_cache_node) demo_pipeline.
Proof. apply (events_star _ demo_queue_events). vm_compute. reflexivity. Qed.

Lemma queued_requests_accounted_witness :
  pl_tickets demo_pipeline = 2%nat /\
  length (pl_drivers demo_pipeline) = (if pl_driver_active demo_pipeline then 1 else 0)%nat /\
  (length (pl_pending demo_pipeline) <= max_pending BrokerRaftConfig_default)%nat.
Proof.
  destruct (queued_requests_accounted BrokerRaftConfig_default demo_cache_node demo_pipeline
    demo_pipeline_reachable) as (H1 & _ & H2 & _).
  split; [reflexivity|]. split; [exact H1|exact H2].
Defined.


(** ** Forwarding *)

#[local] Existing Instance list_queue.
#[local] Existing Instance demo_env.
#[local] Existing Instance demo_value_codec.
#[local] Existing Instance demo_digest.
#[local] Existing Instance stream_raft_codec.
#[local] Existing Instance demo_payload_codec.

(** Each peer answers that the other one leads; the world is the time. *)
Definition ping_pong : ProxyLink (W := Z) :=
  mkProxyLink (fun s => Done s.2 s)
    (fun candidate _ _ => okR (ProxyResponse 2 None (Some "raft node is not leader"%string)
       (Some (if bool_decide (peer_id candidate = "a"%string) then "c" else "a")%string) None))
    (fun delay s => Done false (s.1, s.2 + delay)).

Definition voter_ids : gset string := {["a"%string; "b"%string; "c"%string]}.

Lemma ping_pong_ok : proxy_link_ok (fun now => now) voter_ids ping_pong.
Proof.
  split.
  - done.
  - intros candidate rpc timeout s Hok. apply wp_ret. split; [done|lia].
  - intros delay s Hd Hok. apply wp_done. eexists _, _. split; [done|]. simpl. split; [done|]. split; [lia|].
    intros _. lia.
Qed.

Lemma follower_node_ok : follower_ok voter_ids follower_node.
Proof.
  constructor.
  - vm_compute. discriminate.
  - vm_compute. discriminate.
  - intros p Hp. change (p ∈ [peer "a"; peer "b"; peer "c"]) in Hp.
    rewrite !elem_of_cons, elem_of_nil in Hp. unfold voter_ids.
    destruct Hp as [->|[->|[->|[]]]]; cbn [peer peer_id]; set_solver.
Qed.

(** The budget of a quarter of a second is used up chasing hints. *)
Lemma proxy_ends_witness :
  exists result n' w',
    proxy_ephemeral_request_to_leader ping_pong (clock_at 7) (demo_lock "r1") "r1" 0 true 16
      (duration_from_millis 250) (follower_node, 0) = Done result (n', w') /\
    forward_ok (demo_lock "r1") "r1" result n'.
Proof.
  apply (proxy_ends (fun now => now) voter_ids).
  - exact ping_pong_ok.
  - exact follower_node_ok.
  - vm_compute. lia.
Defined.

(** ** Repeated requests *)

(** A leader that heard from its quorum just now; nothing else happens. *)
Definition demo_link : EphemeralLink (W := Z) :=
  mkEphemeralLink ping_pong (mret false) (mret 0) (mret 1)
    (fun _ _ _ _ => errR (ENotLeader None None)) (fun _ => errR (ENotLeader None None)) (fun _ => mret false).

Definition granted : Response.t := Response.Lock "r1" "a" true 1 (Some "u1"%string) (Some 7) None None.

(** The leader, which has answered "r1". *)
Definition answered_leader : RaftNode :=
  ltac:(result_of_some (snd <$> result_of (on_cache (remember_client_response "r1" "r1" granted) leader_node))).

Lemma answered_leader_takes : takes_requests demo_link BrokerRaftConfig_default (clock_at 7) answered_leader 0.
Proof.
  constructor; [vm_compute; reflexivity..|]. right. exists 0. split; [reflexivity|]. vm_compute. reflexivity.
Qed.

Lemma repeated_request_not_proposed_witness :
  exists n', run_ephemeral_with_proxy_mode demo_link BrokerRaftConfig_default (clock_at 7) 0 (demo_lock "r1") "r1"
      0 true AllowFollowerProxy (answered_leader, 0) = Done (RaftOk (Some granted)) (n', 0) /\
    rn_log n' = rn_log answered_leader.
Proof.
  destruct (repeated_request_not_proposed demo_link BrokerRaftConfig_default (clock_at 7) 0 (demo_lock "r1") "r1"
    0 true AllowFollowerProxy answered_leader 0 (mkCachedClientResponse "r1" true (Some granted)))
    as (n' & Hrun & Hlog & _).
  - exact answered_leader_takes.
  - vm_compute. discriminate.
  - reflexivity.
  - vm_compute. reflexivity.
  - exists n'. split; [exact Hrun|exact Hlog].
Defined.

(** ** Messages *)

Definition token_config : BrokerRaftConfig :=
  {| brc_broker := BrokerConfig_default; brc_enabled := true; brc_node_id := "a"%string; brc_bind_addr := None;
     brc_advertise_addr := None; brc_data_dir := "raft"%string; brc_data_dir_lock := true;
     brc_heartbeat_interval := 1; brc_election_timeout_min := 100; brc_election_timeout_max := 200;
     brc_snapshot_interval := 1000; brc_snapshot_max_log_entries := 0; brc_snapshot_max_log_bytes := 0;
     brc_snapshot_max_log_age := 1000; brc_trailing_log_entries := 10; brc_append_entries_max_entries := 10;
     brc_append_entries_max_bytes := 1000; brc_append_entries_max_inline_batches := 1;
     brc_target_quorum_extra_fanout := 0; brc_install_snapshot_chunk_bytes := 100;
     brc_install_snapshot_max_staged_bytes := 1000; brc_install_snapshot_max_staged_transfers := 1;
     brc_install_snapshot_stale_transfer_after := 1000000; brc_client_batch_max_entries := 10;
     brc_client_pipeline_max_batches := 1; brc_client_batch_max_pending := 10; brc_client_batch_max_delay := 0;
     brc_client_response_cache_max_entries := 10; brc_proxy_retry_budget := 0; brc_sync_log := true;
     brc_sync_commit := true; brc_peer_token := Some "secret"%string; brc_max_inbound_rpc_connections := 10;
     brc_inbound_rpc_idle_timeout := 1000; brc_peers := [] |}.

Definition token_node : TransferNode := mkTransferNode leader_node token_config ∅ ∅ 0.

Definition demo_vote (token : option string) : RaftRpc := PreVoteRpc token 3 "b" (peer_addr (peer "b")) 3 2.

Lemma unauthorized_rpc_refused_witness :
  handle_rpc demo_link (clock_at 7) (demo_vote (Some "Secret"%string)) (token_node, 0)
  = Done (ErrorResponse 2 "unauthorized raft RPC") (token_node, 0).
Proof.
  apply (unauthorized_rpc_refused demo_link (clock_at 7) "secret" (demo_vote (Some "Secret"%string)) token_node 0).
  - reflexivity.
  - simpl. discriminate.
Defined.

Definition frame_of (r : RaftResult bytes) : bytes := match r with RaftOk b => b | RaftErr _ => [] end.

Definition vote_response_sent : RaftRpcResponse * (TransferNode * Z) :=
  ltac:(result_of_some (result_of (handle_rpc demo_link (clock_at 7) (demo_vote (Some "secret"%string)) (token_node, 0)))).

Lemma rpc_exchange_witness :
  vote_response_sent.1 = PreVoteResponse 2 false /\
  exists line reader', read_raft_frame_bounded 10000
      (demo_reader (frame_bytes (frame_of
        (serialize_raft_rpc_response_frame_bounded vote_response_sent.1 10000)) ++ [])) = Done (inr line) reader' /\
    deserialize_raft_rpc_response_frame line = RaftOk vote_response_sent.1 /\
    validate_raft_rpc_response_kind PreVoteKind vote_response_sent.1 = RaftOk vote_response_sent.1.
Proof.
  split; [vm_compute; reflexivity|].
  destruct (rpc_exchange demo_link (clock_at 7) (demo_vote None) 10000 token_node vote_response_sent.2.1 0 0
    (frame_of (serialize_raft_rpc_frame_bounded (demo_vote (Some "secret"%string)) 10000))
    (frame_of (serialize_raft_rpc_response_frame_bounded vote_response_sent.1 10000)) vote_response_sent.1
    (demo_reader (frame_bytes (frame_of
      (serialize_raft_rpc_frame_bounded (demo_vote (Some "secret"%string)) 10000)) ++ []))
    (demo_reader (frame_bytes (frame_of
      (serialize_raft_rpc_response_frame_bounded vote_response_sent.1 10000)) ++ [])) [] [] [] [])
    as (_ & _ & (line & reader' & H1 & _ & H2 & H3)).
  - vm_compute. reflexivity.
  - apply demo_reader_contents.
  - vm_compute. reflexivity.
  - vm_compute. reflexivity.
  - apply demo_reader_contents.
  - exists line, reader'. split; [exact H1|]. split; [exact H2|exact H3].
Defined.
